(* ===== verification/_CoqProject ===== *)
-Q . S2P
Prelude.v
GoStrings.v
Version.v
GoHeap.v
MapStr.v
MapStrFacts.v
SafeMapStr.v
Dissect.v
DissectFacts.v
GoTime.v
GoDate.v
Trigger.v
GoFS.v
Rotator.v
RotatorFacts.v
RotatorRun.v
RotatorSafe.v
Monitoring.v
MonitoringFacts.v
Snapshot.v
SnapshotFacts.v
RingBuffer.v
GoUtf8.v
GoRegexp.v
Match.v
RegexpSem.v
RegexpStore.v
MatchFacts.v
MatchFlatten.v
MatchCompile.v
MatchDate.v
MatchOptimize.v
MatchStable.v
MatchProps.v
GoBase64.v
Keystore.v
KeystoreFacts.v
CloudID.v
CloudIDFacts.v
Periodic.v
PeriodicFacts.v
TlsNames.v
TlsTypes.v
TlsVerify.v
TlsFacts.v
Opt.v
StrSet.v
FileWatcher.v
Paths.v
TlsLoad.v
TlsLoadFacts.v
Logp.v
LogpFacts.v
ConfigMask.v
Config.v
Loader.v
GoNet.v
Transport.v
TransportTls.v
TransportClient.v
HttpCommon.v
HttpCommonFacts.v
Kibana.v
Fleet.v
KibanaFacts.v
LogpLogger.v
TypeConv.v
Adapter.v
AdapterFacts.v
Service.v
PipeListener.v
Api.v
Pdh.v
PdhFacts.v
DissectConvert.v
ConfigOpts.v
FileHelpers.v
MonitoringConfig.v
DevTools.v
Console.v
