(* ===== verification/Prelude.v ===== *)
(** * elastic-agent-libs: a verification development

    The repository is a Go library of packages that Elastic agents share.  This
    development models the packages that carry logic of their own and proves
    what makes them correct.  Paths below are under src/.

    ** Files and what they model

    - Prelude: outcomes of Go calls ([res]: value, error, panic, or an exhausted
      step budget), calls with a store ([SE]) with their total-correctness
      triples, machine integers, the iteration order of Go maps ([MapOrder]) and
      [sort.Slice] ([SliceSort]) as interfaces: both promise only what Go
      promises, and every theorem holds for every instance.
    - GoStrings, GoUtf8, GoBase64, GoTime, GoDate, GoFS, GoHeap, GoRegexp: what the code
      uses of the standard library and of the language: byte strings and
      [strconv], runes, base64, instants, the calendar and the one
      layout of dates the code writes and reads, the file system with
      [filepath.Glob], the store of shared maps, the syntax trees of
      regexp/syntax.
    - Version: version/version.go.
    - MapStr, MapStrFacts: mapstr/mapstr.go.  A [mapstr.M] is a reference into
      the store of GoHeap, so that aliasing is visible; dotted keys are resolved
      by [mapFind], on which [Put], [GetValue], [HasKey] and [Delete] are built.
      SafeMapStr: safemapstr/safemapstr.go, on the same store.
    - Dissect, DissectFacts: processors/dissect.  [newParser] turns a tokenizer
      into delimiters and fields, [extract] finds the positions of the keys in a
      message, [resolve] applies the fields, [Dissect] is their composition.
      DissectConvert: values converted to the types of their fields, and the
      UTF-8 trimmer, compared with the ASCII one.
    - Trigger, Rotator, RotatorFacts, RotatorRun, RotatorSafe: file/trigger.go
      and file/rotator.go.  The state is the file system, the readings of the
      clock, the operating-system calls made (each of which an oracle may make
      fail) and the record [Rotator] with its [dateRotator] and triggers.
      FileHelpers: replacement of a file with its retries on every system, and
      file information (file/helper_*.go, fileinfo*.go), with a clock.
    - Monitoring, MonitoringFacts: monitoring/registry.go, metrics.go, opts.go,
      namespace.go.  Registries and metrics are objects behind pointers.
      Snapshot, SnapshotFacts: the visitors, snapshots and unique lists of
      monitoring; RingBuffer: monitoring/report/buffer.  Adapter, AdapterFacts:
      monitoring/adapter, filters and a go-metrics registry over a registry of
      Monitoring; the third-party go-metrics registry is a class.
      Its Module Histogram: the histogram that a visit clears, visits and updates as steps.
      MonitoringConfig: settings and default registry of monitoring.go, removed
      settings (logp/cfgwarn) and the builders of transport/dialer.
    - Match (match/), with RegexpSem, RegexpStore, MatchFacts, MatchFlatten,
      MatchCompile, MatchDate, MatchOptimize, MatchStable, MatchProps.  The optimiser rewrites
      shared syntax nodes through pointers, so it runs on a store of nodes; a
      node denotes an expression, whose matches are those of RegexpSem.
    - Keystore, KeystoreFacts: keystore/, both builds, and the replacement of a
      file (file/helper_other.go, helper_windows.go), on a disk whose calls may fail.
    - CloudID, CloudIDFacts: cloudid/ and monitoring/cloudid.go.
    - Periodic, PeriodicFacts: periodic/ratelimited.go as interleaved steps of
      callers and workers.
    - TlsNames, TlsTypes, TlsVerify, TlsFacts, TlsLoad, TlsLoadFacts:
      transport/tlscommon.  Host names; the configuration types and their texts;
      the verification functions, on a store of configurations and pools;
      loading of certificates, keys and authorities.  Chain building, digests
      and PEM decoding are the standard library's, given by classes with laws.
      Module TlsDiag of TlsLoadFacts: the diagnostics of certificates (diag.go).
    - Opt, StrSet, FileWatcher, Paths: opt/, str/, filewatcher/, paths/.
    - Logp, LogpFacts: logp/ and logp/configure.  A zap core is a tree of
      outputs, wrappers and tees; configuring replaces the global logger.
      LogpLogger: the methods of a logger, and in its Module LogpSinks the cores
      for syslog and the Windows event log.
    - ConfigMask: masking of secrets (config/config.go, mapstr's [Format]) on a
      store of shared maps and arrays.  Config: namespaces, merging and flags of
      config/.  ConfigOpts: the global options as slices of shared arrays, every
      method of a configuration and the flags, concurrent merges as steps.
      Loader: loader/.  The third-party ucfg library is a class.
    - GoNet: addresses, HTTP headers and URLs of the standard library.
      Transport, TransportTls, TransportClient: transport/.  Dialers are calls on
      a store of sockets, TLS configurations and what each TLS dialer remembers;
      the network answers the n-th call by a class.  [DialerSpec] is the
      interface between the dialers and the client.
    - HttpCommon, HttpCommonFacts: transport/httpcommon.  Options, the transport
      built from the settings, round trippers, reading of bodies;
      Module HttpDiag: the diagnosis of requests and of the errors they meet.
    - Kibana, Fleet, KibanaFacts: kibana/ and useragent/.  A client appends
      requests to those sent; the server answers by all of them.  JSON is a
      class per type.
    - PipeListener: transport/pipelistener.go, and Service: the goroutines of
      service/ that stop a service, as machines of interleaved steps.
      Module ServiceProf of Service: profiles and the metrics page.
    - TypeConv: transform/typeconv/typeconv.go, timestamps as events, their
      unfolder as a state machine, and the converter that owns both ends.
      Module DateTime: times as text and JSON (transform/typeconv/datetime.go).
    - Api: api/ and api/npipe, where the endpoint listens and its handlers.
    - Pdh, PdhFacts: helpers/windows/pdh, queries and counters over a class for
      the calls of the Windows library, with their buffers of 16-bit units.
    - DevTools: dev-tools/mage, the arguments and answers of the go tool, the
      changed files of a checkout (read with Dissect), the benchmark targets.
    - Console: the drivers of testing/, iobuf/ and upgrade/details.

    ** What the theorems show

    - mapstr: a successful [Put] is read back and disturbs no other entry of any
      map, also with shared maps; lookups are total on any store; [Delete]
      removes one entry; safemapstr's [Put] keeps what it has to step over.
    - dissect: without fixed-length keys, a successful extraction accounts for
      the message up to its last delimiter; extraction ends, with the condition under
      which it does not; parsed
      tokenizers satisfy the invariant the extraction relies on; a message composed
      of values is taken apart into them; both trimmers agree on ASCII, and a
      conversion finds what plain dissection finds.
    - file: with rotation on startup and without faults, any sequence of rotations,
      syncs and writes that fit succeeds, with bounds on file sizes and on the number
      of backups, the newest kept; with arbitrary faults only log files are ever touched.  Replacing a file
      loses nothing whatever fails, on every system.
    - monitoring: exact conditions and effects of adding, creating, finding and
      removing names; a visit reports every metric once and a flat snapshot (without
      expvar) is exactly the visible metrics; the ring buffer keeps the last entries.
    - match: on texts without line feeds a compiled matcher accepts exactly those its
      pattern occurs in, within the class of patterns the theorem names; every turn
      of the optimiser keeps the meaning of the expression.
    - keystore: saving is atomic whatever fails but a write (on Windows the previous
      keystore may be left under another name), a saved store reopens with the
      same secrets, and without faults sequences of operations refine a map with a
      saved copy.
    - periodic: in any interleaving no event is lost or counted twice, up to
      multiples of 2^64; with one controlling goroutine stopping flushes; a waiting
      stop can return.
    - tlscommon: exactly which connections client and server accept, what a
      verification may add to a pool, which host names a certificate covers;
      loading composed with verification; the diagnostics agree with loading.
    - logp: exactly where an entry is written after configuring, with and
      without a typed output; the cores for system logs refine the outputs they
      stand for, with severities and texts.
    - config, loader: masking reaches every sensitive entry of the maps it descends
      into and changes nothing else; the section a namespace chooses; inputs are appended in order; the
      caller's map is restored; concurrent merges see their own options.
    - transport: a TLS dialer has verified the host it dialled, whatever it
      dialled before; a client whose dialer meets [DialerSpec] never holds more than
      the socket of its connection.  httpcommon: from the settings to verified
      https connections, those without a proxy; bodies never exceed the limit; the proxy and the headers
      that result from any options.
    - kibana: exactly what a request carries; a client never mixes kinds of
      credentials; Fleet calls against a server that stores tokens.
    - typeconv: a timestamp survives folding and unfolding, an unfolder takes
      exactly the sequences of events that encode one, and no conversion is
      influenced by earlier ones.  service: the stop function runs at most once
      and a notified service finishes when the service manager and the stop function
      do their part.  pipe listener: dialed and
      accepted connections are paired.  adapter: a metric is registered once.
      api: a listener is where and with the mode the configuration says.
    - pdh: an opened query and the system agree on its counters after any calls,
      failing ones included; instance names and lists of strings are read back.
      dev-tools: changed files are those git prints.  testing: the report of
      any test has the layout meant.
    - version, cloudid, opt, str, filewatcher, paths: round trips, orders,
      widths, change detection, resolution.
    - Departures of the code from its documentation or from safety are theorems
      as well: non-termination and panics of dissect, sizes the rotator does not
      keep, nil-map panics and aliasing in monitoring, a keystore lost to a
      short write or, on Windows, hidden by a failed one, host names not verified
      behind a proxy, secrets printed, map entries lost, leaked sockets and files,
      zone offsets that overflow, metrics that are lost, error responses taken
      for answers, options mixed between calls, files lost by a paused rename,
      fields missing in system logs, and others.

    ** Bounds and fuel

    Go [int] and [uint] are 64 bits wide and wrap ([wrap64], [wrapu64]).  Fuel
    appears where the code recurses on data that may be cyclic or loops without
    a structural bound: the depth of nested maps, the nesting of registries, the
    turns of dissect's greedy loop, the blocks of a PEM file, the turns of the
    optimiser.  Exhausted fuel is a separate outcome, never a Go result; the
    theorems give the fuel that is enough (the rank of the registry, the length
    of the message plus one, the depth of the value), or show that none is.
    [mapFind] has enough fuel by construction: each turn shortens the key.
    For the optimiser of match, each turn is shown to terminate and to keep the
    meaning.  On tame expressions (captures aside: no counted or doubled
    repetition, a flat concatenation whose neighbours differ) the turns are
    bounded by [turns_enough] and compilation returns; for the others a fixed
    point is not proved, and the theorems hold for every number of turns with
    which it returns.

    ** Not modelled, and why

    Concurrency inside an operation, periodic, service, the pipe listener, the
    global options and histograms apart: the mutexes make the exported operations
    atomic.  Log encoders and JSON output.  The HTTP handler of the report buffer
    and the trace events of the request diagnostics.  What third-party libraries
    (ucfg, zap, go-structform, go-metrics), the Windows API, net/http servers,
    contexts and crypto/tls do inside; the redirection of the standard error
    stream, which is one system call; generated constants, targets that only run a
    tool, and the servers and certificates for tests. *)
From stdpp Require Export base tactics option list numbers gmap strings sorting.
From Stdlib Require Export ZArith Lia.

#[global] Set Default Goal Selector "!".
#[global] Open Scope Z_scope.

(** ** Outcomes of Go calls

    A Go call either returns a value, returns a non-nil [error], or panics.
    Loops that are not structurally recursive are run with a step budget; a
    call whose budget is exhausted answers [OutOfFuel], which never stands for
    a Go result: theorems about such calls either exhibit a budget that is
    enough or show that none is. *)
Inductive panic :=
| PIndexOutOfRange
| PNilMap
| PDivideByZero
| PNilPointer
| PExplicit (msg : string).

Inductive res (E A : Type) :=
| Ok (a : A)
| Err (e : E)
| Panic (p : panic)
| OutOfFuel.
Arguments Ok {E A} a.
Arguments Err {E A} e.
Arguments Panic {E A} p.
Arguments OutOfFuel {E A}.

#[global] Instance res_ret E : MRet (res E) := λ A, Ok.
#[global] Instance res_bind E : MBind (res E) := λ A B f m,
  match m with
  | Ok a => f a
  | Err e => Err e
  | Panic p => Panic p
  | OutOfFuel => OutOfFuel
  end.

(** ** Calls with a store

    A call that reads and writes a store of type [S]: the store is threaded
    through returns, errors and panics alike, so what a call wrote before
    failing stays written. *)
Definition SE (S E A : Type) : Type := S → S * res E A.

#[global] Instance SE_ret S E : MRet (SE S E) := λ A a s, (s, Ok a).
#[global] Instance SE_bind S E : MBind (SE S E) := λ A B f m s,
  match m s with
  | (s', Ok a) => f a s'
  | (s', Err e) => (s', Err e)
  | (s', Panic p) => (s', Panic p)
  | (s', OutOfFuel) => (s', OutOfFuel)
  end.

Definition fail {S E A} (e : E) : SE S E A := λ s, (s, Err e).
Definition panics {S E A} (p : panic) : SE S E A := λ s, (s, Panic p).
Definition no_fuel {S E A} : SE S E A := λ s, (s, OutOfFuel).
Definition get_store {S E} : SE S E S := λ s, (s, Ok s).
Definition set_store {S E} (s : S) : SE S E unit := λ _, (s, Ok tt).

Definition lift {S E A} (r : res E A) : SE S E A := λ s, (s, r).
Definition modify {S E} (f : S → S) : SE S E unit := λ s, (f s, Ok tt).
Definition map_err {S E E' A} (f : E → E') (c : SE S E A) : SE S E' A := λ s,
  match c s with
  | (s', Ok a) => (s', Ok a)
  | (s', Err e) => (s', Err (f e))
  | (s', Panic p) => (s', Panic p)
  | (s', OutOfFuel) => (s', OutOfFuel)
  end.

(** [a, err := c()]: the error as a value. *)
Definition attempt {S E A} (c : SE S E A) : SE S E (A + E) := λ s,
  match c s with
  | (s', Ok a) => (s', Ok (inl a))
  | (s', Err e) => (s', Ok (inr e))
  | (s', Panic p) => (s', Panic p)
  | (s', OutOfFuel) => (s', OutOfFuel)
  end.

Fixpoint foreach {S E A} (l : list A) (body : A → SE S E unit) : SE S E unit :=
  match l with
  | [] => mret tt
  | x :: l' => body x ≫= λ _, foreach l' body
  end.

Lemma SE_bind_Ok {S E A B} (c : SE S E A) (f : A → SE S E B) s s' b :
  (c ≫= f) s = (s', Ok b) ↔ ∃ s1 a, c s = (s1, Ok a) ∧ f a s1 = (s', Ok b).
Proof.
  unfold mbind, SE_bind. destruct (c s) as [s1 [a| | |]] eqn:E0; split; try done.
  - eauto.
  - by intros (? & ? & [= <- <-] & ?).
  - by intros (? & ? & [=] & ?).
  - by intros (? & ? & [=] & ?).
  - by intros (? & ? & [=] & ?).
Qed.

Lemma SE_bind_run {S E A B} (c : SE S E A) (k : A → SE S E B) s s1 a :
  c s = (s1, Ok a) → (c ≫= k) s = k a s1.
Proof. intros Hc. unfold mbind, SE_bind. by rewrite Hc. Qed.

Lemma SE_bind_get {S E A} (k : S → SE S E A) s : (get_store ≫= k) s = k s s.
Proof. done. Qed.

(** ** Total correctness of calls with a store

    [triple P c Q]: from every store in [P] the call returns without error, and
    its result and final store are in [Q]. *)
Definition triple {S E A} (P : S → Prop) (c : SE S E A) (Q : A → S → Prop) : Prop :=
  ∀ s, P s → ∃ s' a, c s = (s', Ok a) ∧ Q a s'.

Section triples.
Context {S E : Type}.
Implicit Types (P : S → Prop).

Lemma triple_ret {A} (a : A) P (Q : A → S → Prop) :
  (∀ s, P s → Q a s) → triple P (mret a : SE S E A) Q.
Proof. intros H s Hs. by exists s, a; auto. Qed.

Lemma triple_bind {A B} (c : SE S E A) (k : A → SE S E B) P Q R :
  triple P c Q → (∀ a, triple (Q a) (k a) R) → triple P (c ≫= k) R.
Proof.
  intros Hc Hk s Hs. destruct (Hc s Hs) as (s1 & a & He & HQ).
  destruct (Hk a s1 HQ) as (s2 & b & He2 & HR). exists s2, b. split; [|done].
  unfold mbind, SE_bind. by rewrite He.
Qed.

Lemma triple_map_err {E' A} (g : E → E') (c : SE S E A) P Q :
  triple P c Q → triple P (map_err g c) Q.
Proof.
  intros Hc s Hs. destruct (Hc s Hs) as (s1 & a & He & HQ). exists s1, a.
  unfold map_err. by rewrite He.
Qed.

Lemma triple_attempt {A} (c : SE S E A) P Q :
  triple P c Q → triple P (attempt c) (λ r s, ∃ a, r = inl a ∧ Q a s).
Proof.
  intros Hc s Hs. destruct (Hc s Hs) as (s1 & a & He & HQ). exists s1, (inl a).
  unfold attempt. rewrite He. eauto.
Qed.

Lemma triple_modify (g : S → S) P (Q : unit → S → Prop) :
  (∀ s, P s → Q tt (g s)) → triple P (modify g : SE S E unit) Q.
Proof. intros H s Hs. exists (g s), tt. eauto. Qed.

Lemma triple_get P : triple P (get_store : SE S E S) (λ a s, a = s ∧ P s).
Proof. intros s Hs. by exists s, s. Qed.

Lemma triple_conseq {A} (c : SE S E A) P P' (Q Q' : A → S → Prop) :
  triple P' c Q' → (∀ s, P s → P' s) → (∀ a s, Q' a s → Q a s) → triple P c Q.
Proof. intros Hc HP HQ s Hs. destruct (Hc s (HP s Hs)) as (s1 & a & ? & ?). exists s1, a. auto. Qed.

Lemma triple_exists {X A} (c : SE S E A) (P : X → S → Prop) Q :
  (∀ x, triple (P x) c Q) → triple (λ s, ∃ x, P x s) c Q.
Proof. intros H s [x Hs]. by apply (H x). Qed.

Lemma triple_pure {A} (c : SE S E A) (φ : Prop) P Q :
  (φ → triple P c Q) → triple (λ s, φ ∧ P s) c Q.
Proof. intros H s [? Hs]. by apply H. Qed.
End triples.

(** Conjuncts, without unfolding anything. *)
Ltac conjs := repeat match goal with |- _ ∧ _ => split end.

(** A call is defined when it neither panics nor runs out of budget. *)
Definition defined {E A} (r : res E A) : Prop :=
  match r with Ok _ | Err _ => True | Panic _ | OutOfFuel => False end.

Lemma res_bind_Ok {E A B} (m : res E A) (f : A → res E B) b :
  (m ≫= f) = Ok b ↔ ∃ a, m = Ok a ∧ f a = Ok b.
Proof.
  split; [destruct m; simpl; intros; try discriminate; eauto|].
  intros (a & -> & ?). done.
Qed.

(** ** Machine integers

    [uint64] (and Go's [uint] on 64-bit targets) is [Z] modulo [2^64]; [int64]
    (and [int]) is the two's complement window around 0. *)
Definition two64 : Z := 18446744073709551616.
Definition two63 : Z := 9223372036854775808.
Definition two32 : Z := 4294967296.
Definition two31 : Z := 2147483648.

Definition wrapu64 (z : Z) : Z := z mod two64.
Definition wrap64 (z : Z) : Z := (z + two63) mod two64 - two63.
Definition wrap32 (z : Z) : Z := (z + two31) mod two32 - two31.

Definition in_u64 (z : Z) : Prop := 0 ≤ z < two64.
Definition in_i64 (z : Z) : Prop := - two63 ≤ z < two63.

#[global] Instance in_u64_dec z : Decision (in_u64 z).
Proof. unfold in_u64. apply _. Defined.
#[global] Instance in_i64_dec z : Decision (in_i64 z).
Proof. unfold in_i64. apply _. Defined.

Ltac unfold_width := unfold in_u64, in_i64, wrapu64, wrap64, two64, two63 in *.

Lemma wrapu64_small z : in_u64 z → wrapu64 z = z.
Proof. unfold_width. intros. by apply Z.mod_small. Qed.

Lemma wrapu64_range z : in_u64 (wrapu64 z).
Proof. unfold_width. apply Z.mod_pos_bound. lia. Qed.

Lemma wrap64_small z : in_i64 z → wrap64 z = z.
Proof. unfold_width. intros. rewrite Z.mod_small; lia. Qed.

Lemma wrap64_range z : in_i64 (wrap64 z).
Proof.
  unfold_width.
  pose proof (Z.mod_pos_bound (z + 9223372036854775808) 18446744073709551616). lia.
Qed.

Create HintDb golib.
#[export] Hint Resolve wrapu64_range wrap64_range : golib.

(** Invert every successful bind in the context. *)
Ltac inv_res :=
  repeat match goal with
  | H : (?m ≫= ?f) = Ok ?b |- _ =>
      apply res_bind_Ok in H; destruct H as (? & ? & H)
  | H : Ok _ = Ok _ |- _ => injection H as H; subst
  | H : Err _ = Ok _ |- _ => discriminate H
  | H : Panic _ = Ok _ |- _ => discriminate H
  | H : OutOfFuel = Ok _ |- _ => discriminate H
  | H : mret _ = Ok _ |- _ => unfold mret, res_ret in H
  end.

(** ** Iteration order of Go maps

    The order in which [range] visits a map is not specified.  A development
    that depends on it takes the order as a parameter: any enumeration of the
    entries, each exactly once. *)
Class MapOrder := {
  map_order : ∀ {A : Type}, gmap string A → list (string * A);
  map_order_perm : ∀ {A} (m : gmap string A), map_order m ≡ₚ map_to_list m
}.

(** One possible order, for evaluation. *)
#[global] Program Instance canonical_order : MapOrder | 100 := {
  map_order A m := map_to_list m
}.
Next Obligation. done. Qed.

Section map_order_facts.
Context `{MapOrder} {A : Type}.
Implicit Types (m : gmap string A) (k : string) (v : A).

Lemma elem_of_map_order m k v : (k, v) ∈ map_order m ↔ m !! k = Some v.
Proof. rewrite (map_order_perm m). apply elem_of_map_to_list. Qed.

Lemma NoDup_map_order m : NoDup (map_order m).*1.
Proof. rewrite (map_order_perm m). apply NoDup_fst_map_to_list. Qed.

Lemma length_map_order m : length (map_order m) = size m.
Proof. rewrite (map_order_perm m). apply length_map_to_list. Qed.

Lemma list_to_map_map_order m : list_to_map (map_order m) = m.
Proof.
  etransitivity; [|apply list_to_map_to_list].
  apply list_to_map_proper; [apply NoDup_map_order | apply map_order_perm].
Qed.
End map_order_facts.

(** ** Sorting with [sort.Slice]

    [sort.Slice] orders a slice by a strict weak order and promises nothing
    about elements the order does not separate.  The less function is given by
    a key here, which is what every caller in the modelled code uses. *)
Class SliceSort := {
  sort_slice : ∀ {A : Type}, (A → A → bool) → list A → list A;
  sort_slice_perm : ∀ {A} (less : A → A → bool) l, sort_slice less l ≡ₚ l;
  sort_slice_sorted : ∀ {A} (less : A → A → bool) l,
    (∀ x y z, less x y = false → less y z = false → less x z = false) →
    (∀ x y, less x y = true → less y x = false) →
    StronglySorted (λ x y, less y x = false) (sort_slice less l)
}.

(** Insertion sort, which is what the Go implementation runs on short slices. *)
Fixpoint insert_sorted {A} (less : A → A → bool) (x : A) (l : list A) : list A :=
  match l with
  | [] => [x]
  | y :: l' => if less x y then x :: l else y :: insert_sorted less x l'
  end.

Definition insertion_sort {A} (less : A → A → bool) (l : list A) : list A :=
  foldl (λ acc x, insert_sorted less x acc) [] l.

Section insertion_sort_facts.
Context {A : Type} (less : A → A → bool).

Lemma insert_sorted_perm x l : insert_sorted less x l ≡ₚ x :: l.
Proof.
  induction l as [|y l IH]; simpl; [done|].
  destruct (less x y); [done|]. rewrite IH. apply Permutation_swap.
Qed.

Lemma foldl_insert_perm l acc :
  foldl (λ acc x, insert_sorted less x acc) acc l ≡ₚ acc ++ l.
Proof.
  revert acc. induction l as [|x l IH]; intros acc; simpl; [by rewrite app_nil_r|].
  rewrite IH, insert_sorted_perm. by rewrite <- Permutation_middle.
Qed.

Lemma insertion_sort_perm l : insertion_sort less l ≡ₚ l.
Proof. apply (foldl_insert_perm l []). Qed.

Hypothesis less_neg_trans : ∀ x y z, less x y = false → less y z = false → less x z = false.
Hypothesis less_asym : ∀ x y, less x y = true → less y x = false.

Lemma insert_sorted_sorted x l :
  StronglySorted (λ a b, less b a = false) l →
  StronglySorted (λ a b, less b a = false) (insert_sorted less x l).
Proof.
  induction 1 as [|y l Hs IH Hy]; simpl; [by repeat constructor|].
  destruct (less x y) eqn:E.
  - constructor; [by constructor|]. constructor; [by apply less_asym|].
    eapply Forall_impl; [exact Hy|]. intros z Hz. simpl in Hz.
    apply less_neg_trans with y; [done | by apply less_asym].
  - constructor; [done|]. rewrite insert_sorted_perm. by constructor.
Qed.

Lemma foldl_insert_sorted l acc :
  StronglySorted (λ a b, less b a = false) acc →
  StronglySorted (λ a b, less b a = false)
    (foldl (λ acc x, insert_sorted less x acc) acc l).
Proof.
  revert acc. induction l as [|x l IH]; intros acc Hacc; simpl; [done|].
  apply IH. by apply insert_sorted_sorted.
Qed.
End insertion_sort_facts.

#[global] Program Instance insertion_slice_sort : SliceSort | 100 := {
  sort_slice A less l := insertion_sort less l
}.
Next Obligation. intros. apply insertion_sort_perm. Qed.
Next Obligation. intros. apply foldl_insert_sorted; [done..|constructor]. Qed.
