(* ===== verification/GoStrings.v ===== *)
(** * Go strings, [strings] and [strconv]

    A Go string is an immutable sequence of bytes, here a [string] of 8-bit
    [ascii] characters.  This file models the functions of the packages
    [strings] and [strconv] the modelled code calls, with the lemmas the
    components share. *)
From S2P Require Import Prelude.
From Stdlib Require Export Ascii.
From Stdlib Require String.

Open Scope string_scope.
Open Scope Z_scope.

#[global] Arguments String.append !_ _ / : simpl nomatch.
#[global] Arguments Ascii.eqb !_ !_ / : simpl nomatch.

(** ** Prefixes, suffixes and slices *)
Fixpoint stake (n : nat) (s : string) : string :=
  match n, s with
  | S n', String a s' => String a (stake n' s')
  | _, _ => ""
  end.

Fixpoint sdrop (n : nat) (s : string) : string :=
  match n, s with
  | O, _ => s
  | S n', String _ s' => sdrop n' s'
  | S _, EmptyString => ""
  end.

Definition strlen (s : string) : Z := Z.of_nat (String.length s).

(** [s[i:j]]; a bound outside [0 <= i <= j <= len(s)] panics. *)
Definition slice {E} (s : string) (i j : Z) : res E string :=
  if bool_decide (0 ≤ i ∧ i ≤ j ∧ j ≤ strlen s)
  then Ok (stake (Z.to_nat (j - i)) (sdrop (Z.to_nat i) s))
  else Panic PIndexOutOfRange.

Lemma sapp_assoc (a b c : string) : (a +:+ b) +:+ c = a +:+ (b +:+ c).
Proof. induction a; simpl; congruence. Qed.

Lemma sapp_nil_r (a : string) : a +:+ "" = a.
Proof. induction a; simpl; congruence. Qed.

Lemma length_sapp (a b : string) : String.length (a +:+ b) = (String.length a + String.length b)%nat.
Proof. induction a; simpl; congruence. Qed.

Lemma strlen_app a b : strlen (a +:+ b) = strlen a + strlen b.
Proof. unfold strlen. rewrite length_sapp. lia. Qed.

Lemma strlen_nonneg s : 0 ≤ strlen s.
Proof. unfold strlen. lia. Qed.

Lemma stake_sdrop n s : stake n s +:+ sdrop n s = s.
Proof. revert s. induction n as [|n IH]; intros [|a s]; simpl; try done. by rewrite IH. Qed.

Lemma length_sdrop n s : String.length (sdrop n s) = (String.length s - n)%nat.
Proof. revert s. induction n as [|n IH]; intros [|a s]; simpl; try done. Qed.

Lemma length_stake n s : String.length (stake n s) = Nat.min n (String.length s).
Proof. revert s. induction n as [|n IH]; intros [|a s]; simpl; try done. by rewrite IH. Qed.

Lemma sdrop_sdrop m n s : sdrop m (sdrop n s) = sdrop (n + m) s.
Proof.
  revert s. induction n as [|n IH]; intros [|a s]; simpl; try done. by destruct m.
Qed.

Lemma stake_length_app a b : stake (String.length a) (a +:+ b) = a.
Proof. induction a; simpl; [by destruct b|congruence]. Qed.

Lemma sdrop_length_app a b : sdrop (String.length a) (a +:+ b) = b.
Proof. induction a; simpl; congruence. Qed.

Lemma sdrop_all n s : (String.length s ≤ n)%nat → sdrop n s = "".
Proof.
  revert s. induction n as [|n IH]; intros [|a s]; simpl; intros; try done; [lia|].
  apply IH. lia.
Qed.

Lemma stake_all n s : (String.length s ≤ n)%nat → stake n s = s.
Proof.
  revert s. induction n as [|n IH]; intros [|a s]; simpl; intros; try done; [lia|].
  f_equal. apply IH. lia.
Qed.

Lemma sapp_inj_r a b c : a +:+ b = a +:+ c → b = c.
Proof. induction a; simpl; intros Heq; [done|]. injection Heq. auto. Qed.

Lemma slice_Ok {E} s i j :
  0 ≤ i → i ≤ j → j ≤ strlen s →
  slice (E:=E) s i j = Ok (stake (Z.to_nat (j - i)) (sdrop (Z.to_nat i) s)).
Proof. intros. unfold slice. by rewrite bool_decide_true. Qed.

#[global] Arguments stake !_ !_ / : simpl nomatch.
#[global] Arguments sdrop !_ !_ / : simpl nomatch.

Lemma slice_middle {E} a b c :
  slice (E:=E) (a +:+ b +:+ c) (strlen a) (strlen a + strlen b) = Ok b.
Proof.
  rewrite slice_Ok; rewrite ?strlen_app; try (pose proof (strlen_nonneg a);
    pose proof (strlen_nonneg b); pose proof (strlen_nonneg c); lia).
  f_equal. unfold strlen. rewrite Z.add_simpl_l, !Nat2Z.id.
  by rewrite sdrop_length_app, stake_length_app.
Qed.

(** ** [strings.HasPrefix], [strings.Index], [strings.LastIndex] *)
Fixpoint HasPrefix (s p : string) : bool :=
  match p, s with
  | "", _ => true
  | String _ _, "" => false
  | String b p', String a s' => Ascii.eqb a b && HasPrefix s' p'
  end.

#[global] Arguments HasPrefix !_ !_ / : simpl nomatch.

Fixpoint index_nat (s sub : string) : option nat :=
  if HasPrefix s sub then Some O
  else match s with
       | "" => None
       | String _ s' => S <$> index_nat s' sub
       end.

Definition Index (s sub : string) : Z :=
  match index_nat s sub with Some i => Z.of_nat i | None => -1 end.

Fixpoint last_index_nat (s sub : string) : option nat :=
  match s with
  | "" => if HasPrefix s sub then Some O else None
  | String _ s' =>
      match last_index_nat s' sub with
      | Some i => Some (S i)
      | None => if HasPrefix s sub then Some O else None
      end
  end.

Definition LastIndex (s sub : string) : Z :=
  match last_index_nat s sub with Some i => Z.of_nat i | None => -1 end.

Definition Contains (s sub : string) : bool :=
  match index_nat s sub with Some _ => true | None => false end.

(** [strings.HasSuffix(s, t)] *)
Definition HasSuffix (s t : string) : bool :=
  bool_decide (String.length t ≤ String.length s)%nat &&
  String.eqb (sdrop (String.length s - String.length t) s) t.

Lemma HasPrefix_spec s p : HasPrefix s p = true ↔ ∃ r, s = p +:+ r.
Proof.
  revert s. induction p as [|b p IH]; intros s; simpl.
  { split; [intros _; by exists s|by destruct s]. }
  destruct s as [|a s]; simpl; [split; [done|by intros [? ?]]|].
  rewrite andb_true_iff, Ascii.eqb_eq, IH. split.
  - intros [-> [r ->]]. by exists r.
  - intros [r Hr]. injection Hr as -> ->. split; [done|by exists r].
Qed.

Lemma HasPrefix_nil s : HasPrefix s "" = true.
Proof. by destruct s. Qed.

Lemma HasPrefix_app p r : HasPrefix (p +:+ r) p = true.
Proof. apply HasPrefix_spec. by exists r. Qed.

Lemma HasPrefix_length s p : HasPrefix s p = true → (String.length p ≤ String.length s)%nat.
Proof. intros [r ->]%HasPrefix_spec. rewrite length_sapp. lia. Qed.

Lemma index_nat_Some s sub i :
  index_nat s sub = Some i →
  s = stake i s +:+ sub +:+ sdrop (i + String.length sub) s ∧
  (i + String.length sub ≤ String.length s)%nat ∧
  HasPrefix (sdrop i s) sub = true.
Proof.
  revert i. induction s as [|a s IH]; intros i; simpl.
  - destruct sub; simpl; [|done]. intros [= <-]. done.
  - destruct (HasPrefix (String a s) sub) eqn:Hp.
    + intros [= <-]. split; [|split; [|done]].
      * apply HasPrefix_spec in Hp as [r Hr]. rewrite Hr. simpl.
        by rewrite sdrop_length_app.
      * by apply HasPrefix_length in Hp.
    + destruct (index_nat s sub) as [j|] eqn:Hj; simpl; intros [= <-].
      destruct (IH j eq_refl) as (H1 & H2 & H3). split; [|split; [lia|done]].
      simpl. f_equal. exact H1.
Qed.

Lemma index_nat_minimal s sub i j :
  index_nat s sub = Some i → (j < i)%nat → HasPrefix (sdrop j s) sub = false.
Proof.
  revert i j. induction s as [|a s IH]; intros i j; simpl.
  - destruct (HasPrefix "" sub); intros [= <-]; lia.
  - destruct (HasPrefix (String a s) sub) eqn:Hp; [intros [= <-]; lia|].
    destruct (index_nat s sub) as [k|] eqn:Hk; simpl; intros [= <-] Hlt.
    destruct j as [|j]; simpl; [done|]. apply IH with k; [done|lia].
Qed.

Lemma index_nat_None s sub j :
  index_nat s sub = None → (j ≤ String.length s)%nat → HasPrefix (sdrop j s) sub = false.
Proof.
  revert j. induction s as [|a s IH]; intros j; simpl.
  - destruct (HasPrefix "" sub) eqn:Hp; [done|]. intros _ Hj. by destruct j.
  - destruct (HasPrefix (String a s) sub) eqn:Hp; [done|].
    destruct (index_nat s sub) eqn:Hk; simpl; [done|]. intros _ Hj.
    destruct j as [|j]; simpl; [done|]. apply IH; [done|lia].
Qed.

Lemma Index_cases s sub :
  (Index s sub = -1 ∧ index_nat s sub = None) ∨
  (∃ i, Index s sub = Z.of_nat i ∧ index_nat s sub = Some i).
Proof. unfold Index. destruct (index_nat s sub); eauto. Qed.

(** ** [strings.Split] and [strings.Join] on a one-byte separator *)
Fixpoint Split (s : string) (c : ascii) : list string :=
  match s with
  | "" => [""]
  | String a s' =>
      if Ascii.eqb a c then "" :: Split s' c
      else match Split s' c with
           | [] => [String a ""]
           | w :: ws => String a w :: ws
           end
  end.

Fixpoint Join (l : list string) (sep : string) : string :=
  match l with
  | [] => ""
  | [w] => w
  | w :: ws => w +:+ sep +:+ Join ws sep
  end.

(** The byte [c] does not occur in [s]. *)
Fixpoint lacks (c : ascii) (s : string) : bool :=
  match s with
  | "" => true
  | String a s' => negb (Ascii.eqb a c) && lacks c s'
  end.

Lemma Split_nonempty s c : Split s c ≠ [].
Proof. destruct s as [|a s]; simpl; [done|]. destruct (Ascii.eqb a c); [done|]. by destruct (Split s c). Qed.

Lemma Split_lacks c w : lacks c w = true → Split w c = [w].
Proof.
  induction w as [|a w IH]; simpl; [done|].
  intros [Ha Hw]%andb_true_iff. apply negb_true_iff in Ha.
  by rewrite Ha, (IH Hw).
Qed.

Lemma Split_app_sep c w s :
  lacks c w = true → Split (w +:+ String c s) c = w :: Split s c.
Proof.
  induction w as [|a w IH]; simpl.
  - by rewrite Ascii.eqb_refl.
  - intros [Ha Hw]%andb_true_iff. apply negb_true_iff in Ha.
    by rewrite Ha, (IH Hw).
Qed.

Lemma Split_Join c l :
  l ≠ [] → Forall (λ w, lacks c w = true) l → Split (Join l (String c "")) c = l.
Proof.
  induction l as [|w l IH]; [done|]. intros _ Hl.
  apply Forall_cons in Hl as [Hw Hl]. destruct l as [|w' l].
  - simpl. by apply Split_lacks.
  - change (Join (w :: w' :: l) (String c ""))
      with (w +:+ String c (Join (w' :: l) (String c ""))).
    rewrite Split_app_sep by done. f_equal. by apply IH.
Qed.

Lemma Join_Split c s : Join (Split s c) (String c "") = s.
Proof.
  induction s as [|a s IH]; simpl; [done|].
  pose proof (Split_nonempty s c) as Hne.
  destruct (Ascii.eqb_spec a c) as [->|Hac].
  - destruct (Split s c) as [|w ws]; [done|]. by rewrite <- IH.
  - destruct (Split s c) as [|w [|w' ws]]; [done| |]; by rewrite <- IH.
Qed.

Lemma Split_pieces_lack c s : Forall (λ w, lacks c w = true) (Split s c).
Proof.
  induction s as [|a s IH]; simpl; [by repeat constructor|].
  destruct (Ascii.eqb a c) eqn:Hac; [by constructor|].
  destruct (Split s c) as [|w ws]; [by repeat constructor; simpl; rewrite Hac|].
  apply Forall_cons in IH as [Hw Hws]. constructor; [|done].
  simpl. by rewrite Hac, Hw.
Qed.

Lemma lacks_sapp c a b : lacks c (a +:+ b) = lacks c a && lacks c b.
Proof. induction a as [|x a IH]; simpl; [done|]. by rewrite IH, andb_assoc. Qed.

Lemma Contains_lacks c s : Contains s (String c "") = negb (lacks c s).
Proof.
  unfold Contains. induction s as [|a s IH]; simpl; [done|].
  rewrite HasPrefix_nil. destruct (Ascii.eqb a c); simpl; [done|].
  rewrite <- IH. by destruct (index_nat s _).
Qed.

(** ** [strconv.Itoa] and [strconv.Atoi] *)
Definition digit_char (d : Z) : ascii := ascii_of_N (Z.to_N (48 + d)).

Definition char_digit (a : ascii) : option Z :=
  let n := Z.of_N (N_of_ascii a) in
  if bool_decide (48 ≤ n ∧ n ≤ 57) then Some (n - 48) else None.

(** Decimal digits of [n >= 0]; 20 digits are enough for a 64-bit integer. *)
Fixpoint dec_digits (fuel : nat) (n : Z) : string :=
  match fuel with
  | O => ""
  | S f =>
      if n <? 10 then String (digit_char n) ""
      else dec_digits f (n / 10) +:+ String (digit_char (n mod 10)) ""
  end.

Lemma dec_digits_S f n :
  dec_digits (S f) n =
  if n <? 10 then String (digit_char n) ""
  else dec_digits f (n / 10) +:+ String (digit_char (n mod 10)) "".
Proof. done. Qed.

Definition Itoa (n : Z) : string :=
  if n <? 0 then "-" +:+ dec_digits 20 (- n) else dec_digits 20 n.

Fixpoint parse_digits (acc : Z) (s : string) : option Z :=
  match s with
  | "" => Some acc
  | String a s' =>
      match char_digit a with
      | Some d => parse_digits (acc * 10 + d) s'
      | None => None
      end
  end.

Inductive num_error := ErrSyntax | ErrRange.

(** [strconv.Atoi] on a 64-bit platform: an optional sign and at least one
    decimal digit; an integer outside [int64] is clamped and reported. *)
Definition Atoi (s : string) : Z * option num_error :=
  let '(neg, body) :=
    match s with
    | String a s' =>
        if Ascii.eqb a "+"%char then (false, s')
        else if Ascii.eqb a "-"%char then (true, s') else (false, s)
    | "" => (false, "")
    end in
  match body with
  | "" => (0, Some ErrSyntax)
  | _ =>
      match parse_digits 0 body with
      | None => (0, Some ErrSyntax)
      | Some v =>
          if neg then if two63 <? v then (- two63, Some ErrRange) else (- v, None)
          else if two63 <=? v then (two63 - 1, Some ErrRange) else (v, None)
      end
  end.

Lemma char_digit_digit_char d : 0 ≤ d < 10 → char_digit (digit_char d) = Some d.
Proof.
  intros Hd. assert (Hcases : d = 0 ∨ d = 1 ∨ d = 2 ∨ d = 3 ∨ d = 4 ∨ d = 5 ∨
    d = 6 ∨ d = 7 ∨ d = 8 ∨ d = 9) by lia.
  by repeat destruct Hcases as [->|Hcases]; [..|subst d].
Qed.

Lemma parse_digits_app a b acc :
  parse_digits acc (a +:+ b) = (v ← parse_digits acc a; parse_digits v b).
Proof.
  revert acc. induction a as [|x a IH]; intros acc; simpl; [done|].
  destruct (char_digit x); [apply IH|done].
Qed.

Lemma parse_digits_dec fuel n :
  0 ≤ n < 10 ^ Z.of_nat fuel → parse_digits 0 (dec_digits fuel n) = Some n.
Proof.
  revert n. induction fuel as [|f IH]; intros n Hn.
  { simpl in *. f_equal. lia. }
  cbn [dec_digits]. destruct (Z.ltb_spec n 10) as [Hlt|Hge].
  - cbn [parse_digits]. rewrite char_digit_digit_char by lia. done.
  - rewrite Nat2Z.inj_succ, Z.pow_succ_r in Hn by lia.
    rewrite parse_digits_app, IH.
    + cbn [mbind option_bind parse_digits].
      rewrite char_digit_digit_char by (apply Z.mod_pos_bound; lia).
      f_equal. pose proof (Z.div_mod n 10). lia.
    + split; [apply Z.div_pos; lia|]. apply Z.div_lt_upper_bound; lia.
Qed.

Lemma dec_digits_head fuel n :
  fuel ≠ O → 0 ≤ n → ∃ d s, 0 ≤ d < 10 ∧ dec_digits fuel n = String (digit_char d) s.
Proof.
  revert n. induction fuel as [|f IH]; intros n Hf Hn; [done|].
  cbn [dec_digits]. destruct (Z.ltb_spec n 10) as [Hlt|Hge]; [by exists n, ""|].
  destruct f as [|f].
  - exists (n mod 10), "". split; [apply Z.mod_pos_bound; lia|done].
  - destruct (IH (n / 10)) as (d & s & Hd & ->); [done|apply Z.div_pos; lia|].
    exists d. eexists. split; [done|]. reflexivity.
Qed.

Lemma digit_char_not_sign d :
  0 ≤ d < 10 → Ascii.eqb (digit_char d) "+" = false ∧ Ascii.eqb (digit_char d) "-" = false.
Proof.
  intros Hd. assert (Hcases : d = 0 ∨ d = 1 ∨ d = 2 ∨ d = 3 ∨ d = 4 ∨ d = 5 ∨
    d = 6 ∨ d = 7 ∨ d = 8 ∨ d = 9) by lia.
  by repeat destruct Hcases as [->|Hcases]; [..|subst d].
Qed.

Lemma Atoi_Itoa n : 0 ≤ n < two63 → Atoi (Itoa n) = (n, None).
Proof.
  intros Hn. unfold Itoa. destruct (Z.ltb_spec n 0); [lia|].
  destruct (dec_digits_head 20 n) as (d & s & Hd & Heq); [done|lia|].
  assert (Hp : parse_digits 0 (dec_digits 20 n) = Some n).
  { apply parse_digits_dec. unfold two63 in Hn. simpl. lia. }
  rewrite Heq in *. unfold Atoi. destruct (digit_char_not_sign d Hd) as [-> ->].
  rewrite Hp. destruct (Z.leb_spec two63 n); [lia|done].
Qed.

(** The digits [Itoa] prints are decimal digits, so they contain neither the
    separator of a version nor that of its suffix. *)
Lemma Atoi_Itoa_signed n : - two63 ≤ n < two63 → Atoi (Itoa n) = (n, None).
Proof.
  intros Hn. destruct (decide (0 ≤ n)); [apply Atoi_Itoa; lia|].
  unfold Itoa. destruct (Z.ltb_spec n 0); [|lia].
  destruct (dec_digits_head 20 (- n)) as (d & s & Hd & Heq); [done|lia|].
  pose proof (parse_digits_dec 20 (- n)) as Hp. rewrite Heq in *. cbn [String.append].
  unfold Atoi. cbn [Ascii.eqb Bool.eqb]. rewrite Hp.
  - destruct (Z.ltb_spec two63 (- n)); [lia|]. by rewrite Z.opp_involutive.
  - unfold two63 in Hn. change (10 ^ Z.of_nat 20) with 100000000000000000000. lia.
Qed.

Lemma parse_digits_ge acc s v : 0 ≤ acc → parse_digits acc s = Some v → acc ≤ v.
Proof.
  revert acc. induction s as [|a s IH]; intros acc Hacc; simpl; [by intros [= <-]|].
  destruct (char_digit a) as [d|] eqn:Hd; [|done]. intros H.
  assert (0 ≤ d).
  { unfold char_digit in Hd. case_bool_decide; [|done]. injection Hd as <-. lia. }
  apply IH in H; lia.
Qed.

Lemma Atoi_range s : in_i64 (Atoi s).1.
Proof.
  unfold Atoi. destruct (match s with "" => _ | String a s' => _ end) as [neg body].
  destruct body as [|b body]; [done|].
  destruct (parse_digits 0 (String b body)) as [v|] eqn:Hv; [|done].
  apply parse_digits_ge in Hv; [|lia]. unfold in_i64 in *. unfold two63 in *.
  destruct neg; repeat case_match; simpl; lia.
Qed.

Lemma lacks_dec_digits c fuel n :
  char_digit c = None → 0 ≤ n → lacks c (dec_digits fuel n) = true.
Proof.
  intros Hc. assert (Hone : ∀ d, 0 ≤ d < 10 → Ascii.eqb (digit_char d) c = false).
  { intros d Hd. apply Ascii.eqb_neq. intros <-. by rewrite char_digit_digit_char in Hc. }
  revert n. induction fuel as [|f IH]; intros n Hn; [done|]. cbn [dec_digits].
  destruct (Z.ltb_spec n 10) as [Hlt|Hge]; [cbn; by rewrite Hone by lia|].
  rewrite lacks_sapp, IH by (apply Z.div_pos; lia).
  cbn. by rewrite Hone by (apply Z.mod_pos_bound; lia).
Qed.

Lemma lacks_Itoa c n : char_digit c = None → 0 ≤ n → lacks c (Itoa n) = true.
Proof.
  intros Hc Hn. unfold Itoa. destruct (Z.ltb_spec n 0); [lia|]. by apply lacks_dec_digits.
Qed.

(** ** Byte-wise comparison of strings *)
Lemma ascii_compare_N a b : Ascii.compare a b = N.compare (N_of_ascii a) (N_of_ascii b).
Proof. reflexivity. Qed.

Lemma N_of_ascii_inj a b : N_of_ascii a = N_of_ascii b → a = b.
Proof. intros H. rewrite <- (ascii_N_embedding a), <- (ascii_N_embedding b). congruence. Qed.

Lemma leb_cons a s b t :
  String.leb (String a s) (String b t) = true ↔
  (N_of_ascii a < N_of_ascii b)%N ∨ (a = b ∧ String.leb s t = true).
Proof.
  unfold String.leb. cbn [String.compare]. rewrite ascii_compare_N.
  destruct (N.compare_spec (N_of_ascii a) (N_of_ascii b)) as [He|Hl|Hg].
  - apply N_of_ascii_inj in He as ->. split; [by right|].
    intros [Hlt|[_ ?]]; [lia|done].
  - split; [by left|done].
  - split; [done|]. intros [?|[-> _]]; lia.
Qed.

Lemma leb_trans (a b c : string) :
  String.leb a b = true → String.leb b c = true → String.leb a c = true.
Proof.
  revert b c. induction a as [|x a IH]; intros [|y b] [|z c]; try done.
  rewrite !leb_cons. intros [?|[-> ?]] [?|[-> ?]]; [left; lia|by left|by left|].
  right. eauto.
Qed.

#[global] Arguments dec_digits : simpl never.
