(* ===== verification/Version.v ===== *)
(** * Package [version] (src/version/version.go)

    Semantic versions [major.minor.bugfix(-meta)]: the parser [New], the
    comparisons [LessThanOrEqual], [LessThan] and [LessThanMajorMinor].
    [UnmarshalJSON] only adds JSON string decoding around [New] and is not
    modelled. *)
From S2P Require Import Prelude GoStrings.

Open Scope string_scope.
Open Scope Z_scope.

Record V := mkV {
  version : string;
  Major : Z;
  Minor : Z;
  Bugfix : Z;
  Meta : string
}.

Inductive version_error :=
| NotSemver (s : string)
| BadMajor (s : string)
| BadMinor (s : string)
| BadBugfix (s : string).

(** [v, err = strconv.Atoi(s); if err != nil] as an outcome. *)
Definition atoi_or {E} (e : string → E) (s : string) : res E Z :=
  match Atoi s with
  | (v, None) => Ok v
  | (_, Some _) => Err (e s)
  end.

Definition New (ver : string) : res version_error V :=
  let '(body, meta) :=
    if Contains ver "-" then
      match Split ver "-" with
      | t0 :: t1 :: _ => (t0, t1)
      | _ => (ver, "")
      end
    else (ver, "") in
  match Split body "." with
  | [a; b; c] =>
      major ← atoi_or BadMajor a;
      minor ← atoi_or BadMinor b;
      bugfix ← atoi_or BadBugfix c;
      Ok (mkV ver major minor bugfix meta)
  | _ => Err (NotSemver body)
  end.

Definition MustNew (ver : string) : res version_error V :=
  match New ver with
  | Err _ => Panic (PExplicit ver)
  | r => r
  end.

Definition IsValid (v : V) : bool := negb (String.eqb (version v) "").

Definition IsMajor (v : V) (major : Z) : bool := major =? Major v.

Definition metaIsLessThanOrEqual (v v1 : V) : bool :=
  if String.eqb (Meta v) "" && String.eqb (Meta v1) "" then true
  else if String.eqb (Meta v) "" then false
  else if String.eqb (Meta v1) "" then true
  else String.leb (Meta v) (Meta v1).

Definition LessThanOrEqual (v : V) (withMeta : bool) (v1 : V) : bool :=
  if withMeta && String.eqb (version v) (version v1) then true
  else if Major v <? Major v1 then true
  else if Major v =? Major v1 then
    if Minor v <? Minor v1 then true
    else if Minor v =? Minor v1 then
      if Bugfix v <? Bugfix v1 then true
      else if Bugfix v =? Bugfix v1 then
        if withMeta then metaIsLessThanOrEqual v v1 else true
      else false
    else false
  else false.

Definition LessThanMajorMinor (v v1 : V) : bool :=
  if Major v <? Major v1 then true
  else if Major v =? Major v1 then
    if Minor v <? Minor v1 then true else false
  else false.

Definition LessThan (v v1 : V) : bool :=
  let lessThan := LessThanMajorMinor v v1 in
  if lessThan then true
  else if Minor v =? Minor v1 then
    if Bugfix v <? Bugfix v1 then true else false
  else false.

Definition VString (v : V) : string := version v.

(** ** Specifications *)

(** The canonical text of a version. *)
Definition print (major minor bugfix : Z) (meta : option string) : string :=
  Join [Itoa major; Itoa minor; Itoa bugfix] "." +:+
  match meta with None => "" | Some m => "-" +:+ m end.

(** Lexicographic order on (major, minor, bugfix). *)
Definition lex_lt (v w : V) : Prop :=
  Major v < Major w ∨
  (Major v = Major w ∧ (Minor v < Minor w ∨ (Minor v = Minor w ∧ Bugfix v < Bugfix w))).

Definition same_release (v w : V) : Prop :=
  Major v = Major w ∧ Minor v = Minor w ∧ Bugfix v = Bugfix w.

(** A version as [New] builds it: the text determines the other fields. *)
Definition parsed (v : V) : Prop := New (version v) = Ok v.

Ltac zcases :=
  repeat match goal with
  | |- context [?a <? ?b] => destruct (Z.ltb_spec a b)
  | |- context [?a =? ?b] => destruct (Z.eqb_spec a b)
  | H : context [?a <? ?b] |- _ => destruct (Z.ltb_spec a b)
  | H : context [?a =? ?b] |- _ => destruct (Z.eqb_spec a b)
  end.

Lemma atoi_or_Itoa {E} (e : string → E) n : 0 ≤ n < two63 → atoi_or e (Itoa n) = Ok n.
Proof. intros. unfold atoi_or. by rewrite Atoi_Itoa. Qed.

Lemma lacks_triple c a b d :
  char_digit c = None → c ≠ "."%char → 0 ≤ a → 0 ≤ b → 0 ≤ d →
  lacks c (Join [Itoa a; Itoa b; Itoa d] ".") = true.
Proof.
  intros Hc Hdot Ha Hb Hd. cbn [Join].
  rewrite !lacks_sapp, (lacks_Itoa c a Hc Ha), (lacks_Itoa c b Hc Hb), (lacks_Itoa c d Hc Hd). cbn.
  destruct (Ascii.eqb_spec "." c); [congruence|done].
Qed.

Lemma Split_triple a b d :
  0 ≤ a → 0 ≤ b → 0 ≤ d →
  Split (Join [Itoa a; Itoa b; Itoa d] ".") "." = [Itoa a; Itoa b; Itoa d].
Proof. intros. apply Split_Join; [done|]. repeat constructor; by apply lacks_Itoa. Qed.

(** Parsing the canonical text [major.minor.bugfix] or
    [major.minor.bugfix-meta] returns exactly those numbers and that suffix,
    for all non-negative [int] components and any suffix without ['-']. *)
Theorem New_print_roundtrip (a b c : Z) (meta : option string) :
  0 ≤ a < two63 → 0 ≤ b < two63 → 0 ≤ c < two63 →
  (∀ m, meta = Some m → lacks "-" m = true) →
  New (print a b c meta) = Ok (mkV (print a b c meta) a b c (default "" meta)).
Proof.
  intros Ha Hb Hc Hm.
  assert (Hl : lacks "-" (Join [Itoa a; Itoa b; Itoa c] ".") = true)
    by (apply lacks_triple; [done|done|lia..]).
  unfold New, print. set (body := Join _ _) in *.
  assert (Hb3 : Split body "." = [Itoa a; Itoa b; Itoa c]) by (apply Split_triple; lia).
  rewrite Contains_lacks, lacks_sapp, Hl. destruct meta as [m|].
  - change ("-" +:+ m) with (String "-" m).
    rewrite (Split_app_sep "-" body m Hl), (Split_lacks _ m) by auto.
    simpl. by rewrite Hb3, !atoi_or_Itoa.
  - rewrite sapp_nil_r. simpl. by rewrite Hb3, !atoi_or_Itoa.
Qed.

Lemma New_print_roundtrip_witness :
  New "8.12.3-SNAPSHOT" = Ok (mkV "8.12.3-SNAPSHOT" 8 12 3 "SNAPSHOT").
Proof.
  refine (New_print_roundtrip 8 12 3 (Some "SNAPSHOT") _ _ _ _);
    [done|done|done|by intros m [= <-]].
Defined.

Lemma lex_trichotomy v w : lex_lt v w ∨ same_release v w ∨ lex_lt w v.
Proof. unfold lex_lt, same_release. lia. Qed.

Lemma LessThanOrEqual_no_meta v w :
  LessThanOrEqual v false w = true ↔ lex_lt v w ∨ same_release v w.
Proof. unfold LessThanOrEqual, lex_lt, same_release. simpl. zcases; split; intros; try done; lia. Qed.

Lemma LessThanOrEqual_meta v w :
  LessThanOrEqual v true w = true ↔
  version v = version w ∨ lex_lt v w ∨
  (same_release v w ∧ metaIsLessThanOrEqual v w = true).
Proof.
  unfold LessThanOrEqual, lex_lt, same_release. simpl.
  destruct (String.eqb_spec (version v) (version w)) as [He|Hne].
  { split; [by left|done]. }
  zcases; split; intros; try done; naive_solver lia.
Qed.

Lemma metaIsLessThanOrEqual_total v w :
  metaIsLessThanOrEqual v w = true ∨ metaIsLessThanOrEqual w v = true.
Proof.
  unfold metaIsLessThanOrEqual.
  destruct (String.eqb (Meta v) ""), (String.eqb (Meta w) ""); simpl; auto.
  apply String.leb_total.
Qed.

Lemma metaIsLessThanOrEqual_trans u v w :
  metaIsLessThanOrEqual u v = true → metaIsLessThanOrEqual v w = true →
  metaIsLessThanOrEqual u w = true.
Proof.
  unfold metaIsLessThanOrEqual.
  destruct (String.eqb (Meta u) ""), (String.eqb (Meta v) ""), (String.eqb (Meta w) "");
    simpl; try done.
  apply leb_trans.
Qed.

Lemma metaIsLessThanOrEqual_antisym v w :
  metaIsLessThanOrEqual v w = true → metaIsLessThanOrEqual w v = true → Meta v = Meta w.
Proof.
  unfold metaIsLessThanOrEqual.
  destruct (String.eqb_spec (Meta v) ""), (String.eqb_spec (Meta w) "");
    simpl; try done; [congruence|]. apply String.leb_antisym.
Qed.

Lemma parsed_same_text v w : parsed v → parsed w → version v = version w → v = w.
Proof. unfold parsed. intros Hv Hw He. rewrite He, Hw in Hv. by injection Hv. Qed.

(** On parsed versions the shortcut on equal texts adds nothing. *)
Lemma LessThanOrEqual_parsed v w :
  parsed v → parsed w →
  LessThanOrEqual v true w = true ↔
  lex_lt v w ∨ (same_release v w ∧ metaIsLessThanOrEqual v w = true).
Proof.
  intros Hv Hw. rewrite LessThanOrEqual_meta. split; [|tauto].
  intros [He|H]; [|done]. rewrite <- (parsed_same_text v w Hv Hw He).
  right. split; [done|]. by destruct (metaIsLessThanOrEqual_total v v).
Qed.

(** On versions built by [New], [LessThanOrEqual] with the suffix taken
    into account is a total preorder, and two versions are below each other
    exactly when major, minor, bugfix and suffix agree. *)
Theorem LessThanOrEqual_total_preorder (u v w : V) :
  parsed u → parsed v → parsed w →
  (LessThanOrEqual u true v = true ∨ LessThanOrEqual v true u = true) ∧
  (LessThanOrEqual u true v = true → LessThanOrEqual v true w = true →
   LessThanOrEqual u true w = true) ∧
  (LessThanOrEqual u true v = true ∧ LessThanOrEqual v true u = true ↔
   same_release u v ∧ Meta u = Meta v).
Proof.
  intros Hu Hv Hw. rewrite !LessThanOrEqual_parsed by done.
  pose proof (metaIsLessThanOrEqual_trans u v w) as Ht.
  pose proof (metaIsLessThanOrEqual_antisym u v) as Ha.
  pose proof (metaIsLessThanOrEqual_total u v) as Hto.
  assert (Hr : Meta u = Meta v → metaIsLessThanOrEqual u v = true ∧ metaIsLessThanOrEqual v u = true).
  { unfold metaIsLessThanOrEqual. intros ->. destruct (String.eqb (Meta v) ""); [done|].
    simpl. by destruct (String.leb_total (Meta v) (Meta v)). }
  unfold lex_lt, same_release in *. split; [|split].
  - destruct (lex_trichotomy u v) as [|[|]], Hto; unfold lex_lt, same_release in *;
      intuition lia.
  - intuition lia.
  - intuition lia.
Qed.

Lemma LessThanOrEqual_total_preorder_witness :
  LessThanOrEqual (mkV "8.1.0-alpha" 8 1 0 "alpha") true (mkV "8.1.0" 8 1 0 "") = true.
Proof.
  refine (proj1 (proj2 (LessThanOrEqual_total_preorder
    (mkV "8.1.0-alpha" 8 1 0 "alpha") (mkV "8.1.0-beta" 8 1 0 "beta") (mkV "8.1.0" 8 1 0 "")
    _ _ _)) _ _); reflexivity.
Defined.

(** Exactly when [LessThan] departs from the numeric order: it also answers
    true for a larger major version whose minor is equal and whose bugfix is
    smaller. *)
Theorem LessThan_characterisation (v w : V) :
  LessThan v w = true ↔
  lex_lt v w ∨ (Major v > Major w ∧ Minor v = Minor w ∧ Bugfix v < Bugfix w).
Proof. unfold LessThan, LessThanMajorMinor, lex_lt. zcases; split; intros; try done; lia. Qed.

(** [LessThan] is not an order: [2.0.0] is reported smaller than [1.0.1]
    and [1.0.1] smaller than [2.0.0]. *)
Theorem LessThan_not_asymmetric :
  ∃ v w, New "2.0.0" = Ok v ∧ New "1.0.1" = Ok w ∧
    LessThan v w = true ∧ LessThan w v = true ∧ LessThanOrEqual v true w = false.
Proof.
  exists (mkV "2.0.0" 2 0 0 ""), (mkV "1.0.1" 1 0 1 ""). by repeat split.
Qed.
