(* ===== verification/GoHeap.v ===== *)
(** * The shared store of Go maps

    A [map[string]interface{}] (and [mapstr.M], which has the same underlying
    type) is a reference: two variables, or two entries of other maps, may hold
    the same map, and a write through one is seen through the other.  The store
    keeps the contents of every allocated map under a location; a map value is
    a location or nil.  Operations run in [HM], the store-and-error monad of
    Prelude.v over this store. *)
From S2P Require Import Prelude GoStrings.

Open Scope string_scope.
Open Scope Z_scope.

Abbreviation loc := positive (only parsing).

(** A reference to a Go map; [None] is the nil map. *)
Abbreviation mapref := (option positive) (only parsing).

(** The dynamic types a value of type [interface{}] can have, as far as the
    modelled code tells them apart.  Slices are given by their elements; any
    other Go value is opaque. *)
Inductive value :=
| VNil
| VBool (b : bool)
| VInt (z : Z)
| VString (s : string)
| VM (m : mapref)                  (** [mapstr.M] *)
| VMap (m : mapref)                (** [map[string]interface{}] *)
| VStrings (l : list string)       (** [[]string] *)
| VSlice (l : list value)          (** [[]interface{}] *)
| VMs (l : list mapref)            (** [[]mapstr.M] *)
| VMaps (l : list mapref)          (** [[]map[string]interface{}] *)
| VOther (tag : Z).

Abbreviation heap := (gmap positive (gmap string value)) (only parsing).

(** Errors are represented by the sentinel they wrap. *)
Inductive mapstr_error :=
| ErrKeyNotFound
| ErrKeyCollision
| ErrNotMapType
| ErrExpectedMap          (** "expected map but type is %T" *)
| ErrExpectedStrings      (** "expected string array by type is %T" *)
| ErrAlterFailed (why : string)
| ErrEmptyReplacement.

Abbreviation HM := (SE (gmap positive (gmap string value)) mapstr_error).

(** Contents of a map; a nil map reads as empty. *)
Definition hget (h : heap) (m : mapref) : gmap string value :=
  match m with Some l => default ∅ (h !! l) | None => ∅ end.

Definition read (m : mapref) : HM (gmap string value) := λ h, (h, Ok (hget h m)).

(** [m[k] = v]; assigning to an entry of a nil map panics. *)
Definition write (m : mapref) (k : string) (v : value) : HM unit := λ h,
  match m with
  | Some l => (<[l := <[k := v]> (hget h m)]> h, Ok tt)
  | None => (h, Panic PNilMap)
  end.

(** [delete(m, k)] *)
Definition remove (m : mapref) (k : string) : HM unit := λ h,
  match m with
  | Some l => (<[l := delete k (hget h m)]> h, Ok tt)
  | None => (h, Ok tt)
  end.

(** [M{}] or [make(M, n)] *)
Definition alloc : HM mapref := λ h,
  let l := fresh (dom h) in (<[l := ∅]> h, Ok (Some l)).

(** [for k, v := range m]: the keys are those of the map when the loop starts,
    in an unspecified order; each value is read when its turn comes, and an
    entry removed meanwhile is skipped.  Entries added meanwhile, which Go may
    or may not produce, are not produced. *)
Definition range_map `{MapOrder} (m : mapref) (body : string → value → HM unit) : HM unit :=
  λ h,
  foreach (map_order (hget h m)).*1
    (λ k h',
       match hget h' m !! k with
       | Some v => body k v h'
       | None => (h', Ok tt)
       end) h.

(** ** Facts about reads and writes *)
Section heap_facts.
Implicit Types (h : heap) (l : loc) (m : mapref) (k : string) (v : value).

Lemma hget_insert_eq h l x : hget (<[l := x]> h) (Some l) = x.
Proof. unfold hget. by rewrite lookup_insert_eq. Qed.

Lemma hget_insert_ne h l x m : m ≠ Some l → hget (<[l := x]> h) m = hget h m.
Proof. destruct m as [l'|]; [|done]. intros Hne. simpl. rewrite lookup_insert_ne; congruence. Qed.

Lemma hget_alloc_old h m :
  (∀ l, m = Some l → l ∈ dom h) → hget (<[fresh (dom h) := ∅]> h) m = hget h m.
Proof.
  intros Hm. apply hget_insert_ne. intros ->.
  apply (is_fresh (dom h)), Hm. done.
Qed.

Lemma hget_fresh h : hget h (Some (fresh (dom h))) = ∅.
Proof.
  simpl. destruct (h !! fresh (dom h)) eqn:E; [|done].
  exfalso. apply (is_fresh (dom h)), elem_of_dom. eauto.
Qed.
End heap_facts.
