(* ===== verification/MapStr.v ===== *)
(** * Package [mapstr] (src/mapstr/mapstr.go)

    [M] is a reference to a map in the store of GoHeap.v.  The file models
    every operation that reads or changes maps: dotted-key lookup ([mapFind])
    and its clients [Put], [GetValue], [HasKey], [Delete], [CopyFieldsTo],
    [AddTags]; the merges [Update], [DeepUpdate], [MergeFields], [Union]; the
    copies [Clone], [Flatten], [FlattenKeys]; the path walkers [Traverse],
    [FindFold], [AlterPath].  Printing and logging ([String], [Format],
    [MarshalLogObject]) are not modelled.

    Recursion over nested maps takes a depth budget, since a Go map may contain
    itself; the theorems give the budget that is enough for a store of a given
    depth. *)
From S2P Require Import Prelude GoStrings GoHeap.

Open Scope string_scope.
Open Scope Z_scope.

Definition FieldsKey : string := "fields".
Definition TagsKey : string := "tags".

Definition tryToMapStr (v : value) : option mapref :=
  match v with
  | VM m => Some m
  | VMap m => Some m
  | _ => None
  end.

Definition toMapStr (v : value) : HM mapref :=
  match tryToMapStr v with
  | Some m => mret m
  | None => fail ErrExpectedMap
  end.

(** ** Dotted-key lookup *)

(** The loop of [mapFind]; each turn shortens the key. *)
Fixpoint mapFind_loop (fuel : nat) (key : string) (data : mapref) (createMissing : bool)
  : HM (string * mapref * value * bool) :=
  match fuel with
  | O => no_fuel
  | S fuel' =>
      m ← read data;
      match m !! key with
      | Some v => mret (key, data, v, true)
      | None =>
          match index_nat key "." with
          | None => mret (key, data, VNil, false)
          | Some idx =>
              let k := stake idx key in
              d ← match m !! k with
                  | Some d => mret d
                  | None =>
                      if createMissing then
                        (l ← alloc; write data k (VM l) ≫= λ _, mret (VM l))
                      else fail ErrKeyNotFound
                  end;
              v ← toMapStr d;
              mapFind_loop fuel' (sdrop (S idx) key) v createMissing
          end
      end
  end.

Definition mapFind (key : string) (data : mapref) (createMissing : bool)
  : HM (string * mapref * value * bool) :=
  mapFind_loop (S (String.length key)) key data createMissing.

Definition Put (m : mapref) (key : string) (value : value) : HM GoHeap.value :=
  '(k, d, old, _) ← mapFind key m true;
  write d k value ≫= λ _, mret old.

Definition GetValue (m : mapref) (key : string) : HM value :=
  '(_, _, v, found) ← mapFind key m false;
  if (found : bool) then mret v else fail ErrKeyNotFound.

Definition HasKey (m : mapref) (key : string) : HM bool :=
  '(_, _, _, hasKey) ← mapFind key m false;
  mret hasKey.

Definition Delete (m : mapref) (key : string) : HM unit :=
  '(k, d, _, found) ← mapFind key m false;
  if (found : bool) then remove d k else fail ErrKeyNotFound.

Definition CopyFieldsTo (m to : mapref) (key : string) : HM unit :=
  v ← GetValue m key;
  Put to key v ≫= λ _, mret tt.

Definition AddTagsWithKey (ms : mapref) (key : string) (tags : list string) : HM unit :=
  match ms, tags with
  | None, _ | _, [] => mret tt
  | Some _, _ =>
      '(k, subMap, oldTags, present) ← mapFind key ms true;
      if negb present then write subMap k (VStrings tags)
      else match oldTags with
           | VStrings arr => write subMap k (VStrings (arr ++ tags))
           | VSlice arr => write subMap k (VSlice (arr ++ (VString <$> tags)))
           | _ => fail ErrExpectedStrings
           end
  end.

Definition AddTags (ms : mapref) (tags : list string) : HM unit :=
  AddTagsWithKey ms TagsKey tags.

(** ** Copies and merges that range over maps *)
Section ranging.
Context `{MapOrder}.

Definition Update (m d : mapref) : HM unit :=
  range_map d (λ k v, write m k v).

Definition Union (dict1 dict2 : mapref) : HM mapref :=
  dict ← alloc;
  range_map dict1 (λ k v, write dict k v) ≫= λ _,
  range_map dict2 (λ k v, write dict k v) ≫= λ _,
  mret dict.

(** [deepUpdateValue], with the recursive call to [deepUpdateMap] as [rec]. *)
Definition deepUpdateValue (rec : mapref → mapref → HM unit) (old : value) (val : mapref)
  : HM value :=
  match old with
  | VM None => mret (VM val)
  | VM (Some l) => rec (Some l) val ≫= λ _, mret (VM (Some l))
  | VMap None => mret (VM val)
  | VMap (Some l) => rec (Some l) val ≫= λ _, mret (VM (Some l))
  | _ => mret (VM val)
  end.

Fixpoint deepUpdateMap (fuel : nat) (m d : mapref) (overwrite : bool) : HM unit :=
  match fuel with
  | O => no_fuel
  | S fuel' =>
      range_map d (λ k v,
        match v with
        | VMap val | VM val =>
            cur ← read m;
            nv ← deepUpdateValue (λ m' d', deepUpdateMap fuel' m' d' overwrite)
                   (default VNil (cur !! k)) val;
            write m k nv
        | _ =>
            if overwrite then write m k v
            else cur ← read m;
                 match cur !! k with
                 | Some _ => mret tt
                 | None => write m k v
                 end
        end)
  end.

Definition DeepUpdate (fuel : nat) (m d : mapref) : HM unit := deepUpdateMap fuel m d true.

Definition DeepUpdateNoOverwrite (fuel : nat) (m d : mapref) : HM unit :=
  deepUpdateMap fuel m d false.

(** [make(M, len(m))] filled by [cloneMap], for each element of a slice. *)
Fixpoint clone_elements (clone : mapref → HM mapref) (l : list mapref) : HM (list mapref) :=
  match l with
  | [] => mret []
  | m :: l' => d ← clone m; a ← clone_elements clone l'; mret (d :: a)
  end.

Fixpoint cloneMap (fuel : nat) (dst src : mapref) : HM unit :=
  match fuel with
  | O => no_fuel
  | S fuel' =>
      let clone_into m := d ← alloc; cloneMap fuel' d m ≫= λ _, mret d in
      range_map src (λ k v,
        match v with
        | VM m | VMap m =>
            d ← alloc;
            write dst k (VM d) ≫= λ _,
            cloneMap fuel' d m
        | VMs a | VMaps a =>
            a' ← clone_elements clone_into a;
            write dst k (VMs a')
        | _ => write dst k v
        end)
  end.

Definition Clone (fuel : nat) (m : mapref) : HM mapref :=
  result ← alloc;
  cloneMap fuel result m ≫= λ _,
  mret result.

Definition join_key (prefix k : string) : string :=
  if String.eqb prefix "" then k else prefix +:+ "." +:+ k.

Fixpoint flatten (fuel : nat) (prefix : string) (inp out : mapref) : HM unit :=
  match fuel with
  | O => no_fuel
  | S fuel' =>
      range_map inp (λ k v,
        let fullKey := join_key prefix k in
        match tryToMapStr v with
        | Some m => flatten fuel' fullKey m out
        | None => write out fullKey v
        end)
  end.

Definition Flatten (fuel : nat) (m : mapref) : HM mapref :=
  out ← alloc;
  flatten fuel "" m out ≫= λ _,
  mret out.

(** [flattenKeys] appends to a slice; it writes no map, so it is a function of
    the store and answers [None] when the depth budget is exhausted. *)
Fixpoint flattenKeys (fuel : nat) (h : heap) (prefix : string) (inp : mapref)
  : option (list string) :=
  match fuel with
  | O => None
  | S fuel' =>
      (fix go (l : list (string * value)) : option (list string) :=
         match l with
         | [] => Some []
         | (k, v) :: l' =>
             let fullKey := join_key prefix k in
             sub ← match tryToMapStr v with
                   | Some m => flattenKeys fuel' h fullKey m
                   | None => Some []
                   end;
             rest ← go l';
             Some (sub ++ [fullKey] ++ rest)%list
         end) (map_order (hget h inp))
  end.

Definition FlattenKeys (fuel : nat) (h : heap) (m : mapref) : option (list string) :=
  flattenKeys fuel h "" m.

Definition mergeFieldsGetDestMap (target from : mapref) (underRoot : bool) : HM mapref :=
  if underRoot then mret target
  else
    t ← read target;
    match t !! FieldsKey with
    | None =>
        destMap ← alloc;
        write target FieldsKey (VM destMap) ≫= λ _,
        mret destMap
    | Some f => toMapStr f
    end.

Definition MergeFields (target from : mapref) (underRoot : bool) : HM unit :=
  f ← read from;
  if bool_decide (target = None) || bool_decide (size f = 0%nat) then mret tt
  else
    destMap ← mergeFieldsGetDestMap target from underRoot;
    range_map from (λ k v, write destMap k v).

Definition MergeFieldsDeep (fuel : nat) (target from : mapref) (underRoot : bool) : HM unit :=
  f ← read from;
  if bool_decide (target = None) || bool_decide (size f = 0%nat) then mret tt
  else
    destMap ← mergeFieldsGetDestMap target from underRoot;
    DeepUpdate fuel destMap from.

End ranging.

(** ** Walking a path *)

(** [strings.EqualFold]: equality under Unicode case folding, whose tables are
    a parameter. *)
Class CaseFold := {
  EqualFold : string → string → bool;
  EqualFold_refl : ∀ s, EqualFold s s = true;
  EqualFold_sym : ∀ s t, EqualFold s t = EqualFold t s
}.

(** The folding of ASCII letters, for evaluation. *)
Definition ascii_lower (a : ascii) : ascii :=
  let n := N_of_ascii a in
  if (65 <=? n)%N && (n <=? 90)%N then ascii_of_N (n + 32) else a.

Fixpoint lower (s : string) : string :=
  match s with "" => "" | String a s' => String (ascii_lower a) (lower s') end.

#[global] Program Instance ascii_fold : CaseFold | 100 := {
  EqualFold s t := String.eqb (lower s) (lower t)
}.
Next Obligation. intros. apply String.eqb_refl. Qed.
Next Obligation. intros. apply String.eqb_sym. Qed.

Inductive TraversalMode := CaseSensitiveMode | CaseInsensitiveMode.

Section traversal.
Context `{MapOrder, CaseFold}.

Definition match_key (mode : TraversalMode) (segment k : string) : bool :=
  match mode with
  | CaseInsensitiveMode => EqualFold segment k
  | CaseSensitiveMode => String.eqb segment k
  end.

(** The inner loop of [Traverse] over the keys [ks] of one [level].  The
    visitor's captured variables are the state [s]. *)
Fixpoint traverse_level {S : Type} (visitor : S → mapref → string → HM S)
    (mode : TraversalMode) (segment : string) (last : bool) (level : mapref)
    (ks : list string) (found : bool) (current : mapref) (s : S)
  : HM (bool * mapref * S) :=
  match ks with
  | [] => mret (found, current, s)
  | k :: ks' =>
      lv ← read level;
      match lv !! k with
      | None => traverse_level visitor mode segment last level ks' found current s
      | Some _ =>
          if negb (match_key mode segment k) then
            traverse_level visitor mode segment last level ks' found current s
          else if found then fail ErrKeyCollision
          else
            cur ← read current;
            let next := default VNil (cur !! k) in
            s' ← visitor s current k;
            if last then traverse_level visitor mode segment last level ks' true current s'
            else match tryToMapStr next with
                 | None => fail ErrNotMapType
                 | Some c =>
                     match mode with
                     | CaseSensitiveMode => mret (true, c, s')
                     | CaseInsensitiveMode =>
                         traverse_level visitor mode segment last level ks' true c s'
                     end
                 end
      end
  end.

Fixpoint traverse_segments {S : Type} (visitor : S → mapref → string → HM S)
    (mode : TraversalMode) (segments : list string) (found : bool) (current : mapref) (s : S)
  : HM (bool * S) :=
  match segments with
  | [] => mret (found, s)
  | segment :: rest =>
      if negb found then fail ErrKeyNotFound
      else
        lv ← read current;
        '(found', current', s') ←
          traverse_level visitor mode segment (bool_decide (rest = [])) current
            (map_order lv).*1 false current s;
        traverse_segments visitor mode rest found' current' s'
  end.

Definition Traverse {S : Type} (m : mapref) (path : string) (mode : TraversalMode)
    (visitor : S → mapref → string → HM S) (s : S) : HM S :=
  '(found, s') ← traverse_segments visitor mode (Split path ".") true m s;
  if negb found then fail ErrKeyNotFound else mret s'.

(** The variables captured by the visitor of [FindFold]. *)
Record find_state := mkFind {
  segmentCount : Z;
  matchedKey : string;
  fvalue : value
}.

Definition find_visitor (s : find_state) (level : mapref) (key : string) : HM find_state :=
  let n := segmentCount s - 1 in
  let mk := matchedKey s +:+ key in
  if negb (n =? 0) then mret (mkFind n (mk +:+ ".") (fvalue s))
  else lv ← read level; mret (mkFind n mk (default VNil (lv !! key))).

Definition FindFold (m : mapref) (path : string) : HM (string * value) :=
  s ← Traverse m path CaseInsensitiveMode find_visitor
        (mkFind (Z.of_nat (length (Split path "."))) "" VNil);
  mret (matchedKey s, fvalue s).

(** [alterFunc] returns the new key or an error text. *)
Definition alter_visitor (alterFunc : string → string + string)
    (_ : unit) (level : mapref) (key : string) : HM unit :=
  lv ← read level;
  let val := default VNil (lv !! key) in
  match alterFunc key with
  | inr why => fail (ErrAlterFailed why)
  | inl newKey =>
      if String.eqb newKey "" then fail ErrEmptyReplacement
      else if String.eqb newKey key then mret tt
      else match lv !! newKey with
           | Some _ => fail ErrKeyCollision
           | None => remove level key ≫= λ _, write level newKey val
           end
  end.

Definition AlterPath (m : mapref) (path : string) (mode : TraversalMode)
    (alterFunc : string → string + string) : HM unit :=
  Traverse m path mode (alter_visitor alterFunc) tt.

End traversal.
