(* ===== verification/MapStrFacts.v ===== *)
(** * Theorems about dotted-key access to [mapstr.M] *)
From S2P Require Import Prelude GoStrings GoHeap MapStr.

Open Scope string_scope.
Open Scope Z_scope.

(** ** Shape of a store *)

(** Map [a] has an entry holding map [b]. *)
Definition child (h : heap) (a b : loc) : Prop :=
  ∃ k v, hget h (Some a) !! k = Some v ∧ tryToMapStr v = Some (Some b).

Definition allocated (h : heap) (m : mapref) : Prop := ∀ l, m = Some l → l ∈ dom h.

(** Every map held by a map is in the store. *)
Definition closed (h : heap) : Prop := ∀ a b, child h a b → b ∈ dom h.

(** No map contains itself, directly or through others: maps can be ranked so
    that the rank decreases from a map to the maps it holds. *)
Definition ranked (rank : loc → Z) (h : heap) : Prop :=
  ∀ a b, child h a b → rank b < rank a.

Definition wf_heap (h : heap) : Prop := closed h ∧ ∃ rank, ranked rank h.

(** Every entry of [h] is still there in [h']. *)
Definition extends (h h' : heap) : Prop :=
  dom h ⊆ dom h' ∧
  ∀ m k v, hget h m !! k = Some v → hget h' m !! k = Some v.

#[global] Instance extends_preorder : PreOrder extends.
Proof.
  split.
  - intros h. by split.
  - intros h1 h2 h3 [? ?] [? ?]. split; [set_solver|auto].
Qed.

Section shape.
Implicit Types (h : heap) (m : mapref) (k : string) (v : value).

Lemma hget_Some_dom h l k v : hget h (Some l) !! k = Some v → l ∈ dom h.
Proof.
  simpl. destruct (h !! l) as [x|] eqn:E; simpl; [|by rewrite lookup_empty].
  intros _. apply elem_of_dom. eauto.
Qed.

Lemma extends_child h h' a b : extends h h' → child h a b → child h' a b.
Proof. intros [_ He] (k & v & Hk & Hv). exists k, v. eauto. Qed.

(** Creating an empty map under a free key of an allocated map. *)
Section create.
Context (h : heap) (a : loc) (k : string).
Context (Ha : a ∈ dom h) (Hk : hget h (Some a) !! k = None).
Let l := fresh (dom h).
Let h1 : heap := <[a := <[k := VM (Some l)]> (hget (<[l := ∅]> h) (Some a))]> (<[l := ∅]> h).

Lemma create_fresh_ne : a ≠ l.
Proof. intros ->. by apply (is_fresh (dom h)). Qed.

Lemma create_at : hget h1 (Some a) = <[k := VM (Some l)]> (hget h (Some a)).
Proof.
  unfold h1. rewrite hget_insert_eq, hget_insert_ne; [done|].
  intros [= He]. by apply create_fresh_ne.
Qed.

Lemma create_other m : m ≠ Some a → m ≠ Some l → hget h1 m = hget h m.
Proof. intros. unfold h1. by rewrite !hget_insert_ne. Qed.

Lemma create_new : hget h1 (Some l) = ∅.
Proof.
  unfold h1. rewrite hget_insert_ne; [apply hget_insert_eq|].
  intros [= He]. by apply create_fresh_ne.
Qed.

Lemma create_dom : dom h1 = {[a; l]} ∪ dom h.
Proof. unfold h1. rewrite !dom_insert_L. set_solver. Qed.

Lemma create_extends : extends h h1.
Proof.
  split; [rewrite create_dom; set_solver|]. intros m k' v' Hm.
  destruct (decide (m = Some a)) as [->|Hna].
  - rewrite create_at, lookup_insert_ne; [done|]. congruence.
  - rewrite create_other; [done|done|]. intros ->.
    apply hget_Some_dom in Hm. by apply (is_fresh (dom h)).
Qed.

Lemma create_child x y : child h1 x y → child h x y ∨ (x = a ∧ y = l).
Proof.
  intros (k' & v' & Hk' & Hv').
  destruct (decide (x = a)) as [->|Hxa].
  - rewrite create_at in Hk'. apply lookup_insert_Some in Hk' as [[<- <-]|[_ Hk']].
    + injection Hv' as <-. by right.
    + left. exists k', v'. done.
  - destruct (decide (x = l)) as [->|Hxl]; [by rewrite create_new, lookup_empty in Hk'|].
    rewrite create_other in Hk' by congruence. left. exists k', v'. done.
Qed.

Lemma create_closed : closed h → closed h1.
Proof.
  intros Hc x y [Hxy|[-> ->]]%create_child; rewrite create_dom; [|set_solver].
  apply Hc in Hxy. set_solver.
Qed.

Lemma create_ranked : closed h → (∃ rank, ranked rank h) → ∃ rank, ranked rank h1.
Proof.
  intros Hc [rank Hr]. exists (λ x, if decide (x = l) then rank a - 1 else rank x).
  intros x y [Hxy|[-> ->]]%create_child.
  - assert (x ≠ l ∧ y ≠ l) as [? ?].
    { pose proof (is_fresh (dom h)) as Hf. split; intros ->; apply Hf.
      - destruct Hxy as (? & ? & Hx & _). by apply hget_Some_dom in Hx.
      - by apply Hc in Hxy. }
    rewrite !decide_False by done. auto.
  - rewrite decide_True by done. rewrite decide_False by apply create_fresh_ne. lia.
Qed.
End create.

End shape.

(** ** [mapFind] *)

Lemma write_Ok m k v h h' u :
  write m k v h = (h', Ok u) →
  ∃ l, m = Some l ∧ h' = <[l := <[k := v]> (hget h (Some l))]> h.
Proof. destruct m as [l|]; simpl; [|done]. intros [= <- _]. eauto. Qed.

(** Unfolding one turn of the loop. *)
Lemma mapFind_loop_S fuel key data c h :
  mapFind_loop (S fuel) key data c h =
  match hget h data !! key with
  | Some v => (h, Ok (key, data, v, true))
  | None =>
      match index_nat key "." with
      | None => (h, Ok (key, data, VNil, false))
      | Some idx =>
          (d ← match hget h data !! stake idx key with
               | Some d => mret d
               | None =>
                   if c then
                     (l ← alloc; write data (stake idx key) (VM l) ≫= λ _, mret (VM l))
                   else fail ErrKeyNotFound
               end;
           v ← toMapStr d;
           mapFind_loop fuel (sdrop (S idx) key) v c) h
      end
  end.
Proof.
  cbn [mapFind_loop]. unfold mbind at 1, SE_bind at 1. simpl.
  destruct (hget h data !! key); [done|]. by destruct (index_nat key ".").
Qed.

Lemma index_dot_shorter key idx :
  index_nat key "." = Some idx → (String.length (sdrop (S idx) key) < String.length key)%nat.
Proof. intros (_ & Hl & _)%index_nat_Some. rewrite length_sdrop. simpl in Hl. lia. Qed.

Lemma stake_dot_ne key idx : index_nat key "." = Some idx → stake idx key ≠ key.
Proof.
  intros (_ & Hl & _)%index_nat_Some Heq. apply (f_equal String.length) in Heq.
  rewrite length_stake in Heq. simpl in Hl. lia.
Qed.

(** Without [createMissing] the store is only read, and the loop always ends
    within its budget, whatever the shape of the store. *)
Lemma mapFind_loop_read fuel key data h :
  (String.length key < fuel)%nat →
  (∃ r, mapFind_loop fuel key data false h = (h, Ok r)) ∨
  (∃ e, mapFind_loop fuel key data false h = (h, Err e)).
Proof.
  revert key data. induction fuel as [|fuel IH]; intros key data Hf; [lia|].
  rewrite mapFind_loop_S. destruct (hget h data !! key); [eauto|].
  destruct (index_nat key ".") as [idx|] eqn:Hi; [|eauto].
  apply index_dot_shorter in Hi.
  destruct (hget h data !! stake idx key) as [d|]; [|eauto].
  unfold mbind, SE_bind. simpl. unfold toMapStr.
  destruct (tryToMapStr d) as [v|]; simpl; [|eauto]. apply IH. lia.
Qed.

(** Enough fuel is enough: more changes nothing. *)
Lemma mapFind_loop_fuel f1 f2 key data c h :
  (String.length key < f1)%nat → (String.length key < f2)%nat →
  mapFind_loop f1 key data c h = mapFind_loop f2 key data c h.
Proof.
  revert f2 key data h. induction f1 as [|f1 IH]; intros f2 key data h H1 H2; [lia|].
  destruct f2 as [|f2]; [lia|]. rewrite !mapFind_loop_S.
  destruct (hget h data !! key); [done|].
  destruct (index_nat key ".") as [idx|] eqn:Hi; [|done].
  apply index_dot_shorter in Hi. unfold mbind, SE_bind.
  match goal with |- match ?x with _ => _ end = _ => destruct x as [h1 [d| | |]] end; try done.
  destruct (toMapStr d h1) as [h2 [v| | |]]; try done. apply IH; lia.
Qed.

(** What a successful [mapFind] with [createMissing] did: it only added
    entries, it returned the contents of the entry it designates, and once that
    entry is set, the read-only lookup of the same key finds it. *)
Record found_at (h : heap) (data : mapref) (fuel : nat) (key : string)
    (h' : heap) (k : string) (sub : mapref) (old : value) (present : bool) : Prop := {
  fa_extends : extends h h';
  fa_closed : closed h';
  fa_alloc : allocated h' sub;
  fa_old : hget h' sub !! k = (if present then Some old else None);
  fa_absent : present = false → old = VNil;
  fa_rank : ∃ rank, ranked rank h' ∧
      (∀ a b, data = Some a → sub = Some b → rank b ≤ rank a) ∧
      (∀ a b, data = Some a → b ∈ dom h → rank a < rank b → hget h' (Some b) = hget h (Some b));
  fa_find : ∀ l v, sub = Some l →
      let h2 := <[l := <[k := v]> (hget h' sub)]> h' in
      mapFind_loop fuel key data false h2 = (h2, Ok (k, sub, v, true))
}.

Lemma found_at_here h data fuel key (o : option value) :
  wf_heap h → allocated h data →
  hget h data !! key = o →
  found_at h data (S fuel) key h key data (default VNil o) (bool_decide (is_Some o)).
Proof.
  intros [Hc [rank Hr]] Ha Ho. split; try done.
  - rewrite Ho. by destruct o.
  - by destruct o.
  - exists rank. split; [done|]. split; [|done]. intros a b -> [= ->]. lia.
  - intros l v ->. cbv zeta. by rewrite mapFind_loop_S, hget_insert_eq, lookup_insert_eq.
Qed.

Lemma mapFind_loop_nil fuel key h r :
  mapFind_loop fuel key None false h = (h, Ok r) → r.2 = false.
Proof.
  destruct fuel as [|fuel]; [done|]. rewrite mapFind_loop_S. simpl. rewrite lookup_empty.
  destruct (index_nat key "."); [by rewrite lookup_empty|]. by intros [= <-].
Qed.

(** One step down: the lookup continues in the map [v] held under the first
    segment of the key. *)
Lemma found_at_down h a key idx d v fuel h' k sub old present :
  index_nat key "." = Some idx →
  hget h (Some a) !! key = None →
  hget h (Some a) !! stake idx key = Some d → tryToMapStr d = Some v →
  closed h → a ∈ dom h →
  found_at h v fuel (sdrop (S idx) key) h' k sub old present →
  sub ≠ None →
  found_at h (Some a) (S fuel) key h' k sub old present.
Proof.
  intros Hi Hkey Hd Hv Hc Ha Hf Hsub.
  destruct Hf as [He Hc' Hal Hold Hab (rank & Hr & Hle & Hun) Hfind].
  destruct sub as [s|]; [|done]. clear Hsub.
  assert (Hd' : hget h' (Some a) !! stake idx key = Some d) by (by apply He).
  destruct v as [b|]; [|by pose proof (mapFind_loop_nil _ _ _ _ (Hfind s VNil eq_refl))].
  assert (Hba : rank b < rank a) by (apply Hr; exists (stake idx key), d; done).
  assert (Hsb : rank s ≤ rank b) by by apply Hle.
  assert (Hsame : hget h' (Some a) = hget h (Some a)) by by apply Hun with b.
  split; try done.
  - exists rank. split; [done|]. split; [intros ? ? [= <-] [= <-]; lia|].
    intros a' x [= <-] Hx Hax. apply Hun with b; [done|done|lia].
  - intros l w [= <-]. cbv zeta. rewrite mapFind_loop_S.
    rewrite (hget_insert_ne _ s _ (Some a)) by (intros [= He']; subst; lia).
    rewrite Hsame, Hkey, Hi, Hd. unfold mbind, SE_bind. simpl. unfold toMapStr. rewrite Hv. simpl.
    by apply Hfind.
Qed.

(** [mapFind] with [createMissing]: a successful call on a well-formed store
    that designates an entry of a non-nil map. *)
Lemma mapFind_loop_create fuel key data h h' k sub old present :
  wf_heap h → allocated h data →
  mapFind_loop fuel key data true h = (h', Ok (k, sub, old, present)) →
  sub ≠ None →
  found_at h data fuel key h' k sub old present.
Proof.
  revert key data h. induction fuel as [|fuel IH]; intros key data h Hwf Ha Hrun Hsub; [done|].
  rewrite mapFind_loop_S in Hrun. destruct (hget h data !! key) as [v|] eqn:Hkey.
  { injection Hrun as <- <- <- <- <-. by apply (found_at_here _ _ _ _ (Some v)). }
  destruct (index_nat key ".") as [idx|] eqn:Hi.
  2:{ injection Hrun as <- <- <- <- <-. by apply (found_at_here _ _ _ _ None). }
  apply SE_bind_Ok in Hrun as (h1 & d & Hd & Hrun).
  apply SE_bind_Ok in Hrun as (h2 & v & Hv & Hrun).
  unfold toMapStr in Hv. destruct (tryToMapStr d) as [v'|] eqn:Hvd; [|done].
  injection Hv as <- <-.
  destruct (hget h data !! stake idx key) as [d0|] eqn:Hfirst.
  - injection Hd as <- <-. destruct data as [a|]; [|simpl in Hfirst; by rewrite lookup_empty in Hfirst].
    destruct Hwf as [Hc Hr]. assert (a ∈ dom h) by by apply Ha.
    eapply found_at_down; try done. apply IH; try done.
    intros b ->. apply (Hc a). exists (stake idx key), d0. done.
  - apply SE_bind_Ok in Hd as (h3 & l & Hl & Hd). injection Hl as <- <-.
    apply SE_bind_Ok in Hd as (h4 & [] & Hw & Hd). injection Hd as <- <-.
    apply write_Ok in Hw as (a & -> & ->). injection Hvd as <-.
    assert (a ∈ dom h) as Hadom by by apply Ha.
    destruct Hwf as [Hc Hr].
    pose proof (create_extends h a (stake idx key) Hadom Hfirst) as Hext.
    pose proof (create_closed h a (stake idx key) Hadom Hfirst Hc) as Hc1.
    pose proof (create_ranked h a (stake idx key) Hadom Hfirst Hc Hr) as Hr1.
    pose proof (create_at h a (stake idx key) Hadom Hfirst) as Hat.
    pose proof (create_dom h a (stake idx key) Hadom Hfirst) as Hdom.
    pose proof (create_other h a (stake idx key)) as Hother.
    set (h1 := <[a := _]> (<[_ := ∅]> h)) in *.
    assert (Hf1 : found_at h1 (Some a) (S fuel) key h' k sub old present).
    { eapply found_at_down; try done.
      - rewrite Hat, lookup_insert_ne; [done|]. by apply stake_dot_ne.
      - by rewrite Hat, lookup_insert_eq.
      - done.
      - rewrite Hdom. set_solver.
      - apply IH; try done. intros b [= <-]. rewrite Hdom. set_solver. }
    destruct Hf1 as [He1 ? ? ? ? (rank & Hrank & Hle & Hun) ?]. split; try done.
    + by etransitivity.
    + exists rank. split; [done|]. split; [done|]. intros a' b [= <-] Hb Hab.
      rewrite (Hun a b) by (done || (rewrite Hdom; set_solver)).
      apply Hother; [intros [= ->]; lia|]. intros [= ->]. by apply (is_fresh (dom h)).
Qed.

(** When the read-only lookup succeeds, so does the creating one, with the same
    answer and without creating anything. *)
Lemma mapFind_loop_read_create fuel key data h r :
  mapFind_loop fuel key data false h = (h, Ok r) →
  mapFind_loop fuel key data true h = (h, Ok r).
Proof.
  revert key data. induction fuel as [|fuel IH]; intros key data; [done|].
  rewrite !mapFind_loop_S. destruct (hget h data !! key); [done|].
  destruct (index_nat key "."); [|done].
  destruct (hget h data !! stake _ key) as [d|]; [|done].
  unfold mbind, SE_bind. simpl. unfold toMapStr.
  destruct (tryToMapStr d); [apply IH|done].
Qed.

(** No key of any map contains a dot: the dotted path is the only way to an
    entry. *)
Definition undotted (h : heap) : Prop :=
  ∀ m k v, hget h m !! k = Some v → lacks "." k = true.

Lemma index_lacks c s : lacks c s = true → index_nat s (String c "") = None.
Proof.
  intros Hl. pose proof (Contains_lacks c s) as Hc. rewrite Hl in Hc. unfold Contains in Hc.
  by destruct (index_nat s (String c "")).
Qed.

(** Removing the entry a lookup found makes the same lookup miss. *)
Lemma mapFind_loop_removed fuel key data h k s v rank :
  ranked rank h → undotted h →
  mapFind_loop fuel key data false h = (h, Ok (k, Some s, v, true)) →
  let h2 := <[s := delete k (hget h (Some s))]> h in
  (∀ a, data = Some a → rank s ≤ rank a) ∧
  mapFind_loop fuel key data false h2 = (h2, Ok (k, Some s, VNil, false)).
Proof.
  intros Hr Hu. cbv zeta. revert key data.
  induction fuel as [|fuel IH]; intros key data Hrun; [done|].
  rewrite mapFind_loop_S in Hrun |- *. destruct (hget h data !! key) as [w|] eqn:Hkey.
  - injection Hrun as -> -> ->. split; [intros a [= <-]; lia|].
    rewrite hget_insert_eq, lookup_delete_eq, (index_lacks "." k); [done|]. by eapply Hu.
  - destruct (index_nat key ".") as [idx|]; [|done].
    destruct (hget h data !! stake idx key) as [d|] eqn:Hd; [|done].
    unfold mbind, SE_bind in Hrun. simpl in Hrun. unfold toMapStr in Hrun.
    destruct (tryToMapStr d) as [b|] eqn:Hb; [|done]. simpl in Hrun.
    destruct data as [a|]; [|simpl in Hd; by rewrite lookup_empty in Hd].
    destruct (IH _ _ Hrun) as [Hle Hfind].
    destruct b as [b|]; [|by pose proof (mapFind_loop_nil _ _ _ _ Hrun)].
    assert (rank b < rank a) by (apply Hr; exists (stake idx key), d; done).
    specialize (Hle b eq_refl). split; [intros ? [= <-]; lia|].
    rewrite hget_insert_ne by (intros [= ->]; lia). rewrite Hkey, Hd.
    unfold mbind, SE_bind. simpl. unfold toMapStr. by rewrite Hb.
Qed.

Lemma mapFind_loop_present fuel key data h k sub o :
  mapFind_loop fuel key data false h = (h, Ok (k, sub, o, true)) → hget h sub !! k = Some o.
Proof.
  revert key data. induction fuel as [|fuel IH]; intros key data; [done|].
  rewrite mapFind_loop_S. destruct (hget h data !! key) as [v|] eqn:Hk.
  { by intros [= <- <- <-]. }
  destruct (index_nat key "."); [|done].
  destruct (hget h data !! stake _ key) as [d|]; [|done].
  unfold mbind, SE_bind. simpl. unfold toMapStr. destruct (tryToMapStr d); [|done]. apply IH.
Qed.

(** ** Properties *)

Lemma Put_inv m key v h h' old :
  Put m key v h = (h', Ok old) →
  ∃ h1 k l present,
    mapFind_loop (S (String.length key)) key m true h = (h1, Ok (k, Some l, old, present)) ∧
    h' = <[l := <[k := v]> (hget h1 (Some l))]> h1.
Proof.
  unfold Put, mapFind. intros (h1 & [[[k d] o] p] & Hf & Hrun)%SE_bind_Ok.
  apply SE_bind_Ok in Hrun as (h2 & [] & Hw & Hr). injection Hr as <- <-.
  apply write_Ok in Hw as (l & -> & ->). eauto 6.
Qed.

Lemma GetValue_found m key h k sub v :
  mapFind_loop (S (String.length key)) key m false h = (h, Ok (k, sub, v, true)) →
  GetValue m key h = (h, Ok v).
Proof. intros Hf. unfold GetValue, mapFind, mbind, SE_bind. by rewrite Hf. Qed.

(** C4: on a store without cyclic maps, a successful [Put] is read back by
    [GetValue] with the same key, and the value [Put] returns is the one
    [GetValue] found before, if it found one. *)
Theorem Put_then_GetValue h h' m key v old :
  wf_heap h → allocated h m →
  Put m key v h = (h', Ok old) →
  GetValue m key h' = (h', Ok v) ∧
  ∀ w, GetValue m key h = (h, Ok w) → old = w.
Proof.
  intros Hwf Ha (h1 & k & l & p & Hf & ->)%Put_inv. split.
  - apply mapFind_loop_create in Hf; [|done..].
    eapply GetValue_found. by apply (fa_find _ _ _ _ _ _ _ _ _ Hf l v).
  - intros w Hg. unfold GetValue, mapFind in Hg.
    apply SE_bind_Ok in Hg as (h2 & [[[k2 d2] o2] p2] & Hf2 & Hg).
    destruct p2; [|done]. injection Hg as -> ->.
    apply mapFind_loop_read_create in Hf2. rewrite Hf in Hf2. by injection Hf2.
Qed.

(** A store with one map per nesting level: [{"a": {"b": 1}}]. *)
Definition store_ab : heap :=
  {[ 1%positive := {[ "a" := VM (Some 2%positive) ]};
     2%positive := {[ "b" := VInt 1 ]} ]}.

Lemma store_ab_wf : wf_heap store_ab.
Proof.
  assert (Hchild : ∀ a b, child store_ab a b → a = 1%positive ∧ b = 2%positive).
  { intros a b (k & v & Hk & Hv). unfold store_ab in Hk. simpl in Hk.
    destruct (decide (a = 1%positive)) as [->|H1].
    - rewrite lookup_insert_eq in Hk. simpl in Hk.
      apply lookup_singleton_Some in Hk as [_ <-]. by injection Hv.
    - destruct (decide (a = 2%positive)) as [->|H2].
      + rewrite lookup_insert_ne, lookup_singleton_eq in Hk by done. simpl in Hk.
        by apply lookup_singleton_Some in Hk as [_ <-].
      + rewrite lookup_insert_ne, lookup_singleton_ne in Hk by done. done. }
  split.
  - intros a b [-> ->]%Hchild. by vm_compute.
  - exists (λ l, - Zpos l). intros a b [-> ->]%Hchild. lia.
Qed.

Lemma Put_then_GetValue_witness :
  GetValue (Some 1%positive) "a.c.d" (Put (Some 1%positive) "a.c.d" (VInt 7) store_ab).1 =
  ((Put (Some 1%positive) "a.c.d" (VInt 7) store_ab).1, Ok (VInt 7)).
Proof.
  refine (proj1 (Put_then_GetValue store_ab _ (Some 1%positive) "a.c.d" (VInt 7) VNil
    store_ab_wf _ _)); [by intros l [= <-]; vm_compute|reflexivity].
Defined.

(** [Put] changes no other entry: whatever entry of whatever map existed
    before is still there with its value, except the one entry [Put] sets. *)
Theorem Put_frame h h' m key v old :
  wf_heap h → allocated h m →
  Put m key v h = (h', Ok old) →
  ∃ sub k, hget h' sub !! k = Some v ∧
    ∀ m2 k2 w, hget h m2 !! k2 = Some w → (m2, k2) ≠ (sub, k) → hget h' m2 !! k2 = Some w.
Proof.
  intros Hwf Ha (h1 & k & l & p & Hf & ->)%Put_inv.
  apply mapFind_loop_create in Hf; [|done..].
  exists (Some l), k. split; [by rewrite hget_insert_eq, lookup_insert_eq|].
  intros m2 k2 w Hw Hne. apply (fa_extends _ _ _ _ _ _ _ _ _ Hf) in Hw.
  destruct (decide (m2 = Some l)) as [->|Hm].
  - rewrite hget_insert_eq, lookup_insert_ne; [done|]. intros ->. by apply Hne.
  - by rewrite hget_insert_ne.
Qed.

Lemma Put_frame_witness :
  ∃ sub k, hget (Put (Some 1%positive) "a.c" (VInt 7) store_ab).1 sub !! k = Some (VInt 7) ∧
    ∀ m2 k2 w, hget store_ab m2 !! k2 = Some w → (m2, k2) ≠ (sub, k) →
      hget (Put (Some 1%positive) "a.c" (VInt 7) store_ab).1 m2 !! k2 = Some w.
Proof.
  refine (Put_frame store_ab _ (Some 1%positive) "a.c" (VInt 7) VNil store_ab_wf _ _);
    [by intros l [= <-]; vm_compute|reflexivity].
Defined.

(** [GetValue] and [HasKey] always return, on any store, including one with
    cyclic maps; they never panic and never write. *)
Theorem GetValue_HasKey_total h m key :
  (∃ r, GetValue m key h = (h, r) ∧ defined r) ∧
  (∃ r, HasKey m key h = (h, r) ∧ defined r).
Proof.
  unfold GetValue, HasKey, mapFind, mbind, SE_bind.
  destruct (mapFind_loop_read _ key m h (Nat.lt_succ_diag_r _)) as [[r ->]|[e ->]];
    [|by split; eexists].
  destruct r as [[[k d] o] []]; simpl; split; eexists; (split; [reflexivity|done]).
Qed.

(** [Delete] removes exactly the entry its key designates (on a store whose
    map keys contain no dots, so that the dotted path is the only way to it):
    afterwards [HasKey] is false and every other entry is unchanged; when it
    fails nothing is written. *)
Theorem Delete_removes h h' m key r :
  wf_heap h → undotted h →
  Delete m key h = (h', r) →
  match r with
  | Ok _ =>
      HasKey m key h = (h, Ok true) ∧ HasKey m key h' = (h', Ok false) ∧
      ∃ sub k, ∀ m2 k2, (m2, k2) ≠ (sub, k) → hget h' m2 !! k2 = hget h m2 !! k2
  | Err e => h' = h ∧ HasKey m key h ≠ (h, Ok true)
  | Panic _ | OutOfFuel => False
  end.
Proof.
  intros [_ [rank Hr]] Hu. unfold Delete, HasKey, mapFind, mbind, SE_bind.
  destruct (mapFind_loop_read _ key m h (Nat.lt_succ_diag_r _)) as [[x Hx]|[e Hx]];
    rewrite Hx; [|by intros [= <- <-]].
  destruct x as [[[k d] o] []]; [|by intros [= <- <-]].
  pose proof (mapFind_loop_present _ _ _ _ _ _ _ Hx) as Hp.
  destruct d as [s|]; [|simpl in Hp; by rewrite lookup_empty in Hp]. 
  intros Hd. unfold remove in Hd. injection Hd as <- <-.
  destruct (mapFind_loop_removed _ _ _ _ _ _ _ _ Hr Hu Hx) as [_ Hf]. cbv zeta in Hf.
  change (default ∅ (h !! s)) with (hget h (Some s)).
  rewrite Hf. split; [done|]. split; [done|]. exists (Some s), k. intros m2 k2 Hne.
  destruct (decide (m2 = Some s)) as [->|Hm].
  - rewrite hget_insert_eq, lookup_delete_ne; [done|]. intros ->. by apply Hne.
  - by rewrite hget_insert_ne.
Qed.

Lemma store_ab_undotted : undotted store_ab.
Proof.
  intros m k v. destruct m as [l|]; simpl; [|by rewrite lookup_empty].
  unfold store_ab. destruct (decide (l = 1%positive)) as [->|H1].
  - rewrite lookup_insert_eq. simpl. by intros [<- _]%lookup_singleton_Some.
  - rewrite lookup_insert_ne by done. destruct (decide (l = 2%positive)) as [->|H2].
    + rewrite lookup_singleton_eq. simpl. by intros [<- _]%lookup_singleton_Some.
    + by rewrite lookup_singleton_ne.
Qed.

Lemma Delete_removes_witness :
  HasKey (Some 1%positive) "a.b" (Delete (Some 1%positive) "a.b" store_ab).1 =
  ((Delete (Some 1%positive) "a.b" store_ab).1, Ok false).
Proof.
  refine (proj1 (proj2 (Delete_removes store_ab _ (Some 1%positive) "a.b" (Ok tt)
    store_ab_wf store_ab_undotted _))). reflexivity.
Defined.
