(* ===== verification/SafeMapStr.v ===== *)
(** * Package [safemapstr] (src/safemapstr/safemapstr.go)

    [Put] stores a dotted key without losing what is already there: a value
    that stands where an intermediate map is needed is moved into a new map
    under the key ["value"]. *)
From S2P Require Import Prelude GoStrings GoHeap MapStr MapStrFacts.

Open Scope string_scope.
Open Scope Z_scope.

Module safemapstr.

Definition alternativeKey : string := "value".

Definition tryToM (v : value) : option mapref :=
  match v with
  | VM m => Some m
  | VMap m => Some m
  | _ => None
  end.

(** [M{alternativeKey: d}] stored under [data[k]]. *)
Definition wrap_value (data : mapref) (k : string) (alt : string) (d : value) : HM mapref :=
  l ← alloc;
  write l alt d ≫= λ _,
  write data k (VM l) ≫= λ _,
  mret l.

Fixpoint mapFind_loop (fuel : nat) (data : mapref) (key alt : string) : HM (mapref * string) :=
  match fuel with
  | O => no_fuel
  | S fuel' =>
      m ← read data;
      match m !! key with
      | Some oldValue =>
          match tryToM oldValue with
          | Some oldMap => mret (oldMap, alt)
          | None => mret (data, key)
          end
      | None =>
          match index_nat key "." with
          | None => mret (data, key)
          | Some idx =>
              let k := stake idx key in
              d ← match m !! k with
                  | Some d => mret d
                  | None => l ← alloc; write data k (VM l) ≫= λ _, mret (VM l)
                  end;
              v ← match tryToM d with
                  | Some v => mret v
                  | None => wrap_value data k alt d
                  end;
              mapFind_loop fuel' v (sdrop (S idx) key) alt
          end
      end
  end.

Definition mapFind (data : mapref) (key alt : string) : HM (mapref * string) :=
  mapFind_loop (S (String.length key)) data key alt.

Definition Put (data : mapref) (key : string) (value : GoHeap.value) : HM unit :=
  '(d, k) ← mapFind data key alternativeKey;
  write d k value.

(** ** Properties *)

(** The example of the package documentation. *)
Definition swarm : heap :=
  fst ((Put (Some 1%positive) "com.docker.task" (VString "x") ≫= λ _,
        Put (Some 1%positive) "com.docker.task.id" (VInt 1) ≫= λ _,
        Put (Some 1%positive) "com.docker.task.name" (VString "foobar"))
       {[ 1%positive := ∅ ]}).

(** Unfolding one turn of the loop. *)
Lemma mapFind_loop_step fuel data key alt h :
  mapFind_loop (S fuel) data key alt h =
  match hget h data !! key with
  | Some old =>
      match tryToM old with
      | Some oldMap => (h, Ok (oldMap, alt))
      | None => (h, Ok (data, key))
      end
  | None =>
      match index_nat key "." with
      | None => (h, Ok (data, key))
      | Some idx =>
          (d ← match hget h data !! stake idx key with
               | Some d => mret d
               | None => l ← alloc; write data (stake idx key) (VM l) ≫= λ _, mret (VM l)
               end;
           v ← match tryToM d with
               | Some v => mret v
               | None => wrap_value data (stake idx key) alt d
               end;
           mapFind_loop fuel v (sdrop (S idx) key) alt) h
      end
  end.
Proof.
  cbn [mapFind_loop]. unfold mbind at 1, SE_bind at 1. simpl.
  destruct (hget h data !! key) as [o|]; [by destruct (tryToM o)|].
  by destruct (index_nat key ".").
Qed.

(** [kept alt h w v]: [w] is [v], or is found from [v] by following [alt]
    entries. *)
Inductive kept (alt : string) (h : heap) (w : value) : value → Prop :=
| kept_here : kept alt h w w
| kept_moved l v :
    hget h (Some l) !! alt = Some v → kept alt h w v → kept alt h w (VM (Some l)).

(** Every entry of [h] is kept in [h']. *)
Definition keeps (alt : string) (h h' : heap) : Prop :=
  ∀ m k w, hget h m !! k = Some w → ∃ v, hget h' m !! k = Some v ∧ kept alt h' w v.

Lemma keeps_refl alt h : keeps alt h h.
Proof. intros m k w Hw. exists w. split; [done|constructor]. Qed.

Lemma kept_trans alt h w v u : kept alt h w v → kept alt h v u → kept alt h w u.
Proof. intros Hwv. induction 1; [done|]. by econstructor. Qed.

Lemma kept_keeps alt h h' w v :
  keeps alt h h' → kept alt h w v → kept alt h' w v.
Proof.
  intros Hk. induction 1 as [|l v Hl Hv IH]; [constructor|].
  destruct (Hk _ _ _ Hl) as (u & Hu & Huv).
  apply kept_moved with u; [done|]. by eapply kept_trans.
Qed.

Lemma keeps_trans alt h1 h2 h3 : keeps alt h1 h2 → keeps alt h2 h3 → keeps alt h1 h3.
Proof.
  intros H12 H23 m k w Hw. destruct (H12 _ _ _ Hw) as (v & Hv & Hkv).
  destruct (H23 _ _ _ Hv) as (u & Hu & Hku). exists u. split; [done|].
  apply kept_trans with v; [|done]. by apply (kept_keeps _ h2).
Qed.

(** Only additions. *)
Lemma keeps_extends alt h h' : extends h h' → keeps alt h h'.
Proof. intros [_ He] m k w Hw. exists w. split; [auto|constructor]. Qed.

(** Moving [d] out of the way. *)
Lemma wrap_value_keeps data k alt d h h' v :
  allocated h data → closed h → hget h data !! k = Some d → tryToM d = None →
  wrap_value data k alt d h = (h', Ok v) →
  keeps alt h h' ∧ closed h' ∧ allocated h' v.
Proof.
  intros Ha Hc Hd Hnm Hrun. unfold wrap_value in Hrun.
  apply SE_bind_Ok in Hrun as (h1 & l & Hl & Hrun). injection Hl as <- <-.
  apply SE_bind_Ok in Hrun as (h2 & [] & Hw1 & Hrun).
  apply write_Ok in Hw1 as (l & [= <-] & ->).
  apply SE_bind_Ok in Hrun as (h3 & [] & Hw2 & Hrun). injection Hrun as <- <-.
  apply write_Ok in Hw2 as (a & -> & ->).
  set (f := fresh (dom h)) in *.
  assert (Haf : a ≠ f).
  { intros ->. apply (is_fresh (dom h)). by apply Ha. }
  assert (Hfresh : ∀ m k' w, hget h m !! k' = Some w → m ≠ Some f).
  { intros m k' w Hw ->. apply hget_Some_dom in Hw. by apply (is_fresh (dom h)). }
  rewrite (hget_insert_ne _ f _ (Some a)) by congruence.
  rewrite (hget_insert_ne _ f _ (Some a)) by congruence.
  split; [|split; [|intros l [= <-]; rewrite !dom_insert_L; set_solver]].
  2:{ intros x y (k' & w & Hw & Hwy). rewrite !dom_insert_L.
      destruct (decide (x = a)) as [->|Hxa].
      { rewrite hget_insert_eq in Hw. apply lookup_insert_Some in Hw as [[_ <-]|[_ Hw]].
        - injection Hwy as <-. set_solver.
        - assert (y ∈ dom h); [|set_solver]. apply (Hc a). exists k', w. done. }
      rewrite hget_insert_ne in Hw by congruence.
      destruct (decide (x = f)) as [->|Hxf].
      { rewrite hget_insert_eq, hget_insert_eq in Hw.
        apply lookup_insert_Some in Hw as [[_ <-]|[_ Hw]]; [|by rewrite lookup_empty in Hw].
        unfold tryToM in Hnm. unfold tryToMapStr in Hwy. by destruct d. }
      rewrite !hget_insert_ne in Hw by congruence.
      assert (y ∈ dom h); [|set_solver]. apply (Hc x). exists k', w. done. }
  intros m k' w Hw. destruct (decide (m = Some a)) as [->|Hma].
  - rewrite hget_insert_eq. destruct (decide (k = k')) as [<-|Hkk].
    + rewrite lookup_insert_eq. exists (VM (Some f)). split; [done|].
      apply kept_moved with d; [|rewrite Hd in Hw; injection Hw as ->; constructor].
      rewrite hget_insert_ne by congruence. by rewrite hget_insert_eq, lookup_insert_eq.
    + rewrite lookup_insert_ne by done. exists w. split; [done|constructor].
  - exists w. split; [|constructor]. pose proof (Hfresh _ _ _ Hw).
    by rewrite !hget_insert_ne.
Qed.

(** Locations held by the store are allocated. *)
Lemma closed_entry h m k w b :
  closed h → hget h m !! k = Some w → tryToM w = Some (Some b) → b ∈ dom h.
Proof.
  intros Hc Hw Hb. destruct m as [a|]; [|simpl in Hw; by rewrite lookup_empty in Hw].
  apply (Hc a). exists k, w. done.
Qed.

(** What [mapFind] does before the assignment: every entry is kept, and the
    entry it designates holds no map. *)
Lemma mapFind_loop_keeps fuel data key alt h h' sub k :
  closed h → allocated h data →
  mapFind_loop fuel data key alt h = (h', Ok (sub, k)) →
  keeps alt h h' ∧
  (k = alt ∨ ∀ w, hget h' sub !! k = Some w → tryToM w = None).
Proof.
  revert data key h. induction fuel as [|fuel IH]; intros data key h Hc Ha Hrun; [done|].
  rewrite mapFind_loop_step in Hrun.
  destruct (hget h data !! key) as [old|] eqn:Hkey.
  { destruct (tryToM old) eqn:Hold; injection Hrun as <- <- <-;
      (split; [apply keeps_refl|]); [by left|]. right. intros w Hw. congruence. }
  destruct (index_nat key ".") as [idx|] eqn:Hi.
  2:{ injection Hrun as <- <- <-. split; [apply keeps_refl|]. right. intros w Hw. congruence. }
  apply SE_bind_Ok in Hrun as (h1 & d & Hd & Hrun).
  apply SE_bind_Ok in Hrun as (h2 & v & Hv & Hrun).
  destruct (hget h data !! stake idx key) as [d0|] eqn:Hfirst.
  - injection Hd as <- <-. destruct (tryToM d0) as [v0|] eqn:Hd0.
    + injection Hv as <- <-. apply IH in Hrun; [done|done|].
      intros b ->. by eapply closed_entry.
    + destruct (wrap_value_keeps _ _ _ _ _ _ _ Ha Hc Hfirst Hd0 Hv) as (Hk & Hc2 & Ha2).
      apply IH in Hrun as [Hk2 Hsub]; [|done..]. split; [|done]. by eapply keeps_trans.
  - apply SE_bind_Ok in Hd as (h3 & l & Hl & Hd). injection Hl as <- <-.
    apply SE_bind_Ok in Hd as (h4 & [] & Hw & Hd). injection Hd as <- <-.
    apply write_Ok in Hw as (a & -> & ->). injection Hv as <- <-.
    assert (Hadom : a ∈ dom h) by by apply Ha.
    apply IH in Hrun as [Hk2 Hsub].
    + split; [|done]. eapply keeps_trans; [|done]. by apply keeps_extends, create_extends.
    + by apply create_closed.
    + intros b [= <-]. rewrite create_dom by done. set_solver.
Qed.

(** [safemapstr.Put] loses nothing it has to step over: it first rearranges
    the store so that every entry keeps its value, possibly moved under
    ["value"] entries of a new map at the same place, and then sets a single
    entry, which is either a ["value"] entry or held no map. *)
Theorem safe_Put_keeps h h' data key v :
  closed h → allocated h data →
  Put data key v h = (h', Ok tt) →
  ∃ h1 l k,
    keeps alternativeKey h h1 ∧
    h' = <[l := <[k := v]> (hget h1 (Some l))]> h1 ∧
    (k = alternativeKey ∨ ∀ w, hget h1 (Some l) !! k = Some w → tryToM w = None).
Proof.
  intros Hc Ha Hrun. unfold Put, mapFind in Hrun.
  apply SE_bind_Ok in Hrun as (h1 & [sub k] & Hf & Hrun).
  apply write_Ok in Hrun as (l & -> & ->).
  apply mapFind_loop_keeps in Hf as [Hk Hsub]; [|done..]. exists h1, l, k. done.
Qed.

Lemma safe_Put_keeps_witness :
  ∃ h1 l k,
    keeps alternativeKey store_ab h1 ∧
    (Put (Some 1%positive) "a.b.c" (VInt 2) store_ab).1 = <[l := <[k := VInt 2]> (hget h1 (Some l))]> h1 ∧
    (k = alternativeKey ∨ ∀ w, hget h1 (Some l) !! k = Some w → tryToM w = None).
Proof.
  refine (safe_Put_keeps store_ab _ (Some 1%positive) "a.b.c" (VInt 2) (proj1 store_ab_wf) _ _);
    [by intros l [= <-]; vm_compute|reflexivity].
Defined.

End safemapstr.
