(* ===== verification/Dissect.v ===== *)
(** * Package [processors/dissect]

    The dissect tokenizer: parsing of a tokenizer string into delimiters and
    fields (const.go, delimiter.go, field.go, parser.go, validate.go),
    extraction of key positions from a message and resolution of the fields
    (dissect.go), trimming of ASCII characters (trim.go).  The conversion of
    values to other types ([DissectConvert]) and the UTF-8 trimmer are in
    DissectConvert.v.

    Positions and offsets are Go [int]s, kept as [Z] so that the [-1] of a
    failed search and the slice bounds of the code appear as written; a slice
    out of bounds is a panic. *)
From S2P Require Import Prelude GoStrings.

Open Scope string_scope.
Open Scope Z_scope.

(** ** const.go *)
Definition skipFieldPrefix : string := "?".
Definition appendFieldPrefix : string := "+".
Definition indirectFieldPrefix : string := "&".
Definition appendIndirectPrefix : string := "+&".
Definition indirectAppendPrefix : string := "&+".
Definition greedySuffix : string := "->".
Definition pointerFieldPrefix : string := "*".
Definition dataTypeIndicator : string := "|".
Definition defaultJoinString : string := " ".

Inductive dissect_error :=
| errParsingFailure
| errInvalidTokenizer
| errEmpty
| errMixedPrefixIndirectAppend
| errMixedPrefixAppendIndirect
| errInvalidDatatype
| errMissingDatatype
| errMissingReference (key : string)
| errBeginningDelimiter
| errFieldLength
| errDelimiterNotFound
| errLastFixedLength.

(** *** [delimiterRE = (?s)(.*?)%\{([^}]* ?)}]

    [(.*?)] is lazy, so the first group is the shortest text followed by ["%{"],
    a text without ["}"], and ["}"]. *)

(** Text up to the first ['}'] and the text after it. *)
Fixpoint until_brace (s : string) : option (string * string) :=
  match s with
  | "" => None
  | String a s' =>
      if Ascii.eqb a "}"%char then Some ("", s')
      else '(k, r) ← until_brace s'; Some (String a k, r)
  end.

(** First match from the start of [s]: the delimiter, the key, what follows. *)
Fixpoint next_token (s : string) : option (string * string * string) :=
  match (if HasPrefix s "%{" then until_brace (sdrop 2 s) else None) with
  | Some (key, rest) => Some ("", key, rest)
  | None =>
      match s with
      | "" => None
      | String a s' => '(d, key, rest) ← next_token s'; Some (String a d, key, rest)
      end
  end.

(** All successive matches, and the text after the last one.  Each match
    consumes at least 3 bytes, so [length s] rounds are enough. *)
Fixpoint tokens (fuel : nat) (s : string) : list (string * string) * string :=
  match fuel with
  | O => ([], s)
  | S fuel' =>
      match next_token s with
      | None => ([], s)
      | Some (d, key, rest) =>
          let '(l, tail) := tokens fuel' rest in ((d, key) :: l, tail)
      end
  end.

(** *** [suffixRE = (.+?)(/(\d{1,2}))?(#(\d{1,2}))?(->)?(\|([[:alpha:]]* )?)?$]

    Each optional group lists its alternatives in the order the regular
    expression tries them: the text captured and the text left. *)
Definition is_digit (a : ascii) : bool :=
  match char_digit a with Some _ => true | None => false end.

Definition is_alpha (a : ascii) : bool :=
  let n := N_of_ascii a in
  ((65 <=? n) && (n <=? 90) || (97 <=? n) && (n <=? 122))%N.

(** [(c(\d{1,2}))?], greedy: two digits, one digit, or the empty match. *)
Definition number_group (c : ascii) (s : string) : list (string * string) :=
  match s with
  | String c0 (String d1 (String d2 r)) =>
      if Ascii.eqb c0 c && is_digit d1 then
        (if is_digit d2 then [(String d1 (String d2 ""), r)] else []) ++
        [(String d1 "", String d2 r)]
      else []
  | String c0 (String d1 "") =>
      if Ascii.eqb c0 c && is_digit d1 then [(String d1 "", "")] else []
  | _ => []
  end ++ [("", s)].

Definition greedy_group (s : string) : list (string * string) :=
  (if HasPrefix s greedySuffix then [(greedySuffix, sdrop 2 s)] else []) ++ [("", s)].

(** [[[:alpha:]]* ], greedy: the longest run first. *)
Fixpoint alpha_runs (s : string) : list (string * string) :=
  match s with
  | String a s' =>
      if is_alpha a
      then ((λ x, (String a x.1, x.2)) <$> alpha_runs s') ++ [("", s)]
      else [("", s)]
  | "" => [("", "")]
  end.

Definition type_group (s : string) : list (string * string) :=
  match s with
  | String a s' => if Ascii.eqb a "|"%char then alpha_runs s' else []
  | "" => []
  end ++ [("", s)].

Definition suffix_parses (s : string) : list (string * string * string * string) :=
  '(o, s1) ← number_group "/" s;
  '(l, s2) ← number_group "#" s1;
  '(g, s3) ← greedy_group s2;
  '(t, s4) ← type_group s3;
  if String.eqb s4 "" then [(o, l, g, t)] else [].

(** [(.+?)] from the start of [s]: at least one byte, no newline, as few as
    possible. *)
Fixpoint lazy_key (s : string) : option (string * (string * string * string * string)) :=
  match s with
  | "" => None
  | String a s' =>
      if Ascii.eqb a "010"%char then None
      else match head (suffix_parses s') with
           | Some x => Some (String a "", x)
           | None => '(k, x) ← lazy_key s'; Some (String a k, x)
           end
  end.

(** Leftmost match. *)
Fixpoint suffix_find (s : string) : option (string * (string * string * string * string)) :=
  match lazy_key s with
  | Some r => Some r
  | None => match s with "" => None | String _ s' => suffix_find s' end
  end.

(** ** delimiter.go *)
Inductive delimiter :=
| zeroByte (needle : string) (greedy : bool)
| multiByte (needle : string) (greedy : bool).

Definition newDelimiter (needle : string) : delimiter :=
  if String.eqb needle "" then zeroByte "" false else multiByte needle false.

Definition IndexOf (d : delimiter) (haystack : string) (offset : Z) : res dissect_error Z :=
  match d with
  | zeroByte _ _ => Ok offset
  | multiByte needle _ =>
      rest ← slice haystack offset (strlen haystack);
      let i := Index rest needle in
      if negb (i =? -1) then Ok (i + offset) else Ok (-1)
  end.

Definition Len (d : delimiter) : Z :=
  match d with zeroByte _ _ => 0 | multiByte needle _ => strlen needle end.

Definition Delimiter (d : delimiter) : string :=
  match d with zeroByte needle _ | multiByte needle _ => needle end.

Definition delim_IsGreedy (d : delimiter) : bool :=
  match d with zeroByte _ g | multiByte _ g => g end.

Definition MarkGreedy (d : delimiter) : delimiter :=
  match d with
  | zeroByte n _ => zeroByte n true
  | multiByte n _ => multiByte n true
  end.

(** ** field.go *)
Record baseField := mkBase {
  id : nat;
  key : string;
  ordinal : Z;
  flength : Z;
  greedy : bool;
  dataType : string
}.

Inductive field :=
| normalField (b : baseField)
| skipField (b : baseField)
| namedSkipField (b : baseField)
| pointerField (b : baseField)
| indirectField (b : baseField)
| appendField (b : baseField) (previous : option delimiter).

Definition base (f : field) : baseField :=
  match f with
  | normalField b | skipField b | namedSkipField b | pointerField b
  | indirectField b | appendField b _ => b
  end.

Definition IsGreedy (f : field) : bool := greedy (base f).
Definition Ordinal (f : field) : Z := ordinal (base f).
Definition Length (f : field) : Z := flength (base f).
Definition Key (f : field) : string := key (base f).
Definition DataType (f : field) : string := dataType (base f).
Definition ID (f : field) : nat := id (base f).
Definition IsFixedLength (f : field) : bool := 0 <? flength (base f).

Definition IsSaveable (f : field) : bool :=
  match f with
  | skipField _ | namedSkipField _ | pointerField _ => false
  | _ => true
  end.

Definition JoinString (previous : option delimiter) : string :=
  match previous with
  | None => defaultJoinString
  | Some d => if Len d =? 0 then defaultJoinString else Delimiter d
  end.

Definition Apply (f : field) (b : string) (m : gmap string string) : gmap string string :=
  match f with
  | normalField _ | namedSkipField _ | pointerField _ => <[Key f := b]> m
  | skipField _ => m
  | indirectField _ =>
      match m !! Key f with
      | Some v => <[v := b]> m
      | None => m
      end
  | appendField _ previous =>
      match m !! Key f with
      | Some v => <[Key f := v +:+ JoinString previous +:+ b]> m
      | None => <[Key f := b]> m
      end
  end.

Definition dataTypeNames : list string :=
  ["integer"; "long"; "float"; "double"; "string"; "boolean"; "ip"].

Definition newSkipField (id : nat) : field := skipField (mkBase id "" 0 0 false "").
Definition newNamedSkipField (id : nat) (key : string) (length : Z) : field :=
  namedSkipField (mkBase id key 0 length false "").
Definition newPointerField (id : nat) (key : string) (length : Z) : field :=
  pointerField (mkBase id key 0 length false "").
Definition newAppendField (id : nat) (key : string) (ordinal length : Z) (greedy : bool)
    (previous : delimiter) : field :=
  appendField (mkBase id key ordinal length greedy "") (Some previous).
Definition newIndirectField (id : nat) (key dataType : string) (length : Z) : field :=
  indirectField (mkBase id key 0 length false dataType).
Definition newNormalField (id : nat) (key dataType : string) (ordinal length : Z)
    (greedy : bool) : field :=
  normalField (mkBase id key ordinal length greedy dataType).

(** [m[0]] panics when the regular expression does not match. *)
Definition extractKeyParts (rawKey : string)
  : res dissect_error (string * string * Z * Z * bool) :=
  match suffix_find rawKey with
  | None => Panic PIndexOutOfRange
  | Some (k, (o, l, g, t)) =>
      let ordinal := if String.eqb o "" then 0 else (Atoi o).1 in
      let length := if String.eqb l "" then 0 else (Atoi l).1 in
      Ok (k, t, ordinal, length, String.eqb g greedySuffix)
  end.

Definition newField (id : nat) (rawKey : string) (previous : delimiter)
  : res dissect_error field :=
  if String.eqb rawKey "" then Ok (newSkipField id)
  else
    '(key, dataType, ordinal, length, greedy) ← extractKeyParts rawKey;
    if HasSuffix rawKey dataTypeIndicator then Err errMissingDatatype
    else if negb (String.eqb dataType "") && negb (bool_decide (dataType ∈ dataTypeNames))
    then Err errInvalidDatatype
    else if HasPrefix key appendIndirectPrefix then Err errMixedPrefixIndirectAppend
    else if HasPrefix key indirectAppendPrefix then Err errMixedPrefixAppendIndirect
    else if HasPrefix key skipFieldPrefix then Ok (newNamedSkipField id (sdrop 1 key) length)
    else if HasPrefix key pointerFieldPrefix then Ok (newPointerField id (sdrop 1 key) length)
    else if HasPrefix key appendFieldPrefix
    then Ok (newAppendField id (sdrop 1 key) ordinal length greedy previous)
    else if HasPrefix key indirectFieldPrefix
    then Ok (newIndirectField id (sdrop 1 key) dataType length)
    else Ok (newNormalField id key dataType ordinal length greedy).

(** ** parser.go *)
Record parser := mkParser {
  delimiters : list delimiter;
  fields : list field;
  fieldsIDMap : gmap nat nat;
  referenceFields : list field
}.

Definition isIndirectField (f : field) : bool :=
  match f with indirectField _ => true | _ => false end.

Definition filterFieldsWith (fs : list field) (p : field → bool) : list field :=
  filter (λ f, p f = true) fs.

(** The loop over the matches: one delimiter and one field per match. *)
Fixpoint parse_matches (id : nat) (ms : list (string * string))
  : res dissect_error (list delimiter * list field) :=
  match ms with
  | [] => Ok ([], [])
  | (dtext, key) :: ms' =>
      let d := newDelimiter dtext in
      field ← newField id key d;
      let d' := if IsGreedy field then MarkGreedy d else d in
      '(ds, fs) ← parse_matches (S id) ms';
      Ok (d' :: ds, field :: fs)
  end.

(** [fieldsIDMap[f.ID()] = i] for every position [i] from [start]. *)
Fixpoint index_fields (start : nat) (fs : list field) (m : gmap nat nat) : gmap nat nat :=
  match fs with
  | [] => m
  | f :: fs' => index_fields (S start) fs' (<[ID f := start]> m)
  end.

Section parsing.
Context `{SliceSort}.

Definition newParser (tokenizer : string) : res dissect_error parser :=
  let '(matches, tail) := tokens (String.length tokenizer) tokenizer in
  match matches with
  | [] => Err errInvalidTokenizer
  | _ =>
      '(ds, fs) ← parse_matches 0 matches;
      let ds' := if String.eqb tail "" then ds else (ds ++ [newDelimiter tail])%list in
      let sorted := sort_slice (λ f g, Ordinal f <? Ordinal g) fs in
      Ok (mkParser ds' sorted (index_fields 0 sorted ∅)
            (filterFieldsWith sorted (λ f, negb (IsSaveable f))))
  end.

End parsing.

(** ** validate.go *)
Definition validate (p : parser) : res dissect_error unit :=
  let indirectFields := filterFieldsWith (fields p) isIndirectField in
  (fix go (l : list field) : res dissect_error unit :=
     match l with
     | [] => Ok tt
     | f :: l' =>
         if existsb (λ r, String.eqb (Key r) (Key f)) (referenceFields p) then go l'
         else Err (errMissingReference (Key f))
     end) indirectFields.

(** ** trim.go: the ASCII trimmer *)
Definition asciiLimit : N := 128.

Record asciiTrimmer := mkTrimmer {
  chars : gset ascii;
  left : bool;
  right : bool
}.

(** [None] is [errOnlyASCII]. *)
Fixpoint newASCIITrimmer (trimChars : string) (trimLeft trimRight : bool)
  : option asciiTrimmer :=
  match trimChars with
  | "" => Some (mkTrimmer ∅ trimLeft trimRight)
  | String chr cs =>
      if (asciiLimit <=? N_of_ascii chr)%N then None
      else t ← newASCIITrimmer cs trimLeft trimRight;
           Some (mkTrimmer ({[chr]} ∪ chars t) (left t) (right t))
  end.

Definition byte_at (s : string) (i : nat) : option ascii := String.get i s.

(** [s[i] < asciiLimit && t.chars[s[i]] != 0] *)
Definition trimmable (t : asciiTrimmer) (s : string) (i : nat) : bool :=
  match byte_at s i with
  | Some c => (N_of_ascii c <? asciiLimit)%N && bool_decide (c ∈ chars t)
  | None => false
  end.

(** [for ; start < end && trimmable(start); start++ {}]; [n] is [end - start]. *)
Fixpoint trim_left (t : asciiTrimmer) (s : string) (start n : nat) : nat :=
  match n with
  | O => start
  | S n' => if trimmable t s start then trim_left t s (S start) n' else start
  end.

(** [for ; start < end && trimmable(end-1); end-- {}]; [n] is [end - start]. *)
Fixpoint trim_right (t : asciiTrimmer) (s : string) (start n : nat) : nat :=
  match n with
  | O => start
  | S n' => if trimmable t s (start + n') then trim_right t s start n' else (start + n)%nat
  end.

Definition Trim (t : asciiTrimmer) (s : string) (start end_ : nat) : nat * nat :=
  let start' := if left t then trim_left t s start (end_ - start) else start in
  let end' := if right t then trim_right t s start' (end_ - start') else end_ in
  (start', end').

(** ** dissect.go *)
Record position := mkPos { start : Z; end_ : Z }.

(** The interface [trimmer] has the one method [Trim]. *)
Definition trimmer_iface : Type := string → nat → nat → nat * nat.

Record Dissector := mkDissector {
  raw : string;
  dparser : parser;
  trimmer : option trimmer_iface
}.

(** [d.parser.fields[d.parser.fieldsIDMap[i]]]: a missing key of a Go map reads
    as 0. *)
Definition field_at (p : parser) (i : nat) : res dissect_error field :=
  match fields p !! default 0%nat (fieldsIDMap p !! i) with
  | Some f => Ok f
  | None => Panic PIndexOutOfRange
  end.

Definition set_position (ps : list position) (i : nat) (x : position)
  : res dissect_error (list position) :=
  if bool_decide (i < length ps)%nat then Ok (<[i := x]> ps) else Panic PIndexOutOfRange.

(** [for { lookahead = dl.Next().IndexOf(s, offset+1); if lookahead != offset+1
    { break } else { offset = lookahead } }] *)
Fixpoint greedy_loop (fuel : nat) (next : delimiter) (s : string) (offset : Z)
  : res dissect_error Z :=
  match fuel with
  | O => OutOfFuel
  | S fuel' =>
      lookahead ← IndexOf next s (offset + 1);
      if negb (lookahead =? offset + 1) then Ok offset
      else greedy_loop fuel' next s lookahead
  end.

(** Where the key that starts at [offset] ends. *)
Definition field_end (f : field) (next : delimiter) (s : string) (offset : Z)
  : res dissect_error Z :=
  if IsFixedLength f then
    let e := offset + Length f in
    if strlen s <? e then
      (* the error message slices s[offset:] *)
      slice s offset (strlen s) ≫= λ _ : string, Err errFieldLength
    else Ok e
  else
    e ← IndexOf next s offset;
    if e =? -1 then slice s offset (strlen s) ≫= λ _ : string, Err errDelimiterNotFound
    else Ok e.

(** The loop [for dl.Next() != nil]; [nexts] are the delimiters after [dl]. *)
Fixpoint extract_loop (fuel : nat) (p : parser) (s : string) (dl : delimiter)
    (nexts : list delimiter) (i : nat) (offset : Z) (ps : list position)
  : res dissect_error (nat * Z * list position) :=
  match nexts with
  | [] => Ok (i, offset, ps)
  | next :: nexts' =>
      let start := offset in
      field ← field_at p i;
      e ← field_end field next s offset;
      offset' ← (if delim_IsGreedy dl then greedy_loop fuel next s e else Ok e);
      ps' ← set_position ps i (mkPos start e);
      extract_loop fuel p s next nexts' (S i) (offset' + Len next) ps'
  end.

(** [fuel] bounds the turns of each greedy loop. *)
Definition extract (fuel : nat) (p : parser) (s : string) : res dissect_error (list position) :=
  match delimiters p with
  | [] => Panic PIndexOutOfRange
  | dl :: nexts =>
      offset ← IndexOf dl s 0;
      if (offset =? -1) || negb (offset =? 0) then Err errBeginningDelimiter
      else
        '(i, offset, ps) ← extract_loop fuel p s dl nexts 0 (offset + Len dl)
                             (replicate (length (fields p)) (mkPos 0 0));
        field ← field_at p i;
        if IsFixedLength field && negb (offset + Length field =? strlen s)
        then Err errLastFixedLength
        else if (offset <? strlen s) && bool_decide (i < length (fields p))%nat
        then set_position ps i (mkPos offset (strlen s))
        else Ok ps
  end.

Fixpoint resolve_fields (s : string) (ps : list position) (fs : list field)
    (m : gmap string string) : res dissect_error (gmap string string) :=
  match fs with
  | [] => Ok m
  | f :: fs' =>
      match ps !! ID f with
      | None => Panic PIndexOutOfRange
      | Some pos =>
          b ← slice s (start pos) (end_ pos);
          resolve_fields s ps fs' (Apply f b m)
      end
  end.

Definition resolve (p : parser) (s : string) (ps : list position)
  : res dissect_error (gmap string string) :=
  m ← resolve_fields s ps (fields p) ∅;
  Ok (foldl (λ m f, delete (Key f) m) m (referenceFields p)).

Definition trim_position (t : trimmer_iface) (s : string) (p : position) : position :=
  let '(a, b) := t s (Z.to_nat (start p)) (Z.to_nat (end_ p)) in
  mkPos (Z.of_nat a) (Z.of_nat b).

Definition Dissect (fuel : nat) (d : Dissector) (s : string)
  : res dissect_error (gmap string string) :=
  if String.eqb s "" then Err errEmpty
  else
    positions ← extract fuel (dparser d) s;
    if bool_decide (positions = []) then Err errParsingFailure
    else
      let positions := match trimmer d with
                       | Some t => trim_position t s <$> positions
                       | None => positions
                       end in
      resolve (dparser d) s positions.

Definition New `{SliceSort} (tokenizer : string) : res dissect_error Dissector :=
  p ← newParser tokenizer;
  validate p ≫= λ _,
  Ok (mkDissector tokenizer p None).
