(* ===== verification/DissectFacts.v ===== *)
(** * Theorems about the dissect tokenizer

    What the parser of a tokenizer satisfies, what a successful extraction means,
    when extraction ends, and that a message composed of values is taken apart
    into them. *)
From S2P Require Import Prelude GoStrings Dissect.

Open Scope string_scope.
Open Scope Z_scope.

(** ** Well-formed parsers *)

(** A delimiter as [newDelimiter] builds it. *)
Definition wf_delim (d : delimiter) : Prop :=
  match d with zeroByte n _ => n = "" | multiByte n _ => n ≠ "" end.

(** The invariant of the parsers [newParser] builds: one delimiter per field
    and possibly a trailing one; [fieldsIDMap] finds the field of each id. *)
Record parser_ok (p : parser) : Prop := {
  ok_delims : Forall wf_delim (delimiters p);
  ok_count : (0 < length (fields p))%nat ∧
      (length (delimiters p) = length (fields p) ∨ length (delimiters p) = S (length (fields p)));
  ok_ids : ∀ i, (i < length (fields p))%nat →
      ∃ j f, fieldsIDMap p !! i = Some j ∧ fields p !! j = Some f ∧ ID f = i;
  ok_map_range : ∀ i j, fieldsIDMap p !! i = Some j → (j < length (fields p))%nat;
  ok_id_range : ∀ f, f ∈ fields p → (ID f < length (fields p))%nat;
  ok_greedy : ∀ i f d, f ∈ fields p → ID f = i → delimiters p !! i = Some d →
      delim_IsGreedy d = IsGreedy f
}.

Lemma newDelimiter_wf n : wf_delim (newDelimiter n).
Proof. unfold newDelimiter. destruct (String.eqb_spec n ""); done. Qed.

Lemma MarkGreedy_wf d : wf_delim d → wf_delim (MarkGreedy d).
Proof. by destruct d. Qed.

Lemma newField_ID i k d f : newField i k d = Ok f → ID f = i.
Proof.
  unfold newField. destruct (String.eqb k ""); [by intros [= <-]|].
  unfold extractKeyParts. destruct (suffix_find k) as [[k0 [[[o l] g] t]]|]; [|done].
  cbn [mbind res_bind].
  repeat match goal with |- (if ?c then _ else _) = _ → _ => destruct c; [try done|] end;
    by intros [= <-].
Qed.

Lemma parse_matches_spec i ms ds fs :
  parse_matches i ms = Ok (ds, fs) →
  length ds = length ms ∧ length fs = length ms ∧ Forall wf_delim ds ∧
  (∀ j f, fs !! j = Some f → ID f = (i + j)%nat) ∧
  (∀ j f d, fs !! j = Some f → ds !! j = Some d → delim_IsGreedy d = IsGreedy f).
Proof.
  revert i ds fs. induction ms as [|[dt k] ms IH]; intros i ds fs; simpl.
  { intros [= <- <-]. by repeat split. }
  destruct (newField i k (newDelimiter dt)) as [x| | |] eqn:Hx; simpl; try done.
  destruct (parse_matches (S i) ms) as [[ds' fs']| | |] eqn:Hp; simpl; try done.
  intros [= <- <-]. destruct (IH _ _ _ Hp) as (? & ? & ? & Hids & Hg).
  split; [simpl; lia|]. split; [simpl; lia|]. split.
  { constructor; [|done]. pose proof (newDelimiter_wf dt).
    destruct (IsGreedy x); [by apply MarkGreedy_wf|done]. }
  split.
  - intros [|j] f; simpl; [intros [= <-]|].
    + apply newField_ID in Hx. lia.
    + intros Hf. apply Hids in Hf. lia.
  - intros [|j] f d; simpl; [|apply Hg]. intros [= <-] [= <-].
    unfold newDelimiter. by destruct (String.eqb dt ""), (IsGreedy x).
Qed.

(** The index built over the sorted fields. *)
Lemma index_fields_other st fs m i :
  (∀ f, f ∈ fs → ID f ≠ i) → index_fields st fs m !! i = m !! i.
Proof.
  revert st m. induction fs as [|f fs IH]; intros st m Hne; simpl; [done|].
  rewrite IH by (intros g Hg; apply Hne; by right).
  apply lookup_insert_ne, Hne. by left.
Qed.

Lemma index_fields_range st fs m i j :
  (∀ i j, m !! i = Some j → (j < st + length fs)%nat) →
  index_fields st fs m !! i = Some j → (j < st + length fs)%nat.
Proof.
  revert st m. induction fs as [|f fs IH]; intros st m Hm; simpl; [apply Hm|].
  intros Hj. apply IH in Hj; [lia|]. intros i' j' [[<- <-]|[_ H']]%lookup_insert_Some; [lia|].
  apply Hm in H'. simpl in H'. lia.
Qed.

Lemma index_fields_lookup st fs m j f :
  NoDup (ID <$> fs) → fs !! j = Some f → index_fields st fs m !! ID f = Some (st + j)%nat.
Proof.
  revert st m j. induction fs as [|g fs IH]; intros st m j Hnd Hj; [done|].
  simpl in Hnd. apply NoDup_cons in Hnd as [Hg Hnd]. destruct j as [|j]; simpl in *.
  - injection Hj as ->. rewrite index_fields_other.
    + rewrite lookup_insert_eq. f_equal. lia.
    + intros h Hh He. apply Hg. rewrite <- He. by apply list_elem_of_fmap_2.
  - rewrite (IH (S st) _ j) by done. f_equal. lia.
Qed.

Lemma newParser_Ok_inv `{SliceSort} tok p :
  newParser tok = Ok p →
  ∃ ms tail ds fs,
    tokens (String.length tok) tok = (ms, tail) ∧ ms ≠ [] ∧ parse_matches 0 ms = Ok (ds, fs) ∧
    delimiters p = (if String.eqb tail "" then ds else (ds ++ [newDelimiter tail])%list) ∧
    fields p = sort_slice (λ f g, Ordinal f <? Ordinal g) fs ∧
    fieldsIDMap p = index_fields 0 (fields p) ∅ ∧
    referenceFields p = filterFieldsWith (fields p) (λ f, negb (IsSaveable f)).
Proof.
  unfold newParser. destruct (tokens _ tok) as [ms tail] eqn:Ht.
  destruct ms as [|x ms]; [done|].
  destruct (parse_matches 0 (x :: ms)) as [[ds fs]| | |] eqn:Hp; cbn [mbind res_bind]; try done.
  intros [= <-]. exists (x :: ms), tail, ds, fs. done.
Qed.

Lemma newParser_parser_ok `{SliceSort} tok p : newParser tok = Ok p → parser_ok p.
Proof.
  intros (ms & tail & ds & fs & _ & Hne & Hp & Hds & Hfs & Hmap & _)%newParser_Ok_inv.
  destruct (parse_matches_spec _ _ _ _ Hp) as (Hld & Hlf & Hwf & Hids & Hg).
  assert (Hperm : fields p ≡ₚ fs) by (rewrite Hfs; apply sort_slice_perm).
  assert (Hlen : length (fields p) = length fs) by by rewrite Hperm.
  assert (Hseq : ID <$> fs = seq 0 (length fs)).
  { apply list_eq. intros j. rewrite list_lookup_fmap.
    destruct (fs !! j) as [f|] eqn:Hj; simpl.
    - rewrite lookup_seq_lt by by eapply lookup_lt_Some. f_equal. by apply Hids in Hj.
    - symmetry. apply lookup_seq_ge. by apply lookup_ge_None. }
  assert (Hnd : NoDup (ID <$> fields p)).
  { rewrite Hperm, Hseq. apply NoDup_seq. }
  assert (Hin : ∀ f, f ∈ fields p → fs !! ID f = Some f).
  { intros f Hf. rewrite Hperm in Hf. apply list_elem_of_lookup in Hf as [j Hj].
    pose proof (Hids _ _ Hj) as He. simpl in He. by rewrite He. }
  assert (Hlms : (0 < length ms)%nat) by (destruct ms; [done|simpl; lia]).
  split.
  - rewrite Hds. destruct (String.eqb tail ""); [done|].
    apply Forall_app. split; [done|]. constructor; [apply newDelimiter_wf|constructor].
  - split; [lia|]. rewrite Hds. destruct (String.eqb tail "").
    + left. lia.
    + right. rewrite length_app. simpl. lia.
  - intros i Hi. rewrite Hlen in Hi. apply lookup_lt_is_Some in Hi as [f Hf].
    pose proof (Hids _ _ Hf) as He. simpl in He.
    assert (Hfp : f ∈ fields p) by (rewrite Hperm; by eapply list_elem_of_lookup_2).
    apply list_elem_of_lookup in Hfp as [j Hj]. exists j, f.
    rewrite Hmap, <- He. split; [|done]. by rewrite (index_fields_lookup 0 (fields p) ∅ j f).
  - intros i j. rewrite Hmap. intros Hj. apply index_fields_range in Hj; [done|].
    intros ? ? He. by rewrite lookup_empty in He.
  - intros f Hf. rewrite Hlen. apply Hin in Hf. by eapply lookup_lt_Some.
  - intros i f d Hf <- Hd. apply Hin in Hf. apply (Hg (ID f) f); [done|].
    rewrite Hds in Hd. destruct (String.eqb tail ""); [done|].
    rewrite lookup_app_l in Hd; [done|]. apply lookup_lt_Some in Hf. lia.
Qed.

(** C18: Every parser [newParser] returns satisfies the invariant the extraction
    relies on, whatever order [sort.Slice] gives to fields with equal ordinals:
    one delimiter per field plus at most a trailing one, every field found
    under its id, and the greedy marks of delimiters and fields in agreement. *)
Theorem newParser_ok `{SliceSort} tok p : newParser tok = Ok p → parser_ok p.
Proof. apply newParser_parser_ok. Qed.

(** The parser of a tokenizer, for evaluation. *)
Definition parser_of (tok : string) : parser :=
  match newParser tok with Ok p => p | _ => mkParser [] [] ∅ [] end.

Lemma newParser_ok_witness : parser_ok (parser_of "%{+k/2} %{+k/1} end").
Proof. apply (newParser_ok "%{+k/2} %{+k/1} end"). reflexivity. Defined.

(** ** Extraction *)

(** The delimiter occurs in [s] at byte [o]. *)
Definition occurs (d : delimiter) (s : string) (o : Z) : Prop :=
  0 ≤ o ∧ o + Len d ≤ strlen s ∧ HasPrefix (sdrop (Z.to_nat o) s) (Delimiter d) = true.

(** [s[a:b]] as a total function, for bounds known to be good. *)
Definition sub (s : string) (a b : Z) : string :=
  stake (Z.to_nat (b - a)) (sdrop (Z.to_nat a) s).

Definition text (s : string) (p : position) : string := sub s (start p) (end_ p).

Lemma Len_nonneg d : 0 ≤ Len d.
Proof. destruct d; simpl; [lia|apply strlen_nonneg]. Qed.

Lemma Len_Delimiter d : wf_delim d → Len d = strlen (Delimiter d).
Proof. destruct d; simpl; [by intros ->|done]. Qed.

Lemma sub_split s a b : 0 ≤ a ≤ b →
  sdrop (Z.to_nat a) s = sub s a b +:+ sdrop (Z.to_nat b) s.
Proof.
  intros Hab. unfold sub. rewrite <- (stake_sdrop (Z.to_nat (b - a)) (sdrop (Z.to_nat a) s)) at 1.
  rewrite sdrop_sdrop. repeat f_equal. lia.
Qed.

Lemma occurs_split d s o :
  wf_delim d → occurs d s o →
  sdrop (Z.to_nat o) s = Delimiter d +:+ sdrop (Z.to_nat (o + Len d)) s.
Proof.
  intros Hwf (Ho & Hl & Hp). apply HasPrefix_spec in Hp as [r Hr]. rewrite Hr. f_equal.
  rewrite Len_Delimiter in * by done. unfold strlen at 1.
  rewrite Z2Nat.inj_add, Nat2Z.id by (unfold strlen; lia).
  by rewrite <- sdrop_sdrop, Hr, sdrop_length_app.
Qed.

Lemma IndexOf_occurs d s o e :
  wf_delim d → 0 ≤ o ≤ strlen s → IndexOf d s o = Ok e → e ≠ -1 → occurs d s e ∧ o ≤ e.
Proof.
  intros Hwf Ho. destruct d as [n g|n g]; cbn [IndexOf].
  { intros [= <-] _. simpl in Hwf. subst n. split; [|lia]. unfold occurs. simpl.
    rewrite HasPrefix_nil. lia. }
  rewrite slice_Ok by lia. cbn [mbind res_bind].
  set (rest := stake _ _).
  assert (Hrest : rest = sdrop (Z.to_nat o) s).
  { apply stake_all. rewrite length_sdrop. unfold strlen. lia. }
  rewrite Hrest. destruct (Index_cases (sdrop (Z.to_nat o) s) n) as [[-> _]|(i & -> & Hi)];
    [by intros [= <-]|].
  destruct (Z.eqb_spec (Z.of_nat i) (-1)); [lia|]. intros [= <-] _.
  apply index_nat_Some in Hi as (_ & Hlen & Hp). rewrite length_sdrop in Hlen.
  split; [|lia]. unfold occurs. simpl. unfold strlen in *. split; [lia|]. split; [lia|].
  rewrite sdrop_sdrop in Hp. replace (Z.to_nat (Z.of_nat i + o)) with (Z.to_nat o + i)%nat by lia.
  done.
Qed.

(** With an empty next delimiter the greedy loop advances by one byte per turn
    and never leaves. *)
Lemma greedy_loop_zeroByte fuel n g s o : greedy_loop fuel (zeroByte n g) s o = OutOfFuel.
Proof.
  revert o. induction fuel as [|fuel IH]; intros o; [done|].
  cbn [greedy_loop IndexOf mbind res_bind]. rewrite Z.eqb_refl. apply IH.
Qed.

Lemma greedy_loop_occurs fuel d s o o' :
  wf_delim d → occurs d s o → greedy_loop fuel d s o = Ok o' → occurs d s o' ∧ o ≤ o'.
Proof.
  intros Hwf. destruct d as [n g|n g]; [by rewrite greedy_loop_zeroByte|].
  revert o. induction fuel as [|fuel IH]; intros o Ho; [done|]. cbn [greedy_loop].
  destruct (IndexOf (multiByte n g) s (o + 1)) as [la| | |] eqn:Hla; cbn [mbind res_bind]; try done.
  destruct (Z.eqb_spec la (o + 1)) as [->|Hne]; simpl; [|intros [= <-]; split; [done|lia]].
  intros Hrun. pose proof (Len_nonneg (multiByte n g)).
  assert (o + 1 ≤ strlen s).
  { destruct Ho as (? & Ho & _). simpl in Ho, Hwf. destruct n; [done|].
    unfold strlen in *. simpl in Ho. lia. }
  destruct Ho as (Ho & _ & _). apply IndexOf_occurs in Hla as [Hocc _]; [|done|lia|lia].
  apply IH in Hrun as [? ?]; [|done]. split; [done|lia].
Qed.

(** The message as the extraction reads it from byte [o] on: per delimiter, the
    text of a key, what a greedy key skips, the delimiter. *)
Fixpoint spell (s : string) (ps : list position) (pads : list string) (ds : list delimiter)
  : string :=
  match ps, pads, ds with
  | p :: ps', pad :: pads', d :: ds' =>
      text s p +:+ pad +:+ Delimiter d +:+ spell s ps' pads' ds'
  | _, _, _ => ""
  end.

(** Padding appears only after greedy keys; [ds] are the delimiters before each
    key. *)
Definition padding_ok (pads : list string) (ds : list delimiter) : Prop :=
  ∀ i d pad, ds !! i = Some d → pads !! i = Some pad → delim_IsGreedy d = false → pad = "".

Definition no_fixed_length (p : parser) : Prop :=
  ∀ f, f ∈ fields p → IsFixedLength f = false.

Lemma field_at_not_fixed p i f :
  no_fixed_length p → field_at p i = Ok f → IsFixedLength f = false.
Proof.
  intros Hn. unfold field_at. destruct (fields p !! _) as [g|] eqn:Hg; [|done].
  intros [= <-]. apply Hn. by eapply list_elem_of_lookup_2.
Qed.

Lemma set_position_Ok ps i x ps' :
  set_position ps i x = Ok ps' → (i < length ps)%nat ∧ ps' = <[i := x]> ps.
Proof. unfold set_position. case_bool_decide; [by intros [= <-]|done]. Qed.

Definition good_position (s : string) (q : position) : Prop :=
  0 ≤ start q ∧ start q ≤ end_ q ∧ end_ q ≤ strlen s.

(** One turn of the loop. *)
Lemma extract_loop_cons fuel p s dl next nexts i o ps r :
  no_fixed_length p → wf_delim next → 0 ≤ o ≤ strlen s →
  extract_loop fuel p s dl (next :: nexts) i o ps = Ok r →
  ∃ e o1, o ≤ e ≤ o1 ∧ occurs next s o1 ∧ (delim_IsGreedy dl = false → o1 = e) ∧
    (i < length ps)%nat ∧
    extract_loop fuel p s next nexts (S i) (o1 + Len next) (<[i := mkPos o e]> ps) = Ok r.
Proof.
  intros Hnf Hwf Ho. cbn [extract_loop].
  intros (f & Hf & Hrun)%res_bind_Ok.
  apply res_bind_Ok in Hrun as (e & He & Hrun).
  apply res_bind_Ok in Hrun as (o1 & Ho1 & Hrun).
  apply res_bind_Ok in Hrun as (ps1 & Hps & Hrun).
  apply set_position_Ok in Hps as [Hi ->].
  unfold field_end in He. rewrite (field_at_not_fixed _ _ _ Hnf Hf) in He.
  apply res_bind_Ok in He as (e0 & He0 & He).
  destruct (Z.eqb_spec e0 (-1)) as [->|Hne].
  { by apply res_bind_Ok in He as (? & _ & ?). }
  injection He as ->. apply IndexOf_occurs in He0 as [Hocc Hle]; [|done..].
  destruct (delim_IsGreedy dl).
  - apply greedy_loop_occurs in Ho1 as [Hocc1 Hle1]; [|done..].
    exists e, o1. split; [lia|]. done.
  - injection Ho1 as ->. exists o1, o1. split; [lia|]. done.
Qed.

(** The positions the loop sets, and how the message spells from there. *)
Lemma extract_loop_spec fuel p s dl nexts i o ps i' o' ps' :
  no_fixed_length p → Forall wf_delim nexts → 0 ≤ o ≤ strlen s → (i ≤ length ps)%nat →
  extract_loop fuel p s dl nexts i o ps = Ok (i', o', ps') →
  ∃ new pads,
    i' = (i + length nexts)%nat ∧ (i' ≤ length ps)%nat ∧
    ps' = (take i ps ++ new ++ drop i' ps)%list ∧
    length new = length nexts ∧ length pads = length nexts ∧
    0 ≤ o' ≤ strlen s ∧ Forall (good_position s) new ∧ padding_ok pads (dl :: nexts) ∧
    sdrop (Z.to_nat o) s = spell s new pads nexts +:+ sdrop (Z.to_nat o') s.
Proof.
  intros Hnf. revert dl i o ps.
  induction nexts as [|next nexts IH]; intros dl i o ps Hwf Ho Hi Hrun.
  { injection Hrun as <- <- <-. exists [], []. rewrite Nat.add_0_r. simpl.
    rewrite take_drop. repeat split; try done; try lia. }
  apply Forall_cons in Hwf as [Hw Hwf].
  apply extract_loop_cons in Hrun as (e & o1 & Hle & Hocc & Hng & Hil & Hrun); [|done..].
  pose proof (Len_nonneg next). pose proof Hocc as (? & ? & _).
  apply IH in Hrun as (new & pads & -> & Hi' & -> & Hln & Hlp & Ho' & Hgood & Hpad & Hs);
    [|done|lia|rewrite length_insert; lia].
  rewrite length_insert in Hi'.
  exists (mkPos o e :: new), (sub s e o1 :: pads). simpl length.
  split; [lia|]. split; [lia|]. split.
  { rewrite (take_S_r _ i (mkPos o e)) by (by apply list_lookup_insert_eq).
    rewrite take_insert_ge by lia. rewrite drop_insert_lt by lia.
    by rewrite <- app_assoc. }
  split; [lia|]. split; [lia|]. split; [done|]. split.
  { constructor; [|done]. unfold good_position. simpl. lia. }
  split.
  { intros [|j] d pad; simpl; [|apply Hpad].
    intros [= <-] [= <-] Hg. rewrite Hng by done. unfold sub. by rewrite Z.sub_diag. }
  cbn [spell]. unfold text. simpl start. simpl end_.
  rewrite (sub_split s o e) by lia. rewrite (sub_split s e o1) by lia.
  rewrite (occurs_split next s o1), Hs by done. by rewrite !sapp_assoc.
Qed.

Lemma field_at_Ok p i : parser_ok p → ∃ f, field_at p i = Ok f.
Proof.
  intros Hp. unfold field_at. destruct (decide (i < length (fields p))%nat) as [Hi|Hi].
  - destruct (ok_ids p Hp i Hi) as (j & f & -> & Hf & _). simpl. rewrite Hf. eauto.
  - destruct (fields p !! default 0%nat (fieldsIDMap p !! i)) as [f|] eqn:Hf; [eauto|].
    exfalso. apply lookup_ge_None in Hf.
    destruct (fieldsIDMap p !! i) as [j|] eqn:Hj; simpl in Hf.
    + apply (ok_map_range p Hp) in Hj. lia.
    + pose proof (ok_count p Hp). lia.
Qed.

Lemma spell_app s new tl pads nexts :
  length new = length nexts → length pads = length nexts →
  spell s (new ++ tl)%list pads nexts = spell s new pads nexts.
Proof.
  revert pads nexts. induction new as [|q new IH]; intros [|pad pads] [|d nexts]; simpl; intros; try done.
  - by destruct tl.
  - by rewrite IH by lia.
Qed.

(** The position of a key that ends the tokenizer holds the rest. *)
Lemma last_position s o new ps :
  0 ≤ o ≤ strlen s →
  (if o <? strlen s then set_position (new ++ [mkPos 0 0])%list (length new) (mkPos o (strlen s))
   else Ok (new ++ [mkPos 0 0])%list) = Ok ps →
  ∃ q, ps = (new ++ [q])%list ∧ good_position s q ∧ text s q = sdrop (Z.to_nat o) s.
Proof.
  intros Ho. destruct (Z.ltb_spec o (strlen s)) as [Hlt|Hge].
  - intros [_ ->]%set_position_Ok. exists (mkPos o (strlen s)).
    split; [rewrite insert_app_r_alt, Nat.sub_diag by lia; done|].
    split; [unfold good_position; simpl; lia|].
    unfold text, sub. simpl. apply stake_all. rewrite length_sdrop. unfold strlen. lia.
  - intros [= <-]. exists (mkPos 0 0). split; [done|].
    split; [unfold good_position; simpl; lia|]. unfold text, sub. simpl.
    symmetry. apply sdrop_all. unfold strlen in *. lia.
Qed.

(** C6: for a tokenizer without fixed-length keys, a successful extraction
    accounts for the message up to its last delimiter: it is the first
    delimiter, then for each further delimiter the text of its key, the padding a
    greedy key skips (empty for the others) and that delimiter, then a rest.
    When no delimiter follows the last key the rest is the text of that key;
    after a trailing delimiter no key claims the rest, which may be any text.
    All positions are inside the message. *)
Theorem extract_accounts_for_message fuel p s ps d0 nexts :
  parser_ok p → no_fixed_length p → delimiters p = d0 :: nexts →
  extract fuel p s = Ok ps →
  length ps = length (fields p) ∧ Forall (good_position s) ps ∧
  ∃ pads rest,
    padding_ok pads (d0 :: nexts) ∧ length pads = length nexts ∧
    s = Delimiter d0 +:+ spell s ps pads nexts +:+ rest ∧
    (length nexts < length (fields p) → text s <$> drop (length nexts) ps = [rest])%nat.
Proof.
  intros Hp Hnf Hd Hrun. pose proof (ok_delims p Hp) as Hwf. rewrite Hd in Hwf.
  apply Forall_cons in Hwf as [Hw0 Hwf].
  pose proof (ok_count p Hp) as [Hpos Hcount]. rewrite Hd in Hcount. simpl in Hcount.
  unfold extract in Hrun. rewrite Hd in Hrun.
  apply res_bind_Ok in Hrun as (o & Ho & Hrun).
  destruct (Z.eqb_spec o (-1)) as [->|Hne]; [done|].
  destruct (Z.eqb_spec o 0) as [->|]; [|done]. simpl orb in Hrun. cbv iota in Hrun.
  pose proof (strlen_nonneg s). apply IndexOf_occurs in Ho as [Hocc _]; [|done|lia|done].
  apply res_bind_Ok in Hrun as ([[i o] ps1] & Hloop & Hrun).
  pose proof (Len_nonneg d0). pose proof Hocc as (_ & ? & _).
  apply extract_loop_spec in Hloop as
    (new & pads & -> & Hi & -> & Hln & Hlp & Ho & Hgood & Hpad & Hs); [|done|done|lia|lia].
  rewrite length_replicate in Hi. simpl take in Hrun. simpl app in Hrun.
  rewrite drop_replicate in Hrun. set (n := length (fields p)) in *.
  apply res_bind_Ok in Hrun as (f & Hf & Hrun).
  rewrite (field_at_not_fixed _ _ _ Hnf Hf) in Hrun. simpl andb in Hrun.
  assert (Hfull : s = Delimiter d0 +:+ spell s new pads nexts +:+ sdrop (Z.to_nat o) s).
  { rewrite <- Hs. change s with (sdrop (Z.to_nat 0) s) at 1.
    rewrite (occurs_split d0 s 0) by done. do 3 f_equal. }
  destruct Hcount as [Hc|Hc].
  - assert (Hone : (n - length nexts)%nat = 1%nat) by lia. rewrite Hone in Hrun. simpl in Hrun.
    rewrite bool_decide_true, andb_true_r in Hrun by lia. rewrite <- Hln in Hrun.
    apply last_position in Hrun as (q & -> & Hq & Htext); [|done].
    split; [rewrite length_app; simpl; lia|]. split; [apply Forall_app; eauto|].
    exists pads, (sdrop (Z.to_nat o) s). rewrite spell_app by done. repeat (split; [done|]).
    intros _. rewrite <- Hln, drop_app_length. simpl. by rewrite Htext.
  - rewrite bool_decide_false, andb_false_r in Hrun by lia.
    replace (n - length nexts)%nat with 0%nat in Hrun by lia. simpl in Hrun.
    injection Hrun as <-. rewrite app_nil_r. split; [lia|]. split; [done|].
    exists pads, (sdrop (Z.to_nat o) s). repeat (split; [done|]). lia.
Qed.

Lemma no_fixed_length_check p :
  forallb (λ f, negb (IsFixedLength f)) (fields p) = true → no_fixed_length p.
Proof.
  intros Hc f Hf. apply forallb_forall with (x := f) in Hc; [by apply negb_true_iff|].
  by apply list_elem_of_In.
Qed.

Lemma extract_accounts_for_message_witness :
  ∃ pads rest,
    padding_ok pads [multiByte "[" true; multiByte " " false] ∧ length pads = 1%nat ∧
    "[x   y" = "[" +:+ spell "[x   y" [mkPos 1 2; mkPos 5 6] pads [multiByte " " false] +:+ rest ∧
    (text "[x   y" <$> [mkPos 5 6] = [rest]).
Proof.
  destruct (extract_accounts_for_message 20 (parser_of "[%{a->} %{b}") "[x   y"
    [mkPos 1 2; mkPos 5 6] (multiByte "[" true) [multiByte " " false]) as
    (_ & _ & pads & rest & H1 & H2 & H3 & H4).
  - apply (newParser_parser_ok "[%{a->} %{b}"). reflexivity.
  - apply no_fixed_length_check. reflexivity.
  - reflexivity.
  - reflexivity.
  - exists pads, rest. split; [exact H1|]. split; [exact H2|]. split; [exact H3|].
    apply H4. vm_compute. lia.
Defined.

(** ** Termination *)

(** A greedy key is not followed by an empty delimiter. *)
Definition greedy_delimited (p : parser) : Prop :=
  ∀ i d d', delimiters p !! i = Some d → delimiters p !! S i = Some d' →
    delim_IsGreedy d = true → Len d' ≠ 0.

Lemma IndexOf_defined d s o : 0 ≤ o ≤ strlen s → ∃ e, IndexOf d s o = Ok e.
Proof.
  intros Ho. destruct d as [n g|n g]; cbn [IndexOf]; [eauto|].
  rewrite slice_Ok by lia. cbn [mbind res_bind]. case_match; eauto.
Qed.

Lemma greedy_loop_defined fuel d s o :
  wf_delim d → Len d ≠ 0 → occurs d s o → (Z.to_nat (strlen s - o) < fuel)%nat →
  ∃ o', greedy_loop fuel d s o = Ok o'.
Proof.
  intros Hwf Hlen. revert o. induction fuel as [|fuel IH]; intros o Hocc Hf; [lia|].
  pose proof (Len_nonneg d). pose proof Hocc as (? & ? & _). cbn [greedy_loop].
  destruct (IndexOf_defined d s (o + 1)) as [la Hla]; [lia|]. rewrite Hla.
  cbn [mbind res_bind]. destruct (Z.eqb_spec la (o + 1)) as [->|]; simpl; [|eauto].
  apply IndexOf_occurs in Hla as [Hocc1 _]; [|done|lia|lia]. apply IH; [done|lia].
Qed.

Lemma field_end_defined f d s o :
  IsFixedLength f = false → 0 ≤ o ≤ strlen s →
  (∃ e, field_end f d s o = Ok e ∧ e ≠ -1 ∧ IndexOf d s o = Ok e) ∨
  (∃ x, field_end f d s o = Err x).
Proof.
  intros Hf Ho. unfold field_end. rewrite Hf.
  destruct (IndexOf_defined d s o Ho) as [e He]. rewrite He. cbn [mbind res_bind].
  destruct (Z.eqb_spec e (-1)); [|eauto]. rewrite slice_Ok by lia. right. eexists. reflexivity.
Qed.

Lemma extract_loop_defined p s dl nexts i o ps :
  parser_ok p → no_fixed_length p → Forall wf_delim nexts →
  (∀ j d d', (dl :: nexts) !! j = Some d → nexts !! j = Some d' →
     delim_IsGreedy d = true → Len d' ≠ 0) →
  0 ≤ o ≤ strlen s → (i + length nexts ≤ length ps)%nat →
  defined (extract_loop (S (String.length s)) p s dl nexts i o ps).
Proof.
  intros Hp Hnf. revert dl i o ps.
  induction nexts as [|next nexts IH]; intros dl i o ps Hwf Hg Ho Hi; [done|].
  apply Forall_cons in Hwf as [Hw Hwf]. cbn [extract_loop].
  destruct (field_at_Ok p i Hp) as [f Hf]. rewrite Hf. cbn [mbind res_bind].
  pose proof (field_at_not_fixed _ _ _ Hnf Hf) as Hff.
  destruct (field_end_defined f next s o Hff Ho) as [(e & -> & Hne & He)|[x ->]]; [|done].
  apply IndexOf_occurs in He as [Hocc Hle]; [|done..]. cbn [mbind res_bind].
  assert (Hgl : ∃ o1, (if delim_IsGreedy dl then greedy_loop (S (String.length s)) next s e
                       else Ok e) = Ok o1 ∧ occurs next s o1).
  { destruct (delim_IsGreedy dl) eqn:Hdl; [|eauto].
    destruct (greedy_loop_defined (S (String.length s)) next s e) as [o1 Ho1]; [done| |done| |].
    - by apply (Hg 0%nat dl).
    - destruct Hocc as (? & _ & _). unfold strlen. lia.
    - exists o1. split; [done|]. by apply greedy_loop_occurs in Ho1 as [? _]. }
  destruct Hgl as (o1 & -> & Hocc1). cbn [mbind res_bind].
  unfold set_position. rewrite bool_decide_true by (simpl in Hi; lia). cbn [mbind res_bind].
  pose proof (Len_nonneg next). destruct Hocc1 as (? & ? & _). apply IH; [done| |lia|].
  - intros j d d' Hd Hd'. by apply (Hg (S j)).
  - rewrite length_insert. simpl in Hi. lia.
Qed.

Lemma defined_bind {E A B} (m : res E A) (f : A → res E B) :
  defined m → (∀ a, m = Ok a → defined (f a)) → defined (m ≫= f).
Proof. destruct m; simpl; auto. Qed.

(** C37: for a tokenizer without fixed-length keys in which every greedy key that
    a delimiter follows is followed by a non-empty one (so no other key comes
    directly after it), the extraction ends on every message with a result or an
    error and never panics; [len(s)+1] turns of each greedy loop are enough. *)
Theorem extract_terminates p s :
  parser_ok p → no_fixed_length p → greedy_delimited p →
  defined (extract (S (String.length s)) p s).
Proof.
  intros Hp Hnf Hg. unfold extract. pose proof (ok_delims p Hp) as Hwf.
  pose proof (ok_count p Hp) as [Hpos Hcount]. unfold greedy_delimited in Hg.
  destruct (delimiters p) as [|d0 nexts] eqn:Hd; [simpl in Hcount; lia|].
  apply Forall_cons in Hwf as [Hw0 Hwf]. pose proof (strlen_nonneg s).
  destruct (IndexOf_defined d0 s 0) as [o Ho]; [lia|]. rewrite Ho. cbn [mbind res_bind].
  destruct (Z.eqb_spec o (-1)); [done|]. destruct (Z.eqb_spec o 0) as [->|]; [|done].
  apply IndexOf_occurs in Ho as [(? & ? & _) _]; [|done|lia|done]. pose proof (Len_nonneg d0).
  apply defined_bind.
  - apply extract_loop_defined; [done|done|done|exact Hg|lia|]. rewrite length_replicate. simpl in Hcount. lia.
  - intros [[i o] ps] Hrun.
    apply extract_loop_spec in Hrun as (new & pads & -> & Hi & -> & Hln & _);
      [|done|done|lia|lia].
    destruct (field_at_Ok p (0 + length nexts) Hp) as [f Hf]. rewrite Hf. cbn [mbind res_bind].
    rewrite (field_at_not_fixed _ _ _ Hnf Hf). cbn [andb].
    destruct (o <? strlen s); [|done]. cbn [andb]. case_bool_decide as Hlt; [|done].
    unfold set_position. rewrite bool_decide_true; [done|].
    rewrite !length_app, length_take, length_drop, Hln. rewrite length_replicate. lia.
Qed.

Lemma extract_terminates_witness : defined (extract 6 (parser_of "%{a->} %{b}") "x   y").
Proof.
  apply (extract_terminates (parser_of "%{a->} %{b}") "x   y").
  - apply (newParser_parser_ok "%{a->} %{b}"). reflexivity.
  - apply no_fixed_length_check. reflexivity.
  - intros [|[|i]] d d'; [|done|done]. vm_compute. by intros [= <-] [= <-].
Defined.

(** The two fields and the parser of ["%{a->}%{b}"], for any [sort.Slice]. *)
Definition fields_ab : list field :=
  [normalField (mkBase 0 "a" 0 0 true ""); normalField (mkBase 1 "b" 0 0 false "")].

Definition parser_ab `{SliceSort} : parser :=
  let sorted := sort_slice (λ f g, Ordinal f <? Ordinal g) fields_ab in
  mkParser [zeroByte "" true; zeroByte "" false] sorted (index_fields 0 sorted ∅)
    (filterFieldsWith sorted (λ f, negb (IsSaveable f))).

Lemma fields_ab_sorted `{SliceSort} f : f ∈ fields parser_ab → f ∈ fields_ab.
Proof. unfold parser_ab. simpl. by rewrite sort_slice_perm. Qed.

Lemma parser_ab_validates `{SliceSort} : validate parser_ab = Ok tt.
Proof.
  unfold validate. assert (Hnil : filterFieldsWith (fields parser_ab) isIndirectField = []).
  { unfold filterFieldsWith. destruct (filter _ _) as [|f l] eqn:Hf; [done|].
    assert (Hin : f ∈ f :: l) by left. rewrite <- Hf in Hin.
    apply list_elem_of_filter in Hin as [Hi Hin]. apply fields_ab_sorted in Hin.
    set_solver. }
  by rewrite Hnil.
Qed.

(** A greedy key directly followed by another key makes [Dissect] run
    forever: the tokenizer ["%{a->}%{b}"] is accepted, and on every non-empty
    message no number of turns of the greedy loop is enough. *)
Theorem greedy_key_before_key_diverges `{SliceSort} :
  ∃ d, New "%{a->}%{b}" = Ok d ∧
    ∀ s fuel, s ≠ "" → Dissect fuel d s = OutOfFuel.
Proof.
  exists (mkDissector "%{a->}%{b}" parser_ab None).
  assert (Hp : newParser "%{a->}%{b}" = Ok parser_ab) by reflexivity.
  split.
  { unfold New. rewrite Hp. cbn [mbind res_bind]. by rewrite parser_ab_validates. }
  intros s fuel Hs. unfold Dissect. destruct (String.eqb_spec s ""); [done|].
  unfold extract. cbn -[field_at]. pose proof (newParser_parser_ok _ _ Hp) as Hok.
  destruct (field_at_Ok parser_ab 0 Hok) as [f Hf]. rewrite Hf. cbn -[greedy_loop].
  assert (Hff : IsFixedLength f = false).
  { unfold field_at in Hf. case_match eqn:Hl; [|done]. injection Hf as ->.
    apply list_elem_of_lookup_2, fields_ab_sorted in Hl. set_solver. }
  unfold field_end. rewrite Hff. cbn -[greedy_loop]. change (0 + 0 =? -1) with false. cbn [mbind res_bind].
  by rewrite greedy_loop_zeroByte.
Qed.

(** Fixed-length keys make [Dissect] panic on short messages: the delimiter
    after such a key is not looked for, so the offset can pass the end of the
    message, which is then sliced out of range. *)
Theorem fixed_length_panics :
  (∃ d, New "%{a#3},%{b},%{c}" = Ok d ∧
    ∀ fuel, Dissect (S fuel) d "abc" = Panic PIndexOutOfRange) ∧
  (∃ d, New "%{a#3->},%{b}" = Ok d ∧
    ∀ fuel, Dissect (S fuel) d "abc" = Panic PIndexOutOfRange).
Proof.
  split; eexists; (split; [vm_compute; reflexivity|]); intros fuel; reflexivity.
Qed.

(** After a trailing delimiter the check for a last fixed-length key is made
    on the first field instead: ["%{a#3} foo"] rejects the message ["abc foo"]
    it describes and accepts ["abc fooXYZ"]. *)
Theorem trailing_delimiter_checks_wrong_field :
  ∃ d, New "%{a#3} foo" = Ok d ∧
    (∀ fuel, Dissect fuel d "abc foo" = Err errLastFixedLength) ∧
    (∀ fuel, Dissect fuel d "abc fooXYZ" = Ok {[ "a" := "abc" ]}).
Proof.
  eexists. split; [vm_compute; reflexivity|]. split; intros fuel; reflexivity.
Qed.

(** ** Trimming *)
Lemma trim_left_spec t s a n :
  (a ≤ trim_left t s a n)%nat ∧ (trim_left t s a n ≤ a + n)%nat ∧
  (∀ i, (a ≤ i < trim_left t s a n)%nat → trimmable t s i = true) ∧
  ((trim_left t s a n < a + n)%nat → trimmable t s (trim_left t s a n) = false).
Proof.
  revert a. induction n as [|n IH]; intros a; simpl.
  { repeat split; intros; lia. }
  destruct (trimmable t s a) eqn:Ht.
  - destruct (IH (S a)) as (? & ? & Hin & Hstop). split; [lia|]. split; [lia|]. split.
    + intros i Hi. destruct (decide (i = a)) as [->|]; [done|]. apply Hin. lia.
    + intros Hlt. apply Hstop. lia.
  - repeat split; intros; try lia. done.
Qed.

Lemma trim_right_spec t s a n :
  (a ≤ trim_right t s a n)%nat ∧ (trim_right t s a n ≤ a + n)%nat ∧
  (∀ i, (trim_right t s a n ≤ i < a + n)%nat → trimmable t s i = true) ∧
  ((a < trim_right t s a n)%nat → trimmable t s (trim_right t s a n - 1) = false).
Proof.
  induction n as [|n IH]; simpl.
  { repeat split; intros; lia. }
  destruct (trimmable t s (a + n)) eqn:Ht.
  - destruct IH as (? & ? & Hin & Hstop). split; [lia|]. split; [lia|]. split; [|done].
    intros i Hi. destruct (decide (i = a + n)%nat) as [->|]; [done|]. apply Hin. lia.
  - split; [lia|]. split; [lia|]. split; [intros i Hi; lia|].
    intros _. replace (a + S n - 1)%nat with (a + n)%nat by lia. done.
Qed.

(** [Trim] narrows [start,end) from the enabled sides by trim characters
    only, and as far as possible: every byte cut off is a trim character and the
    byte at an enabled edge of a non-empty result is not. *)
Theorem Trim_narrows_maximally t s a b :
  (a ≤ b)%nat →
  let '(a', b') := Trim t s a b in
  (a ≤ a')%nat ∧ (a' ≤ b')%nat ∧ (b' ≤ b)%nat ∧
  (left t = false → a' = a) ∧ (right t = false → b' = b) ∧
  (∀ i, (a ≤ i < a')%nat ∨ (b' ≤ i < b)%nat → trimmable t s i = true) ∧
  ((a' < b')%nat →
     (left t = true → trimmable t s a' = false) ∧
     (right t = true → trimmable t s (b' - 1) = false)).
Proof.
  intros Hab. unfold Trim.
  destruct (trim_left_spec t s a (b - a)) as (L1 & L2 & L3 & L4).
  set (a' := if left t then _ else _).
  assert (Ha : (a ≤ a')%nat ∧ (a' ≤ b)%nat ∧ (∀ i, (a ≤ i < a')%nat → trimmable t s i = true) ∧
    (left t = false → a' = a) ∧ ((a' < b)%nat → left t = true → trimmable t s a' = false)).
  { unfold a'. destruct (left t); repeat split; intros; try lia; try done.
    - apply L3. lia.
    - apply L4. lia. }
  destruct Ha as (A1 & A2 & A3 & A4 & A5).
  destruct (trim_right_spec t s a' (b - a')) as (R1 & R2 & R3 & R4).
  destruct (right t).
  - repeat split; try lia; try done.
    + intros i [Hi|Hi]; [by apply A3|apply R3; lia].
    + intros Hl. apply A5; [lia|done].
    + intros _. by apply R4.
  - repeat split; try lia; try done.
    + intros i [Hi|Hi]; [by apply A3|lia].
    + intros Hl. by apply A5.
Qed.

Lemma Trim_narrows_maximally_witness :
  let t := mkTrimmer {[" "%char]} true true in
  let '(a', b') := Trim t "  ab " 0 5 in
  (0 ≤ a')%nat ∧ (a' ≤ b')%nat ∧ (b' ≤ 5)%nat ∧
  (left t = false → a' = 0%nat) ∧ (right t = false → b' = 5%nat) ∧
  (∀ i, (0 ≤ i < a')%nat ∨ (b' ≤ i < 5)%nat → trimmable t "  ab " i = true) ∧
  ((a' < b')%nat →
     (left t = true → trimmable t "  ab " a' = false) ∧
     (right t = true → trimmable t "  ab " (b' - 1) = false)).
Proof. apply (Trim_narrows_maximally (mkTrimmer {[" "%char]} true true) "  ab " 0 5). lia. Defined.

(** ** Resolution *)
Definition is_normal (f : field) : Prop := match f with normalField _ => True | _ => False end.

Lemma resolve_fields_normal s ps fs m :
  Forall is_normal fs → NoDup (Key <$> fs) → Forall (good_position s) ps →
  (∀ f, f ∈ fs → (ID f < length ps)%nat) →
  ∃ m', resolve_fields s ps fs m = Ok m' ∧
    (∀ f q, f ∈ fs → ps !! ID f = Some q → m' !! Key f = Some (text s q)) ∧
    (∀ k, k ∉ Key <$> fs → m' !! k = m !! k).
Proof.
  intros Hn Hnd Hgood. revert m. induction fs as [|f fs IH]; intros m Hid; cbn [resolve_fields].
  { exists m. split; [done|]. split; [|done]. intros ? ? Hf. by apply not_elem_of_nil in Hf. }
  apply Forall_cons in Hn as [Hf Hn]. simpl in Hnd. apply NoDup_cons in Hnd as [Hk Hnd].
  destruct (lookup_lt_is_Some_2 ps (ID f)) as [q Hq]; [apply Hid; left|]. rewrite Hq.
  assert (Hgq : good_position s q) by (eapply Forall_lookup_1; [exact Hgood|exact Hq]).
  destruct Hgq as (? & ? & ?). rewrite slice_Ok by done. cbn [mbind res_bind].
  destruct f as [b| | | | |]; try done.
  destruct (IH Hn Hnd (<[Key (normalField b) := text s q]> m)) as (m' & Hrun & Hin & Hout).
  { intros g Hg. apply Hid. by right. }
  exists m'. split; [exact Hrun|]. split.
  - intros g q' [->|Hg]%elem_of_cons Hq'; [|by apply Hin]. rewrite Hq in Hq'. injection Hq' as <-.
    rewrite Hout by done. apply lookup_insert_eq.
  - intros k Hkn. apply not_elem_of_cons in Hkn as [? ?]. rewrite Hout by done.
    by apply lookup_insert_ne.
Qed.

(** With plain keys of distinct names only, the resolution of good
    positions returns exactly one entry per key: the text between its
    delimiters. *)
Theorem resolve_normal_fields p s ps :
  parser_ok p → Forall is_normal (fields p) → NoDup (Key <$> fields p) →
  referenceFields p = [] → length ps = length (fields p) → Forall (good_position s) ps →
  ∃ m, resolve p s ps = Ok m ∧
    (∀ f q, f ∈ fields p → ps !! ID f = Some q → m !! Key f = Some (text s q)) ∧
    (∀ k, k ∉ Key <$> fields p → m !! k = None).
Proof.
  intros Hp Hn Hnd Href Hlen Hgood.
  destruct (resolve_fields_normal s ps (fields p) ∅) as (m & Hrun & Hin & Hout); [done..| |].
  { intros f Hf. rewrite Hlen. by apply (ok_id_range p Hp). }
  exists m. unfold resolve. rewrite Hrun, Href. split; [done|]. split; [done|].
  intros k Hk. rewrite Hout by done. apply lookup_empty.
Qed.

Lemma resolve_normal_fields_witness :
  ∃ m, resolve (parser_of "%{a} %{b}") "x y" [mkPos 0 1; mkPos 2 3] = Ok m ∧
    (∀ f q, f ∈ fields (parser_of "%{a} %{b}") → [mkPos 0 1; mkPos 2 3] !! ID f = Some q →
       m !! Key f = Some (text "x y" q)) ∧
    (∀ k, k ∉ Key <$> fields (parser_of "%{a} %{b}") → m !! k = None).
Proof.
  apply (resolve_normal_fields (parser_of "%{a} %{b}") "x y" [mkPos 0 1; mkPos 2 3]).
  - apply (newParser_parser_ok "%{a} %{b}"). reflexivity.
  - vm_compute. by repeat constructor.
  - apply (bool_decide_unpack _). vm_compute. exact I.
  - reflexivity.
  - reflexivity.
  - repeat constructor; vm_compute; done.
Defined.

Lemma foldl_delete_lookup (fs : list field) (m : gmap string string) k :
  (k ∈ Key <$> fs ∨ m !! k = None) → foldl (λ m f, delete (Key f) m) m fs !! k = None.
Proof.
  revert m. induction fs as [|f fs IH]; intros m Hk; simpl.
  - destruct Hk as [Hk|Hk]; [by apply not_elem_of_nil in Hk|done].
  - apply IH. destruct (decide (Key f = k)) as [<-|Hne]; [right; apply lookup_delete_eq|].
    rewrite lookup_delete_ne by done. destruct Hk as [Hk|?]; [|by right].
    simpl in Hk. apply elem_of_cons in Hk as [->|?]; [done|by left].
Qed.

Lemma validate_Ok p f :
  validate p = Ok tt → f ∈ fields p → isIndirectField f = true →
  ∃ r, r ∈ referenceFields p ∧ Key r = Key f.
Proof.
  unfold validate. intros Hv Hf Hi.
  assert (Hin : f ∈ filterFieldsWith (fields p) isIndirectField).
  { unfold filterFieldsWith. apply list_elem_of_filter. done. }
  revert Hv Hin. generalize (filterFieldsWith (fields p) isIndirectField) as l.
  induction l as [|g l IH]; intros Hv Hin; [by apply not_elem_of_nil in Hin|].
  destruct (existsb _ (referenceFields p)) eqn:He; [|done].
  apply elem_of_cons in Hin as [->|Hin]; [|by apply IH].
  apply existsb_exists in He as (r & Hr & Hk%String.eqb_eq).
  exists r. split; [by apply list_elem_of_In|done].
Qed.

(** In an accepted tokenizer every [%{&key}] has a key to refer to, and no
    name that was only captured for reference is in a result. *)
Theorem references_resolved_and_dropped `{SliceSort} tok d fuel s m :
  New tok = Ok d → Dissect fuel d s = Ok m →
  (∀ f, f ∈ fields (dparser d) → isIndirectField f = true →
     ∃ r, r ∈ referenceFields (dparser d) ∧ Key r = Key f) ∧
  (∀ r, r ∈ fields (dparser d) → IsSaveable r = false → m !! Key r = None).
Proof.
  intros (p & Hp & Hv)%res_bind_Ok Hrun. apply res_bind_Ok in Hv as ([] & Hv & [= <-]).
  simpl in *. split; [intros f; by apply validate_Ok|].
  apply newParser_Ok_inv in Hp as (? & ? & ? & ? & _ & _ & _ & _ & _ & _ & Href).
  intros r Hr Hs. unfold Dissect in Hrun. destruct (String.eqb s ""); [done|].
  apply res_bind_Ok in Hrun as (ps & _ & Hrun). simpl in Hrun.
  case_bool_decide; [done|]. unfold resolve in Hrun.
  apply res_bind_Ok in Hrun as (m0 & _ & [= <-]).
  apply foldl_delete_lookup. left. apply list_elem_of_fmap_2. rewrite Href.
  unfold filterFieldsWith. apply list_elem_of_filter. by rewrite Hs.
Qed.

Lemma references_resolved_and_dropped_witness :
  Dissect 9 (mkDissector "%{?k} %{&k}" (parser_of "%{?k} %{&k}") None) "hello world"
    = Ok {[ "hello" := "world" ]} ∧
  ∀ r, r ∈ fields (parser_of "%{?k} %{&k}") → IsSaveable r = false →
    ({[ "hello" := "world" ]} : gmap string string) !! Key r = None.
Proof.
  split; [vm_compute; reflexivity|].
  refine (proj2 (references_resolved_and_dropped "%{?k} %{&k}"
    (mkDissector "%{?k} %{&k}" (parser_of "%{?k} %{&k}") None) 9 "hello world"
    {[ "hello" := "world" ]} _ _)); vm_compute; reflexivity.
Defined.

(** ** Package [dissect]: a message made from a tokenizer is taken apart again

    DissectFacts.v shows what a successful extraction means; here is when it
    succeeds: a text spelled with the delimiters of a tokenizer around given
    values, none of which holds the delimiter that follows it, is dissected into
    these values. *)
Open Scope string_scope.
Open Scope list_scope.
Open Scope Z_scope.

(** The values [ks], each followed by its delimiter, and the rest. *)
Fixpoint compose (ks : list string) (nexts : list delimiter) (rest : string) : string :=
  match ks, nexts with
  | k :: ks, n :: nexts => k +:+ Delimiter n +:+ compose ks nexts rest
  | _, _ => rest
  end.

(** The first delimiter found after the start of a value is the one that ends it. *)
Fixpoint unambiguous (ks : list string) (nexts : list delimiter) (rest : string) : Prop :=
  match ks, nexts with
  | k :: ks', n :: nexts' =>
      index_nat (compose ks nexts rest) (Delimiter n) = Some (String.length k) ∧ unambiguous ks' nexts' rest
  | _, _ => True
  end.

(** Plain keys only: no modifiers, no greedy or fixed-length keys, names that differ. *)
Definition plain_parser (p : parser) : Prop :=
  Forall (λ f, is_normal f ∧ IsGreedy f = false ∧ IsFixedLength f = false) (fields p) ∧
  NoDup (Key <$> fields p) ∧ referenceFields p = [].

(** Where the values are. *)
Fixpoint spans (o : Z) (ks : list string) (nexts : list delimiter) : list position :=
  match ks, nexts with
  | k :: ks, n :: nexts => mkPos o (o + strlen k) :: spans (o + strlen k + Len n) ks nexts
  | _, _ => []
  end.

Lemma index_nat_prefix s sub : HasPrefix s sub = true → index_nat s sub = Some 0%nat.
Proof. intros Hp. destruct s; simpl in *; by rewrite Hp. Qed.

Lemma IndexOf_at n pre s k :
  wf_delim n → index_nat s (Delimiter n) = Some k → IndexOf n (pre +:+ s) (strlen pre) = Ok (strlen pre + Z.of_nat k).
Proof.
  intros Hwf Hk. pose proof (strlen_nonneg pre) as Hpre. destruct n as [n g|n g]; simpl in *.
  - subst n. assert (k = 0%nat) as -> by (destruct s; simpl in Hk; by injection Hk). f_equal. lia.
  - rewrite slice_Ok; [|lia|rewrite strlen_app; pose proof (strlen_nonneg s); lia|lia]. cbn [mbind res_bind].
    rewrite stake_all by (rewrite length_sdrop, length_sapp; unfold strlen; rewrite ?length_sapp; lia).
    assert (sdrop (Z.to_nat (strlen pre)) (pre +:+ s) = s) as ->.
    { unfold strlen. rewrite Nat2Z.id. apply sdrop_length_app. }
    unfold Index. rewrite Hk. destruct (Z.eqb_spec (Z.of_nat k) (-1)); [lia|]. simpl. f_equal. lia.
Qed.

(** The loop of the extraction on such a message. *)
Lemma extract_loop_compose fuel p ks : ∀ nexts rest pre dl i ps,
  parser_ok p → no_fixed_length p → Forall wf_delim nexts → length ks = length nexts →
  (∀ j d, (dl :: nexts) !! j = Some d → (j < length nexts)%nat → delim_IsGreedy d = false) →
  (i + length nexts ≤ length ps)%nat → unambiguous ks nexts rest →
  extract_loop fuel p (pre +:+ compose ks nexts rest) dl nexts i (strlen pre) ps =
    Ok ((i + length nexts)%nat, strlen pre + strlen (compose ks nexts ""),
        take i ps ++ spans (strlen pre) ks nexts ++ drop (i + length nexts) ps).
Proof.
  induction ks as [|k ks IH]; intros [|n nexts] rest pre dl i ps Hp Hnf Hwf Hlen Hng Hi Hun; try done.
  { simpl. rewrite Nat.add_0_r, take_drop. do 2 f_equal. f_equal. unfold strlen. simpl. lia. }
  apply Forall_cons in Hwf as [Hwn Hwf]. destruct Hun as [Hk Hun]. simpl in Hlen, Hi.
  cbn [extract_loop]. destruct (field_at_Ok p i Hp) as [f Hf]. rewrite Hf. cbn [mbind res_bind].
  unfold field_end. rewrite (field_at_not_fixed _ _ _ Hnf Hf), (IndexOf_at n pre _ _ Hwn Hk). cbn [mbind res_bind].
  pose proof (strlen_nonneg pre). fold (strlen k). destruct (Z.eqb_spec (strlen pre + strlen k) (-1)) as [He|_].
  { pose proof (strlen_nonneg k). lia. }
  cbn [mbind res_bind]. rewrite (Hng 0%nat dl eq_refl) by (simpl; lia). cbn [mbind res_bind].
  unfold set_position. rewrite bool_decide_eq_true_2 by lia. cbn [mbind res_bind].
  assert (Hpre : strlen pre + strlen k + Len n = strlen (pre +:+ k +:+ Delimiter n)).
  { rewrite !strlen_app, (Len_Delimiter n Hwn). lia. }
  rewrite Hpre. assert (Hs : pre +:+ compose (k :: ks) (n :: nexts) rest = (pre +:+ k +:+ Delimiter n) +:+ compose ks nexts rest).
  { cbn [compose]. by rewrite !sapp_assoc. }
  rewrite Hs, IH; [|done|done|done|lia| |rewrite length_insert; lia|done].
  - f_equal. f_equal; [f_equal; [simpl; lia|]|].
    + cbn [compose]. rewrite !strlen_app. lia.
    + cbn [spans]. rewrite Hpre, (take_S_r _ i (mkPos (strlen pre) (strlen pre + strlen k))) by (apply list_lookup_insert_eq; lia).
      rewrite take_insert_ge by lia. rewrite drop_insert_lt by lia. rewrite <- app_assoc. simpl. by rewrite Nat.add_succ_r.
  - intros j d Hj Hlt. apply (Hng (S j) d); [done|simpl; lia].
Qed.

Lemma text_between a b c : text (a +:+ b +:+ c) (mkPos (strlen a) (strlen a + strlen b)) = b.
Proof.
  unfold text, sub, strlen. simpl. rewrite Nat2Z.id, sdrop_length_app.
  replace (Z.to_nat _) with (String.length b) by lia. apply stake_length_app.
Qed.

Lemma spans_texts ks : ∀ nexts rest pre, Forall wf_delim nexts → length ks = length nexts →
  Forall2 (λ q k, good_position (pre +:+ compose ks nexts rest) q ∧ text (pre +:+ compose ks nexts rest) q = k)
    (spans (strlen pre) ks nexts) ks.
Proof.
  induction ks as [|k ks IH]; intros [|n nexts] rest pre Hwf Hlen; try done.
  apply Forall_cons in Hwf as [Hwn Hwf]. cbn [spans compose]. constructor.
  - split; [|apply text_between]. unfold good_position. simpl. rewrite !strlen_app.
    pose proof (strlen_nonneg pre). pose proof (strlen_nonneg k). pose proof (strlen_nonneg (Delimiter n)).
    pose proof (strlen_nonneg (compose ks nexts rest)). lia.
  - replace (strlen pre + strlen k + Len n) with (strlen (pre +:+ k +:+ Delimiter n))
      by (rewrite !strlen_app, (Len_Delimiter n Hwn); lia).
    replace (pre +:+ k +:+ Delimiter n +:+ compose ks nexts rest) with ((pre +:+ k +:+ Delimiter n) +:+ compose ks nexts rest)
      by by rewrite !sapp_assoc.
    apply IH; [done|by injection Hlen].
Qed.

Lemma compose_rest ks : ∀ nexts rest, length ks = length nexts → compose ks nexts rest = compose ks nexts "" +:+ rest.
Proof.
  induction ks as [|k ks IH]; intros [|n nexts] rest Hlen; try done. cbn [compose].
  rewrite (IH nexts rest) by by injection Hlen. by rewrite !sapp_assoc.
Qed.

Lemma plain_not_fixed p : plain_parser p → no_fixed_length p.
Proof. intros [Hf _] f Hin. rewrite Forall_forall in Hf. by destruct (Hf f Hin) as (_ & _ & ?). Qed.

Lemma rest_offset d0 ks nexts rest : length ks = length nexts →
  let s := Delimiter d0 +:+ compose ks nexts rest in
  let o := strlen (Delimiter d0) + strlen (compose ks nexts "") in
  0 ≤ o ≤ strlen s ∧ sdrop (Z.to_nat o) s = rest.
Proof.
  intros Hlen s o. pose proof (strlen_nonneg (Delimiter d0)). pose proof (strlen_nonneg (compose ks nexts "")).
  pose proof (strlen_nonneg rest). unfold s, o. rewrite (compose_rest ks nexts rest Hlen). rewrite !strlen_app.
  split; [lia|]. rewrite <- sapp_assoc, <- strlen_app. unfold strlen. rewrite Nat2Z.id. apply sdrop_length_app.
Qed.

Lemma plain_not_greedy p d0 nexts j d :
  parser_ok p → plain_parser p → delimiters p = d0 :: nexts → (length nexts ≤ length (fields p))%nat →
  (d0 :: nexts) !! j = Some d → (j < length nexts)%nat → delim_IsGreedy d = false.
Proof.
  intros Hp [Hf _] Hd Hle Hj Hlt. destruct (ok_ids p Hp j) as (x & f & _ & Hx & Hid); [lia|].
  apply list_elem_of_lookup_2 in Hx as Hin. rewrite (ok_greedy p Hp j f d Hin Hid) by by rewrite Hd.
  rewrite Forall_forall in Hf. by destruct (Hf f Hin) as (_ & ? & _).
Qed.

(** A key without a delimiter after it gets the rest. *)
Lemma last_position_Ok s o sp :
  0 ≤ o ≤ strlen s →
  ∃ q, (if o <? strlen s then set_position (sp ++ [mkPos 0 0]) (length sp) (mkPos o (strlen s))
        else Ok (sp ++ [mkPos 0 0])) = Ok (sp ++ [q]) ∧ good_position s q ∧ text s q = sdrop (Z.to_nat o) s.
Proof.
  intros Ho. destruct (if o <? strlen s then set_position (sp ++ [mkPos 0 0]) (length sp) (mkPos o (strlen s))
    else Ok (sp ++ [mkPos 0 0])) as [ps| | |] eqn:Hlast.
  { destruct (last_position s o sp ps Ho Hlast) as (q & -> & ?). eauto. }
  all: exfalso; unfold set_position in Hlast; rewrite bool_decide_true in Hlast by (rewrite length_app; simpl; lia);
    by destruct (o <? strlen s).
Qed.

(** The extraction finds the values. *)
Lemma extract_compose fuel p d0 nexts ks rest :
  parser_ok p → plain_parser p → delimiters p = d0 :: nexts → length ks = length nexts → unambiguous ks nexts rest →
  let s := Delimiter d0 +:+ compose ks nexts rest in
  ∃ ps, extract fuel p s = Ok ps ∧ length ps = length (fields p) ∧ Forall (good_position s) ps ∧
    ∀ i q, ps !! i = Some q → Some (text s q) = (ks ++ [rest]) !! i.
Proof.
  intros Hp Hpl Hd Hlen Hun s. pose proof (ok_delims p Hp) as Hwf. rewrite Hd in Hwf.
  apply Forall_cons in Hwf as [Hw0 Hwf]. pose proof (ok_count p Hp) as [Hpos Hcount]. rewrite Hd in Hcount. simpl in Hcount.
  set (n := length (fields p)) in *. pose proof (plain_not_fixed p Hpl) as Hnf.
  assert (H0 : IndexOf d0 s 0 = Ok 0).
  { pose proof (IndexOf_at d0 "" s 0 Hw0) as Hi. simpl in Hi. apply Hi, index_nat_prefix, HasPrefix_app. }
  assert (Hng : ∀ j d, (d0 :: nexts) !! j = Some d → (j < length nexts)%nat → delim_IsGreedy d = false).
  { intros j d. apply plain_not_greedy with (p := p); [done..|]. fold n. lia. }
  pose proof (extract_loop_compose fuel p ks nexts rest (Delimiter d0) d0 0 (replicate n (mkPos 0 0))
    Hp Hnf Hwf Hlen Hng ltac:(rewrite length_replicate; lia) Hun) as Hloop.
  pose proof (spans_texts ks nexts rest (Delimiter d0) Hwf Hlen) as Hsp. fold s in Hloop, Hsp.
  set (sp := spans (strlen (Delimiter d0)) ks nexts) in *. pose proof (Forall2_length _ _ _ Hsp) as Hln.
  assert (Hgood : Forall (good_position s) sp).
  { apply Forall_lookup. intros i q Hq. by destruct (Forall2_lookup_l _ _ _ i q Hsp Hq) as (? & _ & ? & _). }
  assert (Htext : ∀ i q, sp !! i = Some q → Some (text s q) = (ks ++ [rest]) !! i).
  { intros i q Hq. destruct (Forall2_lookup_l _ _ _ i q Hsp Hq) as (k & Hk & _ & <-). by rewrite (lookup_app_l_Some _ _ _ _ Hk). }
  unfold extract. rewrite Hd, H0. cbn [mbind res_bind]. change ((0 =? -1) || negb (0 =? 0)) with false. cbv iota.
  rewrite Z.add_0_l, (Len_Delimiter d0 Hw0). fold n. rewrite Hloop, take_0. cbn [mbind res_bind app Nat.add].
  destruct (field_at_Ok p (length nexts) Hp) as [f Hf]. rewrite Hf. cbn [mbind res_bind].
  rewrite (field_at_not_fixed _ _ _ Hnf Hf). cbn [andb]. rewrite drop_replicate.
  destruct (rest_offset d0 ks nexts rest Hlen) as [Ho Hrest]. fold s in Ho, Hrest. destruct Hcount as [Hc|Hc].
  - replace (n - length nexts)%nat with 1%nat by lia. rewrite bool_decide_true, andb_true_r by lia. cbn [replicate].
    rewrite <- Hlen, <- Hln. destruct (last_position_Ok s _ sp Ho) as (q & Hq & Hgq & Htq). rewrite Hq.
    exists (sp ++ [q]). conjs; [done|rewrite length_app; simpl; lia|apply Forall_app; eauto|].
    intros i q' [Hi|[Hge Hi]]%lookup_app_Some; [by apply Htext|]. rewrite lookup_app_r, <- Hln by lia.
    destruct (i - length sp)%nat; [|done]. injection Hi as <-. by rewrite Htq, Hrest.
  - rewrite bool_decide_false, andb_false_r by lia. replace (n - length nexts)%nat with 0%nat by lia. cbn [replicate].
    rewrite app_nil_r. exists sp. conjs; [done|lia|done|done].
Qed.

Lemma Dissect_composed `{SliceSort} (tokenizer : string) (d : Dissector) (d0 : delimiter) (nexts : list delimiter)
    (ks : list string) (rest : string) (fuel : nat) :
  New tokenizer = Ok d → plain_parser (dparser d) → delimiters (dparser d) = d0 :: nexts →
  length ks = length nexts → unambiguous ks nexts rest →
  Delimiter d0 +:+ compose ks nexts rest ≠ "" →
  ∃ m, Dissect fuel d (Delimiter d0 +:+ compose ks nexts rest) = Ok m ∧
    (∀ f, f ∈ fields (dparser d) → m !! Key f = (ks ++ [rest]) !! ID f) ∧
    (∀ k, k ∉ Key <$> fields (dparser d) → m !! k = None).
Proof.
  intros Hnew Hpl Hd Hlen Hun Hne. unfold New in Hnew. apply res_bind_Ok in Hnew as (p & Hparse & Hnew).
  apply res_bind_Ok in Hnew as ([] & _ & Hnew). injection Hnew as <-. simpl in *.
  pose proof (newParser_parser_ok _ _ Hparse) as Hp. set (s := Delimiter d0 +:+ compose ks nexts rest) in *.
  destruct (extract_compose fuel p d0 nexts ks rest Hp Hpl Hd Hlen Hun) as (ps & Hrun & Hln & Hgood & Htext).
  destruct Hpl as (Hf & Hnd & Href).
  destruct (resolve_normal_fields p s ps Hp) as (m & Hres & Hin & Hout); [|done..|].
  { eapply Forall_impl; [exact Hf|]. by intros f (? & _ & _). }
  exists m. conjs; [|intros f Hfin|exact Hout].
  - unfold Dissect. apply String.eqb_neq in Hne. rewrite Hne. cbn [dparser]. fold s in Hrun. rewrite Hrun. cbn [mbind res_bind].
    rewrite bool_decide_false; [exact Hres|]. intros ->. pose proof (ok_count p Hp). simpl in Hln. lia.
  - destruct (lookup_lt_is_Some_2 ps (ID f)) as [q Hq]; [rewrite Hln; by apply (ok_id_range p Hp)|].
    rewrite (Hin f q Hfin Hq). by apply Htext.
Qed.

(** C17: A message spelled with the delimiters of a tokenizer of plain keys, around
    values such that the first occurrence of a delimiter from the start of a value on
    is the one after it, is dissected into exactly these values under the names of
    the keys, and no other key is present. *)
Theorem Dissect_roundtrip `{SliceSort} (tokenizer : string) (d : Dissector) (d0 : delimiter) (nexts : list delimiter)
    (ks : list string) (rest : string) (fuel : nat) :
  New tokenizer = Ok d → plain_parser (dparser d) → delimiters (dparser d) = d0 :: nexts →
  length ks = length nexts → unambiguous ks nexts rest →
  Delimiter d0 +:+ compose ks nexts rest ≠ "" →
  ∃ m, Dissect fuel d (Delimiter d0 +:+ compose ks nexts rest) = Ok m ∧
    (∀ f, f ∈ fields (dparser d) → m !! Key f = (ks ++ [rest]) !! ID f) ∧
    (∀ k, k ∉ Key <$> fields (dparser d) → m !! k = None).
Proof. apply Dissect_composed. Qed.

(** *** One-byte delimiters *)
Lemma index_nat_lacks c k rest : lacks c k = true → index_nat (k +:+ String c rest) (String c "") = Some (String.length k).
Proof.
  induction k as [|a k IH]; intros Hl.
  - apply index_nat_prefix. change (Ascii.eqb c c && HasPrefix rest "" = true). by rewrite Ascii.eqb_refl, HasPrefix_nil.
  - apply andb_true_iff in Hl as [Ha%negb_true_iff Hl]. change (String a k +:+ ?x) with (String a (k +:+ x)).
    cbn [index_nat HasPrefix]. rewrite Ha. cbn [andb]. by rewrite IH.
Qed.

(** *** A tokenizer of a log line *)
Lemma Dissect_roundtrip_witness :
  ∃ m, Dissect 0 (mkDissector "[%{level}] %{logger}: %{msg}" (parser_of "[%{level}] %{logger}: %{msg}") None)
         "[warn] db.pool: slow: 12 ms" = Ok m ∧
    m !! "level" = Some "warn" ∧ m !! "logger" = Some "db.pool" ∧ m !! "msg" = Some "slow: 12 ms".
Proof.
  destruct (Dissect_roundtrip "[%{level}] %{logger}: %{msg}"
    (mkDissector "[%{level}] %{logger}: %{msg}" (parser_of "[%{level}] %{logger}: %{msg}") None)
    (multiByte "[" false) [multiByte "] " false; multiByte ": " false] ["warn"; "db.pool"] "slow: 12 ms" 0)
    as (m & Hm & Hin & _).
  - vm_compute. reflexivity.
  - split; [|split].
    + vm_compute. repeat constructor.
    + apply (bool_decide_unpack _). vm_compute. exact I.
    + vm_compute. reflexivity.
  - vm_compute. reflexivity.
  - reflexivity.
  - vm_compute. repeat constructor.
  - discriminate.
  - exists m. split; [exact Hm|].
    split; [|split].
    + apply (Hin (normalField (mkBase 0 "level" 0 0 false ""))). vm_compute. by left.
    + apply (Hin (normalField (mkBase 1 "logger" 0 0 false ""))). vm_compute. by right; left.
    + apply (Hin (normalField (mkBase 2 "msg" 0 0 false ""))). vm_compute. by right; right; left.
Defined.
