(* ===== verification/GoTime.v ===== *)
(** * Package [time], as far as the modelled code uses it

    An instant with the offset of its location from UTC, the proleptic
    Gregorian calendar, ISO weeks, and formatting and parsing of the layout
    ["20060102"].  The nanoseconds of an instant are read by no modelled code
    and are left out. *)
From S2P Require Import Prelude GoStrings.

Open Scope string_scope.
Open Scope Z_scope.

Ltac divlia := Z.div_mod_to_equations; lia.

(** [unix]: seconds since 1970-01-01T00:00:00Z; [offset]: seconds east of UTC in
    force at that instant in the location of the value. *)
Record Time := mkTime { unix : Z; offset : Z }.

#[global] Instance Time_eq_dec : EqDecision Time.
Proof. solve_decision. Defined.

(** The wall clock reading, as seconds of a calendar without zones. *)
Definition wall (t : Time) : Z := unix t + offset t.

(** Days since 1970-01-01 on the wall calendar. *)
Definition day_number (t : Time) : Z := wall t / 86400.

(** ** Calendar *)

(** Years are counted from March inside 400-year eras of 146097 days. *)
Definition year_of_era (doe : Z) : Z := (doe - doe / 1460 + doe / 36524 - doe / 146096) / 365.
Definition year_start (y : Z) : Z := 365 * y + y / 4 - y / 100.
Definition month_start (mp : Z) : Z := (153 * mp + 2) / 5.

Definition civil_from_days (z : Z) : Z * Z * Z :=
  let era := (z + 719468) / 146097 in
  let doe := (z + 719468) mod 146097 in
  let yoe := year_of_era doe in
  let doy := doe - year_start yoe in
  let mp := (5 * doy + 2) / 153 in
  let m := if mp <? 10 then mp + 3 else mp - 9 in
  (yoe + era * 400 + (if m <=? 2 then 1 else 0), m, doy - month_start mp + 1).

Definition days_from_civil (y m d : Z) : Z :=
  let y' := if m <=? 2 then y - 1 else y in
  let mp := if 2 <? m then m - 3 else m + 9 in
  y' / 400 * 146097 + (year_start (y' mod 400) + month_start mp + d - 1) - 719468.

Definition isLeap (y : Z) : bool :=
  (y mod 4 =? 0) && (negb (y mod 100 =? 0) || (y mod 400 =? 0)).

Definition daysIn (m y : Z) : Z :=
  if m =? 2 then (if isLeap y then 29 else 28)
  else if (m =? 4) || (m =? 6) || (m =? 9) || (m =? 11) then 30 else 31.

(** The methods of [time.Time]. *)
Definition Year (t : Time) : Z := (civil_from_days (day_number t)).1.1.
Definition Month (t : Time) : Z := (civil_from_days (day_number t)).1.2.
Definition Day (t : Time) : Z := (civil_from_days (day_number t)).2.
Definition Hour (t : Time) : Z := wall t mod 86400 / 3600.
Definition Minute (t : Time) : Z := wall t mod 3600 / 60.
Definition Second (t : Time) : Z := wall t mod 60.
Definition Unix (t : Time) : Z := unix t.

(** [t.ISOWeek()]: the year of the Thursday of the week (which starts on
    Monday), and the number of whole weeks before it in that year, plus one.
    Day 0 of the calendar is a Thursday. *)
Definition thursday (day : Z) : Z := day - (day + 3) mod 7 + 3.
Definition ISOWeek (t : Time) : Z * Z :=
  let th := thursday (day_number t) in
  let y := (civil_from_days th).1.1 in
  (y, (th - days_from_civil y 1 1) / 7 + 1).

(** ** The calendar is a bijection *)
Lemma year_of_era_spec doe :
  0 ≤ doe < 146097 →
  0 ≤ year_of_era doe < 400 ∧ year_start (year_of_era doe) ≤ doe ∧
  doe - year_start (year_of_era doe) <
    (if (year_of_era doe + 1) mod 4 =? 0
     then if ((year_of_era doe + 1) mod 100 =? 0) && negb ((year_of_era doe + 1) mod 400 =? 0)
          then 365 else 366 else 365).
Proof.
  unfold year_of_era, year_start. intros Hd. split_and!; [divlia..|].
  repeat case_match; divlia.
Qed.

Lemma month_spec doy :
  0 ≤ doy < 366 →
  let mp := (5 * doy + 2) / 153 in
  0 ≤ mp ≤ 11 ∧ month_start mp ≤ doy ∧ doy < month_start (mp + 1).
Proof. unfold month_start. intros Hd. simpl. split_and!; divlia. Qed.

Lemma daysIn_month y mp :
  0 ≤ mp ≤ 10 →
  daysIn (if mp <? 10 then mp + 3 else mp - 9) y = month_start (mp + 1) - month_start mp.
Proof.
  intros Hm.
  assert (Hcases : mp = 0 ∨ mp = 1 ∨ mp = 2 ∨ mp = 3 ∨ mp = 4 ∨ mp = 5 ∨ mp = 6 ∨
    mp = 7 ∨ mp = 8 ∨ mp = 9 ∨ mp = 10) by lia.
  by destruct Hcases as [->|[->|[->|[->|[->|[->|[->|[->|[->|[->| ->]]]]]]]]]].
Qed.

Lemma isLeap_era yoe era :
  0 ≤ yoe < 400 →
  isLeap (yoe + era * 400 + 1) =
  ((yoe + 1) mod 4 =? 0) && negb (((yoe + 1) mod 100 =? 0) && negb ((yoe + 1) mod 400 =? 0)).
Proof.
  intros Hy. unfold isLeap.
  replace ((yoe + era * 400 + 1) mod 4) with ((yoe + 1) mod 4) by divlia.
  replace ((yoe + era * 400 + 1) mod 100) with ((yoe + 1) mod 100) by divlia.
  replace ((yoe + era * 400 + 1) mod 400) with ((yoe + 1) mod 400) by divlia.
  destruct (_ mod 4 =? 0), (_ mod 100 =? 0), (_ mod 400 =? 0); done.
Qed.

Lemma civil_range z y m d :
  civil_from_days z = (y, m, d) → 1 ≤ m ≤ 12 ∧ 1 ≤ d ≤ daysIn m y.
Proof.
  unfold civil_from_days. intros [= <- <- <-].
  set (doe := (z + 719468) mod 146097).
  assert (Hdoe : 0 ≤ doe < 146097) by (apply Z.mod_pos_bound; lia).
  destruct (year_of_era_spec doe Hdoe) as (Hy & Hs & Hl).
  set (yoe := year_of_era doe) in *. set (doy := doe - year_start yoe) in *.
  assert (Hdoy : 0 ≤ doy < 366) by (repeat case_match; lia).
  destruct (month_spec doy Hdoy) as (Hm & Hms & Hme).
  set (mp := (5 * doy + 2) / 153) in *.
  destruct (decide (mp = 11)) as [E|E].
  - rewrite E in *. change (11 <? 10) with false. change (11 - 9) with 2. cbn [negb].
    change (2 <=? 2) with true. cbv iota. unfold daysIn. change (2 =? 2) with true. cbv iota.
    rewrite isLeap_era by lia. change (month_start 11) with 337 in *.
    destruct (_ mod 4 =? 0), (_ && _); simpl; lia.
  - rewrite daysIn_month by lia. destruct (Z.ltb_spec mp 10); lia.
Qed.

Lemma days_from_civil_from_days z :
  let '(y, m, d) := civil_from_days z in days_from_civil y m d = z.
Proof.
  unfold civil_from_days, days_from_civil.
  set (doe := (z + 719468) mod 146097).
  assert (Hdoe : 0 ≤ doe < 146097) by (apply Z.mod_pos_bound; lia).
  destruct (year_of_era_spec doe Hdoe) as (Hy & Hs & Hl).
  set (yoe := year_of_era doe) in *. set (doy := doe - year_start yoe) in *.
  assert (Hdoy : 0 ≤ doy < 366) by (repeat case_match; lia).
  destruct (month_spec doy Hdoy) as (Hm & _ & _).
  set (mp := (5 * doy + 2) / 153) in *.
  set (era := (z + 719468) / 146097).
  assert (Hz : z + 719468 = 146097 * era + doe) by apply Z.div_mod, (Z.neq_sym), Z.lt_neq, eq_refl.
  assert (Hmod : (yoe + era * 400) mod 400 = yoe) by (rewrite Z.mod_add by lia; apply Z.mod_small; lia).
  assert (Hdiv : (yoe + era * 400) / 400 = era) by (rewrite Z.div_add by lia; rewrite Z.div_small; lia).
  destruct (Z.ltb_spec mp 10).
  - destruct (Z.leb_spec (mp + 3) 2); [lia|]. destruct (Z.ltb_spec 2 (mp + 3)); [|lia].
    rewrite Z.add_0_r, Hmod, Hdiv. replace (mp + 3 - 3) with mp by lia. lia.
  - destruct (Z.leb_spec (mp - 9) 2); [|lia]. destruct (Z.ltb_spec 2 (mp - 9)); [lia|].
    replace (yoe + era * 400 + 1 - 1) with (yoe + era * 400) by lia.
    rewrite Hmod, Hdiv. replace (mp - 9 + 9) with mp by lia. lia.
Qed.

Lemma civil_from_days_inj a b : civil_from_days a = civil_from_days b → a = b.
Proof.
  intros H. pose proof (days_from_civil_from_days a) as Ha.
  pose proof (days_from_civil_from_days b) as Hb. rewrite H in Ha.
  destruct (civil_from_days b) as [[y m] d]. congruence.
Qed.

Lemma days_from_Date t : days_from_civil (Year t) (Month t) (Day t) = day_number t.
Proof.
  unfold Year, Month, Day. pose proof (days_from_civil_from_days (day_number t)) as H.
  by destruct (civil_from_days (day_number t)) as [[??] ?].
Qed.

(** ** Order on instants *)
Definition Equal (t u : Time) : bool := unix t =? unix u.
Definition After (t u : Time) : bool := unix u <? unix t.

(** The zero value of [time.Time]: 0001-01-01T00:00:00Z. *)
Definition zeroTime : Time := mkTime (-62135596800) 0.

(** ** The layout ["20060102"] *)
Fixpoint zeros (n : nat) : string :=
  match n with O => "" | S n' => String "0" (zeros n') end.

(** [appendInt(nil, x, width)] *)
Definition appendInt (x : Z) (width : nat) : string :=
  let digits := Itoa (Z.abs x) in
  (if x <? 0 then "-" else "") +:+ zeros (width - String.length digits) +:+ digits.

Definition Format (t : Time) : string :=
  appendInt (Year t) 4 +:+ appendInt (Month t) 2 +:+ appendInt (Day t) 2.

(** [time.Parse("20060102", value)]: four digits, two digits, two digits and
    nothing else, naming a day that exists; [None] is an error. *)
Definition Parse (value : string) : option Time :=
  if bool_decide (String.length value = 8%nat) then
    y ← parse_digits 0 (stake 4 value);
    m ← parse_digits 0 (stake 2 (sdrop 4 value));
    d ← parse_digits 0 (sdrop 6 value);
    if (1 <=? m) && (m <=? 12) && (1 <=? d) && (d <=? daysIn m y)
    then Some (mkTime (86400 * days_from_civil y m d) 0)
    else None
  else None.

Lemma length_zeros n : String.length (zeros n) = n.
Proof. induction n; simpl; congruence. Qed.

Lemma parse_digits_zeros n s : parse_digits 0 (zeros n +:+ s) = parse_digits 0 s.
Proof. induction n; simpl; [done|]. done. Qed.

Lemma length_dec_digits fuel n k :
  0 ≤ n < 10 ^ Z.of_nat k → (0 < k)%nat → (String.length (dec_digits fuel n) ≤ k)%nat.
Proof.
  revert n k. induction fuel as [|f IH]; intros n k Hn Hk; [simpl; lia|].
  rewrite dec_digits_S. destruct (Z.ltb_spec n 10); simpl; [lia|]. rewrite length_sapp. simpl.
  destruct k as [|k]; [lia|]. destruct (decide (k = 0%nat)) as [->|].
  { change (10 ^ Z.of_nat 1) with 10 in Hn. lia. }
  rewrite Nat2Z.inj_succ, Z.pow_succ_r in Hn by lia.
  assert (Hd : 0 ≤ n / 10 < 10 ^ Z.of_nat k).
  { split; [apply Z.div_pos; lia|]. apply Z.div_lt_upper_bound; lia. }
  specialize (IH _ k Hd). lia.
Qed.

Lemma appendInt_spec x k :
  0 ≤ x < 10 ^ Z.of_nat k → (0 < k)%nat → x < 10 ^ 18 →
  String.length (appendInt x k) = k ∧ parse_digits 0 (appendInt x k) = Some x.
Proof.
  intros Hx Hk Hb. unfold appendInt. destruct (Z.ltb_spec x 0); [lia|]. simpl.
  rewrite Z.abs_eq by lia. unfold Itoa. destruct (Z.ltb_spec x 0); [lia|].
  rewrite length_sapp, length_zeros.
  pose proof (length_dec_digits 20 x k Hx Hk). split; [lia|].
  rewrite parse_digits_zeros. apply parse_digits_dec.
  split; [lia|]. change (10 ^ Z.of_nat 20) with (10 ^ 18 * 100). lia.
Qed.

Lemma Month_Day_range t : 1 ≤ Month t ≤ 12 ∧ 1 ≤ Day t ≤ daysIn (Month t) (Year t).
Proof.
  unfold Month, Day, Year. destruct (civil_from_days (day_number t)) as [[y m] d] eqn:E.
  simpl. by apply civil_range in E.
Qed.

Lemma daysIn_le m y : daysIn m y ≤ 31.
Proof. unfold daysIn. repeat case_match; lia. Qed.

Lemma length_Format t : 0 ≤ Year t ≤ 9999 → String.length (Format t) = 8%nat.
Proof.
  intros Hy. destruct (Month_Day_range t) as [Hm Hd]. pose proof (daysIn_le (Month t) (Year t)).
  unfold Format. rewrite !length_sapp.
  destruct (appendInt_spec (Year t) 4) as [-> _]; [simpl; lia|lia|lia|].
  destruct (appendInt_spec (Month t) 2) as [-> _]; [simpl; lia|lia|lia|].
  destruct (appendInt_spec (Day t) 2) as [-> _]; [simpl; lia|lia|lia|]. done.
Qed.

Lemma Parse_Format t :
  0 ≤ Year t ≤ 9999 → Parse (Format t) = Some (mkTime (86400 * day_number t) 0).
Proof.
  intros Hy. destruct (Month_Day_range t) as [Hm Hd]. pose proof (daysIn_le (Month t) (Year t)).
  unfold Parse. rewrite bool_decide_true by by apply length_Format.
  unfold Format.
  destruct (appendInt_spec (Year t) 4) as [Ly Py]; [simpl; lia|lia|lia|].
  destruct (appendInt_spec (Month t) 2) as [Lm Pm]; [simpl; lia|lia|lia|].
  destruct (appendInt_spec (Day t) 2) as [Ld Pd]; [simpl; lia|lia|lia|].
  pose proof (sdrop_length_app (appendInt (Year t) 4)) as Dy. rewrite Ly in Dy.
  pose proof (sdrop_length_app (appendInt (Month t) 2)) as Dm. rewrite Lm in Dm.
  pose proof (stake_length_app (appendInt (Year t) 4)) as Ty. rewrite Ly in Ty.
  pose proof (stake_length_app (appendInt (Month t) 2)) as Tm. rewrite Lm in Tm.
  change 6%nat with (4 + 2)%nat. rewrite <- sdrop_sdrop, Dy, Ty, Dm, Tm, Py, Pm, Pd. simpl.
  rewrite days_from_Date.
  repeat (rewrite (proj2 (Z.leb_le _ _)); [|lia]). done.
Qed.
