(* ===== verification/GoDate.v ===== *)
(** * Package [time]: the layout ["2006-01-02T15:04:05.000Z"]

    Instants with nanoseconds, and the texts [Format] writes and [Parse] reads
    for the layout two packages use for timestamps.  The [Z] of the layout is a
    literal: a value is shown in its own zone, and a text is read as UTC. *)
From S2P Require Import Prelude GoStrings GoTime.

Open Scope string_scope.
Open Scope Z_scope.

(** Seconds since 1970-01-01T00:00:00Z, nanoseconds of the second, and the
    seconds east of UTC of the zone the value is shown in. *)
Record Instant := mkInstant { i_unix : Z; i_nsec : Z; i_offset : Z }.

#[global] Instance Instant_eq_dec : EqDecision Instant.
Proof. solve_decision. Defined.

Definition zeroInstant : Instant := mkInstant (-62135596800) 0 0.
Definition IsZero (i : Instant) : bool := (i_unix i =? -62135596800) && (i_nsec i =? 0).
Definition to_UTC (i : Instant) : Instant := mkInstant (i_unix i) (i_nsec i) 0.

Definition clock (i : Instant) : Time := mkTime (i_unix i) (i_offset i).

(** [t.Format(TSLayout)]: the fraction is cut, not rounded. *)
Definition Format_ms (i : Instant) : string :=
  let t := clock i in
  appendInt (Year t) 4 +:+ "-" +:+ appendInt (Month t) 2 +:+ "-" +:+ appendInt (Day t) 2 +:+ "T" +:+
  appendInt (Hour t) 2 +:+ ":" +:+ appendInt (Minute t) 2 +:+ ":" +:+ appendInt (Second t) 2 +:+ "." +:+
  appendInt (i_nsec i / 1000000) 3 +:+ "Z".

(** ** Reading *)

(** [getnum]: one or two digits; two when [fixed]. *)
Definition getnum (fixed : bool) (s : string) : option (Z * string) :=
  match s with
  | "" => None
  | String a s' =>
      d ← char_digit a;
      let one := if fixed then None else Some (d, s') in
      match s' with
      | "" => one
      | String b s'' =>
          match char_digit b with
          | Some e => Some (10 * d + e, s'')
          | None => one
          end
      end
  end.

(** [atoi]: a sign is allowed. *)
Definition time_atoi (s : string) : option Z :=
  match s with
  | String a s' =>
      if bool_decide (a = "-"%char) then Z.opp <$> parse_digits 0 s'
      else if bool_decide (a = "+"%char) then parse_digits 0 s'
      else parse_digits 0 s
  | "" => Some 0
  end.

(** The year: four characters, the first of them a digit. *)
Definition long_year (s : string) : option (Z * string) :=
  if (String.length s <? 4)%nat then None
  else
    match s with
    | String a _ => _ ← char_digit a; y ← time_atoi (stake 4 s); Some (y, sdrop 4 s)
    | "" => None
    end.

(** The fraction: a point or a comma and three characters. *)
Definition frac_ms (s : string) : option (Z * string) :=
  if (String.length s <? 4)%nat then None
  else
    match s with
    | String a s' =>
        if bool_decide (a = "."%char) || bool_decide (a = ","%char) then
          ms ← time_atoi (stake 3 s');
          if ms <? 0 then None else Some (ms * 1000000, sdrop 3 s')
        else None
    | "" => None
    end.

(** [skip]: a literal of the layout. *)
Definition skip (c : ascii) (s : string) : option string :=
  match s with String a s' => if bool_decide (a = c) then Some s' else None | "" => None end.

Definition ranged (lo hi : Z) (r : option (Z * string)) : option (Z * string) :=
  '(x, s) ← r; if (lo <=? x) && (x <=? hi) then Some (x, s) else None.

(** [time.Parse(TSLayout, value)]; [None] is an error.  The hour may have one
    digit. *)
Definition Parse_ms (value : string) : option Instant :=
  '(year, v) ← long_year value;
  v ← skip "-" v;
  '(month, v) ← ranged 1 12 (getnum true v);
  v ← skip "-" v;
  '(day, v) ← getnum true v;
  v ← skip "T" v;
  '(hour, v) ← ranged 0 23 (getnum false v);
  v ← skip ":" v;
  '(minute, v) ← ranged 0 59 (getnum true v);
  v ← skip ":" v;
  '(second, v) ← ranged 0 59 (getnum true v);
  '(nsec, v) ← frac_ms v;
  v ← skip "Z" v;
  if bool_decide (v = "") && (1 <=? day) && (day <=? daysIn month year) then
    Some (mkInstant (86400 * days_from_civil year month day + 3600 * hour + 60 * minute + second) nsec 0)
  else None.

Example parse_some : Parse_ms "2024-02-29T23:59:58.123Z" = Some (mkInstant 1709251198 123000000 0).
Proof. reflexivity. Qed.
Example parse_loose : Parse_ms "2024-02-29T3:59:58,+12Z" = Some (mkInstant 1709179198 12000000 0).
Proof. reflexivity. Qed.

(** ** What was written is read back *)
Lemma getnum_appendInt fixed x rest :
  0 ≤ x < 100 → getnum fixed (appendInt x 2 +:+ rest) = Some (x, rest).
Proof.
  intros Hx. destruct (appendInt_spec x 2) as [Hl Hp]; [simpl; lia|lia|lia|].
  destruct (appendInt x 2) as [|a [|b [|c s]]]; try done. simpl in Hp |- *.
  destruct (char_digit a) as [d|]; [|done]. destruct (char_digit b) as [e|]; [|done].
  simpl in *. injection Hp as Hp. do 2 f_equal. lia.
Qed.

Lemma time_atoi_digits a s d : char_digit a = Some d → time_atoi (String a s) = parse_digits 0 (String a s).
Proof.
  intros Ha. unfold time_atoi. rewrite !bool_decide_false; [done|..]; by intros ->.
Qed.

Lemma long_year_appendInt x rest :
  0 ≤ x < 10000 → long_year (appendInt x 4 +:+ rest) = Some (x, rest).
Proof.
  intros Hx. destruct (appendInt_spec x 4) as [Hl Hp]; [simpl; lia|lia|lia|].
  pose proof (stake_length_app (appendInt x 4) rest) as Ht.
  pose proof (sdrop_length_app (appendInt x 4) rest) as Hd. rewrite Hl in Ht, Hd.
  unfold long_year. rewrite length_sapp, Hl.
  destruct (Nat.ltb_spec (4 + String.length rest) 4); [lia|].
  destruct (appendInt x 4) as [|a s] eqn:Es; [done|]. simpl (String a s +:+ rest) in *.
  rewrite Ht, Hd. simpl in Hp. destruct (char_digit a) as [d|] eqn:Ha; [|done].
  rewrite (time_atoi_digits a s d Ha). simpl. rewrite Ha, Hp. done.
Qed.

Lemma frac_ms_appendInt x rest :
  0 ≤ x < 1000 → frac_ms ("." +:+ appendInt x 3 +:+ rest) = Some (x * 1000000, rest).
Proof.
  intros Hx. destruct (appendInt_spec x 3) as [Hl Hp]; [simpl; lia|lia|lia|].
  pose proof (stake_length_app (appendInt x 3) rest) as Ht.
  pose proof (sdrop_length_app (appendInt x 3) rest) as Hd. rewrite Hl in Ht, Hd.
  unfold frac_ms. cbn [String.append String.length]. rewrite length_sapp, Hl.
  destruct (Nat.ltb_spec (S (3 + String.length rest)) 4); [lia|].
  rewrite bool_decide_true by done. cbn [orb]. rewrite Ht, Hd.
  destruct (appendInt x 3) as [|a s] eqn:Es; [done|]. simpl in Hp.
  destruct (char_digit a) as [d|] eqn:Ha; [|done].
  rewrite (time_atoi_digits a s d Ha). simpl. rewrite Ha, Hp. simpl.
  by destruct (Z.ltb_spec x 0); [lia|].
Qed.

Lemma skip_literal c s : skip c (String c "" +:+ s) = Some s.
Proof. simpl. by rewrite bool_decide_true. Qed.

Lemma ranged_in lo hi x s : lo ≤ x ≤ hi → ranged lo hi (Some (x, s)) = Some (x, s).
Proof. intros. unfold ranged. simpl. repeat (rewrite (proj2 (Z.leb_le _ _)); [|lia]). done. Qed.

Lemma skip_last c : skip c (String c "") = Some "".
Proof. apply (skip_literal c ""). Qed.

(** Reads the fields of a text one after the other. *)
Ltac read_fields :=
  repeat (first [ rewrite long_year_appendInt by lia | rewrite skip_literal | rewrite skip_last
                | rewrite getnum_appendInt, ranged_in by lia | rewrite getnum_appendInt by lia
                | rewrite frac_ms_appendInt by lia ]; cbn [mbind option_bind]).

Lemma clock_fields t :
  0 ≤ Hour t < 24 ∧ 0 ≤ Minute t < 60 ∧ 0 ≤ Second t < 60 ∧
  86400 * day_number t + 3600 * Hour t + 60 * Minute t + Second t = wall t.
Proof.
  unfold Hour, Minute, Second, day_number. Z.to_euclidean_division_equations; lia.
Qed.

(** A formatted instant is read back as its wall clock taken for UTC, cut to the
    millisecond. *)
Lemma Parse_Format_ms i :
  0 ≤ Year (clock i) ≤ 9999 → 0 ≤ i_nsec i < 1000000000 →
  Parse_ms (Format_ms i)
  = Some (mkInstant (i_unix i + i_offset i) (i_nsec i / 1000000 * 1000000) 0).
Proof.
  intros Hy Hn. destruct (Month_Day_range (clock i)) as [Hm Hd].
  pose proof (daysIn_le (Month (clock i)) (Year (clock i))).
  destruct (clock_fields (clock i)) as (Hh & Hmi & Hs & Hw).
  assert (0 ≤ i_nsec i / 1000000 < 1000) by (Z.to_euclidean_division_equations; lia).
  unfold Parse_ms, Format_ms. read_fields. rewrite bool_decide_true by done.
  repeat (rewrite (proj2 (Z.leb_le _ _)); [|lia]). cbn [andb].
  do 2 f_equal. rewrite days_from_Date. exact Hw.
Qed.
