(* ===== verification/Trigger.v ===== *)
(** * Package [file], trigger.go: when the active file is rotated

    The three triggers and their construction.  A clock is the sequence of the
    instants its successive readings return; the number of readings made so
    far is threaded through. *)
From S2P Require Import Prelude GoStrings GoTime.

Open Scope Z_scope.

Inductive rotateReason :=
| rotateReasonNoRotate
| rotateReasonInitializing
| rotateReasonFileSize
| rotateReasonManualTrigger
| rotateReasonTimeInterval.

#[global] Instance rotateReason_eq_dec : EqDecision rotateReason.
Proof. solve_decision. Defined.

Definition rotateReason_String (rr : rotateReason) : string :=
  match rr with
  | rotateReasonInitializing => "initializing"
  | rotateReasonFileSize => "file size"
  | rotateReasonManualTrigger => "manual trigger"
  | rotateReasonTimeInterval => "time interval"
  | rotateReasonNoRotate => "unknown"
  end.

(** ** Calendar predicates *)
Definition newYear (lastTime currentTime : Time) : bool :=
  negb (Year lastTime =? Year currentTime).
Definition newMonth (lastTime currentTime : Time) : bool :=
  negb (Month lastTime =? Month currentTime) || newYear lastTime currentTime.
Definition newWeek (lastTime currentTime : Time) : bool :=
  let '(lastYear, lastWeek) := ISOWeek lastTime in
  let '(currentYear, currentWeek) := ISOWeek currentTime in
  negb (lastWeek =? currentWeek) || negb (lastYear =? currentYear).
Definition newDay (lastTime currentTime : Time) : bool :=
  negb (Day lastTime =? Day currentTime) || newMonth lastTime currentTime.
Definition newHour (lastTime currentTime : Time) : bool :=
  negb (Hour lastTime =? Hour currentTime) || newDay lastTime currentTime.
Definition newMinute (lastTime currentTime : Time) : bool :=
  negb (Minute lastTime =? Minute currentTime) || newHour lastTime currentTime.
Definition newSecond (lastTime currentTime : Time) : bool :=
  negb (Second lastTime =? Second currentTime) || newMinute lastTime currentTime.

(** ** Durations, in nanoseconds *)
Definition time_Second : Z := 1000000000.
Definition time_Minute : Z := 60 * time_Second.
Definition time_Hour : Z := 60 * time_Minute.

(** The function [newIntervalTrigger] installs for [interval].  The default
    branch divides by the whole seconds of the interval, which is 0 below one
    second. *)
Definition newInterval {E} (interval : Z) (lastTime currentTime : Time) : res E bool :=
  if interval =? time_Second then Ok (newSecond lastTime currentTime)
  else if interval =? time_Minute then Ok (newMinute lastTime currentTime)
  else if interval =? time_Hour then Ok (newHour lastTime currentTime)
  else if interval =? 24 * time_Hour then Ok (newDay lastTime currentTime)
  else if interval =? 7 * 24 * time_Hour then Ok (newWeek lastTime currentTime)
  else if interval =? 30 * 24 * time_Hour then Ok (newMonth lastTime currentTime)
  else if interval =? 365 * 24 * time_Hour then Ok (newYear lastTime currentTime)
  else
    let seconds := Z.quot interval time_Second in
    if seconds =? 0 then Panic PDivideByZero
    else
      let lastInterval := Z.quot (Unix lastTime) seconds in
      let currentInterval := Z.quot (Unix currentTime) seconds in
      Ok (negb (lastInterval =? currentInterval)).

(** ** Triggers *)
Inductive trigger :=
| initTrigger (triggered : bool)
| sizeTrigger (maxSizeBytes size : Z)
| intervalTrigger (interval : Z) (lastRotate : Time).

Section clocked.
(** [clock n]: the value of the reading number [n]. *)
Context (clock : nat → Time).

Definition newIntervalTrigger (interval : Z) (ticks : nat) : trigger * nat :=
  (intervalTrigger interval (clock ticks), S ticks).

Definition newTriggers (rotateOnStartup : bool) (interval maxSizeBytes : Z) (ticks : nat)
  : list trigger * nat :=
  let init := if rotateOnStartup then [initTrigger false] else [] in
  let '(every, ticks') :=
    if 0 <? interval
    then let '(t, n) := newIntervalTrigger interval ticks in ([t], n)
    else ([], ticks) in
  let size := if 0 <? maxSizeBytes then [sizeTrigger maxSizeBytes 0] else [] in
  ((init ++ every ++ size)%list, ticks').

(** [t.TriggerRotation(dataLen)]: the updated trigger, the reason, the clock
    readings made so far. *)
Definition TriggerRotation {E} (t : trigger) (dataLen : Z) (ticks : nat)
  : res E (trigger * rotateReason * nat) :=
  match t with
  | initTrigger triggered =>
      if negb triggered then Ok (initTrigger true, rotateReasonInitializing, ticks)
      else Ok (t, rotateReasonNoRotate, ticks)
  | sizeTrigger maxSizeBytes size =>
      if maxSizeBytes <? wrapu64 (size + dataLen)
      then Ok (sizeTrigger maxSizeBytes 0, rotateReasonFileSize, ticks)
      else Ok (sizeTrigger maxSizeBytes (wrapu64 (size + dataLen)), rotateReasonNoRotate, ticks)
  | intervalTrigger interval lastRotate =>
      let now := clock ticks in
      fired ← newInterval interval lastRotate now;
      if (fired : bool)
      then Ok (intervalTrigger interval now, rotateReasonTimeInterval, S ticks)
      else Ok (t, rotateReasonNoRotate, S ticks)
  end.

End clocked.

(** ** The calendar predicates compare unit numbers *)
Lemma negb_eqb_or (a b : Z) (x y : Prop) (q : bool) `{!Decision x, !Decision y} :
  q = bool_decide x → (¬ (a = b ∧ ¬ x) ↔ y) → negb (a =? b) || q = bool_decide y.
Proof.
  intros -> Hy. destruct (Z.eqb_spec a b); simpl; symmetry.
  - destruct (decide x); [rewrite (bool_decide_true x) | rewrite (bool_decide_false x)]; try done.
    + apply bool_decide_true. apply Hy. tauto.
    + apply bool_decide_false. intros ?%Hy. tauto.
  - apply bool_decide_true. apply Hy. tauto.
Qed.

Lemma Date_eq t u :
  Day t = Day u ∧ Month t = Month u ∧ Year t = Year u ↔ day_number t = day_number u.
Proof.
  split; [|by unfold Day, Month, Year; intros ->].
  intros (Hd & Hm & Hy). by rewrite <- (days_from_Date t), <- (days_from_Date u), Hd, Hm, Hy.
Qed.

Lemma newYear_spec t u : newYear t u = bool_decide (Year t ≠ Year u).
Proof. unfold newYear. destruct (Z.eqb_spec (Year t) (Year u)); simpl; symmetry; case_bool_decide; done. Qed.

Lemma newMonth_spec t u :
  newMonth t u = bool_decide (¬ (Month t = Month u ∧ Year t = Year u)).
Proof. unfold newMonth. eapply negb_eqb_or; [apply newYear_spec|]. destruct (decide (Year t = Year u)); tauto. Qed.

Lemma newDay_spec t u : newDay t u = bool_decide (day_number t ≠ day_number u).
Proof.
  unfold newDay. eapply negb_eqb_or; [apply newMonth_spec|]. rewrite <- Date_eq.
  destruct (decide (Year t = Year u)), (decide (Month t = Month u)); tauto.
Qed.

Lemma newHour_spec t u : newHour t u = bool_decide (wall t / 3600 ≠ wall u / 3600).
Proof.
  unfold newHour. eapply negb_eqb_or; [apply newDay_spec|]. unfold Hour, day_number.
  set (a := wall t). set (b := wall u). divlia.
Qed.

Lemma newMinute_spec t u : newMinute t u = bool_decide (wall t / 60 ≠ wall u / 60).
Proof.
  unfold newMinute. eapply negb_eqb_or; [apply newHour_spec|]. unfold Minute.
  set (a := wall t). set (b := wall u). divlia.
Qed.

Lemma newSecond_spec t u : newSecond t u = bool_decide (wall t ≠ wall u).
Proof.
  unfold newSecond. eapply negb_eqb_or; [apply newMinute_spec|]. unfold Second.
  set (a := wall t). set (b := wall u). divlia.
Qed.

(** Weeks start on Monday; day -3 is a Monday. *)
Lemma newWeek_spec t u :
  newWeek t u = bool_decide ((day_number t + 3) / 7 ≠ (day_number u + 3) / 7).
Proof.
  unfold newWeek, ISOWeek. set (a := day_number t). set (b := day_number u).
  set (ya := (civil_from_days (thursday a)).1.1). set (yb := (civil_from_days (thursday b)).1.1).
  eapply negb_eqb_or with (x := ya ≠ yb).
  { destruct (Z.eqb_spec ya yb); simpl; symmetry; case_bool_decide; done. }
  assert (Hsame : (a + 3) / 7 = (b + 3) / 7 ↔ thursday a = thursday b)
    by (unfold thursday; divlia).
  rewrite Hsame. subst ya yb.
  destruct (decide ((civil_from_days (thursday a)).1.1 = (civil_from_days (thursday b)).1.1))
    as [Hy|Hy].
  - rewrite Hy. set (j := days_from_civil _ 1 1).
    assert ((thursday a - thursday b) mod 7 = 0) by (unfold thursday; divlia).
    clearbody j. clear Hsame Hy. generalize dependent (thursday a).
    generalize dependent (thursday b). intros. divlia.
  - split; [|tauto]. intros _ Heq. by rewrite Heq in Hy.
Qed.

(** An interval trigger fires exactly when the wall clock entered another unit
    of its calendar since the last rotation: another second, minute, hour, day,
    ISO week, month or year for the seven calendar intervals; for every other
    interval of at least a second, another multiple of the interval's whole
    seconds since the epoch.  In no case does it panic. *)
Theorem newInterval_unit_changed E (last cur : Time) :
  newInterval (E:=E) time_Second last cur = Ok (bool_decide (wall last ≠ wall cur)) ∧
  newInterval (E:=E) time_Minute last cur = Ok (bool_decide (wall last / 60 ≠ wall cur / 60)) ∧
  newInterval (E:=E) time_Hour last cur = Ok (bool_decide (wall last / 3600 ≠ wall cur / 3600)) ∧
  newInterval (E:=E) (24 * time_Hour) last cur =
    Ok (bool_decide (day_number last ≠ day_number cur)) ∧
  newInterval (E:=E) (7 * 24 * time_Hour) last cur =
    Ok (bool_decide ((day_number last + 3) / 7 ≠ (day_number cur + 3) / 7)) ∧
  newInterval (E:=E) (30 * 24 * time_Hour) last cur =
    Ok (bool_decide (¬ (Month last = Month cur ∧ Year last = Year cur))) ∧
  newInterval (E:=E) (365 * 24 * time_Hour) last cur = Ok (bool_decide (Year last ≠ Year cur)) ∧
  (∀ interval, time_Second ≤ interval →
     interval ∉ [time_Second; time_Minute; time_Hour; 24 * time_Hour; 7 * 24 * time_Hour;
                 30 * 24 * time_Hour; 365 * 24 * time_Hour] →
     let k := interval / time_Second in
     newInterval (E:=E) interval last cur =
       Ok (bool_decide (Z.quot (Unix last) k ≠ Z.quot (Unix cur) k))).
Proof.
  rewrite <- newSecond_spec, <- newMinute_spec, <- newHour_spec, <- newDay_spec, <- newWeek_spec,
    <- newMonth_spec, <- newYear_spec. split_and!; [done..|].
  intros interval Hmin Hout k. rewrite !not_elem_of_cons in Hout. destruct Hout as (?&?&?&?&?&?&?&_).
  unfold newInterval. repeat (rewrite (proj2 (Z.eqb_neq _ _)) by done).
  rewrite Z.quot_div_nonneg by (unfold time_Second in *; lia). fold k.
  assert (k ≠ 0).
  { subst k. pose proof (Z.div_le_mono time_Second interval time_Second). unfold time_Second in *.
    change (1000000000 / 1000000000) with 1 in *. lia. }
  rewrite (proj2 (Z.eqb_neq _ _)) by done. f_equal.
  destruct (Z.eqb_spec (Z.quot (Unix last) k) (Z.quot (Unix cur) k)); simpl; symmetry;
    case_bool_decide; done.
Qed.
