(* ===== verification/GoFS.v ===== *)
(** * The file system, as far as package [file] uses it

    A file system is a finite map from paths to regular files and symbolic
    links.  Paths are clean (what [filepath.Clean] returns), so that a path has
    one name; directories are not nodes of the map: creating them changes
    nothing here and no directory is named like a log file.  The operations
    follow [os] and [path/filepath]. *)
From S2P Require Import Prelude GoStrings.

Open Scope string_scope.
Open Scope Z_scope.

Inductive node :=
| Regular (data : string)
| Symlink (target : string).

Abbreviation fs := (gmap string node).

Inductive errno := ENOENT | EEXIST | ELOOP | EIO | EINVAL.

(** [os.Stat] and [open(2)] follow at most 40 links. *)
Definition max_links : nat := 40.

Fixpoint follow (n : nat) (f : fs) (p : string) : string + errno :=
  match f !! p with
  | None => inr ENOENT
  | Some (Regular _) => inl p
  | Some (Symlink q) => match n with O => inr ELOOP | S n' => follow n' f q end
  end.

(** ** [filepath.Glob] *)
Inductive glob_token :=
| GStar
| GAny
| GChar (c : ascii)
| GClass (negated : bool) (ranges : list (ascii * ascii)).

(** A character of a class: not ['-'] nor [']'] unless escaped, and not the last
    character of the pattern. *)
Definition getEsc (s : string) : option (ascii * string) :=
  '(c, r) ← match s with
            | "" => None
            | String c r =>
                if Ascii.eqb c "-" || Ascii.eqb c "]" then None
                else if Ascii.eqb c "\" then
                  match r with "" => None | String c' r' => Some (c', r') end
                else Some (c, r)
            end;
  if String.eqb r "" then None else Some (c, r).

Fixpoint class_ranges (fuel : nat) (first : bool) (s : string)
  : option (list (ascii * ascii) * string) :=
  match fuel with
  | O => None
  | S fuel' =>
      match s with
      | String "]" r =>
          if first then None else Some ([], r)
      | _ =>
          '(lo, r) ← getEsc s;
          '(hi, r') ← match r with
                      | String "-" r1 => getEsc r1
                      | _ => Some (lo, r)
                      end;
          '(rs, r'') ← class_ranges fuel' false r';
          Some ((lo, hi) :: rs, r'')
      end
  end.

(** The tokens of one path element of a pattern; [None] is [ErrBadPattern].
    Each token consumes a character, so the length is enough fuel. *)
Fixpoint glob_tokens (fuel : nat) (s : string) : option (list glob_token) :=
  match fuel with
  | O => Some []
  | S fuel' =>
      match s with
      | "" => Some []
      | String c r =>
          if Ascii.eqb c "*" then cons GStar <$> glob_tokens fuel' r
          else if Ascii.eqb c "?" then cons GAny <$> glob_tokens fuel' r
          else if Ascii.eqb c "\" then
            match r with
            | "" => None
            | String c' r' => cons (GChar c') <$> glob_tokens fuel' r'
            end
          else if Ascii.eqb c "[" then
            let '(neg, r0) := match r with
                              | String "^" r1 => (true, r1)
                              | _ => (false, r)
                              end in
            '(rs, r') ← class_ranges (S (String.length r0)) true r0;
            cons (GClass neg rs) <$> glob_tokens fuel' r'
          else cons (GChar c) <$> glob_tokens fuel' r
      end
  end.

Definition in_ranges (a : ascii) (rs : list (ascii * ascii)) : bool :=
  existsb (λ r, (N_of_ascii r.1 <=? N_of_ascii a)%N && (N_of_ascii a <=? N_of_ascii r.2)%N) rs.

(** Match of a path element, which holds no ['/']. *)
Fixpoint token_match (ts : list glob_token) (s : string) : bool :=
  match ts with
  | [] => String.eqb s ""
  | GStar :: ts' =>
      (fix star (s : string) : bool :=
         token_match ts' s || match s with "" => false | String _ s' => star s' end) s
  | t :: ts' =>
      match s with
      | "" => false
      | String a s' =>
          match t with
          | GChar c => Ascii.eqb a c
          | GClass neg rs => xorb neg (in_ranges a rs)
          | _ => true
          end && token_match ts' s'
      end
  end.

Definition tokens_of (e : string) : option (list glob_token) :=
  glob_tokens (String.length e) e.

(** Element by element match of a path. *)
Definition path_match (pss : list (list glob_token)) (path : string) : bool :=
  let es := Split path "/" in
  bool_decide (length pss = length es) &&
  forallb (λ pe, token_match pe.1 pe.2) (zip pss es).

(** The matching paths in lexical order, or [None] for [ErrBadPattern]. *)
Definition Glob (f : fs) (pattern : string) : option (list string) :=
  pss ← mapM tokens_of (Split pattern "/");
  Some (insertion_sort (λ a b, String.ltb a b)
          (filter (λ p, path_match pss p = true) (map_to_list f).*1)).

(** ** Patterns [prefix + "*" + suffix] without other special characters *)
Definition meta_free (s : string) : bool :=
  lacks "*" s && lacks "?" s && lacks "[" s && lacks "\" s.

Fixpoint literal (s : string) : list glob_token :=
  match s with "" => [] | String c s' => GChar c :: literal s' end.

Lemma meta_free_cons c s :
  meta_free (String c s) = true →
  Ascii.eqb c "*" = false ∧ Ascii.eqb c "?" = false ∧ Ascii.eqb c "[" = false ∧
  Ascii.eqb c "\" = false ∧ meta_free s = true.
Proof.
  unfold meta_free. simpl. rewrite !andb_true_iff, !negb_true_iff. tauto.
Qed.

Lemma meta_free_sapp a b : meta_free (a +:+ b) = meta_free a && meta_free b.
Proof.
  unfold meta_free. rewrite !lacks_sapp.
  by destruct (lacks "*" a), (lacks "?" a), (lacks "[" a), (lacks "\" a),
    (lacks "*" b), (lacks "?" b), (lacks "[" b), (lacks "\" b).
Qed.

Lemma glob_tokens_literal fuel s r :
  meta_free s = true →
  glob_tokens (String.length s + fuel) (s +:+ r) = (literal s ++.) <$> glob_tokens fuel r.
Proof.
  induction s as [|c s IH]; intros Hm; simpl; [by destruct (glob_tokens fuel r)|].
  apply meta_free_cons in Hm as (H1 & H2 & H3 & H4 & Hm).
  rewrite H1, H2, H3, H4, (IH Hm). by destruct (glob_tokens fuel r).
Qed.

Lemma token_match_literal s ts t :
  token_match (literal s ++ ts) t = true ↔ ∃ r, t = s +:+ r ∧ token_match ts r = true.
Proof.
  revert t. induction s as [|c s IH]; intros t; simpl.
  { split; [eauto|]. by intros (? & -> & ?). }
  destruct t as [|a t].
  { split; [done|]. by intros (? & ? & _). }
  rewrite andb_true_iff, Ascii.eqb_eq, IH. split.
  - intros (-> & r & -> & ?). eauto.
  - intros (r & [= -> ->] & ?). eauto.
Qed.

Lemma token_match_star ts t :
  token_match (GStar :: ts) t = true ↔ ∃ u r, t = u +:+ r ∧ token_match ts r = true.
Proof.
  simpl. induction t as [|a t IH].
  - rewrite orb_false_r. split; [intros ?; by exists "", ""|].
    intros ([|b u] & [|b' r] & He & ?); done.
  - rewrite orb_true_iff, IH. split.
    + intros [?|(u & r & -> & ?)]; [by exists "", (String a t)|by exists (String a u), r].
    + intros ([|b u] & r & He & ?); [left; simpl in He; by rewrite He|].
      right. injection He as <- ->. eauto.
Qed.

Lemma tokens_of_star p q :
  meta_free p = true → meta_free q = true →
  tokens_of (p +:+ String "*" q) = Some (literal p ++ GStar :: literal q)%list.
Proof.
  intros Hp Hq. unfold tokens_of. rewrite !length_sapp.
  rewrite glob_tokens_literal by done. simpl.
  pose proof (glob_tokens_literal 0 q "" Hq) as H. rewrite sapp_nil_r, Nat.add_0_r in H.
  rewrite H. simpl. by rewrite app_nil_r.
Qed.

Lemma tokens_of_literal s : meta_free s = true → tokens_of s = Some (literal s).
Proof.
  intros Hs. unfold tokens_of. pose proof (glob_tokens_literal 0 s "" Hs) as H.
  rewrite sapp_nil_r, Nat.add_0_r in H. rewrite H. simpl. by rewrite app_nil_r.
Qed.

Lemma Split_inj c s t : Split s c = Split t c → s = t.
Proof. intros H. by rewrite <- (Join_Split c s), <- (Join_Split c t), H. Qed.

(** Text without a separator only extends the last element. *)
Lemma Split_last c s :
  ∃ ds b, Split s c = (ds ++ [b])%list ∧
    ∀ w, lacks c w = true → Split (s +:+ w) c = (ds ++ [b +:+ w])%list.
Proof.
  induction s as [|a s IH].
  { exists [], "". split; [done|]. intros w Hw. simpl. by apply Split_lacks. }
  destruct IH as (ds & b & Hs & Hw). simpl. destruct (Ascii.eqb a c).
  { exists ("" :: ds), b. split; [by rewrite Hs|]. intros w Hl. by rewrite (Hw w Hl). }
  destruct ds as [|d ds].
  - exists [], (String a b). rewrite Hs. split; [done|]. intros w Hl. by rewrite (Hw w Hl).
  - exists (String a d :: ds), b. rewrite Hs. split; [done|]. intros w Hl. by rewrite (Hw w Hl).
Qed.

Lemma lacks_Split x c s : lacks x s = true → Forall (λ e, lacks x e = true) (Split s c).
Proof.
  induction s as [|a s IH]; simpl; [by repeat constructor|].
  intros [Ha Hs]%andb_true_iff. specialize (IH Hs). destruct (Ascii.eqb a c); [by constructor|].
  destruct (Split s c) as [|e es]; [by repeat constructor; simpl; rewrite Ha|].
  inversion IH; subst. constructor; [simpl; by rewrite Ha|done].
Qed.

Lemma meta_free_Split c s : meta_free s = true → Forall (λ e, meta_free e = true) (Split s c).
Proof.
  unfold meta_free. intros [[[H1 H2]%andb_true_iff H3]%andb_true_iff H4]%andb_true_iff.
  pose proof (lacks_Split "*" c s H1) as F1. pose proof (lacks_Split "?" c s H2) as F2.
  pose proof (lacks_Split "[" c s H3) as F3. pose proof (lacks_Split "\" c s H4) as F4.
  rewrite Forall_forall in *. intros e He. by rewrite F1, F2, F3, F4.
Qed.

Lemma token_match_exact s t : token_match (literal s) t = true ↔ t = s.
Proof.
  rewrite <- (app_nil_r (literal s)), token_match_literal. simpl. split.
  - intros (r & -> & ->%String.eqb_eq). by rewrite sapp_nil_r.
  - intros ->. exists "". by rewrite sapp_nil_r.
Qed.

Lemma path_match_literals ds ts es path :
  Split path "/" = es →
  path_match ((literal <$> ds) ++ [ts])%list path = true ↔
  ∃ e, es = (ds ++ [e])%list ∧ token_match ts e = true.
Proof.
  intros <-. unfold path_match. rewrite andb_true_iff, bool_decide_eq_true.
  generalize (Split path "/"). induction ds as [|d ds IH]; intros es; simpl.
  - destruct es as [|e [|e' es]]; simpl.
    + split; [by intros []|]. by intros (? & ? & _).
    + rewrite andb_true_r. split; [intros [_ ?]; eauto|]. by intros (? & [= ->] & ?).
    + split; [by intros []|]. by intros (? & ? & _).
  - destruct es as [|e es]; simpl.
    + split; [by intros []|]. by intros (? & ? & _).
    + rewrite andb_true_iff, token_match_exact. specialize (IH es).
      split.
      * intros (Hl & -> & Hm). destruct IH as [IH _].
        destruct IH as (x & -> & ?); [split; [by injection Hl|done]|]. eauto.
      * intros (x & [= -> ->] & Hx). destruct IH as [_ IH].
        destruct IH as [Hl ?]; [eauto|]. split; [by f_equal|done].
Qed.

Lemma lacks_sapp3 c a b d :
  lacks c (a +:+ b +:+ d) = true ↔ lacks c a = true ∧ lacks c b = true ∧ lacks c d = true.
Proof. rewrite !lacks_sapp, !andb_true_iff. done. Qed.

(** The files a pattern [prefix*suffix] designates: those whose path is the
    prefix, some text without separator, and the suffix. *)
Lemma Glob_star f p q :
  meta_free p = true → meta_free q = true → lacks "/" q = true →
  ∃ l, Glob f (p +:+ "*" +:+ q) = Some l ∧ NoDup l ∧
    ∀ x, x ∈ l ↔ is_Some (f !! x) ∧ ∃ u, lacks "/" u = true ∧ x = p +:+ u +:+ q.
Proof.
  intros Hp Hq Hsep. unfold Glob.
  destruct (Split_last "/" p) as (ds & b & Hsp & Hext).
  pose proof (meta_free_Split "/" p Hp) as Hmf. rewrite Hsp in Hmf.
  apply Forall_app in Hmf as [Hds Hb]. rewrite Forall_singleton in Hb.
  change ("*" +:+ q) with (String "*" q). rewrite (Hext (String "*" q)) by done.
  assert (Htok : mapM tokens_of (ds ++ [b +:+ String "*" q])%list
                 = Some ((literal <$> ds) ++ [literal b ++ GStar :: literal q])%list).
  { clear Hsp Hext. induction Hds as [|d ds Hd Hds IH]; simpl.
    - by rewrite (tokens_of_star b q Hb Hq).
    - by rewrite (tokens_of_literal d Hd), IH. }
  rewrite Htok. simpl. eexists. split; [done|].
  rewrite insertion_sort_perm. split.
  { apply NoDup_filter, NoDup_fst_map_to_list. }
  intros x. rewrite (insertion_sort_perm _ _), list_elem_of_filter,
    (path_match_literals _ _ (Split x "/")) by done.
  assert (Hin : x ∈ (map_to_list f).*1 ↔ is_Some (f !! x)).
  { rewrite list_elem_of_fmap. split.
    - intros ([k v] & -> & ?%elem_of_map_to_list). by exists v.
    - intros [v ?]. exists (x, v). split; [done|]. by apply elem_of_map_to_list. }
  rewrite Hin. split.
  - intros [(e & Hs & He) Hf]. split; [done|].
    apply token_match_literal in He as (r & -> & He).
    apply token_match_star in He as (u & r' & -> & He). apply token_match_exact in He as ->.
    pose proof (Split_pieces_lack "/" x) as Hl. rewrite Hs in Hl.
    apply Forall_app in Hl as [_ Hl]. rewrite Forall_singleton in Hl.
    apply lacks_sapp3 in Hl as (_ & Hu & _). exists u. split; [done|].
    apply (Split_inj "/"). rewrite Hs. symmetry. apply Hext.
    rewrite lacks_sapp. by rewrite Hu, Hsep.
  - intros [Hf (u & Hu & ->)]. split; [|done].
    exists (b +:+ u +:+ q). split.
    + apply Hext. by rewrite lacks_sapp, Hu, Hsep.
    + apply token_match_literal. eexists. split; [done|].
      apply token_match_star. exists u, q. split; [done|]. by apply token_match_exact.
Qed.
