(* ===== verification/Rotator.v ===== *)
(** * Package [file], rotator.go: the file rotator

    [dateRotator] (names of log files, their order, the cache of that order)
    and [Rotator] (opening, writing, rotating, purging), every handler whole.

    The world is the file system, the number of clock readings and the number
    of operating-system calls made so far.  Two parameters of the section are
    arbitrary: the clock, and an oracle that makes operating-system calls fail
    (a failing [write] may have written some bytes first).  The [Rotator] is a
    Go pointer: its record is threaded with the world, also through errors.
    The mutex makes the exported methods atomic, so a concurrent use is some
    sequence of these steps.  Debug logging and the redirection of the
    standard error stream are left out. *)
From S2P Require Import Prelude GoStrings GoTime GoFS Trigger.

Open Scope string_scope.
Open Scope Z_scope.

Definition MaxBackupsLimit : Z := 1024.
Definition DateFormat : string := "20060102".
Definition ModePerm : Z := 511.

Inductive file_error :=
| errors_New (msg : string)
| os_error (e : errno)
| ErrBadPattern
| Errorf (msg : string) (e : file_error).

(** ** dateRotator *)
Record logOrder := mkOrder { index : Z; datetime : Time }.

Record dateRotator := mkDateRotator {
  filenamePrefix : string;
  currentFilename : string;
  d_extension : string;
  prefixLen : Z;
  filenameLen : Z;
  extensionLen : Z;
  logOrderCache : gmap string logOrder
}.

Definition set_cache (c : gmap string logOrder) (d : dateRotator) : dateRotator :=
  mkDateRotator (filenamePrefix d) (currentFilename d) (d_extension d) (prefixLen d)
    (filenameLen d) (extensionLen d) c.
Definition set_current (n : string) (d : dateRotator) : dateRotator :=
  mkDateRotator (filenamePrefix d) n (d_extension d) (prefixLen d)
    (filenameLen d) (extensionLen d) (logOrderCache d).

(** Calls that read and write the fields of a [dateRotator]. *)
Abbreviation DM := (SE dateRotator file_error).

Definition logAfter (o other : logOrder) : bool :=
  if Equal (datetime o) (datetime other) then index o <? index other
  else negb (After (datetime o) (datetime other)).

Definition isFilenameWithIndex (d : dateRotator) (filename : string) : bool :=
  filenameLen d + extensionLen d <? strlen filename.

Definition filenameIndex (d : dateRotator) (filename : string)
  : res file_error (Z * option num_error) :=
  indexStr ← slice filename (filenameLen d + 1) (strlen filename - extensionLen d);
  if 0 <? strlen indexStr then Ok (Atoi indexStr) else Ok (0, None).

Definition OrderLog (filename : string) : DM logOrder :=
  d ← get_store;
  match logOrderCache d !! filename with
  | Some o => mret o
  | None =>
      text ← lift (slice filename (prefixLen d) (filenameLen d));
      match Parse text with
      | None => mret (mkOrder 0 zeroTime)
      | Some t =>
          '(i, err) ← (if isFilenameWithIndex d filename
                       then lift (filenameIndex d filename)
                       else mret (0, None));
          let o := mkOrder i t in
          match (err : option num_error) with
          | Some _ => mret o
          | None => modify (set_cache (<[filename := o]> (logOrderCache d))) ≫= λ _, mret o
          end
      end
  end.

Fixpoint orders (l : list string) : DM (list (string * logOrder)) :=
  match l with
  | [] => mret []
  | x :: l' => o ← OrderLog x; os ← orders l'; mret ((x, o) :: os)
  end.

Section sorting.
Context `{SliceSort}.

(** [sort.Slice] passes every element of a slice of two or more to the less
    function; the order of a name does not depend on the cache. *)
Definition SortModTimeLogs (strings : list string) : DM (list string) :=
  match strings with
  | [] | [_] => mret strings
  | _ =>
      os ← orders strings;
      mret (sort_slice (λ x y : string * logOrder, logAfter x.2 y.2) os).*1
  end.

(** [newDateRotater(log, filename, extension, clock)] when the clock reads [now]. *)
Definition newDateRotater (f : fs) (now : Time) (filename extension : string)
  : res file_error dateRotator :=
  let prefix := filename +:+ "-" in
  let ext := "." +:+ extension in
  let d := mkDateRotator prefix (prefix +:+ Format now +:+ ext) ext
             (strlen prefix) (strlen prefix + strlen DateFormat) (strlen ext) ∅ in
  match Glob f (prefix +:+ "*" +:+ ext) with
  | None | Some [] => Ok d
  | Some [x] => Ok (set_current x d)
  | Some files =>
      match SortModTimeLogs files d with
      | (d', Ok sorted) => Ok (set_current (default "" (last sorted)) d')
      | (_, Err e) => Err e
      | (_, Panic p) => Panic p
      | (_, OutOfFuel) => OutOfFuel
      end
  end.

Definition ActiveFile (d : dateRotator) : string := currentFilename d.

Definition d_Rotate (f : fs) (rotateTime : Time) : DM unit :=
  modify (set_cache ∅) ≫= λ _,
  d ← get_store;
  let newFileNamePrefix := filenamePrefix d +:+ Format rotateTime in
  match Glob f (newFileNamePrefix +:+ "*" +:+ d_extension d) with
  | None => fail (Errorf "failed to get possible files" ErrBadPattern)
  | Some [] => modify (set_current (newFileNamePrefix +:+ d_extension d))
  | Some files =>
      sorted ← SortModTimeLogs files;
      order ← OrderLog (default "" (last sorted));
      modify (set_current (newFileNamePrefix +:+ "-" +:+ Itoa (wrap64 (index order + 1))
                           +:+ d_extension d))
  end.

Definition without (x : string) (l : list string) : list string :=
  match list_find (eq x) l with
  | Some (i, _) => take i l ++ drop (S i) l
  | None => l
  end%list.

Definition RotatedFiles (f : fs) : DM (list string) :=
  d ← get_store;
  let files := default [] (Glob f (filenamePrefix d +:+ "*" +:+ d_extension d)) in
  SortModTimeLogs (without (ActiveFile d) files).

End sorting.

(** ** Rotator *)
Record Rotator := mkRotator {
  rot : dateRotator;
  triggers : list trigger;
  filename : string;
  extension : string;
  maxSizeBytes : Z;
  maxBackups : Z;
  interval : Z;
  permissions : Z;
  rotateOnStartup : bool;
  redirectStderr : bool;
  file : option string
}.

Definition set_rot (d : dateRotator) (r : Rotator) : Rotator :=
  mkRotator d (triggers r) (filename r) (extension r) (maxSizeBytes r) (maxBackups r)
    (interval r) (permissions r) (rotateOnStartup r) (redirectStderr r) (file r).
Definition set_triggers (ts : list trigger) (r : Rotator) : Rotator :=
  mkRotator (rot r) ts (filename r) (extension r) (maxSizeBytes r) (maxBackups r)
    (interval r) (permissions r) (rotateOnStartup r) (redirectStderr r) (file r).
Definition set_file (p : option string) (r : Rotator) : Rotator :=
  mkRotator (rot r) (triggers r) (filename r) (extension r) (maxSizeBytes r) (maxBackups r)
    (interval r) (permissions r) (rotateOnStartup r) (redirectStderr r) p.

Record world := mkWorld { files : fs; ticks : nat; calls : nat }.
Record state := mkState { wld : world; rtr : Rotator }.

Definition on_rtr (f : Rotator → Rotator) (s : state) : state := mkState (wld s) (f (rtr s)).
Definition on_files (f : fs → fs) (s : state) : state :=
  mkState (mkWorld (f (files (wld s))) (ticks (wld s)) (calls (wld s))) (rtr s).
Definition set_ticks (n : nat) (s : state) : state :=
  mkState (mkWorld (files (wld s)) n (calls (wld s))) (rtr s).
Definition next_call (s : state) : state :=
  mkState (mkWorld (files (wld s)) (ticks (wld s)) (S (calls (wld s)))) (rtr s).

Abbreviation RM := (SE state file_error).

Section rotator.
Context `{SliceSort} (clock : nat → Time).
(** [os_fault n = Some k]: the call number [n] fails, a write after [k] bytes. *)
Context (os_fault : nat → option nat).

(** One operating-system call: a fault, or the given outcome. *)
Definition os_call {A} (c : SE state errno A) : RM A := λ s,
  match os_fault (calls (wld s)) with
  | Some _ => (next_call s, Err (os_error EIO))
  | None => map_err os_error c (next_call s)
  end.

Definition MkdirAll : RM unit := os_call (mret tt).
Definition Lstat (p : string) : RM node := os_call (λ s,
  match files (wld s) !! p with Some n => (s, Ok n) | None => (s, Err ENOENT) end).
Definition Stat (p : string) : RM string := os_call (λ s,
  match follow max_links (files (wld s)) p with inl q => (s, Ok q) | inr e => (s, Err e) end).
Definition Remove (p : string) : RM unit := os_call (λ s,
  match files (wld s) !! p with
  | Some _ => (on_files (delete p) s, Ok tt)
  | None => (s, Err ENOENT)
  end).
Definition OpenAppend (p : string) : RM string := Stat p.
Definition OpenExclusive (p : string) : RM string := os_call (λ s,
  match files (wld s) !! p with
  | Some _ => (s, Err EEXIST)
  | None => (on_files <[p := Regular ""]> s, Ok p)
  end).

Definition append_bytes (p data : string) (s : state) : state :=
  on_files (alter (λ n, match n with
                        | Regular old => Regular (old +:+ data)
                        | Symlink q => Symlink q
                        end) p) s.

(** [r.file.Write(data)]: the bytes written, also on error. *)
Definition file_Write (p data : string) : SE state (Z * file_error) Z := λ s,
  match os_fault (calls (wld s)) with
  | Some k =>
      let part := stake k data in
      (append_bytes p part (next_call s), Err (strlen part, os_error EIO))
  | None => (append_bytes p data (next_call s), Ok (strlen data))
  end.

Definition Now : RM Time := λ s, (set_ticks (S (ticks (wld s))) s, Ok (clock (ticks (wld s)))).

(** A call on [r.rot]. *)
Definition on_rot {A} (c : fs → DM A) : RM A := λ s,
  let '(d, r) := c (files (wld s)) (rot (rtr s)) in (on_rtr (set_rot d) s, r).

Definition active : RM string := s ← get_store; mret (ActiveFile (rot (rtr s))).

Definition dirMode (r : Rotator) : Z :=
  let mode := 448 in
  let mode := if 0 <? Z.land (permissions r) 56 then Z.lor mode 40 else mode in
  if 0 <? Z.land (permissions r) 7 then Z.lor mode 5 else mode.

(** On failure [os.OpenFile] returns a nil file, which is stored. *)
Definition appendToFile : RM unit :=
  p ← active;
  modify (on_rtr (set_file None)) ≫= λ _,
  q ← map_err (Errorf "failed to append to existing file") (OpenAppend p);
  modify (on_rtr (set_file (Some q))).

Definition openFile : RM unit :=
  map_err (Errorf "failed to make directories for new file") MkdirAll ≫= λ _,
  p ← active;
  modify (on_rtr (set_file None)) ≫= λ _,
  q ← map_err (Errorf "failed to open new file") (OpenExclusive p);
  modify (on_rtr (set_file (Some q))).

Definition closeFile : RM unit := λ s,
  match file (rtr s) with
  | None => (s, Ok tt)
  | Some _ =>
      let '(s', r) := os_call (mret tt) s in
      map_err (Errorf "failed to close active file") (lift r) (on_rtr (set_file None) s')
  end.

(** The loop over the triggers: stops at the first that fires. *)
Fixpoint fire (ts : list trigger) (dataLen : Z) (ticks : nat)
  : res file_error (list trigger * rotateReason * nat) :=
  match ts with
  | [] => Ok ([], rotateReasonNoRotate, ticks)
  | t :: ts' =>
      '(t', reason, ticks') ← TriggerRotation clock t dataLen ticks;
      if bool_decide (reason = rotateReasonNoRotate) then
        '(ts'', reason', ticks'') ← fire ts' dataLen ticks';
        Ok (t' :: ts'', reason', ticks'')
      else Ok (t' :: ts', reason, ticks')
  end.

Definition isRotationTriggered (dataLen : Z) : RM (rotateReason * Time) :=
  s ← get_store;
  '(ts, reason, n) ← lift (fire (triggers (rtr s)) dataLen (ticks (wld s)));
  modify (λ s, set_ticks n (on_rtr (set_triggers ts) s)) ≫= λ _,
  if bool_decide (reason = rotateReasonNoRotate) then mret (rotateReasonNoRotate, zeroTime)
  else t ← Now; mret (reason, t).

Fixpoint purge_loop (names : list string) : RM unit :=
  match names with
  | [] => mret tt
  | name :: names' =>
      stat ← attempt (Stat name);
      match stat with
      | inl _ =>
          map_err (Errorf "failed to delete during rotation") (Remove name) ≫= λ _,
          purge_loop names'
      | inr (os_error ENOENT) => mret tt
      | inr e => fail (Errorf "failed during rotation" e)
      end
  end.

Definition purge : RM unit :=
  rotatedFiles ← on_rot RotatedFiles;
  s ← get_store;
  let count := Z.of_nat (length rotatedFiles) in
  if count <=? maxBackups (rtr s) then mret tt
  else
    let purgeUntil := count - maxBackups (rtr s) in
    purge_loop (take (Z.to_nat purgeUntil) rotatedFiles).

Definition rotateWithTime (reason : rotateReason) (rotationTime : Time) : RM unit :=
  map_err (Errorf "error file closing current file") closeFile ≫= λ _,
  map_err (Errorf "failed to rotate backups") (on_rot (λ f, d_Rotate f rotationTime)) ≫= λ _,
  purge.

Definition rotate (reason : rotateReason) : RM unit :=
  t ← Now; rotateWithTime reason t.

(** Rotation of an existing active file, then purging, as [openNew] does it. *)
Definition openNew_rotate (t : Time) : RM unit :=
  map_err (Errorf "failed to rotate backups") (on_rot (λ f, d_Rotate f t)) ≫= λ _,
  map_err (Errorf "failed to purge unnecessary rotated files") purge.

Definition openNew : RM unit :=
  map_err (Errorf "failed to make directories for new file") MkdirAll ≫= λ _,
  p ← active;
  stat ← attempt (Lstat p);
  match stat with
  | inr _ => openFile
  | inl stat =>
      let isSymlink := match stat with Symlink _ => true | Regular _ => false end in
      '(reason, t) ← isRotationTriggered 0;
      if bool_decide (reason = rotateReasonNoRotate) then
        if (isSymlink : bool)
        then t' ← Now; openNew_rotate t' ≫= λ _, openFile
        else appendToFile
      else openNew_rotate t ≫= λ _, openFile
  end.

(** The error of [Write] carries the number of bytes written.  A write on a nil
    file is the error [os.ErrInvalid]. *)
Definition Write (data : string) : SE state (Z * file_error) Z :=
  s ← get_store;
  let dataLen := strlen data in
  if maxSizeBytes (rtr s) <? dataLen
  then fail (0, errors_New "data size is greater than the max file size")
  else
    (match file (rtr s) with
     | None =>
         map_err (λ e, (0, Errorf "failed to open new log file for writing" e)) openNew
     | Some _ =>
         '(reason, t) ← map_err (λ e, (0, e)) (isRotationTriggered dataLen);
         if bool_decide (reason = rotateReasonNoRotate) then mret tt
         else
           map_err (λ e, (0, Errorf "error file rotating files" e)) (rotateWithTime reason t)
             ≫= λ _,
           map_err (λ e, (0, Errorf "failed to open existing log file for writing" e)) openFile
     end) ≫= λ _,
    s' ← get_store;
    match file (rtr s') with
    | None => fail (0, Errorf "failed to write to file" (os_error EINVAL))
    | Some p => map_err (λ ne, (ne.1, Errorf "failed to write to file" ne.2)) (file_Write p data)
    end.

Definition Sync : RM unit :=
  s ← get_store;
  match file (rtr s) with
  | None => mret tt
  | Some _ => os_call (mret tt)
  end.

Definition Rotate : RM unit := rotate rotateReasonManualTrigger.

Definition Close : RM unit := closeFile.

(** ** Construction *)
Inductive RotatorOption :=
| MaxSizeBytes (n : Z)
| Extension (ext : string)
| MaxBackups (n : Z)
| Permissions (m : Z)
| Interval (d : Z)
| RotateOnStartup (b : bool)
| RedirectStderr (redirect : bool).

Definition apply_option (r : Rotator) (o : RotatorOption) : Rotator :=
  let 'mkRotator d ts fn ext size backups every perm startup stderr fd := r in
  match o with
  | MaxSizeBytes n => mkRotator d ts fn ext n backups every perm startup stderr fd
  | Extension e => mkRotator d ts fn e size backups every perm startup stderr fd
  | MaxBackups n => mkRotator d ts fn ext size n every perm startup stderr fd
  | Permissions m => mkRotator d ts fn ext size backups every m startup stderr fd
  | Interval i => mkRotator d ts fn ext size backups i perm startup stderr fd
  | RotateOnStartup b => mkRotator d ts fn ext size backups every perm b stderr fd
  | RedirectStderr b => mkRotator d ts fn ext size backups every perm startup b fd
  end.

Definition no_dateRotator : dateRotator := mkDateRotator "" "" "" 0 0 0 ∅.

Definition default_rotator (filename : string) : Rotator :=
  mkRotator no_dateRotator [] filename "ndjson" (10 * 1024 * 1024) 7 0 384 true false None.

Definition NewFileRotator (w : world) (filename : string) (options : list RotatorOption)
  : res file_error state :=
  let r := foldl apply_option (default_rotator filename) options in
  if maxSizeBytes r =? 0
  then Err (errors_New "file rotator max file size must be greater than 0")
  else if MaxBackupsLimit <? maxBackups r
  then Err (errors_New "file rotator max backups is greater than the limit")
  else if ModePerm <? permissions r
  then Err (errors_New "file rotator permissions mask is invalid")
  else if negb (interval r =? 0) && (interval r <? time_Second)
  then Err (errors_New "the minimum time interval for log rotation is 1 second")
  else
    d ← newDateRotater (files w) (clock (ticks w)) filename (extension r);
    let s := mkState (mkWorld (files w) (S (ticks w)) (calls w)) (set_rot d r) in
    let '(s, st) := Stat (ActiveFile d) s in
    let shouldRotateOnStart :=
      match st with
      | Err (os_error ENOENT) => false
      | _ => rotateOnStartup r
      end in
    let '(ts, n) := newTriggers clock shouldRotateOnStart (interval r) (maxSizeBytes r)
                      (ticks (wld s)) in
    Ok (set_ticks n (on_rtr (set_triggers ts) s)).

End rotator.
