(* ===== verification/RotatorFacts.v ===== *)
(** * Properties of the file rotator *)
From S2P Require Import Prelude GoStrings GoTime GoFS Trigger Rotator.

Open Scope string_scope.
Open Scope Z_scope.

(** ** Order of log files *)

(** The order of a name, computed without the cache. *)
Definition order_of (d : dateRotator) (x : string) : res file_error logOrder :=
  (OrderLog x (set_cache ∅ d)).2.

Definition cache_ok (d : dateRotator) : Prop :=
  ∀ x o, logOrderCache d !! x = Some o → order_of d x = Ok o.

(** The names the rotator lists as its own: prefix, any text, extension. *)
Definition log_path (d : dateRotator) (x : string) : Prop :=
  ∃ u, lacks "/" u = true ∧ x = filenamePrefix d +:+ u +:+ d_extension d.

Record date_ok (d : dateRotator) : Prop := {
  ok_prefix : meta_free (filenamePrefix d) = true;
  ok_ext : meta_free (d_extension d) = true;
  ok_ext_sep : lacks "/" (d_extension d) = true;
  ok_prefixLen : prefixLen d = strlen (filenamePrefix d);
  ok_filenameLen : filenameLen d = strlen (filenamePrefix d) + 8;
  ok_extensionLen : extensionLen d = strlen (d_extension d);
  ok_current : log_path d (currentFilename d);
  ok_cache : cache_ok d
}.

Lemma set_cache_set_cache c c' d : set_cache c (set_cache c' d) = set_cache c d.
Proof. done. Qed.

Lemma set_cache_same d : set_cache (logOrderCache d) d = d.
Proof. by destruct d. Qed.

Lemma OrderLog_no_cache x c d :
  c !! x = None →
  ∃ c', OrderLog x (set_cache c d) = (set_cache c' d, order_of d x) ∧
    (c' = c ∨ ∃ o, order_of d x = Ok o ∧ c' = <[x := o]> c).
Proof.
  intros Hc. unfold order_of, OrderLog, get_store, mbind, SE_bind, modify, lift, mret, SE_ret.
  simpl. rewrite Hc, lookup_empty.
  destruct (slice x (prefixLen d) (filenameLen d)) as [text|e|p|]; simpl; eauto.
  destruct (Parse text) as [t|]; simpl; eauto.
  change (isFilenameWithIndex (set_cache ∅ d) x) with (isFilenameWithIndex d x).
  change (isFilenameWithIndex (set_cache c d) x) with (isFilenameWithIndex d x).
  change (filenameIndex (set_cache c d) x) with (filenameIndex d x).
  change (filenameIndex (set_cache ∅ d) x) with (filenameIndex d x).
  destruct (isFilenameWithIndex d x); simpl.
  - destruct (filenameIndex d x) as [[i [err|]]|e|p|]; simpl; eauto.
    eexists. split; [done|]. right. eauto.
  - eexists. split; [done|]. right. eauto.
Qed.

Lemma OrderLog_spec x d :
  cache_ok d →
  ∃ c, OrderLog x d = (set_cache c d, order_of d x) ∧ cache_ok (set_cache c d).
Proof.
  intros Hok. destruct (logOrderCache d !! x) as [o|] eqn:Hc.
  - exists (logOrderCache d). rewrite set_cache_same. split; [|done].
    rewrite (Hok x o Hc). unfold OrderLog, get_store, mbind, SE_bind. by rewrite Hc.
  - destruct (OrderLog_no_cache x _ d Hc) as (c' & He & Hc').
    rewrite set_cache_same in He. exists c'. split; [done|].
    destruct Hc' as [->|(o & Ho & ->)]; [by rewrite set_cache_same|].
    intros y oy. simpl. destruct (decide (x = y)) as [->|].
    + rewrite lookup_insert_eq. intros [= <-]. done.
    + rewrite lookup_insert_ne by done. apply Hok.
Qed.

Lemma orders_spec l d :
  cache_ok d → Forall (λ x, ∃ o, order_of d x = Ok o) l →
  ∃ c os, orders l d = (set_cache c d, Ok os) ∧ cache_ok (set_cache c d) ∧
    os.*1 = l ∧ Forall (λ p, order_of d p.1 = Ok p.2) os.
Proof.
  intros Hok Hl. revert d Hok Hl. induction l as [|x l IH]; intros d Hok Hl.
  { exists (logOrderCache d), []. by rewrite set_cache_same. }
  inversion Hl as [|? ? [o Ho] Hl']; subst. simpl.
  destruct (OrderLog_spec x d Hok) as (c & He & Hc).
  destruct (IH (set_cache c d) Hc Hl') as (c' & os & He' & Hc' & Hfst & Hos).
  exists c', ((x, o) :: os). unfold mbind, SE_bind. rewrite He, Ho, He'.
  split; [done|]. split; [done|]. split; [by rewrite fmap_cons, Hfst|]. by constructor.
Qed.

Lemma logAfter_neg a b :
  logAfter a b = false ↔
  unix (datetime b) < unix (datetime a) ∨
  (unix (datetime a) = unix (datetime b) ∧ index b ≤ index a).
Proof.
  unfold logAfter, Equal, After.
  destruct (Z.eqb_spec (unix (datetime a)) (unix (datetime b))).
  - rewrite Z.ltb_ge. lia.
  - rewrite negb_false_iff, Z.ltb_lt. lia.
Qed.

Lemma logAfter_neg_trans a b c :
  logAfter a b = false → logAfter b c = false → logAfter a c = false.
Proof. rewrite !logAfter_neg. lia. Qed.

Lemma logAfter_asym a b : logAfter a b = true → logAfter b a = false.
Proof.
  intros H. destruct (logAfter b a) eqn:E; [|done]. revert H E.
  unfold logAfter, Equal, After. rewrite (Z.eqb_sym (unix (datetime b))).
  destruct (Z.eqb_spec (unix (datetime a)) (unix (datetime b))); rewrite ?negb_true_iff; lia.
Qed.

(** [x] is not newer than [y]. *)
Definition not_newer (d : dateRotator) (x y : string) : Prop :=
  ∀ o o', order_of d x = Ok o → order_of d y = Ok o' → logAfter o' o = false.

Lemma SortModTimeLogs_spec `{SliceSort} l d :
  cache_ok d → Forall (λ x, ∃ o, order_of d x = Ok o) l →
  ∃ c l', SortModTimeLogs l d = (set_cache c d, Ok l') ∧ cache_ok (set_cache c d) ∧
    l' ≡ₚ l ∧ StronglySorted (not_newer d) l'.
Proof.
  intros Hok Hl. destruct l as [|x [|y l]].
  { exists (logOrderCache d), []. rewrite set_cache_same. split_and!; try done. constructor. }
  { exists (logOrderCache d), [x]. rewrite set_cache_same. split_and!; try done. by repeat constructor. }
  destruct (orders_spec _ d Hok Hl) as (c & os & He & Hc & Hfst & Hos).
  eexists c, _. unfold SortModTimeLogs, mbind, SE_bind. rewrite He.
  split; [done|]. split; [done|]. split.
  { rewrite <- Hfst. apply fmap_Permutation, sort_slice_perm. }
  assert (Hs : StronglySorted (λ p q : string * logOrder, logAfter q.2 p.2 = false)
    (sort_slice (λ p q : string * logOrder, logAfter p.2 q.2) os)).
  { apply sort_slice_sorted; intros; [by eapply logAfter_neg_trans|by apply logAfter_asym]. }
  assert (Hos' : Forall (λ p, order_of d p.1 = Ok p.2)
    (sort_slice (λ p q : string * logOrder, logAfter p.2 q.2) os))
    by by rewrite sort_slice_perm.
  clear -Hs Hos'. induction Hs as [|p ps Hs IH Hp]; simpl; [constructor|].
  apply Forall_cons in Hos' as [Hpo Hpso]. constructor; [by apply IH|].
  apply Forall_fmap. rewrite Forall_forall in *. intros q Hq o o' Ho Ho'.
  specialize (Hp q Hq). specialize (Hpso q Hq). simpl in *. congruence.
Qed.

(** ** Names of a given day *)
Lemma lacks_zeros c n : Ascii.eqb "0" c = false → lacks c (zeros n) = true.
Proof. intros Hc. induction n; simpl; [done|]. by rewrite Hc. Qed.

Lemma lacks_sep_appendInt x k : 0 ≤ x → lacks "/" (appendInt x k) = true.
Proof.
  intros Hx. unfold appendInt. destruct (Z.ltb_spec x 0); [lia|]. simpl.
  rewrite lacks_sapp, lacks_zeros by done. apply lacks_Itoa; [done|lia].
Qed.

Lemma lacks_sep_Itoa n : lacks "/" (Itoa n) = true.
Proof.
  unfold Itoa. destruct (Z.ltb_spec n 0).
  - rewrite lacks_sapp. apply lacks_dec_digits; [done|lia].
  - apply lacks_dec_digits; [done|lia].
Qed.

Lemma lacks_sep_Format t : 0 ≤ Year t → lacks "/" (Format t) = true.
Proof.
  intros Hy. destruct (Month_Day_range t) as [Hm Hd]. unfold Format.
  rewrite !lacks_sapp, !lacks_sep_appendInt; [done|lia..].
Qed.

(** The instant a file name of the day of [t] stands for. *)
Definition midnight (t : Time) : Time := mkTime (86400 * day_number t) 0.

Definition valid_date (t : Time) : Prop := 0 ≤ Year t ≤ 9999.

Lemma strlen_Format t : valid_date t → strlen (Format t) = 8.
Proof. intros Hy. unfold strlen. by rewrite length_Format. Qed.

Lemma order_of_dated d t u :
  date_ok d → valid_date t →
  ∃ i, order_of d (filenamePrefix d +:+ Format t +:+ u +:+ d_extension d)
         = Ok (mkOrder i (midnight t)) ∧
    in_i64 i ∧ (u = "" → i = 0) ∧ ∀ n, in_i64 n → u = "-" +:+ Itoa n → i = n.
Proof.
  intros Hd Hy. unfold order_of, OrderLog, get_store, mbind, SE_bind, modify, lift, mret, SE_ret.
  simpl. rewrite (ok_prefixLen d Hd), (ok_filenameLen d Hd), <- (strlen_Format t Hy), slice_middle.
  rewrite (Parse_Format t Hy), lookup_empty. cbv beta iota.
  change (isFilenameWithIndex (set_cache ∅ d)) with (isFilenameWithIndex d).
  change (filenameIndex (set_cache ∅ d)) with (filenameIndex d).
  unfold isFilenameWithIndex, filenameIndex.
  rewrite (ok_filenameLen d Hd), (ok_extensionLen d Hd), !strlen_app, (strlen_Format t Hy).
  pose proof (strlen_nonneg u) as Hu.
  destruct (Z.ltb_spec (strlen (filenamePrefix d) + 8 + strlen (d_extension d))
    (strlen (filenamePrefix d) + (8 + (strlen u + strlen (d_extension d))))) as [Hlt|Hlt].
  - destruct u as [|c u]; [change (strlen "") with 0 in *; lia|].
    set (pre := filenamePrefix d +:+ Format t +:+ String c "").
    assert (Hpre : filenamePrefix d +:+ Format t +:+ String c u +:+ d_extension d
                   = pre +:+ u +:+ d_extension d) by (unfold pre; by rewrite !sapp_assoc).
    assert (Hlen : strlen pre = strlen (filenamePrefix d) + 8 + 1).
    { unfold pre. rewrite !strlen_app, (strlen_Format t Hy). change (strlen (String c "")) with 1. lia. }
    rewrite Hpre, <- Hlen.
    replace (strlen (filenamePrefix d) + (8 + (strlen (String c u) + strlen (d_extension d)))
             - strlen (d_extension d)) with (strlen pre + strlen u)
      by (rewrite Hlen; change (String c u) with (String c "" +:+ u); rewrite strlen_app;
          change (strlen (String c "")) with 1; lia).
    rewrite slice_middle. simpl.
    destruct (Z.ltb_spec 0 (strlen u)).
    + destruct (Atoi u) as [i err] eqn:Ha. exists i. split; [by destruct err|].
      pose proof (Atoi_range u) as Hr. rewrite Ha in Hr. split; [done|]. split; [done|].
      intros n Hn Heq. injection Heq as -> ->. rewrite Atoi_Itoa_signed in Ha by done. congruence.
    + eexists. split; [done|]. split; [done|]. split; [done|]. intros n Hn Heq. injection Heq as -> ->.
      exfalso. revert H. unfold Itoa. destruct (Z.ltb_spec n 0).
      * simpl. unfold strlen. simpl. lia.
      * destruct (dec_digits_head 20 n) as (? & ? & ? & ->); [done|lia|]. unfold strlen. simpl. lia.
  - destruct u as [|c u]; [|unfold strlen in *; simpl in *; lia].
    eexists. split; [done|]. split; [done|]. split; [done|]. intros n Hn Heq. discriminate Heq.
Qed.

Lemma order_of_set_current n d x : order_of (set_current n d) x = order_of d x.
Proof.
  unfold order_of, OrderLog, get_store, mbind, SE_bind, modify, lift, mret, SE_ret. simpl.
  destruct (slice x (prefixLen d) (filenameLen d)) as [text|e|p|]; simpl; try done.
  destruct (Parse text) as [t|]; simpl; try done.
  change (isFilenameWithIndex (set_cache ∅ (set_current n d)) x) with (isFilenameWithIndex d x).
  change (isFilenameWithIndex (set_cache ∅ d) x) with (isFilenameWithIndex d x).
  change (filenameIndex (set_cache ∅ (set_current n d)) x) with (filenameIndex d x).
  change (filenameIndex (set_cache ∅ d) x) with (filenameIndex d x).
  destruct (isFilenameWithIndex d x); simpl; [|done].
  by destruct (filenameIndex d x) as [[i [err|]]|e|p|].
Qed.

(** The same names are log files of both. *)
Definition same_names (d d' : dateRotator) : Prop :=
  filenamePrefix d' = filenamePrefix d ∧ d_extension d' = d_extension d ∧
  ∀ x, order_of d' x = order_of d x.

Lemma date_ok_set_cache c d : date_ok d → cache_ok (set_cache c d) → date_ok (set_cache c d).
Proof. intros [] ?. by constructor. Qed.

Lemma date_ok_set_current n d : date_ok d → log_path d n → date_ok (set_current n d).
Proof.
  intros [] Hn. constructor; try done. intros x o Hx. rewrite order_of_set_current. eauto.
Qed.

Lemma same_names_set c n d : same_names d (set_current n (set_cache c d)).
Proof. split_and!; try done. intros x. by rewrite order_of_set_current. Qed.

Lemma cache_ok_empty d : cache_ok (set_cache ∅ d).
Proof. intros x o. simpl. by rewrite lookup_empty. Qed.

Lemma StronglySorted_last {A} (R : A → A → Prop) l z x :
  StronglySorted R l → last l = Some z → x ∈ l → x = z ∨ R x z.
Proof.
  intros Hs. induction Hs as [|y l Hs IH Hy]; [done|].
  rewrite last_cons. intros Hz [->|Hx]%elem_of_cons.
  - destruct (last l) eqn:Hl; [|left; congruence].
    injection Hz as ->. right. rewrite Forall_forall in Hy. by apply Hy, last_Some_elem_of.
  - destruct (last l) eqn:Hl; [by apply IH|]. apply last_None in Hl as ->. by apply elem_of_nil in Hx.
Qed.

Lemma log_path_dated d t u :
  date_ok d → valid_date t → lacks "/" u = true →
  log_path d (filenamePrefix d +:+ Format t +:+ u +:+ d_extension d).
Proof.
  intros Hd [Hy _] Hu. exists (Format t +:+ u). rewrite lacks_sapp, lacks_sep_Format, Hu by done.
  split; [done|]. by rewrite sapp_assoc.
Qed.

(** No file of the day of [t] has an index above [k]. *)
Definition day_indexes (d : dateRotator) (f : fs) (t : Time) (k : Z) : Prop :=
  ∀ u i, lacks "/" u = true →
    is_Some (f !! (filenamePrefix d +:+ Format t +:+ u +:+ d_extension d)) →
    order_of d (filenamePrefix d +:+ Format t +:+ u +:+ d_extension d)
      = Ok (mkOrder i (midnight t)) →
    i ≤ k.

Lemma meta_free_Format t : 0 ≤ Year t → meta_free (Format t) = true.
Proof.
  intros Hy. destruct (Month_Day_range t) as [Hm Hd]. unfold Format, meta_free.
  assert (Ha : ∀ c x k, char_digit c = None → 0 ≤ x → lacks c (appendInt x k) = true).
  { intros c x k Hc Hx. unfold appendInt. destruct (Z.ltb_spec x 0); [lia|]. simpl.
    rewrite lacks_sapp, lacks_zeros, lacks_Itoa; try done; [lia|].
    destruct (Ascii.eqb_spec "0" c) as [<-|]; done. }
  rewrite !lacks_sapp, !Ha; try done; lia.
Qed.

(** The files of a day, as [Glob] lists them. *)
Lemma Glob_dated f t d :
  date_ok d → valid_date t →
  ∃ l, Glob f ((filenamePrefix d +:+ Format t) +:+ "*" +:+ d_extension d) = Some l ∧
    ∀ x, x ∈ l ↔ is_Some (f !! x) ∧
      ∃ u, lacks "/" u = true ∧ x = filenamePrefix d +:+ Format t +:+ u +:+ d_extension d.
Proof.
  intros Hd Hy. set (p := filenamePrefix d +:+ Format t).
  assert (Hpf : meta_free p = true).
  { unfold p. rewrite meta_free_sapp, (ok_prefix d Hd), meta_free_Format by apply Hy. done. }
  destruct (Glob_star f p (d_extension d) Hpf (ok_ext d Hd) (ok_ext_sep d Hd)) as (l & Hg & _ & Hl).
  exists l. split; [done|]. intros x. rewrite Hl. unfold p.
  split; intros [? (u & ? & ->)]; (split; [done|]); exists u; by rewrite sapp_assoc.
Qed.

(** What [d_Rotate] installs when its new name is [n]. *)
Lemma date_ok_renamed d c t u :
  date_ok d → valid_date t → lacks "/" u = true → cache_ok (set_cache c d) →
  let n := filenamePrefix d +:+ Format t +:+ u +:+ d_extension d in
  date_ok (set_current n (set_cache c d)) ∧ same_names d (set_current n (set_cache c d)).
Proof.
  intros Hd Hy Hu Hc n. split; [|apply same_names_set].
  apply date_ok_set_current; [by apply date_ok_set_cache|]. by apply (log_path_dated d).
Qed.

Lemma d_Rotate_eq `{SliceSort} f t d :
  d_Rotate f t d =
  match Glob f ((filenamePrefix d +:+ Format t) +:+ "*" +:+ d_extension d) with
  | None => fail (Errorf "failed to get possible files" ErrBadPattern) (set_cache ∅ d)
  | Some [] => (set_current ((filenamePrefix d +:+ Format t) +:+ d_extension d) (set_cache ∅ d), Ok tt)
  | Some files =>
      (sorted ← SortModTimeLogs files;
       order ← OrderLog (default "" (last sorted));
       modify (set_current ((filenamePrefix d +:+ Format t) +:+ "-" +:+
                 Itoa (wrap64 (index order + 1)) +:+ d_extension d))) (set_cache ∅ d)
  end.
Proof.
  unfold d_Rotate, mbind, SE_bind, modify, get_store.
  change (filenamePrefix (set_cache ∅ d)) with (filenamePrefix d).
  change (d_extension (set_cache ∅ d)) with (d_extension d).
  by destruct (Glob f _) as [[|x l]|].
Qed.

Lemma d_Rotate_spec `{SliceSort} f t d k :
  date_ok d → valid_date t → 0 ≤ k < two63 - 1 → day_indexes d f t k →
  ∃ d' i, d_Rotate f t d = (d', Ok tt) ∧ date_ok d' ∧ same_names d d' ∧
    f !! currentFilename d' = None ∧
    order_of d' (currentFilename d') = Ok (mkOrder i (midnight t)) ∧ i ≤ k + 1 ∧
    (∀ u j, lacks "/" u = true →
       is_Some (f !! (filenamePrefix d +:+ Format t +:+ u +:+ d_extension d)) →
       order_of d (filenamePrefix d +:+ Format t +:+ u +:+ d_extension d)
         = Ok (mkOrder j (midnight t)) → j < i).
Proof.
  intros Hd Hy Hk Hidx. destruct (Glob_dated f t d Hd Hy) as (l & Hg & Hl).
  rewrite d_Rotate_eq, Hg. destruct l as [|x0 l0].
  - destruct (order_of_dated d t "" Hd Hy) as (i & Ho & _ & Hi & _).
    destruct (date_ok_renamed d ∅ t "" Hd Hy eq_refl (cache_ok_empty d)) as [Hok Hsame].
    rewrite sapp_assoc. eexists _, i. split; [done|]. split; [exact Hok|].
    split; [exact Hsame|]. simpl. split.
    { destruct (f !! _) eqn:Hf; [|done]. exfalso.
      eapply not_elem_of_nil, Hl. split; [by rewrite Hf|]. by exists "". }
    split; [by rewrite order_of_set_current|]. split; [rewrite Hi by done; lia|].
    intros u j Hu Hf _. exfalso. eapply not_elem_of_nil, Hl. eauto.
  - assert (Hord : Forall (λ x, ∃ o, order_of d x = Ok o) (x0 :: l0)).
    { rewrite Forall_forall. intros x [_ (u & _ & ->)]%Hl.
      destruct (order_of_dated d t u Hd Hy) as (i & Ho & _). eauto. }
    destruct (SortModTimeLogs_spec (x0 :: l0) (set_cache ∅ d) (cache_ok_empty d) Hord)
      as (c & l' & Hs & Hc & Hperm & Hsorted).
    unfold mbind, SE_bind. rewrite Hs. rewrite set_cache_set_cache in *.
    destruct (last l') as [z|] eqn:Hlast.
    2: { apply last_None in Hlast as ->. by apply Permutation_nil_l in Hperm. }
    assert (Hz : z ∈ x0 :: l0) by (rewrite <- Hperm; by apply last_Some_elem_of).
    pose proof Hz as [Hfz (uz & Huz & Hzeq)]%Hl.
    destruct (order_of_dated d t uz Hd Hy) as (iz & Hoz & Hriz & _). rewrite <- Hzeq in Hoz.
    destruct (OrderLog_spec z (set_cache c d) Hc) as (c' & He & Hc').
    change (default "" (Some z)) with z.
    rewrite He. change (order_of (set_cache c d) z) with (order_of d z). rewrite Hoz.
    rewrite set_cache_set_cache in *. cbn [index].
    assert (Hizk : iz ≤ k) by (apply (Hidx uz); [done|by rewrite <- Hzeq|by rewrite <- Hzeq]).
    assert (Hmax : ∀ u j, lacks "/" u = true →
       is_Some (f !! (filenamePrefix d +:+ Format t +:+ u +:+ d_extension d)) →
       order_of d (filenamePrefix d +:+ Format t +:+ u +:+ d_extension d)
         = Ok (mkOrder j (midnight t)) → j ≤ iz).
    { intros u j Hu Hf Hj.
      assert (Hin : filenamePrefix d +:+ Format t +:+ u +:+ d_extension d ∈ l')
        by (rewrite Hperm; apply Hl; eauto).
      destruct (StronglySorted_last _ _ _ _ Hsorted Hlast Hin) as [Heq|Hnn].
      - rewrite Heq in Hj. rewrite Hoz in Hj. injection Hj. lia.
      - specialize (Hnn _ _ Hj Hoz). apply logAfter_neg in Hnn. simpl in Hnn. lia. }
    assert (Hw : in_i64 (iz + 1)) by (unfold in_i64 in *; lia). rewrite (wrap64_small _ Hw).
    set (u := "-" +:+ Itoa (iz + 1)).
    assert (Hu : lacks "/" u = true) by apply lacks_sep_Itoa.
    destruct (order_of_dated d t u Hd Hy) as (i & Ho & _ & _ & Hi).
    rewrite (Hi _ Hw eq_refl) in Ho.
    destruct (date_ok_renamed d c' t u Hd Hy Hu Hc') as [Hok Hsame].
    assert (Hname : (filenamePrefix d +:+ Format t) +:+ "-" +:+ Itoa (iz + 1) +:+ d_extension d
      = filenamePrefix d +:+ Format t +:+ u +:+ d_extension d)
      by (unfold u; by rewrite !sapp_assoc).
    unfold modify. rewrite Hname. eexists _, (iz + 1). split; [done|]. split; [exact Hok|].
    split; [exact Hsame|]. simpl. split_and!.
    + destruct (f !! (filenamePrefix d +:+ Format t +:+ u +:+ d_extension d)) eqn:Hf; [|done].
      exfalso.
      assert (iz + 1 ≤ iz) by (apply (Hmax u); [done|by rewrite Hf|done]). lia.
    + by rewrite order_of_set_current.
    + lia.
    + intros u' j Hu' Hf Hj. specialize (Hmax u' j Hu' Hf Hj). lia.
Qed.

(** ** Listing of rotated files *)
Lemma without_spec x l :
  NoDup l → NoDup (without x l) ∧ ∀ y, y ∈ without x l ↔ y ∈ l ∧ y ≠ x.
Proof.
  intros Hnd. unfold without. destruct (list_find (eq x) l) as [[i y]|] eqn:Hf.
  - apply list_find_Some in Hf as (Hi & <- & _).
    rewrite <- delete_take_drop. pose proof (delete_Permutation l i x Hi) as Hp.
    rewrite Hp in Hnd. apply NoDup_cons in Hnd as [Hnx Hnd]. split; [done|].
    intros y. assert (Hy : y ∈ l ↔ y ∈ x :: delete i l) by by rewrite <- Hp.
    rewrite Hy, elem_of_cons. split; [|naive_solver]. clear Hy.
    intros Hy. split; [by right|]. by intros ->.
  - apply list_find_None in Hf. split; [done|]. intros y. split; [|naive_solver].
    intros Hy. split; [done|]. intros ->. rewrite Forall_forall in Hf. by apply (Hf x).
Qed.

(** Every log file is a regular file within the size bound, its name has an
    order, and its index is at most [k]. *)
Definition logs_ok (k m : Z) (d : dateRotator) (f : fs) : Prop :=
  ∀ x n, log_path d x → f !! x = Some n →
    ∃ data o, n = Regular data ∧ strlen data ≤ 2 * m ∧ order_of d x = Ok o ∧ index o ≤ k.

(** A rotated file: a log file that is not the active one. *)
Definition rotated (d : dateRotator) (f : fs) (x : string) : Prop :=
  log_path d x ∧ is_Some (f !! x) ∧ x ≠ currentFilename d.

Definition backups_le (d : dateRotator) (f : fs) (n : Z) : Prop :=
  ∀ l, NoDup l → Forall (rotated d f) l → Z.of_nat (length l) ≤ n.

Lemma RotatedFiles_spec `{SliceSort} f d k m :
  date_ok d → logs_ok k m d f →
  ∃ c l, RotatedFiles f d = (set_cache c d, Ok l) ∧ cache_ok (set_cache c d) ∧
    NoDup l ∧ (∀ x, x ∈ l ↔ rotated d f x) ∧ StronglySorted (not_newer d) l.
Proof.
  intros Hd Hlogs.
  destruct (Glob_star f (filenamePrefix d) (d_extension d) (ok_prefix d Hd) (ok_ext d Hd)
    (ok_ext_sep d Hd)) as (g & Hg & Hnd & Hin).
  destruct (without_spec (currentFilename d) g Hnd) as [Hnd' Hin'].
  assert (Hrot : ∀ x, x ∈ without (currentFilename d) g ↔ rotated d f x).
  { intros x. rewrite Hin', Hin. unfold rotated, log_path. naive_solver. }
  destruct (SortModTimeLogs_spec (without (currentFilename d) g) d (ok_cache d Hd))
    as (c & l & Hs & Hc & Hp & Hsorted).
  { rewrite Forall_forall. intros x [Hlp [[n Hn] _]]%Hrot.
    destruct (Hlogs x n Hlp Hn) as (? & o & _ & _ & Ho & _). eauto. }
  exists c, l. unfold RotatedFiles, get_store, mbind, SE_bind.
  rewrite Hg. change (default [] (Some g)) with g. unfold ActiveFile. rewrite Hs.
  split; [done|]. split; [done|]. split; [by rewrite Hp|]. split; [|done].
  intros x. by rewrite Hp.
Qed.
