(* ===== verification/RotatorRun.v ===== *)
(** * Runs of the file rotator without operating-system faults

    Total correctness of [Write] and [Rotate] from every state of an invariant
    that [NewFileRotator] establishes: the writes succeed, no file grows beyond
    twice the maximum size, at most [maxBackups] rotated files remain, and the
    files purged are the oldest. *)
From S2P Require Import Prelude GoStrings GoTime GoFS Trigger Rotator RotatorFacts.

Open Scope string_scope.
Open Scope Z_scope.

Definition no_fault (n : nat) : option nat := None.

(** The state holds exactly this rotator and these files. *)
Definition St (r : Rotator) (f : fs) (s : state) : Prop := rtr s = r ∧ files (wld s) = f.

(** Removal of several files. *)
Definition delete_all (l : list string) (f : fs) : fs := foldl (λ f x, delete x f) f l.

Lemma delete_all_lookup l f x :
  delete_all l f !! x = if decide (x ∈ l) then None else f !! x.
Proof.
  revert f. induction l as [|y l IH]; intros f; simpl; [done|]. rewrite IH.
  destruct (decide (x ∈ l)), (decide (x ∈ y :: l)); try done; try set_solver.
  - rewrite lookup_delete_None. set_solver.
  - rewrite lookup_delete_ne; set_solver.
Qed.

Section runs.
Context `{SliceSort} (clock : nat → Time).
Hypothesis clock_valid : ∀ n, valid_date (clock n).

Implicit Types (r : Rotator) (f : fs) (d : dateRotator).

(** ** Operating-system calls *)
Lemma MkdirAll_triple r f : triple (St r f) (MkdirAll no_fault) (λ _, St r f).
Proof. intros s Hs. by exists (next_call s), tt. Qed.

Lemma active_triple r f :
  triple (St r f) active (λ p s, p = currentFilename (rot r) ∧ St r f s).
Proof.
  intros s [Hr Hf]. exists s, (currentFilename (rot (rtr s))). split; [done|].
  split; [by rewrite Hr|done].
Qed.

Lemma Now_triple r f : triple (St r f) (Now clock) (λ t s, valid_date t ∧ St r f s).
Proof. intros s [Hr Hf]. eexists _, _. split; [done|]. split; [apply clock_valid|done]. Qed.

Lemma Lstat_triple r f p :
  triple (St r f) (attempt (Lstat no_fault p))
    (λ a s, St r f s ∧ match f !! p with Some n => a = inl n | None => ∃ e, a = inr e end).
Proof.
  intros s [Hr Hf]. unfold attempt, Lstat, os_call, map_err. simpl. rewrite Hf.
  destruct (f !! p); eexists _, _; (split; [done|]); (split; [done|]); eauto.
Qed.

Lemma Stat_triple r f p data :
  f !! p = Some (Regular data) → triple (St r f) (Stat no_fault p) (λ q s, q = p ∧ St r f s).
Proof.
  intros Hp s [Hr Hf]. exists (next_call s), p. split; [|done].
  unfold Stat, os_call, map_err. simpl. by rewrite Hf, Hp.
Qed.

Lemma Remove_triple r f p :
  is_Some (f !! p) → triple (St r f) (Remove no_fault p) (λ _, St r (delete p f)).
Proof.
  intros [n Hp] s [Hr Hf]. exists (on_files (delete p) (next_call s)), tt.
  unfold Remove, os_call, map_err. simpl. rewrite Hf, Hp. split; [done|].
  split; [done|]. simpl. by rewrite Hf.
Qed.

Lemma OpenExclusive_triple r f p :
  f !! p = None →
  triple (St r f) (OpenExclusive no_fault p) (λ q s, q = p ∧ St r (<[p := Regular ""]> f) s).
Proof.
  intros Hp s [Hr Hf]. eexists _, p.
  unfold OpenExclusive, os_call, map_err. simpl. rewrite Hf, Hp. split; [done|].
  split; [done|]. split; [done|]. simpl. by rewrite Hf.
Qed.

Lemma file_Write_triple r f p old data :
  f !! p = Some (Regular old) →
  triple (St r f) (file_Write no_fault p data)
    (λ n s, n = strlen data ∧ St r (<[p := Regular (old +:+ data)]> f) s).
Proof.
  intros Hp s [Hr Hf]. eexists _, (strlen data). split; [done|]. split; [done|].
  split; [done|]. unfold append_bytes, on_files. cbn [wld files next_call]. rewrite Hf.
  apply map_eq. intros q.
  destruct (decide (p = q)) as [<-|].
  - by rewrite lookup_alter_eq, Hp, lookup_insert_eq.
  - by rewrite lookup_alter_ne, lookup_insert_ne.
Qed.

Lemma closeFile_triple r f : triple (St r f) (closeFile no_fault) (λ _, St (set_file None r) f).
Proof.
  intros s [Hr Hf]. unfold closeFile. rewrite Hr. destruct (file r) eqn:Hfile.
  - eexists _, tt. split; [done|]. split; [|done]. simpl. by rewrite Hr.
  - exists s, tt. split; [done|]. split; [|done]. rewrite Hr. destruct r. simpl in *. by subst.
Qed.

Lemma on_rot_triple {A} (c : fs → DM A) r f d' a :
  c f (rot r) = (d', Ok a) →
  triple (St r f) (on_rot c) (λ b s, b = a ∧ St (set_rot d' r) f s).
Proof.
  intros Hc s [Hr Hf]. unfold on_rot. rewrite Hr, Hf, Hc. eexists _, a. split; [done|].
  split; [done|]. split; [|done]. simpl. by rewrite Hr.
Qed.

(** ** Purging *)
Lemma purge_loop_triple r f l :
  NoDup l → Forall (λ x, ∃ data, f !! x = Some (Regular data)) l →
  triple (St r f) (purge_loop no_fault l) (λ _, St r (delete_all l f)).
Proof.
  revert f. induction l as [|x l IH]; intros f Hnd Hl.
  { apply triple_ret. done. }
  apply NoDup_cons in Hnd as [Hx Hnd]. apply Forall_cons in Hl as [[data Hdata] Hl].
  cbn [purge_loop]. eapply triple_bind.
  { eapply triple_attempt, Stat_triple, Hdata. }
  intros a. apply triple_exists. intros q. apply triple_pure. intros Ha. subst a.
  apply triple_pure. intros _. eapply triple_bind.
  { apply triple_map_err, Remove_triple. eauto. }
  intros []. apply IH; [done|]. rewrite Forall_forall in *. intros y Hy.
  rewrite lookup_delete_ne by (intros ->; done). by apply Hl.
Qed.


(** [f'] is [f] without its oldest rotated files, of which at most [n] are left. *)
Record purged (d : dateRotator) (f f' : fs) (n : Z) : Prop := {
  purged_count : backups_le d f' n;
  purged_only : ∀ x, f' !! x = f !! x ∨ (rotated d f x ∧ f' !! x = None);
  purged_oldest : ∀ x y, rotated d f x → f' !! x = None → rotated d f' y → not_newer d x y;
  purged_none : backups_le d f n → f' = f
}.

Lemma purged_take d f l n :
  NoDup l → (∀ x, x ∈ l ↔ rotated d f x) → StronglySorted (not_newer d) l → 0 ≤ n →
  purged d f (delete_all (take (Z.to_nat (Z.of_nat (length l) - n)) l) f) n.
Proof.
  intros Hnd Hin Hs Hn. set (k := Z.to_nat (Z.of_nat (length l) - n)).
  pose proof (take_drop k l) as Hsplit.
  assert (Hnd' : NoDup (take k l ++ drop k l)%list) by by rewrite Hsplit.
  apply NoDup_app in Hnd' as (_ & Hdisj & _). rewrite <- Hsplit in Hs.
  assert (Hkept : ∀ x, rotated d (delete_all (take k l) f) x → x ∈ drop k l).
  { intros x (Hlp & [v Hv] & Hne). rewrite delete_all_lookup in Hv.
    destruct (decide (x ∈ take k l)) as [|Hnt]; [done|].
    assert (Hx : x ∈ (take k l ++ drop k l)%list) by (rewrite Hsplit; apply Hin; split_and!; eauto).
    apply elem_of_app in Hx as [|]; done. }
  assert (Hgone : ∀ x, rotated d f x → delete_all (take k l) f !! x = None → x ∈ take k l).
  { intros x (_ & [v Hv] & _) Hx. rewrite delete_all_lookup in Hx.
    destruct (decide (x ∈ take k l)); [done|congruence]. }
  split.
  - intros l0 Hnd0 Hl0. rewrite Forall_forall in Hl0.
    assert (Hsub : l0 ⊆+ drop k l) by (apply NoDup_submseteq; auto).
    apply submseteq_length in Hsub. rewrite length_drop in Hsub. lia.
  - intros x. rewrite delete_all_lookup. destruct (decide (x ∈ take k l)) as [Hx|]; [|by left].
    right. split; [|done]. apply Hin. rewrite <- Hsplit. apply elem_of_app. by left.
  - intros x y Hx Hnone Hy. eapply StronglySorted_app_1_elem_of; eauto.
  - intros Hle. assert (Hlen : Z.of_nat (length l) ≤ n).
    { apply Hle; [done|]. rewrite Forall_forall. intros x. apply Hin. }
    unfold k. replace (Z.to_nat (Z.of_nat (length l) - n)) with 0%nat by lia. done.
Qed.

Lemma purge_triple r f k m :
  date_ok (rot r) → logs_ok k m (rot r) f → 0 ≤ maxBackups r →
  triple (St r f) (purge no_fault)
    (λ _ s, ∃ c f', cache_ok (set_cache c (rot r)) ∧ purged (rot r) f f' (maxBackups r) ∧
       St (set_rot (set_cache c (rot r)) r) f' s).
Proof.
  intros Hd Hlogs Hb. destruct (RotatedFiles_spec f (rot r) k m Hd Hlogs)
    as (c & l & Hl & Hc & Hnd & Hin & Hs).
  pose proof (purged_take (rot r) f l (maxBackups r) Hnd Hin Hs Hb) as Hp.
  unfold purge. eapply triple_bind; [by apply on_rot_triple|]. intros a. apply triple_pure. intros ->.
  eapply triple_bind; [apply triple_get|]. intros s0 s1 [-> [Hr1 Hf1]].
  rewrite Hr1. cbn [set_rot maxBackups].
  destruct (Z.leb_spec (Z.of_nat (length l)) (maxBackups r)).
  - exists s1, tt. split; [done|]. exists c, f. split; [done|]. split; [|done].
    replace (Z.to_nat _) with 0%nat in Hp by lia. done.
  - destruct (purge_loop_triple (set_rot (set_cache c (rot r)) r) f
      (take (Z.to_nat (Z.of_nat (length l) - maxBackups r)) l)) with (s := s1)
      as (s2 & [] & He & Hst); [| |done|].
    + rewrite <- (take_drop (Z.to_nat (Z.of_nat (length l) - maxBackups r)) l) in Hnd.
      by apply NoDup_app in Hnd as (? & _ & _).
    + rewrite Forall_forall. intros x Hx.
      assert (Hxl : x ∈ l) by (by eapply subseteq_take in Hx).
      apply Hin in Hxl as (Hlp & [n Hn] & _). destruct (Hlogs x n Hlp Hn) as (data & ? & -> & _). eauto.
    + exists s2, tt. split; [done|]. eauto 10.
Qed.

(** ** Triggers *)
Definition pre_trigger (t : trigger) : Prop :=
  match t with
  | initTrigger _ => True
  | intervalTrigger i _ => time_Second ≤ i
  | sizeTrigger _ _ => False
  end.

Lemma newInterval_total {E} i a b : time_Second ≤ i → ∃ x, newInterval (E:=E) i a b = Ok x.
Proof.
  intros Hi. unfold newInterval. do 7 (destruct (_ =? _); [eexists; reflexivity|]).
  assert (Z.quot i time_Second ≠ 0).
  { unfold time_Second in *. rewrite Z.quot_div_nonneg by lia.
    pose proof (Z.div_le_mono 1000000000 i 1000000000).
    change (1000000000 / 1000000000) with 1 in *. lia. }
  destruct (Z.eqb_spec (Z.quot i time_Second) 0); [done|]. eauto.
Qed.

(** The triggers of a rotator: start-up and interval triggers, then the size
    trigger, whose counter is [c]. *)
Definition triggers_ok (m c : Z) (ts : list trigger) : Prop :=
  ∃ pre, ts = (pre ++ [sizeTrigger m c])%list ∧ Forall pre_trigger pre ∧ 0 ≤ c ≤ m.

Lemma fire_spec ts m c n k :
  triggers_ok m c ts → 0 ≤ n ≤ m → m < two63 →
  ∃ ts' c' reason k', fire clock ts n k = Ok (ts', reason, k') ∧ triggers_ok m c' ts' ∧
    (reason = rotateReasonNoRotate → c' = c + n) ∧
    (head ts = Some (initTrigger false) → reason ≠ rotateReasonNoRotate).
Proof.
  intros (pre & -> & Hpre & Hc) Hn Hm. revert k. induction Hpre as [|t pre Ht Hpre IH]; intros k.
  - simpl. rewrite wrapu64_small by (unfold_width; lia).
    destruct (Z.ltb_spec m (c + n)); simpl.
    + eexists _, 0, _, _. split; [done|]. split; [|done]. exists []. split; [done|]. split; [done|]. lia.
    + eexists _, (c + n), _, _. split; [done|]. split; [|done]. exists []. split; [done|].
      split; [done|]. lia.
  - assert (Hstop : ∀ t' reason k', pre_trigger t' →
      TriggerRotation (E:=file_error) clock t n k = Ok (t', reason, k') →
      (t = initTrigger false → reason ≠ rotateReasonNoRotate) →
      ∃ ts' c' reason k', fire clock (t :: pre ++ [sizeTrigger m c])%list n k = Ok (ts', reason, k') ∧
        triggers_ok m c' ts' ∧ (reason = rotateReasonNoRotate → c' = c + n) ∧
        (head (t :: pre ++ [sizeTrigger m c])%list = Some (initTrigger false) →
         reason ≠ rotateReasonNoRotate)).
    { intros t' reason k' Ht' He Hinit. cbn [fire]. rewrite He. cbn [mbind res_bind].
      case_bool_decide as Hr.
      - destruct (IH k') as (ts' & c' & reason' & k'' & He' & (pre' & -> & Hpre' & Hc') & Hno & _).
        rewrite He'. cbn [mbind res_bind]. eexists _, c', reason', k''. split; [done|]. split.
        { exists (t' :: pre'). split; [done|]. split; [by constructor|done]. }
        split; [done|]. intros [= ->]. exfalso. by apply Hinit.
      - eexists _, c, reason, k'. split; [done|]. split.
        { exists (t' :: pre). split; [done|]. split; [by constructor|done]. }
        done. }
    destruct t as [b|? ?|i l]; [| done |].
    + destruct b; [by apply (Hstop (initTrigger true) rotateReasonNoRotate k)|].
      by apply (Hstop (initTrigger true) rotateReasonInitializing k).
    + destruct (newInterval_total (E:=file_error) i l (clock k) Ht) as [x Hx].
      destruct x.
      * apply (Hstop (intervalTrigger i (clock k)) rotateReasonTimeInterval (S k)); [done| |done].
        simpl. by rewrite Hx.
      * apply (Hstop (intervalTrigger i l) rotateReasonNoRotate (S k)); [done| |done].
        simpl. by rewrite Hx.
Qed.

Lemma isRotationTriggered_triple r f m c n :
  triggers_ok m c (triggers r) → 0 ≤ n ≤ m → m < two63 →
  triple (St r f) (isRotationTriggered clock n)
    (λ x s, ∃ ts' c', triggers_ok m c' ts' ∧ (x.1 = rotateReasonNoRotate → c' = c + n) ∧
       (head (triggers r) = Some (initTrigger false) → x.1 ≠ rotateReasonNoRotate) ∧
       (x.1 ≠ rotateReasonNoRotate → valid_date x.2) ∧ St (set_triggers ts' r) f s).
Proof.
  intros Hts Hn Hm s [Hr Hf].
  destruct (fire_spec _ m c n (ticks (wld s)) Hts Hn Hm)
    as (ts' & c' & reason & k' & He & Hts' & Hno & Hinit).
  unfold isRotationTriggered, get_store, modify, lift, Now, mbind, SE_bind, mret, SE_ret.
  rewrite Hr, He. case_bool_decide as Hreason.
  - eexists _, _. split; [done|]. exists ts', c'. split; [done|]. split; [by auto|].
    split; [intros Hh; exfalso; by apply Hinit|]. split; [done|]. split; [|done]. simpl. by rewrite Hr.
  - eexists _, _. split; [done|]. exists ts', c'. split; [done|]. split; [done|]. split; [done|].
    split; [intros _; apply clock_valid|]. split; [|done]. simpl. by rewrite Hr.
Qed.

(** ** Rotation *)
Lemma same_names_log_path d d' x : same_names d d' → log_path d' x ↔ log_path d x.
Proof. intros (Hp & He & _). unfold log_path. by rewrite Hp, He. Qed.

Lemma same_names_trans d1 d2 d3 : same_names d1 d2 → same_names d2 d3 → same_names d1 d3.
Proof. intros (? & ? & Ho) (? & ? & Ho'). split_and!; [congruence..|]. intros x. by rewrite Ho'. Qed.

Lemma logs_ok_same k m d d' f : same_names d d' → logs_ok k m d f → logs_ok k m d' f.
Proof.
  intros Hsame Hl x n Hx Hn. apply (same_names_log_path _ _ _ Hsame) in Hx.
  destruct (Hl x n Hx Hn) as (data & o & ? & ? & Ho & ?). destruct Hsame as (_ & _ & Hord).
  exists data, o. by rewrite Hord.
Qed.

Lemma logs_ok_day_indexes k m d f t :
  valid_date t → date_ok d → logs_ok k m d f → day_indexes d f t k.
Proof.
  intros Hy Hd Hl u i Hu [n Hn] Hi.
  destruct (Hl _ n (log_path_dated d t u Hd Hy Hu) Hn) as (? & o & _ & _ & Ho & Hk).
  rewrite Ho in Hi. injection Hi as ->. done.
Qed.

Lemma logs_ok_purged k m d f f' n : logs_ok k m d f → purged d f f' n → logs_ok k m d f'.
Proof.
  intros Hl Hp x v Hx Hv. apply (Hl x v Hx). destruct (purged_only _ _ _ _ Hp x) as [He|[_ He]]; congruence.
Qed.

(** The active name has an order, with an index of at most [k]. *)
Definition active_ok (k : Z) (d : dateRotator) : Prop :=
  ∃ o, order_of d (currentFilename d) = Ok o ∧ index o ≤ k.

(** After a rotation of [r] with files [f]: a fresh active name, the rotated
    files purged. *)
Record after_rotation (k : Z) (r : Rotator) (f : fs) (s : state) : Prop := {
  ar_rtr : ∃ d, rtr s = set_rot d r;
  ar_date : date_ok (rot (rtr s));
  ar_same : same_names (rot r) (rot (rtr s));
  ar_fresh : f !! currentFilename (rot (rtr s)) = None;
  ar_active : active_ok (k + 1) (rot (rtr s));
  ar_purged : purged (rot (rtr s)) f (files (wld s)) (maxBackups r)
}.

Lemma rotation_triple {E} (g : file_error → E) (purging : SE state E unit) r f k m t :
  (∀ r f, date_ok (rot r) → logs_ok k m (rot r) f → 0 ≤ maxBackups r →
     triple (St r f) purging
       (λ _ s, ∃ c f', cache_ok (set_cache c (rot r)) ∧ purged (rot r) f f' (maxBackups r) ∧
          St (set_rot (set_cache c (rot r)) r) f' s)) →
  date_ok (rot r) → logs_ok k m (rot r) f → 0 ≤ maxBackups r → valid_date t →
  0 ≤ k < two63 - 1 →
  triple (St r f)
    (map_err g (on_rot (λ f, d_Rotate f t)) ≫= λ _, purging)
    (λ _, after_rotation k r f).
Proof.
  intros Hpurge Hd Hlogs Hb Ht Hk.
  destruct (d_Rotate_spec f t (rot r) k Hd Ht Hk (logs_ok_day_indexes _ _ _ _ _ Ht Hd Hlogs))
    as (d' & i & He & Hd' & Hsame & Hfresh & Ho & Hi & _).
  eapply triple_bind; [by apply triple_map_err, on_rot_triple|].
  intros a. apply triple_pure. intros _.
  eapply triple_conseq; [apply (Hpurge (set_rot d' r) f)|done|]; try done.
  { by eapply logs_ok_same. }
  intros _ s (c & f' & Hc & Hp & Hr & Hf). simpl in *. split; rewrite ?Hr, ?Hf; simpl; try done.
  - by eexists.
  - by apply date_ok_set_cache.
  - by exists (mkOrder i (midnight t)).
  - destruct Hp. by split.
Qed.

Lemma rotateWithTime_triple reason r f k m t :
  date_ok (rot r) → logs_ok k m (rot r) f → 0 ≤ maxBackups r → valid_date t →
  0 ≤ k < two63 - 1 →
  triple (St r f) (rotateWithTime no_fault reason t)
    (λ _, after_rotation k (set_file None r) f).
Proof.
  intros. unfold rotateWithTime. eapply triple_bind; [apply triple_map_err, closeFile_triple|].
  intros []. eapply rotation_triple; try done. intros. by eapply purge_triple.
Qed.

Lemma openNew_rotate_triple r f k m t :
  date_ok (rot r) → logs_ok k m (rot r) f → 0 ≤ maxBackups r → valid_date t →
  0 ≤ k < two63 - 1 →
  triple (St r f) (openNew_rotate no_fault t) (λ _, after_rotation k r f).
Proof.
  intros. unfold openNew_rotate. eapply rotation_triple; try done.
  intros. apply triple_map_err. by eapply purge_triple.
Qed.

Lemma openFile_triple r f :
  f !! currentFilename (rot r) = None →
  triple (St r f) (openFile no_fault)
    (λ _, St (set_file (Some (currentFilename (rot r))) r)
             (<[currentFilename (rot r) := Regular ""]> f)).
Proof.
  intros Hf. unfold openFile. eapply triple_bind; [apply triple_map_err, MkdirAll_triple|].
  intros []. eapply triple_bind; [apply active_triple|].
  intros p. apply triple_pure. intros ->.
  eapply triple_bind.
  { apply triple_modify with (Q := λ _, St (set_file None r) f).
    intros s [Hr Hfs]. split; [|done]. simpl. by rewrite Hr. }
  intros []. eapply triple_bind; [by apply triple_map_err, OpenExclusive_triple|].
  intros q. apply triple_pure. intros ->. apply triple_modify.
  intros s [Hr Hfs]. split; [|done]. simpl. by rewrite Hr.
Qed.

Lemma logs_ok_insert k m d f data :
  logs_ok k m d f → active_ok k d → strlen data ≤ 2 * m →
  logs_ok k m d (<[currentFilename d := Regular data]> f).
Proof.
  intros Hl (o & Ho & Hk) Hlen x n Hx. destruct (decide (x = currentFilename d)) as [->|].
  - rewrite lookup_insert_eq. intros [= <-]. eauto 10.
  - rewrite lookup_insert_ne by done. by apply Hl.
Qed.

Lemma logs_ok_mono k k' m d f : logs_ok k m d f → k ≤ k' → logs_ok k' m d f.
Proof.
  intros Hl Hk x n Hx Hn. destruct (Hl x n Hx Hn) as (data & o & ? & ? & ? & ?).
  exists data, o. split_and!; try done. lia.
Qed.

Lemma active_ok_mono k k' d : active_ok k d → k ≤ k' → active_ok k' d.
Proof. intros (o & ? & ?) ?. exists o. split; [done|lia]. Qed.

Lemma backups_le_insert d f n v :
  backups_le d f n → backups_le d (<[currentFilename d := v]> f) n.
Proof.
  intros Hb l Hnd Hl. apply Hb; [done|]. eapply Forall_impl; [exact Hl|].
  intros x (? & Hx & Hne). split; [done|]. split; [|done]. by rewrite lookup_insert_ne in Hx.
Qed.

(** ** The invariant of a run *)

(** [k] bounds the indexes in use.  The open file holds at most what the size
    trigger counted plus one maximum: the write that opens a file is not
    counted. *)
Record run_ok (k : Z) (s : state) : Prop := {
  ro_date : date_ok (rot (rtr s));
  ro_logs : logs_ok k (maxSizeBytes (rtr s)) (rot (rtr s)) (files (wld s));
  ro_active : active_ok k (rot (rtr s));
  ro_size : 0 < maxSizeBytes (rtr s) < two63;
  ro_max : 0 ≤ maxBackups (rtr s);
  ro_backups : backups_le (rot (rtr s)) (files (wld s)) (maxBackups (rtr s));
  ro_file : ∃ c, triggers_ok (maxSizeBytes (rtr s)) c (triggers (rtr s)) ∧
    match file (rtr s) with
    | Some p => p = currentFilename (rot (rtr s)) ∧
        ∃ data, files (wld s) !! p = Some (Regular data) ∧
                strlen data ≤ c + maxSizeBytes (rtr s)
    | None => files (wld s) !! currentFilename (rot (rtr s)) = None ∨
              head (triggers (rtr s)) = Some (initTrigger false)
    end
}.

(** A file is open and has room for [n] more bytes; [f0] are the files before. *)
Record opened (k n : Z) (r0 : Rotator) (f0 : fs) (s : state) : Prop := {
  op_conf : maxSizeBytes (rtr s) = maxSizeBytes r0 ∧ maxBackups (rtr s) = maxBackups r0;
  op_date : date_ok (rot (rtr s));
  op_same : same_names (rot r0) (rot (rtr s));
  op_file : file (rtr s) = Some (currentFilename (rot (rtr s)));
  op_logs : logs_ok k (maxSizeBytes r0) (rot (rtr s)) (files (wld s));
  op_active : active_ok k (rot (rtr s));
  op_backups : backups_le (rot (rtr s)) (files (wld s)) (maxBackups r0);
  op_data : ∃ c old, triggers_ok (maxSizeBytes r0) c (triggers (rtr s)) ∧
    files (wld s) !! currentFilename (rot (rtr s)) = Some (Regular old) ∧
    strlen old + n ≤ c + maxSizeBytes r0 ∧
    (f0 !! currentFilename (rot (rtr s)) = Some (Regular old) ∨
     f0 !! currentFilename (rot (rtr s)) = None ∧ old = "");
  op_other : ∀ x, x ≠ currentFilename (rot (rtr s)) →
    files (wld s) !! x = f0 !! x ∨ (log_path (rot r0) x ∧ files (wld s) !! x = None)
}.

(** Opening the file whose name a rotation has chosen. *)
Lemma open_rotated_triple k n r0 r f ts c :
  r = set_triggers ts (set_file None r0) →
  triggers_ok (maxSizeBytes r0) c ts → 0 < maxSizeBytes r0 → n ≤ maxSizeBytes r0 →
  logs_ok k (maxSizeBytes r0) (rot r0) f →
  triple (after_rotation k r f) (openFile no_fault) (λ _, opened (k + 1) n r0 f).
Proof.
  intros -> Hts Hm Hn Hlogs s Hs. destruct Hs as [[d Hr] Hd Hsame Hfresh Hact Hp].
  rewrite Hr in *. simpl in *.
  assert (Hnone : files (wld s) !! currentFilename d = None)
    by (destruct (purged_only _ _ _ _ Hp (currentFilename d)) as [->|[_ ->]]; done).
  destruct (openFile_triple (rtr s) (files (wld s))) with (s := s) as (s' & [] & He & Hr' & Hf');
    [by rewrite Hr|done|].
  exists s', tt. split; [done|]. rewrite Hr in Hr', Hf'. simpl in *.
  assert (Hl' : logs_ok (k + 1) (maxSizeBytes r0) d (files (wld s))).
  { eapply logs_ok_mono with (k := k); [|lia]. eapply logs_ok_purged; [|exact Hp].
    by eapply logs_ok_same. }
  pose proof (strlen_nonneg "") as Hz. change (strlen "") with 0 in *.
  split; rewrite ?Hr', ?Hf'; simpl; try done.
  - apply logs_ok_insert; [done..|]. change (strlen "") with 0. lia.
  - apply backups_le_insert, (purged_count _ _ _ _ Hp).
  - exists c, "". rewrite lookup_insert_eq. change (strlen "") with 0.
    destruct Hts as (pre & Hpre & HF & Hc). split; [by exists pre|]. split; [done|]. split; [lia|]. by right.
  - intros x Hx. rewrite lookup_insert_ne by done.
    destruct (purged_only _ _ _ _ Hp x) as [?|[[Hlp _] ?]]; [by left|]. right. split; [|done].
    by apply (same_names_log_path _ _ _ Hsame).
Qed.

Lemma set_file_None r : file r = None → set_file None r = r.
Proof. destruct r; simpl. by intros ->. Qed.

Lemma openNew_triple k n r f :
  0 ≤ k < two63 - 1 → n ≤ maxSizeBytes r → file r = None →
  triple (λ s, run_ok k s ∧ St r f s) (openNew clock no_fault) (λ _, opened (k + 1) n r f).
Proof.
  intros Hk Hn Hnofile s [Hok [Hr Hf]]. destruct Hok as [Hd Hl Ha Hm Hmax Hb (c & Hts & Hfile)].
  rewrite Hr, Hf in *. rewrite Hnofile in Hfile.
  assert (HSt : St r f s) by done. revert s HSt Hr Hf.
  assert (Hgoal : triple (St r f) (openNew clock no_fault) (λ _, opened (k + 1) n r f));
    [|by intros s HSt _ _; apply Hgoal].
  unfold openNew. eapply triple_bind; [apply triple_map_err, MkdirAll_triple|]. intros [].
  eapply triple_bind; [apply active_triple|]. intros p. apply triple_pure. intros ->.
  eapply triple_bind; [apply Lstat_triple|]. intros stat s [HSt Hstat].
  destruct (f !! currentFilename (rot r)) as [node|] eqn:Hcur.
  - rewrite Hstat. destruct Hfile as [?|Hinit]; [done|].
    destruct (isRotationTriggered_triple r f _ c 0 Hts) with (s := s)
      as (s1 & [reason t] & He1 & ts' & c' & Hts' & _ & Hfires & Hvalid & HSt1); [lia..|done|].
    simpl in *. specialize (Hfires Hinit). specialize (Hvalid Hfires).
    unfold mbind, SE_bind. rewrite He1. rewrite bool_decide_false by done.
    destruct (triple_bind (openNew_rotate no_fault t) (λ _ : unit, openFile no_fault)
      (St (set_triggers ts' r) f) (λ _, after_rotation k (set_triggers ts' r) f)
      (λ _, opened (k + 1) n r f)) with (s := s1) as (s2 & [] & He2 & Hop); [| |done|].
    + by eapply openNew_rotate_triple.
    + intros _. eapply open_rotated_triple; try done; [|lia].
      by rewrite set_file_None.
    + exists s2, tt. done.
  - destruct Hstat as [e ->].
    destruct (openFile_triple r f Hcur s HSt) as (s' & [] & He & Hr' & Hf').
    exists s', tt. split; [done|]. split; rewrite ?Hr', ?Hf'; simpl; try done.
    + apply logs_ok_insert.
      * eapply logs_ok_mono; [done|lia].
      * eapply active_ok_mono; [done|lia].
      * change (strlen "") with 0. lia.
    + eapply active_ok_mono; [done|lia].
    + by apply backups_le_insert.
    + exists c, "". rewrite lookup_insert_eq. change (strlen "") with 0.
      pose proof Hts as (pre & _ & _ & Hc). split; [done|]. split; [done|]. split; [lia|]. by right.
    + intros x Hx. rewrite lookup_insert_ne by done. by left.
Qed.

(** What a successful write leaves behind. *)
Record wrote (k : Z) (data : string) (s0 s : state) : Prop := {
  wr_ok : run_ok k s;
  wr_same : same_names (rot (rtr s0)) (rot (rtr s)) ∧
    maxSizeBytes (rtr s) = maxSizeBytes (rtr s0) ∧ maxBackups (rtr s) = maxBackups (rtr s0);
  wr_data : ∃ old,
    files (wld s) !! currentFilename (rot (rtr s)) = Some (Regular (old +:+ data)) ∧
    (files (wld s0) !! currentFilename (rot (rtr s)) = Some (Regular old) ∨
     files (wld s0) !! currentFilename (rot (rtr s)) = None ∧ old = "");
  wr_other : ∀ x, x ≠ currentFilename (rot (rtr s)) →
    files (wld s) !! x = files (wld s0) !! x ∨
    (log_path (rot (rtr s0)) x ∧ files (wld s) !! x = None)
}.

Lemma write_opened_triple k data s0 (g : Z * file_error → Z * file_error) :
  run_ok k s0 → strlen data ≤ maxSizeBytes (rtr s0) →
  triple (opened (k + 1) (strlen data) (rtr s0) (files (wld s0)))
    (s' ← get_store;
     match file (rtr s') with
     | None => fail (0, Errorf "failed to write to file" (os_error EINVAL))
     | Some p => map_err g (file_Write no_fault p data)
     end)
    (λ n s, n = strlen data ∧ wrote (k + 1) data s0 s).
Proof.
  intros Hok0 Hlen s [[Hm Hb] Hd Hsame Hfile Hl Ha Hbk (c & old & Hts & Hold & Hroom & Hprev) Hother].
  unfold mbind, SE_bind, get_store. rewrite Hfile.
  destruct (triple_map_err g _ _ _ (file_Write_triple (rtr s) (files (wld s)) _ old data Hold) s)
    as (s' & n & He & -> & Hr' & Hf'); [done|].
  exists s', (strlen data). split; [done|]. split; [done|].
  pose proof (ro_size _ _ Hok0) as Hsz. pose proof (ro_max _ _ Hok0) as Hmax.
  pose proof Hts as (pre & _ & _ & Hc).
  split; rewrite ?Hr', ?Hf'; try done.
  - split; rewrite ?Hr', ?Hf', ?Hm, ?Hb, ?Hfile; try done.
    + apply logs_ok_insert; [done..|]. rewrite strlen_app. lia.
    + by apply backups_le_insert.
    + exists c. split; [done|]. split; [done|]. exists (old +:+ data).
      rewrite lookup_insert_eq, strlen_app. split; [done|lia].
  - exists old. by rewrite lookup_insert_eq.
  - intros x Hx. rewrite lookup_insert_ne by done. by apply Hother.
Qed.

Lemma opened_unrotated k n r f s ts c data :
  run_ok k s → St r f s →
  f !! currentFilename (rot r) = Some (Regular data) → file r = Some (currentFilename (rot r)) →
  triggers_ok (maxSizeBytes r) c ts → strlen data + n ≤ c + maxSizeBytes r →
  ∀ s1, St (set_triggers ts r) f s1 → opened (k + 1) n r f s1.
Proof.
  intros [Hd Hl Ha Hm Hmax Hb _] [Hr Hf] Hdata Hfile Hts Hroom s1 [Hr1 Hf1]. rewrite Hr, Hf in *.
  split; rewrite ?Hr1, ?Hf1; simpl; try done.
  - eapply logs_ok_mono; [done|lia].
  - eapply active_ok_mono; [done|lia].
  - exists c, data. split_and!; try done. by left.
  - intros x _. by left.
Qed.

Lemma Write_correct k data s :
  run_ok k s → 0 ≤ k < two63 - 1 → strlen data ≤ maxSizeBytes (rtr s) →
  ∃ s', Write clock no_fault data s = (s', Ok (strlen data)) ∧ wrote (k + 1) data s s'.
Proof.
  intros Hok Hk Hlen. unfold Write. rewrite SE_bind_get.
  rewrite (proj2 (Z.ltb_ge _ _) Hlen).
  assert (Hopen : ∀ c : SE state (Z * file_error) unit,
    (∃ s1, c s = (s1, Ok tt) ∧ opened (k + 1) (strlen data) (rtr s) (files (wld s)) s1) →
    ∃ s', (c ≫= λ _, s' ← get_store;
            match file (rtr s') with
            | None => fail (0, Errorf "failed to write to file" (os_error EINVAL))
            | Some p => map_err (λ ne, (ne.1, Errorf "failed to write to file" ne.2))
                          (file_Write no_fault p data)
            end) s = (s', Ok (strlen data)) ∧ wrote (k + 1) data s s').
  { intros c (s1 & He & Hop).
    destruct (write_opened_triple k data s (λ ne, (ne.1, Errorf "failed to write to file" ne.2))
      Hok Hlen s1 Hop) as (s2 & n & He2 & -> & Hw).
    exists s2. split; [|done]. unfold mbind at 1, SE_bind at 1. by rewrite He. }
  apply Hopen. clear Hopen. pose proof Hok as [Hd Hl Ha Hm Hmax Hb (c & Hts & Hfile)].
  pose proof (strlen_nonneg data) as Hnn.
  destruct (file (rtr s)) as [p|] eqn:Hp.
  - destruct Hfile as [-> (old & Hold & Hroom)].
    destruct (isRotationTriggered_triple (rtr s) (files (wld s)) _ c (strlen data) Hts)
      with (s := s) as (s1 & [reason t] & He1 & ts' & c' & Hts' & Hno & _ & Hvalid & HSt1);
      [lia..|done|].
    simpl in *. unfold mbind at 1, SE_bind at 1, map_err at 1. rewrite He1.
    case_bool_decide as Hreason.
    + specialize (Hno Hreason). subst c'. exists s1. split; [done|].
      apply (opened_unrotated k _ _ _ s ts' (c + strlen data) old); try done. lia.
    + specialize (Hvalid Hreason).
      destruct (triple_bind
        (map_err (λ e, (0, Errorf "error file rotating files" e)) (rotateWithTime no_fault reason t))
        (λ _ : unit, map_err (λ e, (0, Errorf "failed to open existing log file for writing" e))
                (openFile no_fault))
        (St (set_triggers ts' (rtr s)) (files (wld s)))
        (λ _, after_rotation k (set_file None (set_triggers ts' (rtr s))) (files (wld s)))
        (λ _, opened (k + 1) (strlen data) (rtr s) (files (wld s))))
        with (s := s1) as (s2 & [] & He2 & Hop); [| |done|].
      * apply triple_map_err. by eapply rotateWithTime_triple.
      * intros _. apply triple_map_err. eapply open_rotated_triple; try done. lia.
      * exists s2. done.
  - destruct (triple_map_err (λ e, (0, Errorf "failed to open new log file for writing" e)) _ _ _
      (openNew_triple k (strlen data) (rtr s) (files (wld s)) Hk Hlen Hp) s)
      as (s1 & [] & He & Hop); [done|]. by exists s1.
Qed.

Lemma Rotate_correct k s :
  run_ok k s → 0 ≤ k < two63 - 1 →
  ∃ s', Rotate clock no_fault s = (s', Ok tt) ∧ run_ok (k + 1) s' ∧
    same_names (rot (rtr s)) (rot (rtr s')) ∧
    maxSizeBytes (rtr s') = maxSizeBytes (rtr s) ∧ maxBackups (rtr s') = maxBackups (rtr s).
Proof.
  intros [Hd Hl Ha Hm Hmax Hb (c & Hts & _)] Hk.
  destruct (triple_bind (Now clock)
    (λ t, rotateWithTime no_fault rotateReasonManualTrigger t)
    (St (rtr s) (files (wld s))) (λ t s', valid_date t ∧ St (rtr s) (files (wld s)) s')
    (λ _, after_rotation k (set_file None (rtr s)) (files (wld s))))
    with (s := s) as (s' & [] & He & Har).
  { apply Now_triple. }
  { intros t. apply triple_pure. intros Ht. by eapply rotateWithTime_triple. }
  { done. }
  exists s'. split; [done|]. destruct Har as [[d Hr] Hd' Hsame Hfresh Hact Hp].
  rewrite Hr in *. simpl in *. split; [|done].
  split; rewrite ?Hr; simpl; try done.
  - eapply logs_ok_mono with (k := k); [|lia]. eapply logs_ok_purged; [|done]. by eapply logs_ok_same.
  - apply (purged_count _ _ _ _ Hp).
  - exists c. split; [done|]. left.
    destruct (purged_only _ _ _ _ Hp (currentFilename d)) as [->|[_ ->]]; done.
Qed.

(** ** Runs *)
Inductive rotator_op :=
| OpWrite (data : string)
| OpRotate
| OpSync.

(** One exported operation; the outcome is its error, if any. *)
Definition rotator_step (o : rotator_op) (s : state) : state * bool :=
  match o with
  | OpWrite data => let '(s', r) := Write clock no_fault data s in
                    (s', match r with Ok n => bool_decide (n = strlen data) | _ => false end)
  | OpRotate => let '(s', r) := Rotate clock no_fault s in
                (s', match r with Ok _ => true | _ => false end)
  | OpSync => let '(s', r) := Sync no_fault s in
              (s', match r with Ok _ => true | _ => false end)
  end.

Fixpoint rotator_run (ops : list rotator_op) (s : state) : state * bool :=
  match ops with
  | [] => (s, true)
  | o :: ops' =>
      let '(s1, b) := rotator_step o s in
      let '(s2, b') := rotator_run ops' s1 in (s2, b && b')
  end.

Definition fits (m : Z) (o : rotator_op) : Prop :=
  match o with OpWrite data => strlen data ≤ m | _ => True end.

Lemma Sync_correct k s :
  run_ok k s →
  ∃ s', Sync no_fault s = (s', Ok tt) ∧ run_ok k s' ∧ rtr s' = rtr s.
Proof.
  intros Hok. unfold Sync. rewrite SE_bind_get. destruct (file (rtr s)) eqn:Hf.
  - eexists. split; [done|]. destruct Hok. split; [|done]. by split.
  - exists s. done.
Qed.

Lemma run_ok_mono k k' s : run_ok k s → k ≤ k' → run_ok k' s.
Proof.
  intros [] ?. split; try done; [by eapply logs_ok_mono|by eapply active_ok_mono].
Qed.

Lemma step_correct k o s :
  run_ok k s → 0 ≤ k < two63 - 1 → fits (maxSizeBytes (rtr s)) o →
  ∃ s', rotator_step o s = (s', true) ∧ run_ok (k + 1) s' ∧
    same_names (rot (rtr s)) (rot (rtr s')) ∧
    maxSizeBytes (rtr s') = maxSizeBytes (rtr s) ∧ maxBackups (rtr s') = maxBackups (rtr s).
Proof.
  intros Hok Hk Hfit. destruct o as [data| |]; simpl in *.
  - destruct (Write_correct k data s Hok Hk Hfit) as (s' & He & Hw). rewrite He.
    rewrite bool_decide_true by done. destruct Hw as [Hw (Hs & Hm & Hb) _ _].
    exists s'. by split_and!.
  - destruct (Rotate_correct k s Hok Hk) as (s' & He & ?). rewrite He. by exists s'.
  - destruct (Sync_correct k s Hok) as (s' & He & Hok' & Hr). rewrite He. exists s'.
    split; [done|]. split; [eapply run_ok_mono; [done|lia]|]. by rewrite Hr.
Qed.

Lemma run_correct ops k s :
  run_ok k s → 0 ≤ k → k + Z.of_nat (length ops) < two63 →
  Forall (fits (maxSizeBytes (rtr s))) ops →
  ∃ s', rotator_run ops s = (s', true) ∧ run_ok (k + Z.of_nat (length ops)) s' ∧
    same_names (rot (rtr s)) (rot (rtr s')) ∧
    maxSizeBytes (rtr s') = maxSizeBytes (rtr s) ∧ maxBackups (rtr s') = maxBackups (rtr s).
Proof.
  revert k s. induction ops as [|o ops IH]; intros k s Hok Hk Hlen Hfits; simpl in *.
  { exists s. rewrite Z.add_0_r. by split_and!. }
  apply Forall_cons in Hfits as [Hfit Hfits].
  destruct (step_correct k o s Hok) as (s1 & He & Hok1 & Hs1 & Hm1 & Hb1); [lia|done|].
  rewrite He. destruct (IH (k + 1) s1) as (s2 & He2 & Hok2 & Hs2 & Hm2 & Hb2);
    [done|lia|lia|by rewrite Hm1|].
  rewrite He2. exists s2. split; [done|]. split; [by replace (k + Z.of_nat (S (length ops)))
    with (k + 1 + Z.of_nat (length ops)) by lia|]. rewrite Hm2, Hb2.
  split; [by eapply same_names_trans|done].
Qed.

(** ** Start *)
Definition date0 (fn ext : string) (now : Time) : dateRotator :=
  let prefix := fn +:+ "-" in
  let dext := "." +:+ ext in
  mkDateRotator prefix (prefix +:+ Format now +:+ dext) dext
    (strlen prefix) (strlen prefix + 8) (strlen dext) ∅.

Record names_ok (fn ext : string) : Prop := {
  no_prefix : meta_free fn = true;
  no_ext : meta_free ext = true;
  no_sep : lacks "/" ext = true
}.

Lemma date0_ok fn ext now : names_ok fn ext → valid_date now → date_ok (date0 fn ext now).
Proof.
  intros [Hp He Hs] Hy. split; simpl; try done.
  - by rewrite meta_free_sapp, Hp.
  - exists (Format now). split; [apply lacks_sep_Format, Hy|done].
Qed.

Lemma newDateRotater_spec f now fn ext k m :
  names_ok fn ext → valid_date now → 0 ≤ k → logs_ok k m (date0 fn ext now) f →
  ∃ d, newDateRotater f now fn ext = Ok d ∧ date_ok d ∧ same_names (date0 fn ext now) d ∧
    active_ok k d ∧
    (is_Some (f !! currentFilename d) ∨ ∀ x, log_path d x → f !! x = None).
Proof.
  intros Hn Hy Hk Hl. set (d0 := date0 fn ext now) in *.
  pose proof (date0_ok fn ext now Hn Hy : date_ok d0) as Hd0.
  destruct (Glob_star f (filenamePrefix d0) (d_extension d0) (ok_prefix _ Hd0) (ok_ext _ Hd0)
    (ok_ext_sep _ Hd0)) as (l & Hg & Hnd & Hin).
  assert (Hlog : ∀ x, x ∈ l ↔ is_Some (f !! x) ∧ log_path d0 x) by exact Hin.
  assert (Hord : ∀ x, x ∈ l → ∃ o, order_of d0 x = Ok o ∧ index o ≤ k).
  { intros x [[n Hx] Hlp]%Hlog. destruct (Hl x n Hlp Hx) as (? & o & _ & _ & ? & ?). eauto. }
  assert (Hpick : ∀ x c, x ∈ l → cache_ok (set_cache c d0) →
    date_ok (set_current x (set_cache c d0)) ∧ same_names d0 (set_current x (set_cache c d0)) ∧
    active_ok k (set_current x (set_cache c d0)) ∧ is_Some (f !! x)).
  { intros x c Hx Hc. pose proof Hx as [Hsome Hlp]%Hlog. destruct (Hord x Hx) as (o & Ho & Hi).
    split; [apply date_ok_set_current; [by apply date_ok_set_cache|done]|].
    split; [apply same_names_set|]. split; [|done].
    exists o. by rewrite order_of_set_current. }
  unfold newDateRotater. fold (date0 fn ext now). change (date0 fn ext now) with d0.
  change (mkDateRotator _ _ _ _ _ _ _) with d0. change (fn +:+ "-") with (filenamePrefix d0).
  change ("." +:+ ext) with (d_extension d0). rewrite Hg.
  destruct l as [|x [|y l]].
  - exists d0. split; [done|]. split; [done|]. split; [split_and!; done|]. split.
    + destruct (order_of_dated d0 now "" Hd0 Hy) as (i & Ho & _ & Hi & _).
      exists (mkOrder i (midnight now)). split; [exact Ho|]. simpl. rewrite Hi by done. lia.
    + right. intros x Hx. destruct (f !! x) eqn:Hf; [|done]. exfalso.
      eapply not_elem_of_nil, Hlog. split; [by rewrite Hf|done].
  - destruct (Hpick x ∅) as (? & ? & ? & ?); [by left|apply cache_ok_empty|].
    eexists. split; [done|]. split; [done|]. split; [done|]. split; [done|]. by left.
  - destruct (SortModTimeLogs_spec (x :: y :: l) d0 (ok_cache _ Hd0))
      as (c & l' & Hs & Hc & Hp & _).
    { rewrite Forall_forall. intros z Hz. destruct (Hord z Hz) as (o & ? & _). eauto. }
    rewrite Hs. destruct (last l') as [z|] eqn:Hlast.
    2: { apply last_None in Hlast as ->. by apply Permutation_nil_l in Hp. }
    destruct (Hpick z c) as (? & ? & ? & ?); [rewrite <- Hp; by apply last_Some_elem_of|done|].
    eexists. split; [done|]. split; [done|]. split; [done|]. split; [done|]. by left.
Qed.

Lemma apply_options_file options r : file (foldl apply_option r options) = file r.
Proof. revert r. induction options as [|o l IH]; intros r; simpl; [done|]. rewrite IH. by destruct r, o. Qed.

Definition options_ok (r : Rotator) : Prop :=
  0 < maxSizeBytes r < two63 ∧ 0 ≤ maxBackups r ≤ MaxBackupsLimit ∧ permissions r ≤ ModePerm ∧
  (interval r = 0 ∨ time_Second ≤ interval r).

Lemma newTriggers_ok startup r k :
  options_ok r →
  ∃ ts n, newTriggers clock startup (interval r) (maxSizeBytes r) k = (ts, n) ∧
    triggers_ok (maxSizeBytes r) 0 ts ∧ (startup = true → head ts = Some (initTrigger false)).
Proof.
  intros (Hm & _ & _ & Hi). unfold newTriggers, newIntervalTrigger.
  destruct (Z.ltb_spec 0 (maxSizeBytes r)) as [_|]; [|lia].
  destruct (Z.ltb_spec 0 (interval r)).
  - eexists _, _. split; [done|]. split; [|by destruct startup].
    exists ((if startup then [initTrigger false] else []) ++ [intervalTrigger (interval r) (clock k)])%list.
    split; [by rewrite <- app_assoc|]. split; [|lia].
    destruct startup; repeat constructor; simpl; unfold time_Second in *; lia.
  - eexists _, _. split; [done|]. split; [|by destruct startup].
    exists (if startup then [initTrigger false] else []). split; [done|].
    split; [destruct startup; by repeat constructor|lia].
Qed.

Lemma NewFileRotator_correct w fn options k :
  let r := foldl apply_option (default_rotator fn) options in
  let d := date0 fn (extension r) (clock (ticks w)) in
  options_ok r → names_ok fn (extension r) → 0 ≤ k →
  logs_ok k (maxSizeBytes r) d (files w) →
  rotateOnStartup r = true →
  (∀ l, NoDup l → Forall (λ x, log_path d x ∧ is_Some (files w !! x)) l →
        Z.of_nat (length l) ≤ maxBackups r + 1) →
  ∃ s, NewFileRotator clock no_fault w fn options = Ok s ∧ run_ok k s ∧
    files (wld s) = files w ∧ same_names d (rot (rtr s)) ∧
    maxSizeBytes (rtr s) = maxSizeBytes r ∧ maxBackups (rtr s) = maxBackups r.
Proof.
  intros r d Hopt Hn Hk Hl Hstart Hcount. pose proof Hopt as (Hm & Hb & Hp & Hi).
  destruct (newDateRotater_spec _ _ _ _ _ _ Hn (clock_valid (ticks w)) Hk Hl)
    as (d' & He & Hd & Hsame & Hact & Hcur).
  unfold NewFileRotator. fold r.
  rewrite (proj2 (Z.eqb_neq _ _)) by lia.
  rewrite (proj2 (Z.ltb_ge _ _)) by lia. rewrite (proj2 (Z.ltb_ge _ _)) by lia.
  assert (Hint : negb (interval r =? 0) && (interval r <? time_Second) = false).
  { destruct Hi as [->|Hi]; [done|]. rewrite (proj2 (Z.ltb_ge _ _) Hi). apply andb_false_r. }
  rewrite Hint. rewrite He. cbn [mbind res_bind].
  unfold Stat, os_call, map_err. cbn [no_fault].
  set (s0 := next_call (mkState (mkWorld (files w) (S (ticks w)) (calls w)) (set_rot d' r))).
  change (files (wld s0)) with (files w). rewrite Hstart.
  set (startup := match files w !! currentFilename d' with Some _ => true | None => false end).
  destruct (newTriggers_ok startup r (ticks (wld s0)) Hopt) as (ts & n & Hts & Htok & Hhead).
  assert (Hgoal : ∃ s, Ok (E:=file_error) (set_ticks n (on_rtr (set_triggers ts) s0)) = Ok s ∧
    run_ok k s ∧ files (wld s) = files w ∧ same_names d (rot (rtr s)) ∧
    maxSizeBytes (rtr s) = maxSizeBytes r ∧ maxBackups (rtr s) = maxBackups r).
  { eexists. split; [done|]. split; [|done]. split; simpl; try done; [|lia| |].
    - by eapply logs_ok_same.
    - intros l Hnd Hrot. destruct Hcur as [Hcur|Hnone].
      + assert (Z.of_nat (length (currentFilename d' :: l)) ≤ maxBackups r + 1); [|simpl in *; lia].
        apply Hcount.
        * constructor; [|done]. intros Hin. rewrite Forall_forall in Hrot.
          by destruct (Hrot _ Hin) as (_ & _ & ?).
        * constructor; [split; [|done]; apply (same_names_log_path _ _ _ Hsame), (ok_current _ Hd)|].
          eapply Forall_impl; [exact Hrot|]. intros x (? & ? & _).
          split; [|done]. by apply (same_names_log_path _ _ _ Hsame).
      + destruct l as [|x l]; [simpl; lia|]. exfalso. apply Forall_cons in Hrot as [(Hx & [v Hv] & _) _].
        rewrite (Hnone x Hx) in Hv. done.
    - exists 0. split; [done|]. unfold r. rewrite apply_options_file. simpl.
      destruct (files w !! currentFilename d') eqn:Hf; [|by left]. right. by apply Hhead. }
  unfold startup in Hts. unfold ActiveFile. destruct (files w !! currentFilename d') as [v|] eqn:Hf.
  - destruct (Hl (currentFilename d') v) as (data & _ & -> & _); [|done|].
    { apply (same_names_log_path _ _ _ Hsame), (ok_current _ Hd). }
    cbn [follow max_links]. unfold max_links. cbn [follow]. rewrite Hf. by rewrite Hts.
  - unfold max_links. cbn [follow]. rewrite Hf. by rewrite Hts.
Qed.

End runs.

(** ** Properties *)
Section properties.
Context `{SliceSort}.

(** C3: a rotator that rotates on startup, with a positive maximum size, at most
    [MaxBackupsLimit] backups, permissions within [ModePerm], no interval or one
    of at least a second, and names without pattern characters.  It starts in a
    world where its log files are regular files of at most twice the maximum
    size with names it can order, and there are at most [maxBackups]+1 of them.
    Then creating it and every sequence of writes of at most the maximum size
    each, manual rotations and syncs succeed; afterwards every log file is a
    regular file of at most twice the maximum size, and at most [maxBackups] log
    files other than the active one exist.  The operating system makes no call
    fail, the clock stays in years 0 to 9999, and the indices of the files found
    plus the number of operations stay below 2^63. *)
Theorem rotator_run_bounded clock w fn options k ops :
  let r := foldl apply_option (default_rotator fn) options in
  let d := date0 fn (extension r) (clock (ticks w)) in
  (∀ n, valid_date (clock n)) →
  options_ok r → names_ok fn (extension r) → rotateOnStartup r = true →
  0 ≤ k → k + Z.of_nat (length ops) < two63 →
  logs_ok k (maxSizeBytes r) d (files w) →
  (∀ l, NoDup l → Forall (λ x, log_path d x ∧ is_Some (files w !! x)) l →
        Z.of_nat (length l) ≤ maxBackups r + 1) →
  Forall (fits (maxSizeBytes r)) ops →
  ∃ s s', NewFileRotator clock no_fault w fn options = Ok s ∧
    rotator_run clock ops s = (s', true) ∧
    (∀ x n, log_path d x → files (wld s') !! x = Some n →
       ∃ data, n = Regular data ∧ strlen data ≤ 2 * maxSizeBytes r) ∧
    backups_le (rot (rtr s')) (files (wld s')) (maxBackups r).
Proof.
  intros r d Hclock Hopt Hn Hstart Hk Hlen Hl Hcount Hfits.
  destruct (NewFileRotator_correct clock Hclock w fn options k Hopt Hn Hk Hl Hstart Hcount)
    as (s & He & Hok & Hf & Hsame & Hm & Hb). fold r in Hm, Hb.
  destruct (run_correct clock Hclock ops k s Hok Hk Hlen) as (s' & Hrun & Hok' & Hs' & Hm' & Hb').
  { by rewrite Hm. }
  exists s, s'. split; [done|]. split; [done|]. rewrite <- Hm, <- Hm', <- Hb, <- Hb'. split.
  - intros x n Hx Hx'. destruct (ro_logs _ _ Hok' x n) as (data & o & ? & ? & _); [|done|eauto].
    apply (same_names_log_path _ _ _ (same_names_trans _ _ _ Hsame Hs')). done.
  - apply (ro_backups _ _ Hok').
Qed.

(** A write of at most the maximum size succeeds and reports its length; the
    data ends the active file, whose earlier content is kept; every other file
    is unchanged, except rotated log files, which may be purged; the invariant
    of the run holds again. *)
Theorem Write_appends clock k data s :
  (∀ n, valid_date (clock n)) →
  run_ok k s → 0 ≤ k < two63 - 1 → strlen data ≤ maxSizeBytes (rtr s) →
  ∃ s', Write clock no_fault data s = (s', Ok (strlen data)) ∧ wrote (k + 1) data s s'.
Proof. intros Hclock. by apply Write_correct. Qed.

(** Rotation chooses the name of a file that does not exist: the day's name,
    or the day's name with an index above every index of that day in use. *)
Theorem Rotate_fresh_name f t d k :
  date_ok d → valid_date t → 0 ≤ k < two63 - 1 → day_indexes d f t k →
  ∃ d' i, d_Rotate f t d = (d', Ok tt) ∧ f !! currentFilename d' = None ∧
    log_path d (currentFilename d') ∧
    order_of d (currentFilename d') = Ok (mkOrder i (midnight t)) ∧
    (∀ u j, lacks "/" u = true →
       is_Some (f !! (filenamePrefix d +:+ Format t +:+ u +:+ d_extension d)) →
       order_of d (filenamePrefix d +:+ Format t +:+ u +:+ d_extension d)
         = Ok (mkOrder j (midnight t)) → j < i).
Proof.
  intros Hd Ht Hk Hi. destruct (d_Rotate_spec f t d k Hd Ht Hk Hi)
    as (d' & i & He & Hd' & Hsame & Hfresh & Ho & _ & Hmax).
  exists d', i. split_and!; try done.
  - apply (same_names_log_path _ _ _ Hsame), (ok_current _ Hd').
  - destruct Hsame as (_ & _ & Hord). by rewrite <- Hord.
Qed.

(** Purging leaves at most [maxBackups] rotated files, touches no other file,
    removes nothing when there are few enough, and what it removes is never
    newer than what it keeps. *)
Theorem purge_removes_oldest k m s :
  date_ok (rot (rtr s)) → logs_ok k m (rot (rtr s)) (files (wld s)) → 0 ≤ maxBackups (rtr s) →
  ∃ s', purge no_fault s = (s', Ok tt) ∧
    purged (rot (rtr s)) (files (wld s)) (files (wld s')) (maxBackups (rtr s)).
Proof.
  intros Hd Hl Hb. destruct (purge_triple (rtr s) (files (wld s)) k m Hd Hl Hb s)
    as (s' & [] & He & c & f' & _ & Hp & _ & Hf); [done|].
  exists s'. by rewrite Hf.
Qed.
End properties.

(** ** Examples *)
Definition noon (n : nat) : Time := mkTime 1636632000 0.
Definition empty_world : world := mkWorld ∅ 0 0.

Lemma noon_valid n : valid_date (noon n).
Proof. unfold valid_date. change (Year (noon n)) with 2021. lia. Qed.

Lemma empty_logs k m d : logs_ok k m d (files empty_world).
Proof. intros x n _ Hx. simpl in Hx. by rewrite lookup_empty in Hx. Qed.

Lemma empty_count d n l :
  0 ≤ n → Forall (λ x, log_path d x ∧ is_Some (files empty_world !! x)) l → Z.of_nat (length l) ≤ n + 1.
Proof.
  intros Hn Hl. destruct l as [|x l]; [simpl; lia|]. exfalso.
  apply Forall_cons in Hl as [[_ [v Hv]] _]. simpl in Hv. by rewrite lookup_empty in Hv.
Qed.

Definition small_options : list RotatorOption := [MaxSizeBytes 10; MaxBackups 1].

Lemma small_ok : options_ok (foldl apply_option (default_rotator "sample") small_options).
Proof. unfold options_ok, two63, MaxBackupsLimit, ModePerm. simpl. lia. Qed.

Lemma small_names : names_ok "sample" "ndjson".
Proof. done. Qed.

Lemma rotator_run_bounded_witness :
  ∃ s s', NewFileRotator noon no_fault empty_world "sample" small_options = Ok s ∧
    rotator_run noon [OpWrite "abc"; OpRotate; OpWrite "de"; OpSync] s = (s', true) ∧
    (∀ x n, log_path (date0 "sample" "ndjson" (noon 0)) x → files (wld s') !! x = Some n →
       ∃ data, n = Regular data ∧ strlen data ≤ 20) ∧
    backups_le (rot (rtr s')) (files (wld s')) 1.
Proof.
  apply (rotator_run_bounded noon empty_world "sample" small_options 0); [apply noon_valid|
    apply small_ok|apply small_names|done|done|done| | |].
  - apply empty_logs.
  - intros l _. apply empty_count. simpl. lia.
  - repeat constructor; vm_compute; congruence.
Defined.

Lemma small_start :
  ∃ s, NewFileRotator noon no_fault empty_world "sample" small_options = Ok s ∧ run_ok 0 s ∧
    maxSizeBytes (rtr s) = 10.
Proof.
  destruct (NewFileRotator_correct noon noon_valid empty_world "sample" small_options 0
    small_ok small_names) as (s & He & Hok & _ & _ & Hm & _); [done| |done| |].
  - apply empty_logs.
  - intros l _. apply empty_count. simpl. lia.
  - by exists s.
Qed.

Lemma Write_appends_witness :
  ∃ s s', NewFileRotator noon no_fault empty_world "sample" small_options = Ok s ∧
    Write noon no_fault "abc" s = (s', Ok 3) ∧ wrote 1 "abc" s s'.
Proof.
  destruct small_start as (s & He & Hok & Hm).
  destruct (Write_appends noon 0 "abc" s noon_valid Hok) as (s' & Hw & Hwr).
  - unfold two63. lia.
  - rewrite Hm. vm_compute. congruence.
  - by exists s, s'.
Defined.

Definition sample_date : dateRotator := date0 "sample" "ndjson" (noon 0).

Lemma sample_date_ok : date_ok sample_date.
Proof. apply date0_ok; [apply small_names|apply noon_valid]. Qed.

Lemma Rotate_fresh_name_witness :
  ∃ d' i, d_Rotate {[ "sample-20211111.ndjson" := Regular "x" ]} (noon 0) sample_date = (d', Ok tt) ∧
    currentFilename d' = "sample-20211111-1.ndjson" ∧
    order_of sample_date (currentFilename d') = Ok (mkOrder i (midnight (noon 0))).
Proof.
  destruct (Rotate_fresh_name {[ "sample-20211111.ndjson" := Regular "x" ]} (noon 0) sample_date 0)
    as (d' & i & He & _ & _ & Ho & _).
  - apply sample_date_ok.
  - apply (noon_valid 0).
  - unfold two63. lia.
  - intros u i _ [v Hv] Ho. apply lookup_singleton_Some in Hv as [Hv _]. rewrite <- Hv in Ho.
    vm_compute in Ho. injection Ho as <-. done.
  - exists d', i. split; [done|]. split; [|done].
    assert (Hc : currentFilename (d_Rotate {[ "sample-20211111.ndjson" := Regular "x" ]} (noon 0)
      sample_date).1 = "sample-20211111-1.ndjson") by (vm_compute; reflexivity).
    by rewrite He in Hc.
Defined.

Definition three_logs : fs :=
  {[ "sample-20211110.ndjson" := Regular "old";
     "sample-20211111.ndjson" := Regular "mid";
     "sample-20211111-1.ndjson" := Regular "new" ]}.

Definition three_logs_state : state :=
  mkState (mkWorld three_logs 0 0)
    (set_rot (set_current "sample-20211111-1.ndjson" sample_date)
       (foldl apply_option (default_rotator "sample") small_options)).

Lemma three_logs_ok : logs_ok 1 10 (set_current "sample-20211111-1.ndjson" sample_date) three_logs.
Proof.
  intros x n _ Hx. unfold three_logs in Hx.
  repeat (apply lookup_insert_Some in Hx as [[<- <-]|[_ Hx]];
    [eexists _, _; split; [done|]; split; [vm_compute; congruence|];
     split; [vm_compute; reflexivity|vm_compute; congruence]|]).
  apply lookup_singleton_Some in Hx as [<- <-].
  eexists _, _. split; [done|]. split; [vm_compute; congruence|].
  split; [vm_compute; reflexivity|vm_compute; congruence].
Qed.

Lemma purge_removes_oldest_witness :
  ∃ s', purge no_fault three_logs_state = (s', Ok tt) ∧
    purged (rot (rtr three_logs_state)) three_logs (files (wld s')) 1.
Proof.
  apply (purge_removes_oldest 1 10 three_logs_state).
  - apply date_ok_set_current; [apply sample_date_ok|]. by exists "20211111-1".
  - apply three_logs_ok.
  - simpl. lia.
Defined.

(** ** Where the code departs from its documentation *)

(** The files after a sequence of calls on a rotator started in an empty
    directory with a maximum size of 10 bytes. *)
Definition after_calls (calls : list (state → state)) : option fs :=
  match NewFileRotator noon no_fault empty_world "sample" small_options with
  | Ok s => Some (files (wld (foldl (λ s c, c s) s calls)))
  | _ => None
  end.

Definition write10 (s : state) : state := (Write noon no_fault "0123456789" s).1.
Definition close (s : state) : state := (Close no_fault s).1.

(** [Write] goes over the maximum size it says it avoids.  The write that opens
    or rotates a file is not counted by the size trigger, so with a maximum of
    10 bytes two writes of 10 bytes share a file; and as every write after a
    [Close] opens the file again without counting, closing between writes makes
    the file grow without bound: 30 bytes after three writes. *)
Theorem Write_exceeds_max_size :
  after_calls [write10; write10] =
    Some {[ "sample-20211111.ndjson" := Regular "01234567890123456789" ]} ∧
  after_calls [write10; close; write10; close; write10] =
    Some {[ "sample-20211111.ndjson" := Regular "012345678901234567890123456789" ]}.
Proof. split; vm_compute; reflexivity. Qed.

(** A rotator whose oldest log file is a symbolic link to nothing. *)
Definition dangling_state : state :=
  mkState (mkWorld (<["sample-20211109.ndjson" := Symlink "gone"]> three_logs) 0 0)
    (rtr three_logs_state).

(** A dangling symbolic link among the rotated files stops the purge: [Stat]
    reports that the link's target does not exist, and the purge takes that for
    the end of its work.  Nothing is removed although three rotated files exceed
    the maximum of one. *)
Theorem dangling_link_stops_purge :
  ∃ s', purge no_fault dangling_state = (s', Ok tt) ∧
    files (wld s') = files (wld dangling_state) ∧
    ¬ backups_le (rot (rtr s')) (files (wld s')) (maxBackups (rtr s')).
Proof.
  assert (H : ∃ s', purge no_fault dangling_state = (s', Ok tt) ∧
    files (wld s') = files (wld dangling_state) ∧ maxBackups (rtr s') = 1 ∧
    currentFilename (rot (rtr s')) = "sample-20211111-1.ndjson" ∧
    filenamePrefix (rot (rtr s')) = "sample-" ∧ d_extension (rot (rtr s')) = ".ndjson").
  { eexists. split; [vm_compute; reflexivity|]. split_and!; vm_compute; reflexivity. }
  destruct H as (s' & He & Hf & Hm & Hc & Hp & Hx). exists s'. split; [done|]. split; [done|].
  rewrite Hm, Hf. intros Hb.
  specialize (Hb ["sample-20211110.ndjson"; "sample-20211111.ndjson"]). simpl in Hb.
  assert (2 ≤ 1); [|lia]. apply Hb.
  - apply (bool_decide_unpack _). vm_compute. exact I.
  - assert (Hrot : ∀ x u v, x = "sample-" +:+ u +:+ ".ndjson" → lacks "/" u = true →
      files (wld dangling_state) !! x = Some v → x ≠ "sample-20211111-1.ndjson" →
      rotated (rot (rtr s')) (files (wld dangling_state)) x).
    { intros x u v -> Hu Hv Hne. unfold rotated, log_path. rewrite Hc, Hp, Hx, Hv. eauto 10. }
    apply Forall_cons. split; [|apply Forall_cons; split; [|apply Forall_nil; exact I]].
    + by apply (Hrot _ "20211110" (Regular "old")).
    + by apply (Hrot _ "20211111" (Regular "mid")).
Qed.

(** A log file with a short name makes the constructor panic: its name is
    sliced at the position of the date without a check of its length. *)
Theorem short_name_panics :
  NewFileRotator noon no_fault
    (mkWorld {[ "sample-1.log" := Regular ""; "sample-2.log" := Regular "" ]} 0 0)
    "sample" [Extension "log"] = Panic PIndexOutOfRange.
Proof. vm_compute. reflexivity. Qed.
