(* ===== verification/RotatorSafe.v ===== *)
(** * Confinement of the file rotator under arbitrary faults

    Whatever the clock reads and whichever operating-system calls fail, the
    rotator creates, changes and removes log files only: no other file is
    touched, in particular never the target of a symbolic link put in the
    place of the active file. *)
From S2P Require Import Prelude GoStrings GoTime GoFS Trigger Rotator RotatorFacts.

Open Scope string_scope.
Open Scope Z_scope.



Section naming.
Context `{SliceSort}.



End naming.

(** ** The invariant *)
Section confinement.
Context `{SliceSort} (clock : nat → Time) (os_fault : nat → option nat) (s0 : state).

(** Files that are no log files of the rotator in [s0] are as in [s0]. *)
Record contained (s : state) : Prop := {
  ct_date : date_ok (rot (rtr s));
  ct_prefix : filenamePrefix (rot (rtr s)) = filenamePrefix (rot (rtr s0));
  ct_ext : d_extension (rot (rtr s)) = d_extension (rot (rtr s0));
  ct_files : ∀ q, ¬ log_path (rot (rtr s0)) q → files (wld s) !! q = files (wld s0) !! q;
  ct_file : ∀ p, file (rtr s) = Some p →
    p = currentFilename (rot (rtr s)) ∧ ∃ data, files (wld s) !! p = Some (Regular data)
}.


(** From [P], a normal return ends in [Q], any other outcome in [contained]. *)
Definition pres {E A} (P : state → Prop) (c : SE state E A) (Q : A → state → Prop) : Prop :=
  ∀ s s' r, P s → c s = (s', r) →
    match r with Ok a => Q a s' | _ => contained s' end.




Lemma pres_get {E} (P : state → Prop) : pres (E:=E) P get_store (λ a s, a = s ∧ P s).
Proof. by intros s s' r Hs [= <- <-]. Qed.
































End confinement.







