(* ===== verification/Monitoring.v ===== *)
(** * Package [monitoring]: registries and metrics

    opts.go, registry.go, metrics.go, namespace.go and the convenience
    functions of monitoring.go.

    Registries and metrics are objects behind pointers; the store maps
    pointers to objects, and also holds the names published to [expvar], which
    can neither be published twice nor withdrawn, and the namespaces.  The
    mutexes make every exported operation one step.  A registry that contains
    itself would lock itself out in the code; the operations below follow the
    names they are given and do not depend on that. *)
From Stdlib Require Import SpecFloat.
From S2P Require Import Prelude GoStrings GoDate.

Open Scope string_scope.
Open Scope Z_scope.

(** ** monitoring.go and opts.go *)
Inductive Mode := Reported | Full.

#[global] Instance Mode_eq_dec : EqDecision Mode.
Proof. solve_decision. Defined.

(** [a > b] *)
Definition Mode_gt (a b : Mode) : bool :=
  match a, b with Full, Reported => true | _, _ => false end.

Record options := mkOptions { publishExpvar : bool; mode : Mode }.

#[global] Instance options_eq_dec : EqDecision options.
Proof. solve_decision. Defined.

Definition Option : Type := options → options.

Definition defaultOptions : options := mkOptions false Full.
Definition PublishExpvar : Option := λ o, mkOptions true (mode o).
Definition IgnorePublishExpvar : Option := λ o, mkOptions false (mode o).
Definition Report : Option := λ o, mkOptions (publishExpvar o) Reported.
Definition DoNotReport : Option := λ o, mkOptions (publishExpvar o) Full.

(** [None] is the nil pointer. *)
Definition ensureOptions (in_ : option options) : options :=
  match in_ with Some o => o | None => defaultOptions end.

Definition varOpts (regOpts : option options) (opts : list Option) : options :=
  match regOpts, opts with
  | Some o, [] => o
  | _, _ =>
      let O := match regOpts with Some o => o | None => defaultOptions end in
      foldl (λ o opt, opt o) O opts
  end.

Definition applyOpts (in_ : option options) (opts : list Option) : options :=
  match opts with
  | [] => ensureOptions in_
  | _ => foldl (λ o opt, opt o) (ensureOptions in_) opts
  end.

(** ** The calls a variable makes on a visitor (visitor.go) *)
Definition float64 : Type := spec_float.

Inductive event :=
| OnRegistryStart
| OnRegistryFinished
| OnKey (s : string)
| OnString (s : string)
| OnBool (b : bool)
| OnInt (i : Z)
| OnFloat (f : float64)
| OnStringSlice (f : list string).

(** ** Objects *)
Record entry := mkEntry { Var : option positive; eMode : Mode }.

Record Registry := mkRegistry {
  name : string;
  entries : gmap string entry;
  opts : options
}.

Definition set_entries (m : gmap string entry) (r : Registry) : Registry :=
  mkRegistry (name r) m (opts r).

(** A [Func] calls the visitor back; what it calls depends on the mode.  So does
    a variable of a type another package defines. *)
Inductive object :=
| ORegistry (r : Registry)
| OInt (i : Z)
| OUint (u : Z)
| OFloat (f : float64)
| OBool (b : bool)
| OString (s : string)
| OTimestamp (ts : Instant) (cached : string)
| OFunc (f : Mode → list event)
| OForeign (f : Mode → list event).

Record Namespace := mkNamespace { ns_registry : option positive }.

Record store := mkStore {
  objs : gmap positive object;
  published : gset string;
  namespaces : gmap string Namespace
}.

Inductive mon_error :=
| errNotFound
| errInvalidName
| errAlreadyUsed (name : string)
| errCannotClear.

Abbreviation MM := (SE store mon_error).

Definition set_objs (h : gmap positive object) (s : store) : store :=
  mkStore h (published s) (namespaces s).

Definition load_object (p : positive) : MM object := λ s,
  match objs s !! p with
  | Some o => (s, Ok o)
  | None => (s, Panic PNilPointer)
  end.

Definition load (p : positive) : MM Registry := λ s,
  match objs s !! p with
  | Some (ORegistry r) => (s, Ok r)
  | _ => (s, Panic PNilPointer)
  end.

Definition put_object (p : positive) (o : object) : MM unit :=
  modify (λ s, set_objs (<[p := o]> (objs s)) s).

Definition new_object (o : object) : MM positive := λ s,
  let p := fresh (dom (objs s)) in (set_objs (<[p := o]> (objs s)) s, Ok p).

(** [r.entries[name] = e] and [delete(r.entries, name)] *)
Definition set_entry (p : positive) (n : string) (e : entry) : MM unit :=
  r ← load p; put_object p (ORegistry (set_entries (<[n := e]> (entries r)) r)).
Definition delete_entry (p : positive) (n : string) : MM unit :=
  r ← load p; put_object p (ORegistry (set_entries (delete n (entries r)) r)).

(** The type assertion to a pointer to [Registry]. *)
Definition as_registry (s : store) (v : option positive) : option positive :=
  p ← v; match objs s !! p with Some (ORegistry _) => Some p | _ => None end.

(** ** registry.go *)
Definition Default : positive := 1.

Definition NewRegistry (opts : list Option) : MM positive :=
  new_object (ORegistry (mkRegistry "" ∅ (applyOpts None opts))).

Definition fullName (r : Registry) (n : string) : string :=
  if String.eqb (name r) "" then n else name r +:+ "." +:+ n.

Definition panicErr {A} (c : MM A) : MM A := λ s,
  match c s with
  | (s', Err e) =>
      (s', Panic (PExplicit (match e with
                             | errNotFound => "name unknown"
                             | errInvalidName => "name does not point to a valid variable"
                             | errAlreadyUsed n => "name " +:+ n +:+ " already used"
                             | errCannotClear => "cannot clear registry"
                             end)))
  | r => r
  end.

Fixpoint addNames (names : list string) (r : positive) (v : option positive) (o : options)
  : MM unit :=
  match names with
  | [] => panics PIndexOutOfRange
  | [n] =>
      reg ← load r;
      match entries reg !! n with
      | Some _ => fail (errAlreadyUsed n)
      | None => set_entry r n (mkEntry v (mode o))
      end
  | n :: names' =>
      reg ← load r;
      match entries reg !! n with
      | Some tmp =>
          s ← get_store;
          match as_registry s (Var tmp) with
          | Some sub => addNames names' sub v o
          | None => fail (errAlreadyUsed n)
          end
      | None =>
          sub ← new_object (ORegistry (mkRegistry "" ∅ o));
          addNames names' sub v o ≫= λ _,
          set_entry r n (mkEntry (Some sub) (mode o))
      end
  end.

Definition doAdd (r : positive) (n : string) (v : option positive) (o : options) : MM unit :=
  panicErr (addNames (Split n ".") r v o).

Definition Add (r : positive) (n : string) (v : option positive) (m : Mode) : MM unit :=
  reg ← load r;
  let o := if bool_decide (m = mode (opts reg)) then opts reg
           else mkOptions (publishExpvar (opts reg)) m in
  panicErr (addNames (Split n ".") r v o).

Definition r_NewRegistry (r : positive) (n : string) (os : list Option) : MM positive :=
  reg ← load r;
  let o := applyOpts (Some (opts reg)) os in
  v ← new_object (ORegistry (mkRegistry (fullName reg n) ∅ o));
  Add r n (Some v) (mode o) ≫= λ _, mret v.

Definition zero_entry : entry := mkEntry None Reported.

Fixpoint findNames (names : list string) (r : positive) : MM entry :=
  match names with
  | [] => reg ← load r; mret (mkEntry (Some r) (mode (opts reg)))
  | [n] => reg ← load r; mret (default zero_entry (entries reg !! n))
  | n :: names' =>
      reg ← load r;
      match entries reg !! n with
      | None => fail errNotFound
      | Some next =>
          s ← get_store;
          match as_registry s (Var next) with
          | Some sub => findNames names' sub
          | None => fail errInvalidName
          end
      end
  end.

Definition find (r : positive) (n : string) : MM entry := findNames (Split n ".") r.

(** The variable of that name, or nil. *)
Definition Get (r : positive) (n : string) : MM (option positive) :=
  v ← attempt (find r n);
  match v with inl e => mret (Var e) | inr _ => mret None end.

Definition GetRegistry (r : positive) (n : string) : MM (option positive) :=
  v ← Get r n; s ← get_store; mret (as_registry s v).

Fixpoint newRegistryChainWithLock (names : list string) (cur : positive) (o : options)
  : MM positive :=
  match names with
  | [] => mret cur
  | n :: names' =>
      reg ← load cur;
      sub ← new_object (ORegistry (mkRegistry (fullName reg n) ∅ o));
      set_entry cur n (mkEntry (Some sub) (mode o)) ≫= λ _,
      newRegistryChainWithLock names' sub o
  end.

(** [None] is the nil registry returned when a name is taken by a variable. *)
Fixpoint getOrCreateRegistry (names : list string) (r : positive) (os : list Option)
  : MM (option positive) :=
  match names with
  | [] => mret (Some r)
  | n :: names' =>
      reg ← load r;
      match entries reg !! n with
      | Some e =>
          s ← get_store;
          match as_registry s (Var e) with
          | None => mret None
          | Some sub => getOrCreateRegistry names' sub os
          end
      | None =>
          p ← newRegistryChainWithLock names r (applyOpts (Some (opts reg)) os); mret (Some p)
      end
  end.

Definition GetOrCreateRegistry (r : positive) (n : string) (os : list Option)
  : MM (option positive) := getOrCreateRegistry (Split n ".") r os.

Fixpoint removeNames (names : list string) (r : positive) : MM unit :=
  match names with
  | [] => mret tt
  | [n] => delete_entry r n
  | n :: names' =>
      reg ← load r;
      match entries reg !! n with
      | None => mret tt
      | Some next =>
          s ← get_store;
          match as_registry s (Var next) with
          | None => mret tt
          | Some sub =>
              removeNames names' sub ≫= λ _,
              subreg ← load sub;
              if bool_decide (entries subreg = ∅) then delete_entry r n else mret tt
          end
      end
  end.

Definition Remove (r : positive) (n : string) : MM unit := removeNames (Split n ".") r.

Definition Clear (r : positive) : MM unit :=
  reg ← load r;
  if publishExpvar (opts reg) then fail errCannotClear
  else put_object r (ORegistry (set_entries ∅ reg)).

(** ** metrics.go *)
Definition setupMetric (reg : option positive) (n : string) (os : list Option)
  : MM (option positive * positive) :=
  match reg with
  | None => mret (None, Default)
  | Some r =>
      vis ← Get r n;
      match vis with
      | None => mret (None, r)
      | Some v =>
          match os with
          | [] => mret (Some v, r)
          | _ => panics (PExplicit "the variable cannot be re-registered with options")
          end
      end
  end.

(** [expvar.Publish] panics on a name in use. *)
Definition expvar_Publish (n : string) : MM unit := λ s,
  if bool_decide (n ∈ published s) then (s, Panic (PExplicit "Reuse of exported var name"))
  else (mkStore (objs s) ({[ n ]} ∪ published s) (namespaces s), Ok tt).

Definition addVar (r : positive) (n : string) (os : list Option) (v : option positive)
    (ev : bool) : MM unit :=
  reg ← load r;
  let O := varOpts (Some (opts reg)) os in
  doAdd r n v O ≫= λ _,
  if publishExpvar O && ev then expvar_Publish (fullName reg n) else mret tt.

(** The body the constructors share: [same] is the type assertion, [init] the
    zero value, [ev] whether an [expvar] is offered. *)
Definition new_metric (same : object → bool) (init : object) (ev : bool)
    (r : option positive) (n : string) (os : list Option) : MM positive :=
  '(existingVar, r') ← setupMetric r n os;
  match existingVar with
  | Some p =>
      o ← load_object p;
      if same o then mret p
      else panics (PExplicit "variable was first registered with another type")
  | None =>
      v ← new_object init;
      addVar r' n os (Some v) ev ≫= λ _, mret v
  end.

Definition is_Int (o : object) : bool := match o with OInt _ => true | _ => false end.
Definition is_Uint (o : object) : bool := match o with OUint _ => true | _ => false end.
Definition is_Float (o : object) : bool := match o with OFloat _ => true | _ => false end.
Definition is_Bool (o : object) : bool := match o with OBool _ => true | _ => false end.
Definition is_String (o : object) : bool := match o with OString _ => true | _ => false end.
Definition is_Timestamp (o : object) : bool := match o with OTimestamp _ _ => true | _ => false end.
Definition is_Func (o : object) : bool := match o with OFunc _ => true | _ => false end.

Definition NewInt := new_metric is_Int (OInt 0) true.
Definition NewUint := new_metric is_Uint (OUint 0) true.
Definition NewFloat := new_metric is_Float (OFloat (S754_zero false)) true.
Definition NewBool := new_metric is_Bool (OBool false) true.
Definition NewString := new_metric is_String (OString "") true.
Definition NewTimestamp := new_metric is_Timestamp (OTimestamp zeroInstant "") true.
Definition NewFunc r n f os := new_metric is_Func (OFunc f) false r n os.

(** *** Int *)
Definition Int_Get (p : positive) : MM Z :=
  o ← load_object p; match o with OInt i => mret i | _ => panics PNilPointer end.
Definition Int_Set (p : positive) (value : Z) : MM unit := put_object p (OInt value).
Definition Int_Add (p : positive) (delta : Z) : MM unit :=
  i ← Int_Get p; put_object p (OInt (wrap64 (i + delta))).
Definition Int_Sub (p : positive) (delta : Z) : MM unit := Int_Add p (wrap64 (- delta)).
Definition Int_Inc (p : positive) : MM unit := Int_Add p 1.
Definition Int_Dec (p : positive) : MM unit := Int_Add p (-1).

(** *** Uint *)
Definition Uint_Get (p : positive) : MM Z :=
  o ← load_object p; match o with OUint u => mret u | _ => panics PNilPointer end.
Definition Uint_Set (p : positive) (value : Z) : MM unit := put_object p (OUint value).
Definition Uint_Add (p : positive) (delta : Z) : MM unit :=
  u ← Uint_Get p; put_object p (OUint (wrapu64 (u + delta))).
Definition Uint_Sub (p : positive) (delta : Z) : MM unit := Uint_Add p (wrapu64 (- delta)).
Definition Uint_Inc (p : positive) : MM unit := Uint_Add p 1.
Definition Uint_Dec (p : positive) : MM unit := Uint_Add p (two64 - 1).
(** [v.Get() & (^uint64(1 << 63))], as an [int64]. *)
Definition Uint_visible (u : Z) : Z := Z.land u (two63 - 1).

(** *** Float: the bits of a [float64], added with the rounding of binary64.
    The compare-and-swap loop ends in its first turn when nothing interferes. *)
Definition Float_Get (p : positive) : MM float64 :=
  o ← load_object p; match o with OFloat f => mret f | _ => panics PNilPointer end.
Definition Float_Set (p : positive) (value : float64) : MM unit := put_object p (OFloat value).
Definition Float_Add (p : positive) (delta : float64) : MM unit :=
  f ← Float_Get p; put_object p (OFloat (SFadd 53 1024 f delta)).
Definition Float_Sub (p : positive) (delta : float64) : MM unit := Float_Add p (SFopp delta).

(** *** Bool and String *)
Definition Bool_Get (p : positive) : MM bool :=
  o ← load_object p; match o with OBool b => mret b | _ => panics PNilPointer end.
Definition Bool_Set (p : positive) (value : bool) : MM unit := put_object p (OBool value).
Definition String_Get (p : positive) : MM string :=
  o ← load_object p; match o with OString t => mret t | _ => panics PNilPointer end.
Definition String_Set (p : positive) (t : string) : MM unit := put_object p (OString t).
Definition String_Clear (p : positive) : MM unit := String_Set p "".
Definition String_Fail (p : positive) (err : string) : MM unit := String_Set p err.

(** *** Timestamp *)

(** What [toString] answers, and what it leaves in [cached]. *)
Definition Timestamp_text (ts : Instant) (cached : string) : string * string :=
  if IsZero ts then ("", cached)
  else
    let cached := if bool_decide (cached = "") then Format_ms ts else cached in
    (cached, cached).

Definition load_timestamp (p : positive) : MM (Instant * string) :=
  o ← load_object p; match o with OTimestamp ts c => mret (ts, c) | _ => panics PNilPointer end.

Definition Timestamp_Set (p : positive) (t : Instant) : MM unit := put_object p (OTimestamp t "").
Definition Timestamp_Get (p : positive) : MM Instant := '(ts, _) ← load_timestamp p; mret ts.
Definition Timestamp_toString (p : positive) : MM string :=
  '(ts, cached) ← load_timestamp p;
  let '(text, cached') := Timestamp_text ts cached in
  put_object p (OTimestamp ts cached') ≫= λ _, mret text.

(** ** namespace.go *)
Definition put_namespace (n : string) (x : Namespace) : MM unit :=
  modify (λ s, mkStore (objs s) (published s) (<[n := x]> (namespaces s))).

(** [namespaces.Get(key)]: namespaces are named by their key. *)
Definition GetNamespace (n : string) : MM Namespace :=
  s ← get_store;
  match namespaces s !! n with
  | Some x => mret x
  | None => put_namespace n (mkNamespace None) ≫= λ _, mret (mkNamespace None)
  end.

Definition SetRegistry (n : string) (r : option positive) : MM unit :=
  GetNamespace n ≫= λ _, put_namespace n (mkNamespace r).

Definition ns_GetRegistry (n : string) : MM positive :=
  x ← GetNamespace n;
  match ns_registry x with
  | Some r => mret r
  | None =>
      r ← NewRegistry []; put_namespace n (mkNamespace (Some r)) ≫= λ _, mret r
  end.

(** The store after the package is initialised: [Default], the registry of the
    namespace ["stats"]. *)
Definition init_store : store :=
  mkStore {[ Default := ORegistry (mkRegistry "" ∅ defaultOptions) ]} ∅
    {[ "stats" := mkNamespace (Some Default) ]}.
