(* ===== verification/MonitoringFacts.v ===== *)
(** * Properties of registries and metrics *)
From S2P Require Import Prelude GoStrings Monitoring.

Open Scope string_scope.
Open Scope Z_scope.

(** ** The contents of a registry, as a function of names *)
Definition registry_at (s : store) (p : positive) : option Registry :=
  match objs s !! p with Some (ORegistry r) => Some r | _ => None end.

(** The entry a non-empty list of names leads to. *)
Fixpoint lookup_names (s : store) (names : list string) (r : positive) : option entry :=
  reg ← registry_at s r;
  match names with
  | [] => Some (mkEntry (Some r) (mode (opts reg)))
  | [n] => entries reg !! n
  | n :: names' =>
      e ← entries reg !! n;
      sub ← as_registry s (Var e);
      lookup_names s names' sub
  end.

(** The names can be added: no proper prefix is taken by a variable, and the
    whole is not taken. *)
Fixpoint free (s : store) (names : list string) (r : positive) : Prop :=
  match names, registry_at s r with
  | [n], Some reg => entries reg !! n = None
  | n :: names', Some reg =>
      match entries reg !! n with
      | None => True
      | Some e => match as_registry s (Var e) with
                  | Some sub => free s names' sub
                  | None => False
                  end
      end
  | _, _ => False
  end.

(** The step of [lookup_names] through a name that is not the last. *)
Lemma lookup_names_step s n names r reg :
  names ≠ [] → registry_at s r = Some reg →
  lookup_names s (n :: names) r =
  match entries reg !! n with
  | Some e => match as_registry s (Var e) with
              | Some sub => lookup_names s names sub
              | None => None
              end
  | None => None
  end.
Proof.
  intros Hne Hr. destruct names as [|n' names]; [done|].
  remember (n' :: names) as l. cbn [lookup_names]. rewrite Heql. rewrite <- Heql. rewrite Hr.
  cbn. destruct (entries reg !! n) as [e|]; cbn; [|done]. by destruct (as_registry s (Var e)).
Qed.

Lemma lookup_names_cons s n names r reg e sub :
  names ≠ [] → registry_at s r = Some reg → entries reg !! n = Some e →
  as_registry s (Var e) = Some sub →
  lookup_names s (n :: names) r = lookup_names s names sub.
Proof. intros Hne Hr He Hs. by rewrite (lookup_names_step _ _ _ _ _ Hne Hr), He, Hs. Qed.

Lemma lookup_names_invalid s names r : registry_at s r = None → lookup_names s names r = None.
Proof. destruct names; simpl; by intros ->. Qed.

Lemma as_registry_Some s v p : as_registry s v = Some p → v = Some p ∧ is_Some (registry_at s p).
Proof.
  unfold as_registry, registry_at. destruct v as [q|]; [|done]. simpl.
  destruct (objs s !! q) as [[]|] eqn:Hq; try done. intros [= <-]. rewrite Hq. eauto.
Qed.

Lemma as_registry_at s p r : objs s !! p = Some (ORegistry r) → as_registry s (Some p) = Some p.
Proof. intros Hp. simpl. by rewrite Hp. Qed.

Lemma load_Ok s p reg : registry_at s p = Some reg → load p s = (s, Ok reg).
Proof. unfold registry_at, load. destruct (objs s !! p) as [[]|]; naive_solver. Qed.

Lemma load_inv s p s' (reg : Registry) : load p s = (s', Ok reg) → s' = s ∧ registry_at s p = Some reg.
Proof. unfold registry_at, load. destruct (objs s !! p) as [[]|]; naive_solver. Qed.

Lemma findNames_lookup s names r reg :
  registry_at s r = Some reg →
  match lookup_names s names r with
  | Some e => findNames names r s = (s, Ok e)
  | None => findNames names r s = (s, Ok zero_entry) ∨ ∃ err, findNames names r s = (s, Err err)
  end.
Proof.
  revert r reg. induction names as [|n names IH]; intros r reg Hr.
  { simpl. rewrite Hr. simpl. unfold mbind, SE_bind. by rewrite (load_Ok _ _ _ Hr). }
  destruct (decide (names = [])) as [->|Hne].
  - simpl. rewrite Hr. simpl. unfold mbind, SE_bind. rewrite (load_Ok _ _ _ Hr).
    destruct (entries reg !! n); [done|]. by left.
  - rewrite (lookup_names_step _ _ _ _ _ Hne Hr).
    assert (Hfind : findNames (n :: names) r s =
      match entries reg !! n with
      | None => (s, Err errNotFound)
      | Some e => match as_registry s (Var e) with
                  | Some sub => findNames names sub s
                  | None => (s, Err errInvalidName)
                  end
      end).
    { destruct names as [|n' names]; [done|]. remember (n' :: names) as l. cbn [findNames].
      rewrite Heql, <- Heql. unfold mbind at 1, SE_bind at 1. rewrite (load_Ok _ _ _ Hr).
      destruct (entries reg !! n) as [e|]; [|done]. rewrite SE_bind_get.
      by destruct (as_registry s (Var e)). }
    rewrite Hfind. destruct (entries reg !! n) as [e|]; [|right; by eexists].
    destruct (as_registry s (Var e)) as [sub|] eqn:Hsub; [|right; by eexists].
    apply as_registry_Some in Hsub as (_ & [subreg Hs]). by eapply IH.
Qed.

Lemma Get_lookup s n r reg :
  registry_at s r = Some reg →
  Get r n s = (s, Ok (lookup_names s (Split n ".") r ≫= Var)).
Proof.
  intros Hr. pose proof (findNames_lookup s (Split n ".") r reg Hr) as Hf.
  unfold Get, find, attempt, mbind, SE_bind.
  destruct (lookup_names s (Split n ".") r) as [e|] eqn:Hl.
  - by rewrite Hf.
  - destruct Hf as [Hf|[err Hf]]; by rewrite Hf.
Qed.

(** ** Growth of a store *)

(** Registries only gain entries, other objects do not change. *)
Definition grows (s s' : store) : Prop :=
  ∀ p o, objs s !! p = Some o →
    match o with
    | ORegistry r => ∃ m, objs s' !! p = Some (ORegistry (set_entries m r)) ∧ entries r ⊆ m
    | _ => objs s' !! p = Some o
    end.

Lemma grows_refl s : grows s s.
Proof. intros p o Hp. destruct o; try done. exists (entries r). by destruct r. Qed.

Lemma grows_trans s1 s2 s3 : grows s1 s2 → grows s2 s3 → grows s1 s3.
Proof.
  intros H1 H2 p o Hp. specialize (H1 p o Hp). destruct o; try by apply (H2 p _ H1).
  destruct H1 as (m & Hm & Hsub). destruct (H2 p _ Hm) as (m' & Hm' & Hsub'). simpl in *.
  exists m'. split; [done|]. by etransitivity.
Qed.

Lemma grows_registry s s' p reg :
  grows s s' → registry_at s p = Some reg →
  ∃ m, registry_at s' p = Some (set_entries m reg) ∧ entries reg ⊆ m.
Proof.
  unfold registry_at. intros Hg Hp. destruct (objs s !! p) as [[r| | | | | | | |]|] eqn:Ho; try done.
  injection Hp as ->. destruct (Hg p _ Ho) as (m & Hm & Hsub). exists m. by rewrite Hm.
Qed.

Lemma grows_as_registry s s' v p : grows s s' → as_registry s v = Some p → as_registry s' v = Some p.
Proof.
  intros Hg Hv. apply as_registry_Some in Hv as [-> [reg Hr]].
  destruct (grows_registry _ _ _ _ Hg Hr) as (m & Hm & _). unfold registry_at in Hm.
  simpl. by destruct (objs s' !! p) as [[]|].
Qed.

Lemma grows_lookup s s' names r e :
  grows s s' → lookup_names s names r = Some e → lookup_names s' names r = Some e.
Proof.
  intros Hg. revert r. induction names as [|n names IH]; intros r.
  { simpl. destruct (registry_at s r) as [reg|] eqn:Hr; [|done]. intros [= <-].
    by destruct (grows_registry _ _ _ _ Hg Hr) as (m & -> & _). }
  destruct (registry_at s r) as [reg|] eqn:Hr; [|by rewrite lookup_names_invalid].
  destruct (grows_registry _ _ _ _ Hg Hr) as (m & Hm & Hsub).
  destruct (decide (names = [])) as [->|Hne].
  - simpl. rewrite Hr, Hm. simpl. intros Hl. by eapply lookup_weaken.
  - rewrite (lookup_names_step _ _ _ _ _ Hne Hr), (lookup_names_step _ _ _ _ _ Hne Hm). simpl.
    destruct (entries reg !! n) as [e0|] eqn:He; [|done]. rewrite (lookup_weaken _ _ _ _ He Hsub).
    destruct (as_registry s (Var e0)) as [sub|] eqn:Hs; [|done].
    rewrite (grows_as_registry _ _ _ _ Hg Hs). apply IH.
Qed.

Lemma new_object_grows s o : grows s (new_object o s).1.
Proof.
  intros p o' Hp. simpl.
  assert (Hne : fresh (dom (objs s)) ≠ p).
  { intros Heq. apply (is_fresh (dom (objs s))). rewrite Heq. by eapply elem_of_dom_2. }
  assert (Hp' : <[fresh (dom (objs s)) := o]> (objs s) !! p = Some o')
    by by rewrite lookup_insert_ne.
  destruct o'; try done. exists (entries r). by destruct r.
Qed.

Lemma new_object_at s o : objs (new_object o s).1 !! fresh (dom (objs s)) = Some o.
Proof. simpl. by rewrite lookup_insert_eq. Qed.

Lemma set_entry_Ok s r reg n e :
  registry_at s r = Some reg → entries reg !! n = None →
  ∃ s', set_entry r n e s = (s', Ok tt) ∧ grows s s' ∧
    registry_at s' r = Some (set_entries (<[n := e]> (entries reg)) reg) ∧
    published s' = published s.
Proof.
  intros Hr Hn. unfold set_entry, mbind, SE_bind. rewrite (load_Ok _ _ _ Hr).
  eexists. split; [done|]. unfold registry_at. simpl. rewrite lookup_insert_eq.
  split; [|done]. intros p o Hp. simpl. destruct (decide (r = p)) as [<-|].
  - unfold registry_at in Hr. rewrite Hp in Hr. destruct o; try done. injection Hr as ->.
    exists (<[n := e]> (entries reg)). rewrite lookup_insert_eq. split; [done|].
    by apply insert_subseteq.
  - rewrite lookup_insert_ne by done. destruct o; try done. exists (entries r0). by destruct r0.
Qed.

(** ** Adding *)

(** The step of [addNames] and [lookup_names] through a name that is not the last. *)
Lemma addNames_cons n names r v o s reg :
  names ≠ [] → registry_at s r = Some reg →
  addNames (n :: names) r v o s =
  match entries reg !! n with
  | Some tmp =>
      match as_registry s (Var tmp) with
      | Some sub => addNames names sub v o s
      | None => (s, Err (errAlreadyUsed n))
      end
  | None =>
      let s1 := (new_object (ORegistry (mkRegistry "" ∅ o)) s).1 in
      let sub := fresh (dom (objs s)) in
      (addNames names sub v o ≫= λ _, set_entry r n (mkEntry (Some sub) (mode o))) s1
  end.
Proof.
  intros Hne Hr. destruct names as [|n' names]; [done|].
  remember (n' :: names) as l. cbn [addNames]. rewrite Heql. rewrite <- Heql.
  unfold mbind at 1, SE_bind at 1. rewrite (load_Ok _ _ _ Hr).
  destruct (entries reg !! n) as [e|]; [|done].
  rewrite SE_bind_get. by destruct (as_registry s (Var e)).
Qed.

(** In a registry just created every name can be added; older objects other
    than it are left alone. *)
Lemma addNames_new names r v o s reg :
  names ≠ [] → registry_at s r = Some reg → entries reg = ∅ →
  ∃ s', addNames names r v o s = (s', Ok tt) ∧ grows s s' ∧ published s' = published s ∧
    lookup_names s' names r = Some (mkEntry v (mode o)) ∧
    ∀ p, is_Some (objs s !! p) → p ≠ r → objs s' !! p = objs s !! p.
Proof.
  revert r s reg. induction names as [|n names IH]; intros r s reg Hne Hr Hempty; [done|].
  assert (Hset : ∀ s1 e, registry_at s1 r = Some reg →
    ∃ s', set_entry r n e s1 = (s', Ok tt) ∧ grows s1 s' ∧ published s' = published s1 ∧
      registry_at s' r = Some (set_entries (<[n := e]> (entries reg)) reg) ∧
      ∀ p, p ≠ r → objs s' !! p = objs s1 !! p).
  { intros s1 e Hr1. destruct (set_entry_Ok s1 r reg n e Hr1) as (s' & He & Hg & Hr' & Hp);
      [by rewrite Hempty|].
    exists s'. split_and!; try done. intros p Hne'. revert He. unfold set_entry, mbind, SE_bind.
    rewrite (load_Ok _ _ _ Hr1). intros [= <-]. simpl. by rewrite lookup_insert_ne. }
  destruct (decide (names = [])) as [->|Hne'].
  - destruct (Hset s (mkEntry v (mode o)) Hr) as (s' & He & Hg & Hp & Hr' & Hother).
    exists s'. simpl. unfold mbind, SE_bind. rewrite (load_Ok _ _ _ Hr), Hempty, lookup_empty, Hr', He.
    split_and!; try done; [simpl; by rewrite lookup_insert_eq|]. intros p _. apply Hother.
  - rewrite (addNames_cons _ _ _ _ _ _ reg Hne' Hr), Hempty, lookup_empty.
    set (o1 := ORegistry (mkRegistry "" ∅ o)). cbv zeta. set (sub := fresh (dom (objs s))).
    pose proof (new_object_grows s o1) as Hg1. pose proof (new_object_at s o1) as Hat.
    fold sub in Hat. set (s1 := (new_object o1 s).1) in *.
    assert (Hold : ∀ p, is_Some (objs s !! p) → p ≠ sub ∧ objs s1 !! p = objs s !! p).
    { intros p Hp. assert (p ≠ sub).
      { intros ->. apply (is_fresh (dom (objs s))), elem_of_dom, Hp. }
      split; [done|]. unfold s1. simpl. by rewrite lookup_insert_ne. }
    assert (Hsome : is_Some (objs s !! r)) by (unfold registry_at in Hr; destruct (objs s !! r); eauto; done).
    destruct (Hold r Hsome) as [Hrs Hr1].
    assert (Hreg1 : registry_at s1 r = Some reg) by (unfold registry_at in *; by rewrite Hr1).
    destruct (IH sub s1 (mkRegistry "" ∅ o)) as (s2 & Ha & Hg2 & Hp2 & Hl2 & Hother2);
      [done|unfold registry_at; by rewrite Hat|done|].
    assert (Hreg2 : registry_at s2 r = Some reg).
    { unfold registry_at. rewrite Hother2; [done|by rewrite Hr1|done]. }
    destruct (Hset s2 (mkEntry (Some sub) (mode o)) Hreg2) as (s3 & He3 & Hg3 & Hp3 & Hr3 & Hother3).
    exists s3. unfold mbind, SE_bind. rewrite Ha, He3. split; [done|].
    split; [by eapply grows_trans, grows_trans|]. split; [by rewrite Hp3, Hp2|]. split.
    + rewrite (lookup_names_cons _ _ _ _ _ (mkEntry (Some sub) (mode o)) sub Hne' Hr3).
      * by eapply grows_lookup.
      * simpl. by rewrite lookup_insert_eq.
      * eapply grows_as_registry; [exact Hg3|]. eapply grows_as_registry; [exact Hg2|].
        by eapply as_registry_at.
    + intros p Hp Hpr. rewrite Hother3 by done. destruct (Hold p Hp) as [Hps <-].
      apply Hother2; [by rewrite (proj2 (Hold p Hp))|done].
Qed.

Lemma free_cons s n names r reg :
  names ≠ [] → registry_at s r = Some reg →
  free s (n :: names) r ↔
  match entries reg !! n with
  | None => True
  | Some e => match as_registry s (Var e) with Some sub => free s names sub | None => False end
  end.
Proof. intros Hne Hr. destruct names; [done|]. simpl. by rewrite Hr. Qed.

Lemma free_registry s names r : free s names r → is_Some (registry_at s r).
Proof. destruct names as [|n [|n' names]]; simpl; destruct (registry_at s r); done || eauto. Qed.

Lemma addNames_Ok names r v o s :
  free s names r →
  ∃ s', addNames names r v o s = (s', Ok tt) ∧ grows s s' ∧ published s' = published s ∧
    lookup_names s' names r = Some (mkEntry v (mode o)).
Proof.
  revert r. induction names as [|n names IH]; intros r Hfree; [by destruct (registry_at s r)|].
  destruct (free_registry _ _ _ Hfree) as [reg Hr].
  destruct (decide (names = [])) as [->|Hne].
  - simpl in Hfree. rewrite Hr in Hfree.
    destruct (set_entry_Ok s r reg n (mkEntry v (mode o)) Hr Hfree) as (s' & He & Hg & Hr' & Hp).
    exists s'. simpl. unfold mbind, SE_bind. rewrite (load_Ok _ _ _ Hr), Hfree, He, Hr'.
    split_and!; try done. simpl. by rewrite lookup_insert_eq.
  - rewrite (addNames_cons _ _ _ _ _ _ reg Hne Hr).
    apply (free_cons _ _ _ _ _ Hne Hr) in Hfree. destruct (entries reg !! n) as [e|] eqn:He.
    + destruct (as_registry s (Var e)) as [sub|] eqn:Hsub; [|done].
      destruct (IH sub Hfree) as (s' & Ha & Hg & Hp & Hl). exists s'. split_and!; try done.
      destruct (grows_registry _ _ _ _ Hg Hr) as (m & Hm & Hm').
      rewrite (lookup_names_cons s' n names r _ e sub Hne Hm); [done| |by eapply grows_as_registry].
      by eapply lookup_weaken.
    + cbv zeta. set (o1 := ORegistry (mkRegistry "" ∅ o)). set (sub := fresh (dom (objs s))).
      pose proof (new_object_grows s o1) as Hg1. pose proof (new_object_at s o1) as Hat.
      fold sub in Hat. set (s1 := (new_object o1 s).1) in *.
      assert (Hrs : r ≠ sub).
      { intros ->. apply (is_fresh (dom (objs s))), elem_of_dom. unfold registry_at in Hr.
        fold sub. destruct (objs s !! sub); eauto; done. }
      assert (Hreg1 : registry_at s1 r = Some reg).
      { unfold registry_at in *. unfold s1. simpl. by rewrite lookup_insert_ne. }
      destruct (addNames_new names sub v o s1 (mkRegistry "" ∅ o)) as (s2 & Ha & Hg2 & Hp2 & Hl2 & Hother2);
        [done|unfold registry_at; by rewrite Hat|done|].
      assert (Hreg2 : registry_at s2 r = Some reg).
      { unfold registry_at in *. rewrite Hother2; [done| |done]. destruct (objs s1 !! r); eauto; done. }
      destruct (set_entry_Ok s2 r reg n (mkEntry (Some sub) (mode o)) Hreg2 He)
        as (s3 & He3 & Hg3 & Hr3 & Hp3).
      exists s3. unfold mbind, SE_bind. rewrite Ha, He3. split; [done|].
      split; [by eapply grows_trans, grows_trans|]. split; [by rewrite Hp3, Hp2|].
      rewrite (lookup_names_cons _ _ _ _ _ (mkEntry (Some sub) (mode o)) sub Hne Hr3).
      * by eapply grows_lookup.
      * simpl. by rewrite lookup_insert_eq.
      * eapply grows_as_registry; [exact Hg3|]. eapply grows_as_registry; [exact Hg2|].
        by eapply as_registry_at.
Qed.

Lemma addNames_taken names r v o s :
  names ≠ [] → is_Some (registry_at s r) → ¬ free s names r →
  ∃ n, addNames names r v o s = (s, Err (errAlreadyUsed n)).
Proof.
  revert r. induction names as [|n names IH]; intros r Hne [reg Hr] Hfree; [done|].
  destruct (decide (names = [])) as [->|Hne'].
  - simpl in Hfree. rewrite Hr in Hfree. simpl. unfold mbind, SE_bind. rewrite (load_Ok _ _ _ Hr).
    destruct (entries reg !! n); [by exists n|done].
  - rewrite (addNames_cons _ _ _ _ _ _ reg Hne' Hr).
    rewrite (free_cons _ _ _ _ _ Hne' Hr) in Hfree. destruct (entries reg !! n) as [e|]; [|done].
    destruct (as_registry s (Var e)) as [sub|] eqn:Hsub; [|by exists n].
    apply IH; [done|by apply as_registry_Some in Hsub as [_ ?]|done].
Qed.

Definition add_opts (reg : Registry) (m : Mode) : options :=
  if bool_decide (m = mode (opts reg)) then opts reg else mkOptions (publishExpvar (opts reg)) m.

Lemma mode_add_opts reg m : mode (add_opts reg m) = m.
Proof. unfold add_opts. by case_bool_decide. Qed.

Lemma Split_dot_nonempty n : Split n "." ≠ [].
Proof. apply Split_nonempty. Qed.

(** C5: [Add] succeeds exactly when no variable bears the name or a proper prefix of
    it.  Then the name leads to the variable with the given mode, and every name
    that led somewhere before, from any registry, still leads there.  Otherwise
    it panics and leaves the store as it was. *)
Theorem Add_spec s r n v m :
  is_Some (registry_at s r) →
  (free s (Split n ".") r →
     ∃ s', Add r n v m s = (s', Ok tt) ∧
       lookup_names s' (Split n ".") r = Some (mkEntry v m) ∧
       Get r n s' = (s', Ok v) ∧
       ∀ r' names e, lookup_names s names r' = Some e → lookup_names s' names r' = Some e) ∧
  (¬ free s (Split n ".") r → ∃ p, Add r n v m s = (s, Panic p)).
Proof.
  intros [reg Hr]. unfold Add, mbind, SE_bind. rewrite (load_Ok _ _ _ Hr).
  fold (add_opts reg m). split; intros Hf.
  - destruct (addNames_Ok (Split n ".") r v (add_opts reg m) s Hf) as (s' & He & Hg & _ & Hl).
    rewrite mode_add_opts in Hl. exists s'. unfold panicErr. rewrite He. split; [done|].
    split; [done|]. destruct (grows_registry _ _ _ _ Hg Hr) as (m' & Hm' & _).
    split; [by rewrite (Get_lookup _ _ _ _ Hm'), Hl|]. intros. by eapply grows_lookup.
  - destruct (addNames_taken (Split n ".") r v (add_opts reg m) s) as [n' He];
      [apply Split_dot_nonempty|eauto|done|].
    unfold panicErr. rewrite He. eauto.
Qed.

Lemma Add_spec_witness :
  ∃ s', Add Default "a.b" (Some 7%positive) Full init_store = (s', Ok tt) ∧
    lookup_names s' ["a"; "b"] Default = Some (mkEntry (Some 7%positive) Full) ∧
    Get Default "a.b" s' = (s', Ok (Some 7%positive)) ∧
    ∀ r' names e, lookup_names init_store names r' = Some e → lookup_names s' names r' = Some e.
Proof.
  refine (proj1 (Add_spec init_store Default "a.b" (Some 7%positive) Full _) _).
  - by eexists.
  - vm_compute. exact I.
Defined.

(** ** Constructors of metrics *)
Lemma Get_free s r n reg :
  registry_at s r = Some reg → free s (Split n ".") r → Get r n s = (s, Ok None).
Proof.
  intros Hr Hf. rewrite (Get_lookup _ _ _ _ Hr). do 2 f_equal.
  assert (Hl : ∀ names r, free s names r → lookup_names s names r = None).
  { intros names. induction names as [|x names IH]; intros r0 Hf0.
    { simpl in Hf0. by destruct (registry_at s r0). }
    destruct (free_registry _ _ _ Hf0) as [reg0 Hr0]. destruct (decide (names = [])) as [->|Hne].
    - simpl in *. rewrite Hr0 in *. simpl. done.
    - rewrite (lookup_names_step _ _ _ _ _ Hne Hr0).
      apply (free_cons _ _ _ _ _ Hne Hr0) in Hf0. destruct (entries reg0 !! x) as [e|]; [|done].
      destruct (as_registry s (Var e)) as [sub|]; [|done]. by apply IH. }
  by rewrite Hl.
Qed.

Definition not_registry (o : object) : Prop := match o with ORegistry _ => False | _ => True end.

Lemma grows_object s s' p o : grows s s' → not_registry o → objs s !! p = Some o → objs s' !! p = Some o.
Proof. intros Hg Ho Hp. specialize (Hg p o Hp). by destruct o. Qed.

#[global] Instance free_dec s names r : Decision (free s names r).
Proof.
  revert r. induction names as [|n names IH]; intros r; simpl.
  { destruct (registry_at s r); apply _. }
  destruct names as [|n' names]; destruct (registry_at s r) as [reg|]; try apply _.
  destruct (entries reg !! n) as [e|]; [|apply _].
  destruct (as_registry s (Var e)) as [sub|]; [apply IH|apply _].
Defined.

(** The constructors, by kind. *)
Inductive kind := KInt | KUint | KFloat | KBool | KString | KTimestamp | KFunc (f : Mode → list event).

Definition New (k : kind) : option positive → string → list Option → MM positive :=
  match k with
  | KInt => NewInt
  | KUint => NewUint
  | KFloat => NewFloat
  | KBool => NewBool
  | KString => NewString
  | KTimestamp => NewTimestamp
  | KFunc f => λ r n os, NewFunc r n f os
  end.

Definition has_kind (k : kind) (o : object) : bool :=
  match k with
  | KInt => is_Int o
  | KUint => is_Uint o
  | KFloat => is_Float o
  | KBool => is_Bool o
  | KString => is_String o
  | KTimestamp => is_Timestamp o
  | KFunc _ => is_Func o
  end.

Definition zero_of (k : kind) : object :=
  match k with
  | KInt => OInt 0
  | KUint => OUint 0
  | KFloat => OFloat (SpecFloat.S754_zero false)
  | KBool => OBool false
  | KString => OString ""
  | KTimestamp => OTimestamp GoDate.zeroInstant ""
  | KFunc f => OFunc f
  end.

Lemma New_eq k r n os :
  ∃ ev, New k r n os = new_metric (has_kind k) (zero_of k) ev r n os.
Proof. destruct k; eexists; reflexivity. Qed.

Lemma New_existing k r n s reg p o :
  registry_at s r = Some reg → Get r n s = (s, Ok (Some p)) → objs s !! p = Some o →
  (has_kind k o = true → New k (Some r) n [] s = (s, Ok p)) ∧
  (has_kind k o = false → ∃ msg, New k (Some r) n [] s = (s, Panic msg)) ∧
  (∀ opt os, ∃ msg, New k (Some r) n (opt :: os) s = (s, Panic msg)).
Proof.
  intros Hr Hget Ho. split; [|split].
  - intros Hk. destruct (New_eq k (Some r) n []) as [ev ->].
    unfold new_metric, setupMetric, mbind, SE_bind. rewrite Hget. cbv iota beta.
    unfold mret, SE_ret, load_object. rewrite Ho. by rewrite Hk.
  - intros Hk. destruct (New_eq k (Some r) n []) as [ev ->].
    unfold new_metric, setupMetric, mbind, SE_bind. rewrite Hget. cbv iota beta.
    unfold mret, SE_ret, load_object. rewrite Ho, Hk. by eexists.
  - intros opt os. destruct (New_eq k (Some r) n (opt :: os)) as [ev ->].
    unfold new_metric, setupMetric, mbind, SE_bind. rewrite Hget. by eexists.
Qed.

Lemma addVar_Ok r n os v ev s reg s' :
  registry_at s r = Some reg → addVar r n os (Some v) ev s = (s', Ok tt) →
  grows s s' ∧ Get r n s' = (s', Ok (Some v)).
Proof.
  intros Hr He. unfold addVar in He. apply SE_bind_Ok in He as (s1 & reg' & Hld & He).
  apply load_inv in Hld as [-> Hr']. rewrite Hr in Hr'. injection Hr' as <-.
  apply SE_bind_Ok in He as (s2 & [] & Hadd & Hpub).
  set (O := varOpts (Some (opts reg)) os) in *. unfold doAdd, panicErr in Hadd.
  destruct (decide (free s (Split n ".") r)) as [Hf|Hf].
  2: { destruct (addNames_taken (Split n ".") r (Some v) O s) as [x Hx];
         [apply Split_dot_nonempty|eauto|done|]. by rewrite Hx in Hadd. }
  destruct (addNames_Ok (Split n ".") r (Some v) O s Hf) as (s3 & Ha & Hg & _ & Hl).
  rewrite Ha in Hadd. injection Hadd as <-.
  assert (Hobjs : objs s' = objs s3).
  { destruct (publishExpvar O && ev); [|by injection Hpub as <-]. unfold expvar_Publish in Hpub.
    case_bool_decide; [done|]. by injection Hpub as <-. }
  assert (Hg' : grows s3 s').
  { intros p o Hp. rewrite Hobjs. by apply grows_refl. }
  split; [by eapply grows_trans|].
  destruct (grows_registry _ _ _ _ (grows_trans _ _ _ Hg Hg') Hr) as (m & Hm & _).
  by rewrite (Get_lookup _ _ _ _ Hm), (grows_lookup _ _ _ _ _ Hg' Hl).
Qed.

Lemma New_result k r n os s s' p reg :
  registry_at s r = Some reg → New k (Some r) n os s = (s', Ok p) →
  is_Some (registry_at s' r) ∧ Get r n s' = (s', Ok (Some p)) ∧
  ∃ o, objs s' !! p = Some o ∧ has_kind k o = true.
Proof.
  intros Hr He. destruct (New_eq k (Some r) n os) as [ev Hk]. rewrite Hk in He. clear Hk.
  unfold new_metric in He. apply SE_bind_Ok in He as (s1 & [existing r'] & Hset & He).
  pose proof (Get_lookup s n r reg Hr) as Hget.
  unfold setupMetric in Hset. apply SE_bind_Ok in Hset as (s2 & vis & Hg & Hset).
  rewrite Hget in Hg. injection Hg as <- Hvis. destruct vis as [v|].
  - destruct os; [|done]. injection Hset as <- <- <-.
    apply SE_bind_Ok in He as (s3 & o & Hld & He). unfold load_object in Hld.
    destruct (objs s !! v) as [o'|] eqn:Ho; [|done]. injection Hld as <- <-.
    destruct (has_kind k o') eqn:Hkind; [|done]. injection He as <- <-.
    split; [eauto|]. split; [by rewrite Hget, Hvis|]. eauto.
  - injection Hset as <- <- <-. apply SE_bind_Ok in He as (s3 & v & Hnew & He).
    apply SE_bind_Ok in He as (s4 & [] & Hadd & He). injection He as <- <-.
    pose proof (new_object_grows s (zero_of k)) as Hg1. pose proof (new_object_at s (zero_of k)) as Hat.
    rewrite Hnew in Hg1, Hat. simpl in Hg1, Hat.
    destruct (grows_registry _ _ _ _ Hg1 Hr) as (m & Hm & _).
    destruct (addVar_Ok _ _ _ _ _ _ _ _ Hm Hadd) as [Hg2 Hget2].
    destruct (grows_registry _ _ _ _ Hg2 Hm) as (m' & Hm' & _).
    split; [eauto|]. split; [done|].
    assert (v = fresh (dom (objs s))) as -> by (by injection Hnew as _ <-).
    exists (zero_of k). split; [|by destruct k].
    eapply grows_object; [exact Hg2| |exact Hat]. by destruct k.
Qed.

(** A metric is registered once.  After a constructor returned a variable,
    constructing the same kind of metric under the same name again returns that
    variable and changes nothing; another kind, or any options, panic and change
    nothing. *)
Theorem metric_registered_once k r n os s s' p :
  is_Some (registry_at s r) → New k (Some r) n os s = (s', Ok p) →
  New k (Some r) n [] s' = (s', Ok p) ∧
  (∀ k', has_kind k' (zero_of k) = false → ∃ msg, New k' (Some r) n [] s' = (s', Panic msg)) ∧
  (∀ k' opt os', ∃ msg, New k' (Some r) n (opt :: os') s' = (s', Panic msg)).
Proof.
  intros [reg Hr] He. destruct (New_result _ _ _ _ _ _ _ _ Hr He) as ([reg' Hr'] & Hget & o & Ho & Hk).
  pose proof (λ k, New_existing k r n s' reg' p o Hr' Hget Ho) as Hex.
  split; [by apply Hex|]. split; [|intros; by apply Hex].
  intros k' Hk'. apply Hex. by destruct k, k', o.
Qed.

Lemma metric_registered_once_witness :
  ∃ s' p, New KInt (Some Default) "requests.total" [] init_store = (s', Ok p) ∧
    New KInt (Some Default) "requests.total" [] s' = (s', Ok p) ∧
    ∃ msg, New KBool (Some Default) "requests.total" [] s' = (s', Panic msg).
Proof.
  destruct (New KInt (Some Default) "requests.total" [] init_store) as [s' r] eqn:He.
  assert (Hr : ∃ p, r = Ok p).
  { exists (match r with Ok p => p | _ => 1%positive end).
    replace r with (New KInt (Some Default) "requests.total" [] init_store).2 by by rewrite He.
    vm_compute. reflexivity. }
  destruct Hr as [p ->]. exists s', p. split; [done|].
  destruct (metric_registered_once KInt Default "requests.total" [] init_store s' p) as (H1 & H2 & _);
    [by eexists|done|].
  split; [exact H1|]. by apply H2.
Defined.

(** With a nil registry the constructors use [Default], but do not look there
    for an existing variable: a second construction panics, although with
    [Default] itself it returns the variable. *)
Theorem nil_registry_not_idempotent :
  ∃ s' p, NewInt None "requests" [] init_store = (s', Ok p) ∧
    NewInt (Some Default) "requests" [] s' = (s', Ok p) ∧
    ∃ s'' msg, NewInt None "requests" [] s' = (s'', Panic msg).
Proof.
  eexists _, _. split; [vm_compute; reflexivity|]. split; [vm_compute; reflexivity|].
  eexists _, _. vm_compute. reflexivity.
Qed.

(** ** Chains of registries *)
Lemma newRegistryChain_Ok names r o s reg :
  names ≠ [] → registry_at s r = Some reg →
  (∀ n names', names = n :: names' → entries reg !! n = None) →
  ∃ s' p, newRegistryChainWithLock names r o s = (s', Ok p) ∧ grows s s' ∧
    is_Some (registry_at s' p) ∧ lookup_names s' names r = Some (mkEntry (Some p) (mode o)).
Proof.
  revert r s reg. induction names as [|n names IH]; intros r s reg Hne Hr Hfree; [done|].
  specialize (Hfree n names eq_refl). cbn [newRegistryChainWithLock].
  unfold mbind at 1, SE_bind at 1. rewrite (load_Ok _ _ _ Hr).
  set (o1 := ORegistry (mkRegistry (fullName reg n) ∅ o)). set (sub := fresh (dom (objs s))).
  unfold mbind at 1, SE_bind at 1.
  change (new_object o1 s) with ((new_object o1 s).1, @Ok mon_error positive sub). cbv iota beta.
  pose proof (new_object_grows s o1) as Hg1. pose proof (new_object_at s o1) as Hat.
  fold sub in Hat. set (s1 := (new_object o1 s).1) in *.
  destruct (decide (r = sub)) as [->|Hrs].
  { exfalso. apply (is_fresh (dom (objs s))), elem_of_dom. fold sub. unfold registry_at in Hr.
    destruct (objs s !! sub); eauto; done. }
  assert (Hreg1 : registry_at s1 r = Some reg)
    by (unfold registry_at in *; unfold s1; simpl; by rewrite lookup_insert_ne).
  destruct (set_entry_Ok s1 r reg n (mkEntry (Some sub) (mode o)) Hreg1 Hfree)
    as (s2 & He2 & Hg2 & Hr2 & _).
  unfold mbind, SE_bind. rewrite He2.
  assert (Hsub2 : registry_at s2 sub = Some (mkRegistry (fullName reg n) ∅ o)).
  { revert He2. unfold set_entry, mbind, SE_bind. rewrite (load_Ok _ _ _ Hreg1). intros [= <-].
    unfold registry_at. simpl. rewrite lookup_insert_ne by done. unfold s1. simpl.
    by rewrite lookup_insert_eq. }
  assert (Hsome2 : as_registry s2 (Some sub) = Some sub).
  { unfold registry_at in Hsub2. simpl. by destruct (objs s2 !! sub) as [[]|]. }
  destruct (decide (names = [])) as [->|Hne'].
  - exists s2, sub. split; [done|]. split; [by eapply grows_trans|]. split; [eauto|].
    simpl. rewrite Hr2. simpl. by rewrite lookup_insert_eq.
  - destruct (IH sub s2 _ Hne' Hsub2) as (s3 & p & He3 & Hg3 & Hp & Hl); [done|].
    exists s3, p. split; [done|]. split; [by eapply grows_trans, grows_trans|]. split; [done|].
    destruct (grows_registry _ _ _ _ Hg3 Hr2) as (m & Hm & Hsubm). simpl in Hsubm.
    rewrite (lookup_names_cons s3 n names r _ (mkEntry (Some sub) (mode o)) sub Hne' Hm); [done| |].
    + simpl. eapply lookup_weaken; [|exact Hsubm]. by rewrite lookup_insert_eq.
    + by eapply grows_as_registry.
Qed.

Lemma getOrCreate_eq n names r os s reg :
  registry_at s r = Some reg →
  getOrCreateRegistry (n :: names) r os s =
  match entries reg !! n with
  | Some e => match as_registry s (Var e) with
              | None => (s, Ok None)
              | Some sub => getOrCreateRegistry names sub os s
              end
  | None => (p ← newRegistryChainWithLock (n :: names) r (applyOpts (Some (opts reg)) os);
             mret (Some p)) s
  end.
Proof.
  intros Hr. cbn [getOrCreateRegistry]. unfold mbind at 1, SE_bind at 1. rewrite (load_Ok _ _ _ Hr).
  destruct (entries reg !! n) as [e|]; [|done]. rewrite SE_bind_get. by destruct (as_registry s (Var e)).
Qed.

Lemma getOrCreate_existing names r os s p :
  names ≠ [] → (∃ md, lookup_names s names r = Some (mkEntry (Some p) md)) →
  is_Some (registry_at s p) → getOrCreateRegistry names r os s = (s, Ok (Some p)).
Proof.
  revert r. induction names as [|n names IH]; intros r Hne [md Hl] [pr Hp]; [done|].
  destruct (registry_at s r) as [reg|] eqn:Hr; [|by rewrite lookup_names_invalid in Hl].
  rewrite (getOrCreate_eq _ _ _ _ _ _ Hr). destruct (decide (names = [])) as [->|Hne'].
  - simpl in Hl. rewrite Hr in Hl. simpl in Hl. rewrite Hl.
    assert (Has : as_registry s (Some p) = Some p)
      by (unfold registry_at in Hp; simpl; by destruct (objs s !! p) as [[]|]).
    cbn [Var]. by rewrite Has.
  - rewrite (lookup_names_step _ _ _ _ _ Hne' Hr) in Hl.
    destruct (entries reg !! n) as [e|]; [|done].
    destruct (as_registry s (Var e)) as [sub|]; [|done]. by apply IH; eauto.
Qed.

Lemma getOrCreate_result names r os s :
  names ≠ [] → is_Some (registry_at s r) →
  ∃ s' res, getOrCreateRegistry names r os s = (s', Ok res) ∧ grows s s' ∧
    match res with
    | Some p => is_Some (registry_at s' p) ∧ ∃ md, lookup_names s' names r = Some (mkEntry (Some p) md)
    | None => s' = s
    end.
Proof.
  revert r. induction names as [|n names IH]; intros r Hne [reg Hr]; [done|].
  rewrite (getOrCreate_eq _ _ _ _ _ _ Hr). destruct (entries reg !! n) as [e|] eqn:He.
  - destruct (as_registry s (Var e)) as [sub|] eqn:Hsub; [|exists s, None; split_and!; [done|apply grows_refl|done]].
    pose proof (as_registry_Some _ _ _ Hsub) as [Hv [subreg Hsr]].
    destruct (decide (names = [])) as [->|Hne'].
    + exists s, (Some sub). split; [done|]. split; [apply grows_refl|]. split; [eauto|].
      exists (eMode e). simpl. rewrite Hr. simpl. rewrite He. destruct e. simpl in Hv. by subst.
    + destruct (IH sub Hne' ltac:(eauto)) as (s' & res & Hg & Hgr & Hres).
      exists s', res. split; [done|]. split; [done|]. destruct res as [p|]; [|done].
      destruct Hres as [Hp [md Hl]]. split; [done|]. exists md.
      destruct (grows_registry _ _ _ _ Hgr Hr) as (m & Hm & Hsubm).
      rewrite (lookup_names_cons s' n names r _ e sub Hne' Hm); [done| |by eapply grows_as_registry].
      by eapply lookup_weaken.
  - destruct (newRegistryChain_Ok (n :: names) r (applyOpts (Some (opts reg)) os) s reg)
      as (s' & p & Hc & Hg & Hp & Hl); [done|done|by intros ? ? [= <- <-]|].
    exists s', (Some p). unfold mbind, SE_bind. rewrite Hc. split; [done|]. split; [done|]. eauto.
Qed.

(** [GetOrCreateRegistry] never panics and overwrites nothing.  It returns nil,
    and changes nothing, when a variable bears the name or a prefix of it; else a
    registry that [GetRegistry] finds from then on under the name, and that every
    further call returns without changing anything, whatever the options. *)
Theorem GetOrCreateRegistry_spec r n os s :
  is_Some (registry_at s r) →
  ∃ s' res, GetOrCreateRegistry r n os s = (s', Ok res) ∧
    (∀ r' names e, lookup_names s names r' = Some e → lookup_names s' names r' = Some e) ∧
    match res with
    | None => s' = s
    | Some p => GetRegistry r n s' = (s', Ok (Some p)) ∧
                ∀ os', GetOrCreateRegistry r n os' s' = (s', Ok (Some p))
    end.
Proof.
  intros Hr. destruct (getOrCreate_result (Split n ".") r os s (Split_dot_nonempty n) Hr)
    as (s' & res & He & Hg & Hres).
  exists s', res. split; [done|]. split; [intros; by eapply grows_lookup|].
  destruct res as [p|]; [|done]. destruct Hres as [Hp [md Hl]]. split.
  - destruct Hr as [reg Hr]. destruct (grows_registry _ _ _ _ Hg Hr) as (m & Hm & _).
    unfold GetRegistry, mbind at 1, SE_bind at 1. rewrite (Get_lookup _ _ _ _ Hm), Hl.
    rewrite SE_bind_get. destruct Hp as [pr Hp]. unfold registry_at in Hp. unfold mret, SE_ret. simpl.
    by destruct (objs s' !! p) as [[]|].
  - intros os'. apply getOrCreate_existing; [apply Split_dot_nonempty|eauto|done].
Qed.

Lemma GetOrCreateRegistry_spec_witness :
  ∃ s' p, GetOrCreateRegistry Default "a.b" [] init_store = (s', Ok (Some p)) ∧
    GetRegistry Default "a.b" s' = (s', Ok (Some p)).
Proof.
  destruct (GetOrCreateRegistry_spec Default "a.b" [] init_store) as (s' & res & He & _ & Hres).
  { by eexists. }
  assert (Hv : is_Some (match (GetOrCreateRegistry Default "a.b" [] init_store).2 with
                        | Ok r => r | _ => None end)) by (vm_compute; by eexists).
  rewrite He in Hv. destruct Hv as [p Hp]. cbn in Hp. rewrite Hp in Hres, He.
  exists s', p. split; [done|]. apply Hres.
Defined.

(** ** Removing *)
Lemma delete_entry_Ok s r reg n :
  registry_at s r = Some reg →
  ∃ s', delete_entry r n s = (s', Ok tt) ∧
    registry_at s' r = Some (set_entries (delete n (entries reg)) reg) ∧
    ∀ p, p ≠ r → objs s' !! p = objs s !! p.
Proof.
  intros Hr. unfold delete_entry, mbind, SE_bind. rewrite (load_Ok _ _ _ Hr).
  eexists. split; [done|]. unfold registry_at. simpl. rewrite lookup_insert_eq. split; [done|].
  intros p Hp. by rewrite lookup_insert_ne.
Qed.

(** Registries only lose entries: one of the given name, or one that holds an
    empty registry; other objects do not change. *)
Definition shrinks (x : string) (s s' : store) : Prop :=
  ∀ p o, objs s !! p = Some o →
    match o with
    | ORegistry r => ∃ m, objs s' !! p = Some (ORegistry (set_entries m r)) ∧ m ⊆ entries r ∧
        ∀ n e, entries r !! n = Some e → m !! n = None →
          n = x ∨ ∃ q sub, Var e = Some q ∧ registry_at s' q = Some sub ∧ entries sub = ∅
    | _ => objs s' !! p = Some o
    end.

Lemma shrinks_refl x s : shrinks x s s.
Proof.
  intros p o Hp. destruct o; try done. exists (entries r). split; [by destruct r|].
  split; [done|]. intros n e He He'. congruence.
Qed.

Lemma shrinks_registry x s s' p reg :
  shrinks x s s' → registry_at s p = Some reg →
  ∃ m, registry_at s' p = Some (set_entries m reg) ∧ m ⊆ entries reg.
Proof.
  unfold registry_at. intros Hg Hp. destruct (objs s !! p) as [[r| | | | | | | |]|] eqn:Ho; try done.
  injection Hp as ->. destruct (Hg p _ Ho) as (m & Hm & Hsub & _). exists m. by rewrite Hm.
Qed.

(** Deleting an entry of a shrunk store that has the name, or holds an empty
    registry, shrinks it further. *)
Lemma shrinks_delete x s s1 r reg n :
  shrinks x s s1 → registry_at s1 r = Some reg →
  (∀ e, entries reg !! n = Some e →
     n = x ∨ ∃ q sub, Var e = Some q ∧ registry_at s1 q = Some sub ∧ entries sub = ∅) →
  ∃ s', delete_entry r n s1 = (s', Ok tt) ∧ shrinks x s s' ∧
    registry_at s' r = Some (set_entries (delete n (entries reg)) reg).
Proof.
  intros Hs Hr Hwhy. destruct (delete_entry_Ok s1 r reg n Hr) as (s' & Hd & Hr' & Hother).
  exists s'. split; [done|]. split; [|done].
  assert (Hempty : ∀ q sub, registry_at s1 q = Some sub → entries sub = ∅ →
    ∃ sub', registry_at s' q = Some sub' ∧ entries sub' = ∅).
  { intros q sub Hq Hsub. destruct (decide (q = r)) as [->|].
    - rewrite Hr' . eexists. split; [done|]. simpl. rewrite Hr in Hq. injection Hq as ->.
      by rewrite Hsub, delete_empty.
    - exists sub. split; [|done]. unfold registry_at in *. by rewrite Hother. }
  intros p o Hp. specialize (Hs p o Hp). destruct o as [r0| | | | | | | |].
  2-9: destruct (decide (p = r)) as [->|]; [unfold registry_at in Hr; by rewrite Hs in Hr|by rewrite Hother].
  destruct Hs as (m & Hm & Hsub & Hgone). destruct (decide (p = r)) as [->|Hpr].
  - unfold registry_at in Hr. rewrite Hm in Hr. injection Hr as <-. simpl in *.
    exists (delete n m). split.
    { unfold registry_at in Hr'. destruct (objs s' !! r) as [[]|]; try done. injection Hr' as ->. done. }
    split; [etransitivity; [apply delete_subseteq|done]|].
    intros n0 e0 He0 Hn0. destruct (decide (n0 = n)) as [->|].
    + assert (Hw : n = x ∨ ∃ q sub, Var e0 = Some q ∧ registry_at s1 q = Some sub ∧ entries sub = ∅).
      { destruct (m !! n) as [e|] eqn:He; [|by apply Hgone].
        pose proof (lookup_weaken _ _ _ _ He Hsub) as He'. rewrite He' in He0. injection He0 as <-.
        by apply Hwhy. }
      destruct Hw as [->|(q & sub & Hq & Hq' & Hsub')]; [by left|]. right.
      destruct (Hempty q sub Hq' Hsub') as (sub' & ? & ?). eauto.
    + rewrite lookup_delete_ne in Hn0 by done. destruct (Hgone n0 e0 He0 Hn0) as [->|(q & sub & Hq & Hq' & Hs')];
        [by left|]. right. destruct (Hempty q sub Hq' Hs') as (sub' & ? & ?). eauto.
  - exists m. rewrite Hother by done. split; [done|]. split; [done|].
    intros n0 e0 He0 Hn0. destruct (Hgone n0 e0 He0 Hn0) as [->|(q & sub & Hq & Hq' & Hs')];
      [by left|]. right. destruct (Hempty q sub Hq' Hs') as (sub' & ? & ?). eauto.
Qed.

Lemma removeNames_cons n names r s reg :
  names ≠ [] → registry_at s r = Some reg →
  removeNames (n :: names) r s =
  match entries reg !! n with
  | None => (s, Ok tt)
  | Some e =>
      match as_registry s (Var e) with
      | None => (s, Ok tt)
      | Some sub => (removeNames names sub ≫= λ _, subreg ← load sub;
                     if bool_decide (entries subreg = ∅) then delete_entry r n else mret tt) s
      end
  end.
Proof.
  intros Hne Hr. destruct names as [|n' names]; [done|].
  remember (n' :: names) as l. cbn [removeNames]. rewrite Heql. rewrite <- Heql.
  unfold mbind at 1, SE_bind at 1. rewrite (load_Ok _ _ _ Hr).
  destruct (entries reg !! n) as [e|]; [|done]. rewrite SE_bind_get.
  by destruct (as_registry s (Var e)).
Qed.

Lemma removeNames_Ok names x r s :
  last names = Some x → is_Some (registry_at s r) →
  ∃ s', removeNames names r s = (s', Ok tt) ∧ shrinks x s s' ∧ lookup_names s' names r = None.
Proof.
  revert r. induction names as [|n names IH]; intros r Hx [reg Hr]; [done|].
  destruct (decide (names = [])) as [->|Hne].
  - injection Hx as ->.
    destruct (shrinks_delete x s s r reg x (shrinks_refl x s) Hr) as (s' & Hd & Hs & Hr'); [by left|].
    exists s'. split; [done|]. split; [done|]. simpl. rewrite Hr'. simpl. by rewrite lookup_delete_eq.
  - assert (Hx' : last names = Some x) by (destruct names; [done|exact Hx]).
    rewrite (removeNames_cons _ _ _ _ _ Hne Hr).
    destruct (entries reg !! n) as [e|] eqn:He.
    2: { exists s. split; [done|]. split; [apply shrinks_refl|].
         by rewrite (lookup_names_step _ _ _ _ _ Hne Hr), He. }
    destruct (as_registry s (Var e)) as [sub|] eqn:Hsub.
    2: { exists s. split; [done|]. split; [apply shrinks_refl|].
         by rewrite (lookup_names_step _ _ _ _ _ Hne Hr), He, Hsub. }
    pose proof (as_registry_Some _ _ _ Hsub) as [Hv [subreg Hsr]].
    destruct (IH sub Hx' ltac:(eauto)) as (s1 & He1 & Hs1 & Hl1).
    unfold mbind, SE_bind. rewrite He1.
    destruct (shrinks_registry _ _ _ _ _ Hs1 Hsr) as (m1 & Hsr1 & _). rewrite (load_Ok _ _ _ Hsr1).
    destruct (shrinks_registry _ _ _ _ _ Hs1 Hr) as (m & Hm & Hsubm).
    case_bool_decide as Hempty.
    + destruct (shrinks_delete x s s1 r _ n Hs1 Hm) as (s2 & Hd & Hs2 & Hr2).
      { intros e' He'. simpl in He'. right. rewrite (lookup_weaken _ _ _ _ He' Hsubm) in He.
        injection He as ->. eauto. }
      exists s2. split; [done|]. split; [done|].
      rewrite (lookup_names_step _ _ _ _ _ Hne Hr2). simpl. by rewrite lookup_delete_eq.
    + exists s1. split; [done|]. split; [done|].
      rewrite (lookup_names_step _ _ _ _ _ Hne Hm). simpl.
      destruct (m !! n) as [e'|] eqn:He'; [|done].
      rewrite (lookup_weaken _ _ _ _ He' Hsubm) in He. injection He as ->.
      assert (Has : as_registry s1 (Var e) = Some sub).
      { rewrite Hv. unfold registry_at in Hsr1. simpl. by destruct (objs s1 !! sub) as [[]|]. }
      by rewrite Has.
Qed.

(** After [Remove] the name leads nowhere.  Metrics themselves are untouched and
    registries lose only entries of the last element of the name or entries that
    hold an empty registry; [Remove] never panics. *)
Theorem Remove_spec r n s :
  is_Some (registry_at s r) →
  ∃ s', Remove r n s = (s', Ok tt) ∧ Get r n s' = (s', Ok None) ∧
    shrinks (default "" (last (Split n "."))) s s'.
Proof.
  intros [reg Hr]. destruct (last (Split n ".")) as [x|] eqn:Hx.
  2: { by apply last_None, Split_dot_nonempty in Hx. }
  destruct (removeNames_Ok (Split n ".") x r s Hx ltac:(eauto)) as (s' & He & Hs & Hl).
  exists s'. split; [done|]. destruct (shrinks_registry _ _ _ _ _ Hs Hr) as (m & Hm & _).
  split; [by rewrite (Get_lookup _ _ _ _ Hm), Hl|done].
Qed.

Definition two_metrics : store :=
  (NewInt (Some Default) "a.x" [] (NewInt (Some Default) "a.b.y" [] init_store).1).1.

Lemma Remove_spec_witness :
  ∃ s', Remove Default "a.b.y" two_metrics = (s', Ok tt) ∧
    Get Default "a.b.y" s' = (s', Ok None) ∧
    lookup_names s' ["a"; "b"] Default = None ∧ is_Some (lookup_names s' ["a"; "x"] Default).
Proof.
  destruct (Remove_spec Default "a.b.y" two_metrics) as (s' & He & Hg & _).
  { vm_compute. by eexists. }
  exists s'. split; [done|]. split; [done|].
  assert (Hv : lookup_names (Remove Default "a.b.y" two_metrics).1 ["a"; "b"] Default = None ∧
    is_Some (lookup_names (Remove Default "a.b.y" two_metrics).1 ["a"; "x"] Default))
    by (split; vm_compute; [reflexivity|by eexists]).
  by rewrite He in Hv.
Defined.

(** ** The text of a timestamp *)

(** The cache of a timestamp holds nothing or the text of its time. *)
Definition cache_ok (o : object) : Prop :=
  match o with OTimestamp ts c => c = "" ∨ c = GoDate.Format_ms ts | _ => True end.

Inductive ts_op := TsSet (t : GoDate.Instant) | TsGet | TsString.

Definition ts_run (p : positive) (op : ts_op) (s : store) : store :=
  match op with
  | TsSet t => (Timestamp_Set p t s).1
  | TsGet => (Timestamp_Get p s).1
  | TsString => (Timestamp_toString p s).1
  end.

(** The time set last. *)
Definition ts_last (t : GoDate.Instant) (op : ts_op) : GoDate.Instant :=
  match op with TsSet t' => t' | _ => t end.

Lemma Timestamp_text_spec ts c :
  c = "" ∨ c = GoDate.Format_ms ts →
  (Timestamp_text ts c).1 = (if GoDate.IsZero ts then "" else GoDate.Format_ms ts) ∧
  ((Timestamp_text ts c).2 = "" ∨ (Timestamp_text ts c).2 = GoDate.Format_ms ts).
Proof.
  intros Hc. unfold Timestamp_text. destruct (GoDate.IsZero ts); [done|].
  case_bool_decide; simpl; [by auto|]. destruct Hc; [done|]. by subst; auto.
Qed.

Lemma load_timestamp_run s p ts c :
  objs s !! p = Some (OTimestamp ts c) → load_timestamp p s = (s, Ok (ts, c)).
Proof. intros Hp. unfold load_timestamp, load_object, mbind, SE_bind. by rewrite Hp. Qed.

(** The cache is invisible: after any calls on a timestamp its text is that of
    the time set last, empty for the zero time, and visiting it reports it. *)
Theorem Timestamp_cache_invisible p ops s t c :
  objs s !! p = Some (OTimestamp t c) → cache_ok (OTimestamp t c) →
  let s' := foldl (λ s op, ts_run p op s) s ops in
  let t' := foldl ts_last t ops in
  (Timestamp_Get p s').2 = Ok t' ∧
  (Timestamp_toString p s').2 = Ok (if GoDate.IsZero t' then "" else GoDate.Format_ms t').
Proof.
  revert s t c. induction ops as [|op ops IH]; intros s t c Hp Hc; simpl.
  - unfold Timestamp_Get, Timestamp_toString, mbind, SE_bind.
    rewrite (load_timestamp_run s p t c Hp). split; [done|].
    destruct (Timestamp_text_spec t c Hc) as [<- _]. by destruct (Timestamp_text t c).
  - destruct op as [t0| |]; simpl.
    + eapply (IH _ t0 ""); [apply lookup_insert_eq|by left].
    + unfold Timestamp_Get, mbind, SE_bind. rewrite (load_timestamp_run s p t c Hp). by apply (IH s t c).
    + unfold Timestamp_toString, mbind, SE_bind. rewrite (load_timestamp_run s p t c Hp).
      destruct (Timestamp_text_spec t c Hc) as [_ Hc']. destruct (Timestamp_text t c) as [x c'].
      eapply (IH _ t c'); [apply lookup_insert_eq|done].
Qed.

(** The layout ends in a literal Z, but the time is not converted to UTC first:
    a time shown two hours east of UTC gets a text that names another instant. *)
Theorem Timestamp_text_not_UTC :
  let t := GoDate.mkInstant 1709251198 0 7200 in
  (Timestamp_text t "").1 = "2024-03-01T01:59:58.000Z" ∧
  GoDate.Parse_ms (Timestamp_text t "").1 = Some (GoDate.mkInstant (1709251198 + 7200) 0 0).
Proof. split; vm_compute; reflexivity. Qed.
