(* ===== verification/Snapshot.v ===== *)
(** * Package [monitoring]: visitors, snapshots, unique lists

    registry.go ([Visit], [Do]), visitor.go, visitor_kv.go, visitor_expvar.go,
    snapshot.go and list.go.

    Visiting makes a sequence of calls on the visitor; the sequence is computed
    first and then run through the visitor, whose state each call changes.  The
    order in which a Go map is visited is arbitrary ([MapOrder]).  [fuel] bounds
    the nesting of registries. *)
From S2P Require Import Prelude GoStrings Monitoring.

Open Scope string_scope.
Open Scope Z_scope.

Section visiting.
Context `{MapOrder}.

(** Concatenation of the calls made for the entries of a map. *)
Fixpoint visit_entries {E} (body : string → entry → res E (list event))
    (l : list (string * entry)) : res E (list event) :=
  match l with
  | [] => Ok []
  | (key, e) :: l' =>
      evs ← body key e; rest ← visit_entries body l'; Ok (evs ++ rest)%list
  end.

(** [v.Visit(mode, vs)] for every kind of variable; [doVisit] for a registry. *)
Fixpoint Visit (fuel : nat) (s : store) (m : Mode) (v : option positive)
  : res mon_error (list event) :=
  match fuel with
  | O => OutOfFuel
  | S fuel' =>
      match v ≫= λ p, objs s !! p with
      | None => Panic PNilPointer
      | Some (OInt i) => Ok [OnInt i]
      | Some (OUint u) => Ok [OnInt (Uint_visible u)]
      | Some (OFloat f) => Ok [OnFloat f]
      | Some (OBool b) => Ok [OnBool b]
      | Some (OString t) => Ok [OnString t]
      | Some (OTimestamp ts cached) => Ok [OnString (Timestamp_text ts cached).1]
      | Some (OFunc f) | Some (OForeign f) => Ok (f m)
      | Some (ORegistry r) =>
          body ← visit_entries (λ key e,
                   match as_registry s (Var e), Mode_gt (eMode e) m with
                   | None, true => Ok []
                   | _, _ => evs ← Visit fuel' s m (Var e); Ok (OnKey key :: evs)
                   end) (map_order (entries r));
          Ok (OnRegistryStart :: body ++ [OnRegistryFinished])%list
      end
  end.

End visiting.

(** ** Running a visitor *)
Fixpoint run_visitor {S E} (step : event → S → res E S) (evs : list event) (st : S) : res E S :=
  match evs with
  | [] => Ok st
  | e :: evs' => st' ← step e st; run_visitor step evs' st'
  end.

(** [level[:len(level)-1]], and the name joined from the levels before it. *)
Definition dropName {E} (level : list string) : res E (list string) :=
  match level with
  | [] => Panic PIndexOutOfRange
  | _ => Ok (take (length level - 1) level)
  end.

Definition getName {E} (level : list string) : res E (string * list string) :=
  level' ← dropName level; Ok (Join level ".", level').

(** ** visitor_kv.go: the calls of the callback, in order *)
Inductive kv_value :=
| VString (s : string)
| VBool (b : bool)
| VInt (i : Z)
| VFloat (f : float64)
| VStringSlice (l : list string).

Record KeyValueVisitor := mkKV { kv_calls : list (string * kv_value); kv_level : list string }.

Definition kv_cb (v : kv_value) (st : KeyValueVisitor) : res mon_error KeyValueVisitor :=
  '(n, level) ← getName (kv_level st); Ok (mkKV (kv_calls st ++ [(n, v)])%list level).

Definition kv_step (e : event) (st : KeyValueVisitor) : res mon_error KeyValueVisitor :=
  match e with
  | OnRegistryStart => Ok st
  | OnRegistryFinished =>
      if bool_decide (kv_level st = []) then Ok st
      else level ← dropName (kv_level st); Ok (mkKV (kv_calls st) level)
  | OnKey n => Ok (mkKV (kv_calls st) (kv_level st ++ [n])%list)
  | OnString t => kv_cb (VString t) st
  | OnBool b => kv_cb (VBool b) st
  | OnInt i => kv_cb (VInt i) st
  | OnFloat f => kv_cb (VFloat f) st
  | OnStringSlice l => kv_cb (VStringSlice l) st
  end.

(** [r.Do(mode, f)]: the pairs [f] is called with. *)
Definition Do `{MapOrder} (fuel : nat) (s : store) (r : positive) (m : Mode)
  : res mon_error (list (string * kv_value)) :=
  evs ← Visit fuel s m (Some r);
  st ← run_visitor kv_step evs (mkKV [] []);
  Ok (kv_calls st).

(** ** visitor_expvar.go

    What [expvar.Do] iterates over: the text of a variable of another type is
    its JSON text, decoded when it is a JSON string. *)
Inductive expvar :=
| ExInt (i : Z)
| ExFloat (f : float64)
| ExMap (m : list (string * expvar))
| ExOther (text : string)
| ExMonitoring.

Definition ignoreExpvar (level : nat) (key : string) (v : expvar) : bool :=
  match v with
  | ExMonitoring => true
  | _ => (level =? 0)%nat && (String.eqb key "memstats" || String.eqb key "cmdline")
  end.

Fixpoint expvar_events (level : nat) (key : string) (v : expvar) : list event :=
  if ignoreExpvar level key v then []
  else match v with
       | ExInt i => [OnKey key; OnInt i]
       | ExFloat f => [OnKey key; OnFloat f]
       | ExMap m =>
           (OnKey key :: OnRegistryStart ::
            concat (map (λ kv, expvar_events (S level) kv.1 kv.2) m) ++ [OnRegistryFinished])%list
       | ExOther t => [OnKey key; OnString t]
       | ExMonitoring => []
       end.

Definition VisitExpvars (vars : list (string * expvar)) : list event :=
  (OnRegistryStart :: concat (map (λ kv, expvar_events 0 kv.1 kv.2) vars)
   ++ [OnRegistryFinished])%list.

(** ** snapshot.go: flat snapshots *)
Record FlatSnapshot := mkFlat {
  Bools : gmap string bool;
  Ints : gmap string Z;
  Floats : gmap string float64;
  Strings : gmap string string;
  StringSlices : gmap string (list string)
}.

Definition MakeFlatSnapshot : FlatSnapshot := mkFlat ∅ ∅ ∅ ∅ ∅.

Record flatSnapshotVisitor := mkFlatVisitor { snapshot : FlatSnapshot; level : list string }.

Definition newFlatSnapshotVisitor : flatSnapshotVisitor := mkFlatVisitor MakeFlatSnapshot [].

Definition flat_set (set : string → FlatSnapshot → FlatSnapshot) (st : flatSnapshotVisitor)
  : res mon_error flatSnapshotVisitor :=
  '(n, level') ← getName (level st); Ok (mkFlatVisitor (set n (snapshot st)) level').

Definition set_leaf (v : kv_value) (n : string) (f : FlatSnapshot) : FlatSnapshot :=
  let 'mkFlat bs ns fs ss sl := f in
  match v with
  | VBool b => mkFlat (<[n := b]> bs) ns fs ss sl
  | VInt i => mkFlat bs (<[n := i]> ns) fs ss sl
  | VFloat x => mkFlat bs ns (<[n := x]> fs) ss sl
  | VString t => mkFlat bs ns fs (<[n := t]> ss) sl
  | VStringSlice l => mkFlat bs ns fs ss (<[n := l]> sl)
  end.

Definition flat_step (e : event) (st : flatSnapshotVisitor)
  : res mon_error flatSnapshotVisitor :=
  match e with
  | OnRegistryStart => Ok st
  | OnRegistryFinished =>
      if bool_decide (level st = []) then Ok st
      else level' ← dropName (level st); Ok (mkFlatVisitor (snapshot st) level')
  | OnKey n => Ok (mkFlatVisitor (snapshot st) (level st ++ [n])%list)
  | OnString t => flat_set (set_leaf (VString t)) st
  | OnBool b => flat_set (set_leaf (VBool b)) st
  | OnInt i => flat_set (set_leaf (VInt i)) st
  | OnFloat f => flat_set (set_leaf (VFloat f)) st
  | OnStringSlice l => flat_set (set_leaf (VStringSlice l)) st
  end.

(** [None] for the registry is nil, which stands for [Default]; [expvars] are the
    variables of [expvar] when they are asked for. *)
Definition CollectFlatSnapshot `{MapOrder} (fuel : nat) (s : store) (r : option positive)
    (m : Mode) (expvars : option (list (string * expvar))) : res mon_error FlatSnapshot :=
  let r := match r with Some p => p | None => Default end in
  evs ← Visit fuel s m (Some r);
  vs ← run_visitor flat_step evs newFlatSnapshotVisitor;
  match expvars with
  | None => Ok (snapshot vs)
  | Some vars => vs' ← run_visitor flat_step (VisitExpvars vars) vs; Ok (snapshot vs')
  end.

(** ** snapshot.go: structured snapshots *)
Inductive tree :=
| TLeaf (v : kv_value)
| TMap (m : gmap string tree).

Record keyStack := mkKeyStack { k_current : string; k_stack : list string }.

(** A nil map is [None]. *)
Record eventStack := mkEventStack {
  e_current : option (gmap string tree);
  e_stack : list (option (gmap string tree))
}.

Record structSnapshotVisitor := mkStruct {
  s_key : keyStack;
  s_event : eventStack;
  s_depth : Z
}.

Definition newStructSnapshotVisitor : structSnapshotVisitor :=
  mkStruct (mkKeyStack "" []) (mkEventStack None []) 0.

(** The stacks are kept with their top first. *)
Definition key_push (key : string) (k : keyStack) : keyStack :=
  mkKeyStack key (k_current k :: k_stack k).
Definition key_pop (k : keyStack) : res mon_error keyStack :=
  match k_stack k with
  | [] => Panic PIndexOutOfRange
  | c :: st => Ok (mkKeyStack c st)
  end.
Definition event_push (e : eventStack) : eventStack :=
  mkEventStack None (e_current e :: e_stack e).
Definition event_pop (e : eventStack)
  : res mon_error (option (gmap string tree) * eventStack) :=
  match e_stack e with
  | [] => Panic PIndexOutOfRange
  | c :: st => Ok (e_current e, mkEventStack c st)
  end.

Definition setValue (v : tree) (s : structSnapshotVisitor)
  : res mon_error structSnapshotVisitor :=
  let m := match e_current (s_event s) with Some m => m | None => ∅ end in
  k ← key_pop (s_key s);
  Ok (mkStruct k (mkEventStack (Some (<[k_current (s_key s) := v]> m)) (e_stack (s_event s)))
        (s_depth s)).

Definition struct_step (e : event) (s : structSnapshotVisitor)
  : res mon_error structSnapshotVisitor :=
  match e with
  | OnRegistryStart =>
      let ev := if 0 <? s_depth s then event_push (s_event s) else s_event s in
      Ok (mkStruct (s_key s) ev (s_depth s + 1))
  | OnRegistryFinished =>
      let depth := s_depth s - 1 in
      if depth =? 0 then Ok (mkStruct (s_key s) (s_event s) depth)
      else
        '(event, ev) ← event_pop (s_event s);
        match event with
        | None => k ← key_pop (s_key s); Ok (mkStruct k ev depth)
        | Some m => setValue (TMap m) (mkStruct (s_key s) ev depth)
        end
  | OnKey n => Ok (mkStruct (key_push n (s_key s)) (s_event s) (s_depth s))
  | OnString t => setValue (TLeaf (VString t)) s
  | OnBool b => setValue (TLeaf (VBool b)) s
  | OnInt i => setValue (TLeaf (VInt i)) s
  | OnFloat f => setValue (TLeaf (VFloat f)) s
  | OnStringSlice l => setValue (TLeaf (VStringSlice l)) s
  end.

(** An assignment into a nil map panics. *)
Definition CollectStructSnapshot `{MapOrder} (fuel : nat) (s : store) (r : option positive)
    (m : Mode) (expvars : option (list (string * expvar)))
  : res mon_error (option (gmap string tree)) :=
  let r := match r with Some p => p | None => Default end in
  evs ← Visit fuel s m (Some r);
  vs ← run_visitor struct_step evs newStructSnapshotVisitor;
  let snap := e_current (s_event vs) in
  match expvars with
  | None => Ok snap
  | Some vars =>
      vs' ← run_visitor struct_step (VisitExpvars vars) newStructSnapshotVisitor;
      match e_current (s_event vs'), snap with
      | None, _ => Ok snap
      | Some more, Some m => Ok (Some (more ∪ m))
      | Some more, None => if bool_decide (map_to_list more = []) then Ok None else Panic PNilMap
      end
  end.

(** ** list.go *)
Abbreviation UniqueList := (gmap string Z).

Definition NewUniqueList : UniqueList := ∅.
Definition UniqueList_Add (item : string) (l : UniqueList) : UniqueList :=
  <[item := wrap64 (default 0 (l !! item) + 1)]> l.
Definition UniqueList_Remove (item : string) (l : UniqueList) : UniqueList :=
  <[item := wrap64 (default 0 (l !! item) - 1)]> l.

(** [ReportInt] and [ReportStringSlice] of visitor.go. *)
Definition ReportInt (n : string) (value : Z) : list event := [OnKey n; OnInt value].
Definition ReportStringSlice (n : string) (value : list string) : list event :=
  [OnKey n; OnStringSlice value].

Definition UniqueList_Report `{MapOrder} (l : UniqueList) : list event :=
  let items := (filter (λ kv : string * Z, 0 < kv.2) (map_order l)).*1 in
  let count := foldl (λ c (kv : string * Z), wrap64 (c + kv.2)) 0 (map_order l) in
  (OnRegistryStart :: ReportInt "count" count ++ ReportStringSlice "names" items
   ++ [OnRegistryFinished])%list.
