(* ===== verification/SnapshotFacts.v ===== *)
(** * Properties of visits and snapshots *)
From S2P Require Import Prelude GoStrings Monitoring MonitoringFacts Snapshot.

Open Scope string_scope.
Open Scope Z_scope.

(** ** What a visit shows *)

(** The value a call on a visitor carries. *)
Definition event_value (e : event) : option kv_value :=
  match e with
  | OnString t => Some (VString t)
  | OnBool b => Some (VBool b)
  | OnInt i => Some (VInt i)
  | OnFloat f => Some (VFloat f)
  | OnStringSlice l => Some (VStringSlice l)
  | OnRegistryStart | OnRegistryFinished | OnKey _ => None
  end.

(** The value a metric reports in a mode; a function reports what its one call on the
    visitor carries. *)
Definition leaf_value (m : Mode) (o : object) : option kv_value :=
  match o with
  | OInt i => Some (VInt i)
  | OUint u => Some (VInt (Uint_visible u))
  | OFloat f => Some (VFloat f)
  | OBool b => Some (VBool b)
  | OString t => Some (VString t)
  | OTimestamp ts cached => Some (VString (Timestamp_text ts cached).1)
  | OFunc f | OForeign f => match f m with [e] => event_value e | _ => None end
  | ORegistry _ => None
  end.

Definition visited (s : store) (m : Mode) (e : entry) : Prop :=
  is_Some (as_registry s (Var e)) ∨ Mode_gt (eMode e) m = false.

(** From the variable [v], the keys [path] lead to a metric with value [x], and the
    mode [m] shows it. *)
Fixpoint visible (s : store) (m : Mode) (v : option positive) (path : list string) (x : kv_value)
  : Prop :=
  ∃ p o, v = Some p ∧ objs s !! p = Some o ∧
    match path with
    | [] => leaf_value m o = Some x
    | key :: path' => ∃ r e, o = ORegistry r ∧ entries r !! key = Some e ∧ visited s m e ∧
        visible s m (Var e) path' x
    end.

(** A store of registries and metrics in which registries do not contain themselves
    ([rk] decreases from a registry to its entries), keys have no dots, and a function
    or a variable of another package reports a single value. *)
Record plain (s : store) (rk : positive → nat) : Prop := {
  pl_entries : ∀ p r n e, objs s !! p = Some (ORegistry r) → entries r !! n = Some e →
    ∃ q, Var e = Some q ∧ is_Some (objs s !! q) ∧ (rk q < rk p)%nat;
  pl_funcs : ∀ p f m, objs s !! p = Some (OFunc f) ∨ objs s !! p = Some (OForeign f) →
    ∃ e x, f m = [e] ∧ event_value e = Some x;
  pl_keys : ∀ p r n e, objs s !! p = Some (ORegistry r) → entries r !! n = Some e →
    lacks "." n = true
}.

Definition drop_last (l : list string) : list string := take (length l - 1) l.

Lemma drop_last_app l x : drop_last (l ++ [x])%list = l.
Proof. unfold drop_last. rewrite length_app. simpl. rewrite Nat.add_sub. apply take_app_length. Qed.

Lemma run_visitor_app {S E} (step : event → S → res E S) a b st :
  run_visitor step (a ++ b)%list st = (st' ← run_visitor step a st; run_visitor step b st').
Proof.
  revert st. induction a as [|e a IH]; intros st; simpl; [done|].
  destruct (step e st) as [st'| | |]; simpl; [apply IH|done..].
Qed.

Definition named (level : list string) (l : list (list string * kv_value)) : list (string * kv_value) :=
  (λ x, (Join (level ++ x.1)%list ".", x.2)) <$> l.

Lemma named_app level a b : named level (a ++ b)%list = (named level a ++ named level b)%list.
Proof. apply fmap_app. Qed.

Lemma named_prefix level key l :
  named level ((λ x, (key :: x.1, x.2)) <$> l) = named (level ++ [key])%list l.
Proof.
  unfold named. rewrite <- list_fmap_compose. apply list_fmap_ext. intros _ [path x] _. simpl.
  by rewrite <- app_assoc.
Qed.

Lemma kv_leaf x calls level e :
  level ≠ [] → (∀ st, kv_step e st = kv_cb x st) →
  run_visitor kv_step [e] (mkKV calls level)
  = Ok (mkKV (calls ++ [(Join level ".", x)])%list (drop_last level)).
Proof.
  intros Hl He. simpl. rewrite He. unfold kv_cb, getName, dropName. simpl.
  by destruct level.
Qed.

Section visits.
Context `{MapOrder} (s : store) (rk : positive → nat) (m : Mode).
Hypothesis Hplain : plain s rk.

(** What a visit of a variable does to the key-value visitor. *)
Definition visit_ok (v : option positive) (evs : list event) : Prop :=
  ∃ ls, NoDup ls.*1 ∧ (∀ path x, (path, x) ∈ ls ↔ visible s m v path x) ∧
    ∀ calls level, (level ≠ [] ∨ is_Some (as_registry s v)) →
      run_visitor kv_step evs (mkKV calls level)
      = Ok (mkKV (calls ++ named level ls)%list (drop_last level)).

Lemma visit_leaf p o x e :
  objs s !! p = Some o → leaf_value m o = Some x → event_value e = Some x →
  visit_ok (Some p) [e].
Proof.
  intros Ho Hx Hex. assert (He : ∀ st, kv_step e st = kv_cb x st) by (destruct e; simplify_eq/=; done). exists [([], x)]. split; [apply NoDup_singleton|]. split.
  - intros path y. rewrite list_elem_of_singleton. split.
    + intros [= -> ->]. exists p, o. done.
    + destruct path as [|key path]; intros (p' & o' & [= <-] & Ho' & Hv);
        rewrite Ho in Ho'; injection Ho' as <-; [congruence|].
      destruct Hv as (r & ? & -> & _). done.
  - intros calls level [Hl|[q Hq]].
    + rewrite (kv_leaf x) by done. unfold named. simpl. by rewrite app_nil_r.
    + apply as_registry_Some in Hq as [[= <-] [reg Hr]]. unfold registry_at in Hr.
      rewrite Ho in Hr. by destruct o.
Qed.

(** The leaves reached through some of the entries. *)
Definition through (l : list (string * entry)) (path : list string) (x : kv_value) : Prop :=
  ∃ key e path', path = key :: path' ∧ (key, e) ∈ l ∧ visited s m e ∧ visible s m (Var e) path' x.

Lemma visit_entries_ok (body : string → entry → res mon_error (list event)) l :
  NoDup l.*1 →
  (∀ key e, (key, e) ∈ l →
     (body key e = Ok [] ∧ ¬ visited s m e) ∨
     ∃ evs, body key e = Ok (OnKey key :: evs) ∧ visited s m e ∧ visit_ok (Var e) evs) →
  ∃ evs ls, visit_entries body l = Ok evs ∧ NoDup ls.*1 ∧
    (∀ path x, (path, x) ∈ ls ↔ through l path x) ∧
    ∀ calls level, run_visitor kv_step evs (mkKV calls level)
      = Ok (mkKV (calls ++ named level ls)%list level).
Proof.
  induction l as [|[key e] l IH]; intros Hnd Hbody.
  { exists [], []. split; [done|]. split; [apply NoDup_nil_2|]. split.
    - intros path x. split; [by intros ?%elem_of_nil|].
      intros (? & ? & ? & _ & Hin & _). by apply elem_of_nil in Hin.
    - intros. by rewrite app_nil_r. }
  apply NoDup_cons in Hnd as [Hkey Hnd].
  destruct IH as (evs & ls & He & Hls & Hin & Hrun); [done|intros; apply Hbody; by right|].
  assert (Hthrough : ∀ path x, through ((key, e) :: l) path x ↔
    (∃ path', path = key :: path' ∧ visited s m e ∧ visible s m (Var e) path' x) ∨ through l path x).
  { intros path x. unfold through. setoid_rewrite elem_of_cons. naive_solver. }
  simpl. destruct (Hbody key e) as [[-> Hno]|(evs1 & -> & Hvis & ls1 & Hnd1 & Hin1 & Hrun1)]; [by left| |].
  - rewrite He. simpl. exists evs, ls. split; [done|]. split; [done|]. split; [|done].
    intros path x. rewrite Hthrough, Hin. naive_solver.
  - rewrite He. simpl. eexists _, (((λ x, (key :: x.1, x.2)) <$> ls1) ++ ls)%list. split; [done|].
    split; [|split].
    + rewrite fmap_app, <- list_fmap_compose. apply NoDup_app. split_and!; [| |done].
      * assert (Heq : (fst ∘ (λ x : list string * kv_value, (key :: x.1, x.2))) <$> ls1
                      = cons key <$> ls1.*1) by by rewrite <- list_fmap_compose.
        rewrite Heq. apply NoDup_fmap_2; [|done]. intros ? ? [=]. done.
      * intros path Hp Hp'. apply list_elem_of_fmap in Hp as ([path1 x1] & -> & _). simpl in Hp'.
        apply list_elem_of_fmap in Hp' as ([path2 x2] & Heq & Hx2). simpl in Heq. subst path2.
        apply Hin in Hx2 as (? & e2 & ? & [= <- _] & Hin2 & _). apply Hkey.
        apply list_elem_of_fmap. by exists (key, e2).
    + intros path x. rewrite Hthrough, elem_of_app, Hin. apply or_iff_compat_r.
      rewrite list_elem_of_fmap. split.
      * intros ([path1 x1] & [= -> ->] & Hx). apply Hin1 in Hx. eauto.
      * intros (path' & -> & _ & Hv). exists (path', x). split; [done|]. by apply Hin1.
    + intros calls level. rewrite app_comm_cons, run_visitor_app. simpl. rewrite Hrun1.
      2: { left. by destruct level. }
      simpl. rewrite drop_last_app, Hrun. by rewrite named_app, named_prefix, app_assoc.
Qed.

Lemma Visit_ok fuel v p :
  v = Some p → is_Some (objs s !! p) → (rk p < fuel)%nat →
  ∃ evs, Visit fuel s m v = Ok evs ∧ visit_ok v evs.
Proof.
  revert v p. induction fuel as [|fuel IH]; intros v p -> [o Ho] Hrk; [lia|].
  cbn [Visit]. change (Some p ≫= λ p, objs s !! p) with (objs s !! p). rewrite Ho.
  destruct o as [r|i|u|f|b|t|ts c|f|f].
  2-7: eexists; split; [done|]; eapply visit_leaf; [exact Ho|done|done].
  2-3: destruct (pl_funcs _ _ Hplain p f m) as (e & x & Hf & Hx); [by auto|]; rewrite Hf; eexists; (split; [done|]);
    eapply visit_leaf; [exact Ho|simpl; by rewrite Hf|exact Hx].
  set (body := λ key e, match as_registry s (Var e), Mode_gt (eMode e) m with
    | None, true => Ok []
    | _, _ => evs ← Visit fuel s m (Var e); Ok (OnKey key :: evs)
    end).
  destruct (visit_entries_ok body (map_order (entries r))) as (evs & ls & He & Hnd & Hin & Hrun).
  { apply NoDup_map_order. }
  { intros key e Hke. apply elem_of_map_order in Hke.
    destruct (pl_entries _ _ Hplain p r key e Ho Hke) as (q & Hq & Hsome & Hlt).
    destruct (IH (Var e) q Hq Hsome) as (evs & Hv & Hok); [lia|].
    unfold body, visited. destruct (as_registry s (Var e)) as [sub|] eqn:Hsub.
    - right. exists evs. rewrite Hv. split; [done|]. split; [|done]. left. eauto.
    - destruct (Mode_gt (eMode e) m) eqn:Hgt.
      + left. split; [done|]. intros [[? ?]|?]; done.
      + right. exists evs. rewrite Hv. split; [done|]. split; [by right|done]. }
  rewrite He. simpl. eexists. split; [done|]. exists ls. split; [done|]. split.
  - intros path x. rewrite Hin. destruct path as [|key path].
    + simpl. split; [by intros (? & ? & ? & ? & _)|].
      intros (p' & o' & [= <-] & Ho' & Hl). rewrite Ho in Ho'. injection Ho' as <-. done.
    + split.
      * intros (key' & e & path' & [= <- <-] & Hke & Hvis & Hv). apply elem_of_map_order in Hke.
        exists p, (ORegistry r). split; [done|]. split; [done|]. eauto 10.
      * intros (p' & o' & [= <-] & Ho' & (r' & e & -> & Hke & Hvis & Hv)).
        rewrite Ho in Ho'. injection Ho' as <-. exists key, e, path.
        split; [done|]. split; [by apply elem_of_map_order|done].
  - intros calls level _. simpl. rewrite run_visitor_app, Hrun. simpl.
    destruct level as [|x level]; [done|]. simpl. done.
Qed.

End visits.

(** ** Names of variables *)

(** The metric with value [x] that the name leads to, shown in the mode. *)
Definition metric_at (s : store) (r : positive) (m : Mode) (names : list string) (x : kv_value)
  : Prop :=
  ∃ e p o, lookup_names s names r = Some e ∧ Var e = Some p ∧ objs s !! p = Some o ∧
    leaf_value m o = Some x ∧ Mode_gt (eMode e) m = false.

Lemma visible_metric s m r names x :
  names ≠ [] → visible s m (Some r) names x ↔ metric_at s r m names x.
Proof.
  revert r. induction names as [|n names IH]; intros r Hne; [done|].
  assert (Hreg : visible s m (Some r) (n :: names) x ↔
    ∃ reg e, registry_at s r = Some reg ∧ entries reg !! n = Some e ∧ visited s m e ∧
      visible s m (Var e) names x).
  { unfold registry_at. simpl. split.
    - intros (p & o & [= <-] & Ho & reg & e & -> & He & Hv & Hx). rewrite Ho. eauto 10.
    - intros (reg & e & Hr & He & Hv & Hx). destruct (objs s !! r) as [[]|] eqn:Ho; try done.
      injection Hr as ->. eauto 10. }
  rewrite Hreg. clear Hreg. unfold metric_at. destruct (decide (names = [])) as [->|Hne'].
  - simpl. split.
    + intros (reg & e & Hr & He & Hv & p & o & Hp & Ho & Hx). rewrite Hr. simpl.
      exists e, p, o. split_and!; try done. destruct Hv as [[q Hq]|]; [|done].
      apply as_registry_Some in Hq as [Hq' [reg' Hreg']]. rewrite Hp in Hq'. injection Hq' as <-.
      unfold registry_at in Hreg'. rewrite Ho in Hreg'. by destruct o.
    + intros (e & p & o & Hl & Hp & Ho & Hx & Hm). destruct (registry_at s r) as [reg|]; [|done].
      simpl in Hl. exists reg, e. split; [done|]. split; [done|]. split; [by right|]. eauto 10.
  - split.
    + intros (reg & e & Hr & He & Hv & Hx).
      rewrite (lookup_names_step _ _ _ _ _ Hne' Hr), He.
      destruct (Var e) as [q|] eqn:Hq.
      2: { exfalso. destruct names; [done|]. by destruct Hx as (? & ? & ? & _). }
      pose proof Hx as Hx'. destruct names as [|n' names]; [done|].
      destruct Hx' as (q' & o' & [= <-] & Ho' & reg' & e' & -> & _).
      rewrite (as_registry_at _ _ _ Ho'). by apply IH.
    + intros (e & p & o & Hl & Hp & Ho & Hx & Hm).
      destruct (registry_at s r) as [reg|] eqn:Hr; [|by rewrite lookup_names_invalid in Hl].
      rewrite (lookup_names_step _ _ _ _ _ Hne' Hr) in Hl.
      destruct (entries reg !! n) as [e0|] eqn:He; [|done].
      destruct (as_registry s (Var e0)) as [sub|] eqn:Hsub; [|done].
      exists reg, e0. split; [done|]. split; [done|]. split; [left; eauto|].
      pose proof (as_registry_Some _ _ _ Hsub) as [-> _]. apply IH; [done|]. exists e, p, o. done.
Qed.

Section reports.
Context `{MapOrder}.

Lemma visible_dotfree s rk m v path x :
  plain s rk → visible s m v path x → Forall (λ k, lacks "." k = true) path.
Proof.
  intros Hp. revert v. induction path as [|key path IH]; intros v; [constructor|].
  intros (p & o & -> & Ho & r & e & -> & He & _ & Hv). constructor; [|by eapply IH].
  by eapply (pl_keys _ _ Hp).
Qed.

Lemma Do_correct fuel s r m rk :
  plain s rk → is_Some (registry_at s r) → (rk r < fuel)%nat →
  ∃ evs calls, Visit fuel s m (Some r) = Ok evs ∧
    run_visitor kv_step evs (mkKV [] []) = Ok (mkKV calls []) ∧
    NoDup calls.*1 ∧ ∀ n x, (n, x) ∈ calls ↔ metric_at s r m (Split n ".") x.
Proof.
  intros Hp [reg Hr] Hf.
  assert (Hobj : objs s !! r = Some (ORegistry reg)).
  { unfold registry_at in Hr. destruct (objs s !! r) as [[]|]; try done. by injection Hr as ->. }
  destruct (Visit_ok s rk m Hp fuel (Some r) r eq_refl ltac:(eauto) Hf)
    as (evs & Hv & ls & Hnd & Hin & Hrun).
  exists evs, (named [] ls). split; [done|]. split.
  { rewrite Hrun; [done|]. right. exists r. by eapply as_registry_at. }
  assert (Hpath : ∀ path x, (path, x) ∈ ls → path ≠ [] ∧ Forall (λ k, lacks "." k = true) path).
  { intros path x Hx. apply Hin in Hx. split; [|by eapply visible_dotfree].
    intros ->. destruct Hx as (p & o & [= <-] & Ho & Hl). rewrite Hobj in Ho. by injection Ho as <-. }
  split.
  - unfold named. rewrite <- list_fmap_compose.
    apply NoDup_fmap_1 with (f := λ x, Split x ".").
    rewrite <- list_fmap_compose. erewrite list_fmap_ext; [exact Hnd|].
    intros i [path x] Hx. simpl.
    apply list_elem_of_lookup_2, Hpath in Hx as [Hne Hd]. by apply Split_Join.
  - intros n x. unfold named. rewrite list_elem_of_fmap. split.
    + intros ([path y] & [= -> ->] & Hx). destruct (Hpath _ _ Hx) as [Hne Hd].
      rewrite (Split_Join "." path Hne Hd). apply visible_metric; [done|]. by apply Hin.
    + intros Hx. exists (Split n ".", x). simpl. split; [by rewrite (Join_Split "." n)|].
      apply Hin, visible_metric; [apply Split_dot_nonempty|done].
Qed.

(** [Do] calls its function exactly once for every metric below the registry
    that the mode shows, with the dotted name [Get] finds it under and its value,
    and for nothing else.  The registries do not contain themselves, their keys have no
    dots, functions report single values; the nesting bounds the fuel. *)
Theorem Do_visits_each_metric_once fuel s r m rk :
  plain s rk → is_Some (registry_at s r) → (rk r < fuel)%nat →
  ∃ calls, Do fuel s r m = Ok calls ∧ NoDup calls.*1 ∧
    ∀ n x, (n, x) ∈ calls ↔ metric_at s r m (Split n ".") x.
Proof.
  intros Hp Hr Hf. destruct (Do_correct fuel s r m rk Hp Hr Hf) as (evs & calls & Hv & Hrun & Hnd & Hin).
  exists calls. unfold Do. rewrite Hv. simpl. rewrite Hrun. done.
Qed.

(** ** Flat snapshots *)
Definition collect (calls : list (string * kv_value)) (f : FlatSnapshot) : FlatSnapshot :=
  foldl (λ f c, set_leaf c.2 c.1 f) f calls.

Lemma flat_follows_kv evs calls level calls' level' f :
  run_visitor kv_step evs (mkKV calls level) = Ok (mkKV calls' level') →
  ∃ added, calls' = (calls ++ added)%list ∧
    run_visitor flat_step evs (mkFlatVisitor f level) = Ok (mkFlatVisitor (collect added f) level').
Proof.
  revert calls level f. induction evs as [|e evs IH]; intros calls level f; simpl.
  { intros [= <- <-]. exists []. by rewrite app_nil_r. }
  assert (Hleaf : ∀ x, (st ← kv_cb x (mkKV calls level); run_visitor kv_step evs st) = Ok (mkKV calls' level') →
    ∃ added, calls' = (calls ++ added)%list ∧
      (st ← flat_set (set_leaf x) (mkFlatVisitor f level); run_visitor flat_step evs st)
      = Ok (mkFlatVisitor (collect added f) level')).
  { intros x. unfold kv_cb, flat_set, getName, dropName. simpl. destruct level as [|k level0]; [done|].
    simpl. intros Hr. eapply IH in Hr as (added & -> & Hf).
    exists ((Join (k :: level0) ".", x) :: added). split; [by rewrite <- app_assoc|]. exact Hf. }
  destruct e; simpl; try apply Hleaf.
  - apply IH.
  - unfold dropName. destruct level; simpl; apply IH.
  - apply IH.
Qed.

Lemma collect_lookup {A} (get : FlatSnapshot → gmap string A) (mk : A → kv_value) calls n :
  (∀ x k f, (∃ a, x = mk a ∧ get (set_leaf x k f) = <[k := a]> (get f)) ∨
            ((∀ a, x ≠ mk a) ∧ get (set_leaf x k f) = get f)) →
  (∀ a b, mk a = mk b → a = b) →
  NoDup calls.*1 → ∀ f, get f !! n = None →
  ∀ a, get (collect calls f) !! n = Some a ↔ (n, mk a) ∈ calls.
Proof.
  intros Hget Hinj Hnd f Hf a. revert f Hf. induction calls as [|[k x] calls IH]; intros f Hf.
  { simpl. rewrite Hf. split; [done|]. by intros ?%elem_of_nil. }
  apply NoDup_cons in Hnd as [Hk Hnd]. simpl. rewrite elem_of_cons.
  destruct (decide (k = n)) as [->|Hkn].
  - assert (Hlater : ∀ y, (n, y) ∉ calls).
    { intros y Hy. apply Hk, list_elem_of_fmap. by exists (n, y). }
    assert (Hkeep : ∀ f, get (collect calls f) !! n = get f !! n).
    { clear IH Hnd Hk. induction calls as [|[k' x'] calls IH']; intros f'; [done|]. simpl.
      rewrite IH' by (intros y Hy; apply (Hlater y); by right).
      assert (k' ≠ n) by (intros ->; apply (Hlater x'); by left).
      destruct (Hget x' k' f') as [(a' & _ & ->)|[_ ->]]; [by rewrite lookup_insert_ne|done]. }
    rewrite Hkeep. destruct (Hget x n f) as [(a' & -> & ->)|[Hno ->]].
    + rewrite lookup_insert_eq. split; [intros [= ->]; by left|].
      intros [[= Heq]|Hin]; [f_equal; symmetry; by apply Hinj|by apply Hlater in Hin].
    + rewrite Hf. split; [done|]. intros [[= Heq]|Hin]; [by destruct (Hno a)|by apply Hlater in Hin].
  - assert (Hf' : get (set_leaf x k f) !! n = None)
      by (destruct (Hget x k f) as [(a' & _ & ->)|[_ ->]]; [by rewrite lookup_insert_ne|done]).
    rewrite (IH Hnd _ Hf'). naive_solver.
Qed.

(** C12: a flat snapshot without expvar variables holds exactly the metrics below the
    registry that the mode shows, each under its dotted name in the map of its type.
    The registries do not contain themselves, their keys have no dots, and functions
    and variables of other packages report a single value; the nesting of the
    registries bounds the fuel. *)
Theorem flat_snapshot_exact fuel s r m rk :
  plain s rk → is_Some (registry_at s r) → (rk r < fuel)%nat →
  ∃ snap, CollectFlatSnapshot fuel s (Some r) m None = Ok snap ∧
    ∀ n, let names := Split n "." in
      (∀ i, Ints snap !! n = Some i ↔ metric_at s r m names (VInt i)) ∧
      (∀ b, Bools snap !! n = Some b ↔ metric_at s r m names (VBool b)) ∧
      (∀ f, Floats snap !! n = Some f ↔ metric_at s r m names (VFloat f)) ∧
      (∀ t, Strings snap !! n = Some t ↔ metric_at s r m names (VString t)) ∧
      (∀ l, StringSlices snap !! n = Some l ↔ metric_at s r m names (VStringSlice l)).
Proof.
  intros Hp Hr Hf. destruct (Do_correct fuel s r m rk Hp Hr Hf) as (evs & calls & Hv & Hrun & Hnd & Hin).
  destruct (flat_follows_kv _ _ _ _ _ MakeFlatSnapshot Hrun) as (added & -> & Hflat). simpl in *.
  exists (collect added MakeFlatSnapshot). unfold CollectFlatSnapshot. rewrite Hv. simpl.
  change (newFlatSnapshotVisitor) with (mkFlatVisitor MakeFlatSnapshot []). rewrite Hflat.
  split; [done|]. intros n. simpl.
  split_and!; intros a; rewrite <- Hin; revert a.
  - apply (collect_lookup Ints VInt); [|by intros ? ? [=]|done|done].
    intros [] k []; simpl; eauto; right; done.
  - apply (collect_lookup Bools VBool); [|by intros ? ? [=]|done|done].
    intros [] k []; simpl; eauto; right; done.
  - apply (collect_lookup Floats VFloat); [|by intros ? ? [=]|done|done].
    intros [] k []; simpl; eauto; right; done.
  - apply (collect_lookup Strings VString); [|by intros ? ? [=]|done|done].
    intros [] k []; simpl; eauto; right; done.
  - apply (collect_lookup StringSlices VStringSlice); [|by intros ? ? [=]|done|done].
    intros [] k []; simpl; eauto; right; done.
Qed.
End reports.

(** ** Examples *)
Definition one_metric : store :=
  mkStore {[ Default := ORegistry (mkRegistry ""
               {[ "hits" := mkEntry (Some 2%positive) Full; "tags" := mkEntry (Some 3%positive) Full ]} defaultOptions);
             2%positive := OInt 5; 3%positive := OFunc (λ _, [OnStringSlice ["a"; "b"]]) ]} ∅ ∅.

Definition one_rank (p : positive) : nat := if decide (p = Default) then 1%nat else 0%nat.

Lemma one_metric_plain : plain one_metric one_rank.
Proof.
  assert (Hcases : ∀ p o, objs one_metric !! p = Some o →
    (p = Default ∧ o = ORegistry (mkRegistry ""
       {[ "hits" := mkEntry (Some 2%positive) Full; "tags" := mkEntry (Some 3%positive) Full ]} defaultOptions)) ∨
    o = OInt 5 ∨ o = OFunc (λ _, [OnStringSlice ["a"; "b"]])).
  { intros p o Hp. simpl in Hp. apply lookup_insert_Some in Hp as [[<- <-]|[_ Hp]]; [by left|].
    apply lookup_insert_Some in Hp as [[_ <-]|[_ Hp]]; [by auto|].
    apply lookup_singleton_Some in Hp as [_ <-]. auto. }
  split.
  - intros p r n e Hp He. destruct (Hcases _ _ Hp) as [[-> [= ->]]|[|]]; [|done..].
    simpl in He. apply lookup_insert_Some in He as [[_ <-]|[_ He]];
      [|apply lookup_singleton_Some in He as [_ <-]]; eexists; (split; [done|]); (split; [by eexists|]); vm_compute; lia.
  - intros p f m [Hp|Hp]; destruct (Hcases _ _ Hp) as [[_ ?]|[?|?]]; simplify_eq. by do 2 eexists.
  - intros p r n e Hp He. destruct (Hcases _ _ Hp) as [[-> [= ->]]|[|]]; [|done..].
    simpl in He. apply lookup_insert_Some in He as [[<- _]|[_ He]]; [done|]. by apply lookup_singleton_Some in He as [<- _].
Qed.

Lemma one_metric_root : is_Some (registry_at one_metric Default).
Proof. by eexists. Qed.

Lemma Do_visits_each_metric_once_witness :
  ∃ calls, Do 2 one_metric Default Full = Ok calls ∧ NoDup calls.*1 ∧
    ∀ n x, (n, x) ∈ calls ↔ metric_at one_metric Default Full (Split n ".") x.
Proof.
  apply (Do_visits_each_metric_once 2 one_metric Default Full one_rank one_metric_plain
    one_metric_root). vm_compute. lia.
Defined.

Lemma flat_snapshot_exact_witness :
  ∃ snap, CollectFlatSnapshot 2 one_metric (Some Default) Full None = Ok snap ∧
    Ints snap !! "hits" = Some 5 ∧ StringSlices snap !! "tags" = Some ["a"; "b"].
Proof.
  destruct (flat_snapshot_exact 2 one_metric Default Full one_rank one_metric_plain one_metric_root)
    as (snap & He & Hs); [vm_compute; lia|].
  exists snap. split; [done|]. split.
  - apply (proj1 (Hs "hits")). exists (mkEntry (Some 2%positive) Full), 2%positive, (OInt 5).
    split_and!; vm_compute; reflexivity.
  - apply (Hs "tags"). exists (mkEntry (Some 3%positive) Full), 3%positive, (OFunc (λ _, [OnStringSlice ["a"; "b"]])).
    split_and!; vm_compute; reflexivity.
Defined.

(** A structured snapshot of an empty registry is a nil map, and asking for the
    [expvar] variables as well assigns into it: the call panics as soon as there
    is an [expvar] variable to report, whatever the iteration order. *)
Theorem struct_snapshot_nil_map `{MapOrder} i :
  CollectStructSnapshot 1 init_store None Full None = Ok None ∧
  CollectStructSnapshot 1 init_store None Full (Some [("requests", ExInt i)]) = Panic PNilMap.
Proof.
  assert (Ho : map_order (∅ : gmap string entry) = []).
  { pose proof (length_map_order (∅ : gmap string entry)) as Hl. rewrite map_size_empty in Hl.
    by apply nil_length_inv. }
  assert (Hv : Visit 1 init_store Full (Some Default) = Ok [OnRegistryStart; OnRegistryFinished]).
  { cbn [Visit]. change (Some Default ≫= λ p, objs init_store !! p)
      with (Some (ORegistry (mkRegistry "" ∅ defaultOptions))). cbn [entries]. by rewrite Ho. }
  unfold CollectStructSnapshot. rewrite Hv. split; vm_compute; reflexivity.
Qed.

(** ** Unsigned metrics *)

(** A [Uint] is reported as an [int64] with its top bit cleared, so exactly the
    values below 2^63 are reported as they are. *)
Theorem Uint_reported u :
  in_u64 u → Uint_visible u = u mod two63 ∧ 0 ≤ Uint_visible u < two63 ∧
  (Uint_visible u = u ↔ u < two63).
Proof.
  intros Hu. assert (He : Uint_visible u = u mod two63).
  { unfold Uint_visible. change (two63 - 1) with (Z.ones 63). rewrite Z.land_ones by lia. done. }
  pose proof (Z.mod_pos_bound u two63 eq_refl) as Hb.
  rewrite He. split; [done|]. split; [done|]. unfold in_u64 in Hu. split; [lia|].
  intros Hlt. apply Z.mod_small. lia.
Qed.

Lemma Uint_reported_witness : in_u64 (two63 + 5) ∧ Uint_visible (two63 + 5) = (two63 + 5) mod two63.
Proof.
  split; [vm_compute; split; [discriminate|reflexivity]|].
  apply (Uint_reported (two63 + 5)). vm_compute. split; [discriminate|reflexivity].
Defined.

(** ** Unique lists *)
Inductive list_op := LAdd (item : string) | LRemove (item : string).

Definition list_run (ops : list list_op) : UniqueList :=
  foldl (λ l o, match o with LAdd i => UniqueList_Add i l | LRemove i => UniqueList_Remove i l end)
    NewUniqueList ops.

(** Additions minus removals, of an item and in total. *)
Definition op_value (o : list_op) : Z := match o with LAdd _ => 1 | LRemove _ => -1 end.
Definition op_item (o : list_op) : string := match o with LAdd i | LRemove i => i end.
Definition net (ops : list list_op) (item : string) : Z :=
  foldr (λ o n, if decide (op_item o = item) then op_value o + n else n) 0 ops.
Definition total (ops : list list_op) : Z := foldr (λ o n, op_value o + n) 0 ops.

Lemma wrap64_add_l a b : wrap64 (wrap64 a + b) = wrap64 (a + b).
Proof.
  unfold wrap64, two64, two63. f_equal.
  replace ((a + 9223372036854775808) mod 18446744073709551616 - 9223372036854775808 + b + 9223372036854775808)
    with ((a + 9223372036854775808) mod 18446744073709551616 + b) by lia.
  rewrite Zplus_mod_idemp_l. f_equal. lia.
Qed.

Lemma list_run_snoc ops o :
  list_run (ops ++ [o])%list = <[op_item o := wrap64 (default 0 (list_run ops !! op_item o) + op_value o)]> (list_run ops).
Proof. unfold list_run. rewrite foldl_app. simpl. by destruct o. Qed.

Lemma foldr_add_acc (g : list_op → Z) ops z :
  foldr (λ o n, g o + n) z ops = foldr (λ o n, g o + n) 0 ops + z.
Proof. induction ops as [|o ops IH]; simpl; lia. Qed.

Definition contribution (item : string) (o : list_op) : Z :=
  if decide (op_item o = item) then op_value o else 0.

Lemma net_sum ops item : net ops item = foldr (λ o n, contribution item o + n) 0 ops.
Proof.
  unfold net, contribution. induction ops as [|o ops IH]; simpl; [done|]. rewrite IH.
  by destruct (decide (op_item o = item)).
Qed.

Lemma net_snoc ops o item : net (ops ++ [o])%list item = net ops item + contribution item o.
Proof. rewrite !net_sum, foldr_app. simpl. rewrite foldr_add_acc. lia. Qed.

Lemma total_snoc ops o : total (ops ++ [o])%list = total ops + op_value o.
Proof. unfold total. rewrite foldr_app. simpl. rewrite foldr_add_acc. lia. Qed.

Lemma list_run_value ops item : default 0 (list_run ops !! item) = wrap64 (net ops item).
Proof.
  induction ops as [|o ops IH] using rev_ind; [done|].
  rewrite list_run_snoc, net_snoc. unfold contribution.
  destruct (decide (op_item o = item)) as [<-|Hne].
  - rewrite lookup_insert_eq. simpl. rewrite IH. apply wrap64_add_l.
  - rewrite lookup_insert_ne by done. by rewrite Z.add_0_r.
Qed.

(** Sums of the values of a map, wrapping around. *)
Definition wrapping_sum (l : list (string * Z)) : Z := foldl (λ c kv, wrap64 (c + kv.2)) 0 l.

Lemma wrapping_sum_foldr l : wrapping_sum l = wrap64 (foldr (λ kv n, kv.2 + n) 0 l).
Proof.
  assert (Hgen : ∀ c, foldl (λ c (kv : string * Z), wrap64 (c + kv.2)) (wrap64 c) l
                    = wrap64 (c + foldr (λ kv n, kv.2 + n) 0 l)).
  { induction l as [|[k v] l IH]; intros c; simpl; [by rewrite Z.add_0_r|].
    rewrite wrap64_add_l, IH. f_equal. lia. }
  unfold wrapping_sum. change 0 with (wrap64 0) at 1. by rewrite Hgen.
Qed.

Lemma sum_perm l l' :
  l ≡ₚ l' → foldr (λ (kv : string * Z) n, kv.2 + n) 0 l = foldr (λ kv n, kv.2 + n) 0 l'.
Proof. induction 1; simpl; lia. Qed.

Definition map_sum (m : gmap string Z) : Z := foldr (λ kv n, kv.2 + n) 0 (map_to_list m).

Lemma map_sum_insert m k v : map_sum (<[k := v]> m) = map_sum m - default 0 (m !! k) + v.
Proof.
  unfold map_sum. destruct (m !! k) as [w|] eqn:Hk; simpl.
  - rewrite <- insert_delete_eq, (sum_perm _ _ (map_to_list_insert _ _ _ (lookup_delete_eq _ _))).
    rewrite (sum_perm _ _ (symmetry (map_to_list_delete m k w Hk))). simpl. lia.
  - rewrite (sum_perm _ _ (map_to_list_insert _ _ _ Hk)). simpl. lia.
Qed.

Lemma list_run_sum ops : wrap64 (map_sum (list_run ops)) = wrap64 (total ops).
Proof.
  induction ops as [|o ops IH] using rev_ind; [done|].
  rewrite list_run_snoc, total_snoc, map_sum_insert, list_run_value.
  set (w := wrap64 (net ops (op_item o))).
  rewrite <- (wrap64_add_l (total ops)), <- IH, wrap64_add_l.
  replace (map_sum (list_run ops) - w + wrap64 (w + op_value o))
    with (wrap64 (w + op_value o) + (map_sum (list_run ops) - w)) by lia.
  rewrite wrap64_add_l. f_equal. lia.
Qed.

Lemma net_bound ops item : - Z.of_nat (length ops) ≤ net ops item ≤ Z.of_nat (length ops).
Proof.
  rewrite net_sum. induction ops as [|o ops IH]; simpl; [lia|].
  unfold contribution at 1 3. destruct (decide _), o; simpl in *; lia.
Qed.

(** What a unique list reports after any sequence of additions and removals:
    the number of additions minus the number of removals, and the items added
    more often than removed, each once. *)
Theorem UniqueList_report `{MapOrder} ops :
  Z.of_nat (length ops) < two63 →
  ∃ items, UniqueList_Report (list_run ops) =
      [OnRegistryStart; OnKey "count"; OnInt (total ops); OnKey "names"; OnStringSlice items;
       OnRegistryFinished] ∧
    NoDup items ∧ ∀ item, item ∈ items ↔ 0 < net ops item.
Proof.
  intros Hlen. eexists. split; [|split].
  - unfold UniqueList_Report. fold (wrapping_sum (map_order (list_run ops))).
    rewrite wrapping_sum_foldr, (sum_perm _ _ (map_order_perm _)). fold (map_sum (list_run ops)).
    rewrite list_run_sum, wrap64_small; [done|].
    assert (Ht : - Z.of_nat (length ops) ≤ total ops ≤ Z.of_nat (length ops)).
    { clear. unfold total. induction ops as [|o ops IH]; simpl; [lia|]. destruct o; simpl; lia. }
    unfold in_i64. lia.
  - eapply sublist_NoDup; [apply (NoDup_map_order (list_run ops))|].
    apply fmap_sublist, sublist_filter.
  - intros item. rewrite list_elem_of_fmap. split.
    + intros ([k v] & -> & Hin). apply list_elem_of_filter in Hin as [Hpos Hin].
      apply elem_of_map_order in Hin. simpl in *. pose proof (list_run_value ops k) as Hv.
      rewrite Hin in Hv. simpl in Hv. pose proof (net_bound ops k).
      rewrite wrap64_small in Hv by (unfold in_i64; lia). lia.
    + intros Hpos. pose proof (list_run_value ops item) as Hv. pose proof (net_bound ops item).
      rewrite wrap64_small in Hv by (unfold in_i64; lia).
      destruct (list_run ops !! item) as [v|] eqn:Hl; simpl in Hv; [|lia].
      exists (item, v). split; [done|]. apply list_elem_of_filter. simpl.
      split; [lia|]. by apply elem_of_map_order.
Qed.

Lemma UniqueList_report_witness :
  ∃ items, UniqueList_Report (list_run [LAdd "a"; LAdd "b"; LRemove "b"; LAdd "a"]) =
      [OnRegistryStart; OnKey "count"; OnInt 2; OnKey "names"; OnStringSlice items;
       OnRegistryFinished] ∧
    NoDup items ∧ ∀ item, item ∈ items ↔ 0 < net [LAdd "a"; LAdd "b"; LRemove "b"; LAdd "a"] item.
Proof. apply (UniqueList_report [LAdd "a"; LAdd "b"; LRemove "b"; LAdd "a"]). done. Defined.
