(* ===== verification/RingBuffer.v ===== *)
(** * Package [monitoring/report/buffer]: the ring buffer and its reporter

    buffer.go whole; of reporter.go the construction and one turn of the
    snapshot loop.  The HTTP handler and the ticker are not modelled.

    [getAll] returns a slice: either of the backing array of the buffer, whose
    elements later additions overwrite, or of a fresh array. *)
From S2P Require Import Prelude GoStrings Monitoring Snapshot.

Open Scope string_scope.
Open Scope Z_scope.

Section buffer.
Context {A : Type}.

Record ringBuffer := mkRing {
  entries : list (option A);
  i : nat;
  full : bool
}.

(** [make([]interface{}, size)]: nil elements. *)
Definition newBuffer (size : nat) : ringBuffer := mkRing (replicate size None) 0 false.

Definition add {E} (entry : A) (r : ringBuffer) : res E ringBuffer :=
  if bool_decide (i r < length (entries r))%nat then
    let i' := ((i r + 1) `mod` length (entries r))%nat in
    Ok (mkRing (<[i r := Some entry]> (entries r)) i' (full r || (i' =? 0)%nat))
  else Panic PIndexOutOfRange.

Inductive slice :=
| Window (lo hi : nat)
| Fresh (l : list (option A)).

(** What the slice holds while the buffer is [r]. *)
Definition contents (r : ringBuffer) (sl : slice) : list (option A) :=
  match sl with
  | Window lo hi => take (hi - lo) (drop lo (entries r))
  | Fresh l => l
  end.

(** The appended slice starts at the last cells of the array, so it is copied. *)
Definition getAll (r : ringBuffer) : slice :=
  if (i r =? 0)%nat && negb (full r) then Fresh []
  else if negb (full r) then Window 0 (i r)
  else if full r && (i r =? 0)%nat then Window 0 (length (entries r))
  else Fresh (drop (i r) (entries r) ++ take (i r) (entries r))%list.

Fixpoint add_all {E} (l : list A) (r : ringBuffer) : res E ringBuffer :=
  match l with
  | [] => Ok r
  | x :: l' => r' ← add x r; add_all l' r'
  end.

(** ** Invariant: the cells hold the last additions, the oldest at [i] *)
Record holds (n : nat) (l : list A) (r : ringBuffer) : Prop := {
  h_length : length (entries r) = n;
  h_full : full r = bool_decide (n ≤ length l)%nat;
  h_i : i r = (length l `mod` n)%nat;
  h_cells : ∀ k, (k < length l)%nat → (length l ≤ k + n)%nat →
    entries r !! (k `mod` n)%nat = Some (l !! k)
}.

Lemma holds_new n : (0 < n)%nat → holds n [] (newBuffer n).
Proof.
  intros Hn. split; simpl; [apply length_replicate| | |lia].
  - rewrite bool_decide_false; [done|lia].
  - by rewrite Nat.Div0.mod_0_l.
Qed.

Lemma mod_window_inj n a b :
  (0 < n)%nat → (a ≤ b)%nat → (b < a + n)%nat → (a `mod` n = b `mod` n)%nat → a = b.
Proof.
  intros Hn Hab Hb Heq.
  pose proof (Nat.div_mod_eq a n). pose proof (Nat.div_mod_eq b n).
  assert (a / n = b / n)%nat by nia. nia.
Qed.

Lemma succ_mod n a :
  (0 < n)%nat → ((a `mod` n + 1) `mod` n = (a + 1) `mod` n)%nat.
Proof. intros Hn. by rewrite Nat.Div0.add_mod_idemp_l. Qed.

Lemma add_holds {E} n l r x :
  (0 < n)%nat → holds n l r → ∃ r', add (E:=E) x r = Ok r' ∧ holds n (l ++ [x])%list r'.
Proof.
  intros Hn [Hlen Hfull Hi Hcells]. unfold add.
  assert (Hlt : (i r < n)%nat) by (rewrite Hi; apply Nat.mod_upper_bound; lia).
  rewrite bool_decide_true by lia. rewrite Hlen. eexists. split; [done|].
  split; simpl; rewrite ?length_app, ?length_insert; simpl; [done| | |].
  - rewrite Hfull, Hi, succ_mod by done. destruct (decide (n ≤ length l)%nat).
    + rewrite !bool_decide_true by lia. done.
    + rewrite bool_decide_false by lia. simpl. destruct (decide (n = length l + 1)%nat) as [He|].
      * rewrite <- He, Nat.Div0.mod_same. by rewrite bool_decide_true by lia.
      * rewrite bool_decide_false by lia. rewrite Nat.mod_small by lia. apply Nat.eqb_neq. lia.
  - by rewrite Hi, succ_mod.
  - intros k Hk Hwin. destruct (decide (k = length l)) as [->|Hne].
    + rewrite <- Hi. rewrite list_lookup_insert_eq by lia. by rewrite list_lookup_middle.
    + rewrite list_lookup_insert_ne.
      * rewrite Hcells by lia. by rewrite lookup_app_l by lia.
      * rewrite Hi. intros Heq. symmetry in Heq. apply mod_window_inj in Heq; lia.
Qed.

Lemma add_all_holds {E} n l0 l r :
  (0 < n)%nat → holds n l0 r → ∃ r', add_all (E:=E) l r = Ok r' ∧ holds n (l0 ++ l)%list r'.
Proof.
  intros Hn. revert l0 r. induction l as [|x l IH]; intros l0 r Hr.
  { exists r. by rewrite app_nil_r. }
  destruct (add_holds (E:=E) n l0 r x Hn Hr) as (r1 & He & Hr1). simpl. rewrite He. simpl.
  destruct (IH _ _ Hr1) as (r2 & He2 & Hr2). exists r2. split; [done|]. by rewrite <- app_assoc in Hr2.
Qed.

Lemma holds_contents n l r :
  (0 < n)%nat → holds n l r → contents r (getAll r) = Some <$> drop (length l - n) l.
Proof.
  intros Hn [Hlen Hfull Hi Hcells]. unfold getAll. rewrite Hfull.
  destruct (decide (n ≤ length l)%nat) as [Hge|Hlt].
  - rewrite bool_decide_true by done. rewrite andb_false_r. cbn [negb andb].
    assert (Hil : (i r < n)%nat) by (rewrite Hi; apply Nat.mod_upper_bound; lia).
    assert (Hrot : (drop (i r) (entries r) ++ take (i r) (entries r))%list = Some <$> drop (length l - n) l).
    { apply list_eq. intros j. rewrite list_lookup_fmap, lookup_drop.
      destruct (decide (j < n)%nat) as [Hj|Hj].
      2: { rewrite lookup_ge_None_2 by (rewrite length_app, length_drop, length_take; lia).
           by rewrite lookup_ge_None_2 by lia. }
      set (k := (length l - n + j)%nat).
      pose proof (Hcells k ltac:(lia) ltac:(lia)) as Hk.
      destruct (lookup_lt_is_Some_2 l k) as [x Hx]; [lia|]. rewrite Hx in *. simpl.
      rewrite <- Hk. pose proof (Nat.div_mod_eq (length l) n) as Hd. rewrite <- Hi in Hd.
      destruct (decide (j < n - i r)%nat).
      - rewrite lookup_app_l by (rewrite length_drop; lia). rewrite lookup_drop. f_equal.
        replace k with (i r + j + (length l / n - 1) * n)%nat.
        + rewrite Nat.Div0.mod_add, Nat.mod_small; lia.
        + unfold k. destruct (length l / n)%nat eqn:Hq; [lia|]. nia.
      - rewrite lookup_app_r by (rewrite length_drop; lia). rewrite length_drop, Hlen.
        rewrite lookup_take_lt by lia. f_equal.
        replace k with ((j - (n - i r)) + (length l / n) * n)%nat by (unfold k; nia).
        rewrite Nat.Div0.mod_add, Nat.mod_small; lia. }
    destruct (Nat.eqb_spec (i r) 0) as [H0|H0]; cbn [negb andb contents]; [|exact Hrot].
    rewrite H0 in Hrot. rewrite drop_0, take_0, app_nil_r in Hrot. rewrite drop_0, Nat.sub_0_r.
    rewrite take_ge by lia. exact Hrot.
  - rewrite bool_decide_false by lia. rewrite andb_true_r. cbn [negb].
    rewrite Nat.mod_small in Hi by lia. replace (length l - n)%nat with 0%nat by lia. rewrite drop_0.
    destruct (Nat.eqb_spec (i r) 0) as [H0|H0].
    + rewrite H0 in Hi. destruct l; [done|discriminate Hi].
    + cbn [contents]. rewrite drop_0, Nat.sub_0_r. apply list_eq. intros j. rewrite list_lookup_fmap.
      destruct (decide (j < length l)%nat) as [Hj|].
      * rewrite lookup_take_lt by lia. pose proof (Hcells j Hj ltac:(lia)) as Hc.
        rewrite Nat.mod_small in Hc by lia. rewrite Hc.
        destruct (lookup_lt_is_Some_2 l j Hj) as [x ->]. done.
      * rewrite lookup_ge_None_2 by (rewrite length_take; lia). by rewrite lookup_ge_None_2 by lia.
Qed.

(** A ring buffer of size [n] never fails and [getAll] returns its last [n]
    additions, or all of them while there are fewer, oldest first. *)
Theorem ring_buffer_keeps_last E n l :
  (0 < n)%nat →
  ∃ r, add_all (E:=E) l (newBuffer n) = Ok r ∧
    contents r (getAll r) = Some <$> drop (length l - n) l.
Proof.
  intros Hn. destruct (add_all_holds (E:=E) n [] l _ Hn (holds_new n Hn)) as (r & He & Hr).
  exists r. split; [done|]. by apply holds_contents.
Qed.

End buffer.
Arguments ringBuffer : clear implicits.
Arguments slice : clear implicits.

Lemma ring_buffer_keeps_last_witness :
  ∃ r : ringBuffer Z, add_all (E:=mon_error) [1; 2; 3; 4; 5] (newBuffer 3) = Ok r ∧
    contents r (getAll r) = [Some 3; Some 4; Some 5].
Proof. apply (ring_buffer_keeps_last mon_error 3 [1; 2; 3; 4; 5]). lia. Defined.

(** What [getAll] returned changes with later additions: after two additions to
    a buffer of size 2 it returns the buffer's own array, and the next addition
    overwrites the oldest element of the slice already handed out. *)
Theorem ring_buffer_result_aliased :
  ∃ r r' : ringBuffer Z,
    add_all (E:=mon_error) [1; 2] (newBuffer 2) = Ok r ∧ add (E:=mon_error) 3 r = Ok r' ∧
    contents r (getAll r) = [Some 1; Some 2] ∧ contents r' (getAll r) = [Some 3; Some 2].
Proof. eexists _, _. split; [reflexivity|]. split; [reflexivity|]. split; reflexivity. Qed.

(** ** reporter.go *)
Record config := mkConfig { Period : Z; Size : nat; Namespaces : list string }.

Definition defaultConfig : config := mkConfig 10000000000 60 ["stats"].

Record reporter := mkReporter {
  rep_config : config;
  registries : gmap string positive;
  rep_entries : gmap string (ringBuffer (gmap string tree))
}.

(** [MakeReporter] with an unpacked configuration; the goroutine it starts runs
    [snapshot_tick] at every tick. *)
Fixpoint make_entries (c : config) (nss : list string) (r : reporter) : MM reporter :=
  match nss with
  | [] => mret r
  | ns :: nss' =>
      reg ← ns_GetRegistry ns;
      make_entries c nss' (mkReporter c (<[ns := reg]> (registries r))
                             (<[ns := newBuffer (Size c)]> (rep_entries r)))
  end.

Definition MakeReporter (c : config) : MM reporter :=
  make_entries c (Namespaces c) (mkReporter c ∅ ∅).

(** The turn of the loop for one registry: a nil snapshot is a nil map, which has
    no timestamp and cannot be given one. *)
Definition report_registry `{MapOrder} (fuel : nat) (s : store) (ts : tree) (nm : string)
    (reg : positive) (bufs : gmap string (ringBuffer (gmap string tree)))
  : res mon_error (gmap string (ringBuffer (gmap string tree))) :=
  snap ← CollectStructSnapshot fuel s (Some reg) Full None;
  snap' ← match snap with
          | None => Panic PNilMap
          | Some m => Ok (if bool_decide (is_Some (m !! "@timestamp")) then m
                          else <["@timestamp" := ts]> m)
          end;
  match bufs !! nm with
  | None => Panic PNilPointer
  | Some b => b' ← add snap' b; Ok (<[nm := b']> bufs)
  end.

Fixpoint snapshot_registries `{MapOrder} (fuel : nat) (s : store) (ts : tree)
    (l : list (string * positive)) (bufs : gmap string (ringBuffer (gmap string tree)))
  : res mon_error (gmap string (ringBuffer (gmap string tree))) :=
  match l with
  | [] => Ok bufs
  | (nm, reg) :: l' =>
      bufs' ← report_registry fuel s ts nm reg bufs; snapshot_registries fuel s ts l' bufs'
  end.

Definition snapshot_tick `{MapOrder} (fuel : nat) (s : store) (ts : tree) (r : reporter)
  : res mon_error reporter :=
  bufs ← snapshot_registries fuel s ts (map_order (registries r)) (rep_entries r);
  Ok (mkReporter (rep_config r) (registries r) bufs).

(** The default reporter crashes at its first tick while the registry it watches
    is empty: the snapshot is a nil map and the timestamp is assigned into it. *)
Theorem reporter_tick_panics_on_empty_registry `{MapOrder} ts :
  ∃ s r, MakeReporter defaultConfig init_store = (s, Ok r) ∧
    ∀ fuel, snapshot_tick (S fuel) s ts r = Panic PNilMap.
Proof.
  assert (Hmk : MakeReporter defaultConfig init_store =
    (init_store, Ok (mkReporter defaultConfig {[ "stats" := Default ]} {[ "stats" := newBuffer 60 ]})))
    by reflexivity.
  eexists _, _. split; [exact Hmk|]. intros fuel.
  assert (Ho : map_order ({[ "stats" := Default ]} : gmap string positive) = [("stats", Default)]).
  { pose proof (map_order_perm ({[ "stats" := Default ]} : gmap string positive)) as Hp.
    rewrite map_to_list_singleton in Hp. by apply Permutation_singleton_r in Hp. }
  assert (Hn : map_order (∅ : gmap string entry) = []).
  { pose proof (map_order_perm (∅ : gmap string entry)) as Hp. rewrite map_to_list_empty in Hp.
    by apply Permutation_nil_r in Hp. }
  assert (Hv : Visit (S fuel) init_store Full (Some Default) = Ok [OnRegistryStart; OnRegistryFinished]).
  { cbn [Visit]. change (Some Default ≫= λ p, objs init_store !! p)
      with (Some (ORegistry (mkRegistry "" ∅ defaultOptions))). cbn [Monitoring.entries]. by rewrite Hn. }
  unfold snapshot_tick. cbn [registries]. rewrite Ho. cbn [snapshot_registries].
  unfold report_registry, CollectStructSnapshot. by rewrite Hv.
Qed.
