(* ===== verification/GoUtf8.v ===== *)
(** * UTF-8: package [unicode/utf8] and [range] over strings

    A rune is a [Z].  [EncodeRune] is what [string(r)] and [string(runes)]
    write, [DecodeRune] what [for i, r := range s] reads: an invalid byte
    decodes to [RuneError] with width 1. *)
From S2P Require Import Prelude GoStrings.

Open Scope string_scope.
Open Scope Z_scope.

Definition RuneError : Z := 65533.
Definition MaxRune : Z := 1114111.

Definition byte (a : ascii) : Z := Z.of_N (N_of_ascii a).
Definition chr (b : Z) : ascii := ascii_of_N (Z.to_N b).

Definition valid_rune (r : Z) : Prop := 0 ≤ r < 55296 ∨ 57343 < r ≤ MaxRune.
#[global] Instance valid_rune_dec r : Decision (valid_rune r).
Proof. unfold valid_rune. apply _. Defined.

(** A continuation byte with the six bits of [r] from bit [k] on. *)
Definition cont (r k : Z) : ascii := chr (Z.lor 128 (Z.land (Z.shiftr r k) 63)).

Definition encode3 (r : Z) : string :=
  String (chr (Z.lor 224 (Z.shiftr r 12))) (String (cont r 6) (String (cont r 0) "")).

Definition EncodeRune (r : Z) : string :=
  if bool_decide (valid_rune r) then
    if r <=? 127 then String (chr r) ""
    else if r <=? 2047 then String (chr (Z.lor 192 (Z.shiftr r 6))) (String (cont r 0) "")
    else if r <=? 65535 then encode3 r
    else String (chr (Z.lor 240 (Z.shiftr r 18)))
           (String (cont r 12) (String (cont r 6) (String (cont r 0) "")))
  else encode3 RuneError.

(** [string(runes)] *)
Fixpoint encode (rs : list Z) : string :=
  match rs with [] => "" | r :: rs' => EncodeRune r +:+ encode rs' end.

(** Length of the sequence the first byte announces, and the range its second
    byte must be in. *)
Definition first_info (b : Z) : option (nat * Z * Z) :=
  if b <? 194 then None
  else if b <=? 223 then Some (2%nat, 128, 191)
  else if b =? 224 then Some (3%nat, 160, 191)
  else if b <=? 236 then Some (3%nat, 128, 191)
  else if b =? 237 then Some (3%nat, 128, 159)
  else if b <=? 239 then Some (3%nat, 128, 191)
  else if b =? 240 then Some (4%nat, 144, 191)
  else if b <=? 243 then Some (4%nat, 128, 191)
  else if b =? 244 then Some (4%nat, 128, 143)
  else None.

Definition is_cont (b : Z) : bool := (128 <=? b) && (b <=? 191).

Definition low6 (b : Z) : Z := Z.land b 63.

(** [utf8.DecodeRuneInString(s)] on a non-empty string: the rune and the rest. *)
Definition DecodeRune (a : ascii) (s : string) : Z * string :=
  let b0 := byte a in
  if b0 <? 128 then (b0, s)
  else
    match first_info b0, s with
    | Some (n, lo, hi), String a1 s1 =>
        let b1 := byte a1 in
        if negb ((lo <=? b1) && (b1 <=? hi)) then (RuneError, s)
        else if bool_decide (n = 2%nat) then
          (Z.lor (Z.shiftl (Z.land b0 31) 6) (low6 b1), s1)
        else
          match s1 with
          | String a2 s2 =>
              let b2 := byte a2 in
              if negb (is_cont b2) then (RuneError, s)
              else if bool_decide (n = 3%nat) then
                (Z.lor (Z.lor (Z.shiftl (Z.land b0 15) 12) (Z.shiftl (low6 b1) 6)) (low6 b2), s2)
              else
                match s2 with
                | String a3 s3 =>
                    let b3 := byte a3 in
                    if negb (is_cont b3) then (RuneError, s)
                    else
                      (Z.lor (Z.lor (Z.lor (Z.shiftl (Z.land b0 7) 18) (Z.shiftl (low6 b1) 12))
                         (Z.shiftl (low6 b2) 6)) (low6 b3), s3)
                | "" => (RuneError, s)
                end
          | "" => (RuneError, s)
          end
    | _, _ => (RuneError, s)
    end.

(** [for i, r := range s]: the runes with their byte offsets.  Every rune takes
    at least one byte, so the length of the string is fuel enough. *)
Fixpoint range_loop (fuel : nat) (i : nat) (s : string) : list (nat * Z) :=
  match fuel, s with
  | S fuel', String a s' =>
      let '(r, rest) := DecodeRune a s' in
      (i, r) :: range_loop fuel' (i + (String.length s - String.length rest)) rest
  | _, _ => []
  end.

Definition range_string (s : string) : list (nat * Z) := range_loop (String.length s) 0 s.

(** [unicode.IsSpace] *)
Definition IsSpace (r : Z) : bool :=
  ((9 <=? r) && (r <=? 13)) || (r =? 32) || (r =? 133) || (r =? 160) || (r =? 5760) ||
  ((8192 <=? r) && (r <=? 8202)) || (r =? 8232) || (r =? 8233) || (r =? 8239) || (r =? 8287) || (r =? 12288).

Fixpoint skip_spaces (l : list (nat * Z)) : list (nat * Z) :=
  match l with (i, r) :: l' => if IsSpace r then skip_spaces l' else l | [] => [] end.

(** Where the white space at the end starts; [e] is the end of what follows,
    in a list of runes from the last to the first. *)
Fixpoint trim_end (l : list (nat * Z)) (e : nat) : nat :=
  match l with (i, r) :: l' => if IsSpace r then trim_end l' i else e | [] => e end.

(** [strings.TrimSpace] *)
Definition TrimSpace (s : string) : string :=
  let l := range_string s in
  match skip_spaces l with
  | [] => ""
  | (i, _) :: _ => stake (trim_end (rev l) (String.length s) - i) (sdrop i s)
  end.


(** ** Decoding inverts encoding *)
Lemma byte_chr b : 0 ≤ b < 256 → byte (chr b) = b.
Proof. intros. unfold byte, chr. rewrite N_ascii_embedding; lia. Qed.

Lemma byte_range a : 0 ≤ byte a < 256.
Proof. unfold byte. pose proof (N_ascii_bounded a). lia. Qed.

Lemma chr_byte a : chr (byte a) = a.
Proof. unfold byte, chr. rewrite N2Z.id. apply ascii_N_embedding. Qed.

(** Disjoint bits add up. *)
Lemma lor_add hi lo k : 0 ≤ k → 0 ≤ lo < 2 ^ k → Z.lor (hi * 2 ^ k) lo = hi * 2 ^ k + lo.
Proof.
  intros Hk Hlo.
  assert (Hd : Z.land (hi * 2 ^ k) lo = 0).
  { apply Z.bits_inj'; intros n Hn; rewrite Z.land_spec, Z.bits_0.
    destruct (decide (n < k)) as [Hlt|Hge].
    - rewrite Z.mul_pow2_bits_low by lia. done.
    - rewrite <- (Z.mod_small lo (2 ^ k)) by done.
      rewrite Z.mod_pow2_bits_high by lia. apply andb_false_r. }
  by rewrite <- Z.lxor_lor, <- Z.add_nocarry_lxor by done.
Qed.

Lemma land_mod x k : 0 ≤ k → Z.land x (2 ^ k - 1) = x mod 2 ^ k.
Proof. intros. rewrite <- Z.land_ones by done. f_equal. by rewrite Z.ones_equiv, Z.sub_1_r. Qed.

Lemma lor_add_mul hi lo k h :
  0 ≤ k → 0 ≤ lo < 2 ^ k → hi = h * 2 ^ k → Z.lor hi lo = hi + lo.
Proof. intros ? ? ->. by apply lor_add. Qed.

Lemma byte_cont r k : 0 ≤ k → 0 ≤ r → byte (cont r k) = 128 + (r / 2 ^ k) mod 64.
Proof.
  intros. unfold cont. rewrite Z.shiftr_div_pow2 by done.
  pose proof (Z.mod_pos_bound (r / 2 ^ k) 64 ltac:(lia)).
  change 63 with (2 ^ 6 - 1). rewrite land_mod by lia. change (2 ^ 6) with 64.
  rewrite (lor_add_mul 128 _ 6 2); [|lia|done|done]. rewrite byte_chr; lia.
Qed.

Lemma byte_lead r k hi h :
  0 ≤ k → 0 ≤ r → hi = h * 2 ^ 4 → 0 ≤ r / 2 ^ k < 16 → hi + 16 ≤ 256 → 0 ≤ hi →
  byte (chr (Z.lor hi (Z.shiftr r k))) = hi + r / 2 ^ k.
Proof.
  intros. rewrite Z.shiftr_div_pow2 by done. rewrite (lor_add_mul hi _ 4 h) by (done || lia).
  rewrite byte_chr; lia.
Qed.

Lemma byte_lead2 r : 0 ≤ r ≤ 2047 → byte (chr (Z.lor 192 (Z.shiftr r 6))) = 192 + r / 64.
Proof.
  intros. rewrite Z.shiftr_div_pow2 by done. change (2 ^ 6) with 64.
  assert (0 ≤ r / 64 < 32) by (Z.to_euclidean_division_equations; lia).
  rewrite (lor_add_mul 192 _ 5 6) by (done || lia). rewrite byte_chr; lia.
Qed.

Lemma low_bits x hi k h : 0 ≤ k → 0 ≤ x < 2 ^ k → hi = h * 2 ^ k → Z.land (hi + x) (2 ^ k - 1) = x.
Proof.
  intros. subst. rewrite land_mod by done.
  rewrite Z.add_comm, Z_mod_plus_full. by apply Z.mod_small.
Qed.

Lemma shiftl_lor hi lo k : 0 ≤ k → 0 ≤ lo < 2 ^ k → Z.lor (Z.shiftl hi k) lo = hi * 2 ^ k + lo.
Proof. intros. rewrite Z.shiftl_mul_pow2 by done. by apply lor_add. Qed.

Lemma first_info_2 b : 194 ≤ b ≤ 223 → first_info b = Some (2%nat, 128, 191).
Proof. intros. unfold first_info. repeat case_match; (done || lia). Qed.

Lemma first_info_3 b : 224 ≤ b ≤ 239 → ∃ lo hi, first_info b = Some (3%nat, lo, hi) ∧
  (b = 224 ∧ lo = 160 ∧ hi = 191 ∨ b = 237 ∧ lo = 128 ∧ hi = 159 ∨
   b ≠ 224 ∧ b ≠ 237 ∧ lo = 128 ∧ hi = 191).
Proof. intros. unfold first_info. repeat case_match; try lia; do 2 eexists; (split; [done|lia]). Qed.

Lemma first_info_4 b : 240 ≤ b ≤ 244 → ∃ lo hi, first_info b = Some (4%nat, lo, hi) ∧
  (b = 240 ∧ lo = 144 ∧ hi = 191 ∨ b = 244 ∧ lo = 128 ∧ hi = 143 ∨
   b ≠ 240 ∧ b ≠ 244 ∧ lo = 128 ∧ hi = 191).
Proof. intros. unfold first_info. repeat case_match; try lia; do 2 eexists; (split; [done|lia]). Qed.

Lemma decode_encode_2 r s :
  127 < r ≤ 2047 → DecodeRune (chr (Z.lor 192 (Z.shiftr r 6))) (String (cont r 0) s) = (r, s).
Proof.
  intros Hr. unfold DecodeRune, low6. rewrite byte_lead2, byte_cont by lia.
  change (2 ^ 0) with 1. rewrite Z.div_1_r.
  assert (1 < r / 64 < 32) by (Z.to_euclidean_division_equations; lia).
  pose proof (Z.mod_pos_bound r 64 ltac:(lia)).
  destruct (Z.ltb_spec (192 + r / 64) 128); [lia|]. rewrite first_info_2 by lia.
  destruct (Z.leb_spec 128 (128 + r mod 64)); [|lia].
  destruct (Z.leb_spec (128 + r mod 64) 191); [|lia]. cbn [andb negb].
  rewrite bool_decide_true by done. f_equal.
  change 31 with (2 ^ 5 - 1). change 63 with (2 ^ 6 - 1).
  rewrite (low_bits _ 192 5 6), (low_bits _ 128 6 2) by (done || lia).
  rewrite shiftl_lor by (done || lia). change (2 ^ 6) with 64.
  Z.to_euclidean_division_equations; lia.
Qed.

Lemma is_cont_add x : 0 ≤ x < 64 → is_cont (128 + x) = true.
Proof. intros. unfold is_cont. destruct (Z.leb_spec 128 (128 + x)), (Z.leb_spec (128 + x) 191); (done || lia). Qed.

Lemma decode_encode_3 r s :
  2047 < r ≤ 65535 → valid_rune r →
  DecodeRune (chr (Z.lor 224 (Z.shiftr r 12))) (String (cont r 6) (String (cont r 0) s)) = (r, s).
Proof.
  intros Hr Hv. unfold DecodeRune, low6.
  assert (Hd : 0 ≤ r / 4096 < 16) by (Z.to_euclidean_division_equations; lia).
  rewrite (byte_lead r 12 224 14), !byte_cont by (done || lia).
  change (2 ^ 12) with 4096. change (2 ^ 6) with 64. change (2 ^ 0) with 1. rewrite Z.div_1_r.
  pose proof (Z.mod_pos_bound r 64 ltac:(lia)).
  pose proof (Z.mod_pos_bound (r / 64) 64 ltac:(lia)).
  assert (Hq : r / 64 = r / 4096 * 64 + (r / 64) mod 64)
    by (Z.to_euclidean_division_equations; lia).
  assert (Hr' : r = r / 64 * 64 + r mod 64) by (Z.to_euclidean_division_equations; lia).
  destruct (Z.ltb_spec (224 + r / 4096) 128); [lia|].
  destruct (first_info_3 (224 + r / 4096)) as (lo & hi & -> & Hcase); [lia|].
  unfold valid_rune in Hv.
  destruct (Z.leb_spec lo (128 + (r / 64) mod 64)); [|lia].
  destruct (Z.leb_spec (128 + (r / 64) mod 64) hi); [|lia]. cbn [andb negb].
  rewrite bool_decide_false by done. rewrite is_cont_add by done. cbn [negb].
  rewrite bool_decide_true by done. f_equal.
  change 63 with (2 ^ 6 - 1). change 15 with (2 ^ 4 - 1).
  rewrite (low_bits _ 224 4 14), !(low_bits _ 128 6 2) by (done || lia).
  rewrite shiftl_lor; [|done|rewrite Z.shiftl_mul_pow2 by done; change (2 ^ 6) with 64;
    change (2 ^ 12) with 4096; lia].
  rewrite (Z.shiftl_mul_pow2 _ 6) by done. change (2 ^ 6) with 64. change (2 ^ 12) with 4096.
  rewrite (lor_add_mul _ _ 6 (r / 4096 * 64 + (r / 64) mod 64)); [lia|done|done|].
  change (2 ^ 6) with 64. lia.
Qed.

Lemma decode_encode_4 r s :
  65535 < r ≤ MaxRune →
  DecodeRune (chr (Z.lor 240 (Z.shiftr r 18)))
    (String (cont r 12) (String (cont r 6) (String (cont r 0) s))) = (r, s).
Proof.
  unfold MaxRune. intros Hr. unfold DecodeRune, low6.
  assert (Hd : 0 ≤ r / 262144 < 5) by (Z.to_euclidean_division_equations; lia).
  rewrite (byte_lead r 18 240 15), !byte_cont
    by (done || lia || (change (2 ^ 18) with 262144; lia)).
  change (2 ^ 18) with 262144. change (2 ^ 12) with 4096. change (2 ^ 6) with 64.
  change (2 ^ 0) with 1. rewrite Z.div_1_r.
  pose proof (Z.mod_pos_bound r 64 ltac:(lia)).
  pose proof (Z.mod_pos_bound (r / 64) 64 ltac:(lia)).
  pose proof (Z.mod_pos_bound (r / 4096) 64 ltac:(lia)).
  assert (Hr3 : r / 4096 = r / 262144 * 64 + (r / 4096) mod 64)
    by (Z.to_euclidean_division_equations; lia).
  assert (Hr2 : r / 64 = r / 4096 * 64 + (r / 64) mod 64)
    by (Z.to_euclidean_division_equations; lia).
  assert (Hr1 : r = r / 64 * 64 + r mod 64) by (Z.to_euclidean_division_equations; lia).
  destruct (Z.ltb_spec (240 + r / 262144) 128); [lia|].
  destruct (first_info_4 (240 + r / 262144)) as (lo & hi & -> & Hcase); [lia|].
  destruct (Z.leb_spec lo (128 + (r / 4096) mod 64)); [|lia].
  destruct (Z.leb_spec (128 + (r / 4096) mod 64) hi); [|lia]. cbn [andb negb].
  rewrite bool_decide_false by done. rewrite is_cont_add by done. cbn [negb].
  rewrite bool_decide_false by done. rewrite is_cont_add by done. cbn [negb]. f_equal.
  change 63 with (2 ^ 6 - 1). change 7 with (2 ^ 3 - 1).
  rewrite (low_bits _ 240 3 30), !(low_bits _ 128 6 2) by (done || lia).
  rewrite (Z.shiftl_mul_pow2 _ 18), (Z.shiftl_mul_pow2 _ 12), (Z.shiftl_mul_pow2 _ 6) by done.
  change (2 ^ 6) with 64. change (2 ^ 12) with 4096. change (2 ^ 18) with 262144.
  rewrite (lor_add_mul (r / 262144 * 262144) _ 18 (r / 262144));
    [|done|change (2 ^ 18) with 262144; lia|done].
  rewrite (lor_add_mul (r / 262144 * 262144 + _) _ 12 (r / 262144 * 64 + (r / 4096) mod 64));
    [|done|change (2 ^ 12) with 4096; lia|change (2 ^ 12) with 4096; lia].
  rewrite (lor_add_mul _ _ 6 (r / 4096 * 64 + (r / 64) mod 64));
    [|done|change (2 ^ 6) with 64; lia|change (2 ^ 6) with 64; lia].
  lia.
Qed.

(** The encoding of a rune is read back as that rune, whatever follows. *)
Lemma DecodeRune_EncodeRune r s :
  valid_rune r → ∃ a e, EncodeRune r = String a e ∧ DecodeRune a (e +:+ s) = (r, s).
Proof.
  intros Hv. unfold EncodeRune. rewrite bool_decide_true by done.
  destruct (Z.leb_spec r 127); [|destruct (Z.leb_spec r 2047); [|destruct (Z.leb_spec r 65535)]].
  - do 2 eexists. split; [done|]. simpl. unfold DecodeRune.
    assert (0 ≤ r) by (unfold valid_rune in Hv; lia).
    rewrite byte_chr by lia. destruct (Z.ltb_spec r 128); [done|lia].
  - do 2 eexists. split; [done|]. simpl. apply decode_encode_2. lia.
  - do 2 eexists. split; [done|]. simpl. apply decode_encode_3; [lia|done].
  - do 2 eexists. split; [done|]. simpl. apply decode_encode_4. unfold valid_rune, MaxRune in *. lia.
Qed.

(** ** Strings of runes *)
Lemma encode_app a b : encode (a ++ b)%list = encode a +:+ encode b.
Proof. induction a as [|r a IH]; simpl; [done|]. by rewrite IH, sapp_assoc. Qed.

Lemma range_loop_encode fuel i rs :
  Forall valid_rune rs → (String.length (encode rs) ≤ fuel)%nat →
  (range_loop fuel i (encode rs)).*2 = rs.
Proof.
  intros Hv. revert fuel i. induction Hv as [|r rs Hr Hrs IH]; intros fuel i Hf; simpl in *.
  { by destruct fuel. }
  destruct (DecodeRune_EncodeRune r (encode rs) Hr) as (a & e & He & Hd).
  rewrite He in *. simpl in *. destruct fuel as [|fuel]; [lia|]. simpl.
  rewrite Hd. simpl. f_equal. apply IH. rewrite length_sapp in Hf. lia.
Qed.

(** [range] over an encoded string yields its runes. *)
Lemma range_string_encode rs : Forall valid_rune rs → (range_string (encode rs)).*2 = rs.
Proof. intros. by apply range_loop_encode. Qed.

Lemma encode_cons_inj r r' s s' :
  valid_rune r → valid_rune r' →
  EncodeRune r +:+ s = EncodeRune r' +:+ s' → r = r' ∧ s = s'.
Proof.
  intros Hr Hr' Heq.
  destruct (DecodeRune_EncodeRune r s Hr) as (a & e & He & Hd).
  destruct (DecodeRune_EncodeRune r' s' Hr') as (a' & e' & He' & Hd').
  rewrite He, He' in Heq. simpl in Heq. injection Heq as <- Htl. rewrite Htl, Hd' in Hd.
  by injection Hd as <- <-.
Qed.

Lemma EncodeRune_nonempty r s : EncodeRune r +:+ s ≠ "".
Proof. unfold EncodeRune, encode3. repeat case_match; done. Qed.

Lemma encode_prefix p s :
  Forall valid_rune p → Forall valid_rune s →
  HasPrefix (encode s) (encode p) = true ↔ ∃ r, s = (p ++ r)%list.
Proof.
  intros Hp. revert s. induction Hp as [|x p Hx Hp IH]; intros s Hs.
  { split; [by eexists|]. intros _. apply HasPrefix_nil. }
  rewrite HasPrefix_spec. split.
  - intros [r Hr]. destruct Hs as [|y s Hy Hs]; simpl in Hr.
    { rewrite sapp_assoc in Hr. by destruct (EncodeRune_nonempty x (encode p +:+ r)). }
    rewrite sapp_assoc in Hr. apply encode_cons_inj in Hr as [-> Hr]; [|done..].
    destruct (proj1 (IH s Hs)) as [r' ->]; [apply HasPrefix_spec; by exists r|].
    by exists r'.
  - intros [r ->]. exists (encode r). by rewrite encode_app.
Qed.

Lemma encode_inj s t : Forall valid_rune s → Forall valid_rune t → encode s = encode t → s = t.
Proof.
  intros Hs Ht Heq. destruct (proj1 (encode_prefix s t Hs Ht)) as [r ->].
  { apply HasPrefix_spec. exists "". by rewrite sapp_nil_r. }
  rewrite encode_app in Heq. rewrite <- (sapp_nil_r (encode s)) in Heq at 1.
  apply sapp_inj_r in Heq. destruct r as [|x r]; [by rewrite app_nil_r|].
  simpl in Heq. by destruct (EncodeRune_nonempty x (encode r)).
Qed.

(** A byte that continues a sequence is never the first of one. *)
Fixpoint all_cont (s : string) : bool :=
  match s with "" => true | String a s' => is_cont (byte a) && all_cont s' end.

Lemma is_cont_cont r k : 0 ≤ k → 0 ≤ r → is_cont (byte (cont r k)) = true.
Proof. intros. rewrite byte_cont by done. apply is_cont_add, Z.mod_pos_bound. lia. Qed.

Lemma EncodeRune_shape r : valid_rune r → ∃ a e,
  EncodeRune r = String a e ∧ is_cont (byte a) = false ∧ all_cont e = true.
Proof.
  intros Hv. assert (0 ≤ r ≤ MaxRune) by (unfold valid_rune, MaxRune in *; lia).
  unfold MaxRune in *. unfold EncodeRune. rewrite bool_decide_true by done.
  assert (Hlead : ∀ b, b < 128 ∨ 191 < b → is_cont b = false).
  { intros b Hb. unfold is_cont. destruct (Z.leb_spec 128 b), (Z.leb_spec b 191); (done || lia). }
  destruct (Z.leb_spec r 127); [|destruct (Z.leb_spec r 2047); [|destruct (Z.leb_spec r 65535)]];
    (do 2 eexists; split; [reflexivity|]); simpl; rewrite ?is_cont_cont by lia; (split; [|done]);
    apply Hlead.
  - rewrite byte_chr; lia.
  - rewrite byte_lead2 by lia. pose proof (Z.div_pos r 64). lia.
  - rewrite (byte_lead r 12 224 14); try (done || lia);
      change (2 ^ 12) with 4096; Z.to_euclidean_division_equations; lia.
  - rewrite (byte_lead r 18 240 15); try (done || lia);
      change (2 ^ 18) with 262144; Z.to_euclidean_division_equations; lia.
Qed.

Lemma Contains_spec s p : Contains s p = true ↔ ∃ a b, s = a +:+ p +:+ b.
Proof.
  unfold Contains. split.
  - destruct (index_nat s p) as [i|] eqn:Hi; [|done]. intros _.
    destruct (index_nat_Some _ _ _ Hi) as [Hs _]. eauto.
  - intros (a & b & ->). destruct (index_nat _ p) eqn:Hi; [done|].
    apply index_nat_None with (j := String.length a) in Hi; [|rewrite !length_sapp; lia].
    rewrite sdrop_length_app in Hi. by rewrite HasPrefix_app in Hi.
Qed.

Lemma cont_prefix_skip e p s :
  all_cont e = true → (∃ a p', p = String a p' ∧ is_cont (byte a) = false) →
  ∀ a b, e +:+ s = a +:+ p +:+ b → ∃ a', s = a' +:+ p +:+ b.
Proof.
  intros He (c & p' & -> & Hc). induction e as [|x e IH]; intros a b Heq; simpl in *; [eauto|].
  apply andb_true_iff in He as [Hx He]. destruct a as [|y a]; simpl in *.
  - injection Heq as -> _. by rewrite Hc in Hx.
  - injection Heq as <- Heq. by apply (IH He a b).
Qed.

(** Bytewise search finds exactly the occurrences at rune boundaries. *)
Lemma encode_contains p s :
  Forall valid_rune p → Forall valid_rune s →
  Contains (encode s) (encode p) = true ↔ ∃ a b, s = (a ++ p ++ b)%list.
Proof.
  intros Hp Hs. destruct Hp as [|x p Hx Hp].
  { split; [intros _; by exists [], s|]. intros _. apply Contains_spec. by exists "", (encode s). }
  rewrite Contains_spec. split; [|intros (a & b & ->); exists (encode a), (encode b); by rewrite !encode_app].
  intros (a & b & Heq). revert a Heq. induction Hs as [|y s Hy Hs IH]; intros a Heq.
  { simpl in Heq. destruct a as [|? a]; simpl in Heq; [|done]. rewrite sapp_assoc in Heq.
    by destruct (EncodeRune_nonempty x (encode p +:+ b)). }
  destruct a as [|c a].
  - destruct (proj1 (encode_prefix (x :: p) (y :: s) ltac:(by constructor) ltac:(by constructor)))
      as [r Hr]; [apply HasPrefix_spec; by exists b|]. by exists [], r.
  - destruct (EncodeRune_shape y Hy) as (d & e & He & Hd & Hc). simpl in Heq. rewrite He in Heq.
    simpl in Heq. injection Heq as <- Heq.
    destruct (cont_prefix_skip e (encode (x :: p)) (encode s) Hc) with (a := a) (b := b)
      as [a' Ha']; [|done|].
    { destruct (EncodeRune_shape x Hx) as (d' & e' & He' & Hd' & _). simpl. rewrite He'. simpl. eauto. }
    destruct (IH a' Ha') as (a1 & b1 & ->). by exists (y :: a1), b1.
Qed.

(** ** How much [DecodeRune] reads *)

(** The string does not start with a continuation byte. *)
Definition fresh_start (z : string) : bool := match z with "" => true | String a _ => negb (is_cont (byte a)) end.

Lemma first_info_bounds b n lo hi :
  first_info b = Some (n, lo, hi) → 194 ≤ b ∧ 128 ≤ lo ∧ hi ≤ 191 ∧ (n = 2 ∨ n = 3 ∨ n = 4)%nat ∧
  (n = 2%nat → b ≤ 223) ∧ (n = 3%nat → 224 ≤ b ≤ 239 ∧ (b = 224 → lo = 160)) ∧
  (n = 4%nat → 240 ≤ b ≤ 244 ∧ (b = 240 → lo = 144)).
Proof. unfold first_info. repeat case_match; intros; simplify_eq; repeat split; intros; lia. Qed.

Lemma fresh_start_range lo hi c z :
  128 ≤ lo → hi ≤ 191 → fresh_start (String c z) = true → negb ((lo <=? byte c) && (byte c <=? hi)) = true.
Proof. unfold fresh_start, is_cont. intros. lia. Qed.

(** An invalid sequence stays invalid when what follows the byte changes. *)
Lemma DecodeRune_short a z :
  128 ≤ byte a → fresh_start z = true → DecodeRune a z = (RuneError, z).
Proof.
  intros Ha Hz. unfold DecodeRune. destruct (Z.ltb_spec (byte a) 128); [lia|].
  destruct (first_info (byte a)) as [[[n lo] hi]|] eqn:Hf; [|done].
  apply first_info_bounds in Hf as (_ & Hlo & Hhi & _).
  destruct z as [|c z]; [done|]. by rewrite (fresh_start_range lo hi c z).
Qed.

Lemma low6_range b : 0 ≤ low6 b < 64.
Proof.
  unfold low6. change 63 with (2 ^ 6 - 1). rewrite land_mod by lia. apply Z.mod_pos_bound. lia.
Qed.

Lemma land_lead b k hi : 0 ≤ k → 0 ≤ b - hi < 2 ^ k → hi mod 2 ^ k = 0 → Z.land b (2 ^ k - 1) = b - hi.
Proof.
  intros Hk Hb Hhi. rewrite land_mod by done. rewrite <- (Z.mod_small (b - hi) (2 ^ k)) by done.
  rewrite Zminus_mod, Hhi, Z.sub_0_r, Z.mod_mod; [done|]. pose proof (Z.pow_pos_nonneg 2 k). lia.
Qed.

Lemma lor_ge x y : 0 ≤ x → 0 ≤ y → x ≤ Z.lor x y ∧ y ≤ Z.lor x y.
Proof.
  intros Hx Hy. assert (H0 : 0 ≤ Z.lor x y) by by apply Z.lor_nonneg.
  split; apply Z.ldiff_le; try done; apply Z.bits_inj'; intros n Hn;
    rewrite Z.ldiff_spec, Z.lor_spec, Z.bits_0; by destruct (Z.testbit x n), (Z.testbit y n).
Qed.

Lemma low6_cont b : 128 ≤ b ≤ 191 → low6 b = b - 128.
Proof. intros. unfold low6. change 63 with (2 ^ 6 - 1). by apply land_lead; [|lia|]. Qed.

Lemma rune3_high b0 b1 l2 :
  224 ≤ b0 ≤ 239 → 128 ≤ b1 ≤ 191 → (b0 = 224 → 160 ≤ b1) → 0 ≤ l2 →
  128 ≤ Z.lor (Z.lor (Z.shiftl (Z.land b0 15) 12) (Z.shiftl (low6 b1) 6)) l2.
Proof.
  intros H0 H1 Hs H2. rewrite low6_cont by done. change 15 with (2 ^ 4 - 1).
  rewrite (land_lead _ 4 224) by (done || lia). rewrite !Z.shiftl_mul_pow2 by lia.
  change (2 ^ 12) with 4096. change (2 ^ 6) with 64.
  destruct (lor_ge ((b0 - 224) * 4096) ((b1 - 128) * 64)) as [L1 L2]; [lia|lia|].
  destruct (lor_ge (Z.lor ((b0 - 224) * 4096) ((b1 - 128) * 64)) l2) as [L3 _]; lia.
Qed.

Lemma rune4_high b0 b1 l2 l3 :
  240 ≤ b0 ≤ 244 → 128 ≤ b1 ≤ 191 → (b0 = 240 → 144 ≤ b1) → 0 ≤ l2 → 0 ≤ l3 →
  128 ≤ Z.lor (Z.lor (Z.lor (Z.shiftl (Z.land b0 7) 18) (Z.shiftl (low6 b1) 12)) l2) l3.
Proof.
  intros H0 H1 Hs H2 H3. rewrite low6_cont by done. change 7 with (2 ^ 3 - 1).
  rewrite (land_lead _ 3 240) by (done || lia). rewrite !Z.shiftl_mul_pow2 by lia.
  change (2 ^ 18) with 262144. change (2 ^ 12) with 4096.
  destruct (lor_ge ((b0 - 240) * 262144) ((b1 - 128) * 4096)) as [L1 L2]; [lia|lia|].
  destruct (lor_ge (Z.lor ((b0 - 240) * 262144) ((b1 - 128) * 4096)) l2) as [L3 _]; [lia|lia|].
  destruct (lor_ge (Z.lor (Z.lor ((b0 - 240) * 262144) ((b1 - 128) * 4096)) l2) l3) as [L4 _]; lia.
Qed.

(** What is read: the byte alone when it is ASCII or starts nothing valid, else
    continuation bytes after it, whatever comes next. *)
Definition decodes (a : ascii) (s : string) (r : Z) (rest e : string) : Prop :=
  s = e +:+ rest ∧ all_cont e = true ∧ (byte a < 128 → e = "" ∧ r = byte a) ∧ (128 ≤ byte a → 128 ≤ r) ∧
  (∀ z, fresh_start z = true → (DecodeRune a (e +:+ z)).2 = z).

Lemma reads_alone a s : 128 ≤ byte a → decodes a s RuneError s "".
Proof.
  intros Ha. unfold decodes. conjs; [done|done|lia|done|]. intros z Hz. simpl. by rewrite DecodeRune_short.
Qed.

Lemma reads_ascii a s : byte a < 128 → decodes a s (byte a) s "".
Proof.
  intros Ha. unfold decodes. conjs; [done|done|done|lia|]. intros z _. simpl. unfold DecodeRune.
  by destruct (Z.ltb_spec (byte a) 128); [|lia].
Qed.

(** A valid sequence does not depend on what follows it. *)
Lemma reads_valid a e s r :
  128 ≤ byte a → all_cont e = true → 128 ≤ r → (∀ z, DecodeRune a (e +:+ z) = (r, z)) →
  decodes a (e +:+ s) r s e.
Proof. intros Ha He Hr Hd. unfold decodes. conjs; [done|done|lia|done|]. intros z _. by rewrite Hd. Qed.

(** The rest of [DecodeRune] once the second byte fits. *)
Definition after_second (a b : ascii) (n : nat) (z : string) : Z * string :=
  if bool_decide (n = 2%nat) then (Z.lor (Z.shiftl (Z.land (byte a) 31) 6) (low6 (byte b)), z)
  else
    match z with
    | String c s2 =>
        if negb (is_cont (byte c)) then (RuneError, String b z)
        else if bool_decide (n = 3%nat) then
          (Z.lor (Z.lor (Z.shiftl (Z.land (byte a) 15) 12) (Z.shiftl (low6 (byte b)) 6)) (low6 (byte c)), s2)
        else
          match s2 with
          | String d s3 =>
              if negb (is_cont (byte d)) then (RuneError, String b z)
              else (Z.lor (Z.lor (Z.lor (Z.shiftl (Z.land (byte a) 7) 18) (Z.shiftl (low6 (byte b)) 12))
                      (Z.shiftl (low6 (byte c)) 6)) (low6 (byte d)), s3)
          | "" => (RuneError, String b z)
          end
    | "" => (RuneError, String b z)
    end.

Lemma DecodeRune_second a b n lo hi :
  128 ≤ byte a → first_info (byte a) = Some (n, lo, hi) →
  negb ((lo <=? byte b) && (byte b <=? hi)) = false →
  ∀ z, DecodeRune a (String b z) = after_second a b n z.
Proof.
  intros Ha Hf Hin z. unfold DecodeRune. destruct (Z.ltb_spec (byte a) 128); [lia|]. by rewrite Hf, Hin.
Qed.

Lemma DecodeRune_reads a s r rest : DecodeRune a s = (r, rest) → ∃ e, decodes a s r rest e.
Proof.
  intros Hd. destruct (Z.ltb_spec (byte a) 128) as [Ha|Ha].
  { unfold DecodeRune in Hd. destruct (Z.ltb_spec (byte a) 128); [|lia]. injection Hd as <- <-.
    exists "". by apply reads_ascii. }
  assert (Hbad : (RuneError, s) = (r, rest) → ∃ e, decodes a s r rest e).
  { intros [= <- <-]. exists "". by apply reads_alone. }
  unfold DecodeRune in Hd. destruct (Z.ltb_spec (byte a) 128) as [|Ha']; [lia|].
  destruct (first_info (byte a)) as [[[n lo] hi]|] eqn:Hf; [|by apply Hbad].
  pose proof (first_info_bounds _ _ _ _ Hf) as (Hb & Hlo & Hhi & Hn & H2 & H3 & H4).
  destruct s as [|b s]; [by apply Hbad|].
  destruct (negb ((lo <=? byte b) && (byte b <=? hi))) eqn:Hin; [by apply Hbad|].
  assert (Hcb : is_cont (byte b) = true) by (unfold is_cont; lia).
  pose proof (DecodeRune_second a b n lo hi Ha Hf Hin) as Hstep. unfold after_second in Hstep.
  pose proof (low6_range (byte b)) as Hl1.
  case_bool_decide as Hn2.
  { injection Hd as <- <-. exists (String b ""). apply (reads_valid a (String b "")); simpl.
    - lia.
    - by rewrite Hcb.
    - rewrite shiftl_lor by lia. change 31 with (2 ^ 5 - 1). rewrite (land_lead _ 5 192) by (done || lia). lia.
    - intros z. rewrite Hstep. done. }
  destruct s as [|c s]; [by apply Hbad|].
  destruct (is_cont (byte c)) eqn:Hcc; cbn [negb] in Hd; [|by apply Hbad].
  pose proof (low6_range (byte c)) as Hl2.
  case_bool_decide as Hn3.
  { injection Hd as <- <-. exists (String b (String c "")). apply (reads_valid a (String b (String c ""))); simpl.
    - lia.
    - by rewrite Hcb, Hcc.
    - apply rune3_high; unfold is_cont in Hcb; lia.
    - intros z. rewrite Hstep. by rewrite Hcc. }
  destruct s as [|d s]; [by apply Hbad|].
  destruct (is_cont (byte d)) eqn:Hcd; cbn [negb] in Hd; [|by apply Hbad].
  pose proof (low6_range (byte d)) as Hl3. injection Hd as <- <-.
  exists (String b (String c (String d ""))). apply (reads_valid a (String b (String c (String d "")))); simpl.
  - lia.
  - by rewrite Hcb, Hcc, Hcd.
  - apply rune4_high; try (unfold is_cont in Hcb; lia). apply Z.shiftl_nonneg. lia.
  - intros z. rewrite Hstep. by rewrite Hcc, Hcd.
Qed.
