(* ===== verification/GoRegexp.v ===== *)
(** * Package [regexp/syntax]: parsed regular expressions in memory

    A [*syntax.Regexp] is a pointer to a node; the children of a node are a
    slice of pointers, and slices of several nodes may share their array.  The
    optimiser of package match compares pointers and writes to such arrays in
    place, so nodes and arrays are kept in a store.  Code that only reads an
    expression works on the tree below a pointer ([Regexp]), in which every
    node carries its own address.

    [Simplify] is the standard library's method; [Perl] and the other flags
    have the values of that package.  The fields [Cap] and [Name] of a capture,
    which no function here looks at, are left out. *)
From S2P Require Import Prelude.

Open Scope string_scope.
Open Scope Z_scope.

Inductive Op :=
| OpNoMatch | OpEmptyMatch | OpLiteral | OpCharClass | OpAnyCharNotNL | OpAnyChar
| OpBeginLine | OpEndLine | OpBeginText | OpEndText | OpWordBoundary | OpNoWordBoundary
| OpCapture | OpStar | OpPlus | OpQuest | OpRepeat | OpConcat | OpAlternate.

#[global] Instance Op_eq_dec : EqDecision Op.
Proof. solve_decision. Defined.

(** Flags *)
Definition FoldCase : Z := 1.
Definition NonGreedy : Z := 32.
Definition Perl : Z := 212.        (** ClassNL | OneLine | PerlX | UnicodeGroups *)
Definition WasDollar : Z := 256.

(** The tree below a pointer; [ptr] is the address of the node. *)
Inductive Regexp :=
  Re (ptr : positive) (op : Op) (flags : Z) (sub : list Regexp) (rune : list Z) (min max : Z).

Definition r_ptr (t : Regexp) : positive := let 'Re p _ _ _ _ _ _ := t in p.
Definition r_op (t : Regexp) : Op := let 'Re _ o _ _ _ _ _ := t in o.
Definition r_flags (t : Regexp) : Z := let 'Re _ _ f _ _ _ _ := t in f.
Definition r_sub (t : Regexp) : list Regexp := let 'Re _ _ _ s _ _ _ := t in s.
Definition r_rune (t : Regexp) : list Z := let 'Re _ _ _ _ r _ _ := t in r.
Definition r_min (t : Regexp) : Z := let 'Re _ _ _ _ _ m _ := t in m.
Definition r_max (t : Regexp) : Z := let 'Re _ _ _ _ _ _ m := t in m.

Fixpoint Regexp_rect' (P : Regexp → Prop)
  (H : ∀ p o f sub rn mn mx, Forall P sub → P (Re p o f sub rn mn mx)) (t : Regexp) : P t :=
  match t with
  | Re p o f sub rn mn mx =>
      H p o f sub rn mn mx
        ((fix go (l : list Regexp) : Forall P l :=
            match l with
            | [] => Forall_nil_2 P
            | x :: l' => Forall_cons_2 P x l' (Regexp_rect' P H x) (go l')
            end) sub)
  end.

(** Number of nodes, and height, of the tree. *)
Fixpoint rsize (t : Regexp) : nat := let 'Re _ _ _ sub _ _ _ := t in S (sum_list_with rsize sub).
Fixpoint rheight (t : Regexp) : nat := let 'Re _ _ _ sub _ _ _ := t in S (max_list_with rheight sub).

(** ** The store *)
Record pslice := mkSlice { s_arr : positive; s_off : nat; s_len : nat }.

Record Node := mkNode {
  n_Op : Op; n_Flags : Z; n_Sub : pslice; n_Rune : list Z; n_Min : Z; n_Max : Z
}.

Record rstore := mkRStore {
  nodes : gmap positive Node;
  arrays : gmap positive (list positive)
}.

Abbreviation RX := (SE rstore string).

Definition deref (p : positive) : RX Node := λ h,
  match nodes h !! p with
  | Some n => (h, Ok n)
  | None => (h, Panic PNilPointer)
  end.

(** The elements of a slice. *)
Definition elems_of (h : rstore) (s : pslice) : list positive :=
  take (s_len s) (drop (s_off s) (default [] (arrays h !! s_arr s))).

Definition elems (s : pslice) : RX (list positive) := λ h, (h, Ok (elems_of h s)).

(** [s[i]] *)
Definition index (s : pslice) (i : nat) : RX positive := λ h,
  match elems_of h s !! i with
  | Some p => (h, Ok p)
  | None => (h, Panic PIndexOutOfRange)
  end.

(** [s[i] = p], which every slice of the same array sees. *)
Definition set_index (s : pslice) (i : nat) (p : positive) : RX unit := λ h,
  if bool_decide (i < length (elems_of h s))%nat then
    (mkRStore (nodes h) (alter (λ a, <[(s_off s + i)%nat := p]> a) (s_arr s) (arrays h)), Ok tt)
  else (h, Panic PIndexOutOfRange).

(** [s[1:]], [s[:n]] *)
Definition slice_tail (s : pslice) : pslice := mkSlice (s_arr s) (S (s_off s)) (pred (s_len s)).
Definition slice_to (n : nat) (s : pslice) : pslice := mkSlice (s_arr s) (s_off s) n.

(** A slice over a new array; [append] results are made this way as well: the
    spare capacity of an array is never part of another slice here, so
    whether Go extends an array in place cannot be observed. *)
Definition new_slice (l : list positive) : RX pslice := λ h,
  let a := fresh (dom (arrays h)) in
  (mkRStore (nodes h) (<[a := l]> (arrays h)), Ok (mkSlice a 0 (length l))).

(** [&syntax.Regexp{...}] *)
Definition new_node (n : Node) : RX positive := λ h,
  let p := fresh (dom (nodes h)) in
  (mkRStore (<[p := n]> (nodes h)) (arrays h), Ok p).

Definition new_regexp (o : Op) (f : Z) (sub : list positive) (rn : list Z) (mn mx : Z) : RX positive :=
  s ← new_slice sub; new_node (mkNode o f s rn mn mx).

Definition with_Op (o : Op) (n : Node) : Node :=
  mkNode o (n_Flags n) (n_Sub n) (n_Rune n) (n_Min n) (n_Max n).
Definition with_Sub (s : pslice) (n : Node) : Node :=
  mkNode (n_Op n) (n_Flags n) s (n_Rune n) (n_Min n) (n_Max n).

Fixpoint mapM_rx {A B} (f : A → RX B) (l : list A) : RX (list B) :=
  match l with
  | [] => mret []
  | x :: l' => y ← f x; ys ← mapM_rx f l'; mret (y :: ys)
  end.

(** Allocation of a parsed tree, no node of which is shared. *)
Fixpoint build (t : Regexp) : RX positive :=
  let 'Re _ o f sub rn mn mx := t in
  ps ← mapM_rx build sub; new_regexp o f ps rn mn mx.

(** The tree below a pointer.  The fuel bounds its height. *)
Fixpoint load (fuel : nat) (p : positive) : RX Regexp :=
  match fuel with
  | O => no_fuel
  | S fuel' =>
      n ← deref p;
      ps ← elems (n_Sub n);
      ts ← mapM_rx (load fuel') ps;
      mret (Re p (n_Op n) (n_Flags n) ts (n_Rune n) (n_Min n) (n_Max n))
  end.

(** ** [Regexp.Simplify] *)
Definition simplify1 (op : Op) (flags : Z) (sub : positive) (re : option positive) : RX positive :=
  ns ← deref sub;
  if decide (n_Op ns = OpEmptyMatch) then mret sub
  else if decide (op = n_Op ns ∧ Z.land flags NonGreedy = Z.land (n_Flags ns) NonGreedy)
  then mret sub
  else
    reuse ← match re with
            | Some r =>
                n ← deref r;
                s0 ← index (n_Sub n) 0;
                mret (bool_decide (n_Op n = op ∧
                  Z.land (n_Flags n) NonGreedy = Z.land flags NonGreedy ∧ sub = s0))
            | None => mret false
            end;
    match re, (reuse : bool) with
    | Some r, true => mret r
    | _, _ => new_regexp op flags [sub] [] 0 0
    end.

(** [(x(x(x)?)?)?], [k + 1] deep. *)
Fixpoint nest_quest (k : nat) (flags : Z) (sub : positive) : RX positive :=
  match k with
  | O => simplify1 OpQuest flags sub None
  | S k' =>
      suffix ← nest_quest k' flags sub;
      nre ← new_regexp OpConcat 0 [sub; suffix] [] 0 0;
      simplify1 OpQuest flags nre None
  end.

Definition simplify_repeat (flags min max : Z) (sub : positive) : RX positive :=
  if bool_decide (max = -1) then
    if bool_decide (min = 0) then simplify1 OpStar flags sub None
    else if bool_decide (min = 1) then simplify1 OpPlus flags sub None
    else
      last ← simplify1 OpPlus flags sub None;
      new_regexp OpConcat 0 (replicate (Z.to_nat (min - 1)) sub ++ [last]) [] 0 0
  else if bool_decide (min = 1 ∧ max = 1) then mret sub
  else
    let prefix := replicate (Z.to_nat min) sub in
    if bool_decide (min < max) then
      suffix ← nest_quest (Z.to_nat (max - min - 1)) flags sub;
      if bool_decide (0 < min) then new_regexp OpConcat 0 (prefix ++ [suffix]) [] 0 0
      else mret suffix
    else if bool_decide (0 < min) then new_regexp OpConcat 0 prefix [] 0 0
    else new_regexp OpNoMatch 0 [] [] 0 0.

Fixpoint Simplify (fuel : nat) (re : positive) : RX positive :=
  match fuel with
  | O => no_fuel
  | S fuel' =>
      n ← deref re;
      match n_Op n with
      | OpCapture | OpConcat | OpAlternate =>
          subs ← elems (n_Sub n);
          nsubs ← mapM_rx (Simplify fuel') subs;
          if bool_decide (nsubs = subs) then mret re
          else new_regexp (n_Op n) (n_Flags n) nsubs [] (n_Min n) (n_Max n)
      | OpStar | OpPlus | OpQuest =>
          s0 ← index (n_Sub n) 0;
          sub ← Simplify fuel' s0;
          simplify1 (n_Op n) (n_Flags n) sub (Some re)
      | OpRepeat =>
          if bool_decide (n_Min n = 0 ∧ n_Max n = 0)
          then new_regexp OpEmptyMatch 0 [] [] 0 0
          else
            s0 ← index (n_Sub n) 0;
            sub ← Simplify fuel' s0;
            simplify_repeat (n_Flags n) (n_Min n) (n_Max n) sub
      | _ => mret re
      end
  end.

(** [p.Sub = s] on a node *)
Definition set_Sub (p : positive) (s : pslice) : RX unit :=
  n ← deref p;
  modify (λ h, mkRStore (<[p := with_Sub s n]> (nodes h)) (arrays h)).

(** What the code uses of the package regexp: [Parse] is [syntax.Parse] with
    the Perl flags, [regexp_Compile] is [regexp.Compile] of the text of an
    expression, [fold_eq] tells whether two runes are equal up to case. *)
Class RegexpLib := {
  Parse : string → res string Regexp;
  regexp_Compile : Regexp → res string (string → bool);
  fold_eq : Z → Z → bool
}.
