(* ===== verification/Match.v ===== *)
(** * Package [match]: string matchers made from regular expressions

    cmp.go (recognition of expressions), optimize.go (rewriting of expressions
    until nothing changes), compile.go (choice of a cheap matcher), matchers.go
    (the matchers) and matcher.go (the exported operations).

    Functions that only read an expression take the tree below the pointer;
    the rewriting steps work on the store of GoRegexp.v, where [&tmp] and
    [&syntax.Regexp{...}] allocate a node and [sub[i] = tmp] writes to an array
    other nodes may share. *)
From S2P Require Import Prelude GoStrings GoUtf8 GoHeap GoRegexp.

Open Scope string_scope.
Open Scope list_scope.
Open Scope Z_scope.

(** ** cmp.go: the predefined patterns, as [mustParse] returns them *)
Definition beginText : Regexp := Re 1 OpBeginText Perl [] [] 0 0.
Definition endText : Regexp := Re 1 OpEndText (Z.lor Perl WasDollar) [] [] 0 0.
Definition concatPat (l : list Regexp) : Regexp := Re 1 OpConcat 0 l [] 0 0.

Definition patDotStar : Regexp :=
  Re 1 OpStar Perl [Re 1 OpAnyCharNotNL Perl [] [] 0 0] [] 0 0.
Definition patNullBeginDotStar : Regexp := concatPat [beginText; patDotStar].
Definition patNullEndDotStar : Regexp := concatPat [patDotStar; endText].
Definition patEmptyText : Regexp := concatPat [beginText; endText].
Definition patEmptyWhiteText : Regexp :=
  concatPat [beginText;
             Re 1 OpStar Perl [Re 1 OpCharClass Perl [] [9; 10; 12; 13; 32; 32] 0 0] [] 0 0;
             endText].
Definition patAny1 : Regexp := patDotStar.
Definition patAny2 : Regexp := concatPat [beginText; patDotStar].
Definition patAny3 : Regexp := concatPat [beginText; patDotStar; endText].
Definition patAny4 : Regexp := concatPat [patDotStar; endText].
Definition patBeginText : Regexp := beginText.
Definition patEndText : Regexp := endText.
Definition patDigits : Regexp := Re 1 OpCharClass Perl [] [48; 57] 0 0.

(** ** cmp.go: recognition *)
Definition isRegular (r : Regexp) : bool := Z.land (r_flags r) FoldCase =? 0.

Definition isRegularLiteral (r : Regexp) : bool :=
  bool_decide (r_op r = OpLiteral) && isRegular r.

Definition isSubstringLiteral (r : Regexp) : bool := isRegularLiteral r.

(** [r.Sub[i]] *)
Definition sub_at (r : Regexp) (i : nat) : res string Regexp :=
  match r_sub r !! i with Some s => Ok s | None => Panic PIndexOutOfRange end.

Definition isPrefixLiteral (r : Regexp) : bool :=
  match r_sub r with
  | [b; l] =>
      bool_decide (r_op r = OpConcat) && bool_decide (r_op b = OpBeginText) &&
      isRegularLiteral l && isRegular r
  | _ => false
  end.

Definition isAltLiterals (r : Regexp) : bool :=
  if bool_decide (r_op r = OpAlternate) then forallb isRegularLiteral (r_sub r) else false.

Definition isExactLiteral (r : Regexp) : bool :=
  match r_sub r with
  | [b; l; e] =>
      bool_decide (r_op r = OpConcat) && bool_decide (r_op b = OpBeginText) &&
      isRegularLiteral l && bool_decide (r_op e = OpEndText) && isRegular r
  | _ => false
  end.

Definition isOneOfLiterals (r : Regexp) : bool :=
  match r_sub r with
  | [b; a; e] =>
      bool_decide (r_op r = OpConcat) && bool_decide (r_op b = OpBeginText) &&
      isAltLiterals a && bool_decide (r_op e = OpEndText)
  | _ => false
  end.

Definition isPrefixAltLiterals (r : Regexp) : bool :=
  match r_sub r with
  | [b; a] =>
      bool_decide (r_op r = OpConcat) && bool_decide (r_op b = OpBeginText) &&
      bool_decide (r_op a = OpAlternate) && forallb isRegularLiteral (r_sub a)
  | _ => false
  end.

Definition forall2b {A B} (f : A → B → bool) : list A → list B → bool :=
  fix go l k :=
    match l, k with
    | x :: l', y :: k' => f x y && go l' k'
    | [], [] => true
    | _, _ => false
    end.

Fixpoint eqRegex (r proto : Regexp) : bool :=
  let 'Re _ o f sub rn mn mx := r in
  let 'Re _ o' f' sub' rn' mn' mx' := proto in
  bool_decide (o = o') && (f =? f') && (mn =? mn') && (mx =? mx') &&
  bool_decide (length sub = length sub') && bool_decide (length rn = length rn') &&
  forall2b eqRegex sub sub' && forall2b Z.eqb rn rn'.

Definition eqPrefixRegex (r proto : Regexp) : bool :=
  if bool_decide (r_op r ≠ OpConcat) then false
  else if bool_decide (r_op proto ≠ OpConcat) then
    match r_sub r with [] => false | s :: _ => eqRegex s proto end
  else if bool_decide (length (r_sub r) < length (r_sub proto))%nat then false
  else forall2b eqRegex (take (length (r_sub proto)) (r_sub r)) (r_sub proto).

Definition eqPrefixAnyRegex (r : Regexp) (protos : list Regexp) : bool :=
  existsb (eqPrefixRegex r) protos.

Definition eqSuffixRegex (r proto : Regexp) : bool :=
  if bool_decide (r_op r ≠ OpConcat) then false
  else if bool_decide (r_op proto ≠ OpConcat) then
    match last (r_sub r) with None => false | Some s => eqRegex s proto end
  else if bool_decide (length (r_sub r) < length (r_sub proto))%nat then false
  else
    let d := (length (r_sub r) - length (r_sub proto))%nat in
    forall2b eqRegex (drop d (r_sub r)) (r_sub proto).

Definition eqSuffixAnyRegex (r : Regexp) (protos : list Regexp) : bool :=
  existsb (eqSuffixRegex r) protos.

Definition isEmptyText (r : Regexp) : bool := eqRegex r patEmptyText.
Definition isEmptyTextWithWhitespace (r : Regexp) : bool := eqRegex r patEmptyWhiteText.
Definition isAnyMatch (r : Regexp) : bool :=
  eqRegex r patAny1 || eqRegex r patAny2 || eqRegex r patAny3 || eqRegex r patAny4.
Definition isDigitMatch (r : Regexp) : bool := eqRegex r patDigits.

(** Repetitions reuse references: the addresses of the children are compared. *)
Definition isConcatRepetition (r : Regexp) : res string bool :=
  if bool_decide (r_op r ≠ OpConcat) then Ok false
  else
    first ← sub_at r 0;
    Ok (forallb (λ other, bool_decide (r_ptr other = r_ptr first)) (r_sub r)).

Definition isMultiDigits (r : Regexp) : res string bool :=
  rep ← isConcatRepetition r;
  if (rep : bool) then (s0 ← sub_at r 0; Ok (isDigitMatch s0)) else Ok false.

(** The loop over separators and digits; [k] is a bound on its turns. *)
Fixpoint isPrefixNumDate_loop (k : nat) (r : Regexp) (i : nat) : res string bool :=
  match k with
  | O => OutOfFuel
  | S k' =>
      if bool_decide (length (r_sub r) ≤ i)%nat then Ok true
      else
        s ← sub_at r i;
        if negb (isRegularLiteral s) then Ok false
        else if bool_decide (S i = length (r_sub r)) then Ok true
        else
          d ← sub_at r (S i);
          md ← isMultiDigits d;
          if negb md then Ok false else isPrefixNumDate_loop k' r (S (S i))
  end.

Definition isPrefixNumDate (r : Regexp) : res string bool :=
  if bool_decide (r_op r ≠ OpConcat) then Ok false
  else
    b ← sub_at r 0;
    if bool_decide (r_op b ≠ OpBeginText) then Ok false
    else
      s1 ← sub_at r 1;
      let i := if isRegularLiteral s1 then 2%nat else 1%nat in
      s ← sub_at r i;
      md ← isMultiDigits s;
      if negb md then Ok false
      else isPrefixNumDate_loop (length (r_sub r)) r (S i).

(** ** optimize.go

    [fuel] bounds the height of the expressions, [turns] the turns of the loop
    of [optimize]. *)

(** Simplify regular expression by stdlib. *)
Definition simplify (fuel : nat) (r : positive) : RX (bool * positive) :=
  r' ← Simplify fuel r; mret (false, r').

Fixpoint uncapture (fuel : nat) (r : positive) : RX (bool * positive) :=
  match fuel with
  | O => no_fuel
  | S fuel' =>
      n ← deref r;
      if decide (n_Op n = OpCapture ∧ s_len (n_Sub n) = 1%nat) then
        s0 ← index (n_Sub n) 0;
        '(_, sub) ← uncapture fuel' s0;
        mret (true, sub)
      else
        '(r, n) ← (if decide (n_Op n = OpCapture) then
                     let tmp := with_Op OpConcat n in
                     p ← new_node tmp; mret (p, tmp)
                   else mret (r, n));
        rs ← elems (n_Sub n);
        subs ← mapM_rx (uncapture fuel') rs;
        if negb (existsb fst subs) then mret (false, r)
        else
          sl ← new_slice (subs.*2);
          tmp ← new_node (with_Sub sl n);
          mret (true, tmp)
  end.

(** [trimLeft] removes not required ['.*'] from the beginning. *)
Definition trimLeft (fuel : nat) (r : positive) : RX (bool * positive) :=
  t ← load fuel r;
  if eqPrefixAnyRegex t [patDotStar; patNullBeginDotStar] then
    n ← deref r;
    tmp ← new_node (with_Sub (slice_tail (n_Sub n)) n);
    mret (true, tmp)
  else mret (false, r).

(** [trimRight] removes not required ['.*'] from the end. *)
Definition trimRight (fuel : nat) (r : positive) : RX (bool * positive) :=
  t ← load fuel r;
  if eqSuffixAnyRegex t [patDotStar; patNullEndDotStar] then
    n ← deref r;
    tmp ← new_node (with_Sub (slice_to (pred (s_len (n_Sub n))) (n_Sub n)) n);
    mret (true, tmp)
  else mret (false, r).

Definition unconcat (r : positive) : RX (bool * positive) :=
  n ← deref r;
  if decide (n_Op n = OpConcat ∧ (s_len (n_Sub n) ≤ 1)%nat) then
    if decide (s_len (n_Sub n) = 1%nat) then
      s0 ← index (n_Sub n) 0; mret (true, s0)
    else
      e ← new_regexp OpEmptyMatch (n_Flags n) [] [] 0 0; mret (true, e)
  else if decide (n_Op n = OpRepeat ∧ n_Min n = n_Max n ∧ n_Min n = 1) then
    s0 ← index (n_Sub n) 0; mret (true, s0)
  else mret (false, r).

(** [isConcatRepetition(p)] *)
Definition is_rep (fuel : nat) (p : positive) : RX bool :=
  t ← load fuel p; lift (isConcatRepetition t).

(** [eqRegex(p, q)] *)
Definition eq_nodes (fuel : nat) (p q : positive) : RX bool :=
  t ← load fuel p; u ← load fuel q; mret (eqRegex t u).

(** The merged replacement of two consecutive elements, if they repeat. *)
Definition merge_pair (fuel : nat) (si sj : positive) : RX (option positive) :=
  n ← deref si;
  rep1 ← (if decide (n_Op n = OpRepeat)
          then (s0 ← index (n_Sub n) 0; eq_nodes fuel s0 sj) else mret false);
  if (rep1 : bool) then
    p ← new_node (mkNode OpRepeat (n_Flags n) (n_Sub n) [] (n_Min n + 1) (n_Max n + 1));
    mret (Some p)
  else
    isrep ← is_rep fuel si;
    rep2 ← (if (isrep : bool) then (s0 ← index (n_Sub n) 0; eq_nodes fuel s0 sj) else mret false);
    if (rep2 : bool) then
      rs ← elems (n_Sub n);
      s0 ← index (n_Sub n) 0;
      p ← new_regexp OpConcat (n_Flags n) (rs ++ [s0]) [] 0 0;
      mret (Some p)
    else
      same ← eq_nodes fuel si sj;
      if (same : bool) then
        p ← new_regexp OpRepeat (n_Flags n) [si] [] 2 2; mret (Some p)
      else mret None.

(** [for i, j := 0, 1; j < len(subs); i, j = j, j+1 { ... }]; [k] bounds the
    turns.  The state is [concat], [lastMerged] and [changed]. *)
Fixpoint merge_loop (k : nat) (fuel : nat) (subs : list positive) (i j : nat)
    (concat : list positive) (lastMerged : Z) (changed : bool)
    : RX (list positive * Z * bool) :=
  match k with
  | O => no_fuel
  | S k' =>
      match subs !! i, subs !! j with
      | Some si, Some sj =>
          m ← merge_pair fuel si sj;
          match m with
          | Some p => merge_loop k' fuel subs (S j) (S (S j)) (concat ++ [p]) (Z.of_nat j) true
          | None => merge_loop k' fuel subs j (S j) (concat ++ [si]) lastMerged changed
          end
      | _, _ => mret (concat, lastMerged, changed)
      end
  end.

(** [concatRepetition] concatenates 2 consecutive repeated sub-patterns into a
    repetition of length 2. *)
Fixpoint concatRepetition (fuel : nat) (r : positive) : RX (bool * positive) :=
  match fuel with
  | O => no_fuel
  | S fuel' =>
      n ← deref r;
      if decide (n_Op n ≠ OpConcat) then mret (false, r)
      else
        isrep ← is_rep fuel r;
        if (isrep : bool) then mret (false, r)
        else
          rs ← elems (n_Sub n);
          subsc ← mapM_rx (concatRepetition fuel') rs;
          let subs := subsc.*2 in
          '(concat, lastMerged, changed) ←
            merge_loop (S (length subs)) fuel subs 0 1 [] (-1) (existsb fst subsc);
          concat ← (if decide (lastMerged + 1 ≠ Z.of_nat (length subs)) then
                      match last subs with
                      | Some s => mret (concat ++ [s])
                      | None => panics PIndexOutOfRange
                      end
                    else mret concat);
          r' ← new_regexp OpConcat (n_Flags n) concat [] 0 0;
          mret (changed, r')
  end.

(** [for i, s := range sub { upd, tmp := rec(s); changed = changed || upd;
    sub[i] = tmp }] *)
Fixpoint flatten_loop (rec : positive → RX (bool * positive)) (sub : pslice) (idx : list nat)
    (changed : bool) : RX bool :=
  match idx with
  | [] => mret changed
  | i :: idx' =>
      s ← index sub i;
      '(upd, tmp) ← rec s;
      set_index sub i tmp ≫= λ _,
      flatten_loop rec sub idx' (changed || upd)
  end.

(** [flattenRepetition] flattens nested repetitions. *)
Fixpoint flattenRepetition (fuel : nat) (r : positive) : RX (bool * positive) :=
  match fuel with
  | O => no_fuel
  | S fuel' =>
      n ← deref r;
      if decide (n_Op n ≠ OpConcat) then mret (false, r)
      else
        inRepetition ← is_rep fuel r;
        let sub := if (inRepetition : bool) then slice_to 1 (n_Sub n) else n_Sub n in
        nested ← (if (inRepetition : bool) then (s ← index sub 0; is_rep fuel s) else mret false);
        if (nested : bool) then
          s ← index sub 0;
          ns ← deref s;
          let count := Z.of_nat (s_len (n_Sub ns)) * Z.of_nat (s_len (n_Sub n)) in
          p ← new_node (mkNode OpRepeat (Z.lor (n_Flags n) (n_Flags ns))
                          (slice_to 1 (n_Sub ns)) [] count count);
          mret (true, p)
        else
          changed ← flatten_loop (flattenRepetition fuel') sub (seq 0 (s_len sub)) false;
          if negb changed then mret (false, r)
          else
            tmp ← new_node n;
            (if (inRepetition : bool) then
               foreach (seq 0 (s_len (n_Sub n)))
                 (λ i, s0 ← index sub 0; set_index (n_Sub n) i s0)
             else mret tt) ≫= λ _,
            mret (true, tmp)
  end.

Definition transformations (fuel : nat) : list (positive → RX (bool * positive)) :=
  [simplify fuel; uncapture fuel; trimLeft fuel; trimRight fuel; unconcat;
   concatRepetition fuel; flattenRepetition fuel].

(** [for _, t := range transformations { upd, r = t(r); changed = changed || upd }] *)
Fixpoint run_transformations (ts : list (positive → RX (bool * positive))) (changed : bool)
    (r : positive) : RX (bool * positive) :=
  match ts with
  | [] => mret (changed, r)
  | t :: ts' => '(upd, r') ← t r; run_transformations ts' (changed || upd) r'
  end.

Fixpoint optimize (turns fuel : nat) (r : positive) : RX positive :=
  match turns with
  | O => no_fuel
  | S turns' =>
      '(changed, r') ← run_transformations (transformations fuel) false r;
      if (changed : bool) then optimize turns' fuel r' else mret r'
  end.

(** ** matchers.go

    Strings and byte slices are both sequences of bytes, so the pairs of fields
    that hold one literal in both forms are one field here, and [stringToBytes]
    and [bytesToString] are the identity. *)
Record prefixNumDate := mkPrefixNumDate {
  minLen : Z;
  prefix : option string;        (** nil when there is no prefix *)
  digits : list Z;
  seps : list string;
  suffix : string
}.

Inductive stringMatcher :=
| equalsMatcher (s : string)
| substringMatcher (s : string)
| altSubstringMatcher (literals : list string)
| oneOfMatcher (literals : list string)
| prefixMatcher (s : string)
| altPrefixMatcher (literals : list string)
| prefixNumDateMatcher (m : prefixNumDate)
| emptyStringMatcher
| emptyWhiteStringMatcher
| matchAny
| regexpMatcher (m : string → bool).   (** [*regexp.Regexp] *)

(** [in[i]] *)
Definition byte_at (s : string) (i : Z) : res string ascii :=
  if bool_decide (0 ≤ i) then
    match sdrop (Z.to_nat i) s with
    | String a _ => Ok a
    | "" => Panic PIndexOutOfRange
    end
  else Panic PIndexOutOfRange.

Definition isDigit (a : ascii) : bool := (48 <=? byte a) && (byte a <=? 57).

(** [for cnt := n; cnt > 0; cnt-- { ... }]: the position after the digits. *)
Fixpoint match_digits (cnt : nat) (s : string) (pos : Z) : res string (option Z) :=
  match cnt with
  | O => Ok (Some pos)
  | S cnt' =>
      v ← byte_at s pos;
      if negb (isDigit v) then Ok None else match_digits cnt' s (pos + 1)
  end.

Fixpoint match_groups (ds : list Z) (ss : list string) (s : string) (pos : Z)
    : res string (option Z) :=
  match ds, ss with
  | [], _ => Ok (Some pos)
  | _ :: _, [] => Panic PIndexOutOfRange
  | d :: ds', sep :: ss' =>
      w ← slice s pos (pos + strlen sep);
      if negb (String.eqb w sep) then Ok None
      else
        p ← match_digits (Z.to_nat d) s (pos + strlen sep);
        match p with
        | None => Ok None
        | Some pos' => match_groups ds' ss' s pos'
        end
  end.

Definition prefixNumDate_Match (m : prefixNumDate) (s : string) : res string bool :=
  if strlen s <? minLen m then Ok false
  else
    pos ← match prefix m with
          | Some p =>
              w ← slice s 0 (strlen p);
              Ok (if String.eqb w p then Some (strlen p) else None)
          | None => Ok (Some 0)
          end;
    match pos with
    | None => Ok false
    | Some pos =>
        match digits m with
        | [] => Panic PIndexOutOfRange
        | d0 :: ds =>
            p ← match_digits (Z.to_nat d0) s pos;
            match p with
            | None => Ok false
            | Some pos =>
                p ← match_groups ds (seps m) s pos;
                match p with
                | None => Ok false
                | Some pos =>
                    if 0 <? strlen (suffix m) then
                      rest ← slice s pos (strlen s);
                      Ok (HasPrefix rest (suffix m))
                    else Ok true
                end
            end
        end
    end.

Definition is_white (r : Z) : bool :=
  (r =? 9) || (r =? 10) || (r =? 12) || (r =? 13) || (r =? 32) || (r =? 9).

Definition has_literal_prefix (s p : string) : bool :=
  (strlen p <=? strlen s) && String.eqb (stake (String.length p) s) p.

Definition Match (m : stringMatcher) (bs : string) : res string bool :=
  match m with
  | equalsMatcher s => Ok (String.eqb bs s)
  | substringMatcher s => Ok (Contains bs s)
  | altSubstringMatcher literals => Ok (existsb (Contains bs) literals)
  | oneOfMatcher literals => Ok (existsb (String.eqb bs) literals)
  | prefixMatcher s => Ok (has_literal_prefix bs s)
  | altPrefixMatcher literals => Ok (existsb (has_literal_prefix bs) literals)
  | prefixNumDateMatcher m => prefixNumDate_Match m bs
  | emptyStringMatcher => Ok (strlen bs =? 0)
  | emptyWhiteStringMatcher => Ok (forallb is_white (range_string bs).*2)
  | matchAny => Ok true
  | regexpMatcher f => Ok (f bs)
  end.

Definition MatchString (m : stringMatcher) (s : string) : res string bool :=
  match m with
  | equalsMatcher t => Ok (String.eqb t s)
  | substringMatcher t => Ok (Contains s t)
  | altSubstringMatcher _ | oneOfMatcher _ | prefixNumDateMatcher _ => Match m s
  | prefixMatcher t => Ok (has_literal_prefix s t)
  | altPrefixMatcher literals => Ok (existsb (has_literal_prefix s) literals)
  | emptyStringMatcher => Ok (strlen s =? 0)
  | emptyWhiteStringMatcher => Ok (forallb is_white (range_string s).*2)
  | matchAny => Ok true
  | regexpMatcher f => Ok (f s)
  end.

(** ** compile.go *)
Definition literal (r : Regexp) : string := encode (r_rune r).

Definition digitLen (r : Regexp) : Z :=
  if bool_decide (r_op r = OpConcat) then Z.of_nat (length (r_sub r)) else 1.

(** The loop that collects separators, digit counts and the suffix; [k] bounds
    its turns. *)
Fixpoint collect_groups (k : nat) (r : Regexp) (i : nat) (ds : list Z) (ss : list string)
    : res string (list Z * list string * string) :=
  match k with
  | O => OutOfFuel
  | S k' =>
      if bool_decide (length (r_sub r) ≤ i)%nat then Ok (ds, ss, "")
      else
        s ← sub_at r i;
        let lit := literal s in
        if bool_decide (S i = length (r_sub r)) then Ok (ds, ss, lit)
        else
          d ← sub_at r (S i);
          collect_groups k' r (S (S i)) (ds ++ [digitLen d]) (ss ++ [lit])
  end.

Definition sum_Z (l : list Z) : Z := foldl Z.add 0 l.

Definition compilePrefixNumDate (r : Regexp) : res string stringMatcher :=
  s1 ← sub_at r 1;
  let '(pfx, i) :=
    if bool_decide (r_op s1 = OpLiteral) then (Some (literal s1), 2%nat) else (None, 1%nat) in
  d0 ← sub_at r i;
  '(ds, ss, sfx) ← collect_groups (length (r_sub r)) r (S i) [digitLen d0] [];
  let minLen := strlen (default "" pfx) + strlen sfx + sum_Z ds + sum_Z (map strlen ss) in
  Ok (prefixNumDateMatcher (mkPrefixNumDate minLen pfx ds ss sfx)).

Section compiling.
Context `{RegexpLib}.

Definition compile (r : Regexp) : res string stringMatcher :=
  if isSubstringLiteral r then Ok (substringMatcher (literal r))
  else if isExactLiteral r then (l ← sub_at r 1; Ok (equalsMatcher (literal l)))
  else if isAltLiterals r then Ok (altSubstringMatcher (map literal (r_sub r)))
  else if isOneOfLiterals r then
    (a ← sub_at r 1; Ok (oneOfMatcher (map literal (r_sub a))))
  else if isPrefixLiteral r then (l ← sub_at r 1; Ok (prefixMatcher (literal l)))
  else if isPrefixAltLiterals r then
    (a ← sub_at r 1; Ok (altPrefixMatcher (map literal (r_sub a))))
  else
    numDate ← isPrefixNumDate r;
    if (numDate : bool) then compilePrefixNumDate r
    else if isEmptyText r then Ok emptyStringMatcher
    else if isEmptyTextWithWhitespace r then Ok emptyWhiteStringMatcher
    else if isAnyMatch r then Ok matchAny
    else (f ← regexp_Compile r; Ok (regexpMatcher f)).

(** ** matcher.go *)
Definition CompileString (s : string) : res string stringMatcher :=
  if String.eqb s "" then Ok emptyStringMatcher else Ok (substringMatcher s).

Definition Compile (turns fuel : nat) (pattern : string) : RX stringMatcher :=
  t ← lift (Parse pattern);
  regex ← build t;
  regex ← optimize turns fuel regex;
  regex ← Simplify fuel regex;
  r ← load fuel regex;
  lift (compile r).

(** The text anchors [CompileExact] adds. *)
Definition anchor (fuel : nat) (regex : positive) : RX positive :=
  n ← deref regex;
  if decide (n_Op n ≠ OpConcat) then
    b ← build patBeginText;
    e ← build patEndText;
    new_regexp OpConcat (n_Flags n) [b; regex; e] [] 0 0
  else
    t ← load fuel regex;
    (if negb (eqPrefixRegex t patBeginText) then
       b ← build patBeginText;
       rs ← elems (n_Sub n);
       sl ← new_slice (b :: rs);
       set_Sub regex sl
     else mret tt) ≫= λ _,
    t ← load fuel regex;
    (if negb (eqSuffixRegex t patEndText) then
       e ← build patEndText;
       n ← deref regex;
       rs ← elems (n_Sub n);
       sl ← new_slice (rs ++ [e]);
       set_Sub regex sl
     else mret tt) ≫= λ _,
    mret regex.

Definition CompileExact (turns fuel : nat) (pattern : string) : RX stringMatcher :=
  t ← lift (Parse pattern);
  regex ← build t;
  regex ← Simplify fuel regex;
  regex ← anchor fuel regex;
  regex ← optimize turns fuel regex;
  regex ← Simplify fuel regex;
  r ← load fuel regex;
  lift (compile r).

(** An error of [Compile] is the panic of [MustCompile]. *)
Definition must {A} (c : RX A) : RX A := λ h,
  match c h with
  | (h', Err e) => (h', Panic (PExplicit e))
  | o => o
  end.

Definition MustCompile (turns fuel : nat) (pattern : string) : RX stringMatcher :=
  must (Compile turns fuel pattern).
Definition MustCompileExact (turns fuel : nat) (pattern : string) : RX stringMatcher :=
  must (CompileExact turns fuel pattern).

(** [*m = tmp]: the matcher held after [Unpack], and its error. *)
Definition unpack (c : RX stringMatcher) (m : stringMatcher) : RX (stringMatcher * option string) :=
  r ← attempt c;
  match r with inl tmp => mret (tmp, None) | inr e => mret (m, Some e) end.

Definition Unpack (turns fuel : nat) (m : stringMatcher) (s : string) := unpack (Compile turns fuel s) m.
Definition UnpackExact (turns fuel : nat) (m : stringMatcher) (s : string) :=
  unpack (CompileExact turns fuel s) m.
End compiling.

Fixpoint any_string (m : stringMatcher) (l : list string) : res string bool :=
  match l with
  | [] => Ok false
  | s :: l' => b ← MatchString m s; if (b : bool) then Ok true else any_string m l'
  end.

Fixpoint all_strings (m : stringMatcher) (l : list string) : res string bool :=
  match l with
  | [] => Ok true
  | s :: l' => b ← MatchString m s; if (b : bool) then all_strings m l' else Ok false
  end.

(** The strings among the elements of an [[]interface{}]. *)
Definition strings_of (l : list value) : list string :=
  omap (λ v, match v with VString s => Some s | _ => None end) l.

Definition matchAnyStrings (m : stringMatcher) (strs : value) : res string bool :=
  match strs with
  | VSlice v => any_string m (strings_of v)
  | VStrings v => any_string m v
  | _ => Ok false
  end.

Definition matchAllStrings (m : stringMatcher) (strs : value) : res string bool :=
  match strs with
  | VSlice v => all_strings m (strings_of v)
  | VStrings v => all_strings m v
  | _ => Ok true
  end.
