(* ===== verification/RegexpSem.v ===== *)
(** * Meaning of regular expressions

    [den s t] is the relation between the positions [i] and [j] of the text [s]
    (a list of runes) such that [t] matches the text from [i] to [j];
    [search t s] is what an unanchored match asks.  The relations form a small
    algebra (composition, powers, bounded repetition) with the laws the
    rewriting of expressions relies on; [Simplify] preserves the meaning. *)
From S2P Require Import Prelude GoRegexp.

Open Scope nat_scope.

(** ** Relations between positions *)
Definition rel := nat → nat → Prop.
Definition req : relation rel := λ R Q, ∀ i j, R i j ↔ Q i j.
Infix "≃" := req (at level 70).

#[global] Instance req_equiv : Equivalence req.
Proof.
  split; [by intros ???|by intros R Q H i j; symmetry|].
  intros R Q T H1 H2 i j. by rewrite (H1 i j).
Qed.

Definition rid : rel := eq.
Definition rnone : rel := λ _ _, False.
Definition rcomp (R Q : rel) : rel := λ i j, ∃ k, R i k ∧ Q k j.
Fixpoint rpow (R : rel) (n : nat) : rel :=
  match n with O => rid | S n' => rcomp R (rpow R n') end.
Fixpoint rseq (l : list rel) : rel :=
  match l with [] => rid | R :: l' => rcomp R (rseq l') end.
Definition ralt (l : list rel) : rel := λ i j, Exists (λ R : rel, R i j) l.
(** Between [mn] and [mx] times; [mx = -1] is no upper bound. *)
Definition rrep (mn mx : Z) (R : rel) : rel := λ i j,
  ∃ n : nat, (mn ≤ Z.of_nat n)%Z ∧ (mx = -1 ∨ Z.of_nat n ≤ mx)%Z ∧ rpow R n i j.

#[global] Instance rcomp_proper : Proper (req ==> req ==> req) rcomp.
Proof. intros R R' HR Q Q' HQ i j. unfold rcomp. by setoid_rewrite (HR _ _); setoid_rewrite (HQ _ _). Qed.

#[global] Instance rpow_proper : Proper (req ==> eq ==> req) rpow.
Proof.
  intros R R' HR n ? <-. induction n as [|n IH]; simpl; [done|]. by apply rcomp_proper.
Qed.

#[global] Instance rseq_proper : Proper (Forall2 req ==> req) rseq.
Proof. induction 1 as [|R Q l k HR _ IH]; simpl; [done|]. by rewrite HR, IH. Qed.

#[global] Instance ralt_proper : Proper (Forall2 req ==> req) ralt.
Proof.
  induction 1 as [|R Q l k HR _ IH]; [done|]. intros i j. unfold ralt in *.
  rewrite !Exists_cons, (HR i j). apply or_iff_compat_l, IH.
Qed.

#[global] Instance rrep_proper mn mx : Proper (req ==> req) (rrep mn mx).
Proof.
  intros R Q H i j. unfold rrep. split; intros (n & ? & ? & Hp); exists n;
    repeat split; try done; by apply (rpow_proper _ _ H n n eq_refl).
Qed.

Lemma rcomp_assoc R Q T : rcomp (rcomp R Q) T ≃ rcomp R (rcomp Q T).
Proof. intros i j. unfold rcomp. naive_solver. Qed.

Lemma rcomp_id_l R : rcomp rid R ≃ R.
Proof. intros i j. unfold rcomp, rid. naive_solver. Qed.

Lemma rcomp_id_r R : rcomp R rid ≃ R.
Proof. intros i j. unfold rcomp, rid. naive_solver. Qed.

Lemma rseq_app l k : rseq (l ++ k) ≃ rcomp (rseq l) (rseq k).
Proof.
  induction l as [|R l IH]; simpl; [by rewrite rcomp_id_l|]. by rewrite IH, rcomp_assoc.
Qed.

Lemma rseq_replicate n R : rseq (replicate n R) ≃ rpow R n.
Proof. induction n as [|n IH]; simpl; [done|]. by rewrite IH. Qed.

Lemma rpow_add R m n : rpow R (m + n) ≃ rcomp (rpow R m) (rpow R n).
Proof.
  induction m as [|m IH]; simpl; [by rewrite rcomp_id_l|]. by rewrite IH, rcomp_assoc.
Qed.

Lemma rpow_1 R : rpow R 1 ≃ R.
Proof. apply rcomp_id_r. Qed.

Lemma rpow_mul R m n : rpow (rpow R m) n ≃ rpow R (n * m).
Proof. induction n as [|n IH]; simpl; [done|]. by rewrite IH, rpow_add. Qed.

Lemma rpow_id n : rpow rid n ≃ rid.
Proof. induction n as [|n IH]; simpl; [done|]. by rewrite IH, rcomp_id_l. Qed.

Lemma rrep_exact n R : rrep (Z.of_nat n) (Z.of_nat n) R ≃ rpow R n.
Proof.
  intros i j. split.
  - intros (k & ? & ? & ?). replace n with k by lia. done.
  - intros ?. exists n. repeat split; [lia..|done].
Qed.

Lemma rrep_id mn mx : (mx = -1 ∨ 0 ≤ mn ≤ mx)%Z → (mn ≤ mx ∨ mx = -1)%Z → rrep mn mx rid ≃ rid.
Proof.
  intros H1 H2 i j. split.
  - intros (n & _ & _ & Hp). by apply (rpow_id n).
  - intros H. exists (Z.to_nat (Z.max 0 mn)). repeat split; [lia|lia|]. by apply rpow_id.
Qed.

(** Repetitions of repetitions by the same operator. *)
Lemma rpow_star R n i j : rpow (rrep 0 (-1) R) n i j → rrep 0 (-1) R i j.
Proof.
  revert i. induction n as [|n IH]; simpl; intros i.
  - intros <-. exists 0. repeat split; try lia.
  - intros (k & (m & _ & _ & H1) & H2). destruct (IH _ H2) as (m' & _ & _ & H3).
    exists (m + m'). repeat split; [lia|lia|]. apply rpow_add. by exists k.
Qed.

Lemma rpow_plus R n i j : rpow (rrep 1 (-1) R) (S n) i j → rrep 1 (-1) R i j.
Proof.
  revert i. induction n as [|n IH]; intros i.
  - apply rpow_1.
  - intros (k & (m & ? & _ & H1) & H2). destruct (IH _ H2) as (m' & ? & _ & H3).
    exists (m + m'). repeat split; [lia|lia|]. apply rpow_add. by exists k.
Qed.

Lemma rrep_once mn mx R i j : (mn ≤ 1 ∧ (mx = -1 ∨ 1 ≤ mx))%Z → R i j → rrep mn mx R i j.
Proof. intros ? ?. exists 1. repeat split; [lia|lia|]. by apply rpow_1. Qed.

Lemma star_star R : rrep 0 (-1) (rrep 0 (-1) R) ≃ rrep 0 (-1) R.
Proof.
  intros i j. split; [intros (n & _ & _ & H); by apply rpow_star in H|].
  intros H. apply rrep_once; [lia|done].
Qed.

Lemma plus_plus R : rrep 1 (-1) (rrep 1 (-1) R) ≃ rrep 1 (-1) R.
Proof.
  intros i j. split.
  - intros ([|n] & ? & _ & H); [lia|]. by apply rpow_plus in H.
  - intros H. apply rrep_once; [lia|done].
Qed.

Lemma quest_spec R i j : rrep 0 1 R i j ↔ i = j ∨ R i j.
Proof.
  split.
  - intros ([|[|n]] & ? & ? & H); [by left|right; by apply rpow_1|lia].
  - intros [->|H]; [exists 0; repeat split; lia|by apply rrep_once; [lia|]].
Qed.

Lemma quest_quest R : rrep 0 1 (rrep 0 1 R) ≃ rrep 0 1 R.
Proof. intros i j. rewrite !quest_spec. naive_solver. Qed.

(** [x{n,}] is [n-1] copies and [x+]. *)
Lemma rrep_at_least (n : nat) R :
  rrep (Z.of_nat (S n)) (-1) R ≃ rcomp (rpow R n) (rrep 1 (-1) R).
Proof.
  intros i j. split.
  - intros (m & ? & _ & H). replace m with (n + (m - n)) in H by lia.
    apply rpow_add in H as (k & Ha & Hb). exists k. split; [done|].
    exists (m - n). repeat split; [lia|lia|done].
  - intros (k & Ha & (m & ? & _ & Hb)). exists (n + m). repeat split; [lia|lia|].
    apply rpow_add. by exists k.
Qed.

(** [x{n,n+k}] is [n] copies and [x{0,k}]. *)
Lemma rrep_split (n k : nat) R :
  rrep (Z.of_nat n) (Z.of_nat (n + k)) R ≃ rcomp (rpow R n) (rrep 0 (Z.of_nat k) R).
Proof.
  intros i j. split.
  - intros (m & ? & ? & H). replace m with (n + (m - n)) in H by lia.
    apply rpow_add in H as (p & Ha & Hb). exists p. split; [done|].
    exists (m - n). repeat split; [lia|lia|done].
  - intros (p & Ha & (m & ? & ? & Hb)). exists (n + m). repeat split; [lia|lia|].
    apply rpow_add. by exists p.
Qed.

(** [x{0,k+1}] is [(x x{0,k})?]. *)
Lemma rrep_nest (k : nat) R :
  rrep 0 (Z.of_nat (S k)) R ≃ rrep 0 1 (rcomp R (rrep 0 (Z.of_nat k) R)).
Proof.
  intros i j. rewrite quest_spec. split.
  - intros ([|m] & ? & ? & H); [by left|right].
    destruct H as (p & Ha & Hb). exists p. split; [done|]. exists m. repeat split; [lia|lia|done].
  - intros [->|(p & Ha & (m & ? & ? & Hb))]; [exists 0; repeat split; lia|].
    exists (S m). repeat split; [lia|lia|]. by exists p.
Qed.

(** ** Denotation *)
Section den.
Context `{RegexpLib} (s : list Z).

Definition step_rune (P : Z → Prop) : rel := λ i j, j = S i ∧ ∃ c, s !! i = Some c ∧ P c.

Definition lit_eq (flags r : Z) (c : Z) : Prop :=
  if bool_decide (Z.land flags FoldCase = 0%Z) then c = r else fold_eq r c = true.

Fixpoint in_class (ranges : list Z) (c : Z) : Prop :=
  match ranges with
  | lo :: hi :: rest => (lo ≤ c ≤ hi)%Z ∨ in_class rest c
  | _ => False
  end.

Definition is_word_rune (c : option Z) : bool :=
  match c with
  | Some c => ((48 <=? c) && (c <=? 57) || (65 <=? c) && (c <=? 90) || (c =? 95) ||
               (97 <=? c) && (c <=? 122))%Z
  | None => false
  end.

Definition at_word_boundary (i : nat) : bool :=
  negb (Bool.eqb (match i with O => false | S i' => is_word_rune (s !! i') end) (is_word_rune (s !! i))).

Definition newline : Z := 10.

Definition here (P : nat → Prop) : rel := λ i j, i = j ∧ P i.

(** The first child's relation. *)
Definition rhead (l : list rel) : rel := match l with R :: _ => R | [] => rnone end.

Definition op_den (o : Op) (flags : Z) (subs : list rel) (rune : list Z) (mn mx : Z) : rel :=
  match o with
  | OpNoMatch => rnone
  | OpEmptyMatch => rid
  | OpLiteral => rseq (map (λ r, step_rune (lit_eq flags r)) rune)
  | OpCharClass => step_rune (in_class rune)
  | OpAnyCharNotNL => step_rune (λ c, c ≠ newline)
  | OpAnyChar => step_rune (λ _, True)
  | OpBeginLine => here (λ i, i = 0 ∨ ∃ i', i = S i' ∧ s !! i' = Some newline)
  | OpEndLine => here (λ i, i = length s ∨ s !! i = Some newline)
  | OpBeginText => here (λ i, i = 0)
  | OpEndText => here (λ i, i = length s)
  | OpWordBoundary => here (λ i, at_word_boundary i = true)
  | OpNoWordBoundary => here (λ i, at_word_boundary i = false)
  | OpCapture => rhead subs
  | OpStar => rrep 0 (-1) (rhead subs)
  | OpPlus => rrep 1 (-1) (rhead subs)
  | OpQuest => rrep 0 1 (rhead subs)
  | OpRepeat => rrep mn mx (rhead subs)
  | OpConcat => rseq subs
  | OpAlternate => ralt subs
  end.

Fixpoint den (t : Regexp) : rel :=
  let 'Re _ o f sub rn mn mx := t in op_den o f (map den sub) rn mn mx.

(** [MatchString] of an unanchored regular expression. *)
Definition search (t : Regexp) : Prop := ∃ i j, i ≤ length s ∧ den t i j.

#[global] Instance rhead_proper : Proper (Forall2 req ==> req) rhead.
Proof. by intros ? ? [|????]. Qed.

#[global] Instance op_den_proper o f : Proper (Forall2 req ==> eq ==> eq ==> eq ==> req) (op_den o f).
Proof.
  intros l k Hl rn ? <- mn ? <- mx ? <-. destruct o; simpl; try done; by rewrite Hl.
Qed.

Lemma den_bounded t i j : i ≤ length s → den t i j → j ≤ length s.
Proof.
  assert (Hpow : ∀ R : rel, (∀ i j, i ≤ length s → R i j → j ≤ length s) →
    ∀ n i j, i ≤ length s → rpow R n i j → j ≤ length s).
  { intros R HR n. induction n as [|n IH]; simpl; intros ?? Hi; [by intros <-|].
    intros (k & Hk & Hn). eauto. }
  assert (Hseq : ∀ l, Forall (λ R : rel, ∀ i j, i ≤ length s → R i j → j ≤ length s) l →
    ∀ i j, i ≤ length s → rseq l i j → j ≤ length s).
  { induction 1 as [|R l HR _ IH]; simpl; intros ?? Hi; [by intros <-|].
    intros (k & Hk & Hn). eauto. }
  assert (Hstep : ∀ P i j, i ≤ length s → step_rune P i j → j ≤ length s).
  { intros P ? ? _ (-> & c & Hc%lookup_lt_Some & _). lia. }
  revert i j. induction t as [p o f sub rn mn mx IH] using Regexp_rect'. intros i j Hi.
  assert (HF : Forall (λ R : rel, ∀ i j, i ≤ length s → R i j → j ≤ length s) (map den sub))
    by by apply Forall_map.
  assert (Hhd : ∀ i j, i ≤ length s → rhead (map den sub) i j → j ≤ length s).
  { destruct HF; [by intros ???|eauto]. }
  destruct o; simpl; try done; eauto; try (by intros [-> _]); try (by intros ->).
  - intros Hd. eapply Hseq; [|done|exact Hd].
    apply Forall_map, Forall_true. intros r i' j'. apply Hstep.
  - intros (n & _ & _ & Hn). eauto.
  - intros (n & _ & _ & Hn). eauto.
  - intros (n & _ & _ & Hn). eauto.
  - intros (n & _ & _ & Hn). eauto.
  - intros HE. unfold ralt in HE. apply Exists_exists in HE as (R & HR & Hd).
    rewrite Forall_forall in HF. by apply (HF R HR i j).
Qed.
End den.

(** Expressions with the same meaning on every text. *)
Definition tequiv `{RegexpLib} : relation Regexp := λ t u, ∀ s, den s t ≃ den s u.

#[global] Instance tequiv_equiv `{RegexpLib} : Equivalence tequiv.
Proof.
  split; [by intros ??|by intros ?? H0 s; symmetry; apply H0|].
  intros ??? H0 H1 s. by rewrite (H0 s).
Qed.

Lemma tequiv_sub `{RegexpLib} p p' o f sub sub' rn mn mx :
  Forall2 tequiv sub sub' → tequiv (Re p o f sub rn mn mx) (Re p' o f sub' rn mn mx).
Proof.
  intros Hs s. simpl. apply op_den_proper; [|done..].
  induction Hs as [|???? Hd]; simpl; constructor; [apply Hd|done].
Qed.

Lemma tequiv_search `{RegexpLib} t u s : tequiv t u → search s t ↔ search s u.
Proof. intros Ht. unfold search. split; intros (i & j & ? & Hd); exists i, j; by apply (Ht s) in Hd. Qed.
