(* ===== verification/RegexpStore.v ===== *)
(** * Trees in the store, and the correctness of [Simplify]

    [stored h t]: the tree [t] is in the store at the addresses it carries.
    Calls that recurse over a tree take a fuel; [eventually c h h' a] says that
    with enough fuel the call returns [a] and leaves the store [h'], which is
    how total correctness is stated here.  [ext h h'] is growth of the store by
    allocation only. *)
From S2P Require Import Prelude GoStrings GoUtf8 GoRegexp RegexpSem.

Open Scope list_scope.
Open Scope nat_scope.

(** A property of all nodes of a tree. *)
Fixpoint rall (P : Regexp → Prop) (t : Regexp) : Prop :=
  P t ∧ foldr and True (map (rall P) (r_sub t)).

Fixpoint stored (h : rstore) (t : Regexp) : Prop :=
  let 'Re p o f sub rn mn mx := t in
  (∃ sl, nodes h !! p = Some (mkNode o f sl rn mn mx) ∧
         elems_of h sl = map r_ptr sub ∧ s_len sl = length sub) ∧
  foldr and True (map (stored h) sub).

Lemma foldr_and {A} (P : A → Prop) l : foldr and True (map P l) ↔ Forall P l.
Proof. induction l as [|x l IH]; simpl; [by split; [constructor|]|]. by rewrite Forall_cons, IH. Qed.

Lemma rall_node P t : rall P t ↔ P t ∧ Forall (rall P) (r_sub t).
Proof. destruct t. simpl. by rewrite foldr_and. Qed.

Lemma stored_node h p o f sub rn mn mx :
  stored h (Re p o f sub rn mn mx) ↔
  (∃ sl, nodes h !! p = Some (mkNode o f sl rn mn mx) ∧
         elems_of h sl = map r_ptr sub ∧ s_len sl = length sub) ∧ Forall (stored h) sub.
Proof. simpl. by rewrite foldr_and. Qed.

#[global] Arguments stored : simpl never.
#[global] Arguments rall : simpl never.

(** ** Enough fuel *)
Definition eventually {A} (c : nat → RX A) (h h' : rstore) (a : A) : Prop :=
  ∃ F, ∀ fuel, F ≤ fuel → c fuel h = (h', Ok a).

Lemma ev_ret {A} (a : A) h : eventually (λ _, mret a) h h a.
Proof. by exists 0. Qed.

Lemma ev_run {A} (c : RX A) h h' a : c h = (h', Ok a) → eventually (λ _, c) h h' a.
Proof. intros Hc. by exists 0. Qed.

Lemma ev_bind {A B} (c : nat → RX A) (k : nat → A → RX B) h h1 h2 a b :
  eventually c h h1 a → eventually (λ fuel, k fuel a) h1 h2 b →
  eventually (λ fuel, c fuel ≫= k fuel) h h2 b.
Proof.
  intros [F Hc] [G Hk]. exists (F `max` G). intros fuel Hf.
  unfold mbind, SE_bind. rewrite Hc by lia. apply Hk. lia.
Qed.

(** A step that does not depend on the fuel. *)
Lemma ev_step {A B} (c : RX A) (k : nat → A → RX B) h h1 h2 a b :
  c h = (h1, Ok a) → eventually (λ fuel, k fuel a) h1 h2 b →
  eventually (λ fuel, c ≫= k fuel) h h2 b.
Proof. intros Hc. apply ev_bind. by apply ev_run. Qed.

(** A recursive call spends one unit of fuel. *)
Lemma ev_S {A} (c : nat → RX A) (body : nat → RX A) h h' a :
  (∀ fuel, c (S fuel) = body fuel) → eventually body h h' a → eventually c h h' a.
Proof.
  intros Hc [F Hb]. exists (S F). intros [|fuel] Hf; [lia|]. rewrite Hc. apply Hb. lia.
Qed.

(** ** Allocation *)
Definition ext (h h' : rstore) : Prop := nodes h ⊆ nodes h' ∧ arrays h ⊆ arrays h'.

#[global] Instance ext_preorder : PreOrder ext.
Proof. split; [by intros h; split|]. intros h1 h2 h3 [] []. split; by etrans. Qed.

Lemma elems_of_ext h h' sl :
  ext h h' → length (elems_of h sl) = s_len sl → elems_of h' sl = elems_of h sl.
Proof.
  intros [_ Ha] Hlen. unfold elems_of in *.
  destruct (arrays h !! s_arr sl) as [a|] eqn:E; simpl in *.
  { by rewrite (lookup_weaken _ _ _ _ E Ha). }
  rewrite drop_nil, take_nil in Hlen. simpl in Hlen. by rewrite <- Hlen.
Qed.

Lemma stored_ext h h' t : ext h h' → stored h t → stored h' t.
Proof.
  intros He. induction t as [p o f sub rn mn mx IH] using Regexp_rect'.
  rewrite !stored_node. intros [(sl & Hn & Hs & Hl) Hsub]. split.
  - exists sl. split; [by eapply lookup_weaken; [|apply He]|]. split; [|done].
    rewrite elems_of_ext with h h' sl; [done|done|]. by rewrite Hs, length_map.
  - rewrite Forall_forall in *. auto.
Qed.

Lemma stored_all_ext h h' ts : ext h h' → Forall (stored h) ts → Forall (stored h') ts.
Proof. intros He Ht. eapply Forall_impl; [exact Ht|]. intros t. by apply stored_ext. Qed.

(** A tree is determined by its address. *)
Lemma stored_inj h t u : stored h t → stored h u → r_ptr t = r_ptr u → t = u.
Proof.
  revert u. induction t as [p o f sub rn mn mx IH] using Regexp_rect'.
  intros [p' o' f' sub' rn' mn' mx']. rewrite !stored_node. simpl.
  intros [(sl & Hn & Hs & _) Hsub] [(sl' & Hn' & Hs' & _) Hsub'] <-.
  rewrite Hn in Hn'. injection Hn' as -> -> <- -> -> ->. f_equal.
  rewrite Hs in Hs'. clear Hs Hn. revert sub' Hs' Hsub'.
  induction IH as [|t sub Ht _ IH']; intros [|u sub'] Hp Hsub'; try done.
  apply Forall_cons in Hsub as [? ?]. apply Forall_cons in Hsub' as [? ?].
  simpl in Hp. injection Hp as ? ?. f_equal; [by apply Ht|by apply IH'].
Qed.

Lemma stored_inj_list h ts us :
  Forall (stored h) ts → Forall (stored h) us → map r_ptr ts = map r_ptr us → ts = us.
Proof.
  intros Hts. revert us. induction Hts as [|t ts Ht _ IH]; intros [|u us] Hus Hp; try done.
  apply Forall_cons in Hus as [? ?]. simpl in Hp. injection Hp as ? ?.
  f_equal; [by eapply stored_inj|by apply IH].
Qed.

Lemma new_node_run n h : ∃ h' p, new_node n h = (h', Ok p) ∧ ext h h' ∧
  nodes h' !! p = Some n ∧ arrays h' = arrays h ∧ nodes h !! p = None.
Proof.
  do 2 eexists. split; [done|]. simpl. pose proof (is_fresh (dom (nodes h))) as Hf.
  apply not_elem_of_dom in Hf. split; [split; [by apply insert_subseteq|done]|].
  by rewrite lookup_insert_eq.
Qed.

Lemma new_slice_run l h : ∃ h' sl, new_slice l h = (h', Ok sl) ∧ ext h h' ∧
  elems_of h' sl = l ∧ s_len sl = length l.
Proof.
  do 2 eexists. split; [done|]. simpl. pose proof (is_fresh (dom (arrays h))) as Hf.
  apply not_elem_of_dom in Hf. split; [split; [done|by apply insert_subseteq]|].
  unfold elems_of. simpl. rewrite lookup_insert_eq. simpl. by rewrite drop_0, firstn_all.
Qed.

(** A new node over stored children is stored. *)
Lemma new_regexp_run o f ts rn mn mx h :
  Forall (stored h) ts →
  ∃ h' p, new_regexp o f (map r_ptr ts) rn mn mx h = (h', Ok p) ∧ ext h h' ∧
    stored h' (Re p o f ts rn mn mx) ∧ nodes h !! p = None.
Proof.
  intros Hts. destruct (new_slice_run (map r_ptr ts) h) as (h1 & sl & E1 & X1 & Hel & Hlen).
  destruct (new_node_run (mkNode o f sl rn mn mx) h1) as (h2 & p & E2 & X2 & Hn & Ha & Hf).
  assert (ext h h2) by by etrans.
  exists h2, p. unfold new_regexp. split; [unfold mbind, SE_bind; by rewrite E1|].
  split; [done|]. split.
  - apply stored_node. split; [|by eapply stored_all_ext].
    exists sl. split; [done|]. rewrite length_map in Hlen. split; [|done].
    rewrite elems_of_ext with h1 h2 sl; [done|done|]. rewrite Hel. by rewrite length_map.
  - destruct (nodes h !! p) eqn:E; [|done].
    by rewrite (lookup_weaken _ _ _ _ E (proj1 X1)) in Hf.
Qed.

(** ** Reading *)
Lemma deref_run h p o f sub rn mn mx :
  stored h (Re p o f sub rn mn mx) →
  ∃ sl, deref p h = (h, Ok (mkNode o f sl rn mn mx)) ∧
        elems_of h sl = map r_ptr sub ∧ s_len sl = length sub.
Proof.
  rewrite stored_node. intros [(sl & Hn & ?) _]. exists sl. unfold deref. by rewrite Hn.
Qed.

Lemma index_run h sl ps i p : elems_of h sl = ps → ps !! i = Some p → index sl i h = (h, Ok p).
Proof. intros Hs Hi. unfold index. by rewrite Hs, Hi. Qed.

Lemma mapM_load ts h :
  Forall (λ t, eventually (λ fuel, load fuel (r_ptr t)) h h t) ts →
  eventually (λ fuel, mapM_rx (load fuel) (map r_ptr ts)) h h ts.
Proof.
  induction 1 as [|t ts Ht _ IH]; simpl; [apply ev_ret|].
  eapply ev_bind; [exact Ht|]. eapply ev_bind; [exact IH|]. apply ev_ret.
Qed.

Lemma load_run h t : stored h t → eventually (λ fuel, load fuel (r_ptr t)) h h t.
Proof.
  induction t as [p o f sub rn mn mx IH] using Regexp_rect'. intros Hst.
  destruct (deref_run _ _ _ _ _ _ _ _ Hst) as (sl & Hd & Hs & Hl).
  apply stored_node in Hst as [_ Hsub].
  eapply ev_S; [done|]. eapply ev_step; [exact Hd|]. simpl.
  eapply ev_step; [unfold elems; by rewrite Hs|].
  eapply ev_bind; [apply mapM_load|apply ev_ret].
  apply Forall_forall. intros t Ht. rewrite Forall_forall in IH, Hsub. auto.
Qed.

(** ** Well-formed expressions

    What the parser guarantees, and that the runes of a literal can be encoded
    in UTF-8, which it does not: an escape such as [\x{D800}] is a literal with a
    surrogate.  Unary operators have one operand, a concatenation has at least
    one, bounds of a repetition are in order.  With [strict], no concatenation is
    marked case insensitive (the parser leaves their flags empty). *)
Definition wf_node (strict : bool) (t : Regexp) : Prop :=
  match r_op t with
  | OpCapture | OpStar | OpPlus | OpQuest => length (r_sub t) = 1
  | OpRepeat =>
      length (r_sub t) = 1 ∧ (0 ≤ r_min t)%Z ∧ (r_max t = -1 ∨ r_min t ≤ r_max t)%Z
  | OpConcat => r_sub t ≠ [] ∧ (strict = true → Z.land (r_flags t) FoldCase = 0%Z)
  | OpLiteral => r_sub t = [] ∧ Forall valid_rune (r_rune t)
  | OpAlternate => True
  | _ => r_sub t = []
  end.

Definition wf (strict : bool) : Regexp → Prop := rall (wf_node strict).

(** The two parts of [wf]: the shape the parser gives to an expression, and that
    its literals hold valid runes only. *)
Definition shape_node (t : Regexp) : Prop :=
  match r_op t with
  | OpCapture | OpStar | OpPlus | OpQuest => length (r_sub t) = 1
  | OpRepeat =>
      length (r_sub t) = 1 ∧ (0 ≤ r_min t)%Z ∧ (r_max t = -1 ∨ r_min t ≤ r_max t)%Z
  | OpConcat => r_sub t ≠ [] ∧ Z.land (r_flags t) FoldCase = 0%Z
  | OpAlternate => True
  | _ => r_sub t = []
  end.
Definition shaped : Regexp → Prop := rall shape_node.

Fixpoint encodable (t : Regexp) : bool :=
  (if decide (r_op t = OpLiteral) then forallb (λ r, bool_decide (valid_rune r)) (r_rune t) else true) &&
  forallb encodable (r_sub t).
Definition norep : Regexp → Prop := rall (λ t, r_op t ≠ OpRepeat).

Lemma wf_unfold b t : wf b t ↔ wf_node b t ∧ Forall (wf b) (r_sub t).
Proof. apply rall_node. Qed.
Lemma norep_unfold t : norep t ↔ r_op t ≠ OpRepeat ∧ Forall norep (r_sub t).
Proof. apply rall_node. Qed.

Lemma shaped_wf t : shaped t → encodable t = true → wf true t.
Proof.
  induction t as [p o f sub rn mn mx IH] using Regexp_rect'. intros [Hn Hs]%rall_node He.
  change ((if decide (o = OpLiteral) then forallb (λ r, bool_decide (valid_rune r)) rn else true) &&
          forallb encodable sub = true) in He.
  apply andb_true_iff in He as [Hl He]. apply wf_unfold. split.
  - unfold shape_node in Hn. unfold wf_node. simpl in *. destruct o; try done.
    + rewrite decide_True in Hl by done. split; [done|]. apply Forall_forall. intros r Hr.
      apply (bool_decide_eq_true_1 _). rewrite forallb_forall in Hl. by apply Hl, list_elem_of_In.
    + by destruct Hn.
  - simpl in *. apply Forall_forall. intros u Hu. rewrite Forall_forall in IH, Hs. rewrite forallb_forall in He.
    apply IH; [done|by apply Hs|by apply He, list_elem_of_In].
Qed.

#[global] Arguments wf : simpl never.
#[global] Arguments norep : simpl never.

(** ** [Simplify] *)
(** Elements of an explicit list, one by one. *)
Ltac fl := repeat (apply Forall_cons_2 || apply Forall_nil_2).

Section simplify.
Context `{RegexpLib} (strict : bool).

(** The outcome of simplifying an expression of the meaning of [t]. *)
Definition simplified (t : Regexp) (h h' : rstore) (t' : Regexp) : Prop :=
  ext h h' ∧ stored h' t' ∧ wf strict t' ∧ norep t' ∧ tequiv t t'.

Ltac simpl5 := split; [|split; [|split; [|split]]].

Definition loop_op (o : Op) : Prop := o = OpStar ∨ o = OpPlus ∨ o = OpQuest.

Lemma loop_empty o f u rn mn mx p :
  loop_op o → r_op u = OpEmptyMatch → tequiv (Re p o f [u] rn mn mx) u.
Proof.
  destruct u as [? o' ? sub ? ? ?]. simpl. intros Ho -> s. simpl.
  destruct Ho as [-> | [-> | ->]]; simpl; apply rrep_id; lia.
Qed.

Lemma loop_loop o f u rn mn mx p :
  loop_op o → r_op u = o → length (r_sub u) = 1 → tequiv (Re p o f [u] rn mn mx) u.
Proof.
  destruct u as [? o' ? sub ? ? ?]. simpl. intros Ho -> Hl s. simpl.
  destruct Ho as [-> | [-> | ->]]; simpl; [apply star_star|apply plus_plus|apply quest_quest].
Qed.

Lemma wf_loop o f u rn mn mx p : loop_op o → wf strict u → wf strict (Re p o f [u] rn mn mx).
Proof.
  intros Ho Hu. apply wf_unfold. split; [|by fl].
  by destruct Ho as [-> | [-> | ->]].
Qed.

Lemma norep_node p o f sub rn mn mx : o ≠ OpRepeat → Forall norep sub → norep (Re p o f sub rn mn mx).
Proof. intros. by apply norep_unfold. Qed.

Lemma loop_not_repeat o : loop_op o → o ≠ OpRepeat.
Proof. by intros [-> | [-> | ->]]. Qed.

(** Which node is reused is told by the address of its operand. *)
Lemma simplify1_run o f u re h :
  loop_op o → stored h u → wf strict u → norep u →
  (∀ r, re = Some r → ∃ x f' rn mn mx, stored h (Re r o f' [x] rn mn mx)) →
  ∃ h' t', simplify1 o f (r_ptr u) re h = (h', Ok (r_ptr t')) ∧
    simplified (Re 1 o f [u] [] 0 0) h h' t'.
Proof.
  intros Ho Hu Hw Hr Hre. pose proof Hu as Hu'. destruct u as [pu ou fu subu rnu mnu mxu].
  destruct (deref_run _ _ _ _ _ _ _ _ Hu') as (slu & Hd & Hs & Hl).
  set (u := Re pu ou fu subu rnu mnu mxu) in *. unfold simplify1. simpl.
  unfold mbind at 1, SE_bind at 1. simpl in Hd. rewrite Hd. simpl.
  destruct (decide (ou = OpEmptyMatch)) as [->|Hne].
  { exists h, u. split; [done|]. simpl5; try done. by apply loop_empty. }
  destruct (decide _) as [[-> Hng]|Hid].
  { exists h, u. split; [done|]. simpl5; try done. apply loop_loop; [done..|].
    apply wf_unfold in Hw as [Hw _]. destruct Ho as [-> | [-> | ->]]; exact Hw. }
  assert (Hnew : ∃ h' t', new_regexp o f [pu] [] 0 0 h = (h', Ok (r_ptr t')) ∧
    simplified (Re 1 o f [u] [] 0 0) h h' t').
  { destruct (new_regexp_run o f [u] [] 0 0 h) as (h' & p & E & He & Hst & _); [by fl|].
    exists h', (Re p o f [u] [] 0 0). split; [exact E|]. split; [done|]. split; [done|].
    split; [by apply wf_loop|]. split; [|done].
    apply norep_node; [by apply loop_not_repeat|by fl]. }
  destruct re as [r|]; [|exact Hnew].
  destruct (Hre r eq_refl) as (x & f' & rn & mn & mx & Hst).
  destruct (deref_run _ _ _ _ _ _ _ _ Hst) as (sl & Hdr & Hsr & Hlr).
  unfold mbind, SE_bind. rewrite Hdr. simpl.
  rewrite (index_run _ _ _ 0 (r_ptr x) Hsr) by done. unfold mret, SE_ret.
  case_bool_decide as Hreuse; [|exact Hnew].
  destruct Hreuse as (_ & _ & Hpx). simpl in Hpx.
  assert (x = u) as ->.
  { apply stored_node in Hst as [_ Hx]. apply Forall_cons in Hx as [Hx _].
    eapply stored_inj; [exact Hx|exact Hu|done]. }
  exists h, (Re r o f' [u] rn mn mx). split; [done|]. split; [done|]. split; [done|].
  split; [by apply wf_loop|]. split.
  - apply norep_node; [by apply loop_not_repeat|by fl].
  - intros s. by destruct Ho as [-> | [-> | ->]].
Qed.

Lemma wf_concat p sub rn mn mx :
  sub ≠ [] → Forall (wf strict) sub → wf strict (Re p OpConcat 0 sub rn mn mx).
Proof. intros. apply wf_unfold. by repeat split. Qed.

(** [x{0,k+1}], written with nested question marks. *)
Lemma nest_quest_run k f u h :
  stored h u → wf strict u → norep u →
  ∃ h' t', nest_quest k f (r_ptr u) h = (h', Ok (r_ptr t')) ∧
    simplified (Re 1 OpRepeat f [u] [] 0 (Z.of_nat (S k))) h h' t'.
Proof.
  intros Hu Hw Hr. induction k as [|k IH]; simpl.
  { destruct (simplify1_run OpQuest f u None h) as (h' & t' & E & Hx & Hst & Hwf & Hnr & Heq);
      [by right; right|done..|].
    exists h', t'. split; [done|]. by simpl5. }
  destruct IH as (h1 & q & E1 & Hx1 & Hq & Hwq & Hnq & Heq).
  destruct (new_regexp_run OpConcat 0 [u; q] [] 0 0 h1) as (h2 & p & E2 & Hx2 & Hst & _).
  { fl; [by eapply stored_ext|done]. }
  destruct (simplify1_run OpQuest f (Re p OpConcat 0 [u; q] [] 0 0) None h2)
    as (h3 & t' & E3 & Hx3 & Ht & Hwt & Hnt & Heq3); [by right; right|done|..].
  { apply wf_concat; [done|by fl]. }
  { apply norep_node; [done|by fl]. }
  { done. }
  exists h3, t'. split; [by rewrite (SE_bind_run _ _ _ _ _ E1), (SE_bind_run _ _ _ _ _ E2)|].
  split; [etrans; [exact Hx1|]; by etrans|]. split; [done|]. split; [done|]. split; [done|].
  etrans; [|exact Heq3]. intros s. simpl. rewrite rrep_nest. apply rrep_proper.
  rewrite rcomp_id_r. apply rcomp_proper; [done|]. symmetry. symmetry. apply (Heq s).
Qed.

Lemma map_replicate {A B} (g : A → B) n x : map g (replicate n x) = replicate n (g x).
Proof. induction n; simpl; congruence. Qed.

Lemma Forall_replicate_2 {A} (P : A → Prop) n x : P x → Forall P (replicate n x).
Proof. intros. induction n; simpl; by constructor. Qed.

(** A concatenation of copies of [u] and at most one more expression. *)
Lemma new_copies_run n u rest h :
  stored h u → Forall (stored h) rest → wf strict u → Forall (wf strict) rest →
  norep u → Forall norep rest → replicate n u ++ rest ≠ [] →
  ∃ h' p, new_regexp OpConcat 0 (replicate n (r_ptr u) ++ map r_ptr rest) [] 0 0 h =
      (h', Ok (r_ptr (Re p OpConcat 0 (replicate n u ++ rest) [] 0 0))) ∧
    simplified (Re 1 OpConcat 0 (replicate n u ++ rest) [] 0 0) h h'
      (Re p OpConcat 0 (replicate n u ++ rest) [] 0 0).
Proof.
  intros Hu Hrest Hw Hwr Hn Hnr Hne.
  assert (HF : ∀ P : Regexp → Prop, P u → Forall P rest → Forall P (replicate n u ++ rest)).
  { intros. apply Forall_app_2; [by apply Forall_replicate_2|done]. }
  destruct (new_regexp_run OpConcat 0 (replicate n u ++ rest) [] 0 0 h) as (h' & p & E & Hx & Hst & _).
  { by apply HF. }
  exists h', p. rewrite map_app, map_replicate in E. split; [exact E|]. simpl5; [done..| | |done].
  - apply wf_concat; [done|by apply HF].
  - apply norep_node; [done|by apply HF].
Qed.

Lemma rrep_nat mn mx R : (0 ≤ mn)%Z → (mn ≤ mx)%Z →
  rrep mn mx R ≃ rcomp (rpow R (Z.to_nat mn)) (rrep 0 (mx - mn) R).
Proof.
  intros. rewrite <- (Z2Nat.id mn), <- (Z2Nat.id mx) by lia.
  replace (Z.to_nat mx) with (Z.to_nat mn + Z.to_nat (mx - mn)) by lia.
  rewrite rrep_split, Nat2Z.id.
  by replace (Z.of_nat (Z.to_nat mn + Z.to_nat (mx - mn)) - Z.of_nat (Z.to_nat mn))%Z
    with (Z.of_nat (Z.to_nat (mx - mn))) by lia.
Qed.

Lemma den_copies s n u rest :
  rseq (map (den s) (replicate n u ++ rest)) ≃ rcomp (rpow (den s u) n) (rseq (map (den s) rest)).
Proof. by rewrite map_app, rseq_app, map_replicate, rseq_replicate. Qed.

Lemma simplify_repeat_run f mn mx u h :
  stored h u → wf strict u → norep u →
  (0 ≤ mn)%Z → (mx = -1 ∨ mn ≤ mx)%Z → ¬ (mn = 0 ∧ mx = 0)%Z →
  ∃ h' t', simplify_repeat f mn mx (r_ptr u) h = (h', Ok (r_ptr t')) ∧
    simplified (Re 1 OpRepeat f [u] [] mn mx) h h' t'.
Proof.
  intros Hu Hw Hn Hmn Hmx Hz. unfold simplify_repeat.
  case_bool_decide as E1; [subst mx|].
  - case_bool_decide as E2; [subst mn|case_bool_decide as E3; [subst mn|]].
    + apply simplify1_run; [by left|done..].
    + apply simplify1_run; [by right; left|done..].
    + destruct (simplify1_run OpPlus f u None h) as (h1 & l & E4 & Hx & Hl & Hwl & Hnl & Heq);
        [by right; left|done..|].
      destruct (new_copies_run (Z.to_nat (mn - 1)) u [l] h1) as (h2 & p & E5 & Hx2 & Hst & Hwt & Hnt & _);
        [by eapply stored_ext|by fl|done|by fl|done|by fl|by destruct (replicate _ _)|].
      exists h2, (Re p OpConcat 0 (replicate (Z.to_nat (mn - 1)) u ++ [l]) [] 0 0).
      split; [by rewrite (SE_bind_run _ _ _ _ _ E4)|]. simpl5; [by etrans|done..|].
      intros s. simpl. rewrite den_copies. simpl. rewrite rcomp_id_r, <- (Heq s). simpl.
      replace mn with (Z.of_nat (S (Z.to_nat (mn - 1)))) at 1 by lia. by rewrite rrep_at_least.
  - case_bool_decide as E2; [destruct E2 as [-> ->]|].
    { exists h, u. split; [done|]. simpl5; try done. intros s. simpl.
      change 1%Z with (Z.of_nat 1). by rewrite rrep_exact, rpow_1. }
    case_bool_decide as E3.
    + destruct (nest_quest_run (Z.to_nat (mx - mn - 1)) f u h)
        as (h1 & q & E4 & Hx & Hq & Hwq & Hnq & Heq); [done..|].
      replace (Z.of_nat (S (Z.to_nat (mx - mn - 1)))) with (mx - mn)%Z in Heq by lia.
      case_bool_decide as E5.
      * destruct (new_copies_run (Z.to_nat mn) u [q] h1) as (h2 & p & E6 & Hx2 & Hst & Hwt & Hnt & _);
          [by eapply stored_ext|by fl|done|by fl|done|by fl|by destruct (replicate _ _)|].
        exists h2, (Re p OpConcat 0 (replicate (Z.to_nat mn) u ++ [q]) [] 0 0).
        split; [by rewrite (SE_bind_run _ _ _ _ _ E4)|]. simpl5; [by etrans|done..|].
        intros s. simpl. rewrite den_copies. simpl. rewrite rcomp_id_r, <- (Heq s). simpl.
        rewrite rrep_nat by lia. done.
      * exists h1, q. split; [by rewrite (SE_bind_run _ _ _ _ _ E4)|]. simpl5; [done..|].
        assert (mn = 0)%Z as -> by lia. by rewrite Z.sub_0_r in Heq.
    + assert (mx = mn) as -> by lia. rewrite bool_decide_true by lia.
      destruct (new_copies_run (Z.to_nat mn) u [] h) as (h2 & p & E6 & Hx2 & Hst & Hwt & Hnt & _);
        [done|by fl|done|by fl|done|by fl| |].
      { rewrite app_nil_r. replace (Z.to_nat mn) with (S (Z.to_nat (mn - 1))) by lia. done. }
      rewrite !app_nil_r in *.
      exists h2, (Re p OpConcat 0 (replicate (Z.to_nat mn) u) [] 0 0). split; [done|].
      simpl5; [done..|]. intros s. simpl. rewrite map_replicate, rseq_replicate.
      rewrite <- (Z2Nat.id mn) at 1 2 by lia. by rewrite rrep_exact.
Qed.

(** Mapping a call that only allocates over stored trees. *)
Lemma mapM_trees {A} (g : nat → positive → RX A) (π : A → positive)
    (Q : Regexp → A → Regexp → Prop) ts h :
  Forall (λ t, ∀ h1, stored h1 t →
    ∃ h' a t', eventually (λ fu, g fu (r_ptr t)) h1 h' a ∧ π a = r_ptr t' ∧
      ext h1 h' ∧ stored h' t' ∧ Q t a t') ts →
  Forall (stored h) ts →
  ∃ h' l ts', eventually (λ fu, mapM_rx (g fu) (map r_ptr ts)) h h' l ∧
    map π l = map r_ptr ts' ∧ ext h h' ∧ Forall (stored h') ts' ∧ Forall3 Q ts l ts'.
Proof.
  intros Hg. revert h. induction Hg as [|t ts Ht _ IH]; intros h Hst.
  { exists h, [], []. split; [apply ev_ret|]. split; [done|]. split; [done|].
    split; [by fl|constructor]. }
  apply Forall_cons in Hst as [Hst Hsts].
  destruct (Ht h Hst) as (h1 & a & t' & E1 & Hp & Hx & Ht' & HQ).
  destruct (IH h1) as (h2 & l & ts' & E2 & Hps & Hx2 & Hts' & HQs); [by eapply stored_all_ext|].
  exists h2, (a :: l), (t' :: ts'). split; [simpl; eapply ev_bind; [exact E1|];
    eapply ev_bind; [exact E2|apply ev_ret]|].
  split; [simpl; congruence|]. split; [by etrans|].
  split; [constructor; [by eapply stored_ext|done]|by constructor].
Qed.

Lemma tequiv_node p p' o f sub sub' rn rn' mn mx :
  Forall2 tequiv sub sub' → (o = OpLiteral ∨ o = OpCharClass → rn = rn') →
  tequiv (Re p o f sub rn mn mx) (Re p' o f sub' rn' mn mx).
Proof.
  intros Hs Hrn s. etrans; [by apply (tequiv_sub p p' o f sub sub' rn mn mx)|].
  simpl. destruct o; try done; by rewrite Hrn by auto.
Qed.

Lemma Forall3_Forall2_13 {A B C} (P : A → B → C → Prop) (Q : A → C → Prop) l k m :
  Forall3 P l k m → (∀ x y z, P x y z → Q x z) → Forall2 Q l m.
Proof. intros HF HP. induction HF; constructor; eauto. Qed.

Lemma Forall3_Forall_3 {A B C} (P : A → B → C → Prop) (Q : C → Prop) l k m :
  Forall3 P l k m → (∀ x y z, P x y z → Q z) → Forall Q m.
Proof. intros HF HP. induction HF; constructor; eauto. Qed.

Definition sub_op (o : Op) : Prop := o = OpCapture ∨ o = OpConcat ∨ o = OpAlternate.

Lemma wf_node_sub p p' o f sub sub' rn rn' mn mx :
  length sub = length sub' → o ≠ OpLiteral →
  wf_node strict (Re p o f sub rn mn mx) → wf_node strict (Re p' o f sub' rn' mn mx).
Proof.
  intros Hl Hne. unfold wf_node. simpl. destruct o; try done; rewrite ?Hl; try done;
    try (by intros ->; destruct sub').
  intros [H1 H2]. split; [|done]. by destruct sub, sub'.
Qed.

(** The children of a capture, concatenation or alternation, one by one. *)
Lemma Simplify_children p o f sub rn mn mx h :
  sub_op o → stored h (Re p o f sub rn mn mx) → wf strict (Re p o f sub rn mn mx) →
  Forall (λ t, ∀ h, stored h t → wf strict t →
    ∃ h' t', eventually (λ fu, Simplify fu (r_ptr t)) h h' (r_ptr t') ∧ simplified t h h' t') sub →
  ∃ h' t', eventually (λ fu, Simplify fu p) h h' (r_ptr t') ∧
    simplified (Re p o f sub rn mn mx) h h' t'.
Proof.
  intros Ho Hst Hwf IH. destruct (deref_run _ _ _ _ _ _ _ _ Hst) as (sl & Hd & Hs & Hl).
  apply wf_unfold in Hwf as [Hw Hws]. simpl in Hws.
  destruct (mapM_trees Simplify id
    (λ t a t', wf strict t' ∧ norep t' ∧ tequiv t t') sub h)
    as (h1 & l & ts' & E & Hps & Hx & Hts' & HQ); [|by apply stored_node in Hst as [_ ?]|].
  { rewrite Forall_forall in *. intros t Ht h1 Hst1.
    destruct (IH t Ht h1 Hst1 (Hws t Ht)) as (h' & t' & E & Hx & Hst' & Hq).
    exists h', (r_ptr t'), t'. by repeat split; try apply Hq; try apply Hx. }
  rewrite map_id in Hps. subst l.
  assert (Hlen : length sub = length ts') by by apply Forall3_length_lr in HQ.
  assert (Hwt : Forall (wf strict) ts') by (eapply Forall3_Forall_3; [exact HQ|naive_solver]).
  assert (Hnt : Forall norep ts') by (eapply Forall3_Forall_3; [exact HQ|naive_solver]).
  assert (Het : Forall2 tequiv sub ts') by (eapply Forall3_Forall2_13; [exact HQ|naive_solver]).
  assert (Ho' : o ≠ OpRepeat ∧ o ≠ OpLiteral ∧ o ≠ OpCharClass)
    by by destruct Ho as [-> | [-> | ->]].
  assert (HS : ∀ h' t', (λ l, if bool_decide (l = map r_ptr sub) then mret p
      else new_regexp o f l [] mn mx) (map r_ptr ts') h1 = (h', Ok (r_ptr t')) →
    eventually (λ fu, Simplify fu p) h h' (r_ptr t')).
  { intros h' t' Hrun. eapply ev_S; [done|]. eapply ev_step; [exact Hd|].
    destruct Ho as [-> | [-> | ->]]; simpl; (eapply ev_step; [unfold elems; by rewrite Hs|]);
      (eapply ev_bind; [exact E|]); by apply ev_run. }
  destruct (decide (map r_ptr ts' = map r_ptr sub)) as [Heq|Hne].
  - assert (ts' = sub) as ->.
    { eapply stored_inj_list; [exact Hts'| |done]. eapply stored_all_ext; [exact Hx|].
      by apply stored_node in Hst as [_ ?]. }
    exists h1, (Re p o f sub rn mn mx). split; [apply HS; by rewrite bool_decide_true|].
    simpl5; [done|by eapply stored_ext| | |done].
    + apply wf_unfold. by split.
    + apply norep_node; [naive_solver|done].
  - destruct (new_regexp_run o f ts' [] mn mx h1) as (h2 & q & E2 & Hx2 & Hst2 & _); [done|].
    exists h2, (Re q o f ts' [] mn mx). split; [apply HS; by rewrite bool_decide_false|].
    simpl5; [by etrans|done| | |].
    + apply wf_unfold. split; [|done]. eapply wf_node_sub; [exact Hlen|naive_solver|exact Hw].
    + apply norep_node; [naive_solver|done].
    + apply tequiv_node; [done|naive_solver].
Qed.

(** [Simplify] returns an expression of the same meaning without repetition
    counts, and changes nothing that was in the store. *)
Lemma Simplify_run t : ∀ h, stored h t → wf strict t →
  ∃ h' t', eventually (λ fu, Simplify fu (r_ptr t)) h h' (r_ptr t') ∧ simplified t h h' t'.
Proof.
  induction t as [p o f sub rn mn mx IH] using Regexp_rect'. intros h Hst Hwf.
  destruct (decide (o = OpCapture ∨ o = OpConcat ∨ o = OpAlternate)) as [Ho|Ho];
    [by apply Simplify_children|].
  destruct (deref_run _ _ _ _ _ _ _ _ Hst) as (sl & Hd & Hs & Hl).
  pose proof Hst as Hst0. apply stored_node in Hst0 as [_ Hsub].
  pose proof Hwf as Hwf0. apply wf_unfold in Hwf0 as [Hw Hws]. simpl in Hws.
  destruct (decide (o = OpStar ∨ o = OpPlus ∨ o = OpQuest ∨ o = OpRepeat)) as [Ho2|Ho2].
  2: { exists h, (Re p o f sub rn mn mx). split.
       { eapply ev_S; [done|]. eapply ev_step; [exact Hd|]. simpl.
         destruct o; first [by apply ev_ret|exfalso; naive_solver]. }
       simpl5; try done. apply norep_node; [naive_solver|].
       assert (sub = []) as -> by (destruct o; first [exact Hw|exact (proj1 Hw)|exfalso; naive_solver]).
       constructor. }
  assert (∃ x, sub = [x]) as [x ->].
  { destruct sub as [|x [|]]; [|by eexists|];
      by destruct Ho2 as [-> | [-> | [-> | ->]]]; try done; destruct Hw as [Hw _]. }
  apply Forall_cons in Hsub as [Hsub _]. apply Forall_cons in IH as [IH _].
  apply Forall_cons in Hws as [Hws _].
  destruct (IH h Hsub Hws) as (h1 & u & E1 & Hx1 & Hu & Hwu & Hnu & Hequ).
  assert (Hstep : ∀ (k : positive → RX positive) h' t', k (r_ptr u) h1 = (h', Ok t') →
    eventually (λ fu, s0 ← index sl 0; sub ← Simplify fu s0; k sub) h h' t').
  { intros k h' t' Hk. eapply ev_step; [by eapply index_run; [exact Hs|]|].
    eapply ev_bind; [exact E1|]. by apply ev_run. }
  assert (Hcong : ∀ q o' rn' mn' mx', loop_op o' ∨ o' = OpRepeat →
    tequiv (Re p o' f [x] rn' mn' mx') (Re q o' f [u] [] mn' mx')).
  { intros q o' rn' mn' mx' Ho'. apply tequiv_node; [by fl; constructor|].
    intros [-> | ->]; by destruct Ho' as [[|[]]|]. }
  assert (Hgoal : ∀ h2 t', simplified (Re 1 o f [u] [] mn mx) h1 h2 t' →
    simplified (Re p o f [x] rn mn mx) h h2 t').
  { intros h2 t' (Hx2 & Ht & Hwt & Hnt & Heq). simpl5; [by etrans|done..|].
    etrans; [|exact Heq]. apply Hcong. unfold loop_op. naive_solver. }
  destruct (decide (o = OpRepeat)) as [->|Hnr].
  - destruct Hw as (_ & Hmn & Hmx). simpl in Hmn, Hmx.
    destruct (decide (mn = 0 ∧ mx = 0)%Z) as [[-> ->]|Hz].
    + destruct (new_regexp_run OpEmptyMatch 0 [] [] 0 0 h) as (h2 & q & E2 & Hx2 & Hst2 & _); [by fl|].
      exists h2, (Re q OpEmptyMatch 0 [] [] 0 0). split.
      { eapply ev_S; [done|]. eapply ev_step; [exact Hd|]. simpl. by apply ev_run. }
      simpl5; [done|done| | |].
      * apply wf_unfold. split; [done|constructor].
      * apply norep_node; [done|constructor].
      * intros s. simpl. change 0%Z with (Z.of_nat 0). by rewrite rrep_exact.
    + destruct (simplify_repeat_run f mn mx u h1) as (h2 & t' & E2 & Hq); [done..|].
      exists h2, t'. split; [|by apply Hgoal].
      eapply ev_S; [done|]. eapply ev_step; [exact Hd|]. simpl. rewrite bool_decide_false by done.
      by apply Hstep.
  - assert (loop_op o) as Hlo by (unfold loop_op; naive_solver).
    destruct (simplify1_run o f u (Some p) h1) as (h2 & t' & E2 & Hq); [done..| |].
    { intros r [= <-]. do 5 eexists. eapply stored_ext; [exact Hx1|exact Hst]. }
    exists h2, t'. split.
    + eapply ev_S; [done|]. eapply ev_step; [exact Hd|].
      destruct Hlo as [-> | [-> | ->]]; simpl; by apply Hstep.
    + apply Hgoal. destruct Hq as (Hx2 & Ht & Hwt & Hnt & Heq). simpl5; try done.
      etrans; [|exact Heq]. intros s. by destruct Hlo as [-> | [-> | ->]].
Qed.
End simplify.
