(* ===== verification/MatchFacts.v ===== *)
(** * The rewriting steps of package match preserve what is matched

    Each transformation of optimize.go returns, given enough fuel, an
    expression that matches the same texts.  All but the trimming steps keep
    the exact positions that match ([tequiv]); trimming keeps whether a text
    without line feeds matches at all ([sequiv]). *)
From S2P Require Import Prelude GoStrings GoUtf8 GoRegexp RegexpSem RegexpStore Match.

Open Scope list_scope.
Open Scope nat_scope.

Section facts.
Context `{RegexpLib}.
Implicit Types (t u : Regexp) (h : rstore).

(** ** Comparison of expressions *)
Lemma forall2b_Forall2 {A B} (f : A → B → bool) l k :
  forall2b f l k = true ↔ Forall2 (λ x y, f x y = true) l k.
Proof.
  revert k. induction l as [|x l IH]; intros [|y k]; simpl.
  - split; [constructor|done].
  - split; [done|by inversion 1].
  - split; [done|by inversion 1].
  - by rewrite andb_true_iff, IH, Forall2_cons.
Qed.

Lemma forall2b_Zeqb l k : forall2b Z.eqb l k = true → l = k.
Proof.
  rewrite forall2b_Forall2. induction 1 as [|x y l k Hxy _ IH]; [done|].
  apply Z.eqb_eq in Hxy. congruence.
Qed.

(** Equal expressions differ at most in their addresses. *)
Lemma eqRegex_inv t u : eqRegex t u = true →
  r_op t = r_op u ∧ r_flags t = r_flags u ∧ r_rune t = r_rune u ∧ r_min t = r_min u ∧
  r_max t = r_max u ∧ Forall2 (λ x y, eqRegex x y = true) (r_sub t) (r_sub u).
Proof.
  destruct t, u. simpl. rewrite !andb_true_iff, !bool_decide_eq_true, !Z.eqb_eq, forall2b_Forall2.
  intros [[[[[[[-> ->] ->] ->] _] _] Hs] Hr%forall2b_Zeqb]. done.
Qed.

Lemma eqRegex_tequiv t u : eqRegex t u = true → tequiv t u.
Proof.
  revert u. induction t as [p o f sub rn mn mx IH] using Regexp_rect'.
  intros [p' o' f' sub' rn' mn' mx'] (Ho & Hf & Hr & Hmn & Hmx & Hs)%eqRegex_inv.
  simpl in *. subst. apply tequiv_sub.
  induction Hs as [|x y l k Hxy _ IHs]; [constructor|].
  apply Forall_cons in IH as [IHx IH]. constructor; auto.
Qed.

(** ** [uncapture] *)
Definition kept (strict : bool) t h h' t' : Prop :=
  ext h h' ∧ stored h' t' ∧ (wf strict t → wf strict t') ∧ (norep t → norep t') ∧ tequiv t t'.

(** A tree without its addresses, and without its captures. *)
Fixpoint erase (t : Regexp) : Regexp :=
  let 'Re _ o f sub rn mn mx := t in Re 1 o f (map erase sub) rn mn mx.

Fixpoint strip (t : Regexp) : Regexp :=
  let 'Re p o f sub rn mn mx := t in
  match o, sub with
  | OpCapture, [x] => strip x
  | _, _ => Re p o f (map strip sub) rn mn mx
  end.

Lemma strip_node p o f sub rn mn mx : o ≠ OpCapture →
  strip (Re p o f sub rn mn mx) = Re p o f (map strip sub) rn mn mx.
Proof. by destruct o. Qed.

Lemma Forall2_map_eq {A B} (f g : A → B) l k : Forall2 (λ x y, g y = f x) l k → map f l = map g k.
Proof. induction 1 as [|x y l k Hxy _ IH]; [done|]. simpl. by rewrite Hxy, IH. Qed.

Lemma uncapture_run strict t : ∀ h, stored h t → wf strict t →
  ∃ h' b t', eventually (λ fu, uncapture fu (r_ptr t)) h h' (b, r_ptr t') ∧ kept strict t h h' t' ∧
    erase t' = erase (strip t) ∧ (b = false → t' = t).
Proof.
  induction t as [p o f sub rn mn mx IH] using Regexp_rect'. intros h Hst Hwf.
  destruct (deref_run _ _ _ _ _ _ _ _ Hst) as (sl & Hd & Hs & Hl).
  pose proof Hst as Hst0. apply stored_node in Hst0 as [_ Hsub].
  pose proof Hwf as Hwf0. apply wf_unfold in Hwf0 as [Hw Hws]. simpl in Hws.
  destruct (decide (o = OpCapture)) as [->|Hnc].
  { destruct sub as [|x [|]]; try done. apply Forall_cons in IH as [IHx _].
    apply Forall_cons in Hsub as [Hx _]. apply Forall_cons in Hws as [Hwx _].
    destruct (IHx h Hx Hwx) as (h1 & b & t' & E & (Hext & Hst' & Hwf' & Hnr & Heq) & Her & _).
    exists h1, true, t'. split.
    - eapply ev_S; [done|]. eapply ev_step; [exact Hd|]. simpl. rewrite Hl. simpl.
      eapply ev_step; [by eapply index_run; [exact Hs|]|].
      eapply ev_bind; [exact E|apply ev_ret].
    - split; [|by split]. split; [done|]. split; [done|]. split; [auto|]. split; [|done].
      intros [_ Hn]%norep_unfold. apply Forall_cons in Hn as [Hn _]. auto. }
  destruct (mapM_trees uncapture snd
    (λ t a t', (wf strict t → wf strict t') ∧ (norep t → norep t') ∧ tequiv t t' ∧
               erase t' = erase (strip t) ∧ (a.1 = false → t' = t)) sub h)
    as (h1 & l & ts' & E & Hps & Hx & Hts' & HQ); [|done|].
  { rewrite Forall_forall in *. intros t Ht h1 Hst1.
    destruct (IH t Ht h1 Hst1 (Hws t Ht)) as (h' & b & t' & E & (Hx & Hst' & Hwt & Hnt & Het) & Her & Hsame).
    exists h', (b, r_ptr t'), t'. by conjs. }
  assert (Hlen : length sub = length ts') by by apply Forall3_length_lr in HQ.
  assert (Hstep : ∀ h' b t', (if negb (existsb fst l) then mret (false, p)
      else sl' ← new_slice (l.*2); tmp ← new_node (with_Sub sl' (mkNode o f sl rn mn mx));
           mret (true, tmp)) h1 = (h', Ok (b, r_ptr t')) →
    eventually (λ fu, uncapture fu p) h h' (b, r_ptr t')).
  { intros h' b t' Hr. eapply ev_S; [done|]. eapply ev_step; [exact Hd|]. simpl.
    destruct (decide (o = OpCapture ∧ s_len sl = 1)) as [[? _]|_]; [done|].
    eapply ev_step; [by rewrite decide_False|].
    eapply ev_step; [unfold elems; simpl; by rewrite Hs|].
    eapply ev_bind; [exact E|]. by apply ev_run. }
  destruct (existsb fst l) eqn:Hch.
  - destruct (new_regexp_run o f ts' rn mn mx h1) as (h2 & q & E2 & Hx2 & Hst2 & _); [done|].
    exists h2, true, (Re q o f ts' rn mn mx). split; [apply Hstep; simpl|].
    { unfold new_regexp in E2. apply SE_bind_Ok in E2 as (h3 & sl' & E3 & E4).
      change (l.*2) with (map snd l). rewrite Hps, (SE_bind_run _ _ _ _ _ E3).
      unfold with_Sub. simpl. by rewrite (SE_bind_run _ _ _ _ _ E4). }
    split; [split; [by etrans|]; split; [done|]; split; [|split]|split; [|done]].
    + intros _. apply wf_unfold. split.
      * unfold wf_node in *. simpl in *. destruct o; try done; rewrite <- ?Hlen; try done;
          try (by destruct sub, ts'); destruct Hw; split; try done; by destruct sub, ts'.
      * simpl. apply Forall_forall. intros t' Ht'.
        eapply (Forall3_Forall2_13 _ (λ t t', (wf strict t → wf strict t') ∧ (norep t → norep t'))) in HQ; [|naive_solver].
        apply list_elem_of_lookup in Ht' as [i Hi].
        eapply Forall2_lookup_r in HQ as (t & Ht & Hwt & _); [|exact Hi].
        apply Hwt. rewrite Forall_forall in Hws. apply Hws, list_elem_of_lookup. eauto.
    + intros [Hno Hns]%norep_unfold. apply norep_unfold. split; [done|]. simpl in *.
      apply Forall_forall. intros t' Ht'.
      eapply (Forall3_Forall2_13 _ (λ t t', (wf strict t → wf strict t') ∧ (norep t → norep t'))) in HQ; [|naive_solver].
      apply list_elem_of_lookup in Ht' as [i Hi].
      eapply Forall2_lookup_r in HQ as (t & Ht & _ & Hnt); [|exact Hi].
      apply Hnt. rewrite Forall_forall in Hns. apply Hns, list_elem_of_lookup. eauto.
    + apply tequiv_sub. eapply Forall3_Forall2_13; [exact HQ|naive_solver].
    + rewrite strip_node by done. cbn [erase]. f_equal. rewrite map_map. symmetry.
      apply Forall2_map_eq. eapply Forall3_Forall2_13; [exact HQ|naive_solver].
  - exists h1, false, (Re p o f sub rn mn mx). split; [by apply Hstep|].
    split; [split; [done|]; split; [by eapply stored_ext|done]|]. split; [|done].
    rewrite strip_node by done. cbn [erase]. f_equal. rewrite map_map. clear -HQ Hch.
    induction HQ as [|x a x' sub l ts' Hx _ IH]; [done|]. simpl in *. apply orb_false_iff in Hch as [Ha Hch].
    destruct Hx as (_ & _ & _ & Her & Hs). specialize (Hs Ha). subst. rewrite Her, IH; done.
Qed.

(** ** Trimming *)
Definition nl_free (s : list Z) : Prop := Forall (λ c, c ≠ newline) s.

(** The same texts without line feeds match. *)
Definition sequiv t u : Prop := ∀ s, nl_free s → search s t ↔ search s u.

#[global] Instance sequiv_equiv : Equivalence sequiv.
Proof.
  split; [by intros ???|by intros ?? H0 s Hs; symmetry; apply H0|].
  intros ??? H0 H1 s Hs. by rewrite (H0 s Hs), (H1 s Hs).
Qed.

Lemma tequiv_sequiv t u : tequiv t u → sequiv t u.
Proof. intros Ht s _. by apply tequiv_search. Qed.

Lemma dotstar_refl s i : den s patDotStar i i.
Proof. exists 0. repeat split; lia. Qed.

Lemma dotstar_free s i j : nl_free s → i ≤ j → j ≤ length s → den s patDotStar i j.
Proof.
  intros Hs Hij Hj. exists (j - i). split; [lia|]. split; [by left|].
  remember (j - i) as n eqn:Hn. revert i Hij Hn.
  induction n as [|n IH]; intros i Hij Hn; simpl; [unfold rid; lia|].
  exists (S i). split; [|apply IH; lia]. split; [done|].
  destruct (lookup_lt_is_Some_2 s i) as [c Hc]; [lia|]. exists c. split; [done|].
  unfold nl_free in Hs. rewrite Forall_forall in Hs. apply Hs, list_elem_of_lookup. eauto.
Qed.

Lemma search_concat s p f sub rn mn mx :
  search s (Re p OpConcat f sub rn mn mx) ↔ ∃ i j, i ≤ length s ∧ rseq (map (den s) sub) i j.
Proof. done. Qed.

Lemma eqPrefix_star_inv p f sub rn mn mx o f' sub' rn' mn' mx' p' :
  o ≠ OpConcat →
  eqPrefixRegex (Re p OpConcat f sub rn mn mx) (Re p' o f' sub' rn' mn' mx') = true →
  ∃ x rest, sub = x :: rest ∧ tequiv x (Re p' o f' sub' rn' mn' mx').
Proof.
  intros Ho. unfold eqPrefixRegex. simpl. rewrite bool_decide_true by done. destruct sub as [|x rest]; [done|].
  intros Heq%eqRegex_tequiv. eauto.
Qed.

Lemma eqPrefix_two_inv p f sub rn mn mx a b :
  eqPrefixRegex (Re p OpConcat f sub rn mn mx) (concatPat [a; b]) = true →
  ∃ x y rest, sub = x :: y :: rest ∧ tequiv x a ∧ tequiv y b.
Proof.
  unfold eqPrefixRegex. simpl. case_bool_decide as Hlen; [done|]. destruct sub as [|x [|y rest]]; simpl in *; [lia..|].
  rewrite !andb_true_iff. intros (Hx & Hy & _). exists x, y, rest.
  split; [done|]. split; by apply eqRegex_tequiv.
Qed.

Lemma trimLeft_sound p f sub rn mn mx q :
  eqPrefixAnyRegex (Re p OpConcat f sub rn mn mx) [patDotStar; patNullBeginDotStar] = true →
  ∃ x rest, sub = x :: rest ∧
    sequiv (Re p OpConcat f sub rn mn mx) (Re q OpConcat f rest rn mn mx).
Proof.
  unfold eqPrefixAnyRegex. simpl. rewrite !orb_true_iff. intros [Hp|[Hp|]]; [..|done].
  - apply eqPrefix_star_inv in Hp as (x & rest & -> & Hx); [|done].
    exists x, rest. split; [done|]. intros s Hs. rewrite !search_concat. simpl. split.
    + intros (i & j & Hi & (k & Hik & Hkj)). exists k, j. split; [|done].
      by apply (den_bounded s x i k).
    + intros (i & j & Hi & Hij). exists i, j. split; [done|]. exists i. split; [|done].
      apply (Hx s). apply dotstar_refl.
  - apply eqPrefix_two_inv in Hp as (x & y & rest & -> & Hx & Hy).
    exists x, (y :: rest). split; [done|]. intros s Hs. rewrite !search_concat. simpl. split.
    + intros (i & j & Hi & (k & Hik & Hkj)). exists k, j. split; [|done].
      by apply (den_bounded s x i k).
    + intros (i & j & Hi & (k & Hik & Hkj)). exists 0, j. split; [lia|]. exists 0.
      split; [apply (Hx s); by split|]. exists k. split; [|done]. apply (Hy s).
      apply dotstar_free; [done|lia|]. by apply (den_bounded s y i k).
Qed.

Lemma eqSuffix_star_inv p f sub rn mn mx o f' sub' rn' mn' mx' p' :
  o ≠ OpConcat →
  eqSuffixRegex (Re p OpConcat f sub rn mn mx) (Re p' o f' sub' rn' mn' mx') = true →
  ∃ x rest, sub = rest ++ [x] ∧ tequiv x (Re p' o f' sub' rn' mn' mx').
Proof.
  intros Ho. unfold eqSuffixRegex. simpl. rewrite bool_decide_true by done. destruct (last sub) as [x|] eqn:Hl; [|done].
  apply last_Some in Hl as [rest ->]. intros Heq%eqRegex_tequiv. eauto.
Qed.

Lemma eqSuffix_two_inv p f sub rn mn mx a b :
  eqSuffixRegex (Re p OpConcat f sub rn mn mx) (concatPat [a; b]) = true →
  ∃ x y rest, sub = rest ++ [x; y] ∧ tequiv x a ∧ tequiv y b.
Proof.
  unfold eqSuffixRegex. simpl. case_bool_decide as Hlen; [done|].
  pose proof (take_drop (length sub - 2) sub) as Htd.
  assert (Hd : length (drop (length sub - 2) sub) = 2) by (rewrite length_drop; lia).
  destruct (drop (length sub - 2) sub) as [|x [|y [|]]]; try done. simpl.
  rewrite !andb_true_iff. intros (Hx & Hy & _). exists x, y, (take (length sub - 2) sub).
  split; [by symmetry|]. split; by apply eqRegex_tequiv.
Qed.

Lemma rseq_snoc l R : rseq (l ++ [R]) ≃ rcomp (rseq l) R.
Proof. rewrite rseq_app. simpl. by rewrite rcomp_id_r. Qed.

Lemma rseq_bounded s l i j :
  i ≤ length s → rseq (map (den s) l) i j → j ≤ length s.
Proof. intros Hi Hd. by apply (den_bounded s (Re 1 OpConcat 0 l [] 0 0) i j). Qed.

Lemma trimRight_sound p f sub rn mn mx q :
  eqSuffixAnyRegex (Re p OpConcat f sub rn mn mx) [patDotStar; patNullEndDotStar] = true →
  ∃ x rest, sub = rest ++ [x] ∧
    sequiv (Re p OpConcat f sub rn mn mx) (Re q OpConcat f rest rn mn mx).
Proof.
  unfold eqSuffixAnyRegex. simpl. rewrite !orb_true_iff. intros [Hp|[Hp|]]; [..|done].
  - apply eqSuffix_star_inv in Hp as (x & rest & -> & Hx); [|done].
    exists x, rest. split; [done|]. intros s Hs. rewrite !search_concat, map_app. simpl. split.
    + intros (i & j & Hi & (k & Hik & Hkj)%rseq_snoc). eauto.
    + intros (i & j & Hi & Hij). exists i, j. split; [done|]. apply rseq_snoc.
      exists j. split; [done|]. apply (Hx s), dotstar_refl.
  - apply eqSuffix_two_inv in Hp as (x & y & rest & -> & Hx & Hy).
    exists y, (rest ++ [x]). rewrite <- app_assoc. split; [done|]. intros s Hs.
    rewrite !search_concat, !map_app. simpl. split.
    + intros (i & j & Hi & Hd). apply rseq_app in Hd as (k & Hik & (l & Hkl & _)).
      exists i, l. split; [done|]. apply rseq_snoc. by exists k.
    + intros (i & j & Hi & (k & Hik & Hkj)%rseq_snoc).
      pose proof (rseq_bounded s rest i k Hi Hik).
      exists i, (length s). split; [done|]. apply rseq_app. exists k. split; [done|].
      exists (length s). split; [apply (Hx s), dotstar_free; done|]. exists (length s).
      split; [apply (Hy s); by split|done].
Qed.

(** Trimming may leave a concatenation without elements, which [unconcat]
    removes. *)
Definition empty_concat (strict : bool) t : Prop :=
  r_op t = OpConcat ∧ r_sub t = [] ∧ (strict = true → Z.land (r_flags t) FoldCase = 0%Z).
Definition wft (strict : bool) t : Prop := empty_concat strict t ∨ wf strict t.

Lemma wf_sub_concat strict p f sub rn mn mx q sub' :
  wft strict (Re p OpConcat f sub rn mn mx) → sub' ⊆ sub →
  wft strict (Re q OpConcat f sub' rn mn mx).
Proof.
  intros Hw Hs.
  assert (Hc : (strict = true → Z.land f FoldCase = 0%Z) ∧ Forall (wf strict) sub).
  { destruct Hw as [(_ & Hsub & Hf)|[[_ Hf] Hsub]%wf_unfold]; simpl in *; [subst|done].
    split; [done|constructor]. }
  destruct Hc as [Hf Hsub]. destruct sub' as [|x sub']; [by left|]. right.
  apply wf_unfold. split; [by split|]. rewrite Forall_forall in *. simpl. auto.
Qed.

Lemma norep_sub_concat p f sub rn mn mx q sub' :
  norep (Re p OpConcat f sub rn mn mx) → sub' ⊆ sub → norep (Re q OpConcat f sub' rn mn mx).
Proof.
  intros [_ Hn]%norep_unfold Hs. apply norep_unfold. split; [done|].
  simpl in *. rewrite Forall_forall in *. auto.
Qed.

Lemma elems_of_tail h sl : elems_of h (slice_tail sl) = tail (elems_of h sl).
Proof.
  unfold elems_of, slice_tail. simpl. set (a := default [] _). generalize a, (s_off sl), (s_len sl).
  clear. intros a o n. replace (S o) with (o + 1) by lia. rewrite <- drop_drop.
  destruct (drop o a); simpl; [by rewrite !take_nil|]. by destruct n.
Qed.

Lemma elems_of_to h sl n : n ≤ s_len sl → elems_of h (slice_to n sl) = take n (elems_of h sl).
Proof. intros. unfold elems_of, slice_to. simpl. rewrite take_take. by rewrite Nat.min_l. Qed.

(** A copy of a stored node with part of its children. *)
Lemma new_copy_run h p o f sub rn mn mx sl sl' sub' :
  stored h (Re p o f sub rn mn mx) → elems_of h sl' = map r_ptr sub' → s_len sl' = length sub' →
  sub' ⊆ sub →
  ∃ h' q, new_node (with_Sub sl' (mkNode o f sl rn mn mx)) h = (h', Ok q) ∧ ext h h' ∧
    stored h' (Re q o f sub' rn mn mx).
Proof.
  intros Hst He Hl Hsub. destruct (new_node_run (with_Sub sl' (mkNode o f sl rn mn mx)) h)
    as (h' & q & E & Hx & Hn & Ha & _).
  exists h', q. split; [done|]. split; [done|]. apply stored_node in Hst as [_ Hs].
  apply stored_node. split.
  - exists sl'. split; [done|]. split; [|done].
    rewrite elems_of_ext with h h' sl'; [done|done|]. by rewrite He, length_map.
  - rewrite Forall_forall in *. intros t Ht. eapply stored_ext; [exact Hx|]. auto.
Qed.

(** The outcome of a step at the top of the expression. *)
Definition trimmed (strict : bool) t h h' t' : Prop :=
  ext h h' ∧ stored h' t' ∧ wft strict t' ∧ norep t' ∧ sequiv t t'.

Lemma trimmed_refl strict t h : stored h t → wft strict t → norep t → trimmed strict t h h t.
Proof. intros. by unfold trimmed; conjs. Qed.

Lemma trimLeft_run strict t h : stored h t → wft strict t → norep t →
  ∃ h' b t', eventually (λ fu, trimLeft fu (r_ptr t)) h h' (b, r_ptr t') ∧ trimmed strict t h h' t' ∧
    if b : bool then r_op t = OpConcat ∧ r_op t' = OpConcat ∧ ∃ x, r_sub t = x :: r_sub t' else t' = t.
Proof.
  intros Hst Hwf Hnr. destruct (eqPrefixAnyRegex t [patDotStar; patNullBeginDotStar]) eqn:Hp.
  2: { exists h, false, t. split; [|split; [by apply trimmed_refl|done]].
       eapply ev_bind; [by apply load_run|]. rewrite Hp. apply ev_ret. }
  destruct t as [p o f sub rn mn mx].
  assert (o = OpConcat) as ->.
  { unfold eqPrefixAnyRegex, eqPrefixRegex in Hp. simpl in Hp.
    destruct (decide (o = OpConcat)) as [|Ho]; [done|].
    by rewrite !bool_decide_true in Hp by done. }
  destruct (deref_run _ _ _ _ _ _ _ _ Hst) as (sl & Hd & Hs & Hl).
  destruct (trimLeft_sound p f sub rn mn mx 1 Hp) as (x & rest & -> & _).
  destruct (new_copy_run h p OpConcat f (x :: rest) rn mn mx sl (slice_tail sl) rest)
    as (h' & q & E & Hx & Hst'); [done|by rewrite elems_of_tail, Hs|simpl; by rewrite Hl|set_solver|].
  destruct (trimLeft_sound p f (x :: rest) rn mn mx q Hp) as (? & ? & [= <- <-] & Hseq).
  exists h', true, (Re q OpConcat f rest rn mn mx). split.
  - eapply ev_bind; [by apply load_run|]. rewrite Hp. eapply ev_step; [exact Hd|].
    eapply ev_step; [exact E|]. apply ev_ret.
  - split; [|conjs; [done..|by exists x]]. unfold trimmed; conjs; [done|done| | |done].
    + eapply wf_sub_concat; [exact Hwf|set_solver].
    + eapply norep_sub_concat; [exact Hnr|set_solver].
Qed.

Lemma trimRight_run strict t h : stored h t → wft strict t → norep t →
  ∃ h' b t', eventually (λ fu, trimRight fu (r_ptr t)) h h' (b, r_ptr t') ∧ trimmed strict t h h' t' ∧
    if b : bool then r_op t = OpConcat ∧ r_op t' = OpConcat ∧ ∃ x, r_sub t = r_sub t' ++ [x] else t' = t.
Proof.
  intros Hst Hwf Hnr. destruct (eqSuffixAnyRegex t [patDotStar; patNullEndDotStar]) eqn:Hp.
  2: { exists h, false, t. split; [|split; [by apply trimmed_refl|done]].
       eapply ev_bind; [by apply load_run|]. rewrite Hp. apply ev_ret. }
  destruct t as [p o f sub rn mn mx].
  assert (o = OpConcat) as ->.
  { unfold eqSuffixAnyRegex, eqSuffixRegex in Hp. simpl in Hp.
    destruct (decide (o = OpConcat)) as [|Ho]; [done|].
    by rewrite !bool_decide_true in Hp by done. }
  destruct (deref_run _ _ _ _ _ _ _ _ Hst) as (sl & Hd & Hs & Hl).
  destruct (trimRight_sound p f sub rn mn mx 1 Hp) as (x & rest & -> & _).
  rewrite length_app in Hl. simpl in Hl.
  destruct (new_copy_run h p OpConcat f (rest ++ [x]) rn mn mx sl
    (slice_to (pred (s_len sl)) sl) rest) as (h' & q & E & Hx & Hst'); [done| |simpl; lia|set_solver|].
  { rewrite elems_of_to, Hs, map_app by lia. rewrite take_app_length'; [done|]. rewrite length_map. lia. }
  destruct (trimRight_sound p f (rest ++ [x]) rn mn mx q Hp) as (x' & rest' & Heq & Hseq).
  apply app_inj_tail in Heq as [<- <-].
  exists h', true, (Re q OpConcat f rest rn mn mx). split.
  - eapply ev_bind; [by apply load_run|]. rewrite Hp. eapply ev_step; [exact Hd|].
    eapply ev_step; [exact E|]. apply ev_ret.
  - split; [|conjs; [done..|by exists x]]. unfold trimmed; conjs; [done|done| | |done].
    + eapply wf_sub_concat; [exact Hwf|set_solver].
    + eapply norep_sub_concat; [exact Hnr|set_solver].
Qed.

(** ** [unconcat] *)
Lemma unconcat_run strict t h : stored h t → wft strict t → norep t →
  ∃ h' b t', unconcat (r_ptr t) h = (h', Ok (b, r_ptr t')) ∧ ext h h' ∧ stored h' t' ∧
    wf strict t' ∧ norep t' ∧ tequiv t t' ∧
    if b : bool then r_op t = OpConcat ∧ (r_sub t = [t'] ∨ (r_op t' = OpEmptyMatch ∧ r_sub t' = []))
    else t' = t ∧ (r_op t = OpConcat → 2 ≤ length (r_sub t)).
Proof.
  intros Hst Hwf Hnr. destruct t as [p o f sub rn mn mx].
  destruct (deref_run _ _ _ _ _ _ _ _ Hst) as (sl & Hd & Hs & Hl). simpl.
  unfold unconcat. rewrite (SE_bind_run _ _ _ _ _ Hd). simpl. rewrite Hl.
  pose proof Hnr as [Hno Hns]%norep_unfold. simpl in Hno, Hns.
  destruct (decide (o = OpConcat ∧ length sub ≤ 1)) as [[-> Hlen]|Hne].
  - destruct sub as [|x [|]]; [..|simpl in Hlen; lia]; simpl.
    + destruct (new_regexp_run OpEmptyMatch f [] [] 0 0 h) as (h' & q & E & Hx & Hst' & _); [constructor|].
      exists h', true, (Re q OpEmptyMatch f [] [] 0 0). conjs; [|done|done| | |done|done|by right].
      * simpl in E. by rewrite (SE_bind_run _ _ _ _ _ E).
      * apply wf_unfold. split; [done|constructor].
      * apply norep_unfold. split; [done|constructor].
    + exists h, true, x. apply stored_node in Hst as [_ Hsub].
      apply Forall_cons in Hsub as [Hx _]. apply Forall_cons in Hns as [Hn _].
      conjs; [|done|done| |done| |done|by left].
      * by rewrite (SE_bind_run _ _ _ _ _ (index_run _ _ _ 0 _ Hs eq_refl)).
      * destruct Hwf as [(_ & ? & _)|[_ Hws]%wf_unfold]; [done|].
        by apply Forall_cons in Hws as [? _].
      * intros s. simpl. apply rcomp_id_r.
  - rewrite decide_False by naive_solver. exists h, false, (Re p o f sub rn mn mx).
    conjs; try done.
    + destruct Hwf as [(Ho & Hsub & _)|]; [|done]. simpl in *. subst. exfalso. apply Hne. simpl. split; [done|lia].
    + intros ->. destruct (decide (2 ≤ length sub)); [done|]. destruct Hne. split; [done|lia].
Qed.

(** ** [concatRepetition] *)
Lemma isConcatRepetition_run t : r_sub t ≠ [] ∨ r_op t ≠ OpConcat → ∃ b, isConcatRepetition t = Ok b ∧
  (b = true → r_op t = OpConcat ∧ ∃ x rest, r_sub t = x :: rest ∧
    Forall (λ y, r_ptr y = r_ptr x) rest).
Proof.
  intros Hne. unfold isConcatRepetition. case_bool_decide as Ho; [by exists false|].
  destruct (decide (r_op t = OpConcat)) as [Ho'|]; [|done].
  destruct Hne as [Hne|]; [|done]. unfold sub_at. destruct (r_sub t) as [|x rest] eqn:Hs; [done|].
  simpl. eexists. split; [done|]. rewrite andb_true_iff. intros [_ Hall]. split; [done|].
  exists x, rest. split; [done|]. apply Forall_forall. intros y Hy.
  rewrite forallb_forall in Hall. specialize (Hall y). rewrite bool_decide_eq_true in Hall.
  apply Hall. by apply list_elem_of_In.
Qed.

Lemma is_rep_run h t b : stored h t → isConcatRepetition t = Ok b →
  eventually (λ fu, is_rep fu (r_ptr t)) h h b.
Proof. intros Hst Hb. eapply ev_bind; [by apply load_run|]. rewrite Hb. by apply ev_run. Qed.

Lemma eq_nodes_run h t u : stored h t → stored h u →
  eventually (λ fu, eq_nodes fu (r_ptr t) (r_ptr u)) h h (eqRegex t u).
Proof.
  intros. eapply ev_bind; [by apply load_run|]. eapply ev_bind; [by apply load_run|]. apply ev_ret.
Qed.

Lemma wf_concat_nonempty strict t : wf strict t → r_sub t ≠ [] ∨ r_op t ≠ OpConcat.
Proof.
  intros [Hw _]%wf_unfold. destruct (decide (r_op t = OpConcat)) as [Ho|]; [|by right].
  left. unfold wf_node in Hw. rewrite Ho in Hw. by destruct Hw.
Qed.

(** The outcome of merging two neighbours. *)
Definition merged (strict : bool) x y h h' (m : option positive) : Prop :=
  ext h h' ∧
  match m with
  | None => True
  | Some p => ∃ t', p = r_ptr t' ∧ stored h' t' ∧ wf strict t' ∧
      ∀ s, den s t' ≃ rcomp (den s x) (den s y)
  end.

Lemma merge_pair_run strict x y h :
  stored h x → stored h y → wf strict x → wf strict y → r_op x ≠ OpRepeat →
  ∃ h' m, eventually (λ fu, merge_pair fu (r_ptr x) (r_ptr y)) h h' m ∧ merged strict x y h h' m.
Proof.
  intros Hx Hy Hwx Hwy Hnr. destruct x as [p o f sub rn mn mx] eqn:Hxe.
  destruct (deref_run _ _ _ _ _ _ _ _ Hx) as (sl & Hd & Hs & Hl). rewrite <- Hxe in *.
  destruct (isConcatRepetition_run x) as (b & Hb & Hrep); [by eapply wf_concat_nonempty|].
  assert (Hgo : ∀ h' m,
    eventually (λ fu, rep2 ← (if b then (s0 ← index sl 0; eq_nodes fu s0 (r_ptr y)) else mret false);
      if (rep2 : bool) then
        rs ← elems sl; s0 ← index sl 0;
        q ← new_regexp OpConcat f (rs ++ [s0]) [] 0 0; mret (Some q)
      else
        same ← eq_nodes fu (r_ptr x) (r_ptr y);
        if (same : bool) then q ← new_regexp OpRepeat f [r_ptr x] [] 2 2; mret (Some q)
        else mret None) h h' m →
    eventually (λ fu, merge_pair fu (r_ptr x) (r_ptr y)) h h' m).
  { intros h' m Hm. rewrite Hxe in *. simpl. eapply ev_step; [exact Hd|]. simpl in *.
    destruct (decide (o = OpRepeat)) as [|_]; [done|]. eapply ev_bind; [apply ev_ret|]. simpl.
    eapply ev_bind; [exact (is_rep_run h (Re p o f sub rn mn mx) b Hx Hb)|]. exact Hm. }
  assert (Hthird : ∃ h' m, eventually (λ fu, same ← eq_nodes fu (r_ptr x) (r_ptr y);
      if (same : bool) then q ← new_regexp OpRepeat f [r_ptr x] [] 2 2; mret (Some q)
      else mret None) h h' m ∧ merged strict x y h h' m).
  { destruct (eqRegex x y) eqn:Heq.
    - destruct (new_regexp_run OpRepeat f [x] [] 2 2 h) as (h' & q & E & He & Hst & _); [by fl|].
      exists h', (Some q). split.
      + eapply ev_bind; [by apply eq_nodes_run|]. rewrite Heq.
        eapply ev_step; [exact E|]. apply ev_ret.
      + split; [done|]. exists (Re q OpRepeat f [x] [] 2 2). conjs; [done|done| |].
        * apply wf_unfold. split; [|by fl]. unfold wf_node. simpl. split; [done|lia].
        * intros s. simpl. change 2%Z with (Z.of_nat 2). rewrite rrep_exact. simpl.
          rewrite rcomp_id_r. apply rcomp_proper; [done|]. by apply eqRegex_tequiv.
    - exists h, None. split; [|by split].
      eapply ev_bind; [by apply eq_nodes_run|]. rewrite Heq. apply ev_ret. }
  destruct b.
  - destruct Hrep as (Ho & x0 & rest & Hsub & _); [done|]. rewrite Hxe in Ho, Hsub. simpl in Ho, Hsub.
    subst o sub. assert (Hx0 : stored h x0).
    { rewrite Hxe in Hx. apply stored_node in Hx as [_ Hx]. by apply Forall_cons in Hx as [? _]. }
    destruct (eqRegex x0 y) eqn:Heq.
    + assert (Hall : Forall (stored h) ((x0 :: rest) ++ [x0])).
      { apply Forall_app_2; [|by fl]. rewrite Hxe in Hx. by apply stored_node in Hx as [_ Hx]. }
      destruct (new_regexp_run OpConcat f ((x0 :: rest) ++ [x0]) [] 0 0 h)
        as (h' & q & E & He & Hst & _); [done|].
      exists h', (Some q). split.
      * apply Hgo. eapply ev_bind; [eapply ev_step; [by eapply index_run; [exact Hs|]|]; by apply eq_nodes_run|].
        rewrite Heq. eapply ev_step; [unfold elems; by rewrite Hs|].
        eapply ev_step; [by eapply index_run; [exact Hs|]|]. rewrite map_app in E.
        eapply ev_step; [exact E|]. apply ev_ret.
      * split; [done|]. exists (Re q OpConcat f ((x0 :: rest) ++ [x0]) [] 0 0). conjs; [done|done| |].
        -- rewrite Hxe in Hwx. apply wf_unfold in Hwx as [[_ Hf] Hws]. apply wf_unfold.
           split; [by split|]. simpl in *. apply Forall_cons in Hws as [Hw0 Hws].
           constructor; [done|]. apply Forall_app_2; [done|by fl].
        -- intros s. rewrite Hxe. simpl. rewrite map_app, rseq_app. simpl.
           rewrite rcomp_id_r, <- rcomp_assoc.
           apply rcomp_proper; [done|]. by apply eqRegex_tequiv.
    + destruct Hthird as (h' & m & E & Hm). exists h', m. split; [|done]. apply Hgo.
      eapply ev_bind; [eapply ev_step; [by eapply index_run; [exact Hs|]|]; by apply eq_nodes_run|].
      by rewrite Heq.
  - destruct Hthird as (h' & m & E & Hm). exists h', m. split; [|done]. apply Hgo.
    eapply ev_bind; [apply ev_ret|]. exact E.
Qed.

(** What the code appends after the loop: the last element, unless the last
    merge took it. *)
Definition closing (us cs : list Regexp) (lm : Z) : list Regexp :=
  if decide (lm + 1 ≠ Z.of_nat (length us))%Z then
    match last us with Some z => cs ++ [z] | None => cs end
  else cs.

(** Loop invariant: [cs] stands for the elements before [i]. *)
Lemma merge_loop_run strict us k : ∀ i cs lm ch h,
  Forall (stored h) us → Forall (wf strict) us → Forall (λ x, r_op x ≠ OpRepeat) us →
  Forall (stored h) cs → Forall (wf strict) cs →
  i ≤ length us → (lm < Z.of_nat i)%Z → (i = length us → lm + 1 = Z.of_nat (length us))%Z →
  length us - i < k →
  ∃ h' cs' lm' ch',
    eventually (λ fu, merge_loop k fu (map r_ptr us) i (S i) (map r_ptr cs) lm ch) h h'
      (map r_ptr cs', lm', ch') ∧
    ext h h' ∧ Forall (stored h') cs' ∧ Forall (wf strict) cs' ∧
    (cs ≠ [] ∨ i < length us → closing us cs' lm' ≠ []) ∧
    ∀ s, rseq (map (den s) (closing us cs' lm')) ≃
         rcomp (rseq (map (den s) cs)) (rseq (map (den s) (drop i us))).
Proof.
  induction k as [|k IH]; intros i cs lm ch h Hus Hwu Hnr Hcs Hwc Hi Hlm Hend Hk; [lia|].
  destruct (us !! i) as [x|] eqn:Hx; [destruct (us !! S i) as [y|] eqn:Hy|].
  - assert (Hx' := Hx). assert (Hy' := Hy).
    apply list_elem_of_lookup_2 in Hx', Hy'.
    rewrite Forall_forall in Hus, Hwu, Hnr.
    destruct (merge_pair_run strict x y h) as (h1 & m & E & He & Hm); [by auto..|].
    rewrite <- Forall_forall in Hus, Hwu, Hnr.
    pose proof (lookup_lt_Some _ _ _ Hy) as Hlt.
    rewrite (drop_S us x i Hx). rewrite (drop_S us y (S i) Hy).
    destruct m as [p|].
    + destruct Hm as (t' & -> & Hst' & Hwt' & Hden).
      destruct (IH (S (S i)) (cs ++ [t']) (Z.of_nat (S i)) true h1) as (h2 & cs' & lm' & ch' & E2 & He2 & Hcs' & Hwc' & Hne & Hd').
      1-3: first [by eapply stored_all_ext|done].
      { apply Forall_app_2; [by eapply stored_all_ext|by fl]. }
      { apply Forall_app_2; [done|by fl]. }
      1-4: lia.
      exists h2, cs', lm', ch'. conjs; [|by etrans|done|done|intros _; apply Hne; left; by destruct cs|].
      * simpl. rewrite !list_lookup_fmap, Hx, Hy. simpl.
        eapply ev_bind; [exact E|]. simpl. rewrite map_app in E2. exact E2.
      * intros s. rewrite Hd', map_app. cbn [map]. rewrite rseq_snoc. simpl. rewrite (Hden s).
        rewrite !rcomp_assoc. done.
    + destruct (IH (S i) (cs ++ [x]) lm ch h1) as (h2 & cs' & lm' & ch' & E2 & He2 & Hcs' & Hwc' & Hne & Hd').
      1-3: first [by eapply stored_all_ext|done].
      { apply Forall_app_2; [by eapply stored_all_ext|]. fl. eapply stored_ext; [exact He|].
        rewrite Forall_forall in Hus. auto. }
      { apply Forall_app_2; [done|]. fl. rewrite Forall_forall in Hwu. auto. }
      1-4: lia.
      exists h2, cs', lm', ch'. conjs; [|by etrans|done|done|intros _; apply Hne; left; by destruct cs|].
      * simpl. rewrite !list_lookup_fmap, Hx, Hy. simpl.
        eapply ev_bind; [exact E|]. simpl. rewrite map_app in E2. exact E2.
      * intros s. rewrite Hd', map_app. cbn [map]. rewrite rseq_snoc, (drop_S us y (S i) Hy). simpl.
        by rewrite !rcomp_assoc.
  - pose proof (lookup_lt_Some _ _ _ Hx). apply lookup_ge_None in Hy as Hy'.
    assert (Hcl : closing us cs lm = cs ++ [x]).
    { unfold closing. rewrite decide_True by lia. rewrite last_lookup.
      replace (pred (length us)) with i by lia. by rewrite Hx. }
    exists h, cs, lm, ch. rewrite Hcl. conjs; [|done|done|done|by destruct cs|].
    + simpl. rewrite !list_lookup_fmap, Hx, Hy. simpl. apply ev_ret.
    + intros s. rewrite map_app. cbn [map]. rewrite rseq_snoc, (drop_S us x i Hx), drop_ge by lia. simpl.
      by rewrite rcomp_id_r.
  - apply lookup_ge_None in Hx as Hx'.
    assert (Hcl : closing us cs lm = cs) by (unfold closing; by rewrite decide_False by lia).
    exists h, cs, lm, ch. rewrite Hcl. conjs; [|done|done|done|intros [|]; [done|lia]|].
    + simpl. rewrite !list_lookup_fmap, Hx. simpl. apply ev_ret.
    + intros s. rewrite drop_ge by lia. simpl. by rewrite rcomp_id_r.
Qed.

(** The outcome of [concatRepetition] and of [flattenRepetition]'s callers: an
    expression of the same meaning under the same operator. *)
Definition regrouped (strict : bool) t h h' t' : Prop :=
  ext h h' ∧ stored h' t' ∧ wf strict t' ∧ r_op t' = r_op t ∧ tequiv t t'.

Lemma concatRepetition_run strict t : ∀ h, stored h t → wf strict t → norep t →
  ∃ h' b t', eventually (λ fu, concatRepetition fu (r_ptr t)) h h' (b, r_ptr t') ∧
    regrouped strict t h h' t'.
Proof.
  induction t as [p o f sub rn mn mx IH] using Regexp_rect'. intros h Hst Hwf Hnr.
  set (t := Re p o f sub rn mn mx).
  destruct (deref_run _ _ _ _ _ _ _ _ Hst) as (sl & Hd & Hs & Hl).
  pose proof Hst as Hst0. apply stored_node in Hst0 as [_ Hsub].
  pose proof Hwf as Hwf0. apply wf_unfold in Hwf0 as [Hw Hws]. simpl in Hws.
  pose proof Hnr as [Hno Hns]%norep_unfold. simpl in Hno, Hns.
  destruct (decide (o ≠ OpConcat)) as [Ho|Ho].
  { exists h, false, t. split; [|by unfold regrouped; conjs].
    eapply ev_S; [done|]. eapply ev_step; [exact Hd|]. simpl.
    destruct (decide (o ≠ OpConcat)); [apply ev_ret|done]. }
  destruct (decide (o = OpConcat)) as [->|]; [|done].
  destruct (isConcatRepetition_run t) as (b & Hb & _); [by eapply wf_concat_nonempty|].
  assert (Hrep : eventually (λ fu, is_rep (S fu) p) h h b).
  { destruct (is_rep_run h t b Hst Hb) as [F HF]. exists F. intros fu Hfu. apply HF. lia. }
  destruct b.
  { exists h, false, t. split; [|by unfold regrouped; conjs].
    eapply ev_S; [done|]. eapply ev_step; [exact Hd|]. simpl.
    destruct (decide (OpConcat ≠ OpConcat)) as [|_]; [done|].
    eapply ev_bind; [exact Hrep|]. apply ev_ret. }
  destruct (mapM_trees concatRepetition snd
    (λ t a t', wf strict t' ∧ r_op t' = r_op t ∧ tequiv t t') sub h)
    as (h1 & l & us & E & Hps & Hx & Hus & HQ); [|done|].
  { rewrite Forall_forall in *. intros u Hu h1 Hst1.
    destruct (IH u Hu h1 Hst1 (Hws u Hu) (Hns u Hu)) as (h' & b & t' & E & He & Hst' & Hw' & Ho' & Heq).
    exists h', (b, r_ptr t'), t'. by conjs. }
  assert (Hlen : length sub = length us) by by apply Forall3_length_lr in HQ.
  assert (Hpos : 0 < length us).
  { rewrite <- Hlen. destruct Hw as [Hw _]. simpl in Hw. by destruct sub; [|simpl; lia]. }
  assert (Hwu : Forall (wf strict) us) by (eapply Forall3_Forall_3; [exact HQ|naive_solver]).
  assert (Heq : Forall2 tequiv sub us) by (eapply Forall3_Forall2_13; [exact HQ|naive_solver]).
  assert (Hno' : Forall (λ x, r_op x ≠ OpRepeat) us).
  { apply Forall3_Forall2_13 with (Q := λ t t', r_op t' = r_op t) in HQ; [|naive_solver].
    apply Forall_forall. intros u Hu. apply list_elem_of_lookup in Hu as [i Hi].
    eapply Forall2_lookup_r in HQ as (v & Hv & ->); [|exact Hi].
    rewrite Forall_forall in Hns. apply list_elem_of_lookup_2, Hns, norep_unfold in Hv. by destruct Hv. }
  destruct (merge_loop_run strict us (S (length us)) 0 [] (-1) (existsb fst l) h1)
    as (h2 & cs & lm & ch & E2 & He2 & Hcs & Hwc & Hne & Hden);
    [done|done|done|constructor|constructor|lia|lia|lia|lia|].
  assert (Hlast : ∃ z, last us = Some z) by (apply last_is_Some; intros ->; simpl in Hpos; lia).
  destruct Hlast as [z Hz]. assert (Hzin : z ∈ us) by by apply last_Some_elem_of.
  assert (Hcl : Forall (stored h2) (closing us cs lm) ∧ Forall (wf strict) (closing us cs lm)).
  { unfold closing. rewrite Hz. case_decide; [|done]. rewrite Forall_forall in Hus, Hwu.
    split; (apply Forall_app_2; [done|]; fl); [eapply stored_ext; [exact He2|]|]; auto. }
  destruct Hcl as [Hcls Hclw].
  destruct (new_regexp_run OpConcat f (closing us cs lm) [] 0 0 h2) as (h3 & q & E3 & He3 & Hst3 & _); [done|].
  assert (Hsem : ∀ s, rseq (map (den s) (closing us cs lm)) ≃ rseq (map (den s) sub)).
  { intros s. rewrite Hden, drop_0. simpl. rewrite rcomp_id_l. apply rseq_proper.
    clear -Heq. induction Heq as [|???? Hd]; simpl; constructor; [|done]. symmetry. apply Hd. }
  exists h3, ch, (Re q OpConcat f (closing us cs lm) [] 0 0). split.
  - eapply ev_S; [done|]. eapply ev_step; [exact Hd|]. simpl.
    destruct (decide (OpConcat ≠ OpConcat)) as [|_]; [done|].
    eapply ev_bind; [exact Hrep|]. eapply ev_step; [unfold elems; by rewrite Hs|].
    eapply ev_bind; [exact E|]. change (l.*2) with (map snd l). rewrite Hps, length_map.
    eapply ev_bind.
    { destruct E2 as [F HF]. exists F. intros fu Hfu. apply (HF (S fu)). lia. }
    simpl. eapply ev_step with (a := map r_ptr (closing us cs lm)).
    { unfold closing. destruct (decide (lm + 1 ≠ Z.of_nat (length us))%Z); [|done].
      change (last (map r_ptr us)) with (last (r_ptr <$> us)). rewrite fmap_last, Hz. simpl. by rewrite map_app. }
    eapply ev_step; [exact E3|]. apply ev_ret.
  - unfold regrouped; conjs; [etrans; [exact Hx|]; by etrans|done| |done|].
    + apply wf_unfold. split; [|done]. split; [|by destruct Hw].
      apply Hne. by right.
    + intros s. simpl. symmetry. apply Hsem.
Qed.
End facts.
