(* ===== verification/MatchFlatten.v ===== *)
(** * [flattenRepetition] and its writes to shared arrays

    [flattenRepetition] stores its results into the arrays of the expression it
    works on, which other nodes may share.  Addresses are given ranks that fall
    from a node to its children ([ranked]); a replacement never has a higher
    rank than what it replaces, so that a cell that is written is never below
    the value written to it.  [evolves]: the expression at every ranked address
    is replaced by one of the same meaning. *)
From S2P Require Import Prelude GoStrings GoUtf8 GoRegexp RegexpSem RegexpStore Match MatchFacts.

Open Scope list_scope.
Open Scope nat_scope.

Section flatten.
Context `{RegexpLib}.
Implicit Types (t u : Regexp) (h : rstore) (ρ : positive → nat).

Definition refine t t' : Prop := tequiv t t' ∧ ∀ strict, wf strict t → wf strict t'.

#[global] Instance refine_preorder : PreOrder refine.
Proof.
  split; [by intros t; split|].
  intros t1 t2 t3 (H1 & H2) (H3 & H4). split; [by etrans|auto].
Qed.

Lemma refine_sub p p' o f sub sub' rn mn mx :
  Forall2 refine sub sub' → refine (Re p o f sub rn mn mx) (Re p' o f sub' rn mn mx).
Proof.
  intros Hs. assert (Hlen : length sub = length sub') by by apply Forall2_length in Hs.
  split.
  - apply tequiv_sub. eapply Forall2_impl; [exact Hs|]. by intros ?? [? _].
  - intros strict [Hw Hws]%wf_unfold. apply wf_unfold. split.
    + destruct (decide (o = OpLiteral)) as [->|Ho].
      * destruct Hw as [Hsub Hr]. simpl in Hsub. subst. by destruct sub'.
      * by eapply wf_node_sub.
    + simpl in *. clear Hw Hlen. induction Hs as [|x y l k (_ & Hxy) _ IH]; [constructor|].
      apply Forall_cons in Hws as [? ?]. constructor; auto.
Qed.

(** ** Ranks *)
Definition rank ρ t : nat := ρ (r_ptr t).
Definition ranked ρ : Regexp → Prop := rall (λ t, Forall (λ u, rank ρ u < rank ρ t) (r_sub t)).

Lemma ranked_unfold ρ t :
  ranked ρ t ↔ Forall (λ u, rank ρ u < rank ρ t) (r_sub t) ∧ Forall (ranked ρ) (r_sub t).
Proof. apply rall_node. Qed.

Definition agree h ρ ρ' : Prop := ∀ p, is_Some (nodes h !! p) → ρ' p = ρ p.

Lemma stored_ptr h t : stored h t → is_Some (nodes h !! r_ptr t).
Proof. destruct t. rewrite stored_node. intros [(sl & Hn & _) _]. eauto. Qed.

Lemma ranked_agree h ρ ρ' t : stored h t → agree h ρ ρ' → ranked ρ t → ranked ρ' t.
Proof.
  intros Hst Ha. induction t as [p o f sub rn mn mx IH] using Regexp_rect'.
  rewrite !ranked_unfold. simpl. intros [Hr Hrs].
  pose proof (Ha p (stored_ptr _ _ Hst)) as Hp. apply stored_node in Hst as [_ Hsub].
  rewrite Forall_forall in IH, Hr, Hrs, Hsub. split; apply Forall_forall; intros u Hu; [|by auto].
  unfold rank in *. simpl in *. rewrite Hp, (Ha _ (stored_ptr _ _ (Hsub u Hu))). auto.
Qed.

Lemma agree_trans h h' ρ1 ρ2 ρ3 :
  nodes h ⊆ nodes h' → agree h ρ1 ρ2 → agree h' ρ2 ρ3 → agree h ρ1 ρ3.
Proof.
  intros Hn H12 H23 p [n Hp]. rewrite <- H12 by eauto. apply H23. exists n. by eapply lookup_weaken.
Qed.

Definition evolves ρ h ρ' h' : Prop :=
  nodes h ⊆ nodes h' ∧ agree h ρ ρ' ∧
  ∀ u, stored h u → ranked ρ u →
    ∃ u', stored h' u' ∧ r_ptr u' = r_ptr u ∧ refine u u' ∧ ranked ρ' u'.

Lemma evolves_refl ρ h : evolves ρ h ρ h.
Proof. split; [done|]. split; [by intros ??|]. intros u Hu Hr. by exists u. Qed.

Lemma evolves_trans ρ1 h1 ρ2 h2 ρ3 h3 :
  evolves ρ1 h1 ρ2 h2 → evolves ρ2 h2 ρ3 h3 → evolves ρ1 h1 ρ3 h3.
Proof.
  intros (Hn1 & Ha1 & H1) (Hn2 & Ha2 & H2). split; [by etrans|].
  split; [by eapply agree_trans|]. intros u Hu Hr.
  destruct (H1 u Hu Hr) as (u1 & Hu1 & Hp1 & Hr1 & Hk1).
  destruct (H2 u1 Hu1 Hk1) as (u2 & Hu2 & Hp2 & Hr2 & Hk2).
  exists u2. split; [done|]. split; [congruence|]. split; [by etrans|done].
Qed.

Lemma evolves_ext ρ h h' ρ' : ext h h' → agree h ρ ρ' → evolves ρ h ρ' h'.
Proof.
  intros Hx Ha. split; [apply Hx|]. split; [done|]. intros u Hu Hr. exists u.
  split; [by eapply stored_ext|]. split; [done|]. split; [done|]. by eapply ranked_agree.
Qed.

(** ** Cells of arrays *)
Definition cell h (a : positive) (j : nat) : option positive := arrays h !! a ≫= (.!! j).

(** Cells that hold an address of rank at least [k] are not written. *)
Definition frame ρ (k : nat) h h' : Prop :=
  ∀ a j q, cell h a j = Some q → is_Some (nodes h !! q) → k ≤ ρ q → cell h' a j = Some q.

Lemma elems_of_cell h sl i :
  elems_of h sl !! i = if decide (i < s_len sl) then cell h (s_arr sl) (s_off sl + i) else None.
Proof.
  unfold elems_of, cell. case_decide as Hi.
  - rewrite lookup_take_lt, lookup_drop by done. by destruct (arrays h !! s_arr sl).
  - by rewrite lookup_take_ge by lia.
Qed.

(** ** One write *)
Section write.
Context (ρ : positive → nat) (h : rstore) (sl : pslice) (i : nat) (x y : Regexp).
Hypothesis Hold : elems_of h sl !! i = Some (r_ptr x).
Hypothesis Hx : stored h x.
Hypothesis Hy : stored h y.
Hypothesis Hry : ranked ρ y.
Hypothesis Hxy : rank ρ y ≤ rank ρ x.

Definition written : rstore :=
  mkRStore (nodes h) (alter (λ a, <[s_off sl + i := r_ptr y]> a) (s_arr sl) (arrays h)).

Lemma set_index_run : set_index sl i (r_ptr y) h = (written, Ok tt).
Proof. unfold set_index. rewrite bool_decide_true; [done|]. by eapply lookup_lt_Some. Qed.

Lemma written_cell a j :
  cell written a j = if decide (a = s_arr sl ∧ j = s_off sl + i) then Some (r_ptr y) else cell h a j.
Proof.
  rewrite elems_of_cell in Hold. case_decide as Hi; [|done]. unfold cell in *. simpl.
  destruct (decide (a = s_arr sl)) as [->|Hne].
  - rewrite lookup_alter_eq. destruct (arrays h !! s_arr sl) as [l|]; simpl in *; [|done].
    case_decide as Hj.
    + destruct Hj as [_ ->]. apply list_lookup_insert_eq. by eapply lookup_lt_Some.
    + apply list_lookup_insert_ne. naive_solver.
  - rewrite lookup_alter_ne by done. rewrite decide_False; [done|naive_solver].
Qed.

Lemma written_length sl' : length (elems_of written sl') = length (elems_of h sl').
Proof.
  unfold elems_of. rewrite !length_take, !length_drop. simpl. f_equal. f_equal.
  destruct (decide (s_arr sl' = s_arr sl)) as [->|Hne].
  - rewrite lookup_alter_eq. destruct (arrays h !! s_arr sl); [|done]. simpl. apply length_insert.
  - by rewrite lookup_alter_ne by done.
Qed.

(** Every cell keeps its pointer or goes from [x] to [y]. *)
Definition cell_step (p q : positive) : Prop := q = p ∨ p = r_ptr x ∧ q = r_ptr y.

Lemma written_elems sl' : Forall2 cell_step (elems_of h sl') (elems_of written sl').
Proof.
  apply Forall2_same_length_lookup_2; [by rewrite written_length|].
  intros k p q Hp Hq. pose proof Hold as Ho. rewrite elems_of_cell in Ho, Hp, Hq.
  destruct (decide (k < s_len sl')) as [Hk|]; [|done].
  destruct (decide (i < s_len sl)) as [Hi|]; [|done].
  rewrite written_cell in Hq. case_decide as Hc; [|left; congruence].
  destruct Hc as [Ha Hj]. rewrite Ha, Hj in Hp. right. split; congruence.
Qed.

Lemma children_step (P : Regexp → Prop) (Q : Regexp → Regexp → Prop) sub ps :
  Forall2 cell_step (map r_ptr sub) ps → Forall (stored h) sub →
  (∀ u, u ∈ sub → ∃ u', r_ptr u' = r_ptr u ∧ P u' ∧ Q u u') →
  (x ∈ sub → ∃ u', r_ptr u' = r_ptr y ∧ P u' ∧ Q x u') →
  ∃ sub', map r_ptr sub' = ps ∧ Forall P sub' ∧ Forall2 Q sub sub'.
Proof.
  intros Hc Hst Hu Hxs. remember (map r_ptr sub) as ps0 eqn:Hps0. revert sub Hps0 Hst Hu Hxs.
  induction Hc as [|p q ps0 ps Hpq _ IH]; intros [|u sub] Hps0 Hst Hu Hxs; try done.
  { exists []. split; [done|]. split; constructor. }
  simpl in Hps0. injection Hps0 as -> ->. apply Forall_cons in Hst as [Hsu Hst].
  destruct (IH sub eq_refl Hst) as (sub' & Hm & HP & HQ);
    [intros; apply Hu; set_solver|intros; apply Hxs; set_solver|].
  assert (Hhd : ∃ u', r_ptr u' = q ∧ P u' ∧ Q u u').
  { destruct Hpq as [->|[Hp ->]]; [apply Hu; set_solver|].
    assert (u = x) as -> by (by eapply stored_inj). apply Hxs. set_solver. }
  destruct Hhd as (u' & Hq & HPu & HQu). exists (u' :: sub'). simpl. split; [congruence|].
  split; by constructor.
Qed.

(** An expression ranked no higher than [x] does not contain the cell. *)
Lemma written_low u : stored h u → ranked ρ u → rank ρ u ≤ rank ρ x → stored written u.
Proof.
  induction u as [p o f sub rn mn mx IH] using Regexp_rect'. intros Hu Hk Hle.
  apply ranked_unfold in Hk as [Hk Hks]. simpl in Hks.
  apply stored_node in Hu as [(slu & Hn & Hs & Hl) Hsub].
  destruct (children_step (stored written) eq sub (elems_of written slu)) as (sub' & Hm & HP & HQ);
    [rewrite <- Hs; apply written_elems|done| | |].
  - intros u Hin. exists u. split; [done|]. split; [|done]. rewrite Forall_forall in *.
    specialize (Hk u Hin). apply IH; [done|by auto|by auto|]. lia.
  - intros Hin. rewrite Forall_forall in Hk. specialize (Hk x Hin). lia.
  - assert (sub' = sub) as -> by (clear -HQ; induction HQ; congruence).
    apply stored_node. split; [|done]. exists slu. by rewrite Hm.
Qed.

Hypothesis Hrefine : refine x y.

Lemma written_evolves : evolves ρ h ρ written.
Proof.
  split; [done|]. split; [by intros ??|]. intros u Hu Hk.
  remember (rank ρ u) as n eqn:Hn. revert u Hn Hu Hk.
  induction (lt_wf n) as [n _ IH]. intros [p o f sub rn mn mx] -> Hu Hk.
  pose proof Hk as [Hk0 Hks]%ranked_unfold. simpl in Hks.
  pose proof Hu as Hu0. apply stored_node in Hu0 as [(slu & Hn & Hs & Hl) Hsub].
  rewrite Forall_forall in Hk0.
  destruct (children_step (λ u', stored written u' ∧ ranked ρ u') (λ u u', refine u u' ∧ rank ρ u' ≤ rank ρ u)
    sub (elems_of written slu)) as (sub' & Hm & HP & HQ);
    [rewrite <- Hs; apply written_elems|done| | |].
  - intros u Hin. rewrite Forall_forall in Hsub, Hks.
    destruct (IH (rank ρ u)) with u as (u' & Hst' & Hp' & Hr' & Hk'); [by apply (Hk0 u Hin)|done|auto..|].
    exists u'. conjs; [done..|]. unfold rank. by rewrite Hp'.
  - intros Hin. exists y. conjs; [done|by apply written_low|done..].
  - exists (Re p o f sub' rn mn mx). conjs; [|done| |].
    + apply stored_node. split; [|by eapply Forall_impl; [exact HP|]; intros ? []].
      exists slu. split; [done|]. split; [done|]. rewrite Hl. by apply Forall2_length in HQ.
    + apply refine_sub. eapply Forall2_impl; [exact HQ|]. by intros ?? [].
    + apply ranked_unfold. split; [|by eapply Forall_impl; [exact HP|]; intros ? []].
      simpl. apply Forall_forall. intros u' Hu'. apply list_elem_of_lookup in Hu' as [k Hk'].
      eapply Forall2_lookup_r in HQ as (u & Hu1 & _ & Hle); [|exact Hk'].
      apply list_elem_of_lookup_2, Hk0 in Hu1. unfold rank in *. simpl in *. lia.
Qed.

Lemma written_frame : frame ρ (S (rank ρ x)) h written.
Proof.
  intros a j q Hq _ Hle. rewrite written_cell. case_decide as Hc; [|done].
  destruct Hc as [-> ->]. pose proof Hold as Ho. rewrite elems_of_cell in Ho. case_decide; [|done].
  exfalso. assert (q = r_ptr x) as -> by congruence. unfold rank in Hle. lia.
Qed.
End write.

Lemma written_same h sl i y : elems_of h sl !! i = Some (r_ptr y) → written h sl i y = h.
Proof.
  intros Hi. unfold written. destruct h as [ns as_]. simpl. f_equal. apply alter_id.
  intros l Hl. apply list_insert_id. rewrite elems_of_cell in Hi. case_decide; [|done].
  unfold cell in Hi. simpl in Hi. by rewrite Hl in Hi.
Qed.

Lemma frame_mono ρ k k' h h' : k ≤ k' → frame ρ k h h' → frame ρ k' h h'.
Proof. intros Hk Hf a j q Hq Hs Hle. apply Hf; [done|done|lia]. Qed.

Lemma frame_trans ρ ρ' k h1 h2 h3 :
  nodes h1 ⊆ nodes h2 → agree h1 ρ ρ' → frame ρ k h1 h2 → frame ρ' k h2 h3 → frame ρ k h1 h3.
Proof.
  intros Hn Ha H12 H23 a j q Hq Hs Hle. apply H23; [by apply H12| |].
  - destruct Hs as [n Hs]. exists n. by eapply lookup_weaken.
  - by rewrite (Ha q Hs).
Qed.

Lemma frame_ext ρ k h h' : ext h h' → frame ρ k h h'.
Proof.
  intros [_ Ha] a j q Hq _ _. unfold cell in *. destruct (arrays h !! a) as [l|] eqn:E; [|done].
  by rewrite (lookup_weaken _ _ _ _ E Ha).
Qed.

(** The outcome of [flattenRepetition] on [t]: afterwards [t2] is stored at the
    address of [t], and [t'] is returned. *)
Definition flattened ρ t h ρ' h' t2 t' : Prop :=
  evolves ρ h ρ' h' ∧ frame ρ (rank ρ t) h h' ∧
  (stored h' t2 ∧ r_ptr t2 = r_ptr t ∧ refine t t2 ∧ ranked ρ' t2) ∧
  stored h' t' ∧ ranked ρ' t' ∧ rank ρ' t' ≤ rank ρ' t2 ∧ refine t2 t'.

Definition flattens ρ h t : Prop := stored h t → ranked ρ t → wf false t →
  ∃ ρ' h' b t2 t', eventually (λ fu, flattenRepetition fu (r_ptr t)) h h' (b, r_ptr t') ∧
    flattened ρ t h ρ' h' t2 t'.

Lemma flattened_refl ρ t h : stored h t → ranked ρ t → flattened ρ t h ρ h t t.
Proof.
  intros Hst Hr. unfold flattened. conjs; try done; [apply evolves_refl|].
  by intros a j q Hq _ _.
Qed.

(** One turn of the loop: the child [c] in cell [i] is flattened to [y], which
    takes its place. *)
Lemma flatten_turn ρ h sl i c :
  flattens ρ h c → stored h c → ranked ρ c → wf false c → elems_of h sl !! i = Some (r_ptr c) →
  ∃ ρ1 h1 b c2 y,
    eventually (λ fu, '(upd, tmp) ← flattenRepetition fu (r_ptr c);
                      set_index sl i tmp ≫= λ _, mret upd) h h1 b ∧
    evolves ρ h ρ1 h1 ∧ frame ρ (S (rank ρ c)) h h1 ∧
    (∀ a j q, (a ≠ s_arr sl ∨ j ≠ s_off sl + i) → cell h a j = Some q → is_Some (nodes h !! q) →
       rank ρ c ≤ ρ q → cell h1 a j = Some q) ∧
    (stored h1 c2 ∧ r_ptr c2 = r_ptr c ∧ ranked ρ1 c2) ∧
    stored h1 y ∧ ranked ρ1 y ∧ rank ρ1 y ≤ rank ρ1 c2 ∧ refine c2 y ∧ refine c y ∧
    elems_of h1 sl !! i = Some (r_ptr y).
Proof.
  intros Hfl Hc Hrc Hwc Hi.
  destruct (Hfl Hc Hrc Hwc) as (ρ1 & h1 & b & c2 & y & E & Hev & Hfr & (Hc2 & Hp2 & Hr2 & Hk2) & Hy & Hky & Hle & Hry).
  assert (Hlive : ∀ q, elems_of h sl !! i = Some q → is_Some (nodes h !! q) → rank ρ c ≤ ρ q →
    elems_of h1 sl !! i = Some q).
  { intros q Hq Hs Hk. rewrite elems_of_cell in *. case_decide; [|done]. by apply Hfr. }
  assert (Hi1 : elems_of h1 sl !! i = Some (r_ptr c2)).
  { rewrite Hp2. apply Hlive; [done|by apply stored_ptr|done]. }
  exists ρ1, (written h1 sl i y), b, c2, y. conjs.
  - eapply ev_bind; [exact E|]. simpl.
    eapply ev_step; [by eapply set_index_run|]. apply ev_ret.
  - eapply evolves_trans; [exact Hev|]. by eapply written_evolves.
  - eapply (frame_trans ρ ρ1 _ h h1); [apply Hev|apply Hev|eapply frame_mono; [|exact Hfr]; lia|].
    assert (rank ρ c = rank ρ1 c2) as ->.
    { unfold rank. rewrite Hp2. symmetry. apply Hev. by apply stored_ptr. }
    by eapply written_frame.
  - intros a j q Hj Hq Hs Hk. erewrite written_cell by exact Hi1.
    rewrite decide_False by naive_solver. by apply Hfr.
  - by eapply written_low.
  - done.
  - done.
  - by eapply written_low; [..|done|].
  - done.
  - done.
  - done.
  - by etrans.
  - rewrite elems_of_cell. erewrite written_cell by exact Hi1.
    rewrite elems_of_cell in Hi1. destruct (decide (i < s_len sl)); [|done]. by rewrite decide_True.
Qed.

(** The child of a stored node in a cell of its slice. *)
Lemma stored_child h p n t i :
  stored h t → r_ptr t = p → nodes h !! p = Some n → i < s_len (n_Sub n) →
  ∃ c, r_sub t !! i = Some c ∧ elems_of h (n_Sub n) !! i = Some (r_ptr c) ∧ stored h c.
Proof.
  destruct t as [q o f sub rn mn mx]. rewrite stored_node. simpl.
  intros [(sl & Hn & Hs & Hl) Hsub] -> Hn' Hi. rewrite Hn in Hn'. injection Hn' as <-. simpl in *.
  destruct (lookup_lt_is_Some_2 sub i) as [c Hc]; [lia|]. exists c. split; [done|].
  rewrite Hs, list_lookup_fmap, Hc. split; [done|]. rewrite Forall_forall in Hsub.
  apply Hsub, list_elem_of_lookup. eauto.
Qed.

(** The whole loop over some cells of the node at [p]. *)
Lemma flatten_loop_ok N idx : ∀ ρ h t n ch,
  (∀ ρ h u, rank ρ u < N → flattens ρ h u) →
  stored h t → ranked ρ t → wf false t → nodes h !! r_ptr t = Some n → rank ρ t = N →
  Forall (λ i, i < s_len (n_Sub n)) idx →
  ∃ ρ' h' ch' t',
    eventually (λ fu, flatten_loop (flattenRepetition fu) (n_Sub n) idx ch) h h' ch' ∧
    evolves ρ h ρ' h' ∧ frame ρ N h h' ∧
    stored h' t' ∧ r_ptr t' = r_ptr t ∧ refine t t' ∧ ranked ρ' t'.
Proof.
  induction idx as [|i idx IH]; intros ρ h t n ch HN Hst Hr Hw Hn HK Hidx.
  { exists ρ, h, ch, t. conjs; try done; [apply ev_ret|apply evolves_refl|]. by intros a j q Hq _ _. }
  apply Forall_cons in Hidx as [Hi Hidx].
  destruct (stored_child h (r_ptr t) n t i) as (c & Hc & Hci & Hsc); [done..|].
  pose proof Hr as [Hrk Hrs]%ranked_unfold. pose proof Hw as [_ Hws]%wf_unfold.
  rewrite Forall_forall in Hrk, Hrs, Hws. apply list_elem_of_lookup_2 in Hc as Hin.
  specialize (Hrk c Hin).
  destruct (flatten_turn ρ h (n_Sub n) i c) as (ρ1 & h1 & b & c2 & y & E & Hev & Hfr & _);
    [apply HN; lia|done|by auto|by auto|done|].
  destruct (proj2 (proj2 Hev) t Hst Hr) as (t1 & Hst1 & Hp1 & Hr1 & Hk1).
  assert (Hag : ρ1 (r_ptr t) = ρ (r_ptr t)) by (apply Hev; by apply stored_ptr).
  destruct (IH ρ1 h1 t1 n (ch || b) HN) as (ρ2 & h2 & ch2 & t2 & E2 & Hev2 & Hfr2 & Hst2 & Hp2 & Hr2 & Hk2);
    [done|done|by apply Hr1| | |done|].
  { rewrite Hp1. eapply lookup_weaken; [exact Hn|]. apply Hev. }
  { unfold rank in *. by rewrite Hp1, Hag. }
  exists ρ2, h2, ch2, t2. conjs.
  - destruct E as [F HF]. destruct E2 as [G HG]. exists (F `max` G). intros fu Hfu. simpl.
    unfold mbind at 1, SE_bind at 1. erewrite index_run; [|done|exact Hci].
    specialize (HF fu ltac:(lia)). unfold mbind, SE_bind in HF |- *.
    destruct (flattenRepetition fu (r_ptr c) h) as [h' [[upd tmp]| | |]]; [|done..].
    destruct (set_index (n_Sub n) i tmp h') as [h'' [[]| | |]]; [|done..].
    unfold mret, SE_ret in HF. injection HF as -> ->. apply HG. lia.
  - by eapply evolves_trans.
  - eapply (frame_trans ρ ρ1 _ h h1); [apply Hev|apply Hev| |done].
    eapply frame_mono; [|exact Hfr]. lia.
  - done.
  - congruence.
  - by etrans.
  - done.
Qed.

(** [for i := range r.Sub { tmp.Sub[i] = sub[0] }] once [sub[0]] holds [y] and
    the other cells hold [y] or what it replaces. *)
Lemma fill_run idx : ∀ ρ h sl x y,
  stored h x → ranked ρ x → stored h y → ranked ρ y → rank ρ y ≤ rank ρ x → refine x y →
  (∀ j q, elems_of h sl !! j = Some q → q = r_ptr y ∨ q = r_ptr x) →
  elems_of h sl !! 0 = Some (r_ptr y) → Forall (λ i, i < length (elems_of h sl)) idx →
  ∃ h', foreach idx (λ i, s0 ← index (slice_to 1 sl) 0; set_index sl i s0) h = (h', Ok tt) ∧
    evolves ρ h ρ h' ∧ frame ρ (S (rank ρ x)) h h'.
Proof.
  induction idx as [|i idx IH]; intros ρ h sl x y Hx Hkx Hy Hky Hle Hxy Hcells H0 Hidx.
  { exists h. conjs; [done|apply evolves_refl|]. by intros a j q Hq _ _. }
  apply Forall_cons in Hidx as [Hi Hidx]. simpl.
  assert (Hidx0 : index (slice_to 1 sl) 0 h = (h, Ok (r_ptr y))).
  { eapply index_run; [done|]. rewrite elems_of_cell in H0 |- *. simpl.
    by destruct (decide (0 < s_len sl)). }
  destruct (lookup_lt_is_Some_2 (elems_of h sl) i Hi) as [q Hq].
  assert (Hstep : ∃ h1, set_index sl i (r_ptr y) h = (h1, Ok tt) ∧ evolves ρ h ρ h1 ∧
    frame ρ (S (rank ρ x)) h h1 ∧ stored h1 x ∧ stored h1 y ∧
    (∀ j q, elems_of h1 sl !! j = Some q → q = r_ptr y ∨ q = r_ptr x) ∧
    elems_of h1 sl !! 0 = Some (r_ptr y) ∧ length (elems_of h1 sl) = length (elems_of h sl)).
  { destruct (Hcells i q Hq) as [->| ->].
    - exists h. conjs; try done; [|apply evolves_refl|by intros a j q0 Hq0 _ _].
      erewrite set_index_run by exact Hq. by rewrite written_same.
    - exists (written h sl i y). conjs.
      + by eapply set_index_run.
      + by eapply written_evolves.
      + by eapply written_frame.
      + by eapply written_low.
      + by eapply written_low; [..|done|].
      + intros j q0 Hq0. rewrite elems_of_cell in Hq0. case_decide; [|done].
        erewrite written_cell in Hq0 by exact Hq. case_decide; [left; congruence|].
        apply (Hcells j). rewrite elems_of_cell. by rewrite decide_True.
      + rewrite elems_of_cell in H0 |- *. case_decide; [|done].
        erewrite written_cell by exact Hq. by case_decide.
      + apply written_length. }
  destruct Hstep as (h1 & E1 & Hev1 & Hfr1 & Hx1 & Hy1 & Hc1 & H01 & Hlen1).
  destruct (IH ρ h1 sl x y) as (h2 & E2 & Hev2 & Hfr2); [done..| |].
  { eapply Forall_impl; [exact Hidx|]. intros j Hj. by rewrite Hlen1. }
  exists h2. conjs.
  - unfold mbind, SE_bind. rewrite Hidx0, E1. done.
  - by eapply evolves_trans.
  - eapply (frame_trans ρ ρ _ h h1); [apply Hev1|by intros ??|done|done].
Qed.

(** [tmp := *r] *)
Lemma new_shallow_run ρ h t n :
  stored h t → ranked ρ t → nodes h !! r_ptr t = Some n →
  ∃ h' q ρ', new_node n h = (h', Ok q) ∧ ext h h' ∧ agree h ρ ρ' ∧ ρ' q = ρ (r_ptr t) ∧
    nodes h' !! q = Some n ∧ nodes h !! q = None.
Proof.
  intros Hst Hr Hn. destruct (new_node_run n h) as (h' & q & E & Hx & Hn' & _ & Hf).
  exists h', q, (λ p, if decide (p = q) then ρ (r_ptr t) else ρ p). conjs; try done.
  - intros p [m Hp]. rewrite decide_False; [done|]. intros ->. congruence.
  - by rewrite decide_True.
Qed.

(** A node with the fields of a stored one is stored with the same children. *)
Lemma stored_copy h t n q :
  stored h t → nodes h !! r_ptr t = Some n → nodes h !! q = Some n →
  let 'Re _ o f sub rn mn mx := t in stored h (Re q o f sub rn mn mx).
Proof.
  destruct t as [p o f sub rn mn mx]. rewrite stored_node. intros [(sl & Hp & Hs & Hl) Hsub] Hn Hq.
  simpl in Hn. rewrite Hp in Hn. injection Hn as <-. apply stored_node. split; [|done]. by exists sl.
Qed.

Lemma flattened_copy ρ t h ρ1 h1 t2 n q :
  evolves ρ h ρ1 h1 → frame ρ (rank ρ t) h h1 →
  stored h1 t2 → r_ptr t2 = r_ptr t → refine t t2 → ranked ρ1 t2 →
  nodes h1 !! r_ptr t = Some n → nodes h1 !! q = Some n → ρ1 q = ρ1 (r_ptr t) →
  ∃ t', r_ptr t' = q ∧ flattened ρ t h ρ1 h1 t2 t'.
Proof.
  intros Hev Hfr Hst Hp Hr Hk Hn Hq Hρ. pose proof (stored_copy h1 t2 n q Hst) as Hcopy.
  rewrite Hp in Hcopy. specialize (Hcopy Hn Hq).
  destruct t2 as [p o f sub rn mn mx]. exists (Re q o f sub rn mn mx). simpl in Hp. subst p.
  split; [done|]. unfold flattened. conjs; try done.
  - apply ranked_unfold. apply ranked_unfold in Hk as [Hk Hks]. split; [|done].
    unfold rank in *. simpl in *. by rewrite Hρ.
  - unfold rank. simpl. lia.
Qed.

Lemma same_children h x rest :
  Forall (stored h) (x :: rest) → Forall (λ y, r_ptr y = r_ptr x) rest →
  x :: rest = replicate (length (x :: rest)) x.
Proof.
  intros Hst Hp. simpl. f_equal. apply Forall_cons in Hst as [Hx Hst].
  induction rest as [|y rest IH]; [done|]. apply Forall_cons in Hst as [Hy Hst].
  apply Forall_cons in Hp as [Hpy Hp]. simpl. f_equal; [by eapply stored_inj|by apply IH].
Qed.

(** A repetition of a repetition becomes one repetition with the product of the
    counts. *)
Lemma flatten_nested ρ h p f sub rn mn mx x :
  stored h (Re p OpConcat f sub rn mn mx) → ranked ρ (Re p OpConcat f sub rn mn mx) →
  (∃ rest, sub = x :: rest ∧ Forall (λ y, r_ptr y = r_ptr x) rest) →
  r_op x = OpConcat → (∃ x0 rest, r_sub x = x0 :: rest ∧ Forall (λ y, r_ptr y = r_ptr x0) rest) →
  ∀ nx, nodes h !! r_ptr x = Some nx →
  let count := (Z.of_nat (s_len (n_Sub nx)) * Z.of_nat (length sub))%Z in
  ∃ h' q ρ' t', new_node (mkNode OpRepeat (Z.lor f (n_Flags nx)) (slice_to 1 (n_Sub nx)) [] count count) h =
      (h', Ok q) ∧ r_ptr t' = q ∧
    flattened ρ (Re p OpConcat f sub rn mn mx) h ρ' h' (Re p OpConcat f sub rn mn mx) t'.
Proof.
  intros Hst Hr (rest & Hsub & Hsame) Hox (x0 & rest0 & Hsubx & Hsame0) nx Hnx count.
  set (t := Re p OpConcat f sub rn mn mx) in *.
  pose proof Hst as Hst0. apply stored_node in Hst0 as [_ Hsubs].
  assert (Hx : stored h x) by (rewrite Hsub in Hsubs; by apply Forall_cons in Hsubs as [? _]).
  pose proof Hr as [Hk Hks]%ranked_unfold. simpl in Hk, Hks.
  assert (Hkx : rank ρ x < rank ρ t ∧ ranked ρ x)
    by (rewrite Hsub in Hk, Hks; apply Forall_cons in Hk as [? _]; by apply Forall_cons in Hks as [? _]).
  destruct Hkx as [Hltx Hkx].
  destruct x as [px ox fx subx rnx mnx mxx]. simpl in Hox, Hsubx, Hnx. subst ox.
  pose proof Hx as Hx0. apply stored_node in Hx0 as [(slx & Hnx' & Hsx & Hlx) Hsubsx].
  rewrite Hnx' in Hnx. injection Hnx as <-. simpl in *.
  assert (Hx0 : stored h x0) by (rewrite Hsubx in Hsubsx; by apply Forall_cons in Hsubsx as [? _]).
  pose proof Hkx as [Hkx0 Hksx]%ranked_unfold. simpl in Hkx0, Hksx.
  assert (Hk0 : rank ρ x0 < ρ px ∧ ranked ρ x0)
    by (rewrite Hsubx in Hkx0, Hksx; apply Forall_cons in Hkx0 as [? _]; by apply Forall_cons in Hksx as [? _]).
  destruct Hk0 as [Hlt0 Hk0].
  destruct (new_node_run (mkNode OpRepeat (Z.lor f fx) (slice_to 1 slx) [] count count) h)
    as (h' & q & E & Hext & Hnq & _ & Hfresh).
  pose (ρ' := λ r, if decide (r = q) then ρ p else ρ r).
  assert (Hag : agree h ρ ρ').
  { intros r [m Hm]. unfold ρ'. rewrite decide_False; [done|]. intros ->. congruence. }
  exists h', q, ρ', (Re q OpRepeat (Z.lor f fx) [x0] [] count count). split; [done|]. split; [done|].
  assert (Hlen : 1 <= s_len slx) by (rewrite Hlx, Hsubx; simpl; lia).
  unfold flattened. conjs.
  - by apply evolves_ext.
  - by apply frame_ext.
  - by eapply stored_ext.
  - done.
  - done.
  - by eapply ranked_agree.
  - apply stored_node. split.
    + exists (slice_to 1 slx). conjs; [done| |done].
      rewrite elems_of_ext with h h' _; [|done|].
      * rewrite elems_of_to by lia. rewrite Hsx, Hsubx. simpl. by rewrite take_0.
      * rewrite elems_of_to by lia. rewrite length_take, Hsx, length_map, <- Hlx. cbn [s_len slice_to]. lia.
    + fl. by eapply stored_ext.
  - apply ranked_unfold. simpl. split; [|fl; by eapply ranked_agree].
    assert (r_ptr x0 ≠ q).
    { intros Heq. apply stored_ptr in Hx0. rewrite Heq, Hfresh in Hx0. by destruct Hx0. }
    fl. unfold rank, ρ' in *. simpl in *. repeat case_decide; (done || lia).
  - unfold rank, ρ'. simpl. repeat case_decide; (done || lia).
  - assert (Hc : count = Z.of_nat (length sub * length subx)) by (unfold count; rewrite Hlx; lia).
    assert (Hrepl : sub = replicate (length sub) (Re px OpConcat fx subx rnx mnx mxx)).
    { rewrite Hsub in Hsubs |- *. by eapply same_children. }
    assert (Hrepl0 : subx = replicate (length subx) x0).
    { rewrite Hsubx in Hsubsx |- *. by eapply same_children. }
    split.
    + intros s. rewrite Hc. cbn [den map op_den]. rewrite rrep_exact.
      unfold t. cbn [den op_den rhead map]. rewrite Hrepl at 1.
      rewrite map_replicate, rseq_replicate. cbn [den op_den].
      rewrite Hrepl0 at 1. rewrite map_replicate, rseq_replicate. apply rpow_mul.
    + intros strict [_ Hws]%wf_unfold. simpl in Hws. apply wf_unfold. split.
      * unfold wf_node. simpl. split; [done|]. lia.
      * simpl. fl. rewrite Hsub in Hws. apply Forall_cons in Hws as [Hwx _].
        apply wf_unfold in Hwx as [_ Hwx]. simpl in Hwx. rewrite Hsubx in Hwx.
        by apply Forall_cons in Hwx as [? _].
Qed.

(** After the loop: unchanged, or a copy of the node over the same array. *)
Lemma flatten_finish ρ h t n ρ1 h1 t1 (changed : bool) (fill : RX unit) h2 :
  stored h t → nodes h !! r_ptr t = Some n →
  evolves ρ h ρ1 h1 → frame ρ (rank ρ t) h h1 →
  stored h1 t1 → r_ptr t1 = r_ptr t → refine t t1 → ranked ρ1 t1 →
  (changed = false → h2 = h1) →
  (changed = true → ∀ h1' ρ2, ext h1 h1' → agree h1 ρ1 ρ2 → ∃ h2, fill h1' = (h2, Ok tt) ∧
     evolves ρ2 h1' ρ2 h2 ∧ frame ρ2 (rank ρ t) h1' h2) →
  ∃ ρ' h' t2 t', (if negb changed then mret (false, r_ptr t)
      else tmp ← new_node n; fill ≫= λ _, mret (true, tmp)) h1 = (h', Ok (changed, r_ptr t')) ∧
    flattened ρ t h ρ' h' t2 t'.
Proof.
  intros Hst Hn Hev Hfr Hst1 Hp1 Hr1 Hk1 _ Hfill.
  assert (Hn1 : nodes h1 !! r_ptr t = Some n) by (eapply lookup_weaken; [exact Hn|apply Hev]).
  destruct changed.
  - simpl. destruct (new_shallow_run ρ1 h1 t1 n) as (h1' & q & ρ2 & E & Hx & Hag & Hρ & Hq & Hf);
      [done|done|by rewrite Hp1|].
    destruct (Hfill eq_refl h1' ρ2 Hx Hag) as (h3 & E3 & Hev3 & Hfr3).
    pose proof (evolves_ext ρ1 h1 h1' ρ2 Hx Hag) as Hev2.
    destruct (proj2 (proj2 Hev3) t1) as (t3 & Hst3 & Hp3 & Hr3 & Hk3);
      [by eapply stored_ext|by eapply ranked_agree|].
    destruct (flattened_copy ρ t h ρ2 h3 t3 n q) as (t' & Ht' & Hfl).
    + eapply evolves_trans; [exact Hev|]. by eapply evolves_trans.
    + eapply (frame_trans ρ ρ1 _ h h1); [apply Hev|apply Hev|done|].
      eapply (frame_trans ρ1 ρ2 _ h1 h1'); [apply Hx|done|by apply frame_ext|done].
    + done.
    + congruence.
    + by etrans.
    + done.
    + eapply lookup_weaken; [|apply Hev3]. eapply lookup_weaken; [exact Hn1|apply Hx].
    + eapply lookup_weaken; [exact Hq|apply Hev3].
    + rewrite Hρ, Hp1. symmetry. apply Hag. eauto.
    + exists ρ2, h3, t3, t'. split; [|done].
      rewrite (SE_bind_run _ _ _ _ _ E), (SE_bind_run _ _ _ _ _ E3). by rewrite Ht'.
  - simpl. exists ρ1, h1, t1, t1. rewrite Hp1. split; [done|].
    unfold flattened. by conjs.
Qed.

(** ** A concatenation, by what its elements are *)
Section concat.
Context (ρ : positive → nat) (h : rstore) (p : positive) (f : Z) (sub : list Regexp)
        (rn : list Z) (mn mx : Z) (sl : pslice).
Let t : Regexp := Re p OpConcat f sub rn mn mx.
Let n := mkNode OpConcat f sl rn mn mx.
Hypothesis Hst : stored h t.
Hypothesis Hr : ranked ρ t.
Hypothesis Hw : wf false t.
Hypothesis Hd : deref p h = (h, Ok n).
Hypothesis Hs : elems_of h sl = map r_ptr sub.
Hypothesis Hl : s_len sl = length sub.
Hypothesis Hbelow : ∀ ρ' h' u, rank ρ' u < rank ρ t → flattens ρ' h' u.

Definition flat_result : Prop :=
  ∃ ρ' h' b t2 t', eventually (λ fu, flattenRepetition fu p) h h' (b, r_ptr t') ∧
    flattened ρ t h ρ' h' t2 t'.

Lemma concat_node : nodes h !! p = Some n.
Proof. pose proof Hd as Hd'. unfold deref in Hd'. destruct (nodes h !! p); [|done]. by injection Hd' as ->. Qed.

(** The elements differ: each is flattened in its place. *)
Lemma flatten_other : eventually (λ fu, is_rep (S fu) p) h h false → flat_result.
Proof.
  intros Hisrep.
  destruct (flatten_loop_ok (rank ρ t) (seq 0 (s_len sl)) ρ h t n false) as
    (ρ1 & h1 & ch & t1 & E & Hev & Hfr & Hst1 & Hp1 & Hr1 & Hk1); [done..|apply concat_node|done| |].
  { apply Forall_seq. simpl. lia. }
  destruct (flatten_finish ρ h t n ρ1 h1 t1 ch (mret tt) h1) as (ρ2 & h2 & t2 & t' & E2 & Hfl);
    [done|apply concat_node|done..| |].
  { intros _ h1' ρ2 Hx Hag. exists h1'. conjs; [done|apply evolves_refl|]. by intros a j q Hq _ _. }
  exists ρ2, h2, ch, t2, t'. split; [|done].
  eapply ev_S; [done|]. eapply ev_step; [exact Hd|]. simpl.
  destruct (decide (OpConcat ≠ OpConcat)) as [|_]; [done|].
  eapply ev_bind; [exact Hisrep|]. eapply ev_bind; [apply ev_ret|]. simpl.
  eapply ev_bind; [exact E|]. by apply ev_run.
Qed.

(** A repetition of one element. *)
Context (x : Regexp) (rest : list Regexp).
Hypothesis Hsub : sub = x :: rest.
Hypothesis Hsame : Forall (λ y, r_ptr y = r_ptr x) rest.
Hypothesis Hisrep : eventually (λ fu, is_rep (S fu) p) h h true.

Lemma head_facts : stored h x ∧ rank ρ x < rank ρ t ∧ ranked ρ x ∧ wf false x.
Proof.
  pose proof Hst as [_ Hss]%stored_node. pose proof Hr as [Hk Hks]%ranked_unfold. pose proof Hw as [_ Hws]%wf_unfold.
  simpl in Hk, Hks, Hws. rewrite Hsub in Hss, Hk, Hks, Hws.
  apply Forall_cons in Hss as [? _]. apply Forall_cons in Hk as [? _].
  apply Forall_cons in Hks as [? _]. by apply Forall_cons in Hws as [? _].
Qed.

Lemma head_cell : elems_of h (slice_to 1 sl) !! 0 = Some (r_ptr x).
Proof. rewrite elems_of_to by (rewrite Hl, Hsub; simpl; lia). by rewrite Hs, Hsub. Qed.

(** The element is a repetition itself: the two are multiplied. *)
Lemma flatten_doubled x0 rest0 :
  r_op x = OpConcat → r_sub x = x0 :: rest0 → Forall (λ y, r_ptr y = r_ptr x0) rest0 →
  eventually (λ fu, is_rep (S fu) (r_ptr x)) h h true → flat_result.
Proof.
  intros Hox Hsubx Hsame0 Hisrep2. destruct head_facts as [Hx _].
  destruct (stored_ptr _ _ Hx) as [nx Hnx].
  destruct (flatten_nested ρ h p f sub rn mn mx x) with nx as (h' & q & ρ' & t' & E & Ht' & Hfl);
    [done|done|by eauto|done|by eauto|done|].
  exists ρ', h', true, t, t'. split; [|done]. rewrite Ht'. pose proof head_cell as Hi0.
  eapply ev_S; [done|]. eapply ev_step; [exact Hd|]. simpl.
  destruct (decide (OpConcat ≠ OpConcat)) as [|_]; [done|].
  eapply ev_bind; [exact Hisrep|].
  eapply ev_bind; [eapply ev_step; [by eapply index_run|exact Hisrep2]|].
  eapply ev_step; [by eapply index_run|].
  eapply ev_step; [unfold deref; by rewrite Hnx|]. rewrite Hl.
  eapply ev_step; [exact E|]. apply ev_ret.
Qed.

(** After the first element was replaced by [y], the cells hold it or the old one. *)
Lemma cells_after h1 y :
  (∀ a j q, (a ≠ s_arr (slice_to 1 sl) ∨ j ≠ s_off (slice_to 1 sl) + 0) → cell h a j = Some q →
     is_Some (nodes h !! q) → rank ρ x ≤ ρ q → cell h1 a j = Some q) →
  elems_of h1 (slice_to 1 sl) !! 0 = Some (r_ptr y) →
  ∀ j q, elems_of h1 sl !! j = Some q → q = r_ptr y ∨ q = r_ptr x.
Proof.
  intros Hfr' H0 j q Hq. destruct head_facts as [Hx _]. destruct (decide (j = 0)) as [->|Hj].
  { rewrite elems_of_cell in Hq, H0. simpl in H0. case_decide; [|done]. left. congruence. }
  right. assert (Hjlt : j < length sub) by (rewrite elems_of_cell in Hq; case_decide; [lia|done]).
  assert (Hq0 : elems_of h sl !! j = Some (r_ptr x)).
  { rewrite Hs, Hsub. rewrite Hsub in Hjlt. rewrite list_lookup_fmap.
    destruct (lookup_lt_is_Some_2 (x :: rest) j Hjlt) as [z Hz]. rewrite Hz. simpl.
    f_equal. destruct j as [|j]; [done|]. simpl in Hz. rewrite Forall_forall in Hsame.
    apply Hsame, list_elem_of_lookup. eauto. }
  assert (Hq1 : elems_of h1 sl !! j = Some (r_ptr x)); [|congruence].
  rewrite elems_of_cell in Hq0 |- *. case_decide; [|done].
  apply Hfr'; [right; simpl; lia|done|by apply stored_ptr|done].
Qed.

Lemma length_after h1 t1 :
  nodes h ⊆ nodes h1 → stored h1 t1 → r_ptr t1 = p → length (elems_of h1 sl) = length sub.
Proof.
  intros Hx Hst1 Hp1. pose proof (lookup_weaken _ _ _ _ concat_node Hx) as Hn1. rewrite <-Hp1 in Hn1.
  destruct t1 as [q1 o1 f1 sub1 rn1 mn1 mx1]. apply stored_node in Hst1 as [(sl1 & Hq1 & Hs1 & Hl1) _].
  simpl in Hn1. rewrite Hq1 in Hn1. injection Hn1 as -> -> -> -> -> ->. rewrite Hs1, length_map. lia.
Qed.

(** The loop over the first element alone. *)
Lemma one_turn h1 b :
  eventually (λ fu, '(upd, tmp) ← flattenRepetition fu (r_ptr x);
                    set_index (slice_to 1 sl) 0 tmp ≫= λ _, mret upd) h h1 b →
  eventually (λ fu, flatten_loop (flattenRepetition fu) (slice_to 1 sl) (seq 0 1) false) h h1 b.
Proof.
  intros [F HF]. exists F. intros fu Hfu. specialize (HF fu Hfu). simpl.
  unfold mbind at 1, SE_bind at 1. erewrite index_run; [|done|exact head_cell].
  unfold mbind, SE_bind in HF |- *.
  destruct (flattenRepetition fu (r_ptr x) h) as [h' [[upd tmp]| | |]]; [|done..].
  destruct (set_index (slice_to 1 sl) 0 tmp h') as [h'' [[]| | |]]; [|done..].
  exact HF.
Qed.

(** The element is flattened once and its result copied over the others. *)
Lemma flatten_single : eventually (λ fu, is_rep (S fu) (r_ptr x)) h h false → flat_result.
Proof.
  intros Hisrep2. destruct head_facts as (Hx & Hltx & Hkx & Hwx). pose proof head_cell as Hi0.
  destruct (flatten_turn ρ h (slice_to 1 sl) 0 x)
    as (ρ1 & h1 & b & c2 & y & E & Hev & Hfr & Hfr' & (Hc2 & Hpc2 & Hkc2) & Hy & Hky & Hle & Hry & _ & H0);
    [apply Hbelow; lia|done..|].
  destruct (proj2 (proj2 Hev) t Hst Hr) as (t1 & Hst1 & Hp1 & Hr1 & Hk1).
  assert (Hrank : rank ρ1 c2 = rank ρ x) by (unfold rank; rewrite Hpc2; apply Hev; by apply stored_ptr).
  destruct (flatten_finish ρ h t n ρ1 h1 t1 b
    (foreach (seq 0 (s_len sl)) (λ i, s0 ← index (slice_to 1 sl) 0; set_index sl i s0)) h1)
    as (ρ2 & h2 & t2 & t' & E2 & Hfl); [done|apply concat_node|done| |done..| |].
  { eapply frame_mono; [|exact Hfr]. lia. }
  { intros _ h1' ρ2 Hx1 Hag. assert (Hpos : 0 < length sub) by (rewrite Hsub; simpl; lia).
    pose proof (length_after h1 t1 (proj1 Hev) Hst1 Hp1) as Hlen1.
    assert (Hel : elems_of h1' sl = elems_of h1 sl) by (apply elems_of_ext; [done|lia]).
    destruct (fill_run (seq 0 (s_len sl)) ρ2 h1' sl c2 y) as (h3 & E3 & Hev3 & Hfr3);
      try (by eapply stored_ext); try (by eapply ranked_agree); try done.
    - unfold rank in *. by rewrite (Hag _ (stored_ptr _ _ Hc2)), (Hag _ (stored_ptr _ _ Hy)).
    - rewrite Hel, Hpc2. by apply cells_after.
    - rewrite Hel. rewrite elems_of_cell in H0 |- *. simpl in H0. by rewrite decide_True by lia.
    - rewrite Hel, Hlen1. apply Forall_seq. lia.
    - exists h3. conjs; [done|done|]. eapply frame_mono; [|exact Hfr3].
      unfold rank in *. rewrite (Hag _ (stored_ptr _ _ Hc2)). lia. }
  exists ρ2, h2, b, t2, t'. split; [|done].
  eapply ev_S; [done|]. eapply ev_step; [exact Hd|]. simpl.
  destruct (decide (OpConcat ≠ OpConcat)) as [|_]; [done|].
  eapply ev_bind; [exact Hisrep|].
  eapply ev_bind; [eapply ev_step; [by eapply index_run|exact Hisrep2]|]. simpl.
  eapply ev_bind; [by eapply one_turn|]. by apply ev_run.
Qed.
End concat.

Lemma is_rep_eventually h t b :
  stored h t → isConcatRepetition t = Ok b → eventually (λ fu, is_rep (S fu) (r_ptr t)) h h b.
Proof.
  intros Hst Hb. destruct (is_rep_run h t b Hst Hb) as [F HF]. exists F. intros fu Hfu. apply HF. lia.
Qed.

Lemma flattenRepetition_ok N : ∀ ρ h t, rank ρ t < N → flattens ρ h t.
Proof.
  induction N as [|N IH]; intros ρ h t HN Hst Hr Hw; [lia|].
  assert (Hbelow : ∀ ρ' h' u, rank ρ' u < rank ρ t → flattens ρ' h' u) by (intros; apply IH; lia).
  destruct t as [p o f sub rn mn mx]. destruct (deref_run _ _ _ _ _ _ _ _ Hst) as (sl & Hd & Hs & Hl).
  destruct (decide (o = OpConcat)) as [->|Ho].
  2: { exists ρ, h, false, (Re p o f sub rn mn mx), (Re p o f sub rn mn mx). split; [|by apply flattened_refl].
       eapply ev_S; [done|]. eapply ev_step; [exact Hd|]. simpl.
       destruct (decide (o ≠ OpConcat)); [apply ev_ret|done]. }
  destruct (isConcatRepetition_run (Re p OpConcat f sub rn mn mx)) as (b & Hb & Hrep); [by eapply wf_concat_nonempty|].
  apply (is_rep_eventually h) in Hb; [|done]. destruct b; [|by eapply flatten_other].
  destruct Hrep as (_ & x & rest & Hsub & Hsame); [done|]. simpl in Hsub.
  destruct (head_facts ρ h p f sub rn mn mx) with x rest as (Hx & _ & _ & Hwx); [done..|].
  destruct (isConcatRepetition_run x) as (b2 & Hb2 & Hrep2); [by eapply wf_concat_nonempty|].
  apply (is_rep_eventually h) in Hb2; [|done]. destruct b2; [|by eapply flatten_single].
  destruct Hrep2 as (Hox & x0 & rest0 & Hsubx & Hsame0); [done|]. by eapply flatten_doubled.
Qed.

(** ** Ranks exist: the size of the expression at an address *)
Fixpoint subtrees t : list Regexp := t :: concat (map subtrees (r_sub t)).

Lemma subtrees_self t : t ∈ subtrees t.
Proof. destruct t. simpl. by left. Qed.

Lemma subtrees_child t c u : c ∈ r_sub t → u ∈ subtrees c → u ∈ subtrees t.
Proof.
  intros Hc Hu. destruct t as [p o f sub rn mn mx]. simpl in *. right.
  apply list_elem_of_In, in_concat. exists (subtrees c).
  split; [apply in_map; by apply list_elem_of_In|by apply list_elem_of_In].
Qed.

Lemma subtrees_stored h t u : stored h t → u ∈ subtrees t → stored h u.
Proof.
  induction t as [p o f sub rn mn mx IH] using Regexp_rect'. intros Hst Hu.
  simpl in Hu. apply elem_of_cons in Hu as [->|Hu]; [done|].
  apply stored_node in Hst as [_ Hsub].
  apply list_elem_of_In, in_concat in Hu as (l & Hl & Hu).
  apply in_map_iff in Hl as (c & <- & Hc). apply list_elem_of_In in Hc, Hu.
  rewrite Forall_forall in IH, Hsub. exact (IH c Hc (Hsub c Hc) Hu).
Qed.

Definition size_rank t : positive → nat := λ p,
  match list_find (λ u, r_ptr u = p) (subtrees t) with Some (_, u) => rsize u | None => 0 end.

Lemma size_rank_subtree h t u : stored h t → u ∈ subtrees t → size_rank t (r_ptr u) = rsize u.
Proof.
  intros Hst Hu. unfold size_rank.
  destruct (list_find (λ u0, r_ptr u0 = r_ptr u) (subtrees t)) as [[i v]|] eqn:E.
  - apply list_find_Some in E as (Hv & Hp & _). f_equal.
    eapply stored_inj; [| |exact Hp]; eapply subtrees_stored; try done. by eapply list_elem_of_lookup_2.
  - apply list_find_None in E. rewrite Forall_forall in E. by destruct (E u Hu).
Qed.

Lemma rsize_child t u : u ∈ r_sub t → rsize u < rsize t.
Proof.
  destruct t as [p o f sub rn mn mx]. simpl. intros Hu.
  induction Hu as [u l|u x l _ IH]; simpl; lia.
Qed.

Lemma ranked_size h t : stored h t → ranked (size_rank t) t.
Proof.
  intros Hst. assert (Hall : ∀ u, (∀ v, v ∈ subtrees u → v ∈ subtrees t) → ranked (size_rank t) u).
  { intros u. induction u as [p o f sub rn mn mx IH] using Regexp_rect'. intros Hin.
    set (u := Re p o f sub rn mn mx) in *.
    rewrite Forall_forall in IH. apply ranked_unfold. split; apply Forall_forall; intros c Hc.
    - unfold rank. rewrite !(size_rank_subtree h); [by apply rsize_child|done| |done|].
      + apply Hin, subtrees_self.
      + apply Hin. eapply subtrees_child; [exact Hc|apply subtrees_self].
    - apply IH; [done|]. intros v Hv. apply Hin. by eapply subtrees_child. }
  by apply Hall.
Qed.

(** [flattenRepetition] returns an expression of the same meaning. *)
Lemma flattenRepetition_run strict t h : stored h t → wf strict t →
  ∃ h' b t', eventually (λ fu, flattenRepetition fu (r_ptr t)) h h' (b, r_ptr t') ∧
    nodes h ⊆ nodes h' ∧ stored h' t' ∧ wf strict t' ∧ tequiv t t'.
Proof.
  intros Hst Hw. assert (Hwf : wf false t).
  { clear -Hw. induction t as [p o f sub rn mn mx IH] using Regexp_rect'.
    apply wf_unfold in Hw as [Hn Hs]. apply wf_unfold. split.
    - unfold wf_node in *. simpl in *. destruct o; naive_solver.
    - simpl in *. rewrite Forall_forall in *. auto. }
  pose proof (ranked_size h t Hst) as Hr.
  destruct (flattenRepetition_ok (S (rank (size_rank t) t)) (size_rank t) h t) as
    (ρ' & h' & b & t2 & t' & E & [Hnodes _] & _ & (_ & _ & [He2 Hw2] & _) & Hst' & _ & _ & [He' Hw']);
    [lia|done..|].
  exists h', b, t'. split; [done|]. split; [done|]. split; [done|]. split; [auto|by etrans].
Qed.
End flatten.
