(* ===== verification/MatchCompile.v ===== *)
(** * The matchers [compile] chooses agree with the regular expression

    Texts are lists of runes and are given to the matchers in UTF-8.  Each
    special matcher answers whether the expression it stands for occurs in the
    text, for texts without line feeds; none of them can index out of range. *)
From S2P Require Import Prelude GoStrings GoUtf8 GoRegexp RegexpSem RegexpStore Match MatchFacts MatchFlatten.

Open Scope list_scope.
Open Scope nat_scope.

(** What the package relies on: the parser gives every operator the operands it
    needs, and its concatenations never carry the case-folding flag; neither the
    parser nor the compiler panics; a compiled expression decides whether the
    expression occurs in the text. *)
Class RegexpLaws `{RegexpLib} := {
  Parse_shaped : ∀ pattern t, Parse pattern = Ok t → shaped t;
  Parse_defined : ∀ pattern, defined (Parse pattern);
  regexp_Compile_defined : ∀ t, defined (regexp_Compile t);
  regexp_Compile_search : ∀ t f rs, regexp_Compile t = Ok f → Forall valid_rune rs →
    f (encode rs) = true ↔ search rs t
}.

Section literals.
Context `{RegexpLib}.
Implicit Types (t u : Regexp) (s rs : list Z).

Lemma step_rune_eq s f r i j :
  Z.land f FoldCase = 0%Z →
  step_rune s (lit_eq f r) i j ↔ j = S i ∧ s !! i = Some r.
Proof.
  intros Hf. unfold step_rune, lit_eq. rewrite bool_decide_true by done. naive_solver.
Qed.

(** A literal matches where it stands. *)
Lemma lit_den s f l i :
  Z.land f FoldCase = 0%Z → i ≤ length s → ∀ j,
  rseq (map (λ r, step_rune s (lit_eq f r)) l) i j ↔
  drop i s = l ++ drop j s ∧ j = i + length l.
Proof.
  intros Hf. revert i. induction l as [|r l IH]; intros i Hi j; simpl.
  { unfold rid. split; [intros <-; split; [done|lia]|intros [_ ->]; lia]. }
  split.
  - intros (k & Hk & Hl). apply step_rune_eq in Hk as [-> Hr]; [|done].
    pose proof (lookup_lt_Some _ _ _ Hr). apply IH in Hl as [Hd ->]; [|lia].
    rewrite (drop_S s r i Hr). split; [by rewrite Hd|lia].
  - intros [Hd ->]. assert (Hr : s !! i = Some r).
    { rewrite <- (Nat.add_0_r i), <- lookup_drop, Hd. done. }
    pose proof (lookup_lt_Some _ _ _ Hr). exists (S i). split; [by apply step_rune_eq|].
    apply IH; [lia|]. split; [|lia]. rewrite (drop_S s r i Hr) in Hd. by injection Hd.
Qed.

Lemma regular_flags t : isRegular t = true ↔ Z.land (r_flags t) FoldCase = 0%Z.
Proof. unfold isRegular. apply Z.eqb_eq. Qed.

Lemma isRegularLiteral_spec t : isRegularLiteral t = true →
  r_op t = OpLiteral ∧ Z.land (r_flags t) FoldCase = 0%Z.
Proof.
  unfold isRegularLiteral. rewrite andb_true_iff, bool_decide_eq_true, regular_flags. done.
Qed.

(** Meaning of a regular literal. *)
Lemma literal_den t s i j : isRegularLiteral t = true → i ≤ length s →
  den s t i j ↔ drop i s = r_rune t ++ drop j s ∧ j = i + length (r_rune t).
Proof.
  intros [Ho Hf]%isRegularLiteral_spec Hi. destruct t as [p o f sub rn mn mx]. simpl in *. subst o.
  simpl. by apply lit_den.
Qed.

Lemma literal_runes strict t : wf strict t → isRegularLiteral t = true → Forall valid_rune (r_rune t).
Proof.
  intros [Hw _]%wf_unfold [Ho _]%isRegularLiteral_spec. unfold wf_node in Hw. rewrite Ho in Hw. by destruct Hw.
Qed.

Lemma search_literal t s : isRegularLiteral t = true →
  search s t ↔ ∃ a b, s = a ++ r_rune t ++ b.
Proof.
  intros Ht. unfold search. split.
  - intros (i & j & Hi & [Hd ->]%literal_den); [|done|done].
    exists (take i s), (drop (i + length (r_rune t)) s). by rewrite <- Hd, take_drop.
  - intros (a & b & ->). exists (length a), (length a + length (r_rune t)).
    rewrite !length_app. split; [lia|]. apply literal_den; [done|rewrite !length_app; lia|].
    split; [|done]. rewrite drop_app_length. rewrite <- drop_drop, drop_app_length.
    by rewrite drop_app_length.
Qed.

Lemma begin_den s t i j : r_op t = OpBeginText → den s t i j ↔ i = 0 ∧ j = 0.
Proof. destruct t. simpl. intros ->. simpl. unfold here. naive_solver. Qed.

Lemma end_den s t i j : r_op t = OpEndText → den s t i j ↔ i = length s ∧ j = length s.
Proof. destruct t. simpl. intros ->. simpl. unfold here. naive_solver. Qed.

(** Meaning of a concatenation that starts with the text anchor. *)
Lemma search_anchored s p f b rest rn mn mx : r_op b = OpBeginText →
  search s (Re p OpConcat f (b :: rest) rn mn mx) ↔ ∃ j, rseq (map (den s) rest) 0 j.
Proof.
  intros Hb. rewrite search_concat. simpl. split.
  - intros (i & j & _ & (k & Hk & Hj)). apply begin_den in Hk as [-> ->]; [|done]. eauto.
  - intros (j & Hj). exists 0, j. split; [lia|]. exists 0. split; [by apply begin_den|done].
Qed.

Lemma literal_at_start s t j : isRegularLiteral t = true →
  den s t 0 j ↔ s = r_rune t ++ drop j s ∧ j = length (r_rune t).
Proof. intros Ht. rewrite literal_den by (done || lia). by rewrite drop_0. Qed.

Lemma search_prefix_literal s p f b l rn mn mx : r_op b = OpBeginText → isRegularLiteral l = true →
  search s (Re p OpConcat f [b; l] rn mn mx) ↔ ∃ r, s = r_rune l ++ r.
Proof.
  intros Hb Hl. rewrite search_anchored by done. cbn [map rseq]. split.
  - intros (j & (k & [Hk _]%literal_at_start & _)); [eauto|done].
  - intros (r & ->). exists (length (r_rune l)). apply rcomp_id_r, literal_at_start; [done|].
    by rewrite drop_app_length.
Qed.

Lemma alternate_den s t i j : r_op t = OpAlternate →
  den s t i j ↔ ∃ u, u ∈ r_sub t ∧ den s u i j.
Proof.
  destruct t as [p o f sub rn mn mx]. simpl. intros ->. simpl. unfold ralt.
  rewrite Exists_exists. split.
  - intros (R & HR & Hd). apply list_elem_of_fmap in HR as (u & -> & Hu). eauto.
  - intros (u & Hu & Hd). exists (den s u). split; [|done]. by apply list_elem_of_fmap_2.
Qed.

Lemma search_exact_den s p f b m e rn mn mx : r_op b = OpBeginText → r_op e = OpEndText →
  search s (Re p OpConcat f [b; m; e] rn mn mx) ↔ den s m 0 (length s).
Proof.
  intros Hb He. rewrite search_anchored by done. cbn [map rseq]. split.
  - intros (j & (k & Hk & (l & Hl & _))). apply end_den in Hl as [-> _]; done.
  - intros Hm. exists (length s). exists (length s). split; [done|]. exists (length s).
    split; [by apply end_den|done].
Qed.

(** ** The special matchers *)
Definition agrees (m : stringMatcher) t : Prop := ∀ rs,
  Forall valid_rune rs → nl_free rs →
  ∃ b, MatchString m (encode rs) = Ok b ∧ (b = true ↔ search rs t).

Lemma agrees_Ok m t g :
  (∀ s : string, MatchString m s = Ok (g s)) →
  (∀ rs, Forall valid_rune rs → nl_free rs → g (encode rs) = true ↔ search rs t) → agrees m t.
Proof. intros Hm Hg rs Hv Hn. exists (g (encode rs)). split; [apply Hm|by apply Hg]. Qed.

Lemma has_literal_prefix_eq (s p : string) : has_literal_prefix s p = HasPrefix s p.
Proof.
  apply Bool.eq_iff_eq_true. unfold has_literal_prefix.
  rewrite andb_true_iff, Z.leb_le, String.eqb_eq, HasPrefix_spec. split.
  - intros [_ Hs]. exists (sdrop (String.length p) s). by rewrite <- Hs at 1; rewrite stake_sdrop.
  - intros [r ->]. rewrite strlen_app, stake_length_app. pose proof (strlen_nonneg r). split; [lia|done].
Qed.

Lemma existsb_literals (g : string → bool) l :
  existsb g (map literal l) = true ↔ ∃ u, u ∈ l ∧ g (literal u) = true.
Proof.
  rewrite existsb_exists. split.
  - intros (x & Hx & Hg). apply in_map_iff in Hx as (u & <- & Hu). apply list_elem_of_In in Hu. eauto.
  - intros (u & Hu & Hg). exists (literal u). split; [|done]. apply in_map. by apply list_elem_of_In.
Qed.

Lemma substring_agrees strict t : wf strict t → isRegularLiteral t = true →
  agrees (substringMatcher (literal t)) t.
Proof.
  intros Hw Ht. apply agrees_Ok with (λ s : string, Contains s (literal t)); [done|].
  intros rs Hv _. rewrite search_literal by done. apply encode_contains; [by eapply literal_runes|done].
Qed.

Lemma alt_literal_spec strict t u : wf strict t → isAltLiterals t = true → u ∈ r_sub t →
  isRegularLiteral u = true ∧ Forall valid_rune (r_rune u).
Proof.
  intros [_ Hw]%wf_unfold Ha Hu. unfold isAltLiterals in Ha. case_bool_decide; [|done].
  rewrite forallb_forall in Ha. assert (isRegularLiteral u = true) by (apply Ha; by apply list_elem_of_In).
  split; [done|]. rewrite Forall_forall in Hw. by eapply literal_runes; [apply Hw|].
Qed.

Lemma altSubstring_agrees strict t : wf strict t → isAltLiterals t = true →
  agrees (altSubstringMatcher (map literal (r_sub t))) t.
Proof.
  intros Hw Ha. assert (Ho : r_op t = OpAlternate).
  { unfold isAltLiterals in Ha. by case_bool_decide. }
  apply agrees_Ok with (λ s : string, existsb (Contains s) (map literal (r_sub t))); [done|].
  intros rs Hv Hn. rewrite existsb_literals. split.
  - intros (u & Hu & Hc). destruct (alt_literal_spec _ _ _ Hw Ha Hu) as [Hl Hr].
    apply encode_contains in Hc; [|done..]. apply search_literal in Hc as (i & j & Hi & Hd); [|done].
    exists i, j. split; [done|]. apply alternate_den; eauto.
  - intros (i & j & Hi & Hd). apply alternate_den in Hd as (u & Hu & Hd); [|done].
    destruct (alt_literal_spec _ _ _ Hw Ha Hu) as [Hl Hr]. exists u. split; [done|].
    apply encode_contains; [done..|]. apply search_literal; [done|]. by exists i, j.
Qed.

Lemma literal_whole s t : isRegularLiteral t = true → den s t 0 (length s) ↔ s = r_rune t.
Proof.
  intros Ht. rewrite literal_at_start by done. rewrite drop_all, app_nil_r.
  split; [by intros []|]. intros Hs. split; [done|congruence].
Qed.

Lemma eqb_encode rs l : Forall valid_rune rs → Forall valid_rune l →
  String.eqb (encode rs) (encode l) = true ↔ rs = l.
Proof. intros. rewrite String.eqb_eq. split; [by apply encode_inj|by intros ->]. Qed.

Lemma equals_agrees strict t : wf strict t → isExactLiteral t = true →
  ∃ l, sub_at t 1 = Ok l ∧ agrees (equalsMatcher (literal l)) t.
Proof.
  intros Hw Ht. destruct t as [p o f sub rn mn mx]. unfold isExactLiteral in Ht. simpl in Ht.
  destruct sub as [|b [|l [|e [|]]]]; try done.
  rewrite !andb_true_iff, !bool_decide_eq_true in Ht. destruct Ht as [[[[-> Hb] Hl] He] _].
  exists l. split; [done|]. apply agrees_Ok with (λ s : string, String.eqb (literal l) s); [done|].
  intros rs Hv _. rewrite search_exact_den, literal_whole by done.
  apply wf_unfold in Hw as [_ Hw]. simpl in Hw. rewrite !Forall_cons in Hw. destruct Hw as (_ & Hw & _).
  unfold literal. rewrite eqb_encode; [|by eapply literal_runes|done]. split; congruence.
Qed.

Lemma oneOf_agrees strict t : wf strict t → isOneOfLiterals t = true →
  ∃ a, sub_at t 1 = Ok a ∧ agrees (oneOfMatcher (map literal (r_sub a))) t.
Proof.
  intros Hw Ht. destruct t as [p o f sub rn mn mx]. unfold isOneOfLiterals in Ht. simpl in Ht.
  destruct sub as [|b [|a [|e [|]]]]; try done.
  rewrite !andb_true_iff, !bool_decide_eq_true in Ht. destruct Ht as [[[-> Hb] Ha] He].
  exists a. split; [done|].
  assert (Ho : r_op a = OpAlternate) by (unfold isAltLiterals in Ha; by case_bool_decide).
  apply wf_unfold in Hw as [_ Hw]. simpl in Hw. rewrite !Forall_cons in Hw. destruct Hw as (_ & Hw & _).
  apply agrees_Ok with (λ s : string, existsb (String.eqb s) (map literal (r_sub a))); [done|].
  intros rs Hv _. rewrite search_exact_den, alternate_den, existsb_literals by done.
  split; intros (u & Hu & Hc); exists u; (split; [done|]);
    destruct (alt_literal_spec _ _ _ Hw Ha Hu) as [Hl Hr].
  - apply literal_whole; [done|]. by apply eqb_encode in Hc.
  - apply eqb_encode; [done..|]. by apply literal_whole.
Qed.

Lemma prefix_agrees strict t : wf strict t → isPrefixLiteral t = true →
  ∃ l, sub_at t 1 = Ok l ∧ agrees (prefixMatcher (literal l)) t.
Proof.
  intros Hw Ht. destruct t as [p o f sub rn mn mx]. unfold isPrefixLiteral in Ht. simpl in Ht.
  destruct sub as [|b [|l [|]]]; try done.
  rewrite !andb_true_iff, !bool_decide_eq_true in Ht. destruct Ht as [[[-> Hb] Hl] _].
  exists l. split; [done|].
  apply wf_unfold in Hw as [_ Hw]. simpl in Hw. rewrite !Forall_cons in Hw. destruct Hw as (_ & Hw & _).
  apply agrees_Ok with (λ s : string, has_literal_prefix s (literal l)); [done|].
  intros rs Hv _. rewrite has_literal_prefix_eq, search_prefix_literal by done.
  apply encode_prefix; [by eapply literal_runes|done].
Qed.

Lemma altPrefix_agrees strict t : wf strict t → isPrefixAltLiterals t = true →
  ∃ a, sub_at t 1 = Ok a ∧ agrees (altPrefixMatcher (map literal (r_sub a))) t.
Proof.
  intros Hw Ht. destruct t as [p o f sub rn mn mx]. unfold isPrefixAltLiterals in Ht. simpl in Ht.
  destruct sub as [|b [|a [|]]]; try done.
  rewrite !andb_true_iff, !bool_decide_eq_true in Ht. destruct Ht as [[[-> Hb] Ho] Ha].
  exists a. split; [done|]. assert (Halt : isAltLiterals a = true).
  { unfold isAltLiterals. by rewrite bool_decide_true. }
  apply wf_unfold in Hw as [_ Hw]. simpl in Hw. rewrite !Forall_cons in Hw. destruct Hw as (_ & Hw & _).
  apply agrees_Ok with (λ s : string, existsb (has_literal_prefix s) (map literal (r_sub a))); [done|].
  intros rs Hv _. rewrite search_anchored, existsb_literals by done. cbn [map rseq]. split.
  - intros (u & Hu & Hc). destruct (alt_literal_spec _ _ _ Hw Halt Hu) as [Hl Hr].
    rewrite has_literal_prefix_eq in Hc. apply encode_prefix in Hc as [r ->]; [|done..].
    exists (length (r_rune u)). apply rcomp_id_r, alternate_den; [done|]. exists u. split; [done|].
    apply literal_at_start; [done|]. by rewrite drop_app_length.
  - intros (j & Hj). apply rcomp_id_r, alternate_den in Hj as (u & Hu & Hd); [|done].
    destruct (alt_literal_spec _ _ _ Hw Halt Hu) as [Hl Hr]. exists u. split; [done|].
    rewrite has_literal_prefix_eq. apply encode_prefix; [done..|].
    apply literal_at_start in Hd as [Hd _]; eauto.
Qed.

Lemma emptyText_agrees t : isEmptyText t = true → agrees emptyStringMatcher t.
Proof.
  intros Ht%eqRegex_tequiv. apply agrees_Ok with (λ s : string, strlen s =? 0)%Z; [done|].
  intros rs Hv _. rewrite (tequiv_search _ _ rs Ht). unfold patEmptyText, concatPat.
  rewrite search_concat, Z.eqb_eq. cbn [map rseq].
  assert (Hlen : strlen (encode rs) = 0%Z ↔ rs = []).
  { destruct rs as [|r rs]; [done|]. split; [|done]. simpl. intros Hl. unfold strlen in Hl.
    destruct (EncodeRune r +:+ encode rs)%string eqn:E; [by destruct (EncodeRune_nonempty r (encode rs))|].
    simpl in Hl. lia. }
  rewrite Hlen. split.
  - intros ->. exists 0, 0. split; [done|]. exists 0. split; [done|]. by exists 0.
  - intros (i & j & _ & (k & [<- ->] & (l & [<- Hl] & _))). by destruct rs.
Qed.

Lemma class_star_den (P : Z → Prop) s i j :
  rrep 0 (-1) (step_rune s P) i j ↔ i ≤ j ∧ (∀ k, i ≤ k < j → ∃ c, s !! k = Some c ∧ P c).
Proof.
  split.
  - intros (n & _ & _ & Hn). revert i Hn. induction n as [|n IH]; simpl; intros i.
    { intros Hn. unfold rid in Hn. subst j. split; [lia|]. intros k Hk. exfalso. lia. }
    intros (m & (-> & c & Hc & HP) & Hn). destruct (IH _ Hn) as [Hle Hall]. split; [lia|].
    intros k Hk. destruct (decide (k = i)) as [->|]; [eauto|]. apply Hall. lia.
  - intros [Hle Hall]. exists (j - i). split; [lia|]. split; [by left|].
    remember (j - i) as n eqn:Hn. revert i Hle Hall Hn.
    induction n as [|n IH]; intros i Hle Hall Hn; simpl; [unfold rid; lia|].
    exists (S i). split; [split; [done|apply Hall; lia]|]. apply IH; [lia| |lia].
    intros k Hk. apply Hall. lia.
Qed.

Lemma is_white_spec c : is_white c = true ↔ in_class [9; 10; 12; 13; 32; 32]%Z c.
Proof. unfold is_white. simpl. rewrite !orb_true_iff, !Z.eqb_eq. lia. Qed.

Lemma emptyWhite_agrees t : isEmptyTextWithWhitespace t = true → agrees emptyWhiteStringMatcher t.
Proof.
  intros Ht%eqRegex_tequiv. apply agrees_Ok with (λ s : string, forallb is_white (range_string s).*2); [done|].
  intros rs Hv _. rewrite (tequiv_search _ _ rs Ht), range_string_encode by done.
  unfold patEmptyWhiteText, concatPat. rewrite search_exact_den by done. cbn [den map op_den rhead].
  rewrite class_star_den, forallb_forall. split.
  - intros Hall. split; [lia|]. intros k [_ Hk].
    destruct (lookup_lt_is_Some_2 rs k Hk) as [c Hc]. exists c. split; [done|].
    apply is_white_spec, Hall, list_elem_of_In. by eapply list_elem_of_lookup_2.
  - intros [_ Hall] c Hc. apply list_elem_of_In, list_elem_of_lookup in Hc as [k Hk].
    destruct (Hall k) as (c' & Hc' & HP); [split; [lia|by eapply lookup_lt_Some]|].
    apply is_white_spec. congruence.
Qed.

Lemma any_agrees t : isAnyMatch t = true → agrees matchAny t.
Proof.
  intros Ht. apply agrees_Ok with (λ _, true); [done|]. intros rs Hv Hn. split; [|done]. intros _.
  assert (Hds : den rs patDotStar 0 (length rs)) by (apply dotstar_free; [done|lia|done]).
  unfold isAnyMatch in Ht. rewrite !orb_true_iff in Ht.
  destruct Ht as [[[Ht|Ht]|Ht]|Ht]; apply eqRegex_tequiv in Ht; rewrite (tequiv_search _ _ rs Ht).
  - exists 0, (length rs). split; [lia|done].
  - apply search_anchored; [done|]. exists (length rs). by apply rcomp_id_r.
  - by apply search_exact_den.
  - apply search_concat. cbn [map rseq]. exists 0, (length rs). split; [lia|].
    exists (length rs). split; [done|]. exists (length rs). by split.
Qed.
End literals.
