(* ===== verification/MatchDate.v ===== *)
(** * The matcher for dates at the start of a line ([prefixNumDate])

    [isPrefixNumDate] accepts an anchor, an optional literal, digits, and
    literals alternating with digits.  Such an expression is a list of items;
    [pmatch] says that a text starts with them.  The bytewise matcher and the
    expression both ask for [pmatch], and the length test at the start of the
    matcher keeps every later index within the text. *)
From S2P Require Import Prelude GoStrings GoUtf8 GoRegexp RegexpSem RegexpStore Match MatchFacts MatchFlatten MatchCompile.

Open Scope list_scope.
Open Scope nat_scope.

Inductive item := ILit (l : list Z) | IDig (n : nat).

Definition digit (c : Z) : Prop := (48 ≤ c ≤ 57)%Z.

Fixpoint pmatch (its : list item) (rest : list Z) : Prop :=
  match its with
  | [] => True
  | ILit l :: its' => ∃ r, rest = l ++ r ∧ pmatch its' r
  | IDig n :: its' => ∃ d r, rest = d ++ r ∧ length d = n ∧ Forall digit d ∧ pmatch its' r
  end.

Section date.
Context `{RegexpLib}.
Implicit Types (t u : Regexp).

(** ** Items of an expression *)
Definition denotes t (it : item) : Prop :=
  match it with
  | ILit l => isRegularLiteral t = true ∧ r_rune t = l
  | IDig n => ∀ s, den s t ≃ rpow (step_rune s digit) n
  end.

Lemma digits_den s n : ∀ i j, i ≤ length s →
  rpow (step_rune s digit) n i j ↔
  ∃ d, drop i s = d ++ drop j s ∧ length d = n ∧ Forall digit d ∧ j = i + n.
Proof.
  induction n as [|n IH]; intros i j Hi; simpl.
  { unfold rid. split.
    - intros <-. exists []. split; [done|]. split; [done|]. split; [constructor|lia].
    - intros (d & _ & _ & _ & ->). lia. }
  split.
  - intros (k & (-> & c & Hc & Hd) & Hn). pose proof (lookup_lt_Some _ _ _ Hc).
    apply IH in Hn as (d & Hdr & Hl & Hds & ->); [|lia]. exists (c :: d).
    rewrite (drop_S s c i Hc), Hdr. simpl. split; [done|]. split; [lia|]. split; [by constructor|lia].
  - intros ([|c d] & Hdr & Hl & Hds & ->); [done|]. simpl in Hl.
    assert (Hc : s !! i = Some c).
    { rewrite <- (Nat.add_0_r i), <- lookup_drop, Hdr. done. }
    pose proof (lookup_lt_Some _ _ _ Hc). apply Forall_cons in Hds as [Hcd Hds].
    exists (S i). split; [split; [done|eauto]|]. apply IH; [lia|]. exists d.
    rewrite (drop_S s c i Hc) in Hdr. simpl in Hdr. injection Hdr as Hdr.
    split; [|split; [lia|split; [done|lia]]]. rewrite Hdr. by f_equal.
Qed.

Lemma drop_split {A} (s l : list A) i r : i ≤ length s → drop i s = l ++ r → r = drop (i + length l) s.
Proof. intros Hi Hd. rewrite <- drop_drop, Hd. by rewrite drop_app_length. Qed.

Lemma rseq_items s l its : Forall2 denotes l its → ∀ i, i ≤ length s →
  (∃ j, rseq (map (den s) l) i j) ↔ pmatch its (drop i s).
Proof.
  induction 1 as [|t it l its Ht _ IH]; intros i Hi; simpl.
  { split; [done|]. intros _. by exists i. }
  destruct it as [w|n]; simpl in Ht.
  - destruct Ht as [Hlit <-]. split.
    + intros (j & k & Hk & Hj). pose proof (den_bounded s t i k Hi Hk).
      apply literal_den in Hk as [Hd ->]; [|done..]. exists (drop (i + length (r_rune t)) s).
      split; [done|]. apply IH; [done|eauto].
    + intros (r & Hd & Hp). pose proof (drop_split _ _ _ _ Hi Hd) as ->.
      assert (i + length (r_rune t) ≤ length s).
      { apply (f_equal length) in Hd. rewrite length_app, !length_drop in Hd. lia. }
      apply IH in Hp as [j Hj]; [|done]. exists j, (i + length (r_rune t)). split; [|done].
      by apply literal_den.
  - split.
    + intros (j & k & Hk & Hj). pose proof (den_bounded s t i k Hi Hk).
      apply Ht, digits_den in Hk as (d & Hd & Hl & Hds & ->); [|done..].
      exists d, (drop (i + n) s). split; [done|]. split; [done|]. split; [done|]. apply IH; [done|eauto].
    + intros (d & r & Hd & Hl & Hds & Hp). pose proof (drop_split _ _ _ _ Hi Hd) as ->.
      assert (i + length d ≤ length s).
      { apply (f_equal length) in Hd. rewrite length_app, !length_drop in Hd. lia. }
      apply IH in Hp as [j Hj]; [|done]. exists j, (i + length d). split; [|done].
      apply Ht, digits_den; [done|]. exists d. split; [done|]. split; [done|]. split; [done|lia].
Qed.

(** ** The bytewise matcher *)
Definition item_len (it : item) : Z :=
  match it with ILit l => strlen (encode l) | IDig n => Z.of_nat n end.
Definition items_len (its : list item) : Z := foldr (λ it a, item_len it + a)%Z 0%Z its.

Lemma items_len_app a b : items_len (a ++ b) = (items_len a + items_len b)%Z.
Proof. induction a as [|it a IH]; simpl; [done|]. unfold items_len in *. simpl. lia. Qed.

Lemma items_len_nonneg its : (0 ≤ items_len its)%Z.
Proof.
  induction its as [|it its IH]; [done|]. unfold items_len in *. simpl.
  destruct it; simpl; [pose proof (strlen_nonneg (encode l))|]; lia.
Qed.

(** Only a digit has a digit for its first byte. *)
Lemma digit_first_byte r : valid_rune r → ∃ a e, EncodeRune r = String a e ∧
  (isDigit a = true ↔ digit r) ∧ (digit r → e = ""%string).
Proof.
  intros Hv. assert (Hr : (0 ≤ r ≤ MaxRune)%Z) by (unfold valid_rune, MaxRune in *; lia).
  destruct (decide (r ≤ 127)%Z) as [Hsmall|Hbig].
  - unfold EncodeRune. rewrite bool_decide_true by done.
    destruct (Z.leb_spec r 127); [|lia]. exists (chr r), ""%string. split; [done|]. split; [|done].
    unfold isDigit, digit. rewrite byte_chr by lia. rewrite andb_true_iff, !Z.leb_le. done.
  - destruct (EncodeRune_shape r Hv) as (a & e & He & Hc & _). exists a, e. split; [done|].
    assert (Ha : (128 ≤ byte a)%Z).
    { destruct (DecodeRune_EncodeRune r "" Hv) as (a' & e' & He' & Hd). rewrite He in He'.
      injection He' as <- <-. unfold DecodeRune in Hd. destruct (Z.ltb_spec (byte a) 128); [|done].
      injection Hd as Hd _. lia. }
    split; [|unfold digit; lia]. unfold isDigit, digit. rewrite andb_true_iff, !Z.leb_le. lia.
Qed.

Lemma byte_at_app pre a s : byte_at (pre +:+ String a s) (strlen pre) = Ok a.
Proof.
  unfold byte_at. rewrite bool_decide_true by apply strlen_nonneg. unfold strlen.
  by rewrite Nat2Z.id, sdrop_length_app.
Qed.

Lemma strlen_cons a s : strlen (String a s) = (1 + strlen s)%Z.
Proof. unfold strlen. simpl. lia. Qed.

Lemma sapp_cons pre a s : pre +:+ String a s = (pre +:+ String a "") +:+ s.
Proof. by rewrite sapp_assoc. Qed.

Lemma match_digits_run cnt : ∀ pre rest, Forall valid_rune rest →
  (Z.of_nat cnt ≤ strlen (encode rest))%Z →
  ∃ r, match_digits cnt (pre +:+ encode rest) (strlen pre) = Ok r ∧
    match r with
    | Some pos => ∃ d rest', rest = d ++ rest' ∧ length d = cnt ∧ Forall digit d ∧
        pos = strlen (pre +:+ encode d)
    | None => ¬ ∃ d rest', rest = d ++ rest' ∧ length d = cnt ∧ Forall digit d
    end.
Proof.
  induction cnt as [|cnt IH]; intros pre rest Hv Hlen; simpl.
  { exists (Some (strlen pre)). split; [done|]. exists [], rest. simpl. by rewrite sapp_nil_r. }
  destruct Hv as [|r rest Hr Hv]; [simpl in Hlen; unfold strlen in Hlen; simpl in Hlen; lia|].
  destruct (digit_first_byte r Hr) as (a & e & He & Hdig & Hemp). simpl in Hlen |- *.
  rewrite He in Hlen |- *. simpl in Hlen |- *. rewrite byte_at_app. simpl.
  destruct (isDigit a) eqn:Ha; simpl.
  - assert (Hd : digit r) by by apply Hdig. specialize (Hemp Hd). subst e. simpl in *.
    rewrite sapp_cons. replace (strlen pre + 1)%Z with (strlen (pre +:+ String a "")) by (by rewrite strlen_app).
    rewrite strlen_cons in Hlen.
    destruct (IH (pre +:+ String a "") rest Hv) as (o & Ho & Hpost); [lia|].
    exists o. split; [done|]. destruct o as [pos|].
    + destruct Hpost as (d & rest' & -> & Hl & Hds & ->). exists (r :: d), rest'. simpl.
      split; [done|]. split; [lia|]. split; [by constructor|]. rewrite He. simpl.
      by rewrite sapp_assoc.
    + intros ([|r' d] & rest' & Heq & Hl & Hds); [done|]. simpl in *. injection Heq as <- ->.
      apply Hpost. exists d, rest'. apply Forall_cons in Hds as [_ ?]. split; [done|]. split; [lia|done].
  - exists None. split; [done|]. intros ([|r' d] & rest' & Heq & Hl & Hds); [done|].
    simpl in *. injection Heq as <- ->. apply Forall_cons in Hds as [Hd _].
    apply Hdig in Hd. congruence.
Qed.

Lemma pmatch_lit l its r : pmatch (ILit l :: its) (l ++ r) ↔ pmatch its r.
Proof.
  simpl. split; [|eauto]. intros (r' & Heq & Hp). by apply app_inv_head in Heq as ->.
Qed.

Lemma pmatch_dig d its r : Forall digit d → pmatch (IDig (length d) :: its) (d ++ r) ↔ pmatch its r.
Proof.
  intros Hd. simpl. split; [|eauto 6]. intros (d' & r' & Heq & Hl & _ & Hp).
  by apply app_inj_1 in Heq as [_ ->].
Qed.

Lemma strlen_digits d : Forall digit d → strlen (encode d) = Z.of_nat (length d).
Proof.
  induction 1 as [|r d Hr _ IH]; [done|]. simpl. rewrite strlen_app, IH.
  assert (Hv : valid_rune r) by (unfold digit, valid_rune in *; lia).
  destruct (digit_first_byte r Hv) as (a & e & -> & _ & He). rewrite (He Hr).
  unfold strlen at 1. simpl. lia.
Qed.

Lemma pmatch_len its : ∀ rest, pmatch its rest → (items_len its ≤ strlen (encode rest))%Z.
Proof.
  induction its as [|[l|n] its IH]; intros rest; simpl.
  - intros _. apply strlen_nonneg.
  - intros (r & -> & Hp). rewrite encode_app, strlen_app. specialize (IH _ Hp).
    unfold items_len in *. simpl. lia.
  - intros (d & r & -> & <- & Hd & Hp). rewrite encode_app, strlen_app, strlen_digits by done.
    specialize (IH _ Hp). unfold items_len in *. simpl. lia.
Qed.

(** A separator is compared with the bytes at its position. *)
Lemma sep_run pre rest l : Forall valid_rune rest → Forall valid_rune l →
  (strlen (encode l) ≤ strlen (encode rest))%Z →
  ∃ w, slice (pre +:+ encode rest) (strlen pre) (strlen pre + strlen (encode l)) = @Ok string _ w ∧
    (String.eqb w (encode l) = true ↔ ∃ r, rest = l ++ r).
Proof.
  intros Hv Hl Hlen. eexists. split.
  { apply slice_Ok; rewrite ?strlen_app; pose proof (strlen_nonneg pre);
      pose proof (strlen_nonneg (encode l)); lia. }
  rewrite Z.add_simpl_l. unfold strlen at 2. rewrite !Nat2Z.id, sdrop_length_app.
  rewrite <- encode_prefix, <- has_literal_prefix_eq by done. unfold has_literal_prefix.
  rewrite andb_true_iff, Z.leb_le. unfold strlen at 1. rewrite Nat2Z.id. naive_solver.
Qed.

Definition group_items (gs : list (list Z * nat)) : list item :=
  concat (map (λ '(l, n), [ILit l; IDig n]) gs).

#[local] Arguments group_items : simpl never.
#[local] Arguments pmatch : simpl never.

Lemma group_items_cons l n gs : group_items ((l, n) :: gs) = ILit l :: IDig n :: group_items gs.
Proof. done. Qed.

Lemma match_groups_run gs : ∀ pre rest, Forall valid_rune rest →
  Forall (λ g, Forall valid_rune g.1) gs →
  (items_len (group_items gs) ≤ strlen (encode rest))%Z →
  ∃ r, match_groups (map (λ g, Z.of_nat g.2) gs) (map (λ g, encode g.1) gs)
         (pre +:+ encode rest) (strlen pre) = Ok r ∧
    match r with
    | Some pos => ∃ w rest', rest = w ++ rest' ∧ pos = strlen (pre +:+ encode w) ∧
        ∀ its, pmatch (group_items gs ++ its) rest ↔ pmatch its rest'
    | None => ∀ its, ¬ pmatch (group_items gs ++ its) rest
    end.
Proof.
  induction gs as [|[l n] gs IH]; intros pre rest Hv Hgs Hlen.
  { exists (Some (strlen pre)). split; [done|]. exists [], rest. simpl. by rewrite sapp_nil_r. }
  cbn [match_groups map fst snd].
  apply Forall_cons in Hgs as [Hl Hgs]. simpl in Hl.
  assert (Hlen' : (strlen (encode l) + (Z.of_nat n + items_len (group_items gs)) ≤ strlen (encode rest))%Z)
    by exact Hlen.
  clear Hlen. rename Hlen' into Hlen. pose proof (items_len_nonneg (group_items gs)).
  destruct (sep_run pre rest l Hv Hl) as (w & -> & Hw); [lia|]. cbn [mbind res_bind].
  destruct (String.eqb w (encode l)) eqn:Heq; cbn [negb].
  2: { exists None. split; [done|]. intros its (r & -> & _).
       assert (false = true) by (apply Hw; eauto). done. }
  destruct (proj1 Hw eq_refl) as [rest1 ->]. apply Forall_app in Hv as [_ Hv].
  rewrite encode_app in Hlen |- *. rewrite strlen_app in Hlen. rewrite <- sapp_assoc, <- strlen_app.
  rewrite Nat2Z.id.
  destruct (match_digits_run n (pre +:+ encode l) rest1 Hv) as (r & -> & Hr); [lia|]. cbn [mbind res_bind].
  destruct r as [pos|].
  2: { exists None. split; [done|]. intros its Hp. rewrite group_items_cons in Hp. apply pmatch_lit in Hp. apply Hr.
       destruct Hp as (d & r & -> & ? & ? & _). by exists d, r. }
  destruct Hr as (d & rest2 & -> & <- & Hd & ->). apply Forall_app in Hv as [_ Hv].
  rewrite encode_app in Hlen |- *. rewrite strlen_app, (strlen_digits d) in Hlen by done.
  rewrite <- sapp_assoc.
  destruct (IH ((pre +:+ encode l) +:+ encode d) rest2 Hv Hgs) as (r & -> & Hr); [lia|].
  exists r. split; [done|]. destruct r as [pos|].
  - destruct Hr as (w2 & rest3 & -> & -> & Hr). exists (l ++ d ++ w2), rest3.
    rewrite <- !app_assoc, !encode_app, !sapp_assoc. split; [done|]. split; [done|]. intros its.
    rewrite <- (Hr its), group_items_cons. simpl. by rewrite pmatch_lit, pmatch_dig.
  - intros its Hp. rewrite group_items_cons in Hp. apply pmatch_lit, pmatch_dig in Hp; [|done].
    by apply (Hr its).
Qed.

(** The whole matcher. *)
Definition opt_item (o : option (list Z)) : list item :=
  match o with Some l => [ILit l] | None => [] end.

Definition date_items (pfx : option (list Z)) (d0 : nat) (gs : list (list Z * nat)) (sfx : option (list Z))
    : list item :=
  opt_item pfx ++ IDig d0 :: group_items gs ++ opt_item sfx.

Definition date_matcher (pfx : option (list Z)) (d0 : nat) (gs : list (list Z * nat)) (sfx : option (list Z))
    : prefixNumDate :=
  mkPrefixNumDate (items_len (date_items pfx d0 gs sfx)) (encode <$> pfx)
    (Z.of_nat d0 :: map (λ g, Z.of_nat g.2) gs) (map (λ g, encode g.1) gs) (encode (default [] sfx)).

Lemma date_tail_run gs sfx : ∀ pre rest, Forall valid_rune rest → Forall valid_rune (default [] sfx) →
  Forall (λ g, Forall valid_rune g.1) gs →
  (items_len (group_items gs) ≤ strlen (encode rest))%Z →
  ∃ b, (p ← match_groups (map (λ g, Z.of_nat g.2) gs) (map (λ g, encode g.1) gs)
              (pre +:+ encode rest) (strlen pre);
        match p with
        | None => Ok false
        | Some pos =>
            if (0 <? strlen (encode (default [] sfx)))%Z then
              w ← slice (pre +:+ encode rest) pos (strlen (pre +:+ encode rest));
              Ok (HasPrefix w (encode (default [] sfx)))
            else Ok true
        end) = @Ok string bool b ∧
    (b = true ↔ pmatch (group_items gs ++ opt_item sfx) rest).
Proof.
  intros pre rest Hv Hs Hgs Hlen.
  destruct (match_groups_run gs pre rest Hv Hgs Hlen) as (r & -> & Hr). simpl.
  destruct r as [pos|]; [|exists false; split; [done|]; split; [done|by intros ?%Hr]].
  destruct Hr as (w & rest' & -> & -> & Hr). setoid_rewrite Hr. apply Forall_app in Hv as [_ Hv].
  destruct sfx as [[|c sfx']|]; cbn [from_option id opt_item] in *.
  { exists true. split; [done|]. split; [|done]. intros _. by exists rest'. }
  2: { exists true. split; [done|]. by split. }
  set (sfx := c :: sfx') in *. assert (Hpos : (0 <? strlen (encode sfx))%Z = true).
  { apply Z.ltb_lt. unfold sfx. simpl. unfold strlen.
    destruct (EncodeRune c +:+ encode sfx')%string eqn:E; [by destruct (EncodeRune_nonempty c (encode sfx'))|].
    simpl. lia. }
  rewrite Hpos. rewrite encode_app, <- sapp_assoc.
  rewrite slice_Ok; [|apply strlen_nonneg|rewrite (strlen_app (pre +:+ encode w)); pose proof (strlen_nonneg (encode rest')); lia|lia].
  eexists. split; [done|]. rewrite stake_all.
  - unfold strlen at 1. rewrite Nat2Z.id, sdrop_length_app, encode_prefix by done.
    split; [intros [r ->]; by exists r|intros (r & -> & _); by exists r].
  - unfold strlen. rewrite Nat2Z.id, sdrop_length_app, length_sapp. lia.
Qed.

Lemma date_Match_run pfx d0 gs sfx rs : Forall valid_rune rs → Forall valid_rune (default [] sfx) →
  Forall valid_rune (default [] pfx) → Forall (λ g, Forall valid_rune g.1) gs →
  ∃ b, prefixNumDate_Match (date_matcher pfx d0 gs sfx) (encode rs) = Ok b ∧
    (b = true ↔ pmatch (date_items pfx d0 gs sfx) rs).
Proof.
  intros Hv Hs Hp Hgs. unfold prefixNumDate_Match. cbn [minLen prefix digits seps suffix date_matcher].
  destruct (Z.ltb_spec (strlen (encode rs)) (items_len (date_items pfx d0 gs sfx))) as [Hlt|Hge].
  { exists false. split; [done|]. split; [done|]. intros Hm%pmatch_len. lia. }
  set (tl := opt_item sfx).
  assert (Htail : ∀ pre rest, rs = pre ++ rest → Forall valid_rune rest →
    (items_len (IDig d0 :: group_items gs ++ tl) ≤ strlen (encode rest))%Z →
    ∃ b, (p ← match_digits (Z.to_nat (Z.of_nat d0)) (encode rs) (strlen (encode pre));
          match p with
          | None => Ok false
          | Some pos =>
              p ← match_groups (map (λ g, Z.of_nat g.2) gs) (map (λ g, encode g.1) gs) (encode rs) pos;
              match p with
              | None => Ok false
              | Some pos =>
                  if (0 <? strlen (encode (default [] sfx)))%Z then
                    w ← slice (encode rs) pos (strlen (encode rs));
                    Ok (HasPrefix w (encode (default [] sfx)))
                  else Ok true
              end
          end) = @Ok string bool b ∧ (b = true ↔ pmatch (IDig d0 :: group_items gs ++ tl) rest)).
  { intros pre rest -> Hvr Hl. rewrite Nat2Z.id, encode_app.
    change (items_len (IDig d0 :: group_items gs ++ tl)) with
      (Z.of_nat d0 + items_len (group_items gs ++ tl))%Z in Hl.
    rewrite items_len_app in Hl. pose proof (items_len_nonneg (group_items gs)).
    pose proof (items_len_nonneg tl).
    destruct (match_digits_run d0 (encode pre) rest Hvr) as (o & -> & Ho); [lia|].
    cbn [mbind res_bind]. destruct o as [pos|].
    2: { exists false. split; [done|]. split; [done|]. intros (d & r & -> & ? & ? & _). destruct Ho. by exists d, r. }
    destruct Ho as (d & rest' & -> & <- & Hd & ->). rewrite encode_app, <- sapp_assoc.
    apply Forall_app in Hvr as [_ Hvr]. rewrite encode_app, strlen_app, (strlen_digits d) in Hl by done.
    setoid_rewrite (pmatch_dig d _ _ Hd). apply date_tail_run; [done..|]. lia. }
  unfold date_items in *. destruct pfx as [l|]; cbn [opt_item from_option id fmap option_fmap option_map] in *.
  - change ([ILit l] ++ ?x) with (ILit l :: x) in *.
    change (items_len (ILit l :: ?x)) with (strlen (encode l) + items_len x)%Z in Hge.
    pose proof (items_len_nonneg (IDig d0 :: group_items gs ++ tl)).
    destruct (sep_run "" rs l Hv Hp) as (w & Hsl & Hw); [unfold tl in *; lia|].
    change (strlen "") with 0%Z in Hsl. rewrite Z.add_0_l in Hsl. cbn [String.append] in Hsl. rewrite Hsl. cbn [mbind res_bind].
    destruct (String.eqb w (encode l)).
    + destruct (proj1 Hw eq_refl) as [rest Hr]. 
      assert (Hpm : ∀ its, pmatch (ILit l :: its) rs ↔ pmatch its rest) by (intros; rewrite Hr; apply pmatch_lit).
      setoid_rewrite Hpm.
      rewrite Hr in Hv, Hge. apply Forall_app in Hv as [_ Hv]. rewrite encode_app, strlen_app in Hge.
      apply Htail; [done|done|unfold tl; lia].
    + exists false. split; [done|]. split; [done|]. intros (r & Hr & _). apply Hw. by exists r.
  - apply (Htail [] rs); done.
Qed.

(** ** Recognition and construction *)
Lemma isMultiDigits_Ok strict t : wf strict t → ∃ b, isMultiDigits t = Ok b.
Proof.
  intros [Hw _]%wf_unfold. unfold isMultiDigits, isConcatRepetition, sub_at, wf_node in *.
  case_bool_decide as Ho; [by exists false|]. rewrite Ho in Hw.
  destruct (r_sub t) as [|x l] eqn:Hs; [by destruct Hw|]. cbn [lookup list_lookup mbind res_bind].
  destruct (forallb _ _); rewrite ?Hs; eauto.
Qed.

Lemma digit_class x : isDigitMatch x = true → ∀ s, den s x ≃ step_rune s digit.
Proof.
  intros Hx s. rewrite (eqRegex_tequiv _ _ Hx s). intros i j. cbn. unfold step_rune, digit. naive_solver.
Qed.

Lemma multi_digits h t : stored h t → isMultiDigits t = Ok true →
  denotes t (IDig (length (r_sub t))) ∧ digitLen t = Z.of_nat (length (r_sub t)).
Proof.
  intros Hst. unfold isMultiDigits, isConcatRepetition, sub_at.
  destruct t as [p o f sub rn mn mx]. cbn [r_op r_sub].
  case_bool_decide as Ho; [done|]. subst o.
  apply stored_node in Hst as [_ Hsub].
  destruct sub as [|x rest]; [done|]. cbn [lookup list_lookup mbind res_bind].
  destruct (forallb _ _) eqn:Hp; [|done]. intros [= Hx]. split; [|done]. intros s.
  apply Is_true_eq_left, forallb_True, Forall_cons in Hp as [_ Hp].
  rewrite (same_children h x rest Hsub) at 1.
  - change (rseq (map (den s) (replicate (length (x :: rest)) x)) ≃
      rpow (step_rune s digit) (length (x :: rest))).
    by rewrite map_replicate, rseq_replicate, (digit_class x Hx s).
  - eapply Forall_impl; [exact Hp|]. intros y Hy. by apply bool_decide_unpack in Hy.
Qed.

Lemma sub_at_lookup t i x : r_sub t !! i = Some x → sub_at t i = Ok x.
Proof. unfold sub_at. by intros ->. Qed.

Definition groups_valid (gs : list (list Z * nat)) : Prop := Forall (λ g, Forall valid_rune g.1) gs.

Lemma numDate_loop h strict t k : Forall (stored h) (r_sub t) → Forall (wf strict) (r_sub t) → ∀ i,
  i ≤ length (r_sub t) < i + 2 * k →
  ∃ b, isPrefixNumDate_loop k t i = Ok b ∧
    (b = true → ∃ gs sfx, Forall2 denotes (drop i (r_sub t)) (group_items gs ++ opt_item sfx) ∧
       groups_valid gs ∧ Forall valid_rune (default [] sfx) ∧
       ∀ ds ss, collect_groups k t i ds ss =
         Ok (ds ++ map (λ g, Z.of_nat g.2) gs, ss ++ map (λ g, encode g.1) gs, encode (default [] sfx))).
Proof.
  intros Hst Hwf. induction k as [|k IH]; intros i Hi.
  { lia. }
  cbn [isPrefixNumDate_loop collect_groups]. case_bool_decide as Hlen.
  { exists true. split; [done|]. intros _. exists [], None. rewrite drop_ge by lia. split; [constructor|].
    split; [constructor|]. split; [constructor|]. intros ds ss. cbn. by rewrite !app_nil_r. }
  destruct (lookup_lt_is_Some_2 (r_sub t) i) as [x Hx]; [lia|].
  rewrite (sub_at_lookup _ _ _ Hx). cbn [mbind res_bind].
  assert (Hwx : wf strict x) by by eapply Forall_lookup_1.
  destruct (isRegularLiteral x) eqn:Hlit; cbn [negb]; [|by exists false].
  pose proof (literal_runes _ _ Hwx Hlit) as Hrunes. rewrite (drop_S _ _ _ Hx).
  case_bool_decide as Hlast.
  { exists true. split; [done|]. intros _. exists [], (Some (r_rune x)). rewrite drop_ge by lia.
    split; [constructor; [done|constructor]|]. split; [constructor|]. split; [done|]. intros ds ss.
    cbn. by rewrite !app_nil_r. }
  destruct (lookup_lt_is_Some_2 (r_sub t) (S i)) as [y Hy]; [lia|].
  rewrite (sub_at_lookup _ _ _ Hy). cbn [mbind res_bind].
  assert (Hwy : wf strict y) by by eapply Forall_lookup_1.
  assert (Hsy : stored h y) by by eapply Forall_lookup_1.
  destruct (isMultiDigits_Ok strict y Hwy) as [[|] Hmd]; rewrite Hmd; cbn [mbind res_bind negb];
    [|by exists false].
  destruct (multi_digits h y Hsy Hmd) as [Hdig Hdl].
  destruct (IH (S (S i))) as (b & -> & Hb); [lia|]. exists b. split; [done|]. intros Hbt.
  destruct (Hb Hbt) as (gs & sfx & Hits & Hgs & Hsfx & Hcol).
  exists ((r_rune x, length (r_sub y)) :: gs), sfx. rewrite (drop_S _ _ _ Hy), group_items_cons.
  split; [constructor; [done|]; constructor; [done|done]|].
  split; [by constructor|]. split; [done|]. intros ds ss. rewrite Hcol, Hdl.
  cbn [map fst snd]. by rewrite <- !app_assoc.
Qed.

Lemma sum_Z_foldr l : ∀ a, foldl Z.add a l = (a + foldr Z.add 0 l)%Z.
Proof. induction l as [|x l IH]; intros a; simpl; [lia|]. rewrite IH. lia. Qed.

Lemma items_len_groups gs : items_len (group_items gs) =
  (foldr Z.add 0 (map (λ g, Z.of_nat g.2) gs) + foldr Z.add 0 (map strlen (map (λ g, encode g.1) gs)))%Z.
Proof.
  induction gs as [|[l n] gs IH]; [done|]. rewrite group_items_cons. cbn [map foldr fst snd].
  change (items_len (ILit l :: IDig n :: ?x)) with (strlen (encode l) + (Z.of_nat n + items_len x))%Z. lia.
Qed.

Lemma items_len_opt o : items_len (opt_item o) = strlen (encode (default [] o)).
Proof. destruct o; [|done]. cbn. lia. Qed.

(** The length the matcher asks for is that of its items. *)
Lemma date_minLen pfx d0 gs sfx : items_len (date_items pfx d0 gs sfx) =
  (strlen (default "" (encode <$> pfx)) + strlen (encode (default [] sfx)) +
   sum_Z (Z.of_nat d0 :: map (λ g, Z.of_nat g.2) gs) + sum_Z (map strlen (map (λ g, encode g.1) gs)))%Z.
Proof.
  unfold date_items, sum_Z. rewrite !sum_Z_foldr, items_len_app, items_len_opt.
  change (items_len (IDig d0 :: ?x)) with (Z.of_nat d0 + items_len x)%Z.
  rewrite items_len_app, items_len_groups, items_len_opt. cbn [foldr].
  replace (default "" (encode <$> pfx)) with (encode (default [] pfx)) by by destruct pfx. lia.
Qed.

Lemma date_agrees t b rest pfx d0 gs sfx : r_op t = OpConcat → r_sub t = b :: rest →
  r_op b = OpBeginText → Forall2 denotes rest (date_items pfx d0 gs sfx) →
  Forall valid_rune (default [] sfx) → Forall valid_rune (default [] pfx) → groups_valid gs →
  agrees (prefixNumDateMatcher (date_matcher pfx d0 gs sfx)) t.
Proof.
  intros Ho Hs Hb Hits Hsfx Hpfx Hgs rs Hv _.
  destruct (date_Match_run pfx d0 gs sfx rs Hv Hsfx Hpfx Hgs) as (r & Hr & Hiff). exists r. split; [done|].
  rewrite Hiff. destruct t as [p o f sub rn mn mx]. cbn in Ho, Hs. subst o sub.
  rewrite search_anchored by done. rewrite (rseq_items rs rest _ Hits) by lia. by rewrite drop_0.
Qed.

(** From the first group of digits on. *)
Lemma numDate_from h t b s1 rest i d0 pfx :
  r_op t = OpConcat → r_sub t = b :: s1 :: rest → r_op b = OpBeginText →
  Forall (stored h) (r_sub t) → Forall (wf true) (r_sub t) →
  r_sub t !! i = Some d0 → 1 ≤ i →
  Forall2 denotes (take (i - 1) (s1 :: rest)) (opt_item pfx) → Forall valid_rune (default [] pfx) →
  (if bool_decide (r_op s1 = OpLiteral) then (Some (literal s1), 2) else (None, 1)) =
      (encode <$> pfx, i) ∨ (r_op s1 = OpLiteral ∧ d0 = s1) →
  ∃ c, (md ← isMultiDigits d0;
        if negb md then Ok false else isPrefixNumDate_loop (length (r_sub t)) t (S i)) = Ok c ∧
    (c = true → ∃ m, compilePrefixNumDate t = Ok m ∧ agrees m t).
Proof.
  intros Ho Hs Hb Hsts Hws Hi Hi1 Hpit Hpv Hpair.
  assert (H1 : r_sub t !! 1 = Some s1) by by rewrite Hs.
  assert (Hwd : wf true d0) by by eapply Forall_lookup_1.
  assert (Hsd : stored h d0) by by eapply Forall_lookup_1.
  destruct (isMultiDigits_Ok true d0 Hwd) as [[|] Hmd]; rewrite Hmd; cbn [mbind res_bind negb];
    [|by exists false].
  destruct (multi_digits h d0 Hsd Hmd) as [Hdig Hdl].
  pose proof (lookup_lt_Some _ _ _ Hi).
  destruct (numDate_loop h true t (length (r_sub t)) Hsts Hws (S i)) as (r & -> & Hr); [lia|].
  exists r. split; [done|]. intros Hrt. destruct (Hr Hrt) as (gs & sfx & Hits & Hgs & Hsfx & Hcol).
  destruct Hpair as [Hpair|[Hlit ->]].
  2: { exfalso. unfold isMultiDigits, isConcatRepetition in Hmd. by rewrite Hlit in Hmd. }
  unfold compilePrefixNumDate. rewrite (sub_at_lookup _ _ _ H1). cbn [mbind res_bind].
  rewrite Hpair, (sub_at_lookup _ _ _ Hi). cbn [mbind res_bind]. rewrite Hcol, Hdl.
  cbn [mbind res_bind app]. eexists. split; [done|].
  pose proof (date_minLen pfx (length (r_sub d0)) gs sfx) as Hmin. cbn [app] in Hmin. rewrite <- Hmin.
  apply (date_agrees t b (s1 :: rest)); try done.
  rewrite <- (take_drop (i - 1) (s1 :: rest)). apply Forall2_app; [done|].
  rewrite Hs in Hi, Hits. destruct i as [|i]; [lia|]. cbn [lookup list_lookup drop] in Hi, Hits.
  cbn [Nat.sub]. rewrite Nat.sub_0_r. rewrite (drop_S _ _ _ Hi). by constructor.
Qed.

(** Whenever [isPrefixNumDate] holds, [compilePrefixNumDate] returns a matcher
    that agrees with the expression. *)
Lemma numDate_agrees h t : stored h t → wf true t → isPrefixLiteral t = false →
  (r_op t = OpConcat → 2 ≤ length (r_sub t)) →
  ∃ c, isPrefixNumDate t = Ok c ∧
    (c = true → ∃ m, compilePrefixNumDate t = Ok m ∧ agrees m t).
Proof.
  intros Hst Hwf Hnp Hlen. unfold isPrefixNumDate. case_bool_decide as Ho; [by exists false|].
  specialize (Hlen Ho). apply wf_unfold in Hwf as [Hw Hws].
  assert (Hsts : Forall (stored h) (r_sub t)).
  { destruct t. apply stored_node in Hst. apply Hst. }
  destruct (lookup_lt_is_Some_2 (r_sub t) 0) as [b H0]; [lia|].
  destruct (lookup_lt_is_Some_2 (r_sub t) 1) as [s1 H1]; [lia|].
  rewrite (sub_at_lookup _ _ _ H0). cbn [mbind res_bind]. case_bool_decide as Hb; [by exists false|].
  rewrite (sub_at_lookup _ _ _ H1). cbn [mbind res_bind].
  assert (Hs : ∃ rest, r_sub t = b :: s1 :: rest).
  { destruct (r_sub t) as [|? [|? rest]]; simplify_eq/=. by exists rest. }
  destruct Hs as [rest Hs]. pose proof (Forall_lookup_1 _ _ _ _ Hws H1) as Hws1.
  destruct (isRegularLiteral s1) eqn:Hl1.
  - destruct (r_sub t !! 2) as [d0|] eqn:H2.
    + rewrite (sub_at_lookup _ _ _ H2). cbn [mbind res_bind].
      apply (numDate_from h t b s1 rest 2 d0 (Some (r_rune s1))); try done; [lia| | |].
      * constructor; [done|]. constructor.
      * by apply (literal_runes true).
      * left. rewrite bool_decide_true; [done|]. by apply isRegularLiteral_spec.
    + exfalso. rewrite Hs in H2. destruct rest; [|done]. unfold isPrefixLiteral in Hnp.
      rewrite Hs, Hl1, !bool_decide_true in Hnp by done. unfold wf_node in Hw. rewrite Ho in Hw.
      destruct Hw as [_ Hw]. specialize (Hw eq_refl). apply regular_flags in Hw. by rewrite Hw in Hnp.
  - rewrite (sub_at_lookup _ _ _ H1). cbn [mbind res_bind].
    apply (numDate_from h t b s1 rest 1 s1 None); try done.
    case_bool_decide; [by right|by left].
Qed.
End date.
