(* ===== verification/MatchOptimize.v ===== *)
(** * The optimiser keeps the meaning of an expression

    One turn of the loop of [optimize] runs the seven transformations.  For
    enough fuel every turn returns an expression that finds the same texts (of
    texts without line feeds), and a turn that changes nothing leaves a root
    that [compile] can index safely.  The exported operations then return
    matchers that agree with the parsed expression. *)
From S2P Require Import Prelude GoStrings GoUtf8 GoRegexp RegexpSem RegexpStore Match MatchFacts MatchFlatten MatchCompile MatchDate.

Open Scope list_scope.
Open Scope nat_scope.

(** ** Calls taken apart *)
(** Opens the first call of a sequence that returned. *)
Tactic Notation "run_inv" hyp(H) "as" simple_intropattern(s) simple_intropattern(a) simple_intropattern(E) :=
  apply SE_bind_Ok in H as (s & a & E & H).

Lemma deref_inv p h h' n : deref p h = (h', Ok n) → h' = h ∧ nodes h !! p = Some n.
Proof. unfold deref. destruct (nodes h !! p); [|done]. by intros [= -> ->]. Qed.

Lemma new_regexp_inv o f l rn mn mx h h' p : new_regexp o f l rn mn mx h = (h', Ok p) →
  ∃ a, nodes h' !! p = Some (mkNode o f (mkSlice a 0 (length l)) rn mn mx).
Proof.
  unfold new_regexp, new_slice, new_node. unfold mbind, SE_bind. simpl. intros [= <- <-]. simpl.
  eexists. by rewrite lookup_insert_eq.
Qed.

Lemma mapM_rx_length {A B} (f : A → RX B) l : ∀ h h' k, mapM_rx f l h = (h', Ok k) → length k = length l.
Proof.
  induction l as [|x l IH]; intros h h' k Hm; simpl in Hm; [by injection Hm as _ <-|].
  run_inv Hm as ? y ?. run_inv Hm as ? ys Hys. injection Hm as _ <-. simpl. f_equal. by eapply IH.
Qed.

(** The root of a stored tree is the node at its address. *)
Lemma stored_root h t n : stored h t → nodes h !! r_ptr t = Some n →
  r_op t = n_Op n ∧ length (r_sub t) = s_len (n_Sub n).
Proof.
  destruct t as [p o f sub rn mn mx]. rewrite stored_node. simpl. intros [(sl & Hn & _ & Hl) _] Hn'.
  rewrite Hn in Hn'. injection Hn' as <-. simpl. by split.
Qed.

Section optimize.
Context `{RegexpLib}.

(** ** Roots of unchanged expressions *)
(** A root that [compile] can index: not a concatenation of fewer than two. *)
Definition settled (t : Regexp) : Prop :=
  r_op t ≠ OpRepeat ∧ (r_op t = OpConcat → 2 ≤ length (r_sub t)).

(** Two trees with the same kind of root. *)
Definition same_root (t t' : Regexp) : Prop :=
  r_op t' = r_op t ∧ (r_op t = OpConcat → length (r_sub t') = length (r_sub t)).

Lemma settled_root t t' : same_root t t' → settled t → settled t'.
Proof. intros [Ho Hl] [H1 H2]. split; rewrite Ho; [done|]. intros Hc. rewrite Hl; auto. Qed.

Lemma same_root_nodes h h' t t' : nodes h ⊆ nodes h' → stored h t → stored h' t' →
  r_ptr t' = r_ptr t → same_root t t'.
Proof.
  intros Hn Ht Ht' Hp. destruct (stored_ptr h t Ht) as [n Hnode].
  destruct (stored_root h t n Ht Hnode) as [Ho Hl].
  destruct (stored_root h' t' n Ht') as [Ho' Hl'].
  { rewrite Hp. by eapply lookup_weaken. }
  split; congruence.
Qed.

Lemma flatten_unchanged fuel r h h' r' :
  flattenRepetition fuel r h = (h', Ok (false, r')) → r' = r.
Proof.
  destruct fuel as [|fuel]; [done|]. cbn [flattenRepetition]. intros Hr. run_inv Hr as ? n ?.
  case_decide; [by injection Hr as _ <-|]. run_inv Hr as ? b ?. run_inv Hr as ? nested ?.
  destruct nested.
  - run_inv Hr as ? ? ?. run_inv Hr as ? ? ?. by run_inv Hr as ? ? ?.
  - run_inv Hr as ? ch ?. destruct ch; simpl in Hr; [|by injection Hr as _ <-].
    run_inv Hr as ? ? ?. by run_inv Hr as ? ? ?.
Qed.

Lemma unconcat_unchanged r h h' r' : unconcat r h = (h', Ok (false, r')) →
  h' = h ∧ r' = r ∧ ∀ n, nodes h !! r = Some n → n_Op n = OpConcat → 2 ≤ s_len (n_Sub n).
Proof.
  unfold unconcat. intros Hr. run_inv Hr as ? n Hd. apply deref_inv in Hd as [-> Hn].
  destruct (decide (n_Op n = OpConcat ∧ s_len (n_Sub n) ≤ 1)) as [_|Hne].
  { case_decide; by run_inv Hr as ? ? ?. }
  case_decide; [by run_inv Hr as ? ? ?|]. injection Hr as <- <-. split; [done|]. split; [done|].
  intros n' Hn' Ho. rewrite Hn in Hn'. injection Hn' as <-. destruct (decide (2 ≤ s_len (n_Sub n))); [done|].
  destruct Hne. split; [done|lia].
Qed.

Lemma merge_loop_changed fuel subs k : ∀ i j concat lm h h' c' lm' ch',
  merge_loop k fuel subs i j concat lm true h = (h', Ok (c', lm', ch')) → ch' = true.
Proof.
  induction k as [|k IH]; intros i j concat lm h h' c' lm' ch' Hr; [done|]. cbn [merge_loop] in Hr.
  destruct (subs !! i); [|by injection Hr as _ _ _ <-]. destruct (subs !! j); [|by injection Hr as _ _ _ <-].
  run_inv Hr as ? m ?. destruct m; by eapply IH.
Qed.

(** A loop that merges nothing copies all elements but the last. *)
Lemma merge_loop_unchanged fuel subs k : ∀ i concat lm ch h h' c' lm', i < length subs →
  merge_loop k fuel subs i (S i) concat lm ch h = (h', Ok (c', lm', false)) →
  ch = false ∧ lm' = lm ∧ length c' + 1 = length concat + (length subs - i).
Proof.
  induction k as [|k IH]; intros i concat lm ch h h' c' lm' Hi Hr; [done|]. cbn [merge_loop] in Hr.
  destruct (lookup_lt_is_Some_2 subs i Hi) as [si Hsi]. rewrite Hsi in Hr.
  destruct (subs !! S i) as [sj|] eqn:Hj.
  2: { injection Hr as _ <- <- ->. apply lookup_ge_None in Hj. split; [done|]. split; [done|]. lia. }
  pose proof (lookup_lt_Some _ _ _ Hj). run_inv Hr as ? m ?. destruct m as [p|].
  - by apply merge_loop_changed in Hr.
  - apply IH in Hr as (-> & -> & Hl); [|lia]. rewrite length_app in Hl. simpl in Hl.
    split; [done|]. split; [done|]. lia.
Qed.

Lemma mapM_rx_heap {A B} (f : A → RX B) l : (∀ x h h' y, f x h = (h', Ok y) → h' = h) →
  ∀ h h' k, mapM_rx f l h = (h', Ok k) → h' = h.
Proof.
  intros Hf. induction l as [|x l IH]; intros h h' k Hm; simpl in Hm; [by injection Hm as <- _|].
  run_inv Hm as ? y Hy. apply Hf in Hy as ->. run_inv Hm as ? ys Hys. apply IH in Hys as ->.
  by injection Hm as <- _.
Qed.

Lemma load_heap fuel : ∀ p h h' t, load fuel p h = (h', Ok t) → h' = h.
Proof.
  induction fuel as [|fuel IH]; intros p h h' t Hl; [done|]. cbn [load] in Hl.
  run_inv Hl as ? n Hd. apply deref_inv in Hd as [-> _]. run_inv Hl as ? ps He. injection He as <- <-.
  run_inv Hl as ? ts Hts. apply mapM_rx_heap in Hts as ->; [|done]. by injection Hl as <- _.
Qed.

Lemma is_rep_heap fuel p h h' b : is_rep fuel p h = (h', Ok b) → h' = h.
Proof.
  unfold is_rep. intros Hr. run_inv Hr as ? t Ht. apply load_heap in Ht as ->. by injection Hr as <- _.
Qed.

(** An unchanged concatenation is copied with all its elements. *)
Lemma concatRepetition_unchanged fuel r h h' r' n :
  concatRepetition fuel r h = (h', Ok (false, r')) → nodes h !! r = Some n →
  s_len (n_Sub n) = length (elems_of h (n_Sub n)) → (n_Op n = OpConcat → 0 < s_len (n_Sub n)) →
  (r' = r) ∨ (∃ n', nodes h' !! r' = Some n' ∧ n_Op n' = n_Op n ∧ s_len (n_Sub n') = s_len (n_Sub n)).
Proof.
  intros Hr Hn Hlen Hpos. destruct fuel as [|fuel]; [done|]. cbn [concatRepetition] in Hr.
  run_inv Hr as ? n0 Hd. apply deref_inv in Hd as [-> Hn0]. rewrite Hn in Hn0. injection Hn0 as <-.
  case_decide as Ho; [injection Hr as _ <-; by left|]. specialize (Hpos Ho).
  run_inv Hr as h1 b Hb. apply is_rep_heap in Hb as ->.
  destruct b; [injection Hr as _ <-; by left|]. right.
  run_inv Hr as ? rs He. injection He as <- <-. run_inv Hr as ? subsc Hsubs.
  apply mapM_rx_length in Hsubs. run_inv Hr as ? res Hloop. destruct res as [[c lm] ch]. cbn beta iota in Hr.
  run_inv Hr as ? c' Hc. run_inv Hr as ? p Hp. injection Hr as <- -> <-.
  assert (Hl : length (subsc.*2) = s_len (n_Sub n)) by (rewrite length_fmap; congruence).
  apply merge_loop_unchanged in Hloop as (_ & -> & Hlc); [|lia].
  rewrite decide_True in Hc by lia.
  destruct (last (subsc.*2)) as [z|]; [|done]. injection Hc as _ <-.
  apply new_regexp_inv in Hp as [a Hp]. eexists. split; [exact Hp|]. split; [done|]. simpl.
  rewrite length_app. simpl in *. lia.
Qed.

Lemma simplify1_root op f sub r h h' p n : simplify1 op f sub (Some r) h = (h', Ok p) →
  nodes h' !! p = Some n → op ≠ OpConcat → op ≠ OpRepeat → n_Op n ≠ OpConcat ∧ n_Op n ≠ OpRepeat.
Proof.
  unfold simplify1. intros Hr Hn H1 H2. run_inv Hr as ? ns Hd. apply deref_inv in Hd as [-> Hns].
  case_decide as He; [injection Hr as <- <-; rewrite Hns in Hn; injection Hn as <-; by rewrite He|].
  case_decide as Hs.
  { injection Hr as <- <-. rewrite Hns in Hn. injection Hn as <-. destruct Hs as [Hs _]. by rewrite <- Hs. }
  run_inv Hr as ? reuse Hreuse. run_inv Hreuse as ? nr Hd. apply deref_inv in Hd as [-> Hnr].
  run_inv Hreuse as ? s0 Hi. unfold index in Hi. destruct (elems_of h (n_Sub nr) !! 0); [|done].
  injection Hi as <- <-. injection Hreuse as <- <-. case_bool_decide as Hu.
  - injection Hr as <- <-. rewrite Hnr in Hn. injection Hn as <-. destruct Hu as [Hu _]. by rewrite Hu.
  - apply new_regexp_inv in Hr as [a Hp]. rewrite Hp in Hn. by injection Hn as <-.
Qed.

(** [Simplify] keeps a settled root settled. *)
Lemma Simplify_settled fuel t h h' t' : stored h t → stored h' t' → ext h h' → settled t →
  Simplify fuel (r_ptr t) h = (h', Ok (r_ptr t')) → settled t'.
Proof.
  intros Ht Ht' [Hx _] Hset Hr. destruct fuel as [|fuel]; [done|]. cbn [Simplify] in Hr.
  run_inv Hr as ? n Hd. apply deref_inv in Hd as [-> Hn].
  assert (Hsame : r_ptr t' = r_ptr t → settled t').
  { intros Hp. eapply settled_root; [|exact Hset]. by eapply same_root_nodes. }
  destruct Hset as [Hnr Hc].
  destruct (stored_root h t n Ht Hn) as [Ho Hl]. destruct (stored_ptr h' t' Ht') as [n' Hn'].
  destruct (stored_root h' t' n' Ht' Hn') as [Ho' Hl'].
  assert (Hel : length (elems_of h (n_Sub n)) = s_len (n_Sub n)).
  { destruct t as [p o f sub rn mn mx]. apply stored_node in Ht as [(sl & Hsl & Hs & Hlen) _].
    simpl in Hn. rewrite Hsl in Hn. injection Hn as <-. simpl. by rewrite Hs, length_map. }
  rewrite Ho in Hnr, Hc.
  destruct (n_Op n) eqn:Hop; try (injection Hr as Hh Hp; by apply Hsame); try done.
  all: try (run_inv Hr as ? s0 Hi; run_inv Hr as ? sub Hsub;
    eapply simplify1_root in Hr as [? ?]; [|exact Hn'|done..]; unfold settled; by rewrite Ho').
  all: run_inv Hr as ? subs He; injection He as <- <-; run_inv Hr as h1 nsubs Hm;
    pose proof (mapM_rx_length _ _ _ _ _ Hm) as Hlen; case_bool_decide as Heq;
    [injection Hr as Hh Hp; by apply Hsame|].
  all: apply new_regexp_inv in Hr as [a Hp]; rewrite Hp in Hn'; injection Hn' as <-; simpl in *;
    unfold settled; rewrite Ho', Hl'; split; [done|]; intros Heqo; try done; lia || (specialize (Hc eq_refl); lia).
Qed.

(** ** One turn of the loop *)
Definition round (fuel : nat) (r : positive) : RX (bool * positive) :=
  run_transformations (transformations fuel) false r.

(** What a turn gives. *)
Definition turned (strict : bool) t (h' : rstore) (b : bool) t' : Prop :=
  stored h' t' ∧ wf strict t' ∧ sequiv t t' ∧ (b = false → settled t').

Lemma ev_at {A} (c : nat → RX A) h h' a : eventually c h h' a → ∃ fuel, c fuel h = (h', Ok a).
Proof. intros [F HF]. exists F. by apply HF. Qed.

Lemma elems_stored h t n : stored h t → nodes h !! r_ptr t = Some n →
  s_len (n_Sub n) = length (elems_of h (n_Sub n)).
Proof.
  destruct t as [p o f sub rn mn mx]. intros [(sl & Hsl & Hs & Hlen) _]%stored_node Hn.
  simpl in Hn. rewrite Hsl in Hn. injection Hn as <-. simpl. by rewrite Hs, length_map.
Qed.

Lemma round_run strict t h : stored h t → wf strict t →
  ∃ h' b t', eventually (λ fu, round fu (r_ptr t)) h h' (b, r_ptr t') ∧ turned strict t h' b t'.
Proof.
  intros Hst Hwf.
  destruct (Simplify_run strict t h Hst Hwf) as (h1 & t1 & E1 & X1 & S1 & W1 & N1 & Q1).
  destruct (uncapture_run strict t1 h1 S1 W1) as (h2 & b2 & t2 & E2 & (X2 & S2 & W2 & N2 & Q2) & _).
  destruct (trimLeft_run strict t2 h2 S2) as (h3 & b3 & t3 & E3 & (X3 & S3 & W3 & N3 & Q3) & _); [right; auto|auto|].
  destruct (trimRight_run strict t3 h3 S3 W3 N3) as (h4 & b4 & t4 & E4 & (X4 & S4 & W4 & N4 & Q4) & _).
  destruct (unconcat_run strict t4 h4 S4 W4 N4) as (h5 & b5 & t5 & E5 & X5 & S5 & W5 & N5 & Q5 & _).
  destruct (concatRepetition_run strict t5 h5 S5 W5 N5) as (h6 & b6 & t6 & E6 & X6 & S6 & W6 & O6 & Q6).
  destruct (flattenRepetition_run strict t6 h6 S6 W6) as (h7 & b7 & t7 & E7 & X7 & S7 & W7 & Q7).
  exists h7, (b2 || b3 || b4 || b5 || b6 || b7), t7. split.
  - unfold round, transformations. cbn [run_transformations].
    eapply ev_bind; [eapply ev_bind; [exact E1|apply ev_ret]|]. cbn beta iota.
    eapply ev_bind; [exact E2|]. cbn beta iota. eapply ev_bind; [exact E3|]. cbn beta iota.
    eapply ev_bind; [exact E4|]. cbn beta iota. eapply ev_step; [exact E5|]. cbn beta iota.
    eapply ev_bind; [exact E6|]. cbn beta iota. eapply ev_bind; [exact E7|]. cbn beta iota. apply ev_ret.
  - unfold turned. conjs; [done..| |].
    + apply tequiv_sequiv in Q1, Q2, Q5, Q6, Q7.
      intros s Hs. rewrite (Q1 s Hs), (Q2 s Hs), (Q3 s Hs), (Q4 s Hs), (Q5 s Hs), (Q6 s Hs). by apply Q7.
    + intros (((((-> & ->)%orb_false_iff & ->)%orb_false_iff & ->)%orb_false_iff & ->)%orb_false_iff & ->)%orb_false_iff.
      apply ev_at in E6 as [f6 E6]. apply ev_at in E7 as [f7 E7]. apply flatten_unchanged in E7.
      apply unconcat_unchanged in E5 as (-> & Hp5 & Hlen).
      destruct (stored_ptr h4 t5 S5) as [n Hn]. destruct (stored_root h4 t5 n S5 Hn) as [Ho Hl].
      assert (Hset : settled t5).
      { apply norep_unfold in N5 as [N5 _]. split; [done|]. rewrite Hp5 in Hn. rewrite Ho, Hl. by apply Hlen. }
      eapply settled_root; [by eapply same_root_nodes|].
      destruct (concatRepetition_unchanged _ _ _ _ _ _ E6 Hn) as [Hp|(n' & Hn' & Ho' & Hl')].
      * by eapply elems_stored.
      * rewrite <- Ho, <- Hl. destruct Hset as [_ Hset]. intros Hc. specialize (Hset Hc). lia.
      * eapply settled_root; [|exact Hset]. eapply same_root_nodes; [apply X6|done..].
      * eapply settled_root; [|exact Hset]. destruct (stored_root h6 t6 n' S6 Hn') as [Ho6 Hl6].
        split; congruence.
Qed.

(** ** The loop *)
(** The loop is still running after its budget of turns. *)
Definition running {A} (c : nat → RX A) (h : rstore) : Prop :=
  ∃ F h', ∀ fuel, F ≤ fuel → c fuel h = (h', OutOfFuel).

Lemma running_bind {A B} (c : nat → RX A) (k : nat → A → RX B) h :
  running c h → running (λ fu, c fu ≫= k fu) h.
Proof. intros (F & h' & HF). exists F, h'. intros fu Hfu. unfold mbind, SE_bind. by rewrite HF. Qed.

Lemma running_then {A B} (c : nat → RX A) (k : nat → A → RX B) h h1 a :
  eventually c h h1 a → running (λ fu, k fu a) h1 → running (λ fu, c fu ≫= k fu) h.
Proof.
  intros [F HF] (G & h' & HG). exists (F `max` G), h'. intros fu Hfu. unfold mbind, SE_bind.
  rewrite HF by lia. apply HG. lia.
Qed.

(** However many turns it takes, the expression keeps finding the same texts. *)
Lemma optimize_run strict turns : ∀ t h, stored h t → wf strict t →
  running (λ fu, optimize turns fu (r_ptr t)) h ∨
  ∃ h' t', eventually (λ fu, optimize turns fu (r_ptr t)) h h' (r_ptr t') ∧ turned strict t h' false t'.
Proof.
  induction turns as [|turns IH]; intros t h Hst Hwf; [left; by exists 0, h|].
  destruct (round_run strict t h Hst Hwf) as (h1 & b & t1 & E & Hst1 & Hwf1 & Hq1 & Hset).
  destruct b.
  - destruct (IH t1 h1 Hst1 Hwf1) as [Hrun|(h2 & t2 & E2 & Hst2 & Hwf2 & Hq2 & Hset2)].
    + left. cbn [optimize]. eapply running_then; [exact E|exact Hrun].
    + right. exists h2, t2. split; [cbn [optimize]; eapply ev_bind; [exact E|exact E2]|].
      unfold turned. conjs; [done..| |done]. by etrans.
  - right. exists h1, t1. split; [cbn [optimize]; eapply ev_bind; [exact E|apply ev_ret]|].
    unfold turned. by conjs.
Qed.

(** ** compile.go *)
(** [compile] returns a matcher that agrees with the expression, or the error
    of the package regexp. *)
Definition compiled t (r : res string stringMatcher) : Prop :=
  (∃ m, r = Ok m ∧ agrees m t) ∨ (∃ t' e, sequiv t t' ∧ regexp_Compile t' = Err e ∧ r = Err e).

Lemma sub_compiled t (g : Regexp → stringMatcher) :
  (∃ l, sub_at t 1 = Ok l ∧ agrees (g l) t) → compiled t (l ← sub_at t 1; Ok (g l)).
Proof. intros (l & -> & Hg). left. by exists (g l). Qed.

Lemma default_compiled `{!RegexpLaws} t : compiled t (f ← regexp_Compile t; Ok (regexpMatcher f)).
Proof.
  pose proof (regexp_Compile_defined t) as Hd. destruct (regexp_Compile t) as [f|e|p|] eqn:E; [| |done..].
  - left. exists (regexpMatcher f). split; [done|]. apply agrees_Ok with f; [done|].
    intros rs Hv _. by eapply regexp_Compile_search.
  - right. exists t, e. split; [done|]. by split.
Qed.

Lemma compile_run `{!RegexpLaws} h t : stored h t → wf true t → settled t → compiled t (compile t).
Proof.
  intros Hst Hwf [_ Hlen]. unfold compile.
  destruct (isSubstringLiteral t) eqn:H1; [left; eexists; split; [done|by eapply substring_agrees]|].
  destruct (isExactLiteral t) eqn:H2; [by eapply sub_compiled, equals_agrees|].
  destruct (isAltLiterals t) eqn:H3; [left; eexists; split; [done|by eapply altSubstring_agrees]|].
  destruct (isOneOfLiterals t) eqn:H4.
  { apply (sub_compiled t (λ a, oneOfMatcher (map literal (r_sub a)))). by eapply oneOf_agrees. }
  destruct (isPrefixLiteral t) eqn:H5; [by eapply sub_compiled, prefix_agrees|].
  destruct (isPrefixAltLiterals t) eqn:H6.
  { apply (sub_compiled t (λ a, altPrefixMatcher (map literal (r_sub a)))). by eapply altPrefix_agrees. }
  destruct (numDate_agrees h t Hst Hwf H5 Hlen) as (c & -> & Hc). cbn [mbind res_bind].
  destruct c; [left; by apply Hc|].
  destruct (isEmptyText t) eqn:H7; [left; eexists; split; [done|by apply emptyText_agrees]|].
  destruct (isEmptyTextWithWhitespace t) eqn:H8; [left; eexists; split; [done|by apply emptyWhite_agrees]|].
  destruct (isAnyMatch t) eqn:H9; [left; eexists; split; [done|by apply any_agrees]|].
  apply default_compiled.
Qed.

Lemma compiled_sequiv t t' r : sequiv t t' → compiled t' r → compiled t r.
Proof.
  intros Hq [(m & -> & Hm)|(t2 & e & H1 & H2 & ->)].
  - left. exists m. split; [done|]. intros rs Hv Hn. destruct (Hm rs Hv Hn) as (b & Hb & Hs).
    exists b. split; [done|]. rewrite Hs. symmetry. by apply Hq.
  - right. exists t2, e. split; [by etrans|done].
Qed.

(** ** matcher.go *)
(** A parsed tree in memory: the same but for the addresses. *)
Definition built t h h' t' : Prop :=
  ext h h' ∧ stored h' t' ∧ refine t t' ∧ r_op t' = r_op t ∧ r_flags t' = r_flags t.

Lemma mapM_build ts : Forall (λ t, ∀ h, ∃ h' t', build t h = (h', Ok (r_ptr t')) ∧ built t h h' t') ts →
  ∀ h, ∃ h' ts', mapM_rx build ts h = (h', Ok (map r_ptr ts')) ∧ ext h h' ∧
    Forall (stored h') ts' ∧ Forall2 refine ts ts'.
Proof.
  induction 1 as [|t ts Ht _ IH]; intros h.
  { exists h, []. split; [done|]. split; [done|]. split; constructor. }
  destruct (Ht h) as (h1 & t' & E1 & X1 & S1 & R1 & _).
  destruct (IH h1) as (h2 & ts' & E2 & X2 & S2 & R2).
  exists h2, (t' :: ts'). split.
  { cbn [mapM_rx]. by rewrite (SE_bind_run _ _ _ _ _ E1), (SE_bind_run _ _ _ _ _ E2). }
  split; [by etrans|]. split; [|by constructor]. constructor; [by eapply stored_ext|done].
Qed.

Lemma build_run t : ∀ h, ∃ h' t', build t h = (h', Ok (r_ptr t')) ∧ built t h h' t'.
Proof.
  induction t as [p o f sub rn mn mx IH] using Regexp_rect'. intros h.
  destruct (mapM_build sub IH h) as (h1 & ts & E1 & X1 & S1 & R1).
  destruct (new_regexp_run o f ts rn mn mx h1 S1) as (h2 & q & E2 & X2 & S2 & _).
  exists h2, (Re q o f ts rn mn mx). split.
  { cbn [build]. by rewrite (SE_bind_run _ _ _ _ _ E1). }
  unfold built. conjs; [by etrans|done|by apply refine_sub|done..].
Qed.

(** From an expression in memory to the matcher. *)
Definition finish (turns fuel : nat) (r : positive) : RX stringMatcher :=
  regex ← optimize turns fuel r;
  regex ← Simplify fuel regex;
  r ← load fuel regex;
  lift (compile r).

(** What a call comes to, for enough fuel. *)
Definition comes_to {A} (c : nat → RX A) (h : rstore) (P : res string A → Prop) : Prop :=
  ∃ F h' r, P r ∧ ∀ fuel, F ≤ fuel → c fuel h = (h', r).

Lemma comes_bind {A B} (c : nat → RX A) (k : nat → A → RX B) h h1 a P :
  eventually c h h1 a → comes_to (λ fu, k fu a) h1 P → comes_to (λ fu, c fu ≫= k fu) h P.
Proof.
  intros [F HF] (G & h' & r & HP & HG). exists (F `max` G), h', r. split; [done|]. intros fu Hfu.
  unfold mbind, SE_bind. rewrite HF by lia. apply HG. lia.
Qed.

Lemma comes_impl {A} (c : nat → RX A) h (P Q : res string A → Prop) :
  (∀ r, P r → Q r) → comes_to c h P → comes_to c h Q.
Proof. intros HPQ (F & h' & r & HP & HF). exists F, h', r. auto. Qed.

Lemma finish_settled `{!RegexpLaws} turns t t1 h h1 :
  eventually (λ fu, optimize turns fu (r_ptr t)) h h1 (r_ptr t1) → stored h1 t1 → wf true t1 → sequiv t t1 →
  settled t1 → comes_to (λ fu, finish turns fu (r_ptr t)) h (compiled t).
Proof.
  intros E1 S1 W1 Q1 Hset.
  destruct (Simplify_run true t1 h1 S1 W1) as (h2 & t2 & E2 & X2 & S2 & W2 & N2 & Q2).
  assert (settled t2).
  { destruct (ev_at _ _ _ _ E2) as [f2 E2']. by apply (Simplify_settled f2 t1 h1 h2 t2). }
  unfold finish. eapply comes_bind; [exact E1|]. eapply comes_bind; [exact E2|].
  eapply comes_bind; [by apply load_run|].
  exists 0, h2, (compile t2). split; [|done].
  eapply compiled_sequiv; [|by eapply compile_run]. etrans; [exact Q1|]. by apply tequiv_sequiv.
Qed.

Lemma finish_run `{!RegexpLaws} turns t h : stored h t → wf true t →
  running (λ fu, finish turns fu (r_ptr t)) h ∨ comes_to (λ fu, finish turns fu (r_ptr t)) h (compiled t).
Proof.
  intros Hst Hwf. destruct (optimize_run true turns t h Hst Hwf) as [Hrun|(h1 & t1 & E1 & S1 & W1 & Q1 & Hset)].
  { left. unfold finish. by apply running_bind. }
  right. by eapply finish_settled; [exact E1|..|exact (Hset eq_refl)].
Qed.

Lemma Compile_run `{!RegexpLaws} turns pattern t h : Parse pattern = Ok t → encodable t = true →
  running (λ fu, Compile turns fu pattern) h ∨
  comes_to (λ fu, Compile turns fu pattern) h (compiled t).
Proof.
  intros Hp Henc. pose proof (shaped_wf t (Parse_shaped _ _ Hp) Henc) as Hwf.
  destruct (build_run t h) as (h1 & t1 & E1 & X1 & S1 & [Q1 W1] & _).
  destruct (finish_run turns t1 h1 S1 (W1 _ Hwf)) as [Hrun|Hc]; [left|right].
  - unfold Compile. rewrite Hp. eapply running_then; [by apply ev_run|]. eapply running_then; [by apply ev_run|].
    exact Hrun.
  - unfold Compile. rewrite Hp. eapply comes_bind; [by apply ev_run|]. eapply comes_bind; [by apply ev_run|].
    eapply comes_impl; [|exact Hc]. intros r. apply compiled_sequiv. by apply tequiv_sequiv.
Qed.

(** ** Anchoring *)
Lemma subtrees_below t u : u ∈ concat (map subtrees (r_sub t)) → ∃ c, c ∈ r_sub t ∧ u ∈ subtrees c.
Proof.
  intros (l & Hl & Hu)%list_elem_of_In%in_concat. apply in_map_iff in Hl as (c & <- & Hc).
  exists c. split; by apply list_elem_of_In.
Qed.

Lemma rsize_subtree c u : u ∈ subtrees c → rsize u ≤ rsize c.
Proof.
  revert u. induction c as [p o f sub rn mn mx IH] using Regexp_rect'. intros u Hu.
  simpl in Hu. apply elem_of_cons in Hu as [->|Hu]; [done|].
  apply (subtrees_below (Re p o f sub rn mn mx)) in Hu as (c & Hc & Hu).
  rewrite Forall_forall in IH. specialize (IH c Hc u Hu).
  pose proof (rsize_child (Re p o f sub rn mn mx) c Hc). lia.
Qed.

(** The address of an expression does not occur below it. *)
Lemma ptr_not_below h t c : stored h t → c ∈ r_sub t → ∀ u, u ∈ subtrees c → r_ptr u ≠ r_ptr t.
Proof.
  intros Hst Hc u Hu Hp. pose proof (subtrees_child t c u Hc Hu) as Hsu.
  assert (u = t) as -> by (eapply stored_inj; [by eapply subtrees_stored|done|done]).
  pose proof (rsize_child t c Hc) as H1. pose proof (rsize_subtree c t Hu) as H2. lia.
Qed.

Lemma stored_update h p n u : (∀ v, v ∈ subtrees u → r_ptr v ≠ p) → stored h u →
  stored (mkRStore (<[p := n]> (nodes h)) (arrays h)) u.
Proof.
  induction u as [q o f sub rn mn mx IH] using Regexp_rect'. intros Hne [(sl & Hn & Hs & Hl) Hsub]%stored_node.
  apply stored_node. split.
  - exists sl. split; [|by split]. simpl. rewrite lookup_insert_ne; [done|].
    intros ->. by apply (Hne (Re q o f sub rn mn mx)); [apply subtrees_self|].
  - apply Forall_forall. intros c Hc. rewrite Forall_forall in IH, Hsub. apply IH; [done| |auto].
    intros v Hv. apply Hne. by eapply subtrees_child.
Qed.

Lemma set_Sub_run h t sl ts : stored h t → r_op t = OpConcat → elems_of h sl = map r_ptr ts →
  s_len sl = length ts → Forall (stored h) ts →
  Forall (λ c, ∀ v, v ∈ subtrees c → r_ptr v ≠ r_ptr t) ts →
  ∃ h', set_Sub (r_ptr t) sl h = (h', Ok tt) ∧
    stored h' (Re (r_ptr t) OpConcat (r_flags t) ts (r_rune t) (r_min t) (r_max t)).
Proof.
  intros Hst Ho Hs Hl Hts Hne. destruct t as [p o f sub rn mn mx]. simpl in Ho. subst o.
  destruct (deref_run _ _ _ _ _ _ _ _ Hst) as (sl0 & Hd & _ & _).
  eexists. unfold set_Sub. cbn [r_ptr]. rewrite (SE_bind_run _ _ _ _ _ Hd). split; [done|].
  apply stored_node. split.
  - exists sl. cbn [nodes with_Sub n_Op n_Flags n_Rune n_Min n_Max]. rewrite lookup_insert_eq. by split.
  - apply Forall_forall. intros c Hc. rewrite Forall_forall in Hts, Hne. apply stored_update; [by apply Hne|auto].
Qed.

Definition with_sub t (ts : list Regexp) : Regexp :=
  Re (r_ptr t) (r_op t) (r_flags t) ts (r_rune t) (r_min t) (r_max t).

Definition add_end (front : bool) {A} (a : A) (l : list A) : list A :=
  if front then a :: l else l ++ [a].

Lemma add_end_map {A B} (g : A → B) front a l : map g (add_end front a l) = add_end front (g a) (map g l).
Proof. destruct front; [done|]. simpl. by rewrite map_app. Qed.

Lemma add_end_Forall {A} (P : A → Prop) front a l : P a → Forall P l → Forall P (add_end front a l).
Proof. intros Ha Hl. destruct front; [by constructor|]. apply Forall_app_2; [done|by constructor]. Qed.

(** One more anchor before or after the children. *)
Lemma add_anchor_run (front : bool) h t pat : stored h t → r_op t = OpConcat → r_sub pat = [] →
  ∃ h1 a h2 sl h3, build pat h = (h1, Ok (r_ptr a)) ∧ built pat h h1 a ∧
    (∀ n, nodes h !! r_ptr t = Some n → nodes h1 !! r_ptr t = Some n ∧ elems_of h1 (n_Sub n) = map r_ptr (r_sub t)) ∧
    new_slice (add_end front (r_ptr a) (map r_ptr (r_sub t))) h1 = (h2, Ok sl) ∧
    set_Sub (r_ptr t) sl h2 = (h3, Ok tt) ∧
    stored h3 (with_sub t (add_end front a (r_sub t))).
Proof.
  intros Hst Ho Hpat. destruct pat as [pp po pf psub prn pmn pmx]. simpl in Hpat. subst psub.
  destruct (new_regexp_run po pf [] prn pmn pmx h) as (h1 & q & E1 & X1 & S1 & Hfresh); [constructor|].
  set (a := Re q po pf [] prn pmn pmx) in *.
  destruct (new_slice_run (add_end front (r_ptr a) (map r_ptr (r_sub t))) h1) as (h2 & sl & E2 & X2 & Hel & Hlen).
  rewrite <- add_end_map in Hel, Hlen. rewrite length_map in Hlen.
  assert (Hst2 : stored h2 t) by (eapply stored_ext; [|exact Hst]; by etrans).
  assert (Hsub2 : Forall (stored h2) (r_sub t)) by (destruct t; by apply stored_node in Hst2 as [_ ?]).
  destruct (set_Sub_run h2 t sl (add_end front a (r_sub t))) as (h3 & E3 & S3); try done.
  - apply add_end_Forall; [by eapply stored_ext|done].
  - apply add_end_Forall; [|apply Forall_forall; intros c Hc; by eapply ptr_not_below].
    intros v Hv. simpl in Hv. apply list_elem_of_singleton in Hv as ->. simpl. intros ->.
    destruct (stored_ptr h t Hst) as [n Hn]. congruence.
  - exists h1, a, h2, sl, h3. conjs; [done| | |done|done|].
    + unfold built. conjs; [done..| |done|done]. by apply refine_sub.
    + intros n Hn. split; [eapply lookup_weaken; [exact Hn|apply X1]|].
      destruct t as [p o f sub rn mn mx]. apply stored_node in Hst as [(sl0 & Hsl & Hs & Hl) _].
      simpl in Hn. rewrite Hsl in Hn. injection Hn as <-. cbn [n_Sub r_sub].
      rewrite elems_of_ext with h h1 sl0; [done|done|]. rewrite Hs, length_map. by symmetry.
    + unfold with_sub. by rewrite Ho.
Qed.

(** The anchored expression finds a text when the expression matches all of it. *)
Definition exact t' t : Prop := ∀ s, search s t' ↔ den s t 0 (length s).

Lemma rseq_begin s b rest i j : r_op b = OpBeginText →
  rseq (map (den s) (b :: rest)) i j ↔ i = 0 ∧ rseq (map (den s) rest) 0 j.
Proof.
  intros Hb. cbn [map rseq]. split.
  - intros (k & Hk & Hj). apply begin_den in Hk as [-> ->]; done.
  - intros [-> Hj]. exists 0. split; [by apply begin_den|done].
Qed.

Lemma rseq_end s e init i j : r_op e = OpEndText → i ≤ length s →
  rseq (map (den s) (init ++ [e])) i j ↔ j = length s ∧ rseq (map (den s) init) i (length s).
Proof.
  intros He Hi. rewrite map_app. cbn [map]. rewrite (rseq_snoc _ _ i j). split.
  - intros (k & Hk & Hj). apply end_den in Hj as [-> ->]; done.
  - intros [-> Hj]. exists (length s). split; [done|by apply end_den].
Qed.

(** The concatenation after the two steps. *)
Lemma anchored_exact t sub1 sub2 b rest init e f rn mn mx q :
  r_op t = OpConcat → sub1 = b :: rest → r_op b = OpBeginText → sub2 = init ++ [e] → r_op e = OpEndText →
  r_sub t = sub1 ∨ r_sub t = rest → sub1 = sub2 ∨ sub1 = init →
  exact (Re q OpConcat f sub2 rn mn mx) t.
Proof.
  intros Ho H1 Hb H2 He Hfront Hback s. rewrite search_concat.
  assert (Ht : ∀ i j, den s t i j ↔ rseq (map (den s) (r_sub t)) i j) by (destruct t; simpl in Ho; by subst).
  assert (Hhead : ∃ rest2, sub2 = b :: rest2).
  { destruct Hback as [<-|Hi]; [by exists rest|]. exists (rest ++ [e]). by rewrite H2, <- Hi, H1. }
  destruct Hhead as [rest2 Hhead].
  assert (Hmid : rseq (map (den s) sub2) 0 (length s) ↔ rseq (map (den s) sub1) 0 (length s)).
  { destruct Hback as [->|Hi]; [done|]. rewrite H2, Hi. rewrite rseq_end by (done || lia). naive_solver. }
  assert (Hs1 : rseq (map (den s) sub1) 0 (length s) ↔ den s t 0 (length s)).
  { rewrite Ht. destruct Hfront as [-> | ->]; [done|]. rewrite H1, rseq_begin by done. naive_solver. }
  rewrite <- Hs1, <- Hmid. split.
  - intros (i & j & Hi & Hd). assert (i = 0) as ->.
    { rewrite Hhead in Hd. by apply rseq_begin in Hd as [-> _]. }
    rewrite H2 in Hd |- *. apply rseq_end in Hd as [-> Hd]; [|done..]. apply rseq_end; [done..|]. by split.
  - intros Hd. exists 0, (length s). split; [lia|done].
Qed.

Lemma eqPrefix_begin t : r_op t = OpConcat → eqPrefixRegex t patBeginText = true →
  ∃ b rest, r_sub t = b :: rest ∧ r_op b = OpBeginText.
Proof.
  unfold eqPrefixRegex. intros ->. simpl. destruct (r_sub t) as [|b rest]; [done|].
  intros (Ho & _)%eqRegex_inv. eauto.
Qed.

Lemma eqSuffix_end t : r_op t = OpConcat → eqSuffixRegex t patEndText = true →
  ∃ init e, r_sub t = init ++ [e] ∧ r_op e = OpEndText.
Proof.
  unfold eqSuffixRegex. intros ->. simpl. destruct (last (r_sub t)) as [e|] eqn:Hl; [|done].
  apply last_Some in Hl as [init Hl]. intros (Ho & _)%eqRegex_inv. eauto.
Qed.

(** The two conditional steps on a concatenation. *)
Lemma front_run t h n : stored h t → wf true t → r_op t = OpConcat → nodes h !! r_ptr t = Some n →
  ∃ h' t' b rest, eventually (λ _, if negb (eqPrefixRegex t patBeginText) then
      b ← build patBeginText; rs ← elems (n_Sub n); sl ← new_slice (b :: rs); set_Sub (r_ptr t) sl
    else mret tt) h h' tt ∧
    stored h' t' ∧ wf true t' ∧ r_ptr t' = r_ptr t ∧ r_op t' = OpConcat ∧
    r_sub t' = b :: rest ∧ r_op b = OpBeginText ∧ (r_sub t = r_sub t' ∨ r_sub t = rest).
Proof.
  intros Hst Hwf Ho Hn. destruct (eqPrefixRegex t patBeginText) eqn:Hp; simpl.
  { destruct (eqPrefix_begin t Ho Hp) as (b & rest & Hs & Hb). exists h, t, b, rest.
    split; [apply ev_ret|]. conjs; try done. by left. }
  destruct (add_anchor_run true h t patBeginText Hst Ho) as (h1 & a & h2 & sl & h3 & E1 & B1 & Hel & E2 & E3 & S3);
    [done|]. destruct B1 as (_ & _ & [_ Wa] & Oa & _). destruct (Hel n Hn) as [_ Hel'].
  exists h3, (with_sub t (a :: r_sub t)), a, (r_sub t). split.
  { apply ev_run. rewrite (SE_bind_run _ _ _ _ _ E1).
    erewrite (SE_bind_run (elems _)); [|unfold elems; by rewrite Hel'].
    by rewrite (SE_bind_run _ _ _ _ _ E2). }
  conjs; try done; [|by right]. apply wf_unfold in Hwf as [Hw Hws]. apply wf_unfold.
  unfold wf_node in *. unfold with_sub. cbn [r_op r_sub r_flags]. rewrite Ho in Hw |- *.
  split; [naive_solver|]. constructor; [|done]. apply Wa. apply wf_unfold. by split; [|constructor].
Qed.

Lemma back_run t h : stored h t → wf true t → r_op t = OpConcat →
  ∃ h' t' init e, eventually (λ _, if negb (eqSuffixRegex t patEndText) then
      e ← build patEndText; n ← deref (r_ptr t); rs ← elems (n_Sub n); sl ← new_slice (rs ++ [e]);
      set_Sub (r_ptr t) sl
    else mret tt) h h' tt ∧
    stored h' t' ∧ wf true t' ∧ r_ptr t' = r_ptr t ∧ r_op t' = OpConcat ∧
    r_sub t' = init ++ [e] ∧ r_op e = OpEndText ∧ (r_sub t = r_sub t' ∨ r_sub t = init).
Proof.
  intros Hst Hwf Ho. destruct (eqSuffixRegex t patEndText) eqn:Hp; simpl.
  { destruct (eqSuffix_end t Ho Hp) as (init & e & Hs & He). exists h, t, init, e.
    split; [apply ev_ret|]. conjs; try done. by left. }
  destruct (add_anchor_run false h t patEndText Hst Ho) as (h1 & a & h2 & sl & h3 & E1 & B1 & Hel & E2 & E3 & S3);
    [done|]. destruct B1 as (_ & _ & [_ Wa] & Oa & _).
  destruct (stored_ptr h t Hst) as [n Hn]. destruct (Hel n Hn) as [Hn1 Hel'].
  exists h3, (with_sub t (r_sub t ++ [a])), (r_sub t), a. split.
  { apply ev_run. rewrite (SE_bind_run _ _ _ _ _ E1).
    erewrite (SE_bind_run (deref _)); [|unfold deref; by rewrite Hn1].
    erewrite (SE_bind_run (elems _)); [|unfold elems; by rewrite Hel'].
    by rewrite (SE_bind_run _ _ _ _ _ E2). }
  conjs; try done; [|by right]. apply wf_unfold in Hwf as [Hw Hws]. apply wf_unfold.
  unfold wf_node in *. unfold with_sub. cbn [r_op r_sub r_flags]. rewrite Ho in Hw |- *.
  split; [split; [by destruct (r_sub t)|naive_solver]|]. apply Forall_app_2; [done|]. constructor; [|done].
  apply Wa. apply wf_unfold. by split; [|constructor].
Qed.

Lemma anchor_run t h : stored h t → wf true t → (r_op t ≠ OpConcat → isRegular t = true) →
  ∃ h' t', eventually (λ fu, anchor fu (r_ptr t)) h h' (r_ptr t') ∧ stored h' t' ∧ wf true t' ∧ exact t' t.
Proof.
  intros Hst Hwf Hreg. destruct (stored_ptr h t Hst) as [n Hn].
  destruct (stored_root h t n Hst Hn) as [Hop _].
  assert (Hd : deref (r_ptr t) h = (h, Ok n)) by (unfold deref; by rewrite Hn).
  destruct (decide (r_op t = OpConcat)) as [Ho|Ho].
  - destruct (front_run t h n Hst Hwf Ho Hn) as (h1 & t1 & b & rest & E1 & S1 & W1 & P1 & O1 & Hs1 & Hb & Hor1).
    destruct (back_run t1 h1 S1 W1 O1) as (h2 & t2 & init & e & E2 & S2 & W2 & P2 & O2 & Hs2 & He & Hor2).
    exists h2, t2. conjs; [|done..|].
    + rewrite P2, P1. rewrite P1 in E2. unfold anchor. eapply ev_step; [exact Hd|].
      destruct (decide (n_Op n ≠ OpConcat)) as [Hbad|_]; [by rewrite <- Hop in Hbad|].
      eapply ev_bind; [by apply load_run|]. eapply ev_bind; [exact E1|].
      eapply ev_bind; [rewrite <- P1; by apply load_run|]. eapply ev_bind; [exact E2|]. apply ev_ret.
    + destruct t2 as [q o f sub rn mn mx]. simpl in O2, Hs2. subst o.
      eapply (anchored_exact t (r_sub t1) sub b rest init e); try done.
  - destruct (build_run patBeginText h) as (h1 & b & E1 & X1 & S1 & [_ W1] & O1 & _).
    destruct (build_run patEndText h1) as (h2 & e & E2 & X2 & S2 & [_ W2] & O2 & _).
    destruct (new_regexp_run OpConcat (n_Flags n) [b; t; e] [] 0 0 h2) as (h3 & q & E3 & X3 & S3 & _).
    { fl; [by eapply stored_ext| |done]. eapply stored_ext; [exact X2|]. by eapply stored_ext. }
    exists h3, (Re q OpConcat (n_Flags n) [b; t; e] [] 0 0). conjs; [|done| |].
    + unfold anchor. eapply ev_step; [exact Hd|]. 
      destruct (decide (n_Op n ≠ OpConcat)) as [_|Hbad]; [|by rewrite <- Hop in Hbad].
      apply ev_run. by rewrite (SE_bind_run _ _ _ _ _ E1), (SE_bind_run _ _ _ _ _ E2).
    + apply wf_unfold. split.
      * split; [done|]. intros _. specialize (Hreg Ho). apply regular_flags in Hreg.
        replace (n_Flags n) with (r_flags t); [done|]. destruct t. apply stored_node in Hst as [(sl & Hsl & _) _].
        simpl in Hn. rewrite Hsl in Hn. by injection Hn as <-.
      * simpl. fl; [apply W1|done|apply W2]; apply wf_unfold; by split; [|constructor].
    + intros s. by apply search_exact_den.
Qed.

(** Roots that [Simplify] keeps. *)
Definition plain_root t : Prop :=
  r_op t ≠ OpStar ∧ r_op t ≠ OpPlus ∧ r_op t ≠ OpQuest ∧ r_op t ≠ OpRepeat.

Lemma stored_flags h t n : stored h t → nodes h !! r_ptr t = Some n → r_flags t = n_Flags n.
Proof.
  destruct t as [p o f sub rn mn mx]. intros [(sl & Hsl & _) _]%stored_node Hn. simpl in Hn.
  rewrite Hsl in Hn. by injection Hn as <-.
Qed.

Lemma Simplify_plain fuel t h h' t' : stored h t → stored h' t' → ext h h' → plain_root t →
  Simplify fuel (r_ptr t) h = (h', Ok (r_ptr t')) → r_op t' = r_op t ∧ r_flags t' = r_flags t.
Proof.
  intros Ht Ht' [Hx _] (H1 & H2 & H3 & H4) Hr. destruct fuel as [|fuel]; [done|]. cbn [Simplify] in Hr.
  run_inv Hr as ? n Hd. apply deref_inv in Hd as [-> Hn].
  destruct (stored_root h t n Ht Hn) as [Ho _]. pose proof (stored_flags h t n Ht Hn) as Hf.
  assert (Hsame : r_ptr t' = r_ptr t → r_op t' = r_op t ∧ r_flags t' = r_flags t).
  { intros Hp. assert (Hn' : nodes h' !! r_ptr t' = Some n) by (rewrite Hp; by eapply lookup_weaken).
    destruct (stored_root h' t' n Ht' Hn') as [Ho' _]. rewrite (stored_flags h' t' n Ht' Hn'). split; congruence. }
  rewrite Ho in H1, H2, H3, H4.
  destruct (n_Op n) eqn:Hop; try (injection Hr as Hh Hp; by apply Hsame); try done.
  all: run_inv Hr as ? subs He; injection He as <- <-; run_inv Hr as h1 nsubs Hm; case_bool_decide as Heq;
    [injection Hr as Hh Hp; by apply Hsame|].
  all: apply new_regexp_inv in Hr as [a Hp]; destruct (stored_root _ _ _ Ht' Hp) as [Ho' _];
    rewrite (stored_flags _ _ _ Ht' Hp), Ho'; simpl; split; congruence.
Qed.

(** [m] matches the texts all of which the expression matches. *)
Definition agrees_exact (m : stringMatcher) t : Prop := ∀ rs, Forall valid_rune rs → nl_free rs →
  ∃ b, MatchString m (encode rs) = Ok b ∧ (b = true ↔ den rs t 0 (length rs)).

Definition compiled_exact t (r : res string stringMatcher) : Prop :=
  (∃ m, r = Ok m ∧ agrees_exact m t) ∨ (∃ e, r = Err e).

Lemma CompileExact_run `{!RegexpLaws} turns pattern t h : Parse pattern = Ok t → encodable t = true → plain_root t →
  (r_op t ≠ OpConcat → isRegular t = true) →
  running (λ fu, CompileExact turns fu pattern) h ∨
  comes_to (λ fu, CompileExact turns fu pattern) h (compiled_exact t).
Proof.
  intros Hp Henc Hplain Hreg. pose proof (shaped_wf t (Parse_shaped _ _ Hp) Henc) as Hwf.
  destruct (build_run t h) as (h1 & t1 & E1 & X1 & S1 & [Q1 W1] & O1 & F1).
  destruct (Simplify_run true t1 h1 S1 (W1 _ Hwf)) as (h2 & t2 & E2 & X2 & S2 & W2 & N2 & Q2).
  assert (Hroot : r_op t2 = r_op t1 ∧ r_flags t2 = r_flags t1).
  { destruct (ev_at _ _ _ _ E2) as [f2 E2']. apply (Simplify_plain f2 t1 h1 h2 t2); try done.
    unfold plain_root. by rewrite O1. }
  destruct Hroot as [O2 F2].
  destruct (anchor_run t2 h2 S2 W2) as (h3 & t3 & E3 & S3 & W3 & Q3).
  { unfold isRegular in *. rewrite F2, F1, O2, O1. done. }
  assert (Hpost : ∀ r, compiled t3 r → compiled_exact t r).
  { intros r [(m & -> & Hm)|(t' & e & _ & _ & ->)]; [left|right; by exists e]. exists m. split; [done|].
    intros rs Hv Hn. destruct (Hm rs Hv Hn) as (b & Hb & Hiff). exists b. split; [done|].
    rewrite Hiff, (Q3 rs), <- (Q2 rs 0 (length rs)). symmetry. apply Q1. }
  destruct (finish_run turns t3 h3 S3 W3) as [Hrun|Hc]; [left|right]; unfold CompileExact; rewrite Hp.
  - eapply running_then; [by apply ev_run|]. eapply running_then; [by apply ev_run|].
    eapply running_then; [exact E2|]. eapply running_then; [exact E3|]. exact Hrun.
  - eapply comes_bind; [by apply ev_run|]. eapply comes_bind; [by apply ev_run|].
    eapply comes_bind; [exact E2|]. eapply comes_bind; [exact E3|]. eapply comes_impl; [exact Hpost|exact Hc].
Qed.
End optimize.
