(* ===== verification/MatchStable.v ===== *)
(** * Expressions on which the optimiser is known to end

    The optimiser of package match rewrites until a turn changes nothing.  For
    the expressions of this file the number of turns is bounded: once their
    captures are removed they hold no counted repetition and no doubled loop,
    and a concatenation at the root has no concatenation among its members and
    no two equal neighbours.  The first turn removes the captures, every later
    turn that changes anything shortens the concatenation at the root. *)
From S2P Require Import Prelude GoStrings GoUtf8 GoRegexp RegexpSem RegexpStore Match MatchFacts MatchFlatten MatchCompile MatchDate MatchOptimize.

Open Scope list_scope.
Open Scope nat_scope.

(** ** The class *)
(** Nothing [Simplify] changes; captures only with [caps]. *)
Definition simple_node (caps : bool) (t : Regexp) : bool :=
  match r_op t with
  | OpRepeat => false
  | OpCapture => caps
  | OpStar | OpPlus | OpQuest =>
      match r_sub t with
      | [c] => negb (bool_decide (r_op c = OpEmptyMatch)) &&
               negb (bool_decide (r_op t = r_op c ∧ Z.land (r_flags t) NonGreedy = Z.land (r_flags c) NonGreedy))
      | _ => false
      end
  | _ => true
  end.

Fixpoint simple (caps : bool) (t : Regexp) : bool :=
  simple_node caps t && (let 'Re _ _ _ sub _ _ _ := t in forallb (simple caps) sub).

Fixpoint distinct_neighbours (l : list Regexp) : bool :=
  match l with
  | x :: (y :: _) as l' => negb (eqRegex x y) && distinct_neighbours l'
  | _ => true
  end.

Definition flat_concat (l : list Regexp) : bool :=
  forallb (λ c, negb (bool_decide (r_op c = OpConcat))) l.

Definition flat (t : Regexp) : bool :=
  simple false t &&
  (if bool_decide (r_op t = OpConcat) then flat_concat (r_sub t) && distinct_neighbours (r_sub t) else true).

Definition tame (t : Regexp) : bool := simple true t && flat (strip t).

(** A bound on the turns. *)
Definition members (t : Regexp) : nat := if bool_decide (r_op t = OpConcat) then S (length (r_sub t)) else 0.
Definition turns_enough (t : Regexp) : nat := S (S (members (strip t))).

Lemma simple_unfold caps t : simple caps t = simple_node caps t && forallb (simple caps) (r_sub t).
Proof. by destruct t. Qed.

(** ** Addresses do not matter *)
Lemma forall2b_eq_map {A B} (f : A → A → bool) (g : A → B) l k :
  Forall (λ x, ∀ y, f x y = true ↔ g x = g y) l → forall2b f l k = true ↔ map g l = map g k.
Proof.
  intros Hl. revert k. induction Hl as [|x l Hx _ IH]; intros [|y k]; simpl; try done.
  rewrite andb_true_iff, Hx, IH. split; [by intros [-> ->]|]. by intros [= -> ->].
Qed.

Lemma eqRegex_erase t : ∀ u, eqRegex t u = true ↔ erase t = erase u.
Proof.
  induction t as [p o f sub rn mn mx IH] using Regexp_rect'. intros [p' o' f' sub' rn' mn' mx'].
  cbn [eqRegex erase]. rewrite !andb_true_iff, !bool_decide_eq_true, !Z.eqb_eq.
  rewrite (forall2b_eq_map eqRegex erase sub sub' IH).
  assert (Hz : forall2b Z.eqb rn rn' = true ↔ rn = rn').
  { rewrite (forall2b_eq_map Z.eqb id); [by rewrite !map_id|]. apply Forall_true. intros x y. apply Z.eqb_eq. }
  rewrite Hz. split.
  - intros [[[[[[[-> ->] ->] ->] _] _] ->] ->]. done.
  - intros [= -> -> Hs -> -> ->]. pose proof (f_equal length Hs) as Hl. rewrite !length_map in Hl. by conjs.
Qed.

Lemma erase_erase t : erase (erase t) = erase t.
Proof.
  induction t as [p o f sub rn mn mx IH] using Regexp_rect'. simpl. f_equal. rewrite map_map.
  apply map_ext_in. intros x Hx. rewrite Forall_forall in IH. by apply IH, list_elem_of_In.
Qed.

Lemma eqRegex_l t u : eqRegex (erase t) u = eqRegex t u.
Proof. apply eq_true_iff_eq. by rewrite !eqRegex_erase, erase_erase. Qed.
Lemma eqRegex_lr t u : eqRegex (erase t) (erase u) = eqRegex t u.
Proof. apply eq_true_iff_eq. by rewrite !eqRegex_erase, !erase_erase. Qed.

Lemma r_sub_erase t : r_sub (erase t) = map erase (r_sub t).
Proof. by destruct t. Qed.
Lemma r_op_erase t : r_op (erase t) = r_op t.
Proof. by destruct t. Qed.
Lemma r_flags_erase t : r_flags (erase t) = r_flags t.
Proof. by destruct t. Qed.

Lemma simple_erase caps t : simple caps (erase t) = simple caps t.
Proof.
  induction t as [p o f sub rn mn mx IH] using Regexp_rect'. rewrite !simple_unfold, r_sub_erase. f_equal.
  - unfold simple_node. rewrite r_op_erase, r_flags_erase, r_sub_erase. cbn [r_op r_flags r_sub].
    destruct o; try done; (destruct sub as [|c [|]]; [done| |done]); cbn [map]; by rewrite r_op_erase, r_flags_erase.
  - cbn [r_sub]. induction IH as [|x l Hx _ IHl]; [done|]. simpl. by rewrite Hx, IHl.
Qed.

Lemma last_map {A B} (g : A → B) l : last (map g l) = g <$> last l.
Proof. change (map g l) with (g <$> l). apply fmap_last. Qed.

Lemma distinct_erase l : distinct_neighbours (map erase l) = distinct_neighbours l.
Proof.
  induction l as [|x [|y l] IH]; [done..|]. cbn [map distinct_neighbours] in *. by rewrite eqRegex_lr, IH.
Qed.

Lemma flat_erase t : flat (erase t) = flat t.
Proof.
  unfold flat. rewrite simple_erase, r_op_erase, r_sub_erase, distinct_erase.
  assert (Hf : flat_concat (map erase (r_sub t)) = flat_concat (r_sub t)).
  { unfold flat_concat. induction (r_sub t) as [|x l IH]; [done|]. cbn [map forallb]. by rewrite r_op_erase, IH. }
  by rewrite Hf.
Qed.

Lemma members_erase t : members (erase t) = members t.
Proof. unfold members. by rewrite r_op_erase, r_sub_erase, length_map. Qed.

Lemma erase_strip t : erase (strip t) = strip (erase t).
Proof.
  induction t as [p o f sub rn mn mx IH] using Regexp_rect'.
  assert (Hm : map erase (map strip sub) = map strip (map erase sub)).
  { rewrite !map_map. apply map_ext_in. intros x Hx. rewrite Forall_forall in IH. by apply IH, list_elem_of_In. }
  destruct (decide (o = OpCapture)) as [->|Ho]; [|rewrite strip_node by done; cbn [erase]; by rewrite strip_node, Hm].
  destruct sub as [|x [|y sub]]; [done| |by cbn [strip erase]; rewrite Hm]. cbn [strip erase map].
  by apply Forall_cons in IH as [? _].
Qed.

(** ** Transformations that change nothing *)
Section same.
Context `{RegexpLib}.

Lemma ev_unique {A} (c : nat → RX A) h h1 h2 a b :
  eventually c h h1 a → eventually c h h2 b → h1 = h2 ∧ a = b.
Proof.
  intros [F HF] [G HG]. specialize (HF (F `max` G) ltac:(lia)). specialize (HG (F `max` G) ltac:(lia)).
  rewrite HF in HG. by injection HG as <- <-.
Qed.

Lemma mapM_same {B} (g : nat → positive → RX B) (out : Regexp → B) ts h :
  Forall (λ t, eventually (λ fu, g fu (r_ptr t)) h h (out t)) ts →
  eventually (λ fu, mapM_rx (g fu) (map r_ptr ts)) h h (map out ts).
Proof.
  induction 1 as [|t ts Ht _ IH]; simpl; [apply ev_ret|].
  eapply ev_bind; [exact Ht|]. eapply ev_bind; [exact IH|]. apply ev_ret.
Qed.

(** The hypotheses of an induction over the children. *)
Lemma Forall_same {P : Regexp → Prop} caps (h : rstore) sub :
  Forall (λ t, stored h t → simple caps t = true → P t) sub → Forall (stored h) sub →
  forallb (simple caps) sub = true → Forall P sub.
Proof.
  intros IH Hst Hs. rewrite forallb_forall in Hs. rewrite Forall_forall in *. intros t Ht.
  apply IH; [done|auto|]. by apply Hs, list_elem_of_In.
Qed.

Lemma Simplify_same caps t h : stored h t → simple caps t = true →
  eventually (λ fu, Simplify fu (r_ptr t)) h h (r_ptr t).
Proof.
  induction t as [p o f sub rn mn mx IH] using Regexp_rect'. intros Hst Hsim.
  destruct (deref_run _ _ _ _ _ _ _ _ Hst) as (sl & Hd & Hs & Hl).
  apply stored_node in Hst as [_ Hsub]. rewrite simple_unfold, andb_true_iff in Hsim. destruct Hsim as [Hn Hc].
  pose proof (Forall_same caps h sub IH Hsub Hc) as Hch. cbn [r_ptr] in *.
  eapply ev_S; [done|]. eapply ev_step; [exact Hd|]. cbn [n_Op n_Sub n_Flags].
  unfold simple_node in Hn. cbn [r_op r_sub r_flags] in Hn.
  destruct o; try done; try apply ev_ret.
  2-4: (destruct sub as [|c [|]]; try done; apply andb_true_iff in Hn as [He Hg];
    rewrite negb_true_iff, bool_decide_eq_false in He, Hg; apply Forall_cons in Hch as [Hc1 _];
    apply Forall_cons in Hsub as [Hst1 _];
    eapply ev_step; [by eapply index_run; [exact Hs|]|]; eapply ev_bind; [exact Hc1|];
    destruct c as [pc oc fc subc rnc mnc mxc]; destruct (deref_run _ _ _ _ _ _ _ _ Hst1) as (slc & Hdc & _);
    apply ev_run; unfold simplify1; cbn [r_ptr]; rewrite (SE_bind_run _ _ _ _ _ Hdc); cbn [n_Op n_Flags r_op r_flags] in *;
    rewrite decide_False by done; rewrite decide_False by done;
    unfold mbind, SE_bind; rewrite Hd; cbn [n_Sub n_Op n_Flags]; unfold index; rewrite Hs; cbn [map lookup list_lookup r_ptr];
    rewrite bool_decide_true by done; done).
  all: (eapply ev_step; [unfold elems; by rewrite Hs|]; eapply ev_bind; [apply (mapM_same Simplify r_ptr); exact Hch|];
    rewrite bool_decide_true by done; apply ev_ret).
Qed.

Lemma existsb_unchanged ts : existsb fst (map (λ t, (false, r_ptr t)) ts) = false.
Proof. by induction ts. Qed.

Lemma uncapture_same t h : stored h t → simple false t = true →
  eventually (λ fu, uncapture fu (r_ptr t)) h h (false, r_ptr t).
Proof.
  induction t as [p o f sub rn mn mx IH] using Regexp_rect'. intros Hst Hsim.
  destruct (deref_run _ _ _ _ _ _ _ _ Hst) as (sl & Hd & Hs & Hl).
  apply stored_node in Hst as [_ Hsub]. rewrite simple_unfold, andb_true_iff in Hsim. destruct Hsim as [Hn Hc].
  pose proof (Forall_same false h sub IH Hsub Hc) as Hch. cbn [r_ptr] in *.
  assert (Hnc : o ≠ OpCapture) by (intros ->; done).
  eapply ev_S; [done|]. eapply ev_step; [exact Hd|]. cbn [n_Op n_Sub].
  destruct (decide (o = OpCapture ∧ s_len sl = 1)) as [[? _]|_]; [done|].
  eapply ev_step; [by rewrite decide_False|]. cbn beta iota. cbn [n_Sub].
  eapply ev_step; [unfold elems; by rewrite Hs|].
  eapply ev_bind; [apply (mapM_same uncapture (λ t, (false, r_ptr t))); exact Hch|].
  rewrite existsb_unchanged. apply ev_ret.
Qed.

Lemma merge_pair_same x y h : stored h x → stored h y → r_op x ≠ OpRepeat → r_op x ≠ OpConcat →
  eqRegex x y = false → eventually (λ fu, merge_pair fu (r_ptr x) (r_ptr y)) h h None.
Proof.
  intros Hx Hy Hr Hc He. pose proof (eq_nodes_run h x y Hx Hy) as Hsame. rewrite He in Hsame.
  assert (Hrep : isConcatRepetition x = Ok false) by (unfold isConcatRepetition; by rewrite bool_decide_true).
  pose proof (is_rep_run h x false Hx Hrep) as Hisrep.
  destruct x as [p o f sub rn mn mx]. destruct (deref_run _ _ _ _ _ _ _ _ Hx) as (sl & Hd & _). cbn [r_ptr r_op] in *.
  unfold merge_pair. eapply ev_step; [exact Hd|]. cbn [n_Op n_Sub].
  destruct (decide (o = OpRepeat)) as [|_]; [done|]. eapply ev_bind; [apply ev_ret|]. cbn beta iota.
  eapply ev_bind; [exact Hisrep|]. eapply ev_bind; [apply ev_ret|]. cbn beta iota.
  eapply ev_bind; [exact Hsame|]. apply ev_ret.
Qed.

(** No neighbours are merged: the loop copies all elements but the last. *)
Lemma merge_loop_same us h : Forall (stored h) us → Forall (λ x, r_op x ≠ OpRepeat ∧ r_op x ≠ OpConcat) us →
  ∀ k i cs lm, distinct_neighbours (drop i us) = true → length us ≤ i + k → i < length us → 0 < k →
  eventually (λ fu, merge_loop k fu (map r_ptr us) i (S i) cs lm false) h h
    (cs ++ map r_ptr (take (length us - S i) (drop i us)), lm, false).
Proof.
  intros Hst Hop. induction k as [|k IH]; intros i cs lm Hd Hk Hi Hpos; [lia|].
  destruct (lookup_lt_is_Some_2 us i Hi) as [x Hx]. pose proof (drop_S _ _ _ Hx) as Hdrop. rewrite Hdrop in Hd |- *.
  cbn [merge_loop]. rewrite !list_lookup_fmap, Hx. cbn [fmap option_fmap option_map].
  destruct (us !! S i) as [y|] eqn:Hy; cbn [fmap option_fmap option_map].
  2: { apply lookup_ge_None in Hy. replace (length us - S i) with 0 by lia. cbn [take map]. rewrite app_nil_r. apply ev_ret. }
  pose proof (lookup_lt_Some _ _ _ Hy) as Hlt. pose proof (drop_S _ _ _ Hy) as Hdrop'.
  rewrite Hdrop' in Hd. cbn [distinct_neighbours] in Hd. apply andb_true_iff in Hd as [Hne Hd].
  apply negb_true_iff in Hne. rewrite Forall_lookup in Hst, Hop. destruct (Hop i x Hx).
  eapply ev_bind; [apply merge_pair_same; eauto|]. cbn beta iota.
  replace (length us - S i) with (S (length us - S (S i))) by lia. cbn [take map].
  set (rest := map r_ptr (take _ (drop (S i) us))).
  replace (cs ++ r_ptr x :: rest) with ((cs ++ [r_ptr x]) ++ rest) by (by rewrite <- app_assoc).
  apply IH; [rewrite Hdrop'; exact Hd|lia..].
Qed.

Lemma flat_members t : simple false t = true → flat_concat (r_sub t) = true →
  Forall (λ x, r_op x ≠ OpRepeat ∧ r_op x ≠ OpConcat) (r_sub t).
Proof.
  rewrite simple_unfold, andb_true_iff. intros [_ Hs] Hf. unfold flat_concat in Hf. rewrite forallb_forall in Hs, Hf.
  apply Forall_forall. intros x Hx%list_elem_of_In. specialize (Hs x Hx). specialize (Hf x Hx).
  rewrite simple_unfold, andb_true_iff in Hs. destruct Hs as [Hs _].
  rewrite negb_true_iff, bool_decide_eq_false in Hf. split; [|done]. intros Ho. unfold simple_node in Hs. by rewrite Ho in Hs.
Qed.

(** The members of a flat concatenation are left alone. *)
Lemma concatRepetition_member x h : stored h x → r_op x ≠ OpConcat →
  eventually (λ fu, concatRepetition fu (r_ptr x)) h h (false, r_ptr x).
Proof.
  destruct x as [p o f sub rn mn mx]. intros Hst Ho. destruct (deref_run _ _ _ _ _ _ _ _ Hst) as (sl & Hd & _).
  cbn [r_op] in Ho. eapply ev_S; [done|]. eapply ev_step; [exact Hd|]. cbn [n_Op].
  destruct (decide (o ≠ OpConcat)); [apply ev_ret|tauto].
Qed.

(** A concatenation of distinct members that is no repetition is copied. *)
Lemma concatRepetition_copy p f sub rn mn mx h : let t := Re p OpConcat f sub rn mn mx in
  stored h t → sub ≠ [] → distinct_neighbours sub = true →
  Forall (λ x, r_op x ≠ OpRepeat ∧ r_op x ≠ OpConcat) sub → isConcatRepetition t = Ok false →
  ∃ h' q, eventually (λ fu, concatRepetition fu p) h h' (false, q) ∧ stored h' (Re q OpConcat f sub [] 0 0).
Proof.
  intros t Hst Hne Hdn Hm Hb. destruct (is_rep_run h t false Hst Hb) as [F HF].
  destruct (deref_run _ _ _ _ _ _ _ _ Hst) as (sl & Hd & Hs & Hl). apply stored_node in Hst as [_ Hsub].
  destruct (new_regexp_run OpConcat f sub [] 0 0 h Hsub) as (h' & q & Enew & Hx & Hst' & _).
  exists h', q. split; [|done].
  destruct (mapM_same concatRepetition (λ t, (false, r_ptr t)) sub h) as [G HG].
  { apply Forall_forall. intros x Hin. rewrite Forall_forall in Hsub, Hm. apply concatRepetition_member; [auto|by apply Hm]. }
  assert (Hlen : 0 < length sub) by (destruct sub; simpl; [done|lia]).
  destruct (merge_loop_same sub h Hsub Hm (S (length sub)) 0 [] (-1)) as [L HL]; [by rewrite drop_0|lia|lia|lia|].
  rewrite drop_0 in HL. cbn [app] in HL.
  exists (S (F `max` (G `max` L))). intros [|fu] Hfu; [lia|]. cbn [concatRepetition].
  rewrite (SE_bind_run _ _ _ _ _ Hd). cbn [n_Op n_Sub n_Flags]. destruct (decide (OpConcat ≠ OpConcat)); [done|].
  rewrite (SE_bind_run _ _ _ _ _ (HF (S fu) ltac:(lia))). cbn beta iota.
  erewrite (SE_bind_run (elems _)); [|unfold elems; by rewrite Hs].
  rewrite (SE_bind_run _ _ _ _ _ (HG fu ltac:(lia))), existsb_unchanged.
  replace ((map (λ t, (false, r_ptr t)) sub).*2) with (map r_ptr sub)
    by (change (map r_ptr sub = map snd (map (λ t : Regexp, (false, r_ptr t)) sub)); by rewrite map_map).
  rewrite length_map, (SE_bind_run _ _ _ _ _ (HL (S fu) ltac:(lia))). cbn beta iota.
  rewrite decide_True, last_map by lia.
  destruct (last sub) as [z|] eqn:Hz; [|apply last_None in Hz; by subst]. apply last_Some in Hz as [init ->].
  cbn [fmap option_fmap option_map]. rewrite length_app in *. cbn [length] in *.
  replace (length init + 1 - 1) with (length init) by lia. rewrite take_app_length.
  rewrite map_app in Enew. cbn [map] in Enew.
  unfold mbind at 1, SE_bind at 1. cbn [mret SE_ret]. by rewrite (SE_bind_run _ _ _ _ _ Enew).
Qed.

Lemma flat_concat_inv t : flat t = true → simple false t = true ∧
  (r_op t = OpConcat → flat_concat (r_sub t) = true ∧ distinct_neighbours (r_sub t) = true).
Proof.
  unfold flat. intros [Hs Hc]%andb_true_iff. split; [done|]. intros Ho.
  rewrite bool_decide_true in Hc by done. by apply andb_true_iff.
Qed.

Lemma concatRepetition_same t h : stored h t → flat t = true → (r_op t = OpConcat → r_sub t ≠ []) →
  ∃ h' t', eventually (λ fu, concatRepetition fu (r_ptr t)) h h' (false, r_ptr t') ∧ stored h' t' ∧
    r_op t' = r_op t ∧ r_sub t' = r_sub t ∧ (r_op t ≠ OpConcat → t' = t).
Proof.
  intros Hst Hflat Hne0. destruct (flat_concat_inv t Hflat) as [Hsim Hcc]. destruct (decide (r_op t = OpConcat)) as [Ho|Ho].
  2: { exists h, t. split; [by apply concatRepetition_member|done]. }
  destruct (Hcc Ho) as (Hf & Hdn). pose proof (Hne0 Ho) as Hne. pose proof (flat_members t Hsim Hf) as Hm.
  destruct (isConcatRepetition_run t) as (b & Hb & _); [by left|].
  destruct t as [p o f sub rn mn mx]. cbn [r_op r_sub] in *. subst o. destruct b.
  - destruct (is_rep_run h _ true Hst Hb) as [F HF]. destruct (deref_run _ _ _ _ _ _ _ _ Hst) as (sl & Hd & _).
    exists h, (Re p OpConcat f sub rn mn mx). split; [|done].
    exists (S F). intros [|fu] Hfu; [lia|]. cbn [concatRepetition r_ptr]. rewrite (SE_bind_run _ _ _ _ _ Hd). cbn [n_Op].
    destruct (decide (OpConcat ≠ OpConcat)); [done|]. by rewrite (SE_bind_run _ _ _ _ _ (HF (S fu) ltac:(lia))).
  - destruct (concatRepetition_copy p f sub rn mn mx h Hst Hne Hdn Hm Hb) as (h' & q & E & S1).
    exists h', (Re q OpConcat f sub [] 0 0). by conjs.
Qed.

(** Writing what is there changes nothing. *)
Lemma set_index_same sl i q h : elems_of h sl !! i = Some q → set_index sl i q h = (h, Ok tt).
Proof.
  intros Hi. unfold set_index. rewrite bool_decide_true by (by eapply lookup_lt_Some).
  rewrite alter_id; [by destruct h|]. intros a Ha. apply list_insert_id.
  unfold elems_of in Hi. rewrite Ha in Hi. cbn [default] in Hi.
  apply lookup_take_Some in Hi as [Hi _]. by rewrite lookup_drop in Hi.
Qed.

Lemma flatten_loop_same (rec : positive → RX (bool * positive)) sl h idx :
  (∀ i, i ∈ idx → ∃ q, elems_of h sl !! i = Some q ∧ rec q h = (h, Ok (false, q))) →
  flatten_loop rec sl idx false h = (h, Ok false).
Proof.
  induction idx as [|i idx IH]; intros Hi; [done|]. cbn [flatten_loop].
  destruct (Hi i) as (q & Hq & Hr); [by left|].
  rewrite (SE_bind_run _ _ _ _ _ (index_run h sl _ i q eq_refl Hq)), (SE_bind_run _ _ _ _ _ Hr). cbn beta iota.
  rewrite (SE_bind_run _ _ _ _ _ (set_index_same sl i q h Hq)). apply IH. intros j Hj. apply Hi. by right.
Qed.

Lemma flatten_member fu x h : stored h x → r_op x ≠ OpConcat →
  flattenRepetition (S fu) (r_ptr x) h = (h, Ok (false, r_ptr x)).
Proof.
  destruct x as [p o f sub rn mn mx]. intros Hst Ho. destruct (deref_run _ _ _ _ _ _ _ _ Hst) as (sl & Hd & _).
  cbn [flattenRepetition r_ptr r_op] in *. rewrite (SE_bind_run _ _ _ _ _ Hd). cbn [n_Op].
  destruct (decide (o ≠ OpConcat)); [done|tauto].
Qed.

Lemma flattenRepetition_same t h : stored h t →
  (r_op t = OpConcat → r_sub t ≠ [] ∧ Forall (λ x, r_op x ≠ OpConcat) (r_sub t)) →
  eventually (λ fu, flattenRepetition fu (r_ptr t)) h h (false, r_ptr t).
Proof.
  intros Hst Hcc. destruct (decide (r_op t = OpConcat)) as [Ho|Ho].
  2: { exists 1. intros [|fu] Hfu; [lia|]. by apply flatten_member. }
  destruct (Hcc Ho) as [Hne Hm]. destruct (isConcatRepetition_run t) as (b & Hb & _); [by left|].
  destruct (is_rep_run h t b Hst Hb) as [F HF].
  destruct t as [p o f sub rn mn mx]. cbn [r_op r_sub r_ptr] in *. subst o.
  destruct (deref_run _ _ _ _ _ _ _ _ Hst) as (sl & Hd & Hs & Hl). apply stored_node in Hst as [_ Hsub].
  destruct sub as [|x sub]; [done|]. apply Forall_cons in Hm as [Hmx Hm'].
  pose proof Hsub as Hsub0. apply Forall_cons in Hsub0 as [Hsx _].
  destruct (is_rep_run h x false Hsx) as [G HG]; [unfold isConcatRepetition; by rewrite bool_decide_true|].
  assert (Hall : ∀ i q, (r_ptr <$> (x :: sub)) !! i = Some q → ∀ fu, flattenRepetition (S fu) q h = (h, Ok (false, q))).
  { intros i q Hi fu. rewrite list_lookup_fmap in Hi. destruct ((x :: sub) !! i) as [y|] eqn:Hy; [|done].
    injection Hi as <-. rewrite Forall_lookup in Hsub. apply flatten_member; [eauto|].
    assert (Hm : Forall (λ x, r_op x ≠ OpConcat) (x :: sub)) by (by constructor). rewrite Forall_lookup in Hm. eauto. }
  assert (Hel : ∀ n i, n ≤ s_len sl → i ∈ seq 0 n → ∃ q, elems_of h (slice_to n sl) !! i = Some q ∧
    (r_ptr <$> (x :: sub)) !! i = Some q).
  { intros n i Hn [_ Hi]%elem_of_seq. rewrite elems_of_to, Hs by done. rewrite lookup_take_lt by lia.
    destruct (lookup_lt_is_Some_2 (map r_ptr (x :: sub)) i) as [q Hq]; [rewrite length_map; lia|]. eauto. }
  exists (S (S (F `max` G))). intros [|[|fu]] Hfu; [lia..|]. cbn [flattenRepetition]. rewrite (SE_bind_run _ _ _ _ _ Hd).
  cbn [n_Op n_Sub]. destruct (decide (OpConcat ≠ OpConcat)) as [|_]; [done|].
  rewrite (SE_bind_run _ _ _ _ _ (HF (S (S fu)) ltac:(lia))).
  assert (Hloop : ∀ n, n ≤ s_len sl → flatten_loop (flattenRepetition (S fu)) (slice_to n sl) (seq 0 n) false h = (h, Ok false)).
  { intros n Hn. apply flatten_loop_same. intros i Hi. destruct (Hel n i Hn Hi) as (q & Hq & Hq'). exists q. eauto. }
  destruct b; cbn beta iota.
  - assert (H0 : index (slice_to 1 sl) 0 h = (h, Ok (r_ptr x))).
    { apply (index_run h _ _ 0 _ eq_refl). rewrite elems_of_to, Hs by (rewrite Hl; simpl; lia). done. }
    assert (Hnest : (s ← index (slice_to 1 sl) 0; is_rep (S (S fu)) s) h = (h, Ok false)).
    { rewrite (SE_bind_run _ _ _ _ _ H0). apply HG. lia. }
    rewrite (SE_bind_run _ _ _ _ _ Hnest). cbn beta iota.
    rewrite (SE_bind_run _ _ _ _ _ (Hloop 1 ltac:(rewrite Hl; simpl; lia))). done.
  - unfold mbind at 1, SE_bind at 1. cbn [mret SE_ret]. destruct sl as [arr off len]. cbn [s_len slice_to s_arr s_off] in *.
    rewrite (SE_bind_run _ _ _ _ _ (Hloop len ltac:(done))). done.
Qed.

(** ** Turns of the loop *)
Definition last_five (fu : nat) : list (positive → RX (bool * positive)) :=
  [trimLeft fu; trimRight fu; unconcat; concatRepetition fu; flattenRepetition fu].

Lemma flat_sub t t' : flat t = true → r_op t = OpConcat → r_op t' = OpConcat →
  (∃ x, r_sub t = x :: r_sub t') ∨ (∃ x, r_sub t = r_sub t' ++ [x]) ∨ r_sub t' = r_sub t → flat t' = true.
Proof.
  intros Hflat Ho Ho' Hsub. destruct (flat_concat_inv t Hflat) as [Hs Hc]. destruct (Hc Ho) as [Hf Hd].
  rewrite simple_unfold, andb_true_iff in Hs. destruct Hs as [_ Hs]. unfold flat_concat in Hf.
  unfold flat, flat_concat. rewrite simple_unfold, bool_decide_true by done.
  replace (simple_node false t') with true by (unfold simple_node; by rewrite Ho').
  rewrite !andb_true_iff. destruct Hsub as [[x Hx]|[[x Hx]| ->]]; [| |done].
  - rewrite Hx in Hs, Hf, Hd. cbn [forallb] in Hs, Hf. rewrite !andb_true_iff in Hs, Hf. destruct Hs, Hf.
    destruct (r_sub t') as [|y l]; [done|]. cbn [distinct_neighbours] in Hd. apply andb_true_iff in Hd as [_ Hd]. done.
  - rewrite Hx in Hs, Hf, Hd. rewrite !forallb_app, !andb_true_iff in Hs, Hf. destruct Hs, Hf. conjs; [done..|].
    clear -Hd. induction (r_sub t') as [|y l IH]; [done|]. destruct l as [|z l]; [done|].
    cbn [app distinct_neighbours] in *. apply andb_true_iff in Hd as [-> Hd]. apply IH. exact Hd.
Qed.

(** The last five transformations of a turn: a change shortens the root. *)
Lemma last_five_flat c t h : stored h t → wf true t → norep t → flat t = true →
  ∃ h' b t', eventually (λ fu, run_transformations (last_five fu) c (r_ptr t)) h h' (c || b, r_ptr t') ∧
    stored h' t' ∧ flat t' = true ∧ members t' ≤ members t ∧ (b = true → members t' < members t).
Proof.
  intros Hst Hwf Hnr Hflat.
  destruct (trimLeft_run true t h Hst) as (h3 & b3 & t3 & E3 & (X3 & S3 & W3 & N3 & _) & D3); [by right|done|].
  destruct (trimRight_run true t3 h3 S3 W3 N3) as (h4 & b4 & t4 & E4 & (X4 & S4 & W4 & N4 & _) & D4).
  destruct (unconcat_run true t4 h4 S4 W4 N4) as (h5 & b5 & t5 & E5 & X5 & S5 & W5 & N5 & _ & D5).
  assert (F3 : flat t3 = true ∧ members t3 ≤ members t ∧ (b3 = true → members t3 < members t)).
  { destruct b3; [|by subst t3]. destruct D3 as (Ho & Ho' & x & Hx). split; [eapply flat_sub; eauto|].
    unfold members. rewrite !bool_decide_true, Hx by done. simpl. lia. }
  destruct F3 as (F3 & M3 & H3).
  assert (F4 : flat t4 = true ∧ members t4 ≤ members t3 ∧ (b4 = true → members t4 < members t3)).
  { destruct b4; [|by subst t4]. destruct D4 as (Ho & Ho' & x & Hx). split; [eapply (flat_sub t3); naive_solver|].
    unfold members. rewrite !bool_decide_true, Hx, length_app by done. simpl. lia. }
  destruct F4 as (F4 & M4 & H4).
  assert (F5 : flat t5 = true ∧ members t5 ≤ members t4 ∧ (b5 = true → members t5 < members t4)).
  { destruct b5; [|by destruct D5 as [-> _]]. destruct D5 as [Ho D5].
    destruct (flat_concat_inv t4 F4) as [Hs Hc]. destruct (Hc Ho) as [Hf _].
    assert (Hm : flat t5 = true ∧ r_op t5 ≠ OpConcat).
    { destruct D5 as [D5|[D5 D5']].
      - rewrite simple_unfold, D5 in Hs. unfold flat_concat in Hf. rewrite D5 in Hf. cbn [forallb] in Hs, Hf.
        rewrite !andb_true_iff, negb_true_iff, bool_decide_eq_false in Hf. rewrite !andb_true_iff in Hs.
        destruct Hs as (_ & Hs & _), Hf as [Hf _]. split; [|done]. unfold flat. rewrite Hs, bool_decide_false by done. done.
      - split; [|by rewrite D5]. unfold flat. rewrite simple_unfold, D5', bool_decide_false by (by rewrite D5).
        unfold simple_node. by rewrite D5. }
    destruct Hm as [Hm Hno]. split; [done|]. unfold members. rewrite bool_decide_false by done.
    rewrite bool_decide_true by done. lia. }
  destruct F5 as (F5 & M5 & H5).
  destruct (concatRepetition_same t5 h5 S5 F5) as (h6 & t6 & E6 & S6 & O6 & Hs6 & Heq6).
  { intros Ho. destruct (wf_concat_nonempty true t5 W5); done. }
  assert (F6 : flat t6 = true ∧ members t6 = members t5).
  { split; [|unfold members; by rewrite O6, Hs6]. destruct (decide (r_op t5 = OpConcat)) as [Ho|Ho]; [|by rewrite Heq6].
    eapply (flat_sub t5); [done|done|by rewrite O6|auto]. }
  destruct F6 as [F6 M6]. exists h6, (b3 || b4 || b5), t6. split.
  - unfold last_five. cbn [run_transformations].
    eapply ev_bind; [exact E3|]. cbn beta iota. eapply ev_bind; [exact E4|]. cbn beta iota.
    eapply ev_step; [exact E5|]. cbn beta iota. eapply ev_bind; [exact E6|]. cbn beta iota.
    eapply ev_bind; [apply (flattenRepetition_same t6); [done|]|].
    + rewrite O6, Hs6. intros Ho. destruct (flat_concat_inv t5 F5) as [Hsim Hc]. destruct (Hc Ho) as [Hf _].
      split; [destruct (wf_concat_nonempty true t5 W5); done|].
      eapply Forall_impl; [by apply flat_members|]. by intros x [_ ?].
    + cbn beta iota. rewrite !orb_false_r, !orb_assoc. apply ev_ret.
  - conjs; [done|done|lia|].
    intros [[Hb|Hb]%orb_true_iff|Hb]%orb_true_iff; [specialize (H3 Hb)|specialize (H4 Hb)|specialize (H5 Hb)]; lia.
Qed.

(** The parsed tree and its copy in memory differ only in their addresses. *)
Lemma build_erase t : ∀ h h' p t', build t h = (h', Ok p) → stored h' t' → r_ptr t' = p → erase t' = erase t.
Proof.
  assert (Hgo : ∀ t h, ∃ h' u, build t h = (h', Ok (r_ptr u)) ∧ ext h h' ∧ stored h' u ∧ erase u = erase t).
  { clear t. intros t. induction t as [p o f sub rn mn mx IH] using Regexp_rect'. intros h.
    assert (Hm : ∃ h' us, mapM_rx build sub h = (h', Ok (map r_ptr us)) ∧ ext h h' ∧ Forall (stored h') us ∧
      map erase us = map erase sub).
    { revert h. induction IH as [|x sub Hx _ IHs]; intros h; [by exists h, []; conjs|].
      destruct (Hx h) as (h1 & u & E1 & X1 & S1 & Eu). destruct (IHs h1) as (h2 & us & E2 & X2 & S2 & Eus).
      exists h2, (u :: us). cbn [mapM_rx map]. rewrite (SE_bind_run _ _ _ _ _ E1), (SE_bind_run _ _ _ _ _ E2).
      conjs; [done|by etrans| |by f_equal]. constructor; [by eapply stored_ext|done]. }
    destruct Hm as (h1 & us & E1 & X1 & S1 & Eus).
    destruct (new_regexp_run o f us rn mn mx h1 S1) as (h2 & q & E2 & X2 & S2 & _).
    exists h2, (Re q o f us rn mn mx). cbn [build]. rewrite (SE_bind_run _ _ _ _ _ E1).
    conjs; [done|by etrans|done|]. cbn [erase]. by rewrite Eus. }
  intros h h' p t' E Hst Hp. destruct (Hgo t h) as (h2 & u & E2 & _ & Su & Eu).
  rewrite E in E2. injection E2 as <- ->. by rewrite (stored_inj h' t' u).
Qed.

Lemma simple_norep caps t : simple caps t = true → norep t.
Proof.
  induction t as [p o f sub rn mn mx IH] using Regexp_rect'. rewrite simple_unfold, andb_true_iff. intros [Hn Hs].
  apply norep_unfold. cbn [r_op r_sub] in *. split; [by intros ->|]. rewrite forallb_forall in Hs.
  rewrite Forall_forall in *. intros x Hx. apply IH; [done|]. by apply Hs, list_elem_of_In.
Qed.

(** What is known of a turn from its outcome. *)
Lemma round_turned t h h' b t' : stored h t → wf true t → stored h' t' →
  eventually (λ fu, round fu (r_ptr t)) h h' (b, r_ptr t') → turned true t h' b t'.
Proof.
  intros Hst Hwf Hst' E. destruct (round_run true t h Hst Hwf) as (h1 & b1 & t1 & E1 & Ht1).
  destruct (ev_unique _ _ _ _ _ _ E E1) as [-> Heq]. injection Heq as -> Hp.
  rewrite (stored_inj h1 t' t1); [done|done|by destruct Ht1|done].
Qed.

Lemma round_flat t h : stored h t → wf true t → flat t = true →
  ∃ h' b t', eventually (λ fu, round fu (r_ptr t)) h h' (b, r_ptr t') ∧ turned true t h' b t' ∧
    flat t' = true ∧ (b = true → members t' < members t).
Proof.
  intros Hst Hwf Hflat. destruct (flat_concat_inv t Hflat) as [Hsim _].
  destruct (last_five_flat false t h Hst Hwf (simple_norep _ _ Hsim) Hflat) as (h' & b & t' & E & Hst' & Hf & _ & Hlt).
  assert (Er : eventually (λ fu, round fu (r_ptr t)) h h' (b, r_ptr t')).
  { unfold round, transformations. cbn [run_transformations].
    eapply ev_bind; [eapply ev_bind; [by eapply Simplify_same|apply ev_ret]|]. cbn beta iota.
    eapply ev_bind; [by apply uncapture_same|]. exact E. }
  exists h', b, t'. conjs; [done|by eapply round_turned|done|done].
Qed.

Lemma round_tame t h : stored h t → wf true t → tame t = true →
  ∃ h' b t', eventually (λ fu, round fu (r_ptr t)) h h' (b, r_ptr t') ∧ turned true t h' b t' ∧
    flat t' = true ∧ members t' ≤ members (strip t).
Proof.
  intros Hst Hwf [Hsim Hflat]%andb_true_iff. pose proof (simple_norep _ _ Hsim) as Hnr.
  destruct (uncapture_run true t h Hst Hwf) as (h2 & b2 & t2 & E2 & (X2 & S2 & W2 & N2 & _) & Her & _).
  assert (F2 : flat t2 = true ∧ members t2 = members (strip t)).
  { by rewrite <- flat_erase, <- members_erase, Her, flat_erase, members_erase. }
  destruct F2 as [F2 M2].
  destruct (last_five_flat b2 t2 h2 S2 (W2 Hwf) (N2 Hnr) F2) as (h' & b & t' & E & Hst' & Hf & Hle & _).
  assert (Er : eventually (λ fu, round fu (r_ptr t)) h h' (b2 || b, r_ptr t')).
  { unfold round, transformations. cbn [run_transformations].
    eapply ev_bind; [eapply ev_bind; [by eapply Simplify_same|apply ev_ret]|]. cbn beta iota.
    eapply ev_bind; [exact E2|]. exact E. }
  exists h', (b2 || b), t'. conjs; [done|by eapply round_turned|done|lia].
Qed.

(** The loop returns within the bound. *)
Lemma optimize_flat turns : ∀ t h, stored h t → wf true t → flat t = true → members t < turns →
  ∃ h' t', eventually (λ fu, optimize turns fu (r_ptr t)) h h' (r_ptr t') ∧ turned true t h' false t'.
Proof.
  induction turns as [|turns IH]; intros t h Hst Hwf Hflat Hlt; [lia|].
  destruct (round_flat t h Hst Hwf Hflat) as (h1 & b & t1 & E & Ht1 & F1 & Hm).
  cbn [optimize]. destruct b.
  - destruct Ht1 as (S1 & W1 & Q1 & _). specialize (Hm eq_refl).
    destruct (IH t1 h1 S1 W1 F1 ltac:(lia)) as (h2 & t2 & E2 & S2 & W2 & Q2 & Hset).
    exists h2, t2. split; [eapply ev_bind; [exact E|exact E2]|]. unfold turned. conjs; [done..| |done]. by etrans.
  - exists h1, t1. split; [eapply ev_bind; [exact E|apply ev_ret]|done].
Qed.

Lemma optimize_tame turns t h : stored h t → wf true t → tame t = true → turns_enough t ≤ turns →
  ∃ h' t', eventually (λ fu, optimize turns fu (r_ptr t)) h h' (r_ptr t') ∧ turned true t h' false t'.
Proof.
  intros Hst Hwf Htame Hle. unfold turns_enough in Hle. destruct turns as [|turns]; [lia|].
  destruct (round_tame t h Hst Hwf Htame) as (h1 & b & t1 & E & Ht1 & F1 & Hm).
  cbn [optimize]. destruct b; [|exists h1, t1; split; [eapply ev_bind; [exact E|apply ev_ret]|done]].
  destruct Ht1 as (S1 & W1 & Q1 & _).
  destruct (optimize_flat turns t1 h1 S1 W1 F1 ltac:(lia)) as (h2 & t2 & E2 & S2 & W2 & Q2 & Hset).
  exists h2, t2. split; [eapply ev_bind; [exact E|exact E2]|]. unfold turned. conjs; [done..| |done]. by etrans.
Qed.

Lemma Compile_returns `{!RegexpLaws} turns pattern t h : Parse pattern = Ok t → encodable t = true → tame t = true →
  turns_enough t ≤ turns → comes_to (λ fu, Compile turns fu pattern) h (compiled t).
Proof.
  intros Hp Henc Htame Hle. pose proof (shaped_wf t (Parse_shaped _ _ Hp) Henc) as Hwf.
  destruct (build_run t h) as (h1 & t1 & E1 & X1 & S1 & [Q1 W1] & _).
  pose proof (build_erase t h h1 _ t1 E1 S1 eq_refl) as Her.
  assert (Hst : erase (strip t1) = erase (strip t)) by (by rewrite !erase_strip, Her).
  assert (Ht1 : tame t1 = true).
  { unfold tame in *. by rewrite <- simple_erase, <- flat_erase, Her, Hst, simple_erase, flat_erase. }
  assert (Hle1 : turns_enough t1 ≤ turns).
  { unfold turns_enough in *. by rewrite <- members_erase, Hst, members_erase. }
  destruct (optimize_tame turns t1 h1 S1 (W1 _ Hwf) Ht1 Hle1) as (h2 & t2 & E2 & S2 & W2 & Q2 & Hset).
  unfold Compile. rewrite Hp. eapply comes_bind; [by apply ev_run|]. eapply comes_bind; [by apply ev_run|].
  eapply comes_impl; [|exact (finish_settled turns t1 t2 h1 h2 E2 S2 W2 Q2 (Hset eq_refl))]. intros r. apply compiled_sequiv. by apply tequiv_sequiv.
Qed.
End same.
