(* ===== verification/MatchProps.v ===== *)
(** * Properties of package match

    The exported operations against the meaning of regular expressions, a
    concrete library that meets the laws they rely on, and the texts with line
    feeds on which the optimiser changes the answer. *)
From S2P Require Import Prelude GoStrings GoUtf8 GoHeap GoRegexp RegexpSem RegexpStore Match MatchFacts MatchFlatten MatchCompile MatchDate MatchOptimize MatchStable.

Open Scope list_scope.
Open Scope nat_scope.

Section props.
Context `{RegexpLib, !RegexpLaws}.

(** C1: [Compile] of a pattern that parses to an expression whose literals are
    valid runes (a surrogate written as an escape is not one), whatever is in
    memory, and texts in valid UTF-8 without line feeds.  When, its captures aside, the expression has no counted repetition and no doubled
    loop, and its concatenation no concatenated members and no equal
    neighbours, the call returns, for every fuel from some bound on and as many
    turns of the optimiser as the concatenation has members: a matcher that
    answers on every such text whether the parsed expression occurs in it, or the error of the package regexp for an expression of the
    same meaning.  For every other expression, the call does the same unless
    the optimiser is still rewriting when the turns it is given are used up.
    It never panics. *)
Theorem Compile_correct turns pattern t h : Parse pattern = Ok t → encodable t = true →
  (tame t = true → turns_enough t ≤ turns → comes_to (λ fuel, Compile turns fuel pattern) h (compiled t)) ∧
  (running (λ fuel, Compile turns fuel pattern) h ∨
   comes_to (λ fuel, Compile turns fuel pattern) h (compiled t)).
Proof. intros Hp He. split; [by apply Compile_returns|by apply Compile_run]. Qed.

(** [CompileExact] adds the text anchors: the matcher it returns accepts a
    text in valid UTF-8 without line feeds exactly when the parsed expression
    matches all of it, for expressions with valid runes in their literals whose root [Simplify] keeps and, unless a
    concatenation, does not fold case. *)
Theorem CompileExact_correct turns pattern t h : Parse pattern = Ok t → encodable t = true → plain_root t →
  (r_op t ≠ OpConcat → isRegular t = true) →
  running (λ fuel, CompileExact turns fuel pattern) h ∨
  comes_to (λ fuel, CompileExact turns fuel pattern) h (compiled_exact t).
Proof. apply CompileExact_run. Qed.

(** C16: One turn of the optimiser's loop on a well-formed expression (with valid
    runes in its literals), all seven transformations on the shared store with
    its in-place writes, returns for every fuel from some bound on; the
    expression it returns is well formed and occurs in the same texts without
    line feeds, and when the turn reports no change its root is neither a counted
    repetition nor a concatenation of fewer than two. *)
Theorem optimize_turn_equivalent t h : stored h t → wf true t →
  ∃ h' b t', eventually (λ fuel, run_transformations (transformations fuel) false (r_ptr t)) h h' (b, r_ptr t') ∧
    stored h' t' ∧ wf true t' ∧ (∀ s, nl_free s → search s t ↔ search s t') ∧
    (b = false → settled t').
Proof. apply round_run. Qed.

(** [compile] of a settled expression in memory never panics: every index
    into the children is in range on every branch, and the matcher of the
    chosen branch, the bytewise date matcher included, agrees with the
    expression. *)
Theorem compile_agrees h t : stored h t → wf true t → settled t → compiled t (compile t).
Proof. apply compile_run. Qed.
End props.

(** The two methods of every matcher agree: [Match] on the bytes of a text
    and [MatchString] on the text give the same answer. *)
Theorem Match_MatchString m s : Match m s = MatchString m s.
Proof. destruct m; try done. simpl. by rewrite String.eqb_sym. Qed.

(** ** A library that meets the laws

    A parser for four patterns, and a compiler for literals that folds no case. *)
Module Lib.
Definition lit (l : list Z) : Regexp := Re 1 OpLiteral Perl [] l 0 0.

Definition parse (pattern : string) : res string Regexp :=
  if String.eqb pattern ".*foo" then Ok (concatPat [patDotStar; lit [102; 111; 111]%Z])
  else if String.eqb pattern "^.*foo" then Ok (concatPat [beginText; patDotStar; lit [102; 111; 111]%Z])
  else if String.eqb pattern "foo" then Ok (lit [102; 111; 111]%Z)
  else if String.eqb pattern "\x{D800}" then Ok (lit [0xD800]%Z)
  else Err "unsupported pattern".

Definition literal_ok (t : Regexp) : bool :=
  isRegularLiteral t && forallb (λ r, bool_decide (valid_rune r)) (r_rune t).

Definition compile (t : Regexp) : res string (string → bool) :=
  if literal_ok t then Ok (λ s, Contains s (literal t)) else Err "unsupported expression".

#[global] Instance lib : RegexpLib :=
  {| Parse := parse; regexp_Compile := compile; fold_eq := Z.eqb |}.

(** The pattern [\x{D800}]. *)
Definition surrogate : Regexp := lit [0xD800]%Z.

Lemma leaf_shaped t : r_sub t = [] → shape_node t → shaped t.
Proof. intros Hs Hn. apply rall_node. split; [done|]. by rewrite Hs. Qed.

Lemma shaped_dotstar : shaped patDotStar.
Proof. apply rall_node. split; [done|]. constructor; [|constructor]. by apply leaf_shaped. Qed.

Lemma wf_lit : wf true (lit [102; 111; 111]%Z).
Proof. by apply shaped_wf; [apply leaf_shaped|vm_compute]. Qed.

#[global] Instance laws : RegexpLaws.
Proof.
  split.
  - intros pattern t. simpl. unfold parse. destruct (String.eqb _ _).
    + intros [= <-]. apply rall_node. split; [by split|]. constructor; [apply shaped_dotstar|].
      constructor; [by apply leaf_shaped|constructor].
    + destruct (String.eqb _ _).
      { intros [= <-]. apply rall_node. split; [by split|]. constructor; [by apply leaf_shaped|].
        constructor; [apply shaped_dotstar|]. constructor; [by apply leaf_shaped|constructor]. }
      destruct (String.eqb _ _); [intros [= <-]; by apply leaf_shaped|].
      destruct (String.eqb _ _); [|done]. intros [= <-]. by apply leaf_shaped.
  - intros pattern. simpl. unfold parse. by repeat destruct (String.eqb _ _).
  - intros t. simpl. unfold compile. by destruct (literal_ok t).
  - intros t f rs. simpl. unfold compile. destruct (literal_ok t) eqn:Hl; [|done]. intros [= <-] Hv.
    apply andb_true_iff in Hl as [Hl Hr]. rewrite (search_literal t rs Hl). apply encode_contains; [|done].
    apply Forall_forall. intros r Hin. rewrite forallb_forall in Hr.
    specialize (Hr r). rewrite bool_decide_eq_true in Hr. by apply Hr, list_elem_of_In.
Qed.
End Lib.

Definition empty_store : rstore := mkRStore ∅ ∅.

(** Two turns are enough for [.*foo], whose matcher is a search for [foo]. *)
Example Compile_example : snd (Compile (H := Lib.lib) 3 10 ".*foo" empty_store) = Ok (substringMatcher "foo").
Proof. vm_compute. reflexivity. Qed.

Definition foo_store : rstore :=
  mkRStore {[1%positive := mkNode OpLiteral Perl (mkSlice 1 0 0) [102; 111; 111]%Z 0 0]} ∅.

Lemma foo_stored : stored foo_store (Lib.lit [102; 111; 111]%Z).
Proof. apply stored_node. split; [|constructor]. exists (mkSlice 1 0 0). by conjs. Qed.

Lemma foo_settled : settled (Lib.lit [102; 111; 111]%Z).
Proof. by split. Qed.

Lemma Compile_correct_witness :
  Parse (RegexpLib := Lib.lib) ".*foo" = Ok (concatPat [patDotStar; Lib.lit [102; 111; 111]%Z]) ∧
  turns_enough (concatPat [patDotStar; Lib.lit [102; 111; 111]%Z]) = 5 ∧
  comes_to (λ fuel, Compile (H := Lib.lib) 5 fuel ".*foo") empty_store
    (compiled (concatPat [patDotStar; Lib.lit [102; 111; 111]%Z])).
Proof.
  split; [reflexivity|]. split; [reflexivity|].
  apply (Compile_correct (H := Lib.lib) 5 ".*foo"); [reflexivity|reflexivity|vm_compute; reflexivity|vm_compute; lia].
Defined.

Lemma CompileExact_correct_witness :
  Parse (RegexpLib := Lib.lib) "foo" = Ok (Lib.lit [102; 111; 111]%Z) ∧
  (running (λ fuel, CompileExact (H := Lib.lib) 2 fuel "foo") empty_store ∨
   comes_to (λ fuel, CompileExact (H := Lib.lib) 2 fuel "foo") empty_store
     (compiled_exact (Lib.lit [102; 111; 111]%Z))).
Proof.
  split; [reflexivity|]. apply (CompileExact_correct (H := Lib.lib)); [reflexivity|reflexivity| |reflexivity].
  by unfold plain_root; conjs.
Defined.

Lemma optimize_turn_equivalent_witness : ∃ h' b t',
  eventually (λ fuel, run_transformations (transformations fuel) false 1%positive) foo_store h' (b, r_ptr t') ∧
  stored h' t' ∧ wf true t' ∧
  (∀ s, nl_free s → search (H := Lib.lib) s (Lib.lit [102; 111; 111]%Z) ↔ search (H := Lib.lib) s t') ∧
  (b = false → settled t').
Proof. apply (optimize_turn_equivalent (H := Lib.lib) (Lib.lit [102; 111; 111]%Z)); [apply foo_stored|apply Lib.wf_lit]. Defined.

Lemma compile_agrees_witness :
  compiled (H := Lib.lib) (Lib.lit [102; 111; 111]%Z) (compile (H := Lib.lib) (Lib.lit [102; 111; 111]%Z)).
Proof. apply (compile_agrees (H := Lib.lib) foo_store); [apply foo_stored|apply Lib.wf_lit|apply foo_settled]. Defined.

(** ** Line feeds *)
Lemma dotstar_no_newline `{RegexpLib} s i j : den s patDotStar i j → ∀ k, i ≤ k < j → s !! k ≠ Some newline.
Proof.
  intros (n & _ & _ & Hp). revert i Hp. induction n as [|n IH]; intros i Hp k Hk.
  - unfold rpow, rid in Hp. lia.
  - destruct Hp as (m & (-> & c & Hc & Hne) & Hp). destruct (decide (k = i)) as [->|].
    + rewrite Hc. by intros [= ->].
    + apply (IH (S i)); [done|lia].
Qed.

(** [^.*foo] finds nothing in a text whose second line is [foo], as [.] does
    not match a line feed; its matcher, a search for [foo], accepts the text. *)
Theorem anchored_dotstar_line_feed :
  let t := concatPat [beginText; patDotStar; Lib.lit [102; 111; 111]%Z] in
  let text := [97; 10; 102; 111; 111]%Z in
  Parse (RegexpLib := Lib.lib) "^.*foo" = Ok t ∧
  snd (Compile (H := Lib.lib) 3 10 "^.*foo" empty_store) = Ok (substringMatcher "foo") ∧
  MatchString (substringMatcher "foo") (encode text) = Ok true ∧
  ¬ search (H := Lib.lib) text t.
Proof.
  split; [done|]. split; [vm_compute; reflexivity|]. split; [vm_compute; reflexivity|].
  intros Hs. apply search_anchored in Hs as (j & k & Hk & m & Hm & _); [|done].
  pose proof (den_bounded (H := Lib.lib) _ _ 0 k (Nat.le_0_l _) Hk) as Hlen. simpl in Hlen.
  apply literal_den in Hm as [Hm _]; [|done|simpl; lia].
  assert (Hk1 : ¬ 1 < k) by (intros Hlt; apply (dotstar_no_newline _ _ _ Hk 1); [lia|reflexivity]).
  destruct k as [|[|k]]; [done..|lia].
Qed.

(** A surrogate cannot be encoded: the pattern [\x{D800}] occurs in no text, but
    its matcher searches for the encoding of U+FFFD and accepts a text that holds
    that character. *)
Theorem surrogate_literal_found :
  Parse (RegexpLib := Lib.lib) "\x{D800}" = Ok Lib.surrogate ∧
  snd (Compile (H := Lib.lib) 3 10 "\x{D800}" empty_store) = Ok (substringMatcher (encode [0xFFFD]%Z)) ∧
  MatchString (substringMatcher (encode [0xFFFD]%Z)) (encode [0xFFFD]%Z) = Ok true ∧
  ¬ search (H := Lib.lib) [0xFFFD]%Z Lib.surrogate.
Proof.
  split; [done|]. split; [vm_compute; reflexivity|]. split; [vm_compute; reflexivity|].
  intros (a & b & Hs)%search_literal; [|done]. simpl in Hs. by destruct a as [|x [|]].
Qed.
