(* ===== verification/GoBase64.v ===== *)
(** * Package [encoding/base64]: the standard encoding

    [Encode] groups three bytes into four characters and pads with ['=']; [Decode]
    skips carriage returns and line feeds, accepts padding only at the end of
    the text and reports any other text as corrupt ([None]). *)
From S2P Require Import Prelude GoStrings GoUtf8.

Open Scope string_scope.
Open Scope Z_scope.

(** The alphabet. *)
Definition enc_char (n : Z) : ascii :=
  if n <? 26 then chr (65 + n)
  else if n <? 52 then chr (97 + (n - 26))
  else if n <? 62 then chr (48 + (n - 52))
  else if n =? 62 then "+"%char else "/"%char.

Definition dec_char (a : ascii) : option Z :=
  let b := byte a in
  if (65 <=? b) && (b <=? 90) then Some (b - 65)
  else if (97 <=? b) && (b <=? 122) then Some (b - 97 + 26)
  else if (48 <=? b) && (b <=? 57) then Some (b - 48 + 52)
  else if b =? 43 then Some 62
  else if b =? 47 then Some 63
  else None.

Definition pad : ascii := "="%char.

(** The six-bit groups of 24 bits. *)
Definition group (v i : Z) : ascii := enc_char (v / 2 ^ (18 - 6 * i) mod 64).

Fixpoint Encode (s : string) : string :=
  match s with
  | "" => ""
  | String a "" =>
      let v := byte a * 65536 in
      String (group v 0) (String (group v 1) (String pad (String pad "")))
  | String a (String b "") =>
      let v := byte a * 65536 + byte b * 256 in
      String (group v 0) (String (group v 1) (String (group v 2) (String pad "")))
  | String a (String b (String c r)) =>
      let v := byte a * 65536 + byte b * 256 + byte c in
      String (group v 0) (String (group v 1) (String (group v 2) (String (group v 3) (Encode r))))
  end.

Definition byte_of (v i : Z) : ascii := chr (v / 2 ^ (16 - 8 * i) mod 256).

Definition is_newline (a : ascii) : bool := Ascii.eqb a "010" || Ascii.eqb a "013".

Fixpoint strip_newlines (s : string) : string :=
  match s with
  | "" => ""
  | String a r => if is_newline a then strip_newlines r else String a (strip_newlines r)
  end.

Fixpoint decode_quads (s : string) : option string :=
  match s with
  | "" => Some ""
  | String a (String b (String c (String d r))) =>
      x ← dec_char a;
      y ← dec_char b;
      if Ascii.eqb c pad then
        if Ascii.eqb d pad && String.eqb r ""
        then Some (String (byte_of (x * 262144 + y * 4096) 0) "") else None
      else
        z ← dec_char c;
        if Ascii.eqb d pad then
          if String.eqb r "" then
            let v := x * 262144 + y * 4096 + z * 64 in
            Some (String (byte_of v 0) (String (byte_of v 1) ""))
          else None
        else
          w ← dec_char d;
          let v := x * 262144 + y * 4096 + z * 64 + w in
          t ← decode_quads r;
          Some (String (byte_of v 0) (String (byte_of v 1) (String (byte_of v 2) t)))
  | _ => None
  end.

Definition Decode (s : string) : option string := decode_quads (strip_newlines s).

(** ** Round trip *)
(** Evaluates the powers of two and decides linear facts with quotients. *)
Ltac bits :=
  repeat match goal with
    | |- context [2 ^ ?e] => let v := eval vm_compute in (2 ^ e) in change (2 ^ e) with v
    end;
  Z.to_euclidean_division_equations; lia.

Lemma enc_char_spec n : 0 ≤ n < 64 →
  dec_char (enc_char n) = Some n ∧ enc_char n ≠ pad ∧ is_newline (enc_char n) = false.
Proof.
  intros Hn. assert (Hall : Forall (λ k, dec_char (enc_char k) = Some k ∧ enc_char k ≠ pad ∧
    is_newline (enc_char k) = false) (seqZ 0 64)).
  { repeat (constructor; [vm_compute; repeat split; congruence|]). constructor. }
  rewrite Forall_forall in Hall. apply Hall, elem_of_seqZ. lia.
Qed.

Lemma group_spec v i : dec_char (group v i) = Some (v / 2 ^ (18 - 6 * i) mod 64) ∧
  Ascii.eqb (group v i) pad = false ∧ is_newline (group v i) = false.
Proof.
  unfold group. destruct (enc_char_spec (v / 2 ^ (18 - 6 * i) mod 64)) as (H1 & H2 & H3).
  { apply Z.mod_pos_bound. lia. }
  split; [done|]. split; [|done]. by apply Ascii.eqb_neq.
Qed.

Lemma string_ind3 (P : string → Prop) : P "" → (∀ a, P (String a "")) →
  (∀ a b, P (String a (String b ""))) →
  (∀ a b c r, P r → P (String a (String b (String c r)))) → ∀ s, P s.
Proof.
  intros H0 H1 H2 H3. fix IH 1. intros [|a [|b [|c r]]]; [done|done|done|]. apply H3, IH.
Qed.

Lemma strip_Encode s : strip_newlines (Encode s) = Encode s.
Proof.
  assert (Hg : ∀ v i r, strip_newlines (String (group v i) r) = String (group v i) (strip_newlines r)).
  { intros. simpl. by destruct (group_spec v i) as (_ & _ & ->). }
  induction s as [|a|a b|a b c r IH] using string_ind3; cbn [Encode]; rewrite ?Hg, ?IH; done.
Qed.

Lemma byte_of_eq v i a : v / 2 ^ (16 - 8 * i) mod 256 = byte a → byte_of v i = a.
Proof. unfold byte_of. intros ->. apply chr_byte. Qed.

Lemma decode_Encode s : decode_quads (Encode s) = Some s.
Proof.
  induction s as [|a|a b|a b c r IH] using string_ind3; cbn [Encode]; [done|..]; cbn [decode_quads].
  all: repeat match goal with
    | |- context [dec_char (group ?v ?i)] =>
        destruct (group_spec v i) as (-> & ? & ?); cbn [mbind option_bind]
    | H : Ascii.eqb ?x pad = false |- context [Ascii.eqb ?x pad] => rewrite H
    end.
  all: try rewrite IH.
  all: cbn [mbind option_bind].
  all: pose proof (byte_range a); try pose proof (byte_range b); try pose proof (byte_range c).
  all: change (Ascii.eqb pad pad) with true; cbn [andb String.eqb].
  all: f_equal; repeat f_equal; apply byte_of_eq; bits.
Qed.

(** Decoding an encoded text gives the text. *)
Lemma Decode_Encode s : Decode (Encode s) = Some s.
Proof. unfold Decode. by rewrite strip_Encode, decode_Encode. Qed.

Lemma Encode_nil s : Encode s = "" → s = "".
Proof. by destruct s as [|a [|b [|c r]]]. Qed.
