(* ===== verification/Keystore.v ===== *)
(** * Package [keystore]: secrets in an encrypted file

    [FileKeystore] keeps the secrets in memory and saves them to a temporary
    file that then replaces the keystore file.  The state is the keystore, the
    disk, and the outcome of the system calls to come, so that every failure
    the code meets, or ignores, is a run of the model.

    Cryptography, the source of random bytes and the JSON codec are parameters
    with the laws their documentation states; base64 is that of GoBase64.v.
    [fips] tells the two builds of the package apart (file_keystore_fips.go,
    file_keystore_nofips.go).  The locks are held for whole calls, so a call is
    one step. *)
From S2P Require Import Prelude GoStrings GoUtf8 GoBase64.

Open Scope string_scope.
Open Scope Z_scope.

(** ** The system *)
Record kfile := mkFile { f_data : string; f_uid : Z; f_perm : Z }.

(** What the system does with a call; a short write stops after [n] bytes. *)
Inductive outcome := Works | Fails | Short (n : nat).

Inductive oserr := NotExist | Exist | IOFailure.

Inductive kerror :=
| ErrKeyDoesntExists
| EOS (e : oserr)
| Econfig (msg : string)
| Eserialize (msg : string)
| Eencrypt (e : kerror)
| Erandom
| Ehash (msg : string)
| Ecipher
| Eopenfile (path : string) (e : kerror)
| Ereplace (path : string) (e : kerror)
| Erename (src dst : string) (e : kerror)
| Eversion (expected got : string)
| Ecorrupt
| Edecrypt (e : kerror)
| Ereaddata
| Emissing
| Egcm
| Ejson (msg : string)
| Eowner (path : string) (euid : Z)
| Eperm (path : string) (perm : Z).

Record FileKeystore := mkKeystore {
  Path : string;
  secrets : gmap string string;
  dirty : bool;
  password : string;
  isStrictPerms : bool
}.

Record env := mkEnv {
  ks : FileKeystore;
  disk : gmap string kfile;
  calls : list outcome;        (** exhausted: every call works *)
  draws : nat;                 (** random draws so far *)
  euid : Z;
  windows : bool;              (** [runtime.GOOS == "windows"] *)
  retries : nat                (** how many more attempts a rename with retries has time for *)
}.

Abbreviation KM := (SE env kerror).

Definition on_ks (g : FileKeystore → FileKeystore) (e : env) : env :=
  mkEnv (g (ks e)) (disk e) (calls e) (draws e) (euid e) (windows e) (retries e).
Definition on_disk (g : gmap string kfile → gmap string kfile) (e : env) : env :=
  mkEnv (ks e) (g (disk e)) (calls e) (draws e) (euid e) (windows e) (retries e).
Definition set_secrets (m : gmap string string) (d : bool) (k : FileKeystore) : FileKeystore :=
  mkKeystore (Path k) m d (password k) (isStrictPerms k).

(** The outcome of the next call. *)
Definition next_call : KM outcome := λ e,
  match calls e with
  | [] => (e, Ok Works)
  | o :: l => (mkEnv (ks e) (disk e) l (draws e) (euid e) (windows e) (retries e), Ok o)
  end.

Definition works (o : outcome) : bool := match o with Works => true | _ => false end.

(** A call that can fail before it has any effect. *)
Definition syscall : KM unit :=
  o ← next_call; if works o then mret tt else fail (EOS IOFailure).

Definition filePermission : Z := 384.      (** 0600 *)
Definition iVLength : nat := 12.
Definition saltLength : nat := 64.
Definition iterationsCount : Z := 10000.
Definition keyLength : nat := 32.

(** [os.ReadFile] *)
Definition ReadFile (p : string) : KM string :=
  syscall ≫= λ _, e ← get_store;
  match disk e !! p with Some f => mret (f_data f) | None => fail (EOS NotExist) end.

(** [os.OpenFile(p, O_RDONLY)] and [f.Close()] *)
Definition OpenRead (p : string) : KM unit := ReadFile p ≫= λ _, mret tt.

(** file.Stat *)
Definition Stat (p : string) : KM kfile :=
  syscall ≫= λ _, e ← get_store;
  match disk e !! p with Some f => mret f | None => fail (EOS NotExist) end.

(** [os.OpenFile(p, O_RDWR|O_CREATE|O_TRUNC)] and, with [excl], [O_EXCL]
    instead of [O_TRUNC]. *)
Definition OpenFile (p : string) (excl : bool) : KM unit :=
  syscall ≫= λ _, e ← get_store;
  match disk e !! p with
  | Some f =>
      if excl then fail (EOS Exist)
      else modify (on_disk (<[p := mkFile "" (f_uid f) (f_perm f)]>))
  | None => modify (on_disk (<[p := mkFile "" (euid e) filePermission]>))
  end.

(** [f.Write(data)], whose error the code drops: what reaches the file. *)
Definition append_data (data : string) (f : kfile) : kfile :=
  mkFile (f_data f +:+ data) (f_uid f) (f_perm f).

Definition Write (p data : string) : KM unit :=
  o ← next_call;
  modify (on_disk (alter (append_data
    (match o with Works => data | Fails => "" | Short n => stake n data end)) p)).

Definition Rename (src dst : string) : KM unit :=
  syscall ≫= λ _, e ← get_store;
  match disk e !! src with
  | Some f => modify (on_disk (λ d, <[dst := f]> (delete src d)))
  | None => fail (EOS NotExist)
  end.

(** [os.Remove], whose error the code drops. *)
Definition RemoveFile (p : string) : KM unit :=
  o ← next_call; if works o then modify (on_disk (delete p)) else mret tt.

(** ** file.SafeFileRotate with its default options

    helper_other.go and helper_aix.go: one rename, and a sync whose failure to open
    the directory is dropped. *)
Definition SyncParent : KM unit :=
  o ← next_call;
  if negb (works o) then mret tt else syscall.

Definition SafeFileRotate_unix (path tempfile : string) : KM unit :=
  Rename tempfile path ≫= λ _, SyncParent.

(** helper_windows.go: the file is moved aside first, and the rename is tried again
    until its time is up.  The first attempt is made before that; FileHelpers.v, where
    the clock is part of the model, has the run in which it is not. *)
Definition old_path (path : string) : string := path +:+ ".old".

Fixpoint rename_retry (n : nat) (src dst : string) : KM unit :=
  r ← attempt (Rename src dst);
  match r with
  | inl _ => mret tt
  | inr err => match n with O => fail (Erename src dst err) | S n => rename_retry n src dst end
  end.

Definition SyncParent_windows : KM unit :=
  o ← next_call;
  if negb (works o) then mret tt else syscall ≫= λ _, syscall.

Definition SafeFileRotate_windows (path tempfile : string) : KM unit :=
  e ← get_store;
  RemoveFile (old_path path) ≫= λ _,
  attempt (Rename path (old_path path)) ≫= λ _,
  rename_retry (retries e) tempfile path ≫= λ _,
  RemoveFile (old_path path) ≫= λ _,
  SyncParent_windows.

Definition SafeFileRotate (path tempfile : string) : KM unit :=
  e ← get_store;
  if windows e then SafeFileRotate_windows path tempfile else SafeFileRotate_unix path tempfile.

(** ** Parameters *)
Class Crypto := {
  rand_Read : nat → nat → option string;   (** the bytes of the i-th draw of n bytes *)
  pbkdf2_Key : string → string → Z → nat → res string string;   (** password, salt *)
  gcm_Seal : string → string → string → string;          (** key, nonce, data *)
  gcm_Open : string → string → string → option string;
  json_Encode : gmap string string → res string string;
  json_Decode : string → res string (gmap string string)
}.

Section keystore.
Context `{Crypto} (fips : bool).

Definition version : string := if fips then "v2" else "v1".

(** ** file_keystore.go *)
Definition randomBytes (n : nat) : KM string := λ e,
  let e' := mkEnv (ks e) (disk e) (calls e) (S (draws e)) (euid e) (windows e) (retries e) in
  match rand_Read (draws e) n with Some r => (e', Ok r) | None => (e', Err Erandom) end.

Definition of_res {A} (f : string → kerror) (r : res string A) : res kerror A :=
  match r with
  | Ok a => Ok a
  | Err e => Err (f e)
  | Panic p => Panic p
  | OutOfFuel => OutOfFuel
  end.

Definition hashPassword (pw salt : string) : res kerror string :=
  of_res Ehash (pbkdf2_Key pw salt iterationsCount keyLength).

(** [aes.NewCipher]: keys of 16, 24 or 32 bytes. *)
Definition NewCipher (key : string) : res kerror unit :=
  if bool_decide (String.length key ∈ [16; 24; 32]%nat) then Ok tt else Err Ecipher.

(** [Seal] and [Open] of [cipher.NewGCM] panic on a nonce of another length. *)
Definition Seal (key nonce data : string) : res kerror string :=
  if bool_decide (String.length nonce = iVLength) then Ok (gcm_Seal key nonce data)
  else Panic (PExplicit "crypto/cipher: incorrect nonce length given to GCM").
Definition Open (key nonce data : string) : res kerror string :=
  if bool_decide (String.length nonce = iVLength) then
    match gcm_Open key nonce data with Some d => Ok d | None => Err Egcm end
  else Panic (PExplicit "crypto/cipher: incorrect nonce length given to GCM").

(** file_keystore_nofips.go *)
Definition encrypt_nofips (data : string) : KM string :=
  iv ← randomBytes iVLength;
  salt ← randomBytes saltLength;
  e ← get_store;
  key ← lift (hashPassword (password (ks e)) salt);
  lift (NewCipher key) ≫= λ _,
  encodedBytes ← lift (Seal key iv data);
  mret (salt +:+ iv +:+ encodedBytes).

Definition decrypt_nofips (pw data : string) : res kerror string :=
  if bool_decide (String.length data < saltLength + iVLength + 1)%nat then Err Emissing
  else
    let salt := stake saltLength data in
    let iv := stake iVLength (sdrop saltLength data) in
    let encodedBytes := sdrop (saltLength + iVLength) data in
    key ← hashPassword pw salt;
    NewCipher key ≫= λ _,
    Open key iv encodedBytes.

(** file_keystore_fips.go: [cipher.NewGCMWithRandomNonce] draws the nonce and
    puts it before the data. *)
Definition encrypt_fips (data : string) : KM string :=
  salt ← randomBytes saltLength;
  e ← get_store;
  key ← lift (hashPassword (password (ks e)) salt);
  lift (NewCipher key) ≫= λ _,
  nonce ← randomBytes iVLength;
  encodedBytes ← lift (Seal key nonce data);
  mret (salt +:+ nonce +:+ encodedBytes).

Definition decrypt_fips (pw data : string) : res kerror string :=
  if bool_decide (String.length data < saltLength + 1)%nat then Err Emissing
  else
    let salt := stake saltLength data in
    let encodedBytes := sdrop saltLength data in
    key ← hashPassword pw salt;
    NewCipher key ≫= λ _,
    if bool_decide (String.length encodedBytes < iVLength)%nat then Err Egcm
    else Open key (stake iVLength encodedBytes) (sdrop iVLength encodedBytes).

Definition encrypt (data : string) : KM string :=
  if fips then encrypt_fips data else encrypt_nofips data.

(** [decrypt] of the decoder of the file; reading it fails on corrupt base64. *)
Definition decrypt (pw : string) (encoded : string) : res kerror string :=
  match Decode encoded with
  | None => Err Ereaddata
  | Some data => if fips then decrypt_fips pw data else decrypt_nofips pw data
  end.

Definition temporaryPath (p : string) : string := p +:+ ".tmp".

Definition doSave (override : bool) : KM unit :=
  e ← get_store;
  let k := ks e in
  if negb (dirty k) then mret tt
  else
    w ← lift (of_res Eserialize (json_Encode (secrets k)));
    encrypted ← map_err Eencrypt (encrypt w);
    let tmp := temporaryPath (Path k) in
    map_err (Eopenfile (Path k)) (OpenFile tmp (negb override)) ≫= λ _,
    Write tmp version ≫= λ _,
    Write tmp (Encode encrypted) ≫= λ _,
    next_call ≫= λ _,                        (* _ = f.Sync() *)
    r ← attempt (SafeFileRotate (Path k) tmp);
    match r with
    | inr err => RemoveFile tmp ≫= λ _, fail (Ereplace (Path k) err)
    | inl _ =>
        RemoveFile tmp ≫= λ _,
        modify (on_ks (λ k, set_secrets (secrets k) false k))
    end.

Definition Save : KM unit := doSave true.

Definition Create (override : bool) : KM unit :=
  modify (on_ks (set_secrets ∅ true)) ≫= λ _, doSave override.

Definition Retrieve (key : string) : KM string :=
  e ← get_store;
  match secrets (ks e) !! key with Some v => mret v | None => fail ErrKeyDoesntExists end.

Definition Store (key value : string) : KM unit :=
  modify (on_ks (λ k, set_secrets (<[key := value]> (secrets k)) true k)).

Definition Delete (key : string) : KM unit :=
  modify (on_ks (λ k, set_secrets (delete key (secrets k)) true k)).

(** The keys, in the order of an iteration over the map. *)
Definition List_keys : KM (list string) :=
  e ← get_store; mret (map_to_list (secrets (ks e))).*1.

Definition GetConfig {C} (NewConfigFrom : gmap string string → res string C) : KM C :=
  e ← get_store; lift (of_res Econfig (NewConfigFrom (secrets (ks e)))).

Definition IsPersisted : KM bool :=
  e ← get_store;
  r ← attempt (OpenRead (Path (ks e)));
  mret (match r with inl _ => true | inr _ => false end).

Definition checkPermissions (f : string) : KM unit :=
  e ← get_store;
  if windows e then mret tt
  else
    info ← Stat f;
    let perm := f_perm info in
    if bool_decide (f_uid info ≠ 0 ∧ euid e ≠ f_uid info) then fail (Eowner f (euid e))
    else if bool_decide (perm ≠ filePermission) then fail (Eperm f perm)
    else mret tt.

(** [raw[0:len(version)]]: the array behind a file that was read is longer than
    the file and zero after it. *)
Definition version_bytes (raw : string) : string :=
  stake (String.length version) (raw +:+ String "000" (String "000" "")).

(** The empty answer stands for [nil, nil]: no keystore file. *)
Definition loadRaw : KM string :=
  e ← get_store;
  let k := ks e in
  r ← attempt (ReadFile (Path k));
  match r with
  | inr (EOS NotExist) => mret ""
  | inr err => fail err
  | inl raw =>
      (if isStrictPerms k then checkPermissions (Path k) else mret tt) ≫= λ _,
      let v := version_bytes raw in
      if negb (String.eqb v version) then fail (Eversion version v)
      else if bool_decide (String.length raw ≤ String.length version)%nat then fail Ecorrupt
      else mret raw
  end.

Definition decode_secrets (pw encoded : string) : res kerror (gmap string string) :=
  plaintext ← match decrypt pw encoded with Err e => Err (Edecrypt e) | r => r end;
  of_res Ejson (json_Decode plaintext).

Definition load : KM unit :=
  raw ← loadRaw;
  if String.eqb raw "" then mret tt
  else
    e ← get_store;
    m ← lift (decode_secrets (password (ks e)) (sdrop (String.length version) raw));
    modify (on_ks (λ k, set_secrets (m ∪ secrets k) (dirty k) k)).

Definition Package : KM string := loadRaw.

Definition ConfiguredPath : KM string := e ← get_store; mret (Path (ks e)).

(** The constructors: the new keystore becomes the one of the state. *)
Definition NewFileKeystoreWithPasswordAndStrictPerms (keystoreFile pw : string) (strictPerms : bool)
    : KM unit :=
  modify (on_ks (λ _, mkKeystore keystoreFile ∅ false pw strictPerms)) ≫= λ _, load.
Definition NewFileKeystoreWithStrictPerms (keystoreFile : string) (strictPerms : bool) : KM unit :=
  NewFileKeystoreWithPasswordAndStrictPerms keystoreFile "" strictPerms.
Definition NewFileKeystore (keystoreFile : string) : KM unit :=
  NewFileKeystoreWithStrictPerms keystoreFile false.
Definition NewFileKeystoreWithPassword (keystoreFile pw : string) : KM unit :=
  NewFileKeystoreWithPasswordAndStrictPerms keystoreFile pw false.

(** [unpacked] is the path in the configuration, or the error of unpacking it. *)
Definition Factory (unpacked : res string string) (defaultPath : string) (strictPerms : bool) : KM unit :=
  cfgPath ← lift (of_res Econfig unpacked);
  NewFileKeystoreWithStrictPerms (if String.eqb cfgPath "" then defaultPath else cfgPath) strictPerms.

(** ** keystore.go *)
Inductive resolve_error := ErrMissing | Eother (e : kerror).

(** The resolver of a keystore given by its [Retrieve]; [parseConfig] is ucfg's. *)
Definition ResolverWrap {PC} (parseConfig : PC) (retrieve : string → KM string) (keyName : string)
    : SE env resolve_error (string * PC) :=
  map_err (λ e, match e with ErrKeyDoesntExists => ErrMissing | _ => Eother e end)
    (v ← retrieve keyName; mret (v, parseConfig)).
End keystore.
