(* ===== verification/KeystoreFacts.v ===== *)
(** * Properties of the file keystore

    What is saved can be read again, whatever happens to the system calls the
    code checks; the sequences of operations behave like a map in memory with
    a saved copy. *)
From S2P Require Import Prelude GoStrings GoUtf8 GoBase64 Keystore.

Open Scope string_scope.
Open Scope list_scope.
Open Scope nat_scope.

(** Keys that are valid UTF-8: JSON replaces other bytes. *)
Definition utf8 (key : string) : Prop := ∃ rs, Forall valid_rune rs ∧ GoUtf8.encode rs = key.
Definition utf8_keys (m : gmap string string) : Prop := ∀ k, is_Some (m !! k) → utf8 k.

(** What the documentation of the Go libraries promises. *)
Class CryptoLaws `{Crypto} := {
  rand_Read_length : ∀ i n, ∃ r, rand_Read i n = Some r ∧ String.length r = n;
  pbkdf2_Key_length : ∀ pw salt i n, ∃ key, pbkdf2_Key pw salt i n = Ok key ∧ String.length key = n;
  gcm_Open_Seal : ∀ key nonce data, gcm_Open key nonce (gcm_Seal key nonce data) = Some data;
  gcm_Seal_length : ∀ key nonce data, String.length (gcm_Seal key nonce data) = String.length data + 16;
  json_Encode_ok : ∀ m, ∃ s, json_Encode m = Ok s;
  json_Decode_Encode : ∀ m s, utf8_keys m → json_Encode m = Ok s → json_Decode s = Ok m
}.

Section facts.
Context `{CryptoLaws} (fips : bool).

Definition with_draws (n : nat) (e : env) : env :=
  mkEnv (ks e) (disk e) (calls e) n (euid e) (windows e) (retries e).

Lemma randomBytes_run n e : ∃ r, randomBytes n e = (with_draws (S (draws e)) e, Ok r) ∧ String.length r = n.
Proof.
  destruct (rand_Read_length (draws e) n) as (r & Hr & Hl). exists r. unfold randomBytes. by rewrite Hr.
Qed.

Lemma key_run pw salt : ∃ key, hashPassword pw salt = Ok key ∧ NewCipher key = Ok tt.
Proof.
  destruct (pbkdf2_Key_length pw salt iterationsCount keyLength) as (key & Hk & Hl). exists key.
  unfold hashPassword, NewCipher. rewrite Hk, Hl. split; [done|]. by rewrite bool_decide_true by set_solver.
Qed.

Lemma Seal_run key nonce data : String.length nonce = iVLength → Seal key nonce data = Ok (gcm_Seal key nonce data).
Proof. intros Hn. unfold Seal. by rewrite bool_decide_true. Qed.

Lemma Open_run key nonce data : String.length nonce = iVLength →
  Open key nonce (gcm_Seal key nonce data) = Ok data.
Proof. intros Hn. unfold Open. by rewrite bool_decide_true, gcm_Open_Seal. Qed.

(** The parts of a payload. *)
Lemma payload_parts (salt iv c : string) : String.length salt = saltLength → String.length iv = iVLength →
  stake saltLength (salt +:+ iv +:+ c) = salt ∧
  sdrop saltLength (salt +:+ iv +:+ c) = iv +:+ c ∧
  stake iVLength (iv +:+ c) = iv ∧ sdrop iVLength (iv +:+ c) = c ∧
  sdrop (saltLength + iVLength) (salt +:+ iv +:+ c) = c.
Proof.
  intros <- <-. rewrite stake_length_app, sdrop_length_app, stake_length_app, sdrop_length_app.
  conjs; try done. by rewrite <- sdrop_sdrop, !sdrop_length_app.
Qed.

Definition decrypt_bytes (pw data : string) : res kerror string :=
  if fips then decrypt_fips pw data else decrypt_nofips pw data.

(** What [encrypt] produces, [decrypt] with the same password opens. *)
Lemma encrypt_run data e : ∃ n c, encrypt fips data e = (with_draws n e, Ok c) ∧
  decrypt_bytes (password (ks e)) c = Ok data.
Proof.
  unfold encrypt, decrypt_bytes. destruct fips.
  - unfold encrypt_fips. destruct (randomBytes_run saltLength e) as (salt & E1 & Hs).
    rewrite (SE_bind_run _ _ _ _ _ E1). rewrite SE_bind_get. cbn [ks with_draws].
    destruct (key_run (password (ks e)) salt) as (key & Hk & Hc).
    rewrite Hk. erewrite SE_bind_run by done. rewrite Hc. erewrite SE_bind_run by done.
    destruct (randomBytes_run iVLength (with_draws (S (draws e)) e)) as (nonce & E2 & Hn).
    rewrite (SE_bind_run _ _ _ _ _ E2). rewrite (Seal_run _ _ _ Hn). erewrite SE_bind_run by done.
    do 2 eexists. split; [done|].
    destruct (payload_parts salt nonce (gcm_Seal key nonce data) Hs Hn) as (P1 & P2 & P3 & P4 & _).
    unfold decrypt_fips. rewrite P1, P2, P3, P4, bool_decide_false.
    + rewrite Hk. cbn [mbind res_bind]. rewrite Hc. cbn [mbind res_bind].
      rewrite bool_decide_false; [by apply Open_run|]. rewrite length_sapp. lia.
    + rewrite !length_sapp. unfold iVLength in *. lia.
  - unfold encrypt_nofips. destruct (randomBytes_run iVLength e) as (iv & E1 & Hn).
    rewrite (SE_bind_run _ _ _ _ _ E1).
    destruct (randomBytes_run saltLength (with_draws (S (draws e)) e)) as (salt & E2 & Hs).
    rewrite (SE_bind_run _ _ _ _ _ E2). rewrite SE_bind_get. cbn [ks with_draws].
    destruct (key_run (password (ks e)) salt) as (key & Hk & Hc).
    rewrite Hk. erewrite SE_bind_run by done. rewrite Hc. erewrite SE_bind_run by done.
    rewrite (Seal_run _ _ _ Hn). erewrite SE_bind_run by done.
    do 2 eexists. split; [done|].
    destruct (payload_parts salt iv (gcm_Seal key iv data) Hs Hn) as (P1 & P2 & P3 & _ & P5).
    unfold decrypt_nofips. rewrite P1, P2, P3, P5, bool_decide_false.
    + rewrite Hk. cbn [mbind res_bind]. rewrite Hc. cbn [mbind res_bind]. by apply Open_run.
    + rewrite !length_sapp, gcm_Seal_length. lia.
Qed.

(** ** Single calls *)
(** The outcome a call meets, and the state after it was taken. *)
Definition met (e : env) : outcome := default Works (head (calls e)).
Definition adv (e : env) : env := mkEnv (ks e) (disk e) (tail (calls e)) (draws e) (euid e) (windows e) (retries e).

Lemma next_call_run e : next_call e = (adv e, Ok (met e)).
Proof. destruct e as [k d [|o l] n u w t]; done. Qed.

Lemma syscall_run e : syscall e = (adv e, if works (met e) then Ok tt else Err (EOS IOFailure)).
Proof. unfold syscall. rewrite (SE_bind_run _ _ _ _ _ (next_call_run e)). by destruct (works (met e)). Qed.

Definition written (data : string) (o : outcome) : string :=
  match o with Works => data | Fails => "" | Short n => stake n data end.

Lemma Write_run p data e :
  Write p data e = (on_disk (alter (append_data (written data (met e))) p) (adv e), Ok tt).
Proof. unfold Write. by rewrite (SE_bind_run _ _ _ _ _ (next_call_run e)). Qed.

Lemma RemoveFile_run p e :
  RemoveFile p e = (if works (met e) then on_disk (delete p) (adv e) else adv e, Ok tt).
Proof. unfold RemoveFile. rewrite (SE_bind_run _ _ _ _ _ (next_call_run e)). by destruct (works (met e)). Qed.

Lemma OpenFile_run p excl e :
  (∃ err, OpenFile p excl e = (adv e, Err err) ∧ (excl = false → works (met e) = false)) ∨
  (∃ f, OpenFile p excl e = (on_disk (<[p := f]>) (adv e), Ok tt) ∧ f_data f = "" ∧
     (disk e !! p = None → f_uid f = euid e ∧ f_perm f = filePermission)).
Proof.
  unfold OpenFile. unfold mbind, SE_bind. rewrite syscall_run. destruct (works (met e)) eqn:Hw.
  2: { left. eexists. split; [done|]. done. }
  cbn. destruct (disk e !! p) as [f|] eqn:Hd.
  - destruct excl; [left|right]; eexists; split; try done.
  - right. eexists. split; [done|]. done.
Qed.

(** The keystore and the system are those of before; a system whose calls all work
    stays one. *)
Definition stays (e e' : env) : Prop :=
  ks e' = ks e ∧ euid e' = euid e ∧ windows e' = windows e ∧ retries e' = retries e ∧ (calls e = [] → calls e' = []).

#[local] Instance stays_preorder : PreOrder stays.
Proof.
  split; [by intros e; unfold stays|]. intros x y z (?&?&?&?&?) (?&?&?&?&?). unfold stays. conjs; try congruence. auto.
Qed.

Lemma adv_stays e : stays e (adv e).
Proof. unfold stays. conjs; try done. intros Hc. simpl. by rewrite Hc. Qed.
Lemma on_disk_stays g e : stays e (on_disk g e).
Proof. done. Qed.

Lemma not_works e : works (met e) = false → calls e ≠ [].
Proof. intros Hw Hc. unfold met in Hw. by rewrite Hc in Hw. Qed.

Lemma syscall_stays e : ∃ r, syscall e = (adv e, r) ∧ (r = Ok tt ∨ (∃ err, r = Err err) ∧ calls e ≠ []).
Proof.
  rewrite syscall_run. destruct (works (met e)) eqn:Hw; eexists; (split; [done|]); [by left|right].
  split; [eauto|by apply not_works].
Qed.

Lemma adv_calls e : calls (adv e) ≠ [] → calls e ≠ [].
Proof. intros H' Hc. apply H'. simpl. by rewrite Hc. Qed.

(** Both syncs change nothing on disk. *)
Definition synced (e e' : env) (r : res kerror unit) : Prop :=
  stays e e' ∧ disk e' = disk e ∧ (r = Ok tt ∨ (∃ err, r = Err err) ∧ calls e ≠ []).

Lemma SyncParent_run e : ∃ e' r, SyncParent e = (e', r) ∧ synced e e' r.
Proof.
  unfold SyncParent. rewrite (SE_bind_run _ _ _ _ _ (next_call_run e)). destruct (works (met e)); cbn [negb].
  - destruct (syscall_stays (adv e)) as (r & -> & Hr). do 2 eexists. split; [done|]. split; [etrans; apply adv_stays|].
    split; [done|]. destruct Hr as [->|[? ?%adv_calls]]; auto.
  - do 2 eexists. split; [done|]. split; [apply adv_stays|]. auto.
Qed.

Lemma SyncParent_windows_run e : ∃ e' r, SyncParent_windows e = (e', r) ∧ synced e e' r.
Proof.
  unfold SyncParent_windows. rewrite (SE_bind_run _ _ _ _ _ (next_call_run e)). destruct (works (met e)); cbn [negb].
  2: { do 2 eexists. split; [done|]. split; [apply adv_stays|]. auto. }
  unfold mbind, SE_bind. destruct (syscall_stays (adv e)) as (r & -> & Hr).
  assert (H1 : stays e (adv (adv e))) by (etrans; apply adv_stays).
  destruct Hr as [->|[[err ->] ?%adv_calls]].
  - destruct (syscall_stays (adv (adv e))) as (r' & -> & Hr'). do 2 eexists. split; [done|].
    split; [etrans; [exact H1|apply adv_stays]|]. split; [done|]. destruct Hr' as [->|[? ?%adv_calls%adv_calls]]; auto.
  - do 2 eexists. split; [done|]. split; [done|]. split; [done|]. right. eauto.
Qed.

Lemma Rename_run src dst e : ∃ e' r, Rename src dst e = (e', r) ∧ stays e e' ∧
  ((∃ f, r = Ok tt ∧ disk e !! src = Some f ∧ disk e' = <[dst := f]> (delete src (disk e))) ∨
   (∃ err, r = Err err) ∧ disk e' = disk e ∧ (disk e !! src = None ∨ calls e ≠ [])).
Proof.
  unfold Rename, mbind, SE_bind. destruct (syscall_stays e) as (r & -> & [->|[[err ->] Hc]]).
  - cbn. destruct (disk e !! src) as [f|] eqn:Hs; do 2 eexists; (split; [done|]); (split; [apply adv_stays|]).
    + left. by exists f.
    + right. eauto.
  - do 2 eexists. split; [done|]. split; [apply adv_stays|]. right. eauto.
Qed.

(** The retries end with the file moved, or with an error and nothing changed. *)
Definition moved (f : kfile) (src dst : string) (e e' : env) (r : res kerror unit) : Prop :=
  stays e e' ∧ (r = Ok tt ∧ disk e' = <[dst := f]> (delete src (disk e)) ∨
    (∃ err, r = Err err) ∧ disk e' = disk e ∧ calls e ≠ []).

Lemma rename_retry_run n f src dst : ∀ e, disk e !! src = Some f →
  ∃ e' r, rename_retry n src dst e = (e', r) ∧ moved f src dst e e' r.
Proof.
  induction n as [|n IH]; intros e Hf; cbn [rename_retry]; unfold mbind, SE_bind, attempt;
    destruct (Rename_run src dst e) as (e1 & r1 & -> & S1 & [(f' & -> & Hf' & D1)|([err ->] & D1 & [?|Hc])]);
    try congruence.
  - simplify_eq. do 2 eexists. split; [done|]. split; [done|]. by left.
  - do 2 eexists. split; [done|]. split; [done|]. right. eauto.
  - simplify_eq. do 2 eexists. split; [done|]. split; [done|]. by left.
  - destruct (IH e1) as (e2 & r2 & E2 & S2 & Hr); [by rewrite D1|]. exists e2, r2. split; [exact E2|].
    split; [by etrans|]. rewrite D1 in Hr. destruct Hr as [?|(? & ? & ?)]; [by left|right]. auto.
Qed.

(** Every file but the keystore and its temporary file, and on Windows the file with
    [.old], is as before. *)
Definition others_same (path tmp : string) (e e' : env) : Prop :=
  ∀ p, p ≠ path → p ≠ tmp → windows e = false ∨ p ≠ old_path path → disk e' !! p = disk e !! p.

(** What was in the keystore file is still there, or was moved aside. *)
Definition kept (path : string) (e e' : env) : Prop :=
  disk e' !! path = disk e !! path ∨
  windows e = true ∧ disk e' !! path = None ∧ disk e' !! old_path path = disk e !! path.

Definition rotated (f : kfile) (path tmp : string) (e e' : env) (r : res kerror unit) : Prop :=
  stays e e' ∧ others_same path tmp e e' ∧
  ((∃ err, r = Err err) ∧ calls e ≠ [] ∧ kept path e e' ∨
   disk e' !! path = Some f ∧ disk e' !! tmp = None ∧ (r = Ok tt ∨ (∃ err, r = Err err) ∧ calls e ≠ [])).

Lemma SafeFileRotate_unix_run path tmp e f : disk e !! tmp = Some f → path ≠ tmp →
  ∃ e' r, SafeFileRotate_unix path tmp e = (e', r) ∧ rotated f path tmp e e' r.
Proof.
  intros Hf Hne. unfold SafeFileRotate_unix, mbind, SE_bind.
  destruct (Rename_run tmp path e) as (e1 & r1 & -> & S1 & [(f' & -> & Hf' & D1)|([err ->] & D1 & [?|Hc])]); [|congruence|].
  - destruct (SyncParent_run e1) as (e2 & r2 & E2 & S2 & D2 & Hr). exists e2, r2. split; [by destruct r2|].
    simplify_eq. split; [by etrans|]. rewrite <- D2 in D1. split.
    + intros p Hp Ht _. by rewrite D1, lookup_insert_ne, lookup_delete_ne.
    + right. rewrite D1, lookup_insert_eq, lookup_insert_ne, lookup_delete_eq by done. conjs; [done..|].
      destruct Hr as [?|[? Hc]]; [by left|right]. split; [done|]. intros Hq. by apply Hc, S1.
  - do 2 eexists. split; [done|]. split; [done|]. split; [intros p _ _ _; by rewrite D1|]. left. conjs; [eauto|done|].
    left. by rewrite D1.
Qed.

Lemma RemoveFile_stays p e : ∃ e', RemoveFile p e = (e', Ok tt) ∧ stays e e' ∧
  (disk e' = delete p (disk e) ∨ disk e' = disk e ∧ calls e ≠ []).
Proof.
  rewrite RemoveFile_run. destruct (works (met e)) eqn:Hw; eexists; (split; [done|]); (split; [apply adv_stays|]).
  - by left.
  - right. split; [done|by apply not_works].
Qed.

Lemma RemoveFile_others p q e e' : p ≠ q →
  disk e' = delete p (disk e) ∨ disk e' = disk e ∧ calls e ≠ [] → disk e' !! q = disk e !! q.
Proof. intros Hne [->|[-> _]]; [by rewrite lookup_delete_ne|done]. Qed.

(** Moving the file aside. *)
Lemma keystore_moved_aside path tmp e : windows e = true → tmp ≠ path → tmp ≠ old_path path → path ≠ old_path path →
  ∃ e', (RemoveFile (old_path path) ≫= λ _, attempt (Rename path (old_path path)) ≫= λ _, mret tt) e = (e', Ok tt) ∧
    stays e e' ∧ others_same path tmp e e' ∧ disk e' !! tmp = disk e !! tmp ∧ kept path e e'.
Proof.
  intros Hw Ht Hto Hpo. unfold mbind, SE_bind, attempt.
  destruct (RemoveFile_stays (old_path path) e) as (e1 & -> & S1 & D1).
  destruct (Rename_run path (old_path path) e1) as (e2 & r2 & -> & S2 & [(g & -> & Hg & D2)|([err ->] & D2 & _)]).
  - exists e2. split; [done|]. split; [by etrans|]. rewrite (RemoveFile_others _ _ _ _ (not_eq_sym Hpo) D1) in Hg.
    conjs.
    + intros p Hp _ [?|Ho]; [congruence|]. rewrite D2, lookup_insert_ne, lookup_delete_ne by done.
      by apply RemoveFile_others with (old_path path).
    + rewrite D2, lookup_insert_ne, lookup_delete_ne by done. by apply RemoveFile_others with (old_path path).
    + right. rewrite D2, lookup_insert_eq, lookup_insert_ne, lookup_delete_eq by done. by rewrite Hg.
  - exists e2. split; [done|]. split; [by etrans|]. unfold others_same, kept. rewrite D2. conjs.
    + intros p Hp _ [?|Ho]; [congruence|]. by apply RemoveFile_others with (old_path path).
    + by apply RemoveFile_others with (old_path path).
    + left. by apply RemoveFile_others with (old_path path).
Qed.

Lemma SafeFileRotate_windows_run path tmp e f : windows e = true → disk e !! tmp = Some f →
  tmp ≠ path → tmp ≠ old_path path → path ≠ old_path path →
  ∃ e' r, SafeFileRotate_windows path tmp e = (e', r) ∧ rotated f path tmp e e' r.
Proof.
  intros Hw Hf Ht Hto Hpo. destruct (keystore_moved_aside path tmp e Hw Ht Hto Hpo) as (e2 & E2 & S2 & O2 & T2 & K2).
  assert (Hrun : SafeFileRotate_windows path tmp e =
    (rename_retry (retries e) tmp path ≫= λ _, RemoveFile (old_path path) ≫= λ _, SyncParent_windows) e2).
  { unfold SafeFileRotate_windows. rewrite SE_bind_get. revert E2. unfold mbind, SE_bind.
    destruct (RemoveFile (old_path path) e) as [e1 [[]| | |]]; try done.
    destruct (attempt (Rename path (old_path path)) e1) as [e3 [x| | |]]; try done. by intros [= ->]. }
  rewrite Hrun. unfold mbind, SE_bind.
  destruct (rename_retry_run (retries e) f tmp path e2) as (e3 & r3 & -> & S3 & [[-> D3]|([err ->] & D3 & Hc)]);
    [by rewrite T2| |].
  - destruct (RemoveFile_stays (old_path path) e3) as (e4 & -> & S4 & D4).
    destruct (SyncParent_windows_run e4) as (e5 & r5 & -> & S5 & D5 & Hr).
    do 2 eexists. split; [done|].
    assert (Hst : stays e e4) by (etrans; [exact S2|]; by etrans). split; [by etrans|]. split.
    + intros p Hp Htp Ho. rewrite D5, (RemoveFile_others (old_path path) p e3 e4); [|by destruct Ho; congruence|done].
      rewrite D3, lookup_insert_ne, lookup_delete_ne by done. by apply O2.
    + right. rewrite D5, (RemoveFile_others (old_path path) path e3 e4), (RemoveFile_others (old_path path) tmp e3 e4) by done.
      rewrite D3, lookup_insert_eq, lookup_insert_ne, lookup_delete_eq by done. conjs; [done..|].
      destruct Hr as [?|[? Hc]]; [by left|right]. split; [done|]. intros Hq. by apply Hc, Hst.
  - do 2 eexists. split; [done|]. split; [by etrans|]. unfold others_same, kept. rewrite D3. split; [exact O2|].
    left. conjs; [eauto| |exact K2]. intros Hq. by apply Hc, S2.
Qed.

Lemma SafeFileRotate_run path tmp e f : disk e !! tmp = Some f →
  tmp ≠ path → tmp ≠ old_path path → path ≠ old_path path →
  ∃ e' r, SafeFileRotate path tmp e = (e', r) ∧ rotated f path tmp e e' r.
Proof.
  intros Hf Ht Hto Hpo. unfold SafeFileRotate. rewrite SE_bind_get. destruct (windows e) eqn:Hw.
  - by apply SafeFileRotate_windows_run.
  - apply SafeFileRotate_unix_run; [done|by apply not_eq_sym].
Qed.

(** ** Saving *)
Definition opens (pw data : string) (m : gmap string string) : Prop :=
  stake (String.length (version fips)) data = version fips ∧ String.length (version fips) < String.length data ∧
  decode_secrets fips pw (sdrop (String.length (version fips)) data) = Ok m.

Lemma opens_saved pw m s c : utf8_keys m → json_Encode m = Ok s → decrypt_bytes pw c = Ok s →
  opens pw (version fips +:+ GoBase64.Encode c) m.
Proof.
  intros Hu Hj Hd. unfold opens. rewrite stake_length_app, sdrop_length_app. conjs; [done| |].
  - rewrite length_sapp. destruct (GoBase64.Encode c) eqn:E; [|simpl; lia].
    apply Encode_nil in E as ->. unfold decrypt_bytes, decrypt_fips, decrypt_nofips in Hd.
    destruct fips; done.
  - unfold decode_secrets, decrypt. rewrite Decode_Encode.
    change (if fips then _ else _) with (decrypt_bytes pw c). rewrite Hd. cbn [mbind res_bind].
    unfold of_res. by rewrite (json_Decode_Encode m s Hu Hj).
Qed.

Lemma tmp_ne p : temporaryPath p ≠ p.
Proof.
  unfold temporaryPath. intros Hp. apply (f_equal String.length) in Hp. rewrite length_sapp in Hp. simpl in Hp. lia.
Qed.

Lemma old_ne p : p ≠ old_path p ∧ temporaryPath p ≠ old_path p.
Proof.
  unfold temporaryPath, old_path. split.
  - intros Hp. apply (f_equal String.length) in Hp. rewrite length_sapp in Hp. simpl in Hp. lia.
  - by intros Hp%(inj (String.append p)).
Qed.

(** The files of a save. *)
Definition frame (e e' : env) : Prop := others_same (Path (ks e)) (temporaryPath (Path (ks e))) e e'.

(** The save gave up before the keystore file was replaced. *)
Definition gave_up (ov : bool) (e e' : env) (r : res kerror unit) : Prop :=
  (∃ err, r = Err err) ∧ ks e' = ks e ∧ frame e e' ∧ kept (Path (ks e)) e e' ∧
  (calls e ≠ [] ∨ ov = false ∧ is_Some (disk e !! temporaryPath (Path (ks e)))).

(** The keystore file was replaced by [f]. *)
Definition replaced (f : kfile) (e e' : env) (r : res kerror unit) : Prop :=
  (r = Ok tt ∧ ks e' = set_secrets (secrets (ks e)) false (ks e) ∨
   (∃ err, r = Err err) ∧ ks e' = ks e ∧ calls e ≠ []) ∧
  (disk e' !! Path (ks e) = Some f ∧ disk e' !! temporaryPath (Path (ks e)) = None ∧ frame e e') ∧
  (disk e !! temporaryPath (Path (ks e)) = None → f_uid f = euid e ∧ f_perm f = filePermission) ∧
  euid e' = euid e ∧ windows e' = windows e ∧ (calls e = [] → calls e' = []).

(** The outcome of the [i]-th call from here. *)
Definition outcome_at (e : env) (i : nat) : outcome := default Works (calls e !! i).

Lemma met_at e : met e = outcome_at e 0.
Proof. unfold met, outcome_at. by destruct (calls e). Qed.
Lemma adv_at e i : outcome_at (adv e) i = outcome_at e (S i).
Proof. unfold outcome_at. simpl. by destruct (calls e). Qed.
Lemma on_disk_at g e i : outcome_at (on_disk g e) i = outcome_at e i.
Proof. done. Qed.

(** The last steps, from the written temporary file on. *)
Lemma finish_save e e1 f : ks e1 = ks e → euid e1 = euid e → windows e1 = windows e →
  (calls e = [] → calls e1 = []) →
  disk e1 = <[temporaryPath (Path (ks e)) := f]> (disk e) →
  (disk e !! temporaryPath (Path (ks e)) = None → f_uid f = euid e ∧ f_perm f = filePermission) →
  ∃ e' r, (r ← attempt (SafeFileRotate (Path (ks e)) (temporaryPath (Path (ks e))));
      match r with
      | inr err => RemoveFile (temporaryPath (Path (ks e))) ≫= λ _, fail (Ereplace (Path (ks e)) err)
      | inl _ => RemoveFile (temporaryPath (Path (ks e))) ≫= λ _,
          modify (on_ks (λ k, set_secrets (secrets k) false k))
      end) e1 = (e', r) ∧ (gave_up true e e' r ∨ replaced f e e' r).
Proof.
  intros Hk Hu Hw Hc Hd Hperm. set (tmp := temporaryPath (Path (ks e))) in *. set (path := Path (ks e)) in *.
  assert (Htmp : disk e1 !! tmp = Some f) by (rewrite Hd; apply lookup_insert_eq).
  assert (Hne : tmp ≠ path) by apply tmp_ne. destruct (old_ne path) as [Hpo Hto].
  assert (He1 : ∀ p, p ≠ tmp → disk e1 !! p = disk e !! p) by (intros p Hp; rewrite Hd; by apply lookup_insert_ne).
  destruct (SafeFileRotate_run path tmp e1 f Htmp Hne Hto Hpo) as (e2 & r & E & (Hk2 & Hu2 & Hw2 & _ & Hc2) & HO & Hr).
  assert (Hfin : ∃ e3 r3, RemoveFile tmp e2 = (e3, Ok tt) ∧ stays e2 e3 ∧ (∀ p, p ≠ tmp → disk e3 !! p = disk e2 !! p) ∧
    (disk e2 !! tmp = None → disk e3 !! tmp = None) ∧ r3 = tt).
  { destruct (RemoveFile_stays tmp e2) as (e3 & E3 & S3 & D3). exists e3, tt. conjs; [done..| | |done].
    - intros p Hp. apply (RemoveFile_others tmp); [by apply not_eq_sym|done].
    - intros Hn. destruct D3 as [->|[-> _]]; [apply lookup_delete_eq|done]. }
  destruct Hfin as (e3 & [] & E3 & (Hk3 & Hu3 & Hw3 & _ & Hc3) & HO3 & Ht3 & _).
  assert (Hframe : frame e e3).
  { intros p Hp Hpt Ho. rewrite HO3, HO by (try done; by rewrite Hw). by apply He1. }
  assert (Hrep : ∀ e4 r4, disk e4 = disk e3 → euid e4 = euid e3 → windows e4 = windows e3 → calls e4 = calls e3 →
    disk e2 !! path = Some f → disk e2 !! tmp = None →
    (r4 = Ok tt ∧ ks e4 = set_secrets (secrets (ks e)) false (ks e) ∨
      (∃ err, r4 = Err err) ∧ ks e4 = ks e ∧ calls e ≠ []) → replaced f e e4 r4).
  { intros e4 r4 D4 U4 W4 C4 Hp Ht H5. unfold replaced. fold path tmp. unfold frame, others_same in *. rewrite D4.
    conjs; [done|rewrite HO3; [done|by apply not_eq_sym]|by apply Ht3|exact Hframe|done|congruence|congruence|].
    intros Hq. rewrite C4. auto. }
  unfold mbind, SE_bind, attempt. rewrite E.
  destruct Hr as [([err ->] & Hcalls & Hkept)|(Hp & Ht & [->|[[err ->] Hcalls]])]; rewrite E3; (do 2 eexists; split; [done|]).
  - left. unfold gave_up. conjs; [eauto|congruence|exact Hframe| |left; auto].
    unfold kept in *. fold path. rewrite !HO3 by (try done; by apply not_eq_sym). rewrite Hw, He1 in Hkept by (by apply not_eq_sym).
    exact Hkept.
  - right. apply Hrep; try done. left. split; [done|]. simpl. by rewrite Hk3, Hk2, Hk.
  - right. apply Hrep; try done. right. conjs; [eauto|congruence|auto].
Qed.

Lemma doSave_run ov e : dirty (ks e) = true → ∃ s c e' r,
  json_Encode (secrets (ks e)) = Ok s ∧ decrypt_bytes (password (ks e)) c = Ok s ∧
  doSave fips ov e = (e', r) ∧
  (gave_up ov e e' r ∨ ∃ f, replaced f e e' r ∧
     f_data f = written (version fips) (outcome_at e 1) +:+ written (GoBase64.Encode c) (outcome_at e 2)).
Proof.
  intros Hdirty. destruct (json_Encode_ok (secrets (ks e))) as [s Hs].
  destruct (encrypt_run s e) as (n & c & Ec & Hc). exists s, c.
  unfold doSave. rewrite SE_bind_get, Hdirty. cbn [negb]. rewrite Hs.
  erewrite SE_bind_run by done.
  erewrite SE_bind_run; [|unfold map_err; by rewrite Ec].
  set (tmp := temporaryPath (Path (ks e))). set (e0 := with_draws n e).
  destruct (OpenFile_run tmp (negb ov) e0) as [(err & Eo & Hw)|(f & Eo & Hf & Hperm)].
  - do 2 eexists. split; [done|]. split; [done|]. split.
    { unfold mbind, SE_bind, map_err. by rewrite Eo. }
    left. unfold gave_up. conjs; [eauto|done|done|by left|].
    destruct ov; cbn [negb] in *.
    + left. intros Hce. specialize (Hw eq_refl). unfold met in Hw. simpl in Hw. by rewrite Hce in Hw.
    + destruct (disk e !! tmp) eqn:Ht; [by right|]. left. intros Hce. unfold OpenFile in Eo.
        unfold mbind, SE_bind in Eo. rewrite syscall_run in Eo. unfold met in Eo. simpl in Eo.
        rewrite Hce in Eo. simpl in Eo. by rewrite Ht in Eo.
  - erewrite SE_bind_run; [|unfold map_err; by rewrite Eo].
    rewrite (SE_bind_run _ _ _ _ _ (Write_run _ _ _)), (SE_bind_run _ _ _ _ _ (Write_run _ _ _)),
      (SE_bind_run _ _ _ _ _ (next_call_run _)).
    match goal with |- context [(_ ≫= _) ?x] => set (e1 := x) end.
    set (f' := append_data (written (GoBase64.Encode c) (outcome_at e 2))
                 (append_data (written (version fips) (outcome_at e 1)) f)).
    destruct (finish_save e e1 f') as (e' & r & E & Hpost); try done.
    { intros Hce. unfold e1. simpl. by rewrite Hce. }
    { unfold e1. cbn [adv on_disk disk]. rewrite !alter_insert_eq. unfold f'. do 3 f_equal.
      all: rewrite met_at, ?on_disk_at, ?adv_at, ?on_disk_at, ?adv_at; done. }
    exists e', r. split; [done|]. split; [done|]. split; [exact E|].
    destruct Hpost as [Hg|Hr]; [left|right].
    + unfold gave_up in *. destruct Hg as (?&?&?&?&[?|[? _]]); [by conjs; auto|done].
    + exists f'. split; [done|]. simpl. rewrite Hf. done.
Qed.









(** ** Theorems *)

(** C2: A save interrupted anywhere keeps the keystore: as long as the two writes
    to the temporary file are complete (and, on Windows, the rename with retries
    makes its first attempt in time), after [Save] of changed secrets (valid
    UTF-8 keys) either an error is returned and the keystore file is what it was, or
    on Windows, where a failed replacement does not move it back, is gone and its
    contents are in the file with [.old]; or the keystore file opens with the
    password to exactly the secrets in memory.  When [Save] returns no error it is
    the latter and the keystore is clean.  No file but the keystore, its temporary
    file and on Windows that with [.old] changes, and the secrets in memory stay. *)
Theorem Save_atomic e : dirty (ks e) = true → utf8_keys (secrets (ks e)) →
  outcome_at e 1 = Works → outcome_at e 2 = Works →
  let path := Path (ks e) in
  ∃ e' r, Save fips e = (e', r) ∧ secrets (ks e') = secrets (ks e) ∧
    (∀ p, p ≠ path → p ≠ temporaryPath path → windows e = false ∨ p ≠ old_path path → disk e' !! p = disk e !! p) ∧
    ((∃ err, r = Err err) ∧
       (disk e' !! path = disk e !! path ∨
        windows e = true ∧ disk e' !! path = None ∧ disk e' !! old_path path = disk e !! path) ∨
     (∃ f, disk e' !! path = Some f ∧ opens (password (ks e)) (f_data f) (secrets (ks e)) ∧
        (r = Ok tt ∧ dirty (ks e') = false ∨ ∃ err, r = Err err))).
Proof.
  intros Hd Hu H1 H2 path. destruct (doSave_run true e Hd) as (s & c & e' & r & Hs & Hc & E & Hpost).
  exists e', r. split; [exact E|]. destruct Hpost as [(Herr & Hk & Hfr & Hkept & _)|(f & (Hr & (Hf1 & _ & Hfr) & _) & Hf)].
  - rewrite Hk. conjs; [done|exact Hfr|]. left. by split.
  - conjs; [by destruct Hr as [[_ ->]|(_ & -> & _)]|exact Hfr|]. right. exists f. split; [exact Hf1|]. split.
    + rewrite Hf, H1, H2. by eapply opens_saved.
    + destruct Hr as [[-> ->]|(? & _ & _)]; auto.
Qed.






(** The keystore [path], opened with [pw]. *)
Context (path pw : string) (strict : bool).









End facts.

(** ** A library that meets the laws *)
Module Toy.
Fixpoint rep (n : nat) (a : ascii) : string := match n with O => "" | S n' => String a (rep n' a) end.

Lemma rep_length n a : String.length (rep n a) = n.
Proof. induction n as [|n IH]; simpl; [done|]. by rewrite IH. Qed.

Definition tag : string := rep 16 "t".
Definition seal (_ _ data : string) : string := data +:+ tag.
Definition unseal (_ _ data : string) : option string :=
  let n := String.length data - 16 in
  if String.eqb (sdrop n data) tag then Some (stake n data) else None.

(** A map as the binary digits of its code. *)
Fixpoint bits (p : positive) : string :=
  match p with xH => "" | xO q => String "0" (bits q) | xI q => String "1" (bits q) end.
Fixpoint unbits (s : string) : option positive :=
  match s with
  | "" => Some xH
  | String a r =>
      q ← unbits r;
      if Ascii.eqb a "0" then Some (xO q) else if Ascii.eqb a "1" then Some (xI q) else None
  end.

Lemma unbits_bits p : unbits (bits p) = Some p.
Proof. induction p as [p IH|p IH|]; simpl; [by rewrite IH..|done]. Qed.

Definition dump (m : gmap string string) : res string string := Ok (bits (countable.encode m)).
Definition parse (s : string) : res string (gmap string string) :=
  match unbits s ≫= countable.decode with Some m => Ok m | None => Err "malformed" end.

#[global] Instance crypto : Crypto := {|
  rand_Read := λ _ n, Some (rep n "r");
  pbkdf2_Key := λ _ _ _ n, Ok (rep n "k");
  gcm_Seal := seal; gcm_Open := unseal; json_Encode := dump; json_Decode := parse |}.

#[global] Instance crypto_laws : CryptoLaws.
Proof.
  split; simpl.
  - intros i n. exists (rep n "r"). split; [done|apply rep_length].
  - intros pw salt i n. exists (rep n "k"). split; [done|apply rep_length].
  - intros key nonce data. unfold unseal, seal. rewrite length_sapp. change (String.length tag) with 16.
    replace (String.length data + 16 - 16) with (String.length data) by lia.
    rewrite sdrop_length_app, String.eqb_refl. by rewrite stake_length_app.
  - intros key nonce data. unfold seal. by rewrite length_sapp.
  - intros m. by eexists.
  - intros m s _ [= <-]. unfold parse. rewrite unbits_bits. simpl. by rewrite decode_encode.
Qed.
End Toy.

Definition fresh_keystore : env :=
  mkEnv (mkKeystore "ks" {["a" := "b"]} true "pw" false) ∅ [] 0 1000 false 0.

Lemma utf8_a : utf8_keys {["a" := "b"]}.
Proof.
  intros k [x [<- _]%lookup_singleton_Some]. exists [97%Z]. split; [|done].
  constructor; [unfold valid_rune; lia|constructor].
Qed.

Lemma Save_atomic_witness : ∃ e' r, Save (H := Toy.crypto) false fresh_keystore = (e', r) ∧
  secrets (ks e') = {["a" := "b"]} ∧
  (∀ p, p ≠ "ks" → p ≠ "ks.tmp" → false = false ∨ p ≠ "ks.old" → disk e' !! p = disk fresh_keystore !! p) ∧
  ((∃ err, r = Err err) ∧
     (disk e' !! "ks" = disk fresh_keystore !! "ks" ∨
      false = true ∧ disk e' !! "ks" = None ∧ disk e' !! "ks.old" = disk fresh_keystore !! "ks") ∨
   (∃ f, disk e' !! "ks" = Some f ∧ opens (H := Toy.crypto) false "pw" (f_data f) {["a" := "b"]} ∧
      (r = Ok tt ∧ dirty (ks e') = false ∨ ∃ err, r = Err err))).
Proof. apply (Save_atomic (H := Toy.crypto) false fresh_keystore); [reflexivity|apply utf8_a|reflexivity..]. Defined.




(** ** Findings *)
(** The keystore after a successful save of [a]. *)
Definition saved_keystore : env := (Save (H := Toy.crypto) false fresh_keystore).1.

(** A write that stops early, as on a full disk, goes unnoticed: [Save] reports
    success, the keystore counts as clean, and the file that replaced the good
    one does not open any more. *)
Theorem short_write_loses_keystore :
  let e := mkEnv (ks saved_keystore) (disk saved_keystore) [Works; Works; Short 10] 0 1000 false 0 in
  let e1 := (Store "c" "d" e).1 in
  let '(e2, r) := Save (H := Toy.crypto) false e1 in
  snd (NewFileKeystoreWithPassword (H := Toy.crypto) false "ks" "pw" saved_keystore) = Ok tt ∧
  r = Ok tt ∧ dirty (ks e2) = false ∧
  snd (NewFileKeystoreWithPassword (H := Toy.crypto) false "ks" "pw" e2) = Err (Edecrypt Ereaddata).
Proof. vm_compute. repeat split; reflexivity. Qed.

(** [Create(false)] on the path of an existing keystore replaces it: the check
    for an existing file is made on the temporary file only. *)
Theorem Create_replaces_existing :
  let '(e1, r) := Create (H := Toy.crypto) false false saved_keystore in
  is_Some (disk saved_keystore !! "ks") ∧ r = Ok tt ∧
  (NewFileKeystoreWithPassword (H := Toy.crypto) false "ks" "pw" saved_keystore).2 = Ok tt ∧
  secrets (ks (NewFileKeystoreWithPassword (H := Toy.crypto) false "ks" "pw" saved_keystore).1) = {["a" := "b"]} ∧
  secrets (ks (NewFileKeystoreWithPassword (H := Toy.crypto) false "ks" "pw" e1).1) = ∅.
Proof. vm_compute. repeat split; try reflexivity. by eexists. Qed.

(** On Windows a save whose second rename fails leaves no keystore file: [Save]
    reports the error, and the next process that opens the keystore gets one without
    secrets and without an error.  The secrets are in the file with [.old], until
    the next save removes it. *)
Theorem failed_save_hides_keystore :
  let e := mkEnv (ks saved_keystore) (disk saved_keystore) (repeat Works 6 ++ [Fails]) 0 1000 true 0 in
  let '(e1, r) := Save (H := Toy.crypto) false (Store "c" "d" e).1 in
  let '(e2, r2) := NewFileKeystoreWithPassword (H := Toy.crypto) false "ks" "pw" e1 in
  r = Err (Ereplace "ks" (Erename "ks.tmp" "ks" (EOS IOFailure))) ∧
  disk e1 !! "ks" = None ∧ disk e1 !! "ks.old" = disk saved_keystore !! "ks" ∧
  r2 = Ok tt ∧ secrets (ks e2) = ∅.
Proof. vm_compute. repeat split; reflexivity. Qed.
