(* ===== verification/CloudID.v ===== *)
(** * Package [cloudid]: cloud.id and cloud.auth

    cloudid/cloudid.go, and monitoring/cloudid.go which uses it.  A cloud id is
    an optional label, a colon, and the base64 text of [host$es$kibana], each
    part with an optional port.  The configuration object is ucfg's: a
    parameter with the operations the code calls. *)
From S2P Require Import Prelude GoStrings GoUtf8 GoBase64.

Open Scope string_scope.
Open Scope Z_scope.

Definition defaultCloudPort : string := "443".

Record CloudID := mkCloudID {
  id : string; esURL : string; kibURL : string;
  auth : string; username : string; password : string
}.

Definition ElasticsearchURL (c : CloudID) : string := esURL c.
Definition KibanaURL (c : CloudID) : string := kibURL c.
Definition Username (c : CloudID) : string := username c.
Definition Password (c : CloudID) : string := password c.

Inductive cloud_error :=
| Ebase64 (cloudID : string)
| Eparts (decoded : string)
| Ecolon
| Einvalid_id (id : string) (e : cloud_error)
| Einvalid_auth (e : cloud_error).

(** ** [url.URL.String] of a URL with a scheme and a host *)
Definition is_alnum (b : Z) : bool :=
  ((97 <=? b) && (b <=? 122)) || ((65 <=? b) && (b <=? 90)) || ((48 <=? b) && (b <=? 57)).

(** Characters [escape] keeps in a host: the unreserved ones, the
    sub-delimiters, brackets, angle brackets, the colon and the double quote. *)
Definition host_char (a : ascii) : bool :=
  is_alnum (byte a) ||
  bool_decide (byte a ∈ [45; 95; 46; 126; 33; 36; 38; 39; 40; 41; 42; 43; 44; 59; 61; 58; 91; 93; 60; 62; 34]).

Definition hex_digit (n : Z) : ascii := if n <? 10 then chr (48 + n) else chr (65 + (n - 10)).

Fixpoint escape_host (s : string) : string :=
  match s with
  | "" => ""
  | String a r =>
      if host_char a then String a (escape_host r)
      else String "%" (String (hex_digit (byte a / 16)) (String (hex_digit (byte a mod 16)) (escape_host r)))
  end.

Definition url_String (scheme host : string) : string :=
  scheme +:+ ":" +:+ (if String.eqb host "" then "" else "//" +:+ escape_host host).

(** ** Decoding *)
(** [word[:idx]], [word[idx+1:]] at an index the code found. *)
Definition cut_at (s : string) (idx : Z) : string * string :=
  (stake (Z.to_nat idx) s, sdrop (S (Z.to_nat idx)) s).

Definition extractPortFromName (word defaultPort : string) : string * string :=
  let idx := LastIndex word ":" in
  if idx >=? 0 then cut_at word idx else (word, defaultPort).

Definition decodeCloudID (c : CloudID) : res cloud_error CloudID :=
  let idx := LastIndex (id c) ":" in
  let cloudID := if idx >=? 0 then snd (cut_at (id c) idx) else id c in
  match Decode cloudID with
  | None => Err (Ebase64 cloudID)
  | Some decoded =>
      match Split decoded "$" with
      | w0 :: w1 :: w2 :: _ =>
          let '(host, port) := extractPortFromName w0 defaultCloudPort in
          let '(esID, esPort) := extractPortFromName w1 port in
          let '(kbID, kbPort) := extractPortFromName w2 port in
          Ok (mkCloudID (id c)
                (url_String "https" (esID +:+ "." +:+ host +:+ ":" +:+ esPort))
                (url_String "https" (kbID +:+ "." +:+ host +:+ ":" +:+ kbPort))
                (auth c) (username c) (password c))
      | _ => Err (Eparts decoded)
      end
  end.

Definition decodeCloudAuth (c : CloudID) : res cloud_error CloudID :=
  let idx := Index (auth c) ":" in
  if idx <? 0 then Err Ecolon
  else
    let '(u, p) := cut_at (auth c) idx in
    Ok (mkCloudID (id c) (esURL c) (kibURL c) (auth c) u p).

Definition wrap_err {A} (f : cloud_error → cloud_error) (r : res cloud_error A) : res cloud_error A :=
  match r with Err e => Err (f e) | _ => r end.

Definition decode (c : CloudID) : res cloud_error CloudID :=
  c1 ← wrap_err (Einvalid_id (id c)) (decodeCloudID c);
  if negb (String.eqb (auth c1) "") then wrap_err Einvalid_auth (decodeCloudAuth c1) else Ok c1.

Definition NewCloudID (cloudID cloudAuth : string) : res cloud_error CloudID :=
  decode (mkCloudID cloudID "" "" cloudAuth "" "").

(** ** The settings *)
(** What the code uses of a configuration ([config.C], over ucfg). *)
Class ConfigLib (C : Type) := {
  cfg_String : string → C → option string;                (** [None]: an error *)
  cfg_Output : C → res string (option string);            (** unpacked output namespace, its name if set *)
  cfg_Cloud : C → res string (string * string);           (** unpacked cloud.id and cloud.auth *)
  cfg_SetHosts : string → list string → SE C string unit; (** [SetChild] of a list of strings *)
  cfg_SetString : string → string → SE C string unit;
  cfg_Remove : string → SE C string unit
}.

Inductive settings_error :=
| Eauth_without_id
| Edecode (e : cloud_error)
| Eother_output (name : string)
| Eucfg (msg : string)
| Ecfg (e : settings_error).

Section settings.
Context {C : Type} `{ConfigLib C}.

Definition ucfg {A} (c : SE C string A) : SE C settings_error A := map_err Eucfg c.

(** A value of another error type, [f] around the error. *)
Definition res_err {A E E'} (f : E → E') (r : res E A) : res E' A :=
  match r with
  | Ok a => Ok a
  | Err e => Err (f e)
  | Panic p => Panic p
  | OutOfFuel => OutOfFuel
  end.

Definition OverwriteSettings : SE C settings_error unit :=
  cfg ← get_store;
  let cloudID := default "" (cfg_String "cloud.id" cfg) in
  let cloudAuth := default "" (cfg_String "cloud.auth" cfg) in
  if String.eqb cloudID "" && String.eqb cloudAuth "" then mret tt
  else if String.eqb cloudID "" then fail Eauth_without_id
  else
    cid ← lift (res_err Edecode (NewCloudID cloudID cloudAuth));
    out ← lift (res_err Eucfg (cfg_Output cfg));
    match out with
    | Some name =>
        if negb (String.eqb name "elasticsearch") then fail (Eother_output name) else mret tt
    | None => mret tt
    end ≫= λ _,
    ucfg (cfg_SetHosts "output.elasticsearch.hosts" [ElasticsearchURL cid]) ≫= λ _,
    ucfg (cfg_SetString "setup.kibana.host" (KibanaURL cid)) ≫= λ _,
    if negb (String.eqb cloudAuth "") then
      ucfg (cfg_SetString "output.elasticsearch.username" (Username cid)) ≫= λ _,
      ucfg (cfg_SetString "output.elasticsearch.password" (Password cid))
    else mret tt.

(** monitoring/cloudid.go *)
Definition overwriteWithCloudID (cid : CloudID) : SE C settings_error unit :=
  ucfg (cfg_SetHosts "elasticsearch.hosts" [ElasticsearchURL cid]).

Definition overwriteWithCloudAuth (cid : CloudID) : SE C settings_error unit :=
  ucfg (cfg_SetString "elasticsearch.username" (Username cid)) ≫= λ _,
  ucfg (cfg_SetString "elasticsearch.password" (Password cid)).

Definition OverrideWithCloudSettings : SE C settings_error unit :=
  map_err Ecfg (
    cfg ← get_store;
    cloud ← lift (res_err Eucfg (cfg_Cloud cfg));
    let '(cid, cauth) := (cloud : string * string) in
    if String.eqb cid "" && String.eqb cauth "" then mret tt
    else if String.eqb cid "" && negb (String.eqb cauth "") then fail Eauth_without_id
    else
      ucfg (cfg_Remove "cloud") ≫= λ _,
      c ← lift (res_err Edecode (NewCloudID cid cauth));
      overwriteWithCloudID c ≫= λ _,
      if negb (String.eqb cauth "") then overwriteWithCloudAuth c else mret tt).
End settings.
