(* ===== verification/CloudIDFacts.v ===== *)
(** * Properties of cloud ids and of the settings made from them *)
From S2P Require Import Prelude GoStrings GoUtf8 GoBase64 CloudID.

Open Scope string_scope.
Open Scope Z_scope.

(** ** Searching a character *)
Lemma HasPrefix_char c a s : HasPrefix (String a s) (String c "") = Ascii.eqb a c.
Proof. simpl. by rewrite HasPrefix_nil, andb_true_r. Qed.

Lemma last_index_lacks c w : lacks c w = true → last_index_nat w (String c "") = None.
Proof.
  induction w as [|a w IH]; [done|]. intros [Ha Hw]%andb_true_iff. apply negb_true_iff in Ha.
  cbn [last_index_nat]. rewrite (IH Hw), HasPrefix_char, Ha. done.
Qed.

Lemma last_index_app c p w : lacks c w = true →
  last_index_nat (p +:+ String c w) (String c "") = Some (String.length p).
Proof.
  intros Hw. induction p as [|a p IH].
  - cbn [String.append last_index_nat String.length]. rewrite last_index_lacks, HasPrefix_char by done.
    by rewrite Ascii.eqb_refl.
  - cbn [String.append last_index_nat String.length]. by rewrite IH.
Qed.

Lemma index_app c p w : lacks c p = true → index_nat (p +:+ String c w) (String c "") = Some (String.length p).
Proof.
  induction p as [|a p IH]; intros Hp.
  - cbn [String.append index_nat String.length]. by rewrite HasPrefix_char, Ascii.eqb_refl.
  - simpl in Hp. apply andb_true_iff in Hp as [Ha Hp]. apply negb_true_iff in Ha.
    cbn [String.append index_nat String.length]. by rewrite HasPrefix_char, Ha, (IH Hp).
Qed.

Lemma cut_at_app p c w : cut_at (p +:+ String c w) (Z.of_nat (String.length p)) = (p, w).
Proof.
  unfold cut_at. rewrite Nat2Z.id, stake_length_app. f_equal.
  replace (S (String.length p)) with (String.length p + 1)%nat by lia.
  by rewrite <- sdrop_sdrop, sdrop_length_app.
Qed.

Lemma lacks_Encode c s : dec_char c = None → c ≠ pad → lacks c (Encode s) = true.
Proof.
  intros Hc Hp. assert (Hg : ∀ v i, Ascii.eqb (group v i) c = false).
  { intros v i. apply Ascii.eqb_neq. intros <-. destruct (group_spec v i) as [H _]. congruence. }
  assert (Hpad : Ascii.eqb pad c = false) by (by apply Ascii.eqb_neq).
  induction s as [|a|a b|a b d r IH] using string_ind3; cbn [Encode lacks]; rewrite ?Hg, ?Hpad; done.
Qed.

(** ** Parts with ports *)
Definition part (w : string) (port : option string) : string :=
  match port with Some p => w +:+ ":" +:+ p | None => w end.

(** A port holds no colon; a name without port holds none either. *)
Definition part_ok (w : string) (port : option string) : Prop :=
  lacks "$" w = true ∧
  match port with Some p => lacks ":" p = true ∧ lacks "$" p = true | None => lacks ":" w = true end.

Lemma extractPort_part w port d : part_ok w port →
  extractPortFromName (part w port) d = (w, default d port).
Proof.
  intros [_ Hp]. unfold extractPortFromName, LastIndex. destruct port as [p|]; cbn [part default].
  - destruct Hp as [Hp _]. change (":" +:+ p) with (String ":" p). rewrite last_index_app by done.
    rewrite (proj2 (Z.geb_le _ _)) by lia. by rewrite cut_at_app.
  - by rewrite last_index_lacks.
Qed.

Lemma lacks_part w port : part_ok w port → lacks "$" (part w port) = true.
Proof.
  intros [Hw Hp]. destruct port as [p|]; [|done]. destruct Hp as [_ Hp]. cbn [part].
  rewrite !lacks_sapp, Hw, Hp. done.
Qed.

(** The text of a cloud id, with an optional label. *)
Definition cloud_text (label : option string) (decoded : string) : string :=
  match label with Some l => l +:+ ":" +:+ Encode decoded | None => Encode decoded end.

Lemma decode_text label decoded :
  (let idx := LastIndex (cloud_text label decoded) ":" in
   Decode (if idx >=? 0 then snd (cut_at (cloud_text label decoded) idx) else cloud_text label decoded))
  = Some decoded.
Proof.
  assert (Hl : lacks ":" (Encode decoded) = true) by by apply lacks_Encode.
  unfold LastIndex. destruct label as [l|]; cbn [cloud_text].
  - change (":" +:+ Encode decoded) with (String ":" (Encode decoded)).
    rewrite last_index_app by done. cbn zeta. rewrite (proj2 (Z.geb_le _ _)) by lia.
    rewrite cut_at_app. apply Decode_Encode.
  - rewrite last_index_lacks by done. apply Decode_Encode.
Qed.

(** C27: A cloud id made from a host, an Elasticsearch and a Kibana name, each
    with an optional port, with or without a label and with further parts, is
    decoded to the two URLs: the name and the host joined by a dot, with the
    port of the name, else that of the host, else 443.  The text of
    [cloud.auth] is cut at its first colon.  No name, port or further part holds
    a dollar sign, no port and no name without a port holds a colon, and neither
    does the user name. *)
Theorem NewCloudID_roundtrip label host hp es ep kb kp more user pw :
  part_ok host hp → part_ok es ep → part_ok kb kp → Forall (λ w, lacks "$" w = true) more →
  lacks ":" user = true →
  let port := default defaultCloudPort hp in
  let es_url := url_String "https" (es +:+ "." +:+ host +:+ ":" +:+ default port ep) in
  let kb_url := url_String "https" (kb +:+ "." +:+ host +:+ ":" +:+ default port kp) in
  let text := cloud_text label (Join (part host hp :: part es ep :: part kb kp :: more) "$") in
  NewCloudID text "" = Ok (mkCloudID text es_url kb_url "" "" "") ∧
  NewCloudID text (user +:+ ":" +:+ pw) =
    Ok (mkCloudID text es_url kb_url (user +:+ ":" +:+ pw) user pw).
Proof.
  intros Hh He Hk Hm Hu port es_url kb_url text.
  assert (Hid : ∀ a, decodeCloudID (mkCloudID text "" "" a "" "") = Ok (mkCloudID text es_url kb_url a "" "")).
  { intros a. unfold decodeCloudID. cbn [id auth username password].
    pose proof (decode_text label (Join (part host hp :: part es ep :: part kb kp :: more) "$")) as Hd.
    fold text in Hd. cbn zeta in Hd |- *. rewrite Hd. rewrite Split_Join.
    - by rewrite (extractPort_part host), (extractPort_part es), (extractPort_part kb).
    - done.
    - repeat (apply Forall_cons; split; [by apply lacks_part|]). done. }
  unfold NewCloudID, decode. cbn [id auth]. rewrite !Hid. cbn [wrap_err mbind res_bind auth]. split; [done|].
  destruct (String.eqb_spec (user +:+ ":" +:+ pw) "") as [E|_].
  { destruct user; done. }
  cbn [negb]. unfold decodeCloudAuth. cbn [auth id esURL kibURL]. unfold Index.
  change (":" +:+ pw) with (String ":" pw). rewrite index_app by done.
  rewrite (proj2 (Z.ltb_ge _ _)) by lia. by rewrite cut_at_app.
Qed.

Lemma NewCloudID_roundtrip_witness :
  let text := "cluster:aG9zdDo5MjQzJGVzJGtiOjU2MDE=" in
  NewCloudID text "" =
    Ok (mkCloudID text "https://es.host:9243" "https://kb.host:5601" "" "" "") ∧
  NewCloudID text "elastic:pa:ss" =
    Ok (mkCloudID text "https://es.host:9243" "https://kb.host:5601" "elastic:pa:ss" "elastic" "pa:ss").
Proof.
  apply (NewCloudID_roundtrip (Some "cluster") "host" (Some "9243") "es" None "kb" (Some "5601") [] "elastic" "pa:ss");
    try (split; [reflexivity|]); try (split; reflexivity); try reflexivity. constructor.
Defined.

(** ** The settings *)
(** Reading a configuration after it was set. *)
Class ConfigLaws C `{ConfigLib C} := {
  cfg_Hosts : string → C → option (list string);
  SetHosts_get : ∀ k l c c', cfg_SetHosts k l c = (c', Ok tt) → cfg_Hosts k c' = Some l;
  SetString_get : ∀ k v c c', cfg_SetString k v c = (c', Ok tt) → cfg_String k c' = Some v;
  SetString_other : ∀ k v c c', cfg_SetString k v c = (c', Ok tt) →
    (∀ k', k' ≠ k → cfg_String k' c' = cfg_String k' c) ∧ (∀ k', k' ≠ k → cfg_Hosts k' c' = cfg_Hosts k' c)
}.

Section settings.
Context {C : Type} `{ConfigLib C} `{!ConfigLaws C}.

Definition rejected {A} (r : res settings_error A) : Prop :=
  match r with
  | Err Eauth_without_id | Err (Edecode _) | Err (Eother_output _) => True
  | _ => False
  end.

Lemma ucfg_Ok {A} (c : SE C string A) s s' a : ucfg c s = (s', Ok a) → c s = (s', Ok a).
Proof. unfold ucfg, map_err. destruct (c s) as [s1 [x| | |]]; try done. by intros [= -> ->]. Qed.

Lemma rejected_ucfg {A} (c : SE C string A) s : ¬ rejected (ucfg c s).2.
Proof. unfold ucfg, map_err. destruct (c s) as [s1 [x| | |]]; by intros []. Qed.

Lemma rejected_bind {A B} (c : SE C settings_error A) (k : A → SE C settings_error B) s :
  ¬ rejected (c s).2 → (∀ a s, ¬ rejected (k a s).2) → ¬ rejected ((c ≫= k) s).2.
Proof. intros Hc Hk. unfold mbind, SE_bind. destruct (c s) as [s1 [x| | |]]; [apply Hk|exact Hc|by intros []..]. Qed.

(** The writes, once a cloud id was accepted. *)
Definition write_settings (cid : CloudID) (cloudAuth : string) : SE C settings_error unit :=
  ucfg (cfg_SetHosts "output.elasticsearch.hosts" [ElasticsearchURL cid]) ≫= λ _,
  ucfg (cfg_SetString "setup.kibana.host" (KibanaURL cid)) ≫= λ _,
  if negb (String.eqb cloudAuth "") then
    ucfg (cfg_SetString "output.elasticsearch.username" (Username cid)) ≫= λ _,
    ucfg (cfg_SetString "output.elasticsearch.password" (Password cid))
  else mret tt.

Lemma write_settings_Ok cid cloudAuth cfg cfg' : write_settings cid cloudAuth cfg = (cfg', Ok tt) →
  cfg_Hosts "output.elasticsearch.hosts" cfg' = Some [ElasticsearchURL cid] ∧
  cfg_String "setup.kibana.host" cfg' = Some (KibanaURL cid) ∧
  (cloudAuth ≠ "" → cfg_String "output.elasticsearch.username" cfg' = Some (Username cid) ∧
     cfg_String "output.elasticsearch.password" cfg' = Some (Password cid)).
Proof.
  unfold write_settings. intros Hr.
  apply SE_bind_Ok in Hr as (c1 & [] & H1%ucfg_Ok%SetHosts_get & Hr).
  apply SE_bind_Ok in Hr as (c2 & [] & H2%ucfg_Ok & Hr).
  pose proof (SetString_get _ _ _ _ H2) as G2. apply SetString_other in H2 as [_ F2].
  destruct (String.eqb_spec cloudAuth "") as [->|Hne]; cbn [negb] in Hr.
  { injection Hr as <-. rewrite F2 by done. done. }
  apply SE_bind_Ok in Hr as (c3 & [] & H3%ucfg_Ok & H4%ucfg_Ok).
  pose proof (SetString_get _ _ _ _ H3) as G3. apply SetString_other in H3 as [S3 F3].
  pose proof (SetString_get _ _ _ _ H4) as G4. apply SetString_other in H4 as [S4 F4].
  rewrite F4, F3, F2, S4, S3 by done. conjs; try done. intros _. by rewrite S4.
Qed.

(** [OverwriteSettings]: without cloud settings nothing happens; a cloud
    auth without id, an id that does not decode and another enabled output are
    rejected before anything is written; on success the Elasticsearch hosts
    are the one URL of the cloud id, the Kibana host is its other URL, and with
    [cloud.auth] the user name and password are its two parts. *)
Theorem OverwriteSettings_spec cfg cfg' r :
  let cloudID := default "" (cfg_String "cloud.id" cfg) in
  let cloudAuth := default "" (cfg_String "cloud.auth" cfg) in
  OverwriteSettings cfg = (cfg', r) →
  (cloudID = "" → cfg' = cfg ∧ r = if String.eqb cloudAuth "" then Ok tt else Err Eauth_without_id) ∧
  (rejected r → cfg' = cfg) ∧
  (cloudID ≠ "" → r = Ok tt → ∃ cid, NewCloudID cloudID cloudAuth = Ok cid ∧
     (∀ name, cfg_Output cfg = Ok (Some name) → name = "elasticsearch") ∧
     cfg_Hosts "output.elasticsearch.hosts" cfg' = Some [esURL cid] ∧
     cfg_String "setup.kibana.host" cfg' = Some (kibURL cid) ∧
     (cloudAuth ≠ "" → cfg_String "output.elasticsearch.username" cfg' = Some (username cid) ∧
        cfg_String "output.elasticsearch.password" cfg' = Some (password cid))).
Proof.
  intros cloudID cloudAuth. unfold OverwriteSettings. rewrite SE_bind_get. fold cloudID cloudAuth.
  destruct (String.eqb_spec cloudID "") as [Hid|Hid]; cbn [andb].
  { destruct (String.eqb cloudAuth ""); intros [= <- <-]; by conjs. }
  destruct (NewCloudID cloudID cloudAuth) as [cid|e|p|] eqn:Hn;
    [|intros [= <- <-]; by conjs..].
  erewrite SE_bind_run by done.
  destruct (cfg_Output cfg) as [out|e|p|] eqn:Ho; [|intros [= <- <-]; by conjs..].
  erewrite SE_bind_run by done.
  assert (Hw : ∀ q, write_settings cid cloudAuth cfg = (cfg', q) → ¬ rejected q).
  { intros q Hq. change q with (cfg', q).2. rewrite <- Hq. unfold write_settings.
    apply rejected_bind; [apply rejected_ucfg|intros _ s1]. apply rejected_bind; [apply rejected_ucfg|intros _ s2].
    destruct (negb _); [|by intros []]. apply rejected_bind; [apply rejected_ucfg|intros _ s3]. apply rejected_ucfg. }
  intros Hr. assert (Hcase : (∃ name, out = Some name ∧ name ≠ "elasticsearch" ∧ cfg' = cfg ∧ r = Err (Eother_output name)) ∨
    (∀ name, out = Some name → name = "elasticsearch") ∧ write_settings cid cloudAuth cfg = (cfg', r)).
  { destruct out as [name|].
    - destruct (String.eqb_spec name "elasticsearch") as [->|Hne]; cbn [negb] in Hr.
      + right. split; [by intros ? [= <-]|exact Hr].
      + left. injection Hr as <- <-. by exists name.
    - right. split; [done|exact Hr]. }
  destruct Hcase as [(name & -> & Hne & -> & ->)|[Hout Hws]]; [by conjs|]. conjs; [done| |].
  - intros Hrej. by apply Hw in Hws.
  - intros _ ->. apply write_settings_Ok in Hws as (H1 & H2 & H3). exists cid. conjs; try done.
    intros name [= ->]. by apply Hout.
Qed.
End settings.

(** ** A configuration that meets the laws: lists of strings by name *)
Module MapConfig.
Abbreviation C := (gmap string (list string)).

Definition get (k : string) (c : C) : option string :=
  match c !! k with Some [v] => Some v | _ => None end.

#[global] Instance lib : ConfigLib C := {|
  cfg_String := get;
  cfg_Output := λ c, Ok (get "output" c);
  cfg_Cloud := λ c, Ok (default "" (get "cloud.id" c), default "" (get "cloud.auth" c));
  cfg_SetHosts := λ k l, modify (<[k := l]>);
  cfg_SetString := λ k v, modify (<[k := [v]]>);
  cfg_Remove := λ k, modify (delete k) |}.

#[global] Instance laws : ConfigLaws C.
Proof.
  refine {| cfg_Hosts := λ k (c : C), c !! k |}; simpl.
  - intros k l c c' [= <-]. apply (lookup_insert_eq).
  - intros k v c c' [= <-]. unfold get. by rewrite (lookup_insert_eq).
  - intros k v c c' [= <-]. split; intros k' Hk; unfold get; by rewrite (lookup_insert_ne).
Defined.
End MapConfig.

Definition demo_config : MapConfig.C :=
  {["cloud.id" := ["aG9zdCRlcyRrYg=="]; "cloud.auth" := ["u:p"]]}.

Lemma OverwriteSettings_spec_witness :
  let out := OverwriteSettings (C := MapConfig.C) demo_config in
  out.2 = Ok tt ∧ ∃ cid, NewCloudID "aG9zdCRlcyRrYg==" "u:p" = Ok cid ∧
    cfg_Hosts "output.elasticsearch.hosts" out.1 = Some [esURL cid].
Proof.
  split; [vm_compute; reflexivity|].
  destruct (OverwriteSettings_spec (C := MapConfig.C) demo_config
    (OverwriteSettings (C := MapConfig.C) demo_config).1 (Ok tt)) as (_ & _ & Hok).
  - vm_compute. reflexivity.
  - destruct Hok as (cid & Hn & _ & Hh & _); [by vm_compute|done|]. exists cid. split; [exact Hn|exact Hh].
Defined.
