(* ===== verification/Periodic.v ===== *)
(** * Package [periodic]: an action at most once per period

    periodic/ratelimited.go.  [Add] and [AddN] are atomic additions made by any
    goroutine; [Start] and [Stop] are calls of controlling goroutines, and the
    worker that [Start] spawns waits for the ticker or for the channel that
    [Stop] closes.  The machine interleaves the atomic steps of all of them. *)
From S2P Require Import Prelude.

Open Scope Z_scope.
Open Scope list_scope.

Record Doer := mkDoer {
  count : Z;                (** [atomic.Uint64] *)
  period : Z;
  lastDone : Z;
  done : option nat;        (** the channel, by its number *)
  started : bool;
  ticker : bool;            (** a ticker was made *)
  wg : nat
}.

Definition NewDoer (period : Z) : Doer := mkDoer 0 period 0 None false false 0.

Definition set_count (c : Z) (d : Doer) : Doer :=
  mkDoer c (period d) (lastDone d) (done d) (started d) (ticker d) (wg d).
Definition set_lastDone (t : Z) (d : Doer) : Doer :=
  mkDoer (count d) (period d) t (done d) (started d) (ticker d) (wg d).
Definition set_done (c : nat) (d : Doer) : Doer :=
  mkDoer (count d) (period d) (lastDone d) (Some c) (started d) (ticker d) (wg d).
Definition set_started (b : bool) (d : Doer) : Doer :=
  mkDoer (count d) (period d) (lastDone d) (done d) b (ticker d) (wg d).
Definition set_ticker (d : Doer) : Doer :=
  mkDoer (count d) (period d) (lastDone d) (done d) (started d) true (wg d).
Definition set_wg (n : nat) (d : Doer) : Doer :=
  mkDoer (count d) (period d) (lastDone d) (done d) (started d) (ticker d) n.

(** [r.count.Add(n)], on 64 bits *)
Definition AddN (n : Z) (d : Doer) : Doer := set_count (wrapu64 (count d + n)) d.
Definition Add (d : Doer) : Doer := AddN 1 d.

(** A worker: at the top of its loop, waiting in the select, whose channels were
    read when it was entered ([None] is the nil channel), about to run [do], about to
    call [doFn] with the count it took, or leaving.  [last] tells the run of [do] after
    [done] was closed. *)
Inductive worker :=
| WLoop
| WSelect (ch : option nat)
| WDo (last : bool)
| WCall (c : Z) (last : bool)
| WLeave.

Inductive call := Start | Stop.

(** A controlling goroutine: the calls it has still to make, and where it is in
    the current one. *)
Inductive control :=
| CIdle (todo : list call)
| CStart (step : nat) (todo : list call)
| CClose (todo : list call)
| CWait (todo : list call)
| CPanic (p : panic).

Record sys := mkSys {
  doer : Doer;
  closed : list bool;          (** the channels made so far *)
  reports : list (Z * Z);      (** the calls of [doFn], latest first *)
  workers : list worker;
  controls : list control;
  added : Z;                   (** all that was added so far *)
  mark : Z                     (** what was added when a channel was last closed *)
}.

Definition on_doer (g : Doer → Doer) (s : sys) : sys :=
  mkSys (g (doer s)) (closed s) (reports s) (workers s) (controls s) (added s) (mark s).
Definition set_worker (i : nat) (w : worker) (s : sys) : sys :=
  mkSys (doer s) (closed s) (reports s) (<[i := w]> (workers s)) (controls s) (added s) (mark s).
Definition set_control (i : nat) (c : control) (s : sys) : sys :=
  mkSys (doer s) (closed s) (reports s) (workers s) (<[i := c]> (controls s)) (added s) (mark s).
Definition drop_worker (i : nat) (s : sys) : sys :=
  mkSys (doer s) (closed s) (reports s) (delete i (workers s)) (controls s) (added s) (mark s).

(** After [do] the worker goes on with its loop or leaves. *)
Definition after_do (last : bool) : worker := if last then WLeave else WLoop.

Definition is_closed (s : sys) (ch : option nat) : bool :=
  match ch with Some c => default false (closed s !! c) | None => false end.

(** One step of worker [i]; [tick] tells which ready case the select takes. *)
Definition worker_step (tick : bool) (now : Z) (i : nat) (s : sys) : option sys :=
  match workers s !! i with
  | Some WLoop => Some (set_worker i (WSelect (done (doer s))) s)
  | Some (WSelect ch) =>
      if tick then Some (set_worker i (WDo false) s)
      else if is_closed s ch then Some (set_worker i (WDo true) s) else None
  | Some (WDo last) =>
      let c := count (doer s) in
      let s' := on_doer (set_count 0) s in
      if c =? 0 then Some (set_worker i (after_do last) s') else Some (set_worker i (WCall c last) s')
  | Some (WCall c last) =>
      let s' := on_doer (set_lastDone now) s in
      Some (set_worker i (after_do last)
        (mkSys (doer s') (closed s') ((c, period (doer s')) :: reports s') (workers s') (controls s')
           (added s') (mark s')))
  | Some WLeave => Some (drop_worker i (on_doer (λ d, set_wg (pred (wg d)) d) s))
  | None => None
  end.

(** One step of control [i]. *)
Definition control_step (now : Z) (i : nat) (s : sys) : option sys :=
  match controls s !! i with
  | Some (CIdle (Start :: todo)) =>
      if started (doer s) then Some (set_control i (CIdle todo) s)
      else Some (set_control i (CStart 0 todo) (on_doer (set_started true) s))
  | Some (CIdle (Stop :: todo)) =>
      if started (doer s) then Some (set_control i (CClose todo) (on_doer (set_started false) s))
      else Some (set_control i (CIdle todo) s)
  | Some (CStart 0 todo) =>
      let ch := length (closed s) in
      let s' := on_doer (set_done ch) s in
      Some (set_control i (CStart 1 todo)
        (mkSys (doer s') (closed s' ++ [false]) (reports s') (workers s') (controls s') (added s') (mark s')))
  | Some (CStart 1 todo) =>
      Some (set_control i (CStart 2 todo) (on_doer (λ d, set_ticker (set_lastDone now d)) s))
  | Some (CStart _ todo) =>
      let s' := on_doer (λ d, set_wg (S (wg d)) d) s in
      Some (set_control i (CIdle todo)
        (mkSys (doer s') (closed s') (reports s') (workers s' ++ [WLoop]) (controls s') (added s') (mark s')))
  | Some (CClose todo) =>
      match done (doer s) with
      | None => Some (set_control i (CPanic (PExplicit "close of nil channel")) s)
      | Some ch =>
          if default false (closed s !! ch)
          then Some (set_control i (CPanic (PExplicit "close of closed channel")) s)
          else Some (set_control i (CWait todo)
                 (mkSys (doer s) (<[ch := true]> (closed s)) (reports s) (workers s) (controls s)
                    (added s) (added s)))
      end
  | Some (CWait todo) =>
      if bool_decide (wg (doer s) = 0%nat) then Some (set_control i (CIdle todo) s) else None
  | _ => None
  end.

(** The machine: somebody adds, a worker or a control makes a step. *)
Inductive step : sys → sys → Prop :=
| step_add n s : 0 ≤ n < two64 →
    step s (mkSys (AddN n (doer s)) (closed s) (reports s) (workers s) (controls s) (added s + n) (mark s))
| step_worker tick now i s s' : worker_step tick now i s = Some s' → step s s'
| step_control now i s s' : control_step now i s = Some s' → step s s'.

Definition initial (p : Z) (todos : list (list call)) : sys :=
  mkSys (NewDoer p) [] [] [] (map CIdle todos) 0 0.

Definition reachable (p : Z) (todos : list (list call)) (s : sys) : Prop := rtc step (initial p todos) s.
