(* ===== verification/PeriodicFacts.v ===== *)
(** * Properties of the periodic action *)
From S2P Require Import Prelude Periodic.

Open Scope Z_scope.
Open Scope list_scope.

(** ** Sums *)
Definition sumZ {A} (f : A → Z) (l : list A) : Z := foldr (λ x a, f x + a) 0 l.

Lemma sumZ_app {A} (f : A → Z) l k : sumZ f (l ++ k) = sumZ f l + sumZ f k.
Proof. induction l as [|x l IH]; simpl; [lia|]. unfold sumZ in *. simpl. lia. Qed.

Lemma sumZ_insert {A} (f : A → Z) l i x y : l !! i = Some x → sumZ f (<[i := y]> l) = sumZ f l - f x + f y.
Proof.
  revert i. induction l as [|z l IH]; intros i Hi; [done|]. destruct i as [|i]; simplify_eq/=; [lia|].
  rewrite (IH i Hi). lia.
Qed.

Lemma sumZ_delete {A} (f : A → Z) l i x : l !! i = Some x → sumZ f (delete i l) = sumZ f l - f x.
Proof.
  revert i. induction l as [|z l IH]; intros i Hi; [done|]. destruct i as [|i]; simplify_eq/=; [lia|].
  rewrite (IH i Hi). lia.
Qed.

Lemma sumZ_nonneg {A} (f : A → Z) l : Forall (λ x, 0 ≤ f x) l → 0 ≤ sumZ f l.
Proof. induction 1 as [|x l Hx _ IH]; simpl; lia. Qed.

(** ** Nothing is lost or made up *)
Definition pending (w : worker) : Z := match w with WCall c _ => c | _ => 0 end.
Definition reported (s : sys) : Z := sumZ fst (reports s).

Definition worker_ok (w : worker) : Prop := match w with WCall c _ => 0 < c | _ => True end.

Definition conserved (s : sys) : Prop :=
  0 ≤ mark s ≤ added s ∧ 0 ≤ count (doer s) ∧ Forall worker_ok (workers s) ∧
  Forall (λ r, 0 < r.1) (reports s) ∧
  ∃ wraps, 0 ≤ wraps ∧ reported s + sumZ pending (workers s) + count (doer s) + wraps * two64 = added s.

Lemma after_do_ok last : pending (after_do last) = 0 ∧ worker_ok (after_do last).
Proof. by destruct last. Qed.

Lemma pending_nonneg s : conserved s → 0 ≤ sumZ pending (workers s) ∧ 0 ≤ reported s.
Proof.
  intros (_ & _ & Hw & Hr & _). split; apply sumZ_nonneg.
  - eapply Forall_impl; [exact Hw|]. intros [] H; simpl in *; lia.
  - eapply Forall_impl; [exact Hr|]. simpl. lia.
Qed.

(** Below 2^64 the counter has not wrapped. *)
Lemma conserved_exact s : conserved s → added s < two64 →
  reported s + sumZ pending (workers s) + count (doer s) = added s.
Proof.
  intros Hc Hlt. destruct (pending_nonneg s Hc) as [? ?]. destruct Hc as (_ & ? & _ & _ & k & ? & ?).
  unfold two64 in *. lia.
Qed.

Lemma conserved_worker tick now i s s' : conserved s → worker_step tick now i s = Some s' → conserved s'.
Proof.
  intros (Hm & Hc & Hp & Hr & k & Hk & Hsum) Hs. unfold worker_step in Hs.
  destruct (workers s !! i) as [w|] eqn:Hw; [|done].
  pose proof (Forall_lookup_1 _ _ _ _ Hp Hw) as Hpw.
  assert (Hins : ∀ w', worker_ok w' → Forall worker_ok (<[i := w']> (workers s))).
  { intros w' Hw'. by apply Forall_insert. }
  unfold conserved, reported in *. destruct w as [|ch|last|c last|].
  - injection Hs as <-. simpl. rewrite (sumZ_insert _ _ _ _ _ Hw). simpl.
    conjs; try done; try lia; [by apply Hins|exists k; lia].
  - destruct tick; [|destruct (is_closed s ch); [|done]]; injection Hs as <-; simpl;
      rewrite (sumZ_insert _ _ _ _ _ Hw); simpl; conjs; try done; try lia; try (by apply Hins); exists k; lia.
  - destruct (after_do_ok last) as [Ha Hok].
    destruct (Z.eqb_spec (count (doer s)) 0) as [E|E]; injection Hs as <-; simpl;
      rewrite (sumZ_insert _ _ _ _ _ Hw), ?Ha; simpl;
      conjs; try done; try lia; try (exists k; lia); apply Hins; [done|simpl; lia].
  - destruct (after_do_ok last) as [Ha Hok].
    injection Hs as <-. simpl. rewrite (sumZ_insert _ _ _ _ _ Hw), Ha. simpl in *.
    conjs; try done; try lia; [by apply Hins|by constructor|exists k; lia].
  - injection Hs as <-. simpl. rewrite (sumZ_delete _ _ _ _ Hw). simpl. conjs; try done; try lia; [|exists k; lia].
    by apply Forall_delete.
Qed.

Lemma conserved_control now i s s' : conserved s → control_step now i s = Some s' → conserved s'.
Proof.
  intros (Hm & Hc & Hp & Hr & k & Hk & Hsum) Hs. unfold control_step in Hs.
  destruct (controls s !! i) as [c|]; [|done]. unfold conserved, reported in *.
  destruct c as [[|[] todo]|[|[|n]] todo|todo|todo|]; try done.
  all: repeat case_match; simplify_eq/=; conjs; try done; try lia; try (exists k; lia).
  - by apply Forall_app_2; [|constructor].
  - exists k. rewrite sumZ_app. simpl. lia.
Qed.

Lemma conserved_step s s' : step s s' → conserved s → conserved s'.
Proof.
  intros [n t Hn|tick now i t t' Ht|now i t t' Ht] Hc;
    [|by eapply conserved_worker|by eapply conserved_control].
  destruct Hc as (Hm & Hc & Hp & Hr & k & Hk & Hsum). unfold conserved, reported in *. simpl.
  pose proof (wrapu64_range (count (doer t) + n)) as [Hw _]. conjs; try done; try lia.
  exists (k + (count (doer t) + n) / two64). unfold wrapu64. pose proof (Z.div_mod (count (doer t) + n) two64 ltac:(done)).
  pose proof (Z.div_pos (count (doer t) + n) two64 ltac:(lia) ltac:(done)). lia.
Qed.

Lemma conserved_reachable p todos s : reachable p todos s → conserved s.
Proof.
  unfold reachable. intros Hs.
  assert (Hinit : conserved (initial p todos)) by (unfold conserved; simpl; conjs; try done; [lia..|by exists 0]).
  revert Hinit. induction Hs as [|s1 s2 s3 H12 _ IH]; intros Hi; [done|]. apply IH. by eapply conserved_step.
Qed.

(** ** One controlling goroutine *)
Definition open (s : sys) : Prop := ∃ ch, done (doer s) = Some ch ∧ closed s !! ch = Some false.
Definition shut (s : sys) : Prop := ∃ ch, done (doer s) = Some ch ∧ closed s !! ch = Some true.

(** A worker that waits does so on the channel of the doer. *)
Definition alive (s : sys) (w : worker) : Prop :=
  match w with WLoop | WDo false | WCall _ false => True | WSelect ch => ch = done (doer s) | _ => False end.

Definition quiet (s : sys) : Prop := workers s = [] ∧ wg (doer s) = 0%nat.
Definition live (s : sys) : Prop := open s ∧ wg (doer s) = 1%nat ∧ ∃ w, workers s = [w] ∧ alive s w.

(** After the channel was closed: a worker past its last count has taken all
    that was added before. *)
Definition flushing (s : sys) (w : worker) : Prop :=
  match w with
  | WLoop | WDo _ | WCall _ false => True
  | WSelect ch => ch = done (doer s)
  | WCall c true => mark s ≤ reported s + c
  | WLeave => mark s ≤ reported s
  end.

Definition phase (s : sys) (c : control) : Prop :=
  match c with
  | CIdle _ => if started (doer s) then live s else quiet s
  | CStart n _ => started (doer s) = true ∧ quiet s ∧ (n = 0%nat ∨ open s)
  | CClose _ => started (doer s) = false ∧ live s
  | CWait _ => started (doer s) = false ∧ shut s ∧
      (quiet s ∧ mark s ≤ reported s ∨ wg (doer s) = 1%nat ∧ ∃ w, workers s = [w] ∧ flushing s w)
  | CPanic _ => False
  end.

Definition governed (s : sys) : Prop := ∃ c, controls s = [c] ∧ phase s c.

Lemma singleton_lookup {A} (l : list A) x i y : l = [x] → l !! i = Some y → i = 0%nat ∧ y = x.
Proof. intros -> Hi. destruct i as [|i]; [|by rewrite lookup_nil in Hi || destruct i]. by injection Hi as ->. Qed.

Lemma shut_is_closed s : shut s → is_closed s (done (doer s)) = true.
Proof. intros (ch & Hd & Hc). unfold is_closed. by rewrite Hd, Hc. Qed.
Lemma open_not_closed s : open s → is_closed s (done (doer s)) = false.
Proof. intros (ch & Hd & Hc). unfold is_closed. by rewrite Hd, Hc. Qed.

(** A live worker stays alive while the channel is open. *)
Lemma live_worker tick now i s s' : live s → worker_step tick now i s = Some s' →
  live s' ∧ started (doer s') = started (doer s) ∧ controls s' = controls s.
Proof.
  intros (Ho & Hg & w & Hw & Ha) Hs. unfold worker_step in Hs.
  destruct (workers s !! i) as [w'|] eqn:Hi; [|done].
  destruct (singleton_lookup _ _ _ _ Hw Hi) as [-> ->].
  pose proof (open_not_closed s Ho) as Hnc.
  destruct w as [|ch|[]|c []|]; try done; simpl in Ha; rewrite ?Ha, ?Hnc in Hs.
  all: repeat case_match; simplify_eq/=; (split; [|done]);
    (split; [done|]); (split; [done|]); eexists; simpl; rewrite Hw; (split; [done|]); done.
Qed.

(** The worker of a closed channel. *)
Lemma wait_worker tick now i s s' : conserved s → added s < two64 → shut s → wg (doer s) = 1%nat →
  (∃ w, workers s = [w] ∧ flushing s w) → worker_step tick now i s = Some s' →
  started (doer s') = started (doer s) ∧ controls s' = controls s ∧ shut s' ∧
  (quiet s' ∧ mark s' ≤ reported s' ∨ wg (doer s') = 1%nat ∧ ∃ w, workers s' = [w] ∧ flushing s' w).
Proof.
  intros Hcons Hlt Hsh Hg (w & Hw & Hf) Hs. pose proof (conserved_exact s Hcons Hlt) as Hsum.
  destruct Hcons as (Hm & _).
  unfold worker_step in Hs. destruct (workers s !! i) as [w'|] eqn:Hi; [|done].
  destruct (singleton_lookup _ _ _ _ Hw Hi) as [-> ->]. pose proof (shut_is_closed s Hsh) as Hcl.
  rewrite Hw in Hsum. simpl in Hsum. unfold reported in *. simpl in Hf.
  destruct w as [|ch|last|c last|].
  - simplify_eq/=. rewrite Hw. conjs; try done. right. split; [done|]. by eexists.
  - simpl in Hf. rewrite Hf, Hcl in Hs. destruct tick; simplify_eq/=; rewrite Hw; conjs; try done; right; (split; [done|]); by eexists.
  - destruct (Z.eqb_spec (count (doer s)) 0) as [E|E]; simplify_eq/=; rewrite Hw; conjs; try done; right;
      (split; [done|]); eexists; (split; [done|]); destruct last; simpl; unfold reported; simpl; lia.
  - simplify_eq/=. rewrite Hw. conjs; try done. right. split; [done|]. eexists. split; [done|].
    destruct last; simpl in Hf |- *; [|done]. unfold reported in *. simpl. lia.
  - simplify_eq/=. rewrite Hw. conjs; try done. left. unfold quiet. simpl. rewrite Hw, Hg. done.
Qed.

Lemma governed_step s s' : step s s' → conserved s → governed s → added s' < two64 → governed s'.
Proof.
  intros Hst Hc (c & Hcs & Hph) Hlt. destruct Hst as [n s Hn|tick now i s s' Hs|now i s s' Hs].
  - exists c. split; [done|]. destruct c as [| | | |]; simpl in *; try done.
  - assert (Hq : quiet s → False).
    { intros [Hw _]. unfold worker_step in Hs. by rewrite Hw, lookup_nil in Hs. }
    assert (Hadd : added s < two64).
    { revert Hlt. clear -Hs. unfold worker_step in Hs. repeat case_match; simplify_eq/=; done. }
    destruct c as [todo|n todo|todo|todo|]; simpl in Hph; try done.
    + destruct (started (doer s)) eqn:Hstarted; [|done].
      destruct (live_worker _ _ _ _ _ Hph Hs) as (Hl & Hs' & Hc'). exists (CIdle todo). rewrite Hc'. split; [done|].
      simpl. by rewrite Hs', Hstarted.
    + by destruct Hph as (_ & ? & _).
    + destruct Hph as [Hns Hl]. destruct (live_worker _ _ _ _ _ Hl Hs) as (Hl' & Hs' & Hc').
      exists (CClose todo). rewrite Hc'. split; [done|]. simpl. by rewrite Hs'.
    + destruct Hph as (Hns & Hsh & [[? _]|[Hg Hw]]); [done|].
      destruct (wait_worker _ _ _ _ _ Hc Hadd Hsh Hg Hw Hs) as (Hs' & Hc' & Hsh' & Hpost).
      exists (CWait todo). rewrite Hc'. split; [done|]. simpl. by rewrite Hs'.
  - unfold control_step in Hs. destruct (controls s !! i) as [c'|] eqn:Hi; [|done].
    destruct (singleton_lookup _ _ _ _ Hcs Hi) as [-> ->].
    destruct c as [[|[] todo]|[|[|n]] todo|todo|todo|]; simpl in Hph; try done.
    + destruct (started (doer s)) eqn:Hstarted; simplify_eq/=; eexists; simpl; rewrite Hcs; (split; [done|]);
        simpl; rewrite ?Hstarted; try done. conjs; try done; [apply Hph..|by left].
    + destruct (started (doer s)) eqn:Hstarted; simplify_eq/=; eexists; simpl; rewrite Hcs; (split; [done|]);
        simpl; rewrite ?Hstarted; done.
    + destruct Hph as (Hst & Hq & _). simplify_eq/=. eexists. simpl. rewrite Hcs. split; [done|]. simpl.
      conjs; try done; [apply Hq..|]. right. eexists. split; [done|]. simpl.
      rewrite lookup_app_r, Nat.sub_diag by lia. done.
    + destruct Hph as (Hst & Hq & [|Ho]); [done|]. simplify_eq/=. eexists. simpl. rewrite Hcs. split; [done|]. simpl.
      conjs; try done; [apply Hq..|]. by right.
    + destruct Hph as (Hst & [Hw Hg] & [|Ho]); [done|]. simplify_eq/=. eexists. simpl. rewrite Hcs. split; [done|]. simpl.
      rewrite Hst. unfold live. simpl. rewrite Hw, Hg. conjs; try done. by eexists.
    + destruct Hph as (Hns & (ch & Hd & Hch) & Hg & w & Hw & Ha). rewrite Hd, Hch in Hs. simplify_eq/=.
      eexists. simpl. rewrite Hcs. split; [done|]. simpl. conjs; try done.
      * exists ch. split; [done|]. simpl. apply list_lookup_insert_eq. by eapply lookup_lt_Some.
      * right. split; [done|]. exists w. split; [done|]. by destruct w as [|ch'|[]|c []|].
    + destruct Hph as (Hns & Hsh & Hpost). case_bool_decide as Hg; simplify_eq/=.
      eexists. simpl. rewrite Hcs. split; [done|]. simpl. rewrite Hns. destruct Hpost as [[Hq _]|[? _]]; [done|congruence].
Qed.

Lemma added_mono s s' : step s s' → added s ≤ added s'.
Proof.
  intros [n t Hn|tick now i t t' Ht|now i t t' Ht]; simpl; [lia|..].
  - unfold worker_step in Ht. repeat case_match; simplify_eq/=; done.
  - unfold control_step in Ht. repeat case_match; simplify_eq/=; done.
Qed.

Lemma governed_reachable p todo s : reachable p [todo] s → added s < two64 → governed s.
Proof.
  unfold reachable. intros Hs. pose proof (conserved_reachable p [todo]) as Hcons.
  unfold reachable in Hcons. revert s Hs. apply (rtc_ind_r (λ s, added s < two64 → governed s)).
  - intros _. exists (CIdle todo). split; [done|]. by split.
  - intros s1 s2 Hs1 H12 IH Hlt. pose proof (added_mono _ _ H12). eapply governed_step; [exact H12|by apply Hcons|apply IH; lia|done].
Qed.

(** ** Theorems *)

(** C32: Whatever goroutines add, start and stop, and however their steps
    interleave: what was reported, what a worker has taken and what is still
    counted add up to all that was added less a multiple of 2^64, which is zero as
    long as less than 2^64 was added in all; [doFn] is never called with zero. *)
Theorem events_conserved p todos s : reachable p todos s →
  let total := sumZ fst (reports s) + sumZ pending (workers s) + count (doer s) in
  (∃ wraps, 0 ≤ wraps ∧ total + wraps * two64 = added s) ∧ (added s < two64 → total = added s) ∧
  Forall (λ r, 0 < r.1) (reports s).
Proof.
  intros Hs total. pose proof (conserved_reachable _ _ _ Hs) as Hc. conjs.
  - by destruct Hc as (_ & _ & _ & _ & ?).
  - by apply conserved_exact.
  - by destruct Hc as (_ & _ & _ & ? & _).
Qed.


(** Steps the worker has left once the channel is closed. *)
Definition left_over (w : worker) : nat :=
  match w with
  | WLeave => 0 | WCall _ true => 1 | WDo true => 2 | WSelect _ => 3 | WLoop => 4 | WCall _ false => 5 | WDo false => 6
  end%nat.

Lemma worker_progress s w : shut s → workers s = [w] → flushing s w →
  ∃ s', worker_step false 0 0 s = Some s' ∧ added s' = added s ∧
    (workers s' = [] ∨ ∃ w', workers s' = [w'] ∧ (left_over w' < left_over w)%nat).
Proof.
  intros Hsh Hw Hf. unfold worker_step. rewrite Hw. simpl. pose proof (shut_is_closed s Hsh) as Hcl.
  destruct w as [|ch|last|c last|].
  - eexists. split; [done|]. split; [done|]. right. simpl. rewrite Hw. eexists. split; [done|]. simpl. lia.
  - simpl in Hf. rewrite Hf, Hcl. eexists. split; [done|]. split; [done|]. right. simpl. rewrite Hw. eexists. split; [done|]. simpl. lia.
  - destruct (count (doer s) =? 0); (eexists; split; [done|]; split; [done|]; right; simpl; rewrite Hw;
      eexists; split; [done|]; destruct last; simpl; lia).
  - eexists. split; [done|]. split; [done|]. right. simpl. rewrite Hw. eexists. split; [done|].
    destruct last; simpl; lia.
  - eexists. split; [done|]. split; [done|]. left. simpl. by rewrite Hw.
Qed.

Lemma wait_returns n : ∀ s todo, conserved s → added s < two64 → controls s = [CWait todo] → phase s (CWait todo) →
  (∀ w, workers s = [w] → (left_over w < n)%nat) →
  ∃ s', rtc step s s' ∧ controls s' = [CIdle todo] ∧ added s' = added s ∧ mark s' ≤ reported s' ∧ mark s' = mark s.
Proof.
  induction n as [|n IH]; intros s todo Hcons Hlt Hc Hph Hn.
  all: pose proof Hph as (Hns & Hsh & [[Hq Hm]|[Hg (w & Hw & Hf)]]).
  1,3: exists (set_control 0 (CIdle todo) s); conjs; try done; [|simpl; by rewrite Hc];
    apply rtc_once, (step_control 0 0); unfold control_step; rewrite Hc; simpl;
    by rewrite bool_decide_true by apply Hq.
  { specialize (Hn w Hw). lia. }
  destruct (worker_progress s w Hsh Hw Hf) as (s1 & E & Ha & Hnext).
  pose proof (step_worker false 0 0 s s1 E) as Hstep.
  destruct (wait_worker _ _ _ _ _ Hcons Hlt Hsh Hg (ex_intro _ w (conj Hw Hf)) E) as (Hs1 & Hc1 & Hsh1 & Hpost).
  destruct (IH s1 todo) as (s' & Hr & H1 & H2 & H3 & H4).
  - by eapply conserved_step.
  - lia.
  - congruence.
  - simpl. rewrite Hs1. done.
  - intros w1 Hw1. specialize (Hn w Hw). destruct Hnext as [Hnil|(w' & Hw' & Hl)]; [congruence|].
    rewrite Hw1 in Hw'. injection Hw' as ->. lia.
  - exists s'. conjs; [by eapply rtc_l|done|lia|done|].
    rewrite H4. clear -E. unfold worker_step in E. repeat case_match; simplify_eq/=; done.
Qed.

(** From every state in which the one controlling goroutine waits in [Stop],
    steps of the worker alone lead to the return of [Stop], with everything
    that was added before the channel was closed reported. *)
Theorem Stop_can_return p todo s todo' : reachable p [todo] s → added s < two64 →
  controls s = [CWait todo'] →
  ∃ s', rtc step s s' ∧ controls s' = [CIdle todo'] ∧ added s' = added s ∧
    mark s ≤ sumZ fst (reports s').
Proof.
  intros Hs Hlt Hc. destruct (governed_reachable _ _ _ Hs Hlt) as (c & Hc' & Hph).
  rewrite Hc in Hc'. injection Hc' as <-.
  destruct (wait_returns 7 s todo' (conserved_reachable _ _ _ Hs) Hlt Hc Hph) as (s' & H1 & H2 & H3 & H4 & H5).
  { intros w _. destruct w as [|ch|[]|c []|]; simpl; lia. }
  exists s'. conjs; try done. by rewrite <- H5.
Qed.

(** ** Runs *)
Lemma run_worker tick now i s s' t : worker_step tick now i s = Some s' → rtc step s' t → rtc step s t.
Proof. intros Hs. apply rtc_l. by apply (step_worker tick now i). Qed.
Lemma run_control now i s s' t : control_step now i s = Some s' → rtc step s' t → rtc step s t.
Proof. intros Hs. apply rtc_l. by apply (step_control now i). Qed.

(** Started, three events, stopping. *)
Definition stopping : sys :=
  mkSys (mkDoer 3 5 0 (Some 0%nat) false true 1) [true] [] [WLoop] [CWait []] 3 3.

Lemma stopping_reachable : reachable 5 [[Start; Stop]] stopping.
Proof.
  unfold reachable. do 4 (eapply (run_control 0 0); [reflexivity|]).
  eapply rtc_l; [apply (step_add 3); vm_compute; split; congruence|].
  do 2 (eapply (run_control 0 0); [reflexivity|]). reflexivity.
Qed.

Lemma events_conserved_witness :
  let total := sumZ fst (reports stopping) + sumZ pending (workers stopping) + count (doer stopping) in
  (∃ wraps, 0 ≤ wraps ∧ total + wraps * two64 = 3) ∧ (3 < two64 → total = 3) ∧
  Forall (λ r, 0 < r.1) (reports stopping).
Proof. apply (events_conserved 5 [[Start; Stop]] stopping). apply stopping_reachable. Defined.


Lemma Stop_can_return_witness : ∃ s', rtc step stopping s' ∧ controls s' = [CIdle []] ∧ added s' = 3 ∧
  3 ≤ sumZ fst (reports s').
Proof. apply (Stop_can_return 5 [Start; Stop] stopping []); [apply stopping_reachable|reflexivity|reflexivity]. Defined.

(** [Start] marks the doer as started before it makes the channel: a [Stop] of
    another goroutine in between closes a nil channel and panics. *)
Theorem Start_Stop_race : ∃ s, reachable 5 [[Start]; [Stop]] s ∧
  controls s !! 1%nat = Some (CPanic (PExplicit "close of nil channel")).
Proof.
  eexists. split.
  - unfold reachable. eapply (run_control 0 0); [reflexivity|].
    do 2 (eapply (run_control 0 1); [reflexivity|]). reflexivity.
  - reflexivity.
Qed.
