(* ===== verification/TlsNames.v ===== *)
(** * Package [tlscommon]: names of hosts in certificates

    validhostname.go and [verifyHostname] of tls_config.go.  [net.ParseIP] is a
    parameter (the bytes of the address); certificates carry the fields the
    code reads. *)
From S2P Require Import Prelude GoStrings GoUtf8.

Open Scope string_scope.
Open Scope Z_scope.

(** [strings.TrimSuffix] *)
Definition TrimSuffix (s suffix : string) : string :=
  if HasSuffix s suffix then stake (String.length s - String.length suffix) s else s.

Definition is_upper (c : Z) : bool := (65 <=? c) && (c <=? 90).

(** [out[i] += 'a' - 'A'] on every upper-case byte *)
Fixpoint lower_bytes (s : string) : string :=
  match s with
  | "" => ""
  | String a r => String (if is_upper (byte a) then chr (byte a + 32) else a) (lower_bytes r)
  end.

Definition toLowerCaseASCII (s : string) : string :=
  let isAlreadyLowerCase :=
    forallb (λ '(_, c), negb (c =? RuneError) && negb (is_upper c)) (range_string s) in
  if isAlreadyLowerCase then s else lower_bytes s.

(** The loop over the parts; [first] is [i == 0]. *)
Fixpoint match_parts (first : bool) (patternParts hostParts : list string) : bool :=
  match patternParts, hostParts with
  | p :: ps, h :: hs =>
      if first && String.eqb p "*" then match_parts false ps hs
      else if negb (String.eqb p h) then false else match_parts false ps hs
  | _, _ => true
  end.

Definition matchHostnames (pattern host : string) : bool :=
  let pattern := toLowerCaseASCII pattern in
  let host := toLowerCaseASCII (TrimSuffix host ".") in
  if String.eqb pattern "" || String.eqb host "" then false
  else
    let patternParts := Split pattern "." in
    let hostParts := Split host "." in
    if negb (bool_decide (length patternParts = length hostParts)) then false
    else match_parts true patternParts hostParts.

(** The characters of a label; [j] is the byte offset. *)
Definition label_char (j : nat) (c : Z) : bool :=
  ((97 <=? c) && (c <=? 122)) || ((48 <=? c) && (c <=? 57)) || is_upper c ||
  ((c =? 45) && negb (bool_decide (j = 0%nat))) || (c =? 95).

Fixpoint valid_parts (isPattern first : bool) (parts : list string) : bool :=
  match parts with
  | [] => true
  | part :: parts' =>
      if String.eqb part "" then false
      else if isPattern && first && String.eqb part "*" then valid_parts isPattern false parts'
      else if forallb (λ '(j, c), label_char j c) (range_string part)
      then valid_parts isPattern false parts' else false
  end.

Definition validHostname (host : string) (isPattern : bool) : bool :=
  let host := if negb isPattern then TrimSuffix host "." else host in
  if String.eqb host "" then false else valid_parts isPattern true (Split host ".").

(** ** tls_config.go: [verifyHostname] *)
Record Certificate := mkCertificate {
  Raw : string;
  RawSubjectPublicKeyInfo : string;
  IsCA : bool;
  CommonName : string;
  DNSNames : list string;
  IPAddresses : list string     (** 4 or 16 bytes *)
}.

(** [net.IP.Equal]: an IPv4 address equals its IPv6 form. *)
Definition v4InV6Prefix : string :=
  String "000" (String "000" (String "000" (String "000" (String "000" (String "000" (String "000"
    (String "000" (String "000" (String "000" (String "255" (String "255" ""))))))))))).

Definition to16 (ip : string) : string :=
  if bool_decide (String.length ip = 4%nat) then v4InV6Prefix +:+ ip else ip.

Definition ip_Equal (a b : string) : bool := String.eqb (to16 a) (to16 b).

Inductive host_error := HostnameError | InvalidNameInCert.

Section verify.
Context (ParseIP : string → option string).

(** The brackets of an IPv6 address. *)
Definition unbracket (ip : string) : string :=
  match ip with
  | String "[" r =>
      if bool_decide (3 ≤ String.length ip)%nat && HasSuffix r "]"
      then stake (String.length r - 1) r else ip
  | _ => ip
  end.

Fixpoint match_names (names : list string) (hostname : string) : res host_error unit :=
  match names with
  | [] => Err HostnameError
  | name :: names' =>
      if matchHostnames name hostname then
        if negb (validHostname name true) then Err InvalidNameInCert else Ok tt
      else match_names names' hostname
  end.

(** The names to match: the common name stands in for missing DNS names. *)
Definition cert_names (cert : Certificate) : list string :=
  match DNSNames cert with
  | [] | [""] => if negb (String.eqb (CommonName cert) "") then [CommonName cert] else DNSNames cert
  | l => l
  end.

Definition verifyHostname (cert : Certificate) (hostname : string) : res host_error unit :=
  if String.eqb hostname "" then Ok tt
  else
    match ParseIP (unbracket hostname) with
    | Some parsedIP =>
        if existsb (ip_Equal parsedIP) (IPAddresses cert) then Ok tt
        else
          match ParseIP (CommonName cert) with
          | Some parsedCNIP => if ip_Equal parsedIP parsedCNIP then Ok tt else Err HostnameError
          | None => Err HostnameError
          end
    | None => match_names (cert_names cert) hostname
    end.
End verify.

(** ** Lower case *)
(** A byte below 128 of a text is one of its runes, or the text is not valid. *)
Lemma DecodeRune_ascii a s r rest : DecodeRune a s = (r, rest) → r ≠ RuneError →
  (byte a < 128 ∧ r = byte a ∧ rest = s) ∨
  (128 ≤ byte a ∧ ∃ t, s = t +:+ rest ∧ lower_bytes t = t).
Proof.
  unfold DecodeRune. destruct (Z.ltb_spec (byte a) 128) as [Hlt|Hge].
  { intros [= <- <-] _. by left. }
  intros Hd Hr. right. split; [done|].
  destruct (first_info (byte a)) as [[[n lo] hi]|] eqn:Hf; [|injection Hd as <- _; done].
  assert (Hlo : 128 ≤ lo ∧ hi ≤ 191).
  { unfold first_info in Hf. repeat case_match; simplify_eq/=; lia. }
  assert (Hkeep : ∀ x, (128 ≤ byte x) → (if is_upper (byte x) then chr (byte x + 32) else x) = x).
  { intros x Hx. unfold is_upper. rewrite (proj2 (Z.leb_gt _ 90)) by lia. by rewrite andb_false_r. }
  destruct s as [|a1 s1]; [injection Hd as <- _; done|].
  destruct ((lo <=? byte a1) && (byte a1 <=? hi)) eqn:H1; cbn [negb] in Hd; [|injection Hd as <- _; done].
  apply andb_true_iff in H1 as [H1 _]. apply Z.leb_le in H1.
  case_bool_decide.
  { injection Hd as _ <-. exists (String a1 ""). split; [done|]. simpl. rewrite Hkeep by lia. done. }
  destruct s1 as [|a2 s2]; [injection Hd as <- _; done|].
  unfold is_cont in Hd. destruct ((128 <=? byte a2) && (byte a2 <=? 191)) eqn:H2; cbn [negb] in Hd;
    [|injection Hd as <- _; done].
  apply andb_true_iff in H2 as [H2 _]. apply Z.leb_le in H2. case_bool_decide.
  { injection Hd as _ <-. exists (String a1 (String a2 "")). split; [done|]. simpl. rewrite !Hkeep by lia. done. }
  destruct s2 as [|a3 s3]; [injection Hd as <- _; done|].
  destruct ((128 <=? byte a3) && (byte a3 <=? 191)) eqn:H3; cbn [negb] in Hd; [|injection Hd as <- _; done].
  apply andb_true_iff in H3 as [H3 _]. apply Z.leb_le in H3.
  injection Hd as _ <-. exists (String a1 (String a2 (String a3 ""))). split; [done|]. simpl.
  rewrite !Hkeep by lia. done.
Qed.

Lemma lower_bytes_app a b : lower_bytes (a +:+ b) = lower_bytes a +:+ lower_bytes b.
Proof. induction a as [|x a IH]; simpl; [done|]. by rewrite IH. Qed.

Lemma lower_fast fuel i s : (String.length s ≤ fuel)%nat →
  forallb (λ '(_, c), negb (c =? RuneError) && negb (is_upper c)) (range_loop fuel i s) = true →
  lower_bytes s = s.
Proof.
  revert i s. induction fuel as [|fuel IH]; intros i [|a s] Hl; simpl in Hl; [done|lia|done|].
  cbn [range_loop]. destruct (DecodeRune a s) as [r rest] eqn:Hd. cbn [forallb].
  rewrite !andb_true_iff, !negb_true_iff, Z.eqb_neq. intros [[Hr Hu] Hrest].
  destruct (DecodeRune_ascii a s r rest Hd Hr) as [(Hlt & -> & ->)|(Hge & t & -> & Ht)].
  - simpl. rewrite Hu. f_equal. refine (IH _ _ _ Hrest). lia.
  - simpl. rewrite lower_bytes_app, Ht. rewrite length_sapp in Hl.
    assert (Hrr : lower_bytes rest = rest) by (eapply IH; [|exact Hrest]; lia). rewrite Hrr. f_equal.
    unfold is_upper. rewrite (proj2 (Z.leb_gt _ 90)) by lia. by rewrite andb_false_r.
Qed.

(** The fast path is the identity on texts without upper-case letters, so the
    function lowers the ASCII letters and keeps every other byte. *)
Lemma toLowerCaseASCII_bytes s : toLowerCaseASCII s = lower_bytes s.
Proof.
  unfold toLowerCaseASCII. destruct (forallb _ _) eqn:Hf; [|done]. symmetry.
  by apply (lower_fast (String.length s) 0).
Qed.

(** ** Meaning *)
Definition capital_letters : string := "ABCDEFGHIJKLMNOPQRSTUVWXYZ".
Definition small_letters : string := "abcdefghijklmnopqrstuvwxyz".

(** The letter at the same place of the other alphabet. *)
Fixpoint small_in (uppers lowers : string) (c : ascii) : ascii :=
  match uppers, lowers with
  | String u us, String l ls => if Ascii.eqb c u then l else small_in us ls c
  | _, _ => c
  end.

Fixpoint small (s : string) : string :=
  match s with "" => "" | String c r => String (small_in capital_letters small_letters c) (small r) end.

(** [h] is [host] without the dot it may end with. *)
Definition undotted (host h : string) : Prop :=
  host = h +:+ "." ∨ (host = h ∧ ¬ ∃ x, host = x +:+ ".").

(** [a] is [host] without the brackets around it, where there are any. *)
Definition unbracketed (host a : string) : Prop :=
  (a ≠ "" ∧ host = "[" +:+ a +:+ "]") ∨
  (host = a ∧ ¬ ∃ x, x ≠ "" ∧ host = "[" +:+ x +:+ "]").

(** A pattern covers a host when, without the trailing dot of the host and up
    to ASCII case, they have the same labels, except that a first label ["*"]
    covers any one label. *)
Definition covers (pattern host : string) : Prop :=
  ∃ h p0 h0 rest, undotted host h ∧ Split (small pattern) "." = p0 :: rest ∧
    Split (small h) "." = h0 :: rest ∧ (p0 = "*" ∨ p0 = h0) ∧ pattern ≠ "" ∧ h ≠ "".

(** A label of a name: letters, digits, underscores and, not in front, hyphens. *)
Definition label_chars : string := capital_letters +:+ small_letters +:+ "0123456789_".

Definition is_label (l : string) : Prop :=
  ∃ c r, l = String c r ∧ c ∈ String.list_ascii_of_string label_chars ∧
    ∀ x, x ∈ String.list_ascii_of_string r → x ∈ String.list_ascii_of_string ("-" +:+ label_chars).

(** A name a certificate may have: labels between dots, the first of which may
    be ["*"]. *)
Definition is_name (n : string) : Prop :=
  ∃ l0 rest, Split n "." = l0 :: rest ∧ (l0 = "*" ∨ is_label l0) ∧ Forall is_label rest.

(** The names a certificate is for: its DNS names; without any (none, or a
    single empty one), its common name. *)
Definition presents (cert : Certificate) (names : list string) : Prop :=
  (DNSNames cert = [] ∨ DNSNames cert = [""]) ∧ names = [CommonName cert] ∨
  DNSNames cert ≠ [] ∧ DNSNames cert ≠ [""] ∧ names = DNSNames cert.

Lemma small_lower_bytes s : lower_bytes s = small s.
Proof.
  induction s as [|a s IH]; [done|]. cbn [lower_bytes small]. rewrite IH. f_equal.
  by destruct a as [[] [] [] [] [] [] [] []].
Qed.

Lemma HasSuffix_spec s t : HasSuffix s t = true ↔ ∃ r, s = r +:+ t.
Proof.
  unfold HasSuffix. rewrite andb_true_iff, bool_decide_eq_true, String.eqb_eq. split.
  - intros [_ <-]. exists (stake (String.length s - String.length t) s). by rewrite stake_sdrop.
  - intros [r ->]. rewrite length_sapp. split; [lia|].
    replace (String.length r + String.length t - String.length t)%nat with (String.length r) by lia.
    apply sdrop_length_app.
Qed.

Lemma stake_app_suffix r t : stake (String.length (r +:+ t) - String.length t) (r +:+ t) = r.
Proof.
  rewrite length_sapp. replace (_ - _)%nat with (String.length r) by lia. apply stake_length_app.
Qed.

Lemma sapp_inj_l a b c : a +:+ c = b +:+ c → a = b.
Proof. intros H. rewrite <- (stake_app_suffix a c), H. apply stake_app_suffix. Qed.

Lemma undotted_spec host h : undotted host h ↔ h = TrimSuffix host ".".
Proof.
  unfold undotted, TrimSuffix. destruct (HasSuffix host ".") eqn:Hs.
  - apply HasSuffix_spec in Hs as [r ->]. rewrite stake_app_suffix. split.
    + intros [H|[_ []]]; [by apply sapp_inj_l in H|eauto].
    + intros ->. by left.
  - assert (Hn : ¬ ∃ x, host = x +:+ ".") by (intros Hx; apply HasSuffix_spec in Hx; congruence).
    split; [intros [?|[-> _]]; [destruct Hn; eauto|done]|intros ->; by right].
Qed.

Lemma unbracket_brackets x : x ≠ "" → unbracket ("[" +:+ x +:+ "]") = x.
Proof.
  intros Hx. cbn. rewrite (proj2 (HasSuffix_spec _ "]")) by eauto.
  rewrite bool_decide_eq_true_2 by (rewrite length_sapp; destruct x; simpl; [done|lia]).
  cbn. exact (stake_app_suffix x "]").
Qed.

Lemma unbracket_plain host : (¬ ∃ x, x ≠ "" ∧ host = "[" +:+ x +:+ "]") → unbracket host = host.
Proof.
  intros Hn. destruct host as [|c r]; [done|].
  destruct (decide (c = "["%char)) as [->|Hc]; [|by destruct c as [[] [] [] [] [] [] [] []]].
  unfold unbracket. destruct (_ && _) eqn:H; [|done].
  apply andb_true_iff in H as [Hl Hs]. apply bool_decide_eq_true in Hl.
  apply HasSuffix_spec in Hs as [x ->]. destruct Hn. exists x. split; [|done].
  intros ->. simpl in Hl. lia.
Qed.

Lemma unbracketed_spec host a : unbracketed host a ↔ unbracket host = a.
Proof.
  split; [intros [[? ->]|[<- ?]]; [by apply unbracket_brackets|by apply unbracket_plain]|].
  intros <-. destruct (decide (unbracket host ≠ "" ∧ host = "[" +:+ unbracket host +:+ "]")) as [H|H]; [by left|].
  assert (Hn : ¬ ∃ x, x ≠ "" ∧ host = "[" +:+ x +:+ "]").
  { intros (x & Hx & ->). apply H. by rewrite unbracket_brackets. }
  right. by rewrite unbracket_plain.
Qed.

Lemma match_parts_rest ps hs : length ps = length hs → match_parts false ps hs = true ↔ ps = hs.
Proof.
  revert hs. induction ps as [|p ps IH]; intros [|h hs] Hl; try done. simpl in Hl. cbn [match_parts andb].
  destruct (String.eqb_spec p h) as [->|Hne]; cbn [negb].
  - rewrite IH by lia. split; [by intros ->|by intros [= ->]].
  - split; [done|]. by intros [= ->].
Qed.

Lemma lower_bytes_nil s : lower_bytes s = "" ↔ s = "".
Proof. by destruct s. Qed.

Lemma matchHostnames_spec pattern host : matchHostnames pattern host = true ↔ covers pattern host.
Proof.
  assert (Hc : covers pattern host ↔ ∃ p0 h0 rest, Split (small pattern) "." = p0 :: rest ∧
    Split (small (TrimSuffix host ".")) "." = h0 :: rest ∧ (p0 = "*" ∨ p0 = h0) ∧ pattern ≠ "" ∧
    TrimSuffix host "." ≠ "").
  { unfold covers. setoid_rewrite undotted_spec. naive_solver. }
  rewrite Hc. clear Hc. unfold matchHostnames. rewrite !toLowerCaseASCII_bytes, !small_lower_bytes.
  set (p := small pattern). set (h := small (TrimSuffix host ".")).
  destruct (String.eqb_spec p "") as [Hp|Hp]; cbn [orb].
  { split; [done|]. intros (?&?&?&_&_&_&Hne&_). by destruct pattern. }
  destruct (String.eqb_spec h "") as [Hh|Hh].
  { split; [done|]. intros (?&?&?&_&_&_&_&Hne). unfold h in Hh. by destruct (TrimSuffix host "."). }
  assert (Hp' : pattern ≠ "") by (intros E; apply Hp; unfold p; by rewrite E).
  assert (Hh' : TrimSuffix host "." ≠ "") by (intros E; apply Hh; unfold h; by rewrite E).
  destruct (Split p ".") as [|p0 ps] eqn:Ep; [by apply Split_nonempty in Ep|].
  destruct (Split h ".") as [|h0 hs] eqn:Eh; [by apply Split_nonempty in Eh|].
  case_bool_decide as Hl; cbn [negb].
  2: { split; [done|]. intros (?&?&?&[= <- <-]&[= <- <-]&_). by destruct Hl. }
  simpl in Hl. cbn [match_parts andb].
  destruct (String.eqb_spec p0 "*") as [->|Hs].
  - rewrite match_parts_rest by lia. split; [intros ->; by exists "*", h0, hs; auto|].
    by intros (?&?&?&[= <- <-]&[= <- <-]&_).
  - destruct (String.eqb_spec p0 h0) as [->|Hne]; cbn [negb].
    + rewrite match_parts_rest by lia. split; [intros ->; by exists h0, h0, hs; auto|].
      by intros (?&?&?&[= <- <-]&[= <- <-]&_).
    + split; [done|]. by intros (?&?&?&[= <- <-]&[= <- <-]&[?|?]&_).
Qed.

(** ** Valid names *)
(** The runes a label may have, by their byte. *)
Lemma label_char_ascii j c : byte c < 128 → label_char j (byte c) = true ↔
  c ∈ String.list_ascii_of_string label_chars ∨ (c = "-"%char ∧ j ≠ 0%nat).
Proof.
  intros _. assert (Heq : label_char j (byte c) =
    bool_decide (c ∈ String.list_ascii_of_string label_chars) ||
    (Ascii.eqb c "-" && negb (bool_decide (j = 0%nat)))).
  { unfold label_char. destruct (bool_decide (j = 0%nat));
      by destruct c as [[] [] [] [] [] [] [] []]; vm_compute. }
  rewrite Heq, orb_true_iff, andb_true_iff, negb_true_iff, bool_decide_eq_true, bool_decide_eq_false.
  by rewrite Ascii.eqb_eq.
Qed.

Lemma label_chars_ascii c : c ∈ String.list_ascii_of_string label_chars → byte c < 128.
Proof.
  intros H. apply (bool_decide_eq_true_2 (c ∈ String.list_ascii_of_string label_chars)) in H. destruct c as [[] [] [] [] [] [] [] []]; vm_compute in H |- *; congruence.
Qed.

Lemma hyphen_or x : x ∈ String.list_ascii_of_string ("-" +:+ label_chars) ↔
  x = "-"%char ∨ x ∈ String.list_ascii_of_string label_chars.
Proof. apply elem_of_cons. Qed.

Lemma label_char_high j r : 128 ≤ r → label_char j r = false.
Proof. intros. unfold label_char, is_upper. lia. Qed.

Lemma label_loop fuel i s : (String.length s ≤ fuel)%nat →
  forallb (λ '(j, c), label_char j c) (range_loop fuel i s) = true ↔
  match s with
  | "" => True
  | String c r =>
      (c ∈ String.list_ascii_of_string label_chars ∨ (c = "-"%char ∧ i ≠ 0%nat)) ∧
      ∀ x, x ∈ String.list_ascii_of_string r → x ∈ String.list_ascii_of_string ("-" +:+ label_chars)
  end.
Proof.
  revert i s. induction fuel as [|fuel IH]; intros i [|a s] Hl; simpl in Hl; [done|lia|done|].
  cbn [range_loop]. destruct (DecodeRune a s) as [r rest] eqn:Hd. cbn [forallb].
  destruct (DecodeRune_reads _ _ _ _ Hd) as (e & -> & _ & Hlow & Hhigh & _). rewrite andb_true_iff.
  destruct (decide (byte a < 128)) as [Ha|Ha].
  - destruct (Hlow Ha) as [-> ->]. rewrite (label_char_ascii _ _ Ha). apply and_iff_compat_l.
    cbn [String.length] in Hl. rewrite IH by (simpl in Hl; lia).
    destruct rest as [|b rest]; [by split; [intros _ x Hx%elem_of_nil|]|].
    change (String.list_ascii_of_string ("" +:+ String b rest)) with (b :: String.list_ascii_of_string rest).
    split.
    + intros [Hb Hr] x [->|Hx]%elem_of_cons; [apply hyphen_or; tauto|by apply Hr].
    + intros Hall. split; [|intros x Hx; apply Hall, elem_of_cons; by right].
      destruct (proj1 (hyphen_or b) (Hall b (list_elem_of_here _ _))) as [->|?];
        [right; split; [done|simpl; lia]|by left].
  - rewrite label_char_high by (apply Hhigh; lia). split; [by intros []|].
    intros [[Hc|[-> _]] _]; [by apply label_chars_ascii in Hc|by destruct Ha].
Qed.

Lemma label_spec l : l ≠ "" →
  forallb (λ '(j, c), label_char j c) (range_string l) = true ↔ is_label l.
Proof.
  intros Hne. unfold range_string. rewrite label_loop by done. destruct l as [|c r]; [done|].
  unfold is_label. split.
  - intros [[Hc|[_ []]] Hr]; [|done]. by exists c, r.
  - intros (c' & r' & [= <- <-] & Hc & Hr). auto.
Qed.

Lemma is_label_nonempty l : is_label l → l ≠ "".
Proof. by intros (c & r & -> & _). Qed.

Lemma valid_parts_rest ps : valid_parts true false ps = true ↔ Forall is_label ps.
Proof.
  induction ps as [|p ps IH]; cbn [valid_parts]; [by split; [constructor|]|]. rewrite Forall_cons.
  destruct (String.eqb_spec p "") as [->|Hp]; [by split; [|intros [?%is_label_nonempty _]]|].
  cbn [andb]. rewrite <- (label_spec p Hp), <- IH. destruct (forallb _ _); naive_solver.
Qed.

Lemma validHostname_spec n : validHostname n true = true ↔ is_name n.
Proof.
  unfold validHostname, is_name. cbn [negb]. destruct (String.eqb_spec n "") as [->|Hn].
  { split; [done|]. intros (l0 & rest & [= <- <-] & [?|?%is_label_nonempty] & _); done. }
  destruct (Split n ".") as [|p ps] eqn:Es; [by apply Split_nonempty in Es|]. cbn [valid_parts].
  assert (Hex : (∃ l0 rest, p :: ps = l0 :: rest ∧ (l0 = "*" ∨ is_label l0) ∧ Forall is_label rest) ↔
                (p = "*" ∨ is_label p) ∧ Forall is_label ps) by naive_solver.
  rewrite Hex. clear Hex. destruct (String.eqb_spec p "") as [->|Hp].
  { split; [done|]. by intros [[?|?%is_label_nonempty] _]. }
  cbn [andb]. rewrite <- valid_parts_rest. destruct (String.eqb_spec p "*") as [->|Hs]; [naive_solver|].
  rewrite <- (label_spec p Hp). destruct (forallb _ _); naive_solver.
Qed.

(** The first of the names that covers the host decides. *)
Definition first_covers (names : list string) (host : string) : Prop :=
  ∃ pre name post, names = (pre ++ name :: post)%list ∧ Forall (λ n, ¬ covers n host) pre ∧
    covers name host ∧ is_name name.

Lemma match_names_spec names hostname : match_names names hostname = Ok tt ↔ first_covers names hostname.
Proof.
  unfold first_covers. setoid_rewrite <- validHostname_spec. induction names as [|n names IH]; cbn [match_names].
  { split; [done|]. by intros ([|? ?] & ? & ? & ? & _). }
  destruct (matchHostnames n hostname) eqn:Hm.
  - pose proof Hm as Hc. apply matchHostnames_spec in Hc. destruct (validHostname n true) eqn:Hv; cbn [negb].
    + split; [|done]. intros _. exists [], n, names. done.
    + split; [done|]. intros ([|x pre] & name & post & Heq & Hpre & Hcov & Hval); simplify_eq/=; [congruence|].
      by apply Forall_cons in Hpre as [? _].
  - assert (Hc : ¬ covers n hostname) by (intros Hc; apply matchHostnames_spec in Hc; congruence).
    rewrite IH. split.
    + intros (pre & name & post & -> & Hpre & H1 & H2). exists (n :: pre), name, post. conjs; try done. by constructor.
    + intros ([|x pre] & name & post & Heq & Hpre & Hcov & Hval); simplify_eq/=; [done|].
      exists pre, name, post. apply Forall_cons in Hpre as [_ ?]. done.
Qed.

Lemma no_first_covers_empty host : ¬ first_covers [""] host.
Proof.
  intros ([|x [|y pre]] & name & post & Heq & _ & (h & p0 & h0 & rest & _ & _ & _ & _ & Hne & _) & _);
    simplify_eq/=.
Qed.

(** The common name stands in for the DNS names exactly when there are none. *)
Lemma cert_names_spec cert host :
  first_covers (cert_names cert) host ↔ ∃ names, presents cert names ∧ first_covers names host.
Proof.
  assert (Hnil : ¬ first_covers [] host) by by intros ([|? ?] & ? & ? & ? & _).
  pose proof (no_first_covers_empty host) as Hemp. unfold presents.
  assert (Hcase : (DNSNames cert = [] ∨ DNSNames cert = [""]) ∧
      cert_names cert = (if negb (String.eqb (CommonName cert) "") then [CommonName cert] else DNSNames cert) ∨
    DNSNames cert ≠ [] ∧ DNSNames cert ≠ [""] ∧ cert_names cert = DNSNames cert).
  { unfold cert_names. destruct (DNSNames cert) as [|[|c d] [|d' ds]]; auto. }
  destruct Hcase as [[Hd ->]|(Hd1 & Hd2 & ->)].
  - assert (Hn : ¬ first_covers (DNSNames cert) host) by (by destruct Hd as [-> | ->]).
    destruct (String.eqb_spec (CommonName cert) "") as [Hc|Hc]; cbn [negb].
    + split; [done|]. intros (names & [[_ ->]|(_ & _ & ->)] & Hf); [|done]. by rewrite Hc in Hf.
    + split; [eauto|]. intros (names & [[_ ->]|(_ & _ & ->)] & Hf); done.
  - split; [eauto 8|]. intros (names & [[[?|?] _]|(_ & _ & ->)] & Hf); done.
Qed.

Lemma ip_Equal_exists ip ips :
  existsb (ip_Equal ip) ips = true ↔ ∃ c, c ∈ ips ∧ to16 ip = to16 c.
Proof.
  rewrite existsb_exists. unfold ip_Equal. split.
  - intros (c & Hc & Heq%String.eqb_eq). exists c. split; [by apply list_elem_of_In|done].
  - intros (c & Hc & ->). exists c. split; [by apply list_elem_of_In|apply String.eqb_refl].
Qed.

(** C24: [verifyHostname] accepts the empty host name.  Any other host, read
    without the brackets around it, it accepts exactly when
    - it parses as an address, and the certificate has an address equal to it,
      or a common name that parses as one (whatever DNS names it has);
    - it does not parse as an address, and the first of the certificate's names
      that covers it is well formed.  The names are the DNS names; only where
      there is none (or a single empty one) the common name stands in.  A name
      covers a host with the same labels up to ASCII case and a final dot of
      the host, its first label ["*"] covering any one label; it is well formed
      when its labels are not empty and of letters, digits, underscores and,
      not in front, hyphens, the first one ["*"] at most. *)
Theorem verifyHostname_spec ParseIP cert hostname addr : unbracketed hostname addr →
  verifyHostname ParseIP cert hostname = Ok tt ↔
  hostname = "" ∨
  match ParseIP addr with
  | Some ip =>
      (∃ c, c ∈ IPAddresses cert ∧ to16 ip = to16 c) ∨
      (∃ c, ParseIP (CommonName cert) = Some c ∧ to16 ip = to16 c)
  | None =>
      ∃ names pre name post, presents cert names ∧ names = (pre ++ name :: post)%list ∧
        Forall (λ n, ¬ covers n hostname) pre ∧ covers name hostname ∧ is_name name
  end.
Proof.
  intros <-%unbracketed_spec. unfold verifyHostname.
  destruct (String.eqb_spec hostname "") as [->|Hne]; [naive_solver|].
  destruct (ParseIP (unbracket hostname)) as [ip|].
  - pose proof (ip_Equal_exists ip (IPAddresses cert)) as Hex.
    destruct (existsb _ _); [naive_solver|].
    destruct (ParseIP (CommonName cert)) as [c|]; [|naive_solver].
    unfold ip_Equal. destruct (String.eqb_spec (to16 ip) (to16 c)); naive_solver.
  - rewrite match_names_spec, cert_names_spec. unfold first_covers. naive_solver.
Qed.

Lemma verifyHostname_spec_witness :
  let cert := mkCertificate "" "" false "" ["*.example.com"; "other.org"] [] in
  verifyHostname (λ _, None) cert "WWW.Example.com." = Ok tt ↔
  "WWW.Example.com." = "" ∨
  ∃ names pre name post, presents cert names ∧ names = (pre ++ name :: post)%list ∧
    Forall (λ n, ¬ covers n "WWW.Example.com.") pre ∧ covers name "WWW.Example.com." ∧ is_name name.
Proof.
  apply (verifyHostname_spec (λ _, None) _ _ "WWW.Example.com."). right. split; [done|]. intros (x & _ & H). discriminate H.
Defined.

Example verify_wildcard_one_label :
  let cert := mkCertificate "" "" false "" ["*.example.com"] [] in
  verifyHostname (λ _, None) cert "WWW.Example.com." = Ok tt ∧
  verifyHostname (λ _, None) cert "a.b.example.com" = Err HostnameError ∧
  verifyHostname (λ _, None) cert "example.com" = Err HostnameError.
Proof. vm_compute. done. Qed.
