(* ===== verification/TlsTypes.v ===== *)
(** * Package [tlscommon]: configuration types

    types.go, types_nofips.go, versions.go, versions_default.go,
    versions_nofips.go, and the checks of config.go, server_config.go and
    tls.go.  The lookup tables are association lists; the values of
    [crypto/tls] constants are that package's. *)
From S2P Require Import Prelude GoStrings GoUtf8.

Open Scope string_scope.
Open Scope Z_scope.

(** A value to unpack. *)
Inductive input := INil | IString (s : string) | IInt64 (z : Z) | IUint64 (z : Z) | IOther (tag : Z).

Inductive tls_error :=
| EinvalidVersion (s : string) | EunknownType | EunsupportedVersion (v : Z)
| EunknownMode (s : string) | EunsupportedMode (m : Z) | Emarshal (v : Z)
| EunknownAuth (s : string)
| EinvalidCipher (s : string) | EunsupportedCipher (v : Z)
| EinvalidCurve (s : string) | EunsupportedCurve (v : Z)
| EinvalidRenegotiation (s : string)
| ErrKeyUnspecified | ErrCertificateUnspecified.

Definition lookup_name (t : list (string * Z)) (s : string) : option Z :=
  snd <$> find (λ e, String.eqb (fst e) s) t.
Definition lookup_value (t : list (string * Z)) (v : Z) : option string :=
  fst <$> find (λ e, snd e =? v) t.

Definition uint16 (z : Z) : Z := z mod 65536.
Definition uint8 (z : Z) : Z := z mod 256.

(** ** Versions *)
Definition TLSVersion10 : Z := 769.
Definition TLSVersion11 : Z := 770.
Definition TLSVersion12 : Z := 771.
Definition TLSVersion13 : Z := 772.
Definition TLSVersionMax : Z := TLSVersion13.

(** The package variables [SetInsecureDefaults] changes. *)
Record tls_defaults := mkDefaults {
  TLSVersionMin : Z;
  TLSVersionDefaultMin : Z;
  TLSDefaultVersions : list Z
}.

Definition defaults : tls_defaults := mkDefaults TLSVersion11 TLSVersion12 [TLSVersion12; TLSVersion13].
Definition SetInsecureDefaults (d : tls_defaults) : tls_defaults :=
  mkDefaults TLSVersion10 TLSVersion11 [TLSVersion11; TLSVersion12; TLSVersion13].

Definition tlsProtocolVersions : list (string * Z) :=
  [("TLSv1", TLSVersion10); ("TLSv1.0", TLSVersion10); ("TLSv1.1", TLSVersion11);
   ("TLSv1.2", TLSVersion12); ("TLSv1.3", TLSVersion13)].

Record TLSVersionDetails := mkDetails { Version : string; Protocol : string; Combined : string }.

Definition tlsInverseLookup : list (Z * TLSVersionDetails) :=
  [(TLSVersion10, mkDetails "1.0" "tls" "TLSv1.0"); (TLSVersion11, mkDetails "1.1" "tls" "TLSv1.1");
   (TLSVersion12, mkDetails "1.2" "tls" "TLSv1.2"); (TLSVersion13, mkDetails "1.3" "tls" "TLSv1.3")].

Definition Details (v : Z) : option TLSVersionDetails :=
  snd <$> find (λ e, fst e =? v) tlsInverseLookup.

Definition TLSVersion_String (v : Z) : string :=
  match Details v with Some d => Combined d | None => "unknown" end.

Definition TLSVersion_Unpack (i : input) : res tls_error Z :=
  match i with
  | IString o =>
      match lookup_name tlsProtocolVersions o with Some v => Ok v | None => Err (EinvalidVersion o) end
  | IInt64 o | IUint64 o => Ok (uint16 o)
  | _ => Err EunknownType
  end.

Definition TLSVersion_Validate (d : tls_defaults) (v : Z) : res tls_error unit :=
  if (v <? TLSVersionMin d) || (v >? TLSVersionMax) then Err (EunsupportedVersion v) else Ok tt.

(** The loop of [extractMinMaxVersion]. *)
Fixpoint min_max (l : list Z) (minVersion maxVersion : Z) : Z * Z :=
  match l with
  | [] => (minVersion, maxVersion)
  | v :: l' =>
      min_max l' (if v <? minVersion then v else minVersion) (if v >? maxVersion then v else maxVersion)
  end.

Definition extractMinMaxVersion (d : tls_defaults) (versions : list Z) : Z * Z :=
  min_max (match versions with [] => TLSDefaultVersions d | _ => versions end) 65535 0.

Definition ResolveTLSVersion (v : Z) : string := TLSVersion_String v.

(** ** Cipher suites *)
Definition tlsCipherSuites : list (string * Z) :=
  [("ECDHE-ECDSA-AES-128-CBC-SHA", 49161);
   ("ECDHE-ECDSA-AES-128-CBC-SHA256", 49187);
   ("ECDHE-ECDSA-AES-128-GCM-SHA256", 49195);
   ("ECDHE-ECDSA-AES-256-CBC-SHA", 49162);
   ("ECDHE-ECDSA-AES-256-GCM-SHA384", 49196);
   ("ECDHE-ECDSA-CHACHA20-POLY1305", 52393);
   ("ECDHE-ECDSA-RC4-128-SHA", 49159);
   ("ECDHE-RSA-3DES-CBC3-SHA", 49170);
   ("ECDHE-RSA-AES-128-CBC-SHA", 49171);
   ("ECDHE-RSA-AES-128-CBC-SHA256", 49191);
   ("ECDHE-RSA-AES-128-GCM-SHA256", 49199);
   ("ECDHE-RSA-AES-256-CBC-SHA", 49172);
   ("ECDHE-RSA-AES-256-GCM-SHA384", 49200);
   ("ECDHE-RSA-CHACHA20-POLY1205", 52392);
   ("ECDHE-RSA-RC4-128-SHA", 49169);
   ("RSA-RC4-128-SHA", 5);
   ("RSA-3DES-CBC3-SHA", 10);
   ("RSA-AES-128-CBC-SHA", 47);
   ("RSA-AES-128-CBC-SHA256", 60);
   ("RSA-AES-128-GCM-SHA256", 156);
   ("RSA-AES-256-CBC-SHA", 53);
   ("RSA-AES-256-GCM-SHA384", 157);
   ("TLS-AES-128-GCM-SHA256", 4865);
   ("TLS-AES-256-GCM-SHA384", 4866);
   ("TLS-CHACHA20-POLY1305-SHA256", 4867)].

(** The inverse tables [init] fills. *)
Definition tlsCipherSuitesInverse (v : Z) : option string := lookup_value tlsCipherSuites v.
Definition supportedCipherSuites (v : Z) : option string := lookup_value tlsCipherSuites v.

Definition unknownType : string := "unknown".

Definition CipherSuite_Unpack (i : input) : res tls_error Z :=
  match i with
  | IString o =>
      match lookup_name tlsCipherSuites o with Some v => Ok v | None => Err (EinvalidCipher o) end
  | IInt64 o | IUint64 o => Ok (uint16 o)
  | _ => Err EunknownType
  end.

Definition CipherSuite_Validate (v : Z) : res tls_error unit :=
  match supportedCipherSuites v with Some _ => Ok tt | None => Err (EunsupportedCipher v) end.

Definition CipherSuite_String (v : Z) : string := default unknownType (tlsCipherSuitesInverse v).
Definition ResolveCipherSuite (v : Z) : string := CipherSuite_String v.

Definition convCipherSuites (suites : list Z) : list Z := map uint16 suites.

(** ** Curves *)
Definition tlsCurveTypes : list (string * Z) := [("P-256", 23); ("P-384", 24); ("P-521", 25); ("X25519", 29)].

Definition tlsCurveType_Unpack (i : input) : res tls_error Z :=
  match i with
  | IString o =>
      match lookup_name tlsCurveTypes o with Some v => Ok v | None => Err (EinvalidCurve o) end
  | IInt64 o | IUint64 o => Ok (uint16 o)
  | _ => Err EunknownType
  end.

Definition tlsCurveType_Validate (v : Z) : res tls_error unit :=
  match lookup_value tlsCurveTypes v with Some _ => Ok tt | None => Err (EunsupportedCurve v) end.

(** ** Renegotiation *)
Definition tlsRenegotiationSupportTypes : list (string * Z) := [("never", 0); ("once", 1); ("freely", 2)].

Definition Renegotiation_String (v : Z) : string :=
  match lookup_value tlsRenegotiationSupportTypes v with Some s => s | None => "<" +:+ unknownType +:+ ">" end.

Definition Renegotiation_Unpack (i : input) : res tls_error Z :=
  match i with
  | IString o =>
      match lookup_name tlsRenegotiationSupportTypes o with
      | Some v => Ok v | None => Err (EinvalidRenegotiation o)
      end
  | IInt64 o | IUint64 o => Ok (wrap64 o)
  | _ => Err EunknownType
  end.

Definition Renegotiation_MarshalText (v : Z) : res tls_error string :=
  match lookup_value tlsRenegotiationSupportTypes v with Some s => Ok s | None => Err (Emarshal v) end.

(** ** Verification mode *)
Definition VerifyFull : Z := 0.
Definition VerifyNone : Z := 1.
Definition VerifyCertificate : Z := 2.
Definition VerifyStrict : Z := 3.

Definition tlsVerificationModes : list (string * Z) :=
  [("full", VerifyFull); ("strict", VerifyStrict); ("none", VerifyNone); ("certificate", VerifyCertificate)].

Definition VerificationMode_String (m : Z) : string := default unknownType (lookup_value tlsVerificationModes m).

Definition VerificationMode_MarshalText (m : Z) : res tls_error string :=
  match lookup_value tlsVerificationModes m with Some s => Ok s | None => Err (Emarshal m) end.

Definition VerificationMode_Unpack (i : input) : res tls_error Z :=
  match i with
  | INil => Ok VerifyFull
  | IString o =>
      if String.eqb o "" then Ok VerifyFull
      else match lookup_name tlsVerificationModes o with Some m => Ok m | None => Err (EunknownMode o) end
  | IInt64 o | IUint64 o => Ok (uint8 o)
  | IOther _ => Err EunknownType
  end.

Definition VerificationMode_Validate (m : Z) : res tls_error unit :=
  if m >? VerifyStrict then Err (EunsupportedMode m) else Ok tt.

(** ** Client authentication *)
Definition TLSClientAuthNone : Z := 0.
Definition TLSClientAuthOptional : Z := 3.
Definition TLSClientAuthRequired : Z := 4.

Definition tlsClientAuthTypes : list (string * Z) :=
  [("none", TLSClientAuthNone); ("optional", TLSClientAuthOptional); ("required", TLSClientAuthRequired)].

Definition ClientAuth_String (m : Z) : string := default unknownType (lookup_value tlsClientAuthTypes m).

Definition ClientAuth_MarshalText (m : Z) : res tls_error string :=
  match lookup_value tlsClientAuthTypes m with Some s => Ok s | None => Err (Emarshal m) end.

Definition ClientAuth_Unpack (i : input) : res tls_error Z :=
  match i with
  | INil => Ok TLSClientAuthNone
  | IString o =>
      if String.eqb o "" then Ok TLSClientAuthNone
      else match lookup_name tlsClientAuthTypes o with Some m => Ok m | None => Err (EunknownAuth o) end
  | IInt64 o | IUint64 o => Ok (wrap64 o)
  | IOther _ => Err EunknownType
  end.

(** ** Configurations *)
Record CertificateConfig := mkCertConfig {
  Certificate_file : string; Key_file : string; Passphrase : string; PassphrasePath : string
}.

Definition CertificateConfig_Validate (c : CertificateConfig) : res tls_error unit :=
  let hasCertificate := negb (String.eqb (Certificate_file c) "") in
  let hasKey := negb (String.eqb (Key_file c) "") in
  if hasCertificate && negb hasKey then Err ErrKeyUnspecified
  else if negb hasCertificate && hasKey then Err ErrCertificateUnspecified
  else Ok tt.

(** [Config] and [ServerConfig] in one record: a client has no [ClientAuth_set],
    a server no [Renegotiation_set] and [TrustedFingerprint]. *)
Record Config := mkConfig {
  Enabled : option bool;
  VerificationMode : Z;
  Versions : list Z;
  CipherSuites : list Z;
  CAs : list string;
  CertConfig : CertificateConfig;
  CurveTypes : list Z;
  Renegotiation_set : Z;
  CASha256 : list string;
  TrustedFingerprint : string;
  ClientAuth_set : option Z
}.

(** [None] is a nil configuration. *)
Definition IsEnabled (c : option Config) : bool :=
  match c with Some c => default true (Enabled c) | None => false end.

Fixpoint validate_all (f : Z → res tls_error unit) (l : list Z) : res tls_error unit :=
  match l with [] => Ok tt | v :: l' => f v ≫= λ _, validate_all f l' end.

Definition Config_Validate (d : tls_defaults) (c : Config) : res tls_error unit :=
  validate_all (TLSVersion_Validate d) (Versions c) ≫= λ _,
  validate_all CipherSuite_Validate (CipherSuites c) ≫= λ _,
  validate_all tlsCurveType_Validate (CurveTypes c) ≫= λ _,
  CertificateConfig_Validate (CertConfig c).

Definition ServerConfig_Validate (d : tls_defaults) (c : Config) : res tls_error unit :=
  if IsEnabled (Some c) && String.eqb (Certificate_file (CertConfig c)) ""
  then Err ErrCertificateUnspecified
  else Config_Validate d c.

(** [IsPEMString]: text that starts with a dash after white space. *)
Definition IsPEMString (s : string) : bool := HasPrefix (TrimSpace s) "-".

(** ** Properties *)
(** [extractMinMaxVersion] returns the smallest and the largest version of
    the list (of the default versions when it is empty): both are in it and
    bound every version in it. *)
Theorem extractMinMaxVersion_spec d versions :
  let l := match versions with [] => TLSDefaultVersions d | _ => versions end in
  l ≠ [] → Forall (λ v, 0 < v < 65535) l →
  let '(mn, mx) := extractMinMaxVersion d versions in
  mn ∈ l ∧ mx ∈ l ∧ Forall (λ v, mn ≤ v ≤ mx) l.
Proof.
  intros l Hne Hl. unfold extractMinMaxVersion. fold l.
  assert (Hgen : ∀ k mn0 mx0, let '(mn, mx) := min_max k mn0 mx0 in
    (mn = mn0 ∨ mn ∈ k) ∧ (mx = mx0 ∨ mx ∈ k) ∧ mn ≤ mn0 ∧ mx0 ≤ mx ∧ Forall (λ v, mn ≤ v ≤ mx) k).
  { induction k as [|v k IH]; intros mn0 mx0; simpl; [conjs; auto; lia|].
    specialize (IH (if v <? mn0 then v else mn0) (if v >? mx0 then v else mx0)).
    destruct (min_max k _ _) as [mn mx]. destruct IH as (H1 & H2 & H3 & H4 & H5).
    destruct (Z.ltb_spec v mn0), (Z.gtb_spec v mx0); conjs; try lia;
      try (destruct H1 as [->|H1]; [set_solver|set_solver]);
      try (destruct H2 as [->|H2]; [set_solver|set_solver]);
      constructor; (done || lia). }
  specialize (Hgen l 65535 0). destruct (min_max l 65535 0) as [mn mx].
  destruct Hgen as (H1 & H2 & _ & _ & H5). destruct l as [|v l']; [done|].
  apply Forall_cons in Hl as [Hv Hl']. pose proof H5 as H5'. apply Forall_cons in H5' as [H5v _].
  conjs; [destruct H1 as [->|]; [lia|done]|destruct H2 as [->|]; [lia|done]|done].
Qed.

Lemma extractMinMaxVersion_spec_witness :
  let '(mn, mx) := extractMinMaxVersion defaults [771; 770; 772] in
  mn ∈ [771; 770; 772] ∧ mx ∈ [771; 770; 772] ∧ Forall (λ v, mn ≤ v ≤ mx) [771; 770; 772].
Proof. apply (extractMinMaxVersion_spec defaults [771; 770; 772]); [done|]. repeat constructor; lia. Defined.

Lemma validate_all_Ok f l : validate_all f l = Ok tt ↔ Forall (λ v, f v = Ok tt) l.
Proof.
  induction l as [|v l IH]; simpl; [by split|]. rewrite Forall_cons. destruct (f v) as [[]| | |]; simpl.
  - rewrite IH. naive_solver.
  - naive_solver.
  - naive_solver.
  - naive_solver.
Qed.

(** A configuration passes [Validate] exactly when every version is between
    the minimum and TLS 1.3, every cipher suite and curve is one of the table,
    and certificate and key are both given or both missing; an enabled server
    also needs a certificate. *)
Theorem Config_Validate_spec d c :
  let valid :=
    Forall (λ v, TLSVersionMin d ≤ v ≤ TLSVersion13) (Versions c) ∧
    Forall (λ v, ∃ name, (name, v) ∈ tlsCipherSuites) (CipherSuites c) ∧
    Forall (λ v, ∃ name, (name, v) ∈ tlsCurveTypes) (CurveTypes c) ∧
    (Certificate_file (CertConfig c) = "" ↔ Key_file (CertConfig c) = "") in
  (Config_Validate d c = Ok tt ↔ valid) ∧
  (ServerConfig_Validate d c = Ok tt ↔
     valid ∧ (Enabled c ≠ Some false → Certificate_file (CertConfig c) ≠ "")).
Proof.
  assert (Hver : ∀ v, TLSVersion_Validate d v = Ok tt ↔ TLSVersionMin d ≤ v ≤ TLSVersion13).
  { intros v. unfold TLSVersion_Validate, TLSVersionMax.
    destruct (Z.ltb_spec v (TLSVersionMin d)), (Z.gtb_spec v TLSVersion13); simpl; split; (done || lia). }
  assert (Htab : ∀ t v, (∃ name, (name, v) ∈ t) ↔ is_Some (lookup_value t v)).
  { intros t v. unfold lookup_value. destruct (find (λ e, snd e =? v) t) as [[n x]|] eqn:E; simpl.
    - apply find_some in E as [Hin Hx%Z.eqb_eq]. simpl in Hx. subst x. split; [eauto|].
      intros _. exists n. by apply list_elem_of_In.
    - split; [|by intros []]. intros [n Hn]. eapply find_none in E; [|by apply list_elem_of_In]. simpl in E.
      by rewrite Z.eqb_refl in E. }
  assert (Hci : ∀ v, CipherSuite_Validate v = Ok tt ↔ ∃ name, (name, v) ∈ tlsCipherSuites).
  { intros v. rewrite Htab. unfold CipherSuite_Validate, supportedCipherSuites.
    destruct (lookup_value _ _); split; (done || by intros []). }
  assert (Hcu : ∀ v, tlsCurveType_Validate v = Ok tt ↔ ∃ name, (name, v) ∈ tlsCurveTypes).
  { intros v. rewrite Htab. unfold tlsCurveType_Validate.
    destruct (lookup_value _ _); split; (done || by intros []). }
  assert (Hce : CertificateConfig_Validate (CertConfig c) = Ok tt ↔
    (Certificate_file (CertConfig c) = "" ↔ Key_file (CertConfig c) = "")).
  { unfold CertificateConfig_Validate.
    destruct (String.eqb_spec (Certificate_file (CertConfig c)) ""),
      (String.eqb_spec (Key_file (CertConfig c)) ""); simpl; naive_solver. }
  intros valid. assert (Hc : Config_Validate d c = Ok tt ↔ valid).
  { unfold Config_Validate, valid. rewrite <- Hce.
    setoid_rewrite <- Hver. setoid_rewrite <- Hci. setoid_rewrite <- Hcu. rewrite <- !validate_all_Ok.
    destruct (validate_all (TLSVersion_Validate d) (Versions c)) as [[]| | |]; simpl; [|naive_solver..].
    destruct (validate_all CipherSuite_Validate (CipherSuites c)) as [[]| | |]; simpl; [|naive_solver..].
    destruct (validate_all tlsCurveType_Validate (CurveTypes c)) as [[]| | |]; simpl; naive_solver. }
  split; [exact Hc|]. unfold ServerConfig_Validate, IsEnabled.
  destruct (Enabled c) as [[]|], (String.eqb_spec (Certificate_file (CertConfig c)) ""); simpl; naive_solver.
Qed.

Lemma lookup_name_In t s v : NoDup (map fst t) → (s, v) ∈ t → lookup_name t s = Some v.
Proof.
  unfold lookup_name. induction t as [|[n x] t IH]; intros Hnd Hin; [by apply not_elem_of_nil in Hin|].
  simpl in *. apply NoDup_cons in Hnd as [Hn Hnd]. apply elem_of_cons in Hin as [[= <- <-]|Hin].
  - by rewrite String.eqb_refl.
  - destruct (String.eqb_spec n s) as [->|]; [|by apply IH]. destruct Hn.
    apply list_elem_of_fmap. by exists (s, v).
Qed.

Lemma lookup_value_In t v s : lookup_value t v = Some s → (s, v) ∈ t.
Proof.
  unfold lookup_value. destruct (find _ t) as [[n x]|] eqn:E; [|done]. intros [= <-].
  apply find_some in E as [Hin Hx%Z.eqb_eq]. simpl in *. subst. by apply list_elem_of_In.
Qed.

(** What a table prints, it reads. *)
Lemma table_roundtrip t v s : NoDup (map fst t) → lookup_value t v = Some s → lookup_name t s = Some v.
Proof. intros Hnd Hv%lookup_value_In. by apply lookup_name_In. Qed.

Ltac nodup_names := vm_compute; repeat constructor; set_solver.

(** Every value the types print is read back: the text of a verification
    mode, of a client authentication and of a renegotiation setting, the name
    of a cipher suite and of a version unpack to the value they came from. *)
Theorem tls_text_roundtrip v s :
  (VerificationMode_MarshalText v = Ok s → VerificationMode_Unpack (IString s) = Ok v) ∧
  (ClientAuth_MarshalText v = Ok s → ClientAuth_Unpack (IString s) = Ok v) ∧
  (Renegotiation_MarshalText v = Ok s → Renegotiation_Unpack (IString s) = Ok v) ∧
  (CipherSuite_Validate v = Ok tt → CipherSuite_Unpack (IString (CipherSuite_String v)) = Ok v) ∧
  (is_Some (Details v) → TLSVersion_Unpack (IString (TLSVersion_String v)) = Ok v).
Proof.
  assert (Hne : ∀ t, Forall (λ e : string * Z, e.1 ≠ "") t → lookup_value t v = Some s → String.eqb s "" = false).
  { intros t Ht Hv%lookup_value_In. rewrite Forall_forall in Ht. apply String.eqb_neq. exact (Ht _ Hv). }
  conjs.
  - unfold VerificationMode_MarshalText, VerificationMode_Unpack.
    destruct (lookup_value _ _) as [x|] eqn:E; [|done]. intros [= ->]. rewrite (Hne tlsVerificationModes ltac:(by repeat constructor) E).
    by rewrite (table_roundtrip tlsVerificationModes _ _ ltac:(nodup_names) E).
  - unfold ClientAuth_MarshalText, ClientAuth_Unpack.
    destruct (lookup_value _ _) as [x|] eqn:E; [|done]. intros [= ->]. rewrite (Hne tlsClientAuthTypes ltac:(by repeat constructor) E).
    by rewrite (table_roundtrip tlsClientAuthTypes _ _ ltac:(nodup_names) E).
  - unfold Renegotiation_MarshalText, Renegotiation_Unpack.
    destruct (lookup_value _ _) as [x|] eqn:E; [|done]. intros [= ->].
    by rewrite (table_roundtrip tlsRenegotiationSupportTypes _ _ ltac:(nodup_names) E).
  - unfold CipherSuite_Validate, CipherSuite_Unpack, CipherSuite_String, supportedCipherSuites, tlsCipherSuitesInverse.
    destruct (lookup_value tlsCipherSuites v) as [x|] eqn:E; [|done]. intros _. cbn [from_option id].
    by rewrite (table_roundtrip tlsCipherSuites _ _ ltac:(nodup_names) E).
  - unfold Details, TLSVersion_String, Details, tlsInverseLookup.
    destruct (find _ _) as [[x d]|] eqn:E; [|by intros []]. intros _.
    apply find_some in E as [Hin Hx%Z.eqb_eq]. simpl in Hx. subst x.
    repeat (destruct Hin as [[= <- <-]|Hin]; [reflexivity|]). done.
Qed.

Lemma tls_text_roundtrip_witness : VerificationMode_MarshalText 2 = Ok "certificate" ∧
  VerificationMode_Unpack (IString "certificate") = Ok 2.
Proof. split; [reflexivity|]. apply (tls_text_roundtrip 2 "certificate"). reflexivity. Defined.

(** A number is cut to the width of the type before it is checked: 257 as a
    verification mode is [VerifyNone], and passes [Validate]; 66307 as a
    version is TLS 1.2. *)
Theorem numbers_wrap_before_validation :
  VerificationMode_Unpack (IInt64 257) = Ok VerifyNone ∧ VerificationMode_Validate VerifyNone = Ok tt ∧
  TLSVersion_Unpack (IInt64 66307) = Ok TLSVersion12 ∧ TLSVersion_Validate defaults TLSVersion12 = Ok tt.
Proof. vm_compute. done. Qed.
