(* ===== verification/TlsVerify.v ===== *)
(** * Package [tlscommon]: verification of the peer

    tls_config.go and ca_pinning.go.  Chain building and hashing are
    [crypto/x509]'s and [crypto/sha256]'s, parameters of the model.  The
    verification functions close over the address of their configuration and
    may add a trusted certificate authority to its pool, so configurations and
    pools live in a store. *)
From S2P Require Import Prelude GoStrings GoUtf8 GoBase64 TlsNames TlsTypes.

Open Scope string_scope.
Open Scope list_scope.
Open Scope Z_scope.

(** [hex.DecodeString] *)
Definition hex_value (a : ascii) : option Z :=
  let b := byte a in
  if (48 <=? b) && (b <=? 57) then Some (b - 48)
  else if (97 <=? b) && (b <=? 102) then Some (b - 97 + 10)
  else if (65 <=? b) && (b <=? 70) then Some (b - 65 + 10)
  else None.

Fixpoint hex_DecodeString (s : string) : option string :=
  match s with
  | "" => Some ""
  | String a (String b r) =>
      x ← hex_value a; y ← hex_value b; t ← hex_DecodeString r;
      Some (String (chr (x * 16 + y)) t)
  | _ => None
  end.

Class X509 := {
  sha256_Sum : string → string;
  (** [cert.Verify(opts)]: roots ([None]: the system's), intermediates, and
      whether any key usage is accepted; the verified chains. *)
  cert_Verify : Certificate → option (list Certificate) → list Certificate → bool →
    res string (list (list Certificate));
  net_ParseIP : string → option string
}.

Inductive verify_error :=
| ErrMissingPeerCertificate
| ErrCAPinMissmatch
| Efingerprint
| Ex509 (msg : string)
| Ehost (e : host_error).

(** A configuration points to its pools, which copies of it share. *)
Record TLSConfig := mkTLSConfig {
  c_Versions : list Z;
  Verification : Z;
  c_Certificates : list string;
  RootCAs : option nat;
  ClientCAs : option nat;
  c_CipherSuites : list Z;
  CurvePreferences : list Z;
  Renegotiation : Z;
  ClientAuth : Z;
  c_CASha256 : list string;
  CATrustedFingerprint : string;
  ServerName : string;
  Logger : bool      (** not nil *)
}.

Definition set_RootCAs (r : option nat) (c : TLSConfig) : TLSConfig :=
  mkTLSConfig (c_Versions c) (Verification c) (c_Certificates c) r (ClientCAs c) (c_CipherSuites c)
    (CurvePreferences c) (Renegotiation c) (ClientAuth c) (c_CASha256 c) (CATrustedFingerprint c)
    (ServerName c) (Logger c).
Definition set_ServerName (h : string) (c : TLSConfig) : TLSConfig :=
  mkTLSConfig (c_Versions c) (Verification c) (c_Certificates c) (RootCAs c) (ClientCAs c)
    (c_CipherSuites c) (CurvePreferences c) (Renegotiation c) (ClientAuth c) (c_CASha256 c)
    (CATrustedFingerprint c) h (Logger c).

(** [&TLSConfig{Verification: m, ServerName: h}] *)
Definition with_Verification (m : Z) (h : string) : TLSConfig :=
  mkTLSConfig [] m [] None None [] [] 0 0 [] "" h false.

Record ConnectionState := mkConnectionState {
  PeerCertificates : list Certificate;
  VerifiedChains : list (list Certificate)
}.

(** Pools ([x509.CertPool]) and configurations, by address. *)
Record tls_store := mkStore { pools : list (list Certificate); configs : list TLSConfig }.

(** The function literals of the two [makeVerify...Connection]; each closes over
    the address of its configuration. *)
Inductive verify_fun :=
| ClientFull (cfg : nat) (serverName : string) (logger : bool)
| ClientCertificate (cfg : nat) (logger : bool)
| ClientStrict (cfg : nat) (logger : bool)
| ServerChain (cfg : nat)
| ServerStrict (cfg : nat).

(** [tls.Config], as the package fills it. *)
Record tls_Config := mkTlsConfig {
  MinVersion : Z; MaxVersion : Z;
  t_Certificates : list string;
  t_RootCAs : option nat; t_ClientCAs : option nat;
  InsecureSkipVerify : bool;
  t_CipherSuites : list Z; t_CurvePreferences : list Z; t_Renegotiation : Z; t_ClientAuth : Z;
  t_ServerName : string;
  VerifyConnection : option verify_fun;
  NextProtos : list string
}.

Section verify.
Context `{X509}.

(** ** ca_pinning.go *)
Definition Fingerprint (certificate : Certificate) : string :=
  Encode (sha256_Sum (RawSubjectPublicKeyInfo certificate)).

Fixpoint matches (pins : list string) (candidate : string) : bool :=
  match pins with [] => false | pin :: pins' => if String.eqb pin candidate then true else matches pins' candidate end.

Fixpoint pin_in_chain (hashes : list string) (chain : list Certificate) : bool :=
  match chain with
  | [] => false
  | c :: chain' => if matches hashes (Fingerprint c) then true else pin_in_chain hashes chain'
  end.

Fixpoint verifyCAPin (hashes : list string) (chains : list (list Certificate)) : res verify_error unit :=
  match chains with
  | [] => Err ErrCAPinMissmatch
  | chain :: chains' => if pin_in_chain hashes chain then Ok tt else verifyCAPin hashes chains'
  end.

(** ** tls_config.go *)
Definition deref (p : nat) : SE tls_store verify_error TLSConfig :=
  st ← get_store; match configs st !! p with Some c => mret c | None => panics PNilPointer end.

Definition set_config (p : nat) (c : TLSConfig) : SE tls_store verify_error unit :=
  modify (λ st, mkStore (pools st) (<[p := c]> (configs st))).

Definition new_config {E} (c : TLSConfig) : SE tls_store E nat :=
  st ← get_store;
  set_store (mkStore (pools st) (configs st ++ [c])) ≫= λ _, mret (length (configs st)).

(** [x509.NewCertPool] *)
Definition NewCertPool {E} : SE tls_store E nat :=
  st ← get_store;
  set_store (mkStore (pools st ++ [[]]) (configs st)) ≫= λ _, mret (length (pools st)).

(** [pool.AddCert]: a certificate that is in the pool is not added again. *)
Definition add_cert (cert : Certificate) (pool : list Certificate) : list Certificate :=
  if existsb (λ c, String.eqb (Raw c) (Raw cert)) pool then pool else pool ++ [cert].
Definition AddCert {E} (p : nat) (cert : Certificate) : SE tls_store E unit :=
  modify (λ st, mkStore (alter (add_cert cert) p (pools st)) (configs st)).

(** The pool of a pointer; nil stands for the system's. *)
Definition pool_of (st : tls_store) (p : option nat) : option (list Certificate) :=
  p ≫= λ p, pools st !! p.

(** [logger.Named]: a nil logger has no core. *)
Definition Named (logger : bool) : SE tls_store verify_error unit :=
  if logger then mret tt else panics PNilPointer.

(** The loop of [trustRootCA]: the first certificate with the fingerprint that
    is a certificate authority. *)
Fixpoint find_ca (fingerprint : string) (certs : list Certificate) : option Certificate :=
  match certs with
  | [] => None
  | cert :: certs' =>
      if negb (String.eqb (sha256_Sum (Raw cert)) fingerprint) then find_ca fingerprint certs'
      else if negb (IsCA cert) then find_ca fingerprint certs'
      else Some cert
  end.

Definition trustRootCA (p : nat) (peerCerts : list Certificate) (logger : bool)
    : SE tls_store verify_error unit :=
  Named logger ≫= λ _,
  cfg ← deref p;
  match hex_DecodeString (CATrustedFingerprint cfg) with
  | None => fail Efingerprint
  | Some fingerprint =>
      match find_ca fingerprint peerCerts with
      | None => mret tt
      | Some cert =>
          match RootCAs cfg with
          | Some pool => AddCert pool cert
          | None =>
              pool ← NewCertPool;
              set_config p (set_RootCAs (Some pool) cfg) ≫= λ _, AddCert pool cert
          end
      end
  end.

Definition x509_res {A} (r : res string A) : res verify_error A :=
  match r with
  | Ok a => Ok a
  | Err e => Err (Ex509 e)
  | Panic p => Panic p
  | OutOfFuel => OutOfFuel
  end.

Definition verifyCertsWithOpts (certs : list Certificate) (casha256 : list string)
    (roots : option (list Certificate)) (anyUsage : bool) : res verify_error unit :=
  match certs with
  | [] => Panic PIndexOutOfRange                (* certs[1:] *)
  | cert :: intermediates =>
      verifiedChains ← x509_res (cert_Verify cert roots intermediates anyUsage);
      match casha256 with [] => Ok tt | _ => verifyCAPin casha256 verifiedChains end
  end.

Definition host_res (r : res host_error unit) : res verify_error unit :=
  match r with Err e => Err (Ehost e) | Ok a => Ok a | Panic p => Panic p | OutOfFuel => OutOfFuel end.

Definition trust_if_set (p : nat) (logger : bool) (cs : ConnectionState) : SE tls_store verify_error unit :=
  cfg ← deref p;
  if negb (String.eqb (CATrustedFingerprint cfg) "") then trustRootCA p (PeerCertificates cs) logger
  else mret tt.

(** The chain of the peer against the pool of the configuration. *)
Definition verify_chain (p : nat) (cs : ConnectionState) (roots : TLSConfig → option nat) (anyUsage : bool)
    : SE tls_store verify_error unit :=
  cfg ← deref p; st ← get_store;
  lift (verifyCertsWithOpts (PeerCertificates cs) (c_CASha256 cfg) (pool_of st (roots cfg)) anyUsage).

(** One body per function literal. *)
Definition run_verify (f : verify_fun) (cs : ConnectionState) : SE tls_store verify_error unit :=
  match f with
  | ClientFull p serverName logger =>
      trust_if_set p logger cs ≫= λ _,
      match PeerCertificates cs with
      | [] => fail ErrMissingPeerCertificate
      | leaf :: _ =>
          verify_chain p cs RootCAs false ≫= λ _,
          lift (host_res (verifyHostname net_ParseIP leaf serverName))
      end
  | ClientCertificate p logger =>
      trust_if_set p logger cs ≫= λ _,
      match PeerCertificates cs with
      | [] => fail ErrMissingPeerCertificate
      | _ => verify_chain p cs RootCAs false
      end
  | ClientStrict p logger =>
      trust_if_set p logger cs ≫= λ _,
      cfg ← deref p; lift (verifyCAPin (c_CASha256 cfg) (VerifiedChains cs))
  | ServerChain p =>
      cfg ← deref p;
      match PeerCertificates cs with
      | [] => if ClientAuth cfg =? TLSClientAuthRequired then fail ErrMissingPeerCertificate else mret tt
      | _ => verify_chain p cs ClientCAs true
      end
  | ServerStrict p =>
      cfg ← deref p; lift (verifyCAPin (c_CASha256 cfg) (VerifiedChains cs))
  end.

Definition makeVerifyConnection (p : nat) (logger : bool) : SE tls_store verify_error (option verify_fun) :=
  cfg ← deref p;
  if Verification cfg =? VerifyFull then mret (Some (ClientFull p (ServerName cfg) logger))
  else if Verification cfg =? VerifyCertificate then mret (Some (ClientCertificate p logger))
  else if Verification cfg =? VerifyStrict then
    match c_CASha256 cfg with [] => mret None | _ => mret (Some (ClientStrict p logger)) end
  else mret None.

Definition makeVerifyServerConnection (p : nat) : SE tls_store verify_error (option verify_fun) :=
  cfg ← deref p;
  if (Verification cfg =? VerifyFull) || (Verification cfg =? VerifyCertificate) then mret (Some (ServerChain p))
  else if Verification cfg =? VerifyStrict then
    match c_CASha256 cfg with [] => mret None | _ => mret (Some (ServerStrict p)) end
  else mret None.

Definition zero_Config : tls_Config := mkTlsConfig 0 0 [] None None false [] [] 0 0 "" None [].

Definition ToConfig (d : tls_defaults) (c : option nat) : SE tls_store verify_error tls_Config :=
  match c with
  | None => mret zero_Config
  | Some p =>
      cfg ← deref p;
      let '(minVersion, maxVersion) := extractMinMaxVersion d (c_Versions cfg) in
      let insecure := negb (Verification cfg =? VerifyStrict) in
      (if Verification cfg =? VerifyNone then Named (Logger cfg) else mret tt) ≫= λ _,
      verify ← makeVerifyConnection p (Logger cfg);
      mret (mkTlsConfig minVersion maxVersion (c_Certificates cfg) (RootCAs cfg) (ClientCAs cfg) insecure
        (convCipherSuites (c_CipherSuites cfg)) (CurvePreferences cfg) (Renegotiation cfg) (ClientAuth cfg) ""
        verify [])
  end.

Definition with_host (host : string) (t : tls_Config) : tls_Config :=
  mkTlsConfig (MinVersion t) (MaxVersion t) (t_Certificates t) (t_RootCAs t) (t_ClientCAs t)
    (InsecureSkipVerify t) (t_CipherSuites t) (t_CurvePreferences t) (t_Renegotiation t) (t_ClientAuth t)
    host (VerifyConnection t) (NextProtos t).
Definition with_verify (f : option verify_fun) (t : tls_Config) : tls_Config :=
  mkTlsConfig (MinVersion t) (MaxVersion t) (t_Certificates t) (t_RootCAs t) (t_ClientCAs t)
    (InsecureSkipVerify t) (t_CipherSuites t) (t_CurvePreferences t) (t_Renegotiation t) (t_ClientAuth t)
    (t_ServerName t) f (NextProtos t).

(** [&tls.Config{ServerName: host, InsecureSkipVerify: true, VerifyConnection: f}] *)
Definition default_Config (host : string) (f : option verify_fun) : tls_Config :=
  mkTlsConfig 0 0 [] None None true [] [] 0 0 host f [].

(** The options only set the logger used without a configuration, which is
    never nil. *)
Definition BuildModuleClientConfig (d : tls_defaults) (c : option nat) (host : string)
    : SE tls_store verify_error tls_Config :=
  match c with
  | None =>
      p ← new_config (with_Verification VerifyFull host);
      verify ← makeVerifyConnection p true;
      mret (default_Config host verify)
  | Some c =>
      cfg ← deref c;
      cc ← new_config (set_ServerName host cfg);
      config ← ToConfig d (Some cc);
      mret (with_host host config)
  end.

Definition BuildServerConfig (d : tls_defaults) (c : option nat) (host : string)
    : SE tls_store verify_error tls_Config :=
  match c with
  | None =>
      p ← new_config (with_Verification VerifyCertificate host);
      verify ← makeVerifyServerConnection p;
      mret (default_Config host verify)
  | Some p =>
      config ← ToConfig d (Some p);
      verify ← makeVerifyServerConnection p;
      mret (with_verify verify (with_host host config))
  end.
End verify.
