(* ===== verification/TlsFacts.v ===== *)
(** * Package [tlscommon]: what the verification functions accept

    The functions [BuildModuleClientConfig] and [BuildServerConfig] install,
    run on the store their configuration lives in. *)
From S2P Require Import Prelude GoStrings GoUtf8 GoBase64 TlsTypes TlsNames TlsVerify.

Open Scope string_scope.
Open Scope list_scope.
Open Scope Z_scope.

Section facts.
Context `{X509}.
Implicit Types (st : tls_store) (cfg : TLSConfig) (cs : ConnectionState) (p : nat).

(** ** Pins *)
Lemma matches_spec pins x : matches pins x = true ↔ x ∈ pins.
Proof.
  induction pins as [|pin pins IH]; simpl; [split; [done|by intros ?%not_elem_of_nil]|].
  rewrite elem_of_cons. destruct (String.eqb_spec pin x) as [->|Hne]; [naive_solver|].
  rewrite IH. naive_solver.
Qed.

Definition pinned (pins : list string) (chains : list (list Certificate)) : Prop :=
  ∃ chain c, chain ∈ chains ∧ c ∈ chain ∧ Fingerprint c ∈ pins.

Lemma pin_in_chain_spec pins chain :
  pin_in_chain pins chain = true ↔ ∃ c, c ∈ chain ∧ Fingerprint c ∈ pins.
Proof.
  induction chain as [|c chain IH]; simpl; [split; [done|by intros (? & ?%not_elem_of_nil & _)]|].
  setoid_rewrite elem_of_cons. destruct (matches pins (Fingerprint c)) eqn:E.
  - apply matches_spec in E. naive_solver.
  - rewrite IH. assert (¬ Fingerprint c ∈ pins) by (intros ?%matches_spec; congruence). naive_solver.
Qed.

Lemma verifyCAPin_spec pins chains : verifyCAPin pins chains = Ok tt ↔ pinned pins chains.
Proof.
  unfold pinned. induction chains as [|chain chains IH]; simpl.
  { split; [done|by intros (? & ? & ?%not_elem_of_nil & _)]. }
  setoid_rewrite elem_of_cons. destruct (pin_in_chain pins chain) eqn:E.
  - apply pin_in_chain_spec in E. naive_solver.
  - rewrite IH. assert (¬ ∃ c, c ∈ chain ∧ Fingerprint c ∈ pins) by (intros ?%pin_in_chain_spec; congruence).
    naive_solver.
Qed.

(** The peer's chain verifies, and holds a pinned certificate if there are
    pins. *)
Definition chain_ok (pins : list string) (roots : option (list Certificate)) (anyUsage : bool)
    (leaf : Certificate) (intermediates : list Certificate) : Prop :=
  ∃ chains, cert_Verify leaf roots intermediates anyUsage = Ok chains ∧ (pins ≠ [] → pinned pins chains).

Lemma verifyCertsWithOpts_spec leaf rest pins roots any :
  verifyCertsWithOpts (leaf :: rest) pins roots any = Ok tt ↔ chain_ok pins roots any leaf rest.
Proof.
  unfold chain_ok. cbn [verifyCertsWithOpts].
  destruct (cert_Verify leaf roots rest any) as [chains| | |]; simpl; [|naive_solver..].
  destruct pins as [|pin pins]; [naive_solver|]. rewrite verifyCAPin_spec. naive_solver.
Qed.

(** ** Trust by fingerprint *)
Lemma find_ca_spec fp certs c : find_ca fp certs = Some c →
  c ∈ certs ∧ IsCA c = true ∧ sha256_Sum (Raw c) = fp.
Proof.
  induction certs as [|x certs IH]; simpl; [done|].
  destruct (String.eqb_spec (sha256_Sum (Raw x)) fp) as [Heq|]; simpl;
    [destruct (IsCA x) eqn:Hca; simpl|]; intros Hf; simplify_eq; set_solver.
Qed.

(** The roots a client uses: its pool, and the presented certificate authority
    with the trusted fingerprint. *)
Definition trusted_roots (st : tls_store) (cfg : TLSConfig) (cs : ConnectionState) : option (list Certificate) :=
  let pool := pool_of st (RootCAs cfg) in
  if String.eqb (CATrustedFingerprint cfg) "" then pool
  else match hex_DecodeString (CATrustedFingerprint cfg) ≫= λ fp, find_ca fp (PeerCertificates cs) with
       | Some ca => Some (add_cert ca (default [] pool))
       | None => pool
       end.

Definition fingerprint_ok (cfg : TLSConfig) : Prop :=
  CATrustedFingerprint cfg ≠ "" → is_Some (hex_DecodeString (CATrustedFingerprint cfg)).

(** Pointers to pools are valid. *)
Definition pools_ok (st : tls_store) (cfg : TLSConfig) : Prop :=
  ∀ l, RootCAs cfg = Some l → is_Some (pools st !! l).

Lemma config_deref_run st p cfg : configs st !! p = Some cfg → deref p st = (st, Ok cfg).
Proof. intros Hp. unfold deref. rewrite SE_bind_get, Hp. done. Qed.

(** Trusting either fails on the text of the fingerprint, or leaves a
    configuration that differs in its pool only, which is [trusted_roots]. *)
Lemma trust_if_set_run st p cfg cs : configs st !! p = Some cfg → pools_ok st cfg →
  (∃ st' cfg', trust_if_set p true cs st = (st', Ok tt) ∧ configs st' !! p = Some cfg' ∧
    cfg' = set_RootCAs (RootCAs cfg') cfg ∧ pool_of st' (RootCAs cfg') = trusted_roots st cfg cs ∧
    fingerprint_ok cfg) ∨
  (trust_if_set p true cs st = (st, Err Efingerprint) ∧ ¬ fingerprint_ok cfg).
Proof.
  intros Hp Hpool. unfold trust_if_set, trusted_roots, fingerprint_ok.
  rewrite (SE_bind_run _ _ _ _ _ (config_deref_run _ _ _ Hp)).
  destruct (String.eqb_spec (CATrustedFingerprint cfg) "") as [Hfp|Hfp]; cbn [negb].
  { left. exists st, cfg. conjs; try done. by destruct cfg. }
  unfold trustRootCA. cbn [Named]. rewrite (SE_bind_run _ _ st st tt eq_refl).
  rewrite (SE_bind_run _ _ _ _ _ (config_deref_run _ _ _ Hp)).
  destruct (hex_DecodeString (CATrustedFingerprint cfg)) as [fp|]; [|right; split; [done|]; intros Hn; by destruct (Hn Hfp)].
  left. cbn [mbind option_bind].
  destruct (find_ca fp (PeerCertificates cs)) as [ca|].
  2: { exists st, cfg. conjs; try done. by destruct cfg. }
  destruct (RootCAs cfg) as [l|] eqn:Hroots.
  - destruct (Hpool l Hroots) as [pool Hl].
    exists (mkStore (alter (add_cert ca) l (pools st)) (configs st)), cfg. conjs; try done.
    + by destruct cfg.
    + unfold pool_of. rewrite Hroots. simpl. rewrite list_lookup_alter_eq, Hl. done.
  - eexists _, (set_RootCAs (Some (length (pools st))) cfg). conjs; [reflexivity|..]; try done.
    + simpl. rewrite list_lookup_insert_eq; [done|]. by eapply lookup_lt_Some.
    + unfold pool_of. simpl. rewrite list_lookup_alter_eq, lookup_app_r, Nat.sub_diag by done. done.
Qed.

Lemma verify_chain_spec st p cfg cs roots any leaf rest :
  configs st !! p = Some cfg → PeerCertificates cs = leaf :: rest →
  verify_chain p cs roots any st =
    (st, verifyCertsWithOpts (leaf :: rest) (c_CASha256 cfg) (pool_of st (roots cfg)) any).
Proof.
  intros Hp Hcs. unfold verify_chain. rewrite (SE_bind_run _ _ _ _ _ (config_deref_run _ _ _ Hp)), SE_bind_get, Hcs. done.
Qed.

Lemma new_config_run {E} st c : new_config (E := E) c st = (mkStore (pools st) (configs st ++ [c]), Ok (length (configs st))).
Proof. done. Qed.

Lemma new_config_lookup st c : configs (mkStore (pools st) (configs st ++ [c])) !! length (configs st) = Some c.
Proof. simpl. by rewrite lookup_app_r, Nat.sub_diag. Qed.

Lemma host_res_Ok r : host_res r = Ok tt ↔ r = Ok tt.
Proof. destruct r as [[]| | |]; naive_solver. Qed.

(** A second step runs exactly when the first returned. *)
Lemma snd_bind_lift {A} st (r : res verify_error A) (k : A → SE tls_store verify_error unit) :
  snd ((lift r ≫= k) st) = (r ≫= λ a, snd (k a st)).
Proof. by destruct r. Qed.

(** The client function of [VerifyFull] on any store. *)
Lemma ClientFull_accepts st p cfg cs host : configs st !! p = Some cfg → pools_ok st cfg →
  snd (run_verify (ClientFull p host true) cs st) = Ok tt ↔
  fingerprint_ok cfg ∧ ∃ leaf rest, PeerCertificates cs = leaf :: rest ∧
    chain_ok (c_CASha256 cfg) (trusted_roots st cfg cs) false leaf rest ∧
    verifyHostname net_ParseIP leaf host = Ok tt.
Proof.
  intros Hp Hpool. cbn [run_verify].
  destruct (trust_if_set_run st p cfg cs Hp Hpool) as [(st' & cfg' & Hrun & Hp' & Hcfg & Hroots & Hfp)|[Hrun Hfp]].
  2: { unfold mbind, SE_bind. rewrite Hrun. naive_solver. }
  rewrite (SE_bind_run _ _ _ _ _ Hrun). destruct (PeerCertificates cs) as [|leaf rest] eqn:Hcs.
  { split; [done|]. intros (_ & ? & ? & ? & _). done. }
  assert (Hsha : c_CASha256 cfg' = c_CASha256 cfg) by (rewrite Hcfg; done).
  unfold mbind, SE_bind. rewrite (verify_chain_spec _ _ _ _ _ _ _ _ Hp' Hcs), Hroots, Hsha.
  pose proof (verifyCertsWithOpts_spec leaf rest (c_CASha256 cfg) (trusted_roots st cfg cs) false) as Hspec.
  destruct (verifyCertsWithOpts _ _ _ _) as [[]| | |]; simpl; [rewrite host_res_Ok|..]; naive_solver.
Qed.

Lemma ServerChain_accepts st p cfg cs : configs st !! p = Some cfg →
  snd (run_verify (ServerChain p) cs st) = Ok tt ↔
  match PeerCertificates cs with
  | [] => ClientAuth cfg ≠ TLSClientAuthRequired
  | leaf :: rest => chain_ok (c_CASha256 cfg) (pool_of st (ClientCAs cfg)) true leaf rest
  end.
Proof.
  intros Hp. cbn [run_verify]. rewrite (SE_bind_run _ _ _ _ _ (config_deref_run _ _ _ Hp)).
  destruct (PeerCertificates cs) as [|leaf rest] eqn:Hcs.
  - destruct (Z.eqb_spec (ClientAuth cfg) TLSClientAuthRequired); simpl; naive_solver.
  - rewrite (verify_chain_spec _ _ _ _ _ _ _ _ Hp Hcs). apply verifyCertsWithOpts_spec.
Qed.

(** The configuration of a client with mode [full] closes over a new copy of
    its own, which has the name of the host. *)
Lemma client_full_build d st c cfg host :
  configs st !! c = Some cfg → Verification cfg = VerifyFull → Logger cfg = true →
  ∃ t, BuildModuleClientConfig d (Some c) host st =
      (mkStore (pools st) (configs st ++ [set_ServerName host cfg]), Ok t) ∧
    VerifyConnection t = Some (ClientFull (length (configs st)) host true) ∧
    InsecureSkipVerify t = true ∧ t_ServerName t = host ∧ t_Certificates t = c_Certificates cfg.
Proof.
  intros Hc Hv Hlog. set (cc := set_ServerName host cfg).
  set (st' := mkStore (pools st) (configs st ++ [cc])). set (p := length (configs st)).
  assert (Hp : configs st' !! p = Some cc) by apply new_config_lookup.
  unfold BuildModuleClientConfig. rewrite (SE_bind_run _ _ _ _ _ (config_deref_run _ _ _ Hc)).
  rewrite (SE_bind_run _ _ _ _ _ (new_config_run st cc)). fold st' p. unfold ToConfig.
  assert (Hmk : makeVerifyConnection p (Logger cfg) st' = (st', Ok (Some (ClientFull p host true)))).
  { unfold makeVerifyConnection. rewrite (SE_bind_run _ _ _ _ _ (config_deref_run _ _ _ Hp)).
    unfold cc. simpl. by rewrite Hv, Hlog. }
  destruct (extractMinMaxVersion d (c_Versions cc)) as [mn mx] eqn:Hm.
  eexists. conjs.
  { unfold mbind, SE_bind. rewrite (config_deref_run _ _ _ Hp). rewrite Hm. unfold cc at 1. simpl. rewrite Hv. simpl.
    rewrite Hmk. reflexivity. }
  all: reflexivity.
Qed.

Lemma client_full_run d st c cfg host :
  configs st !! c = Some cfg → pools_ok st cfg → Verification cfg = VerifyFull → Logger cfg = true →
  ∃ st' t f, BuildModuleClientConfig d (Some c) host st = (st', Ok t) ∧
    VerifyConnection t = Some f ∧ InsecureSkipVerify t = true ∧ t_ServerName t = host ∧
    t_Certificates t = c_Certificates cfg ∧
    ∀ cs, (snd (run_verify f cs st') = Ok tt ↔
     fingerprint_ok cfg ∧ ∃ leaf rest, PeerCertificates cs = leaf :: rest ∧
       chain_ok (c_CASha256 cfg) (trusted_roots st cfg cs) false leaf rest ∧
       verifyHostname net_ParseIP leaf host = Ok tt).
Proof.
  intros Hc Hpool Hv Hlog. destruct (client_full_build d st c cfg host Hc Hv Hlog) as (t & Hb & Hf & ? & ? & ?).
  eexists _, t, _. conjs; [exact Hb|exact Hf|done..|]. intros cs.
  apply (ClientFull_accepts _ _ (set_ServerName host cfg) cs host (new_config_lookup st _) Hpool).
Qed.

(** C7: With verification mode [full], the configuration
    [BuildModuleClientConfig] returns switches the library's verification off
    and installs a function that accepts a connection exactly when the trusted
    fingerprint (if any) is hexadecimal, the peer presents a certificate, its
    chain verifies against the configured authorities plus the presented one
    with that fingerprint, a pinned certificate is in a verified chain if
    there are pins, and the host name is one of the certificate. *)
Theorem client_full_accepts d st c cfg host cs :
  configs st !! c = Some cfg → pools_ok st cfg → Verification cfg = VerifyFull → Logger cfg = true →
  ∃ st' t f, BuildModuleClientConfig d (Some c) host st = (st', Ok t) ∧
    VerifyConnection t = Some f ∧ InsecureSkipVerify t = true ∧ t_ServerName t = host ∧
    (snd (run_verify f cs st') = Ok tt ↔
     fingerprint_ok cfg ∧ ∃ leaf rest, PeerCertificates cs = leaf :: rest ∧
       chain_ok (c_CASha256 cfg) (trusted_roots st cfg cs) false leaf rest ∧
       verifyHostname net_ParseIP leaf host = Ok tt).
Proof.
  intros Hc Hpool Hv Hlog. destruct (client_full_run d st c cfg host Hc Hpool Hv Hlog) as (st' & t & f & ? & ? & ? & ? & _ & Hf).
  exists st', t, f. by rewrite Hf.
Qed.

(** What the library asks of a configuration during the handshake: its
    function, where there is one, accepts. *)
Definition accepts (t : tls_Config) (cs : ConnectionState) (st : tls_store) : Prop :=
  match VerifyConnection t with Some f => snd (run_verify f cs st) = Ok tt | None => True end.

(** Which clients a server of each mode takes, beyond what the library checks. *)
Definition server_takes (st : tls_store) (cfg : TLSConfig) (cs : ConnectionState) : Prop :=
  if decide (Verification cfg = VerifyFull ∨ Verification cfg = VerifyCertificate) then
    match PeerCertificates cs with
    | [] => ClientAuth cfg ≠ TLSClientAuthRequired
    | leaf :: rest => chain_ok (c_CASha256 cfg) (pool_of st (ClientCAs cfg)) true leaf rest
    end
  else if decide (Verification cfg = VerifyStrict) then
    c_CASha256 cfg ≠ [] → pinned (c_CASha256 cfg) (VerifiedChains cs)
  else True.

Lemma ServerStrict_accepts st p cfg cs : configs st !! p = Some cfg →
  snd (run_verify (ServerStrict p) cs st) = Ok tt ↔ pinned (c_CASha256 cfg) (VerifiedChains cs).
Proof.
  intros Hp. cbn [run_verify]. rewrite (SE_bind_run _ _ _ _ _ (config_deref_run _ _ _ Hp)).
  rewrite <- verifyCAPin_spec. unfold lift. done.
Qed.

Lemma makeVerifyConnection_run st p cfg logger : configs st !! p = Some cfg →
  ∃ v, makeVerifyConnection p logger st = (st, Ok v).
Proof.
  intros Hp. unfold makeVerifyConnection. rewrite (SE_bind_run _ _ _ _ _ (config_deref_run _ _ _ Hp)).
  repeat case_match; eauto.
Qed.

(** The function a server is given, by mode. *)
Lemma makeVerifyServerConnection_run st p cfg : configs st !! p = Some cfg →
  ∃ v, makeVerifyServerConnection p st = (st, Ok v) ∧
    ∀ cs, match v with Some f => snd (run_verify f cs st) = Ok tt | None => True end ↔ server_takes st cfg cs.
Proof.
  intros Hp. unfold makeVerifyServerConnection, server_takes.
  rewrite (SE_bind_run _ _ _ _ _ (config_deref_run _ _ _ Hp)).
  destruct (decide (Verification cfg = VerifyFull ∨ Verification cfg = VerifyCertificate)) as [Hv|Hv].
  { exists (Some (ServerChain p)). split; [by destruct Hv as [-> | ->]|]. intros cs. by apply ServerChain_accepts. }
  rewrite (proj2 (orb_false_iff _ _)) by (rewrite !Z.eqb_neq; tauto).
  destruct (decide (Verification cfg = VerifyStrict)) as [->|Hs]; [|rewrite (proj2 (Z.eqb_neq _ _) Hs); by exists None].
  destruct (c_CASha256 cfg) as [|pin pins] eqn:Hpins; [by exists None|].
  exists (Some (ServerStrict p)). split; [done|]. intros cs. rewrite (ServerStrict_accepts _ _ _ _ Hp), Hpins.
  naive_solver.
Qed.

(** C23: The configuration [BuildServerConfig] makes of a given one (with a
    logger where the mode is [none]) has the configured [ClientAuth] and
    [ClientCAs] and sets [InsecureSkipVerify] in every mode but [strict].  Its
    function accepts,
    - in mode [full] and [certificate], a client without a certificate exactly
      when certificates are not required, and one with a certificate exactly
      when its chain verifies against the configured client authorities and,
      where there are pins, holds a pinned certificate;
    - in mode [strict], where there are pins, exactly the clients with a pinned
      certificate in a chain the library verified, so none without a
      certificate; without pins, every client;
    - in any other mode, every client.
    It never consults the host name. *)
Theorem server_accepts d st c cfg host :
  configs st !! c = Some cfg → (Verification cfg = VerifyNone → Logger cfg = true) →
  ∃ t, BuildServerConfig d (Some c) host st = (st, Ok t) ∧ t_ClientAuth t = ClientAuth cfg ∧
    t_ClientCAs t = ClientCAs cfg ∧ (InsecureSkipVerify t = false ↔ Verification cfg = VerifyStrict) ∧
    ∀ cs, accepts t cs st ↔ server_takes st cfg cs.
Proof.
  intros Hc Hlog. destruct (extractMinMaxVersion d (c_Versions cfg)) as [mn mx] eqn:Hm.
  destruct (makeVerifyServerConnection_run st c cfg Hc) as (v & Hmk & Hv).
  destruct (makeVerifyConnection_run st c cfg (Logger cfg) Hc) as (v0 & Hmk0).
  assert (Hnamed : (if Verification cfg =? VerifyNone then Named (Logger cfg) else mret tt) st = (st, Ok tt)).
  { destruct (Z.eqb_spec (Verification cfg) VerifyNone) as [Hn|Hn]; [by rewrite (Hlog Hn)|done]. }
  eexists. conjs.
  { unfold BuildServerConfig, ToConfig, mbind, SE_bind.
    rewrite (config_deref_run _ _ _ Hc), Hm, Hnamed, Hmk0. simpl. rewrite Hmk. reflexivity. }
  1-2: done.
  - simpl. rewrite negb_false_iff. apply Z.eqb_eq.
  - exact Hv.
Qed.

(** What verification does to the store: it may create a pool or add to one a
    presented certificate authority with the trusted fingerprint. *)
Definition trust_step (fp : string) (peer : list Certificate) (st st' : tls_store) : Prop :=
  ∀ l pool c, pools st' !! l = Some pool → c ∈ pool →
    (∃ pool0, pools st !! l = Some pool0 ∧ c ∈ pool0) ∨
    (c ∈ peer ∧ IsCA c = true ∧ hex_DecodeString fp = Some (sha256_Sum (Raw c))).

Lemma trust_step_refl fp peer st : trust_step fp peer st st.
Proof. intros l pool c Hl Hc. eauto. Qed.

Lemma elem_of_add_cert c ca pool : c ∈ add_cert ca pool → c = ca ∨ c ∈ pool.
Proof. unfold add_cert. destruct (existsb _ _); set_solver. Qed.

Lemma AddCert_step fp peer st cfgs l0 ca : ca ∈ peer → IsCA ca = true →
  hex_DecodeString fp = Some (sha256_Sum (Raw ca)) →
  trust_step fp peer st (mkStore (alter (add_cert ca) l0 (pools st)) cfgs).
Proof.
  intros Hin Hca Hfp l pool c. simpl. rewrite list_lookup_alter. case_decide as Hl; [subst l0|by eauto].
  destruct (pools st !! l) as [pool0|]; [|done]. simpl. intros [= <-] [->|Hc]%elem_of_add_cert; eauto.
Qed.

Lemma trust_if_set_step st p cfg cs logger : configs st !! p = Some cfg →
  trust_step (CATrustedFingerprint cfg) (PeerCertificates cs) st (fst (trust_if_set p logger cs st)) ∧
  ∀ q, q ≠ p → configs (fst (trust_if_set p logger cs st)) !! q = configs st !! q.
Proof.
  intros Hp. unfold trust_if_set. rewrite (SE_bind_run _ _ _ _ _ (config_deref_run _ _ _ Hp)).
  destruct (String.eqb _ ""); cbn [negb]; [split; [apply trust_step_refl|done]|].
  unfold trustRootCA. destruct logger; [|split; [apply trust_step_refl|done]].
  rewrite (SE_bind_run _ _ st st tt eq_refl), (SE_bind_run _ _ _ _ _ (config_deref_run _ _ _ Hp)).
  destruct (hex_DecodeString _) as [fp|] eqn:Hfp; [|split; [apply trust_step_refl|done]].
  destruct (find_ca fp (PeerCertificates cs)) as [ca|] eqn:Hca; [|split; [apply trust_step_refl|done]].
  apply find_ca_spec in Hca as (Hin & Hisca & Hsum). subst fp.
  destruct (RootCAs cfg) as [l|]; (split; [|intros q Hq; simpl; by rewrite ?list_lookup_insert_ne]).
  - by apply AddCert_step.
  - intros l pool c. simpl. rewrite list_lookup_alter. case_decide as Hl; [subst l|].
    + rewrite lookup_app_r, Nat.sub_diag by done. intros [= <-] [->|?%not_elem_of_nil]%elem_of_add_cert; [by eauto|done].
    + intros Hpool Hc. apply lookup_app_Some in Hpool as [Hpool|[Hge Hpool]]; [eauto|].
      destruct (l - length (pools st))%nat eqn:Hd; [lia|]. done.
Qed.

Lemma fst_bind_id {A} (m : SE tls_store verify_error A) (k : A → SE tls_store verify_error unit) st :
  (∀ a s, fst (k a s) = s) → fst ((m ≫= k) st) = fst (m st).
Proof. intros Hk. unfold mbind, SE_bind. destruct (m st) as [s' [a| | |]]; simpl; [apply Hk|done..]. Qed.

Lemma deref_fst {B} p (k : TLSConfig → SE tls_store verify_error B) st :
  (∀ a s, fst (k a s) = s) → fst ((deref p ≫= k) st) = st.
Proof.
  intros Hk. unfold mbind, SE_bind, deref at 1, get_store. unfold mbind, SE_bind.
  destruct (configs st !! p); simpl; [apply Hk|done].
Qed.

Definition config_of (f : verify_fun) : nat :=
  match f with
  | ClientFull p _ _ | ClientCertificate p _ | ClientStrict p _ | ServerChain p | ServerStrict p => p
  end.

Lemma verify_chain_fst p cs roots any st : fst (verify_chain p cs roots any st) = st.
Proof. unfold verify_chain. apply deref_fst. done. Qed.

(** C22: Whatever a verification function answers, the only certificates it adds
    to a pool are certificate authorities the peer presented whose SHA-256
    digest is the configured trusted fingerprint, and it changes no other
    configuration. *)
Theorem verification_trusts_only_fingerprint st f cfg cs :
  configs st !! config_of f = Some cfg →
  trust_step (CATrustedFingerprint cfg) (PeerCertificates cs) st (fst (run_verify f cs st)) ∧
  ∀ q, q ≠ config_of f → configs (fst (run_verify f cs st)) !! q = configs st !! q.
Proof.
  intros Hp.
  assert (Hchain : ∀ p roots any s, fst (verify_chain p cs roots any s) = s) by (intros; apply verify_chain_fst).
  assert (Hf : (∃ logger, fst (run_verify f cs st) = fst (trust_if_set (config_of f) logger cs st)) ∨
    fst (run_verify f cs st) = st).
  { destruct f as [p host logger|p logger|p logger|p|p]; cbn [run_verify config_of].
    1-3: left; exists logger; apply fst_bind_id; intros [] s.
    - destruct (PeerCertificates cs); [done|]. rewrite fst_bind_id; [apply Hchain|done].
    - destruct (PeerCertificates cs); [done|apply Hchain].
    - by apply deref_fst.
    - right. apply deref_fst. intros a s. destruct (PeerCertificates cs); [by case_match|apply Hchain].
    - right. by apply deref_fst. }
  destruct Hf as [[logger ->]| ->]; [by apply trust_if_set_step|]. split; [apply trust_step_refl|done].
Qed.
End facts.

(** ** A small [crypto/x509] for the witnesses
    Digests are the text itself; a chain is a leaf whose issuer, named by its
    key, is in the roots. *)
#[local] Instance toy : X509 := {|
  sha256_Sum s := s;
  cert_Verify leaf roots _ _ :=
    match filter (λ c, Raw c = RawSubjectPublicKeyInfo leaf) (default [] roots) with
    | [] => Err "unknown authority"
    | ca :: _ => Ok [[leaf; ca]]
    end;
  net_ParseIP _ := None
|}.

Definition ca_cert : Certificate := mkCertificate "CA" "CA" true "authority" [] [].
Definition leaf_cert : Certificate := mkCertificate "L" "CA" false "" ["*.example.com"] [].
Definition by_fingerprint : TLSConfig :=
  mkTLSConfig [] VerifyFull [] (Some 0%nat) None [] [] 0 0 [] "4341" "" true.
Definition one_config : tls_store := mkStore [[]] [by_fingerprint].
Definition full_chain : ConnectionState := mkConnectionState [leaf_cert; ca_cert] [].

Lemma by_fingerprint_pools : pools_ok one_config by_fingerprint.
Proof. intros l [= <-]. by eexists. Qed.

Lemma client_full_accepts_witness :
  ∃ st' t f, BuildModuleClientConfig defaults (Some 0%nat) "www.example.com" one_config = (st', Ok t) ∧
    VerifyConnection t = Some f ∧ InsecureSkipVerify t = true ∧ t_ServerName t = "www.example.com" ∧
    (snd (run_verify f full_chain st') = Ok tt ↔
     fingerprint_ok by_fingerprint ∧ ∃ leaf rest, PeerCertificates full_chain = leaf :: rest ∧
       chain_ok [] (trusted_roots one_config by_fingerprint full_chain) false leaf rest ∧
       verifyHostname net_ParseIP leaf "www.example.com" = Ok tt).
Proof.
  apply (client_full_accepts defaults one_config 0 by_fingerprint "www.example.com" full_chain);
    [reflexivity|apply by_fingerprint_pools|reflexivity|reflexivity].
Defined.

(** Strict verification with a pin, client certificates optional. *)
Definition strict_pinned : TLSConfig :=
  mkTLSConfig [] VerifyStrict [] None None [] [] 0 TLSClientAuthOptional ["CA"] "" "" false.
Definition strict_config : tls_store := mkStore [[]] [strict_pinned].

Lemma server_accepts_witness :
  ∃ t, BuildServerConfig defaults (Some 0%nat) "" strict_config = (strict_config, Ok t) ∧
    t_ClientAuth t = TLSClientAuthOptional ∧ t_ClientCAs t = None ∧
    (InsecureSkipVerify t = false ↔ VerifyStrict = VerifyStrict) ∧
    ∀ cs, accepts t cs strict_config ↔ server_takes strict_config strict_pinned cs.
Proof.
  apply (server_accepts defaults strict_config 0 strict_pinned ""); [reflexivity|discriminate].
Defined.

Lemma verification_trusts_only_fingerprint_witness :
  trust_step "4341" [leaf_cert; ca_cert] one_config
    (fst (run_verify (ClientFull 0 "www.example.com" true) full_chain one_config)) ∧
  ∀ q, q ≠ 0%nat →
    configs (fst (run_verify (ClientFull 0 "www.example.com" true) full_chain one_config)) !! q =
    configs one_config !! q.
Proof.
  apply (verification_trusts_only_fingerprint one_config (ClientFull 0 "www.example.com" true)
    by_fingerprint full_chain). reflexivity.
Defined.

(** The connection above is accepted, one for another host is not. *)
Example client_full_runs :
  snd (run_verify (ClientFull 0 "www.example.com" true) full_chain one_config) = Ok tt ∧
  snd (run_verify (ClientFull 0 "www.example.org" true) full_chain one_config) = Err (Ehost HostnameError) ∧
  snd (run_verify (ClientFull 0 "" true) (mkConnectionState [leaf_cert] []) one_config) =
    Err (Ex509 "unknown authority").
Proof. vm_compute. done. Qed.

(** ** Findings *)
(** The copy [BuildModuleClientConfig] takes is shallow and shares the pool:
    after a connection the pool of the original configuration holds the
    authority the peer presented. *)
Theorem copy_shares_pool :
  let '(st1, built) := BuildModuleClientConfig defaults (Some 0%nat) "www.example.com" one_config in
  match built with
  | Ok t =>
      match VerifyConnection t with
      | Some f =>
          let st2 := fst (run_verify f full_chain st1) in
          pool_of one_config (RootCAs by_fingerprint) = Some [] ∧
          pool_of st2 (RootCAs by_fingerprint) = Some [ca_cert]
      | None => False
      end
  | _ => False
  end.
Proof. vm_compute. done. Qed.

(** With verification off, a configuration without a logger cannot be used. *)
Theorem VerifyNone_needs_logger :
  snd (ToConfig defaults (Some 0%nat) (mkStore [] [with_Verification VerifyNone "h"])) = Panic PNilPointer.
Proof. vm_compute. done. Qed.
