(* ===== verification/Opt.v ===== *)
(** * Package [opt]: optional numbers

    opt.go and format_types.go.  [Uint] arithmetic is that of [uint64]; the
    calls [Fold] makes on a structform visitor are the events below. *)
From Stdlib Require Import SpecFloat.
From S2P Require Import Prelude.

Open Scope Z_scope.

(** The calls on the visitor; their errors are dropped. *)
Inductive fold_event := FoldInt (i : Z) | FoldUint64 (u : Z) | FoldFloat64 (f : spec_float) | FoldNil.

(** ** Int *)
Record Int := mkInt { int_exists : bool; int_value : Z }.

Definition NewIntNone : Int := mkInt false 0.
Definition IntWith (i : Z) : Int := mkInt true i.
Definition Int_IsZero (o : Int) : bool := negb (int_exists o).
Definition Int_Exists (o : Int) : bool := int_exists o.
Definition Int_ValueOr (o : Int) (i : Z) : Z := if int_exists o then int_value o else i.
Definition Int_Fold (o : Int) : list fold_event :=
  if int_exists o then [FoldInt (int_value o)] else [FoldNil].

(** ** Uint *)
Record Uint := mkUint { uint_exists : bool; uint_value : Z }.

Definition NewUintNone : Uint := mkUint false 0.
Definition UintWith (i : Z) : Uint := mkUint true i.
Definition Uint_IsZero (o : Uint) : bool := negb (uint_exists o).
Definition Uint_Exists (o : Uint) : bool := uint_exists o.
Definition Uint_ValueOr (o : Uint) (i : Z) : Z := if uint_exists o then uint_value o else i.

Definition MultUint64OrNone (o : Uint) (i : Z) : Uint :=
  if negb (uint_exists o) then o
  else if i =? 0 then mkUint false 0
  else mkUint true (wrapu64 (uint_value o * i)).

Definition SubtractOrNone (o i : Uint) : Uint :=
  if negb (uint_exists o) || negb (Uint_Exists i) then o
  else if Uint_ValueOr i 0 >? uint_value o then mkUint false 0
  else mkUint true (wrapu64 (uint_value o - Uint_ValueOr i 0)).

Fixpoint sum_loop (opts : list Uint) (sum : Z) : Z :=
  match opts with
  | [] => sum
  | opt :: opts' => sum_loop opts' (wrapu64 (sum + Uint_ValueOr opt 0))
  end.
Definition SumOptUint (opts : list Uint) : Z := sum_loop opts 0.

Definition Uint_Fold (o : Uint) : list fold_event :=
  if uint_exists o then [FoldUint64 (uint_value o)] else [FoldNil].

(** ** Float *)
Record Float := mkFloat { float_exists : bool; float_value : spec_float }.

Definition NewFloatNone : Float := mkFloat false (S754_zero false).
Definition FloatWith (f : spec_float) : Float := mkFloat true f.
Definition Float_IsZero (o : Float) : bool := negb (float_exists o).
Definition Float_Exists (o : Float) : bool := float_exists o.
Definition Float_ValueOr (o : Float) (f : spec_float) : spec_float :=
  if float_exists o then float_value o else f.
Definition Float_Fold (o : Float) : list fold_event :=
  if float_exists o then [FoldFloat64 (float_value o)] else [FoldNil].

(** ** format_types.go *)
Record BytesOpt := mkBytesOpt { bo_Bytes : Uint }.
Definition BytesOpt_IsZero (o : BytesOpt) : bool := Uint_IsZero (bo_Bytes o).
Record PctOpt := mkPctOpt { po_Pct : Float }.
Definition PctOpt_IsZero (o : PctOpt) : bool := Float_IsZero (po_Pct o).

(** ** Properties *)
Definition uint_wf (o : Uint) : Prop := in_u64 (uint_value o) ∧ (uint_exists o = false → uint_value o = 0).

(** What a [Uint] stands for. *)
Definition uint_opt (o : Uint) : option Z := if uint_exists o then Some (uint_value o) else None.

Lemma uint_wf_none : uint_wf (mkUint false 0).
Proof. split; [unfold in_u64, two64; simpl; lia|done]. Qed.

(** Every operation returns a 64-bit value that is zero when there is none,
    and computes on the optional numbers: multiplication is modulo 2^64 and
    gives none for a zero factor; a subtraction that would be negative gives
    none and never wraps around; an absent subtrahend changes nothing. *)
Theorem uint_operations o i n : uint_wf o → uint_wf i → in_u64 n →
  (uint_wf (MultUint64OrNone o n) ∧ uint_wf (SubtractOrNone o i) ∧ uint_wf (UintWith n) ∧ uint_wf NewUintNone) ∧
  uint_opt (MultUint64OrNone o n) =
    (v ← uint_opt o; if decide (n = 0) then None else Some ((v * n) mod two64)) ∧
  uint_opt (SubtractOrNone o i) =
    (v ← uint_opt o; match uint_opt i with
                     | None => Some v
                     | Some w => if decide (w ≤ v) then Some (v - w) else None
                     end).
Proof.
  intros [Ho Ho0] [Hi Hi0] Hn. destruct o as [oe ov], i as [ie iv]; simpl in *.
  assert (Hsub : iv ≤ ov → wrapu64 (ov - iv) = ov - iv) by (intros; apply wrapu64_small; unfold in_u64 in *; lia).
  unfold MultUint64OrNone, SubtractOrNone, Uint_ValueOr, Uint_Exists, uint_opt; simpl. split; conjs.
  - destruct oe; simpl; [destruct (Z.eqb_spec n 0); [apply uint_wf_none|]|by split].
    split; simpl; [apply wrapu64_range|done].
  - destruct oe, ie; simpl; try by split. destruct (Z.gtb_spec iv ov); [apply uint_wf_none|].
    split; simpl; [apply wrapu64_range|done].
  - by split.
  - apply uint_wf_none.
  - destruct oe; [|done]. simpl. destruct (Z.eqb_spec n 0); case_decide; done.
  - destruct oe, ie; simpl; try done. destruct (Z.gtb_spec iv ov); case_decide; try lia; simpl; [done|].
    by rewrite Hsub.
Qed.

Lemma uint_operations_witness :
  uint_opt (MultUint64OrNone (UintWith (2 ^ 63)) 3) = Some ((2 ^ 63 * 3) mod two64) ∧
  uint_opt (SubtractOrNone (UintWith 3) (UintWith 5)) = None.
Proof.
  assert (Hw : ∀ v, in_u64 v → uint_wf (UintWith v)) by (intros v Hv; by split).
  assert (Hb : in_u64 (2 ^ 63) ∧ in_u64 3 ∧ in_u64 5) by (unfold in_u64, two64; lia).
  split.
  - apply (uint_operations (UintWith (2 ^ 63)) (UintWith 5) 3); [apply Hw| apply Hw|]; apply Hb.
  - apply (uint_operations (UintWith 3) (UintWith 5) 3); [apply Hw|apply Hw|]; apply Hb.
Defined.

Lemma sum_loop_mod opts s :
  sum_loop opts s mod two64 = (s + foldr Z.add 0 (map (λ o, Uint_ValueOr o 0) opts)) mod two64.
Proof.
  revert s. induction opts as [|o opts IH]; intros s; simpl; [by rewrite Z.add_0_r|].
  rewrite IH. unfold wrapu64. rewrite Zplus_mod_idemp_l. f_equal. lia.
Qed.

Lemma sum_loop_range opts s : in_u64 s → in_u64 (sum_loop opts s).
Proof. revert s. induction opts as [|o opts IH]; intros s Hs; simpl; [done|]. apply IH, wrapu64_range. Qed.

(** [SumOptUint] is the sum of the numbers there are, modulo 2^64. *)
Theorem SumOptUint_spec opts :
  SumOptUint opts = foldr Z.add 0 (omap uint_opt opts) mod two64.
Proof.
  assert (Hsum : foldr Z.add 0 (map (λ o, Uint_ValueOr o 0) opts) = foldr Z.add 0 (omap uint_opt opts)).
  { induction opts as [|[[] v] opts IH]; simpl; [done|by rewrite IH|exact IH]. }
  assert (Hr : in_u64 (SumOptUint opts)) by (apply sum_loop_range; unfold in_u64, two64; lia).
  rewrite <- (Z.mod_small (SumOptUint opts) two64) by exact Hr.
  unfold SumOptUint. rewrite sum_loop_mod, Hsum. done.
Qed.
