(* ===== verification/StrSet.v ===== *)
(** * Package [str]: sets of strings

    stringset.go.  A set is a Go map with empty values, [None] the nil map:
    reading a nil set is allowed, adding to it panics.  The order in which Go
    visits a map is the parameter [MapOrder]. *)
From S2P Require Import Prelude GoStrings.

Open Scope string_scope.

Definition Set_ : Type := option (gmap string unit).

Definition MakeSet (strings : list string) : Set_ :=
  match strings with
  | [] => None
  | _ => Some (foldl (λ m s, <[s := tt]> m) ∅ strings)
  end.

Definition Add (s : string) (set : Set_) : res unit Set_ :=
  match set with Some m => Ok (Some (<[s := tt]> m)) | None => Panic PNilMap end.

Definition Del (s : string) (set : Set_) : Set_ := delete s <$> set.

Definition Count (set : Set_) : nat := match set with Some m => size m | None => 0 end.

Definition Has (set : Set_) (s : string) : bool :=
  match set with Some m => bool_decide (is_Some (m !! s)) | None => false end.

Section order.
Context `{MapOrder} `{SliceSort}.

Definition range (set : Set_) : list string :=
  match set with Some m => (map_order m).*1 | None => [] end.

Definition Equals (set anotherSet : Set_) : bool :=
  if negb (bool_decide (Count set = Count anotherSet)) then false
  else forallb (Has anotherSet) (range set).

(** [sort.Strings] *)
Definition ToSlice (set : Set_) : list string := sort_slice String.ltb (range set).
End order.

(** ** Properties *)
(** The elements, nil and empty alike. *)
Definition elems (set : Set_) : gmap string unit := default ∅ set.

#[global] Instance Set_elem_of : ElemOf string Set_ := λ s set, is_Some (elems set !! s).

Section facts.
Context `{MapOrder} `{SliceSort}.
Implicit Types (set : Set_) (s : string).

Lemma Has_spec set s : Has set s = true ↔ s ∈ set.
Proof.
  unfold Has, elem_of, Set_elem_of, elems. destruct set as [m|]; simpl; [apply bool_decide_eq_true|].
  rewrite lookup_empty. split; [done|by intros []].
Qed.

Lemma elem_of_range set s : s ∈ range set ↔ s ∈ set.
Proof.
  unfold elem_of at 2, Set_elem_of, elems. destruct set as [m|]; simpl.
  - rewrite list_elem_of_fmap. split.
    + intros ([k []] & -> & Hk%elem_of_map_order). by eexists.
    + intros [[] Hs]. exists (s, tt). by rewrite elem_of_map_order.
  - rewrite lookup_empty. split; [by intros ?%not_elem_of_nil|by intros []].
Qed.

Lemma NoDup_range set : NoDup (range set).
Proof. destruct set; [apply NoDup_map_order|constructor]. Qed.

Lemma unit_map_subset_size (m1 m2 : gmap string unit) :
  m1 ⊆ m2 → (size m2 ≤ size m1)%nat → m1 = m2.
Proof.
  intros Hsub Hsz. destruct (decide (m1 = m2)) as [|Hne]; [done|].
  exfalso. assert (Hss : m1 ⊂ m2) by (split; [done|]; intros Hsup; by apply Hne, map_subseteq_po).
  apply map_subset_size in Hss. lia.
Qed.

(** [Equals] compares sets of strings: it answers true exactly when both
    hold the same strings, in whatever order the map is visited, and a nil set
    equals an empty one. *)
Theorem Equals_spec set1 set2 : Equals set1 set2 = true ↔ ∀ s, s ∈ set1 ↔ s ∈ set2.
Proof.
  unfold Equals. assert (Hc : ∀ set, Count set = size (elems set)) by (intros [m|]; done).
  rewrite !Hc. case_bool_decide as Hsz; simpl.
  - rewrite forallb_forall. split; intros Heq.
    + assert (Hsub : elems set1 ⊆ elems set2).
      { apply map_subseteq_spec. intros k [] Hk. specialize (Heq k). rewrite Has_spec in Heq.
        destruct Heq as [[] Hv]; [apply list_elem_of_In, elem_of_range; by eexists|done]. }
      assert (He : elems set1 = elems set2) by (apply unit_map_subset_size; [done|lia]).
      intros s. unfold elem_of, Set_elem_of. by rewrite He.
    + intros s Hs. apply list_elem_of_In, elem_of_range, Heq in Hs. by apply Has_spec.
  - split; [done|]. intros Heq. destruct Hsz. f_equal. apply map_eq. intros s.
    specialize (Heq s). unfold elem_of, Set_elem_of in Heq.
    destruct (elems set1 !! s) as [[]|], (elems set2 !! s) as [[]|]; try done.
    + destruct Heq as [[] _]; [by eexists|done].
    + destruct Heq as [_ []]; [by eexists|done].
Qed.

Lemma elem_of_foldl_insert l (m : gmap string unit) s :
  is_Some (foldl (λ m s, <[s := tt]> m) m l !! s) ↔ s ∈ l ∨ is_Some (m !! s).
Proof.
  revert m. induction l as [|x l IH]; intros m; simpl; [set_solver|].
  rewrite IH, elem_of_cons, lookup_insert_is_Some'. naive_solver.
Qed.

(** [String.ltb] is the strict order of [String.leb]. *)
Lemma ltb_false_leb a b : String.ltb a b = false ↔ String.leb b a = true.
Proof.
  unfold String.ltb, String.leb. rewrite (String.compare_antisym a b). by destruct (b ?= a)%string.
Qed.

(** A set made from strings holds those strings; adding and removing change
    the membership of that string only; [ToSlice] returns the elements in
    strictly increasing order, each once. *)
Theorem set_operations l set set' s t :
  (s ∈ MakeSet l ↔ s ∈ l) ∧
  (Add t set = Ok set' → (s ∈ set' ↔ s = t ∨ s ∈ set)) ∧
  (s ∈ Del t set ↔ s ≠ t ∧ s ∈ set) ∧
  (s ∈ ToSlice set ↔ s ∈ set) ∧
  StronglySorted (λ a b, String.ltb a b = true) (ToSlice set).
Proof.
  conjs.
  - destruct l as [|x l]; [unfold elem_of at 1, Set_elem_of; simpl; rewrite lookup_empty|].
    + split; [by intros []|by intros ?%not_elem_of_nil].
    + pose proof (elem_of_foldl_insert (x :: l) ∅ s) as Hf. rewrite lookup_empty in Hf.
      split; [intros [?|[? ?]]%Hf; done|]. intros Hs. apply Hf. by left.
  - destruct set as [m|]; [|done]. intros [= <-]. unfold elem_of, Set_elem_of; simpl.
    rewrite lookup_insert_is_Some'. naive_solver.
  - unfold elem_of, Set_elem_of. destruct set as [m|]; simpl; [|rewrite lookup_empty; naive_solver].
    rewrite lookup_delete_is_Some. naive_solver.
  - unfold ToSlice. rewrite (sort_slice_perm String.ltb). apply elem_of_range.
  - assert (Hs : StronglySorted (λ x y, String.ltb y x = false) (ToSlice set)).
    { apply sort_slice_sorted.
      - intros x y z Hxy Hyz. apply ltb_false_leb in Hxy, Hyz. apply ltb_false_leb. by eapply leb_trans.
      - intros x y. unfold String.ltb. rewrite (String.compare_antisym x y). by destruct (y ?= x)%string. }
    assert (Hnd : NoDup (ToSlice set)) by (unfold ToSlice; rewrite (sort_slice_perm String.ltb); apply NoDup_range).
    induction Hs as [|x l' Hs IH Hx]; [constructor|]. apply NoDup_cons in Hnd as [Hn Hnd].
    constructor; [by apply IH|]. rewrite Forall_forall in Hx |- *. intros y Hy.
    specialize (Hx y Hy). simpl in Hx. unfold String.ltb in *. rewrite (String.compare_antisym x y).
    destruct (y ?= x)%string eqn:E; [|done|done]. apply String.compare_eq_iff in E. congruence.
Qed.
End facts.

Lemma set_operations_witness :
  (∀ s, s ∈ MakeSet ["b"; "a"; "b"] ↔ s ∈ ["b"; "a"; "b"]) ∧
  (∀ set', Add "c" (MakeSet ["a"]) = Ok set' → ("c" ∈ set' ↔ "c" = "c" ∨ "c" ∈ MakeSet ["a"])) ∧
  ToSlice (MakeSet ["b"; "a"; "b"]) = ["a"; "b"].
Proof.
  split; [|split].
  - intros s. apply (set_operations ["b"; "a"; "b"] None None s "").
  - intros set'. apply (set_operations [] (MakeSet ["a"]) set' "c" "c").
  - reflexivity.
Defined.
