(* ===== verification/FileWatcher.v ===== *)
(** * Package [filewatcher]: files that changed since the last scan

    filewatcher.go.  Instants are nanoseconds since the Unix epoch; [stat] is
    what [os.Stat] says of a path during the scan, its modification time or an
    error.  The hash is FNV-1 on 64 bits, as [hash/fnv] computes it. *)
From S2P Require Import Prelude GoStrings GoUtf8.

Open Scope string_scope.
Open Scope list_scope.
Open Scope Z_scope.

(** ** fnv.New64 *)
Definition offset64 : Z := 14695981039346656037.
Definition prime64 : Z := 1099511628211.

Fixpoint fnv_Write (h : Z) (bytes : list Z) : Z :=
  match bytes with
  | [] => h
  | b :: bytes' => fnv_Write (Z.lxor (wrapu64 (h * prime64)) b) bytes'
  end.
Definition Sum64 (bytes : list Z) : Z := fnv_Write offset64 bytes.

(** [binary.Write(h, binary.LittleEndian, u)] *)
Fixpoint little_endian (n : nat) (u : Z) : list Z :=
  match n with O => [] | S n' => u mod 256 :: little_endian n' (u / 256) end.

Fixpoint bytes_of (s : string) : list Z :=
  match s with "" => [] | String a r => byte a :: bytes_of r end.

Definition hashString (s : string) : Z := Sum64 (bytes_of s).

Definition hash_next (u : Z) (f : string) : Z :=
  Sum64 (little_endian 8 u ++ little_endian 8 (hashString f)).
Definition hash_loop (u : Z) (files : list string) : Z := foldl hash_next u files.

(** Writing to a hash never fails. *)
Definition hash (files : list string) : res unit Z := Ok (hash_loop 0 files).

(** ** The watcher *)
Record FileWatcher := mkWatcher { files : list string; lastScan : Z; lastHash : Z }.

Definition second : Z := 1000000000.

(** [time.Time{}] *)
Definition zero_time : Z := -62135596800 * second.

(** [t.Truncate(time.Second)] *)
Definition truncate_second (t : Z) : Z := t - t mod second.

Definition New (paths : list string) : FileWatcher := mkWatcher paths zero_time 0.

(** The loop of [Scan]. *)
Fixpoint scan_loop (stat : string → option Z) (last : Z) (paths : list string)
    (updatedFiles : bool) (found : list string) : bool * list string :=
  match paths with
  | [] => (updatedFiles, found)
  | path :: paths' =>
      match stat path with
      | None => scan_loop stat last paths' updatedFiles found
      | Some modTime =>
          scan_loop stat last paths'
            (if truncate_second (last - second) <? modTime then true else updatedFiles) (found ++ [path])
      end
  end.

Definition Scan (now : Z) (stat : string → option Z) : SE FileWatcher unit (list string * bool) := λ w,
  let '(updatedFiles, found) := scan_loop stat (lastScan w) (files w) false [] in
  match hash found with
  | Ok h =>
      (mkWatcher (files w) now h,
       if negb updatedFiles && (h =? lastHash w) then Ok (found, false) else Ok (found, true))
  | Err e => (mkWatcher (files w) now (lastHash w), Ok (found, true))
  | Panic p => (w, Panic p)
  | OutOfFuel => (w, OutOfFuel)
  end.

(** ** Properties *)
Definition existing (stat : string → option Z) (paths : list string) : list string :=
  filter (λ p, is_Some (stat p)) paths.

Definition recent (stat : string → option Z) (last : Z) (p : string) : Prop :=
  ∃ t, stat p = Some t ∧ truncate_second (last - second) < t.

Lemma scan_loop_spec stat last paths u found :
  let '(u', found') := scan_loop stat last paths u found in
  (u' = true ↔ u = true ∨ ∃ p, p ∈ paths ∧ recent stat last p) ∧ found' = found ++ existing stat paths.
Proof.
  unfold existing, recent. revert u found. induction paths as [|p paths IH]; intros u found; cbn [scan_loop].
  { split; [|by rewrite app_nil_r]. split; [by left|]. intros [?|(? & ?%not_elem_of_nil & _)]; done. }
  rewrite filter_cons.
  destruct (stat p) as [t|] eqn:Hp.
  - rewrite decide_True by done.
    specialize (IH (if truncate_second (last - second) <? t then true else u) (found ++ [p])).
    destruct (scan_loop _ _ _ _ _) as [u' found']. destruct IH as [IH1 IH2].
    split; [|by rewrite IH2, <- app_assoc]. rewrite IH1. setoid_rewrite elem_of_cons.
    destruct (Z.ltb_spec (truncate_second (last - second)) t); [naive_solver|]. split; [naive_solver|].
    intros [?|(q & [->|Hq] & t' & Ht & Hlt)]; [by left|simplify_eq; lia|right; eauto].
  - rewrite decide_False by (by intros []).
    specialize (IH u found). destruct (scan_loop _ _ _ _ _) as [u' found']. destruct IH as [IH1 IH2].
    split; [|done]. rewrite IH1. setoid_rewrite elem_of_cons. naive_solver.
Qed.

(** A scan never fails, returns the files that exist, and remembers the time
    and the hash. *)
Lemma Scan_spec now stat w :
  ∃ changed, Scan now stat w =
    (mkWatcher (files w) now (hash_loop 0 (existing stat (files w))), Ok (existing stat (files w), changed)) ∧
    (changed = false ↔
      hash_loop 0 (existing stat (files w)) = lastHash w ∧
      ∀ p, p ∈ files w → ¬ recent stat (lastScan w) p).
Proof.
  unfold Scan. pose proof (scan_loop_spec stat (lastScan w) (files w) false []) as Hs.
  destruct (scan_loop _ _ _ _ _) as [u found]. destruct Hs as [Hu ->]. cbn [hash app].
  exists (negb (negb u && (hash_loop 0 (existing stat (files w)) =? lastHash w))). split.
  { destruct (negb u && _); reflexivity. }
  rewrite negb_false_iff, andb_true_iff, negb_true_iff, Z.eqb_eq.
  destruct u; [split; [by intros []|]|naive_solver].
  intros [_ Hno]. exfalso. destruct (proj1 Hu eq_refl) as [?|(p & Hp & Hr)]; [done|]. by eapply Hno.
Qed.

Lemma truncate_second_le t : truncate_second t ≤ t.
Proof. unfold truncate_second, second. pose proof (Z.mod_pos_bound t 1000000000). lia. Qed.

(** Of two scans in a row, the second reports no change only if every
    watched file was last modified more than a second before the first scan,
    and the files that exist are the same as then, up to a collision of their
    hashes. *)
Theorem Scan_misses_no_change t1 stat1 t2 stat2 w :
  ∃ w1 w2 r1 changed,
    Scan t1 stat1 w = (w1, r1) ∧
    Scan t2 stat2 w1 = (w2, Ok (existing stat2 (files w), changed)) ∧
    (changed = false →
       hash_loop 0 (existing stat1 (files w)) = hash_loop 0 (existing stat2 (files w)) ∧
       ∀ p t, p ∈ files w → stat2 p = Some t → t ≤ t1 - second).
Proof.
  destruct (Scan_spec t1 stat1 w) as (c1 & H1 & _). revert H1. set (w1 := mkWatcher _ _ _). intros H1.
  destruct (Scan_spec t2 stat2 w1) as (c2 & H2 & Hc2). eexists w1, _, _, c2. split; [exact H1|]. split; [exact H2|].
  intros Hc. apply Hc2 in Hc as [Hh Hno]. split; [by symmetry|]. intros p t Hp Ht.
  destruct (Z.le_gt_cases t (t1 - second)) as [|Hgt]; [done|]. exfalso. apply (Hno p Hp).
  exists t. split; [exact Ht|]. pose proof (truncate_second_le (t1 - second)). cbn [lastScan w1]. lia.
Qed.

(** The first scan reports a change as soon as a file exists, or none. *)
Lemma first_Scan paths now stat p t : p ∈ paths → stat p = Some t → zero_time < t →
  ∃ w, Scan now stat (New paths) = (w, Ok (existing stat paths, true)).
Proof.
  intros Hp Ht Hlt. destruct (Scan_spec now stat (New paths)) as ([] & Hr & Hc); [by eexists|].
  exfalso. destruct (proj1 Hc eq_refl) as [_ Hno]. apply (Hno p Hp). exists t. split; [done|].
  pose proof (truncate_second_le (lastScan (New paths) - second)). simpl in *. unfold second in *. lia.
Qed.

(** Test vectors of FNV-1. *)
Example fnv_vectors : hashString "" = 14695981039346656037 ∧ hashString "a" = 12638153115695167422.
Proof. vm_compute. done. Qed.

Example watcher_run :
  let stat0 p := if String.eqb p "a" then Some 0 else None in
  let stat1 p := Some 0 in
  let '(w1, _) := Scan (100 * second) stat0 (New ["a"; "b"]) in
  let '(w2, r2) := Scan (200 * second) stat0 w1 in
  let '(w3, r3) := Scan (300 * second) stat1 w2 in
  r2 = Ok (["a"], false) ∧ r3 = Ok (["a"; "b"], true).
Proof. vm_compute. done. Qed.
