(* ===== verification/Paths.v ===== *)
(** * Package [paths]: configured directories

    paths.go, with the functions of [path/filepath] it uses, for Unix.  The
    object is its own state; [os.MkdirAll] is a parameter of the one operation
    that calls it. *)
From S2P Require Import Prelude GoStrings.

Open Scope string_scope.
Open Scope list_scope.

(** ** path/filepath *)
Definition IsAbs (path : string) : bool := HasPrefix path "/".

(** The elements of a cleaned path, innermost first: empty elements and ["."]
    are dropped, [".."] removes the element before it. *)
Definition clean_step (rooted : bool) (out : list string) (elem : string) : list string :=
  if decide (elem = "" ∨ elem = ".") then out
  else if decide (elem = "..") then
    match out with
    | [] => if rooted then [] else [".."]
    | top :: rest => if decide (top = "..") then ".." :: out else rest
    end
  else elem :: out.

Definition clean_elems (rooted : bool) (elems : list string) : list string :=
  rev (foldl (clean_step rooted) [] elems).

Definition Clean (path : string) : string :=
  if decide (path = "") then "."
  else
    let rooted := IsAbs path in
    let elems := clean_elems rooted (Split path "/") in
    if rooted then "/" +:+ Join elems "/"
    else match elems with [] => "." | _ => Join elems "/" end.

Fixpoint filepath_Join (elems : list string) : string :=
  match elems with
  | [] => ""
  | e :: elems' => if decide (e = "") then filepath_Join elems' else Clean (Join elems "/")
  end.

(** ** paths.go *)
Record Path := mkPath { Home : string; Config : string; Data : string; Logs : string }.

(** A [FileType] is any string; these are the constants. *)
Definition FileType : Type := string.
Definition home_type : FileType := "home".
Definition config_type : FileType := "config".
Definition data_type : FileType := "data".
Definition logs_type : FileType := "logs".

Definition New : Path := mkPath "" "" "" "".

Inductive paths_error := Emkdir (path : string) (msg : string).

(** [cfg] is nil when it is [None]. *)
Definition initPaths (cfg : option Path) : SE Path paths_error unit :=
  match cfg with
  | None => panics PNilPointer
  | Some cfg =>
      set_store cfg ≫= λ _,
      modify (λ p, if decide (Config p = "") then mkPath (Home p) (Home p) (Data p) (Logs p) else p) ≫= λ _,
      modify (λ p, if decide (Data p = "")
                   then mkPath (Home p) (Config p) (filepath_Join [Home p; "data"]) (Logs p) else p) ≫= λ _,
      modify (λ p, if decide (Logs p = "")
                   then mkPath (Home p) (Config p) (Data p) (filepath_Join [Home p; "logs"]) else p)
  end.

(** [mkdir] is the answer of [os.MkdirAll(path, 0770)]: an error or none. *)
Definition InitPaths (mkdir : string → option string) (cfg : option Path) : SE Path paths_error unit :=
  initPaths cfg ≫= λ _,
  p ← get_store;
  match mkdir (Data p) with Some err => fail (Emkdir (Data p) err) | None => mret tt end.

Definition Resolve (p : Path) (fileType : FileType) (path : string) : res paths_error string :=
  if IsAbs path then Ok path
  else if decide (fileType = home_type) then Ok (filepath_Join [Home p; path])
  else if decide (fileType = config_type) then Ok (filepath_Join [Config p; path])
  else if decide (fileType = data_type) then Ok (filepath_Join [Data p; path])
  else if decide (fileType = logs_type) then Ok (filepath_Join [Logs p; path])
  else Panic (PExplicit ("Unknown file type: " +:+ fileType)).

Definition Path_String (p : Path) : string :=
  "Home path: [" +:+ Home p +:+ "] Config path: [" +:+ Config p +:+ "] Data path: [" +:+ Data p +:+
  "] Logs path: [" +:+ Logs p +:+ "]".

(** ** Cleaned paths *)
(** Elements a cleaned path is made of, innermost first. *)
Definition clean_list (rooted : bool) (out : list string) : Prop :=
  ∃ names ups, out = names ++ replicate ups ".." ∧ (rooted = true → ups = 0%nat) ∧
    Forall (λ e, e ≠ "" ∧ e ≠ "." ∧ e ≠ ".." ∧ lacks "/" e = true) names.

Lemma clean_step_list rooted out e : clean_list rooted out → lacks "/" e = true →
  clean_list rooted (clean_step rooted out e).
Proof.
  intros (names & ups & -> & Hr & Hn) He. unfold clean_step.
  case_decide as Hs; [by exists names, ups|]. case_decide as Hd.
  - destruct names as [|n names].
    + destruct ups as [|ups]; simpl.
      * destruct rooted; [by exists [], 0%nat|]. by exists [], 1%nat.
      * exists [], (S (S ups)). conjs; [done| |constructor]. by intros ?%Hr.
    + apply Forall_cons in Hn as [(Hn0 & Hn1 & Hn2 & _) Hn]. simpl. rewrite decide_False by done.
      by exists names, ups.
  - exists (e :: names), ups. conjs; try done. constructor; [|done]. naive_solver.
Qed.

Lemma clean_foldl rooted elems out : clean_list rooted out → Forall (λ e, lacks "/" e = true) elems →
  clean_list rooted (foldl (clean_step rooted) out elems).
Proof.
  revert out. induction elems as [|e elems IH]; intros out Ho He; [done|]. apply Forall_cons in He as [He Hes].
  simpl. apply IH; [by apply clean_step_list|done].
Qed.

(** A cleaned list is left as it is. *)
Lemma clean_again rooted out : clean_list rooted out → foldl (clean_step rooted) [] (rev out) = out.
Proof.
  intros (names & ups & -> & Hr & Hn). rewrite rev_app_distr, foldl_app.
  assert (Hups : foldl (clean_step rooted) [] (rev (replicate ups "..")) = replicate ups "..").
  { destruct rooted; [by rewrite (Hr eq_refl)|]. clear. induction ups as [|ups IH]; [done|].
    cbn [replicate rev]. rewrite foldl_app, IH. simpl. by destruct ups. }
  rewrite Hups. clear Hr Hups. induction Hn as [|n names (H0 & H1 & H2 & _) Hn IH]; [done|].
  cbn [rev]. rewrite foldl_app, IH. simpl. unfold clean_step. rewrite decide_False by naive_solver.
  by rewrite decide_False by done.
Qed.

Lemma clean_elems_list rooted path :
  ∃ out, clean_elems rooted (Split path "/") = rev out ∧ clean_list rooted out.
Proof.
  eexists. split; [reflexivity|]. apply clean_foldl; [by exists [], 0%nat|]. apply Split_pieces_lack.
Qed.

Lemma clean_list_lacks rooted out : clean_list rooted out → Forall (λ e, lacks "/" e = true ∧ e ≠ "") (rev out).
Proof.
  intros (names & ups & -> & _ & Hn). apply Forall_rev, Forall_app. split.
  - eapply Forall_impl; [exact Hn|]. naive_solver.
  - apply Forall_replicate. done.
Qed.

Lemma Join_rel elems : elems ≠ [] → Forall (λ e, lacks "/" e = true ∧ e ≠ "") elems →
  Join elems "/" ≠ "" ∧ IsAbs (Join elems "/") = false.
Proof.
  destruct elems as [|e elems]; [done|]. intros _ [[He Hne] _]%Forall_cons.
  destruct e as [|a e]; [done|]. simpl in He. apply andb_true_iff in He as [Ha _]. apply negb_true_iff in Ha.
  assert (Hshape : ∃ r, Join (String a e :: elems) "/" = String a r) by (destruct elems; eexists; reflexivity).
  destruct Hshape as [r ->]. split; [done|]. unfold IsAbs. simpl. by rewrite Ha.
Qed.

Lemma Split_Join_slash elems : elems ≠ [] → Forall (λ e, lacks "/" e = true ∧ e ≠ "") elems →
  Split (Join elems "/") "/" = elems.
Proof. intros Hne Hl. apply Split_Join; [done|]. eapply Forall_impl; [exact Hl|]. naive_solver. Qed.

Lemma IsAbs_slash s : IsAbs ("/" +:+ s) = true.
Proof. unfold IsAbs. simpl. apply HasPrefix_nil. Qed.

(** Cleaning keeps a path absolute or relative. *)
Lemma IsAbs_Clean path : path ≠ "" → IsAbs (Clean path) = IsAbs path.
Proof.
  intros Hne. unfold Clean. rewrite decide_False by done. destruct (IsAbs path); [apply IsAbs_slash|].
  destruct (clean_elems_list false path) as (out & -> & Hout). apply clean_list_lacks in Hout.
  destruct (rev out) as [|e l] eqn:Hrev; [done|]. by apply Join_rel.
Qed.

(** Cleaning a cleaned path changes nothing. *)
Lemma Clean_idempotent path : Clean (Clean path) = Clean path.
Proof.
  unfold Clean at 2 3. case_decide; [done|].
  destruct (clean_elems_list (IsAbs path) path) as (out & -> & Hout).
  pose proof (clean_again _ _ Hout) as Hagain. apply clean_list_lacks in Hout. destruct (IsAbs path).
  - unfold Clean. rewrite decide_False by done. rewrite IsAbs_slash. f_equal.
    change (Split ("/" +:+ Join (rev out) "/") "/") with ("" :: Split (Join (rev out) "/") "/").
    unfold clean_elems. cbn [foldl]. change (clean_step true [] "") with (@nil string).
    destruct (rev out) as [|e l] eqn:Hrev; [reflexivity|]. rewrite Split_Join_slash by done. by rewrite Hagain, Hrev.
  - destruct (rev out) as [|e l] eqn:Hrev; [done|]. destruct (Join_rel (e :: l)) as [Hn Ha]; [done|done|].
    unfold Clean. rewrite decide_False by done. rewrite Ha. rewrite Split_Join_slash by done.
    unfold clean_elems. by rewrite Hagain, Hrev.
Qed.

Lemma Join_base_abs base path : IsAbs base = true → IsAbs (filepath_Join [base; path]) = true.
Proof.
  intros Hb. destruct base as [|a base]; [done|]. cbn [filepath_Join]. rewrite decide_False by done.
  rewrite IsAbs_Clean by done. revert Hb. unfold IsAbs. simpl. by rewrite !HasPrefix_nil.
Qed.

(** When the home directory is absolute and every other directory is empty
    or absolute, the directories are absolute after [InitPaths], the defaults
    being under home, and [Resolve] of a known file type answers an absolute
    path: the path itself when it is absolute. *)
Theorem InitPaths_Resolve mkdir cfg p0 ft path :
  IsAbs (Home cfg) = true → Forall (λ d, d = "" ∨ IsAbs d = true) [Config cfg; Data cfg; Logs cfg] →
  mkdir (if decide (Data cfg = "") then filepath_Join [Home cfg; "data"] else Data cfg) = None →
  ft ∈ [home_type; config_type; data_type; logs_type] →
  ∃ p q, InitPaths mkdir (Some cfg) p0 = (p, Ok tt) ∧
    Home p = Home cfg ∧
    Config p = (if decide (Config cfg = "") then Home cfg else Config cfg) ∧
    Data p = (if decide (Data cfg = "") then filepath_Join [Home cfg; "data"] else Data cfg) ∧
    Logs p = (if decide (Logs cfg = "") then filepath_Join [Home cfg; "logs"] else Logs cfg) ∧
    Resolve p ft path = Ok q ∧ IsAbs q = true ∧ (IsAbs path = true → q = path).
Proof.
  intros Hh Hd Hmk Hft. destruct cfg as [h c d l]; cbn [Home Config Data Logs] in *.
  set (p := mkPath h (if decide (c = "") then h else c) (if decide (d = "") then filepath_Join [h; "data"] else d)
    (if decide (l = "") then filepath_Join [h; "logs"] else l)).
  assert (Hp : Forall (λ x, IsAbs x = true) [Home p; Config p; Data p; Logs p]).
  { apply Forall_cons in Hd as [Hc Hd]. apply Forall_cons in Hd as [Hd Hl]. apply Forall_cons in Hl as [Hl _].
    assert (Hj : ∀ x, IsAbs (filepath_Join [h; x]) = true) by (intros; by apply Join_base_abs).
    subst p. cbn [Home Config Data Logs]. rewrite !Forall_cons. clear Hmk.
    conjs; try done; case_decide; first [apply Hj|done|by destruct Hc|by destruct Hd|by destruct Hl]. }
  assert (Hinit : InitPaths mkdir (Some (mkPath h c d l)) p0 = (p, Ok tt)).
  { unfold InitPaths, initPaths, mbind, SE_bind, set_store, modify, get_store. subst p. simpl.
    repeat (case_decide; simpl in * ); try done; by rewrite Hmk. }
  destruct (IsAbs path) eqn:Hpath.
  { exists p, path. unfold Resolve. rewrite Hpath. done. }
  assert (Hres : ∃ base, Resolve p ft path = Ok (filepath_Join [base; path]) ∧ IsAbs base = true).
  { unfold Resolve. rewrite Hpath. rewrite !Forall_cons in Hp. destruct Hp as (H1 & H2 & H3 & H4 & _).
    rewrite !elem_of_cons, elem_of_nil in Hft. destruct Hft as [->|[->|[->|[->|[]]]]]; simpl; eauto. }
  destruct Hres as (base & Hres & Hbase). exists p, (filepath_Join [base; path]). conjs; try done.
  by apply Join_base_abs.
Qed.

Lemma InitPaths_Resolve_witness :
  let cfg := mkPath "/usr/share/beat" "/etc/beat" "" "" in
  ∃ p q, InitPaths (λ _, None) (Some cfg) New = (p, Ok tt) ∧
    Home p = Home cfg ∧ Config p = "/etc/beat" ∧ Data p = "/usr/share/beat/data" ∧
    Logs p = "/usr/share/beat/logs" ∧
    Resolve p data_type "../x" = Ok q ∧ IsAbs q = true ∧ (IsAbs "../x" = true → q = "../x").
Proof.
  apply (InitPaths_Resolve (λ _, None) (mkPath "/usr/share/beat" "/etc/beat" "" "") New data_type "../x");
    [reflexivity|repeat constructor; first [by right|by left]|reflexivity|set_solver].
Defined.

Example clean_paths :
  Clean "a//b/./../c/" = "a/c" ∧ Clean "/../x" = "/x" ∧ Clean "../../x/.." = "../.." ∧ Clean "" = "." ∧
  Resolve (mkPath "" "" "" "") home_type "x" = Ok "x".
Proof. vm_compute. done. Qed.
