(* ===== verification/TlsLoad.v ===== *)
(** * Package [tlscommon]: loading certificates and configurations

    tls.go, config.go, server_config.go and decrypt_block_*.go.  PEM, PKCS and
    X.509 codecs are the standard library's and a third-party package's:
    parameters of the model, as is the file system.  [fips] tells the two
    builds apart.  Log output is left out. *)
From S2P Require Import Prelude GoStrings GoUtf8 GoBase64 TlsTypes TlsNames TlsVerify.

Open Scope string_scope.
Open Scope list_scope.

(** [pem.Block] *)
Record Block := mkBlock { b_Type : string; Headers : gmap string string; Bytes : string }.

(** The kinds of keys [ParsePKCS8PrivateKey] can return. *)
Inductive key_kind := RSA | ECDSA | OtherKey.

(** A value or the text of an error. *)
Abbreviation or_error A := (A + string)%type.

Class Pki := {
  read_file : string → or_error string;         (** open and read to the end *)
  pem_Decode : string → option (Block * string);  (** block and rest *)
  pem_Encode : Block → or_error string;
  IsEncryptedPEMBlock : Block → bool;
  DecryptPEMBlock : Block → string → or_error string;
  ParsePKCS8PrivateKey : string → string → or_error (key_kind * string);
  MarshalPKCS8PrivateKey : key_kind * string → or_error string;
  X509KeyPair : string → string → or_error string;
  certs_of_PEM : string → list Certificate      (** what [AppendCertsFromPEM] adds *)
}.

(** [pem.Decode] consumes what it returns. *)
Class PkiLaws `{Pki} :=
  pem_Decode_shorter content b rest : pem_Decode content = Some (b, rest) →
    (String.length rest < String.length content)%nat.

Inductive load_error :=
| EtlsConfig (e : tls_error)
| EpassphraseFile (msg : string)
| Eread (msg : string)
| EnoPEMFile
| EnoPEMBlocks (errs : list load_error)
| EnoPassphrase
| Edecrypt (msg : string)
| EparseKey (msg : string)
| EunknownKey
| EmarshalKey (msg : string)
| EunsupportedFIPS
| EencodePEM (msg : string)
| Efile (e : load_error) (file : string)
| EkeyPair (msg : string)
| ErrNotACertificate (reader : string)
| Ejoin (errs : list load_error).

Section load.
Context `{Pki} (fips : bool).

Definition of_msg {A} (f : string → load_error) (r : or_error A) : res load_error A :=
  match r with inl a => Ok a | inr e => Err (f e) end.

(** ** decrypt_block_nofips.go, decrypt_block_fips.go *)
Definition decryptPKCS1Key_nofips (block : Block) (passphrase : string) : res load_error Block :=
  if String.eqb passphrase "" then Err EnoPassphrase
  else
    buffer ← of_msg Edecrypt (DecryptPEMBlock block passphrase);
    Ok (mkBlock (b_Type block) (delete "DEK-Info" (Headers block)) buffer).

Definition decryptPKCS8Key_nofips (block : Block) (passphrase : string) : res load_error Block :=
  if String.eqb passphrase "" then Err EnoPassphrase
  else
    key ← of_msg EparseKey (ParsePKCS8PrivateKey (Bytes block) passphrase);
    ty ← (match fst key with
          | RSA => Ok "RSA PRIVATE KEY"
          | ECDSA => Ok "ECDSA PRIVATE KEY"
          | OtherKey => Err EunknownKey
          end);
    buffer ← of_msg EmarshalKey (MarshalPKCS8PrivateKey key);
    Ok (mkBlock ty (Headers block) buffer).

Definition decryptPKCS1Key_fips (block : Block) (passphrase : string) : res load_error Block :=
  Err EunsupportedFIPS.
Definition decryptPKCS8Key_fips (block : Block) (passphrase : string) : res load_error Block :=
  Err EunsupportedFIPS.

Definition decryptPKCS1Key (block : Block) (passphrase : string) : res load_error Block :=
  if fips then decryptPKCS1Key_fips block passphrase else decryptPKCS1Key_nofips block passphrase.
Definition decryptPKCS8Key (block : Block) (passphrase : string) : res load_error Block :=
  if fips then decryptPKCS8Key_fips block passphrase else decryptPKCS8Key_nofips block passphrase.

(** ** tls.go *)
(** [NewPEMReader] and reading it to the end. *)
Definition read_PEM (certificate : string) : res load_error string :=
  if IsPEMString certificate then Ok certificate else of_msg Eread (read_file certificate).

(** [PEMReader.String] *)
Definition reader_String (certificate : string) : string :=
  if IsPEMString certificate then "inline" else certificate.

(** The switch on a block: the block to keep. *)
Definition open_block (block : Block) (pass : string) : res load_error Block :=
  if IsEncryptedPEMBlock block then decryptPKCS1Key block pass
  else if String.eqb (b_Type block) "ENCRYPTED PRIVATE KEY" then decryptPKCS8Key block pass
  else Ok block.

(** The loop of [ReadPEMFile]: the blocks kept and the errors met. *)
Fixpoint read_blocks (fuel : nat) (content pass : string) (blocks : list Block) (errs : list load_error)
    : res load_error (list Block * list load_error) :=
  if String.eqb content "" then Ok (blocks, errs)
  else
    match fuel with
    | O => OutOfFuel
    | S fuel' =>
        match pem_Decode content with
        | None => match blocks with [] => Err EnoPEMFile | _ => Ok (blocks, errs) end
        | Some (block, rest) =>
            match open_block block pass with
            | Ok b => read_blocks fuel' rest pass (blocks ++ [b]) errs
            | Err e => read_blocks fuel' rest pass blocks (errs ++ [e])
            | Panic p => Panic p
            | OutOfFuel => OutOfFuel
            end
        end
    end.

Fixpoint encode_blocks (blocks : list Block) : res load_error string :=
  match blocks with
  | [] => Ok ""
  | b :: blocks' =>
      t ← of_msg EencodePEM (pem_Encode b); r ← encode_blocks blocks'; Ok (t +:+ r)
  end.

Definition ReadPEMFile (s passphrase : string) : res load_error string :=
  content ← read_PEM s;
  '(blocks, errs) ← read_blocks (S (String.length content)) content passphrase [] [];
  match blocks with
  | [] => Err (EnoPEMBlocks errs)
  | _ => encode_blocks blocks
  end.

Definition tls_res {A} (r : res tls_error A) : res load_error A :=
  match r with Ok a => Ok a | Err e => Err (EtlsConfig e) | Panic p => Panic p | OutOfFuel => OutOfFuel end.

Definition in_file {A} (file : string) (r : res load_error A) : res load_error A :=
  match r with Err e => Err (Efile e file) | _ => r end.

(** [None] is a nil certificate. *)
Definition LoadCertificate (config : CertificateConfig) : res load_error (option string) :=
  tls_res (CertificateConfig_Validate config) ≫= λ _,
  if String.eqb (Certificate_file config) "" then Ok None
  else
    passphrase ← (if String.eqb (Passphrase config) "" && negb (String.eqb (PassphrasePath config) "")
                  then of_msg EpassphraseFile (read_file (PassphrasePath config))
                  else Ok (Passphrase config));
    certPEM ← in_file (Certificate_file config) (ReadPEMFile (Certificate_file config) passphrase);
    keyPEM ← in_file (Key_file config) (ReadPEMFile (Key_file config) passphrase);
    cert ← of_msg EkeyPair (X509KeyPair certPEM keyPEM);
    Ok (Some cert).

Abbreviation LM := (SE tls_store load_error).

(** [roots.AppendCertsFromPEM]: false when nothing was added. *)
Definition AppendCertsFromPEM (pool : nat) (pemData : string) : LM bool :=
  foreach (certs_of_PEM pemData) (AddCert pool) ≫= λ _,
  mret (match certs_of_PEM pemData with [] => false | _ => true end).

Fixpoint load_CAs (pool : nat) (cas : list string) (errs : list load_error) : LM (list load_error) :=
  match cas with
  | [] => mret errs
  | s :: cas' =>
      match read_PEM s with
      | Ok pemData =>
          ok ← AppendCertsFromPEM pool pemData;
          load_CAs pool cas' (if ok : bool then errs else errs ++ [ErrNotACertificate (reader_String s)])
      | Err e => load_CAs pool cas' (errs ++ [e])
      | Panic p => panics p
      | OutOfFuel => no_fuel
      end
  end.

(** The pool is nil without authorities. *)
Definition LoadCertificateAuthorities (cas : list string) : LM (option nat * list load_error) :=
  match cas with
  | [] => mret (None, [])
  | _ => roots ← NewCertPool; errs ← load_CAs roots cas []; mret (Some roots, errs)
  end.

Definition certs_list (cert : option string) : list string :=
  match cert with Some c => [c] | None => [] end.

(** The parts [LoadTLSConfig] and [LoadTLSServerConfig] share: the certificate
    and the pool, or all errors. *)
Definition load_parts (config : Config) : LM (list string * option nat) :=
  cert ← attempt (lift (LoadCertificate (CertConfig config)));
  r ← LoadCertificateAuthorities (CAs config);
  let '(cas, errs) := (r : option nat * list load_error) in
  match (match cert with inl _ => [] | inr e => [e] end) ++ errs with
  | [] => mret (certs_list (match cert with inl c => c | inr _ => None end), cas)
  | fail_ => fail (Ejoin fail_)
  end.

(** [logger] tells whether the logger is not nil; the answer is nil for a
    configuration that is nil or not enabled. *)
Definition LoadTLSConfig (config : option Config) (logger : bool) : LM (option nat) :=
  match config with
  | Some c =>
      if negb (IsEnabled config) then mret None
      else
        let curves := map uint16 (CurveTypes c) in
        '(certs, cas) ← load_parts c;
        p ← new_config (mkTLSConfig (Versions c) (VerificationMode c) certs cas None (CipherSuites c) curves
              (Renegotiation_set c) 0 (CASha256 c) (TrustedFingerprint c) "" logger);
        mret (Some p)
  | None => mret None
  end.

Definition LoadTLSServerConfig (config : option Config) (logger : bool) : LM (option nat) :=
  match config with
  | Some c =>
      if negb (IsEnabled config) then mret None
      else
        let curves := map uint16 (CurveTypes c) in
        '(certs, cas) ← load_parts c;
        let clientAuth := default TLSClientAuthNone (ClientAuth_set c) in
        p ← new_config (mkTLSConfig (Versions c) (VerificationMode c) certs None cas (CipherSuites c) curves
              0 clientAuth (CASha256 c) "" "" logger);
        mret (Some p)
  | None => mret None
  end.

(** [ServerConfig.Unpack] on a configuration of the third-party ucfg library,
    given by the operations it calls: client certificates are required by
    default when authorities are configured. *)
Definition ServerConfig_Unpack {C} (HasField : C → string → bool) (SetString : C → string → string → or_error C)
    (Unpack : C → or_error Config) (cfg : C) : or_error Config :=
  let clientAuthKey := "client_authentication" in
  let ca := "certificate_authorities" in
  if HasField cfg ca && negb (HasField cfg clientAuthKey) then
    match SetString cfg clientAuthKey "required" with
    | inr err => inr err
    | inl cfg' => Unpack cfg'
    end
  else Unpack cfg.
End load.
