(* ===== verification/TlsLoadFacts.v ===== *)
(** * Package [tlscommon]: what loading returns

    [ReadPEMFile] against the blocks of a file, and a client from its
    configuration to the connections it accepts.  Module TlsDiag: the diagnostics
    of certificates, which agree with loading. *)
From S2P Require Import Prelude GoStrings GoUtf8 GoBase64 TlsTypes TlsNames TlsVerify TlsFacts TlsLoad.

Open Scope string_scope.
Open Scope list_scope.

Section read.
Context `{PkiLaws} (fips : bool).

(** The blocks of a text; [junk] tells whether text without a block follows. *)
Inductive pem_stream : string → list Block → bool → Prop :=
| ps_end : pem_stream "" [] false
| ps_junk content : content ≠ "" → pem_Decode content = None → pem_stream content [] true
| ps_block content b rest bs junk :
    content ≠ "" → pem_Decode content = Some (b, rest) → pem_stream rest bs junk →
    pem_stream content (b :: bs) junk.

Lemma pem_stream_total content : ∃ bs junk, pem_stream content bs junk.
Proof.
  remember (String.length content) as n eqn:Hn.
  revert content Hn. induction (lt_wf n) as [n _ IH]. intros content ->.
  destruct (decide (content = "")) as [->|Hne]; [eexists _, _; constructor|].
  destruct (pem_Decode content) as [[b rest]|] eqn:Hd; [|eexists _, _; by apply ps_junk].
  destruct (IH (String.length rest) (pem_Decode_shorter _ _ _ Hd) rest eq_refl) as (bs & junk & Hs).
  exists (b :: bs), junk. by econstructor.
Qed.

(** The blocks that can be opened, and the errors of the others. *)
Definition opened (pass : string) (bs : list Block) : list Block :=
  omap (λ b, match open_block fips b pass with Ok x => Some x | _ => None end) bs.
Definition unopened (pass : string) (bs : list Block) : list load_error :=
  omap (λ b, match open_block fips b pass with Err e => Some e | _ => None end) bs.

Lemma of_msg_defined {A} f (r : or_error A) : defined (of_msg f r).
Proof. by destruct r. Qed.

Lemma open_block_defined b pass : defined (open_block fips b pass).
Proof.
  unfold open_block, decryptPKCS1Key, decryptPKCS8Key, decryptPKCS1Key_nofips, decryptPKCS8Key_nofips,
    decryptPKCS1Key_fips, decryptPKCS8Key_fips, of_msg.
  repeat (case_match; simpl; try done).
Qed.

Lemma read_blocks_spec content bs junk : pem_stream content bs junk →
  ∀ fuel pass blocks errs, (String.length content < fuel)%nat →
  read_blocks fips fuel content pass blocks errs =
    if junk && bool_decide (blocks ++ opened pass bs = []) then Err EnoPEMFile
    else Ok (blocks ++ opened pass bs, errs ++ unopened pass bs).
Proof.
  induction 1 as [|content Hne Hd|content b rest bs junk Hne Hd Hs IH];
    intros [|fuel] pass blocks errs Hf; try lia; cbn [read_blocks].
  - by rewrite !app_nil_r.
  - apply String.eqb_neq in Hne. rewrite Hne, Hd. cbn [opened unopened omap list_omap]. rewrite !app_nil_r.
    by destruct blocks.
  - apply String.eqb_neq in Hne. rewrite Hne, Hd. pose proof (pem_Decode_shorter _ _ _ Hd).
    pose proof (open_block_defined b pass) as Hdef. unfold opened, unopened. cbn [omap list_omap].
    destruct (open_block fips b pass) as [x|e| |] eqn:Hb; try done.
    + rewrite IH by lia. unfold opened, unopened. by rewrite <- !app_assoc.
    + rewrite IH by lia. unfold opened, unopened. by rewrite <- !app_assoc.
Qed.

(** [ReadPEMFile] always returns: the encoding, in order, of the blocks of
    the text that are not encrypted or can be decrypted with the passphrase;
    an error when there is none, and when the text cannot be read. *)
Theorem ReadPEMFile_spec s pass :
  match read_PEM s with
  | Ok content =>
      ∃ bs junk, pem_stream content bs junk ∧
        ReadPEMFile fips s pass =
          match opened pass bs with
          | [] => Err (if junk : bool then EnoPEMFile else EnoPEMBlocks (unopened pass bs))
          | kept => encode_blocks kept
          end
  | r => ReadPEMFile fips s pass = r
  end.
Proof.
  unfold ReadPEMFile. destruct (read_PEM s) as [content| | |]; try done.
  destruct (pem_stream_total content) as (bs & junk & Hs). exists bs, junk. split; [done|].
  cbn [mbind res_bind]. rewrite (read_blocks_spec content bs junk Hs) by lia. cbn [app].
  destruct (opened pass bs), junk; done.
Qed.

(** Without a passphrase, and always in the FIPS build, encrypted blocks are
    dropped. *)
Lemma encrypted_dropped b pass : pass = "" ∨ fips = true →
  IsEncryptedPEMBlock b = true ∨ b_Type b = "ENCRYPTED PRIVATE KEY" → opened pass [b] = [].
Proof.
  intros Hp Hb. unfold opened, open_block, decryptPKCS1Key, decryptPKCS8Key. cbn [omap list_omap].
  assert (Hne : ∀ r, (r = decryptPKCS1Key_nofips b pass ∨ r = decryptPKCS8Key_nofips b pass) → fips = false →
    r = Err EnoPassphrase).
  { intros r Hr Hfips. destruct Hp as [->|Hp]; [|congruence]. by destruct Hr as [-> | ->]. }
  destruct fips.
  - destruct (IsEncryptedPEMBlock b); [done|]. destruct Hb as [?| ->]; done.
  - destruct (IsEncryptedPEMBlock b); [by rewrite (Hne _ (or_introl eq_refl))|].
    destruct Hb as [?| ->]; [done|]. simpl. by rewrite (Hne _ (or_intror eq_refl)).
Qed.
End read.

(** ** From a configuration to the connections it accepts *)
Section client.
Context `{Pki} `{X509} (fips : bool).
Implicit Types (st : tls_store).

(** The certificates of the configured authorities, if each has one. *)
Definition ca_certs (cas : list string) : option (list Certificate) :=
  mjoin <$> mapM (λ s, match read_PEM s with
                       | Ok d => match certs_of_PEM d with [] => None | l => Some l end
                       | _ => None
                       end) cas.

Definition pool_with (certs pool : list Certificate) : list Certificate :=
  foldl (λ p x, add_cert x p) pool certs.

Lemma AddCert_run {E} st l pool (c : Certificate) : pools st !! l = Some pool →
  ∃ st', AddCert (E := E) l c st = (st', Ok tt) ∧ configs st' = configs st ∧
    pools st' !! l = Some (add_cert c pool) ∧ ∀ k, k ≠ l → pools st' !! k = pools st !! k.
Proof.
  intros Hl. eexists. split; [reflexivity|]. simpl. rewrite list_lookup_alter_eq, Hl. conjs; try done.
  intros k Hk. by rewrite list_lookup_alter_ne.
Qed.

Lemma foreach_AddCert {E} certs : ∀ st l pool, pools st !! l = Some pool →
  ∃ st', foreach certs (AddCert (E := E) l) st = (st', Ok tt) ∧ configs st' = configs st ∧
    pools st' !! l = Some (pool_with certs pool) ∧ ∀ k, k ≠ l → pools st' !! k = pools st !! k.
Proof.
  induction certs as [|c certs IH]; intros st l pool Hl; [by exists st|].
  destruct (AddCert_run (E := E) st l pool c Hl) as (st1 & Hrun & Hc & Hl1 & Hk).
  destruct (IH st1 l _ Hl1) as (st2 & Hrun2 & Hc2 & Hl2 & Hk2). exists st2. conjs.
  - cbn [foreach]. by rewrite (SE_bind_run _ _ _ _ _ Hrun).
  - congruence.
  - done.
  - intros k Hne. by rewrite Hk2, Hk.
Qed.

Lemma load_CAs_run cas : ∀ certs st l pool, ca_certs cas = Some certs → pools st !! l = Some pool →
  ∃ st', load_CAs l cas [] st = (st', Ok []) ∧ configs st' = configs st ∧
    pools st' !! l = Some (pool_with certs pool) ∧ ∀ k, k ≠ l → pools st' !! k = pools st !! k.
Proof.
  unfold ca_certs. induction cas as [|s cas IH]; intros certs st l pool Hca Hl; simpl in *.
  { simplify_eq/=. by exists st. }
  destruct (read_PEM s) as [d| | |]; try done. destruct (certs_of_PEM d) as [|x xs] eqn:Hd; [done|].
  destruct (mapM _ cas) as [ls|]; [|done]. simplify_eq/=.
  destruct (foreach_AddCert (E := load_error) (x :: xs) st l pool Hl) as (st1 & Hrun & Hc & Hl1 & Hk).
  destruct (IH (mjoin ls) st1 l _ eq_refl Hl1) as (st2 & Hrun2 & Hc2 & Hl2 & Hk2). exists st2. conjs.
  - assert (HA : AppendCertsFromPEM l d st = (st1, Ok true)).
    { unfold AppendCertsFromPEM. by rewrite Hd, (SE_bind_run _ _ _ _ _ Hrun). }
    rewrite (SE_bind_run _ _ _ _ _ HA). exact Hrun2.
  - congruence.
  - rewrite Hl2. unfold pool_with. by rewrite foldl_app.
  - intros k Hne. by rewrite Hk2, Hk.
Qed.

(** The pool of the authorities: the system's when none is configured. *)
Definition loaded_pool (cas : list string) (certs : list Certificate) : option (list Certificate) :=
  match cas with [] => None | _ => Some (pool_with certs []) end.

Lemma load_parts_run c st cert certs :
  LoadCertificate fips (CertConfig c) = Ok cert → ca_certs (CAs c) = Some certs →
  ∃ st' cas, load_parts fips c st = (st', Ok (certs_list cert, cas)) ∧ configs st' = configs st ∧
    pool_of st' cas = loaded_pool (CAs c) certs ∧ (∀ l, cas = Some l → is_Some (pools st' !! l)) ∧
    ∀ k, (k < length (pools st))%nat → pools st' !! k = pools st !! k.
Proof.
  intros Hcert Hca. unfold load_parts, attempt, lift, mbind, SE_bind. rewrite Hcert.
  unfold LoadCertificateAuthorities, loaded_pool. destruct (CAs c) as [|s cas].
  { exists st, None. conjs; done. }
  set (st0 := mkStore (pools st ++ [[]]) (configs st)). set (l := length (pools st)).
  assert (Hl : pools st0 !! l = Some []) by (simpl; by rewrite lookup_app_r, Nat.sub_diag).
  assert (Hnew : NewCertPool (E := load_error) st = (st0, Ok l)) by done.
  destruct (load_CAs_run (s :: cas) certs st0 l [] Hca Hl) as (st' & Hrun & Hc & Hl' & Hk).
  exists st', (Some l). unfold mbind, SE_bind. rewrite Hnew, Hrun. conjs.
  - reflexivity.
  - exact Hc.
  - simpl. exact Hl'.
  - intros ? [= <-]. by eexists.
  - intros k Hlt. rewrite Hk by (unfold l; lia). simpl. by rewrite lookup_app_l.
Qed.

(** The configuration that is loaded, with a pool for its authorities. *)
Definition loaded_config (c : Config) (cert : option string) (cas : option nat) : TLSConfig :=
  mkTLSConfig (Versions c) (VerificationMode c) (certs_list cert) cas None (CipherSuites c)
    (map uint16 (CurveTypes c)) (Renegotiation_set c) 0 (CASha256 c) (TrustedFingerprint c) "" true.

Lemma LoadTLSConfig_run st c cert certs :
  IsEnabled (Some c) = true → LoadCertificate fips (CertConfig c) = Ok cert → ca_certs (CAs c) = Some certs →
  ∃ st1 p cas, LoadTLSConfig fips (Some c) true st = (st1, Ok (Some p)) ∧
    configs st1 !! p = Some (loaded_config c cert cas) ∧ pools_ok st1 (loaded_config c cert cas) ∧
    pool_of st1 cas = loaded_pool (CAs c) certs.
Proof.
  intros Hen Hcert Hca.
  destruct (load_parts_run c st cert certs Hcert Hca) as (st' & cas & Hparts & Hcfg & Hpool & Hval & _).
  eexists (mkStore (pools st') (configs st' ++ [loaded_config c cert cas])), (length (configs st')), cas.
  conjs; [|apply new_config_lookup|exact Hval|exact Hpool].
  unfold LoadTLSConfig. rewrite Hen. cbn [negb]. rewrite (SE_bind_run _ _ _ _ _ Hparts). reflexivity.
Qed.

(** C21: From the configuration to the connection: a client loaded from an
    enabled configuration with mode [full] and without trusted fingerprint,
    whose certificate and authorities can be loaded, accepts exactly the
    connections whose chain verifies against the certificates of the
    configured authorities (the system's without any), meets the pins and is
    for the host. *)
Theorem loaded_client_accepts d st c host cert certs :
  IsEnabled (Some c) = true → VerificationMode c = VerifyFull → TrustedFingerprint c = "" →
  LoadCertificate fips (CertConfig c) = Ok cert → ca_certs (CAs c) = Some certs →
  ∃ st1 p st2 t f, LoadTLSConfig fips (Some c) true st = (st1, Ok (Some p)) ∧
    BuildModuleClientConfig d (Some p) host st1 = (st2, Ok t) ∧
    VerifyConnection t = Some f ∧ t_Certificates t = certs_list cert ∧
    ∀ cs, snd (run_verify f cs st2) = Ok tt ↔
      ∃ leaf rest, PeerCertificates cs = leaf :: rest ∧
        chain_ok (CASha256 c) (loaded_pool (CAs c) certs) false leaf rest ∧
        verifyHostname net_ParseIP leaf host = Ok tt.
Proof.
  intros Hen Hmode Hfp Hcert Hca.
  destruct (LoadTLSConfig_run st c cert certs Hen Hcert Hca) as (st1 & p & cas & Hload & Hp & Hval & Hpool).
  destruct (client_full_run d st1 p _ host Hp Hval Hmode eq_refl) as (st2 & t & f & Hb & Hf & _ & _ & Hcerts & Hacc).
  exists st1, p, st2, t, f. conjs; [exact Hload|exact Hb|exact Hf|exact Hcerts|].
  intros cs. rewrite Hacc. unfold fingerprint_ok, trusted_roots. cbn [CATrustedFingerprint loaded_config]. rewrite Hfp.
  cbn [RootCAs loaded_config]. rewrite Hpool. simpl. naive_solver.
Qed.
End client.

(** ** A small codec for the witnesses
    A block is a dash and a letter, encrypted when the letter is E; a text with
    a block holds one certificate. *)
#[local] Instance toy_pki : Pki := {|
  read_file _ := inr "no such file";
  pem_Decode s :=
    match s with
    | String "-" (String a rest) => Some (mkBlock (String a "") ∅ "", rest)
    | _ => None
    end;
  pem_Encode b := inl ("-" +:+ b_Type b);
  IsEncryptedPEMBlock b := String.eqb (b_Type b) "E";
  DecryptPEMBlock _ _ := inl "key";
  ParsePKCS8PrivateKey _ _ := inr "unused";
  MarshalPKCS8PrivateKey _ := inr "unused";
  X509KeyPair c k := inl (c +:+ k);
  certs_of_PEM s := if HasPrefix s "-" then [ca_cert] else []
|}.

#[local] Instance toy_laws : PkiLaws.
Proof.
  intros content b rest. unfold pem_Decode. simpl.
  repeat (case_match; try done). intros [= _ <-]. simpl. lia.
Defined.
#[local] Existing Instance toy.

Lemma ReadPEMFile_spec_witness :
  ∃ bs junk, pem_stream "-C-E-D" bs junk ∧
    ReadPEMFile false "-C-E-D" "" =
      match opened false "" bs with
      | [] => Err (if junk : bool then EnoPEMFile else EnoPEMBlocks (unopened false "" bs))
      | kept => encode_blocks kept
      end.
Proof. apply (ReadPEMFile_spec false "-C-E-D" ""). Defined.

Example ReadPEMFile_runs :
  ReadPEMFile false "-C-E-D" "" = Ok "-C-D" ∧ ReadPEMFile false "-E" "" = Err (EnoPEMBlocks [EnoPassphrase]) ∧
  ReadPEMFile true "-C-E" "secret" = Ok "-C" ∧ ReadPEMFile false "-E text" "" = Err EnoPEMFile.
Proof. vm_compute. done. Qed.

Definition client_config : Config :=
  mkConfig None VerifyFull [] [] ["-C"] (mkCertConfig "" "" "" "") [] 0 [] "" None.

Lemma loaded_client_accepts_witness :
  ∃ st1 p st2 t f, LoadTLSConfig false (Some client_config) true (mkStore [] []) = (st1, Ok (Some p)) ∧
    BuildModuleClientConfig defaults (Some p) "www.example.com" st1 = (st2, Ok t) ∧
    VerifyConnection t = Some f ∧ t_Certificates t = [] ∧
    ∀ cs, snd (run_verify f cs st2) = Ok tt ↔
      ∃ leaf rest, PeerCertificates cs = leaf :: rest ∧
        chain_ok [] (Some [ca_cert]) false leaf rest ∧
        verifyHostname net_ParseIP leaf "www.example.com" = Ok tt.
Proof.
  apply (loaded_client_accepts false defaults (mkStore [] []) client_config "www.example.com" None [ca_cert]);
    reflexivity.
Defined.

(** ** Finding
    When text follows the only block, which cannot be decrypted, the error says
    that there is no PEM file and the reason is lost. *)
Theorem decryption_error_lost :
  ReadPEMFile false "-E" "" = Err (EnoPEMBlocks [EnoPassphrase]) ∧
  ReadPEMFile false "-E text" "" = Err EnoPEMFile.
Proof. vm_compute. done. Qed.

(** ** Package [tlscommon]: diagnostics of certificates (src/transport/tlscommon/diag.go)

    The diagnostics print what they find with a logger whose prefix they change;
    the model keeps the lines with the prefix each was printed with, and what a
    line says as data.  The theorem compares them with loading: the certificates
    the diagnostics list are those that loading the same authorities trusts. *)
Module TlsDiag.
Open Scope string_scope.
Open Scope list_scope.

(** [x509.ParseCertificate], and the encoded certificates of a loaded key pair
    ([crt.Certificate]). *)
Class CertParse := {
  ParseCertificate : string → or_error Certificate;
  chain_of_pair : string → list string
}.

(** What a line says. *)
Inductive diag_msg :=
| Dnil
| Dstart | Dmode (m : Z) | Dfingerprint (s : string) | Dclient_auth (a : option Z) | Dsha256 (l : list string)
| Dchecking | Dpair_nil | Dpair_error (e : load_error) | Dpair_ok
| Dcert_error (i : nat) (e : string) | Dcert (i : nat) (c : Certificate)
| Dsystem_CAs | Dprovided | DCA_error (e : load_error) | DCA_cert (i : nat) (c : Certificate).

(** [log.Logger]: its prefix and what it printed. *)
Record diag_log := mkLog { prefix : string; lines : list (string * diag_msg) }.

Definition LG (A : Type) : Type := diag_log → diag_log * A.
#[global] Instance LG_ret : MRet LG := λ A a s, (s, a).
#[global] Instance LG_bind : MBind LG := λ A B f c s, let '(s', a) := c s in f a s'.

Definition Print_ (m : diag_msg) : LG unit := λ l, (mkLog (prefix l) (lines l ++ [(prefix l, m)]), tt).
Definition SetPrefix (p : string) : LG unit := λ l, (mkLog p (lines l), tt).

(** [prefix := logger.Prefix(); defer logger.SetPrefix(prefix); logger.SetPrefix(prefix + p)] *)
Definition with_prefix (p : string) (body : LG unit) : LG unit := λ l,
  (SetPrefix (prefix l +:+ p) ≫= λ _, body ≫= λ _, SetPrefix (prefix l)) l.

Fixpoint print_all (l : list diag_msg) : LG unit :=
  match l with [] => mret tt | m :: l => Print_ m ≫= λ _, print_all l end.

Section diag.
Context `{Pki} `{CertParse} (fips : bool).

(** A block that is a certificate. *)
Definition cert_of_block (b : Block) : option Certificate :=
  if negb (String.eqb (b_Type b) "CERTIFICATE") || negb (bool_decide (Headers b = ∅)) then None
  else match ParseCertificate (Bytes b) with inl c => Some c | inr _ => None end.

(** The loop of [getCACerts]. *)
Fixpoint ca_blocks (fuel : nat) (p : string) (certs : list Certificate) : res load_error (list Certificate) :=
  if String.eqb p "" then Ok certs
  else
    match fuel with
    | O => OutOfFuel
    | S fuel =>
        match pem_Decode p with
        | None => Ok certs
        | Some (block, p) => ca_blocks fuel p (certs ++ option_list (cert_of_block block))
        end
    end.

Definition getCACerts (ca : string) : res load_error (list Certificate) :=
  p ← read_PEM ca; ca_blocks (S (String.length p)) p [].

(** The lines for the certificates of a loaded pair. *)
Fixpoint pair_lines (i : nat) (ders : list string) : list diag_msg :=
  match ders with
  | [] => []
  | p :: ders =>
      match ParseCertificate p with inr e => Dcert_error i e | inl c => Dcert i c end :: pair_lines (S i) ders
  end.

(** The argument is the address of a field and never nil. *)
Definition diagCertificate (cfg : CertificateConfig) : LG unit :=
  with_prefix "CertificateSettings: "
    (Print_ Dchecking ≫= λ _,
     match LoadCertificate fips cfg with
     | Ok (Some crt) => Print_ Dpair_ok ≫= λ _, print_all (pair_lines 0 (chain_of_pair crt))
     | Ok None => Print_ Dpair_nil
     | Err e => Print_ (Dpair_error e)
     | Panic _ | OutOfFuel => mret tt
     end).

Fixpoint ca_lines (i : nat) (certs : list Certificate) : list diag_msg :=
  match certs with [] => [] | c :: certs => DCA_cert i c :: ca_lines (S i) certs end.

(** The loop of [diagCAs] from the number of the next certificate. *)
Fixpoint diag_each_CA (cas : list string) (i : nat) : LG unit :=
  match cas with
  | [] => mret tt
  | ca :: cas =>
      match getCACerts ca with
      | Ok certs => print_all (ca_lines i certs) ≫= λ _, diag_each_CA cas (i + length certs)
      | Err e => Print_ (DCA_error e) ≫= λ _, diag_each_CA cas i
      | Panic _ | OutOfFuel => mret tt
      end
  end.

Definition diagCAs (cas : list string) : LG unit :=
  with_prefix "CertificateAuthorities: "
    match cas with
    | [] => Print_ Dsystem_CAs
    | _ => Print_ Dprovided ≫= λ _, diag_each_CA cas 0
    end.

(** [DiagCerts] of a client configuration and of a server configuration; [None] is a
    nil pointer. *)
Definition DiagCerts (c : option Config) : list (string * diag_msg) :=
  match c with
  | None => [("", Dnil)]
  | Some c =>
      lines (fst ((Print_ Dstart ≫= λ _, Print_ (Dmode (VerificationMode c)) ≫= λ _,
        Print_ (Dfingerprint (TrustedFingerprint c)) ≫= λ _, Print_ (Dsha256 (CASha256 c)) ≫= λ _,
        diagCertificate (CertConfig c) ≫= λ _, diagCAs (CAs c)) (mkLog "tlscommon.Config: " [])))
  end.

Definition Server_DiagCerts (c : option Config) : list (string * diag_msg) :=
  match c with
  | None => [("", Dnil)]
  | Some c =>
      lines (fst ((Print_ Dstart ≫= λ _, Print_ (Dmode (VerificationMode c)) ≫= λ _,
        Print_ (Dclient_auth (ClientAuth_set c)) ≫= λ _, Print_ (Dsha256 (CASha256 c)) ≫= λ _,
        diagCertificate (CertConfig c) ≫= λ _, diagCAs (CAs c)) (mkLog "tlscommon.ServerConfig: " [])))
  end.
End diag.

(** ** Facts *)

(** The certificates of PEM blocks, in their order, as [AppendCertsFromPEM] of
    crypto/x509 documents them: those of the blocks of type CERTIFICATE that
    have no header and parse. *)
Inductive certs_among `{CertParse} : list Block → list Certificate → Prop :=
| among_nil : certs_among [] []
| among_cert b c bs cs : b_Type b = "CERTIFICATE" → Headers b = ∅ → ParseCertificate (Bytes b) = inl c →
    certs_among bs cs → certs_among (b :: bs) (c :: cs)
| among_other b bs cs : b_Type b ≠ "CERTIFICATE" ∨ Headers b ≠ ∅ ∨ (∃ e, ParseCertificate (Bytes b) = inr e) →
    certs_among bs cs → certs_among (b :: bs) cs.

Class CertParseLaws `{Pki} `{CertParse} :=
  certs_of_PEM_blocks content bs junk : pem_stream content bs junk → certs_among bs (certs_of_PEM content).

(** What the lines list. *)
Definition listed (ls : list (string * diag_msg)) : list Certificate :=
  omap (λ l, match snd l with DCA_cert _ c => Some c | _ => None end) ls.
Definition numbers (ls : list (string * diag_msg)) : list nat :=
  omap (λ l, match snd l with DCA_cert i _ => Some i | _ => None end) ls.
Definition shown_errors (ls : list (string * diag_msg)) : list load_error :=
  omap (λ l, match snd l with DCA_error e => Some e | _ => None end) ls.

Section facts.
Context `{!Pki} `{!PkiLaws} `{!CertParse} `{!CertParseLaws} `{!X509}.

Lemma cert_of_block_Some b c :
  cert_of_block b = Some c ↔ b_Type b = "CERTIFICATE" ∧ Headers b = ∅ ∧ ParseCertificate (Bytes b) = inl c.
Proof.
  unfold cert_of_block. destruct (String.eqb_spec (b_Type b) "CERTIFICATE"); cbn [negb orb]; [|naive_solver].
  case_bool_decide; cbn [negb]; [|naive_solver]. destruct (ParseCertificate (Bytes b)); naive_solver.
Qed.

Lemma certs_among_spec bs cs : certs_among bs cs → cs = omap cert_of_block bs.
Proof.
  induction 1 as [|b c bs cs Ht Hh Hp _ IH|b bs cs Hn _ IH]; simpl; [done| |].
  - rewrite (proj2 (cert_of_block_Some b c)) by done. by f_equal.
  - destruct (cert_of_block b) as [c|] eqn:Hc; [|done]. apply cert_of_block_Some in Hc as (? & ? & ?).
    destruct Hn as [?|[?|[e ?]]]; congruence.
Qed.

Lemma ca_blocks_stream content bs junk : pem_stream content bs junk →
  ∀ fuel certs, (String.length content < fuel)%nat → ca_blocks fuel content certs = Ok (certs ++ omap cert_of_block bs).
Proof.
  induction 1 as [|content Hne Hd|content b rest bs junk Hne Hd Hs IH]; intros [|fuel] certs Hf; try lia; cbn [ca_blocks].
  - by rewrite app_nil_r.
  - apply String.eqb_neq in Hne. rewrite Hne, Hd. by rewrite app_nil_r.
  - apply String.eqb_neq in Hne. rewrite Hne, Hd. pose proof (pem_Decode_shorter _ _ _ Hd).
    rewrite IH by lia. rewrite <- app_assoc. simpl. by destruct (cert_of_block b).
Qed.

(** The certificates and the errors of one authority. *)
Definition ca_good (s : string) : list Certificate := match read_PEM s with Ok d => certs_of_PEM d | _ => [] end.
Definition ca_unread (s : string) : list load_error := match read_PEM s with Err e => [e] | _ => [] end.
Definition ca_bad (s : string) : list load_error :=
  match read_PEM s with
  | Ok d => match certs_of_PEM d with [] => [ErrNotACertificate (reader_String s)] | _ => [] end
  | Err e => [e]
  | _ => []
  end.

Lemma read_PEM_cases s : (∃ d, read_PEM s = Ok d) ∨ ∃ e, read_PEM s = Err (Eread e).
Proof. unfold read_PEM, of_msg. destruct (IsPEMString s); [eauto|]. destruct (read_file s); eauto. Qed.

Lemma getCACerts_total s :
  getCACerts s = match ca_unread s with e :: _ => Err e | [] => Ok (ca_good s) end.
Proof.
  unfold getCACerts, ca_unread, ca_good. destruct (read_PEM_cases s) as [[d ->]|[e ->]]; [|done]. cbn [mbind res_bind].
  destruct (pem_stream_total d) as (bs & junk & Hs). rewrite (ca_blocks_stream d bs junk Hs) by lia.
  by rewrite <- (certs_among_spec _ _ (certs_of_PEM_blocks d bs junk Hs)).
Qed.

(** What [diag_each_CA] prints. *)
Fixpoint each_lines (cas : list string) (i : nat) : list diag_msg :=
  match cas with
  | [] => []
  | s :: cas => (DCA_error <$> ca_unread s) ++ ca_lines i (ca_good s) ++ each_lines cas (i + length (ca_good s))
  end.

Lemma print_all_run ms l : print_all ms l = (mkLog (prefix l) (lines l ++ (pair (prefix l) <$> ms)), tt).
Proof.
  revert l. induction ms as [|m ms IH]; intros l; simpl.
  - rewrite app_nil_r. by destruct l.
  - unfold mbind, LG_bind. simpl. rewrite IH. simpl. by rewrite <- app_assoc.
Qed.

Lemma diag_each_CA_run cas : ∀ i l,
  diag_each_CA cas i l = (mkLog (prefix l) (lines l ++ (pair (prefix l) <$> each_lines cas i)), tt).
Proof.
  induction cas as [|s cas IH]; intros i l; cbn [diag_each_CA each_lines].
  - rewrite app_nil_r. by destruct l.
  - rewrite getCACerts_total. destruct (read_PEM_cases s) as [[d Hd]|[e Hd]].
    + assert (ca_unread s = []) as -> by (unfold ca_unread; by rewrite Hd). unfold mbind, LG_bind.
      rewrite print_all_run, IH. simpl. by rewrite fmap_app, app_assoc.
    + assert (ca_unread s = [Eread e]) as -> by (unfold ca_unread; by rewrite Hd).
      assert (ca_good s = []) as -> by (unfold ca_good; by rewrite Hd). unfold mbind, LG_bind. cbn.
      rewrite IH. simpl. by rewrite <- app_assoc, Nat.add_0_r.
Qed.

Lemma ca_lines_listed (p : string) certs : ∀ i,
  let ls := pair p <$> ca_lines i certs in
  listed ls = certs ∧ numbers ls = seq i (length certs) ∧ shown_errors ls = [].
Proof.
  induction certs as [|c certs IH]; intros i; [done|]. destruct (IH (S i)) as (K1 & K2 & K3).
  cbv zeta in *. cbn [ca_lines]. rewrite fmap_cons. set (ls := pair p <$> ca_lines (S i) certs) in *. conjs.
  - change (c :: listed ls = c :: certs). by rewrite K1.
  - change (i :: numbers ls = i :: seq (S i) (length certs)). by rewrite K2.
  - exact K3.
Qed.

Lemma errors_listed (p : string) es :
  let ls := pair p <$> (DCA_error <$> es) in listed ls = [] ∧ numbers ls = [] ∧ shown_errors ls = es.
Proof.
  induction es as [|e es (K1 & K2 & K3)]; [done|]. cbv zeta in *. rewrite !fmap_cons.
  set (ls := pair p <$> (DCA_error <$> es)) in *. conjs; [exact K1|exact K2|]. change (e :: shown_errors ls = e :: es). by rewrite K3.
Qed.

Lemma each_lines_listed p cas : ∀ i,
  let ls := pair p <$> each_lines cas i in
  listed ls = mjoin (ca_good <$> cas) ∧ numbers ls = seq i (length (listed ls)) ∧
  shown_errors ls = mjoin (ca_unread <$> cas).
Proof.
  induction cas as [|s cas IH]; intros i; [done|]. cbn [each_lines].
  destruct (errors_listed p (ca_unread s)) as (E1 & E2 & E3), (ca_lines_listed p (ca_good s) i) as (C1 & C2 & C3),
    (IH (i + length (ca_good s))%nat) as (K1 & K2 & K3).
  cbv zeta. rewrite !fmap_app. unfold listed, numbers, shown_errors in *. rewrite !omap_app, E1, E2, E3, C1, C2, C3, K1, K2, K3, K1.
  conjs; [done| |done]. cbn. by rewrite length_app, seq_app.
Qed.

(** Loading any list of authorities. *)
Lemma load_CAs_any cas : ∀ errs st l pool, pools st !! l = Some pool →
  ∃ st', load_CAs l cas errs st = (st', Ok (errs ++ mjoin (ca_bad <$> cas))) ∧
    pools st' !! l = Some (pool_with (mjoin (ca_good <$> cas)) pool).
Proof.
  induction cas as [|s cas IH]; intros errs st l pool Hl; simpl.
  { exists st. by rewrite app_nil_r. }
  destruct (read_PEM_cases s) as [[d Hd]|[e Hd]]; rewrite Hd.
  - destruct (foreach_AddCert (E := load_error) (certs_of_PEM d) st l pool Hl) as (st1 & Hrun & _ & Hl1 & _).
    destruct (IH (errs ++ (match certs_of_PEM d with [] => [ErrNotACertificate (reader_String s)] | _ => [] end)) st1 l _ Hl1)
      as (st2 & Hrun2 & Hl2).
    exists st2. split.
    + assert (HA : AppendCertsFromPEM l d st = (st1, Ok (match certs_of_PEM d with [] => false | _ => true end))).
      { unfold AppendCertsFromPEM. by rewrite (SE_bind_run _ _ _ _ _ Hrun). }
      rewrite (SE_bind_run _ _ _ _ _ HA). unfold ca_bad. rewrite Hd. rewrite <- app_assoc in Hrun2.
      destruct (certs_of_PEM d); [exact Hrun2|by rewrite app_nil_r in Hrun2].
    + rewrite Hl2. unfold pool_with, ca_good. rewrite Hd. by rewrite foldl_app.
  - destruct (IH (errs ++ [Eread e]) st l pool Hl) as (st2 & Hrun2 & Hl2). exists st2.
    unfold ca_bad, ca_good. rewrite Hd, Hrun2, <- app_assoc. done.
Qed.

Lemma read_errors cas :
  omap (λ e, match e with ErrNotACertificate _ => None | _ => Some e end) (mjoin (ca_bad <$> cas)) = mjoin (ca_unread <$> cas).
Proof.
  induction cas as [|s cas IH]; [done|]. rewrite !fmap_cons.
  change (mjoin (ca_bad s :: ?l)) with (ca_bad s ++ mjoin l). rewrite omap_app, IH.
  change (mjoin (ca_unread s :: ?l)) with (ca_unread s ++ mjoin l). f_equal. unfold ca_bad, ca_unread.
  destruct (read_PEM_cases s) as [[d ->]|[e ->]]; [|done]. by destruct (certs_of_PEM d).
Qed.

(** C40: The diagnostics of a non-empty list of certificate authorities end on
    every input and agree with loading, which for such a list always makes a
    pool: the certificates they list, numbered from 0, are those loading adds to
    the pool, in the same order (the pool keeps one that is added again once),
    and the errors they show are those of loading except those for authorities
    without any certificate, which they pass over in silence. *)
Theorem diagCAs_agree_with_loading (cas : list string) (pre : string) (st : tls_store) :
  cas ≠ [] →
  let ls := lines (fst (diagCAs cas (mkLog pre []))) in
  numbers ls = seq 0 (length (listed ls)) ∧
  ∃ st' roots errs, LoadCertificateAuthorities cas st = (st', Ok (Some roots, errs)) ∧
    pools st' !! roots = Some (pool_with (listed ls) []) ∧
    shown_errors ls = omap (λ e, match e with ErrNotACertificate _ => None | _ => Some e end) errs.
Proof.
  intros Hne.
  assert (Hls : lines (fst (diagCAs cas (mkLog pre []))) =
    pair (pre +:+ "CertificateAuthorities: ") <$> (Dprovided :: each_lines cas 0)).
  { destruct cas as [|s cas]; [done|]. unfold diagCAs, with_prefix, mbind, LG_bind.
    cbn [SetPrefix Print_ prefix lines]. by rewrite diag_each_CA_run. }
  destruct (each_lines_listed (pre +:+ "CertificateAuthorities: ") cas 0) as (K1 & K2 & K3).
  assert (Hskip : ∀ p l, listed (pair p <$> Dprovided :: l) = listed (pair p <$> l) ∧
    numbers (pair p <$> Dprovided :: l) = numbers (pair p <$> l) ∧
    shown_errors (pair p <$> Dprovided :: l) = shown_errors (pair p <$> l)) by done.
  cbv zeta in *. rewrite Hls.
  destruct (Hskip (pre +:+ "CertificateAuthorities: ") (each_lines cas 0)) as (-> & -> & ->).
  split; [done|]. rewrite K1, K3. set (st0 := mkStore (pools st ++ [[]]) (configs st)).
  assert (Hl : pools st0 !! length (pools st) = Some []) by (simpl; by rewrite lookup_app_r, Nat.sub_diag).
  destruct (load_CAs_any cas [] st0 _ _ Hl) as (st' & Hrun & Hpool).
  exists st', (length (pools st)), (mjoin (ca_bad <$> cas)). conjs; [|done|by rewrite read_errors].
  destruct cas as [|s cas]; [done|]. unfold LoadCertificateAuthorities.
  rewrite (SE_bind_run _ _ st st0 (length (pools st)) eq_refl). by rewrite (SE_bind_run _ _ _ _ _ Hrun).
Qed.
End facts.

(** ** Authorities for the witness: a block is a dash and a letter, C for a
    certificate; the file "missing" cannot be read. *)
Definition toy_decode (s : string) : option (Block * string) :=
  match s with
  | String "-" (String "C" rest) => Some (mkBlock "CERTIFICATE" ∅ "c", rest)
  | String "-" (String _ rest) => Some (mkBlock "KEY" ∅ "k", rest)
  | _ => None
  end.
Definition toy_block_cert (b : Block) : option Certificate :=
  if String.eqb (b_Type b) "CERTIFICATE" then Some ca_cert else None.
Fixpoint toy_certs (fuel : nat) (s : string) : list Certificate :=
  match fuel with
  | O => []
  | S fuel => match toy_decode s with Some (b, rest) => option_list (toy_block_cert b) ++ toy_certs fuel rest | None => [] end
  end.

#[local] Instance toy_ca_pki : Pki := {|
  read_file s := if String.eqb s "missing" then inr "no such file" else inl s;
  pem_Decode := toy_decode;
  pem_Encode b := inl (b_Type b);
  IsEncryptedPEMBlock _ := false;
  DecryptPEMBlock _ _ := inr "unused"; ParsePKCS8PrivateKey _ _ := inr "unused";
  MarshalPKCS8PrivateKey _ := inr "unused"; X509KeyPair c k := inl (c +:+ k);
  certs_of_PEM s := toy_certs (String.length s) s
|}.
#[local] Instance toy_parse : CertParse := {| ParseCertificate _ := inl ca_cert; chain_of_pair _ := [] |}.

Lemma toy_decode_length s b rest : toy_decode s = Some (b, rest) → String.length s = S (S (String.length rest)).
Proof. unfold toy_decode. repeat (case_match; try done); by intros [= _ <-]. Qed.

#[local] Instance toy_ca_laws : PkiLaws.
Proof. intros content b rest Hd. rewrite (toy_decode_length _ _ _ Hd). lia. Qed.

Lemma toy_decode_block s b rest : toy_decode s = Some (b, rest) → Headers b = ∅.
Proof. unfold toy_decode. repeat (case_match; try done); by intros [= <- _]. Qed.

#[local] Instance toy_cert_laws : CertParseLaws.
Proof.
  intros content bs junk Hs. change (certs_of_PEM content) with (toy_certs (String.length content) content).
  generalize (Nat.le_refl (String.length content)). generalize (String.length content) at 2 3.
  induction Hs as [|content Hne Hd|content b rest bs junk Hne Hd Hs IH]; intros n Hn.
  - destruct n; constructor.
  - destruct n; [constructor|]. cbn [toy_certs]. change (toy_decode content = None) in Hd. rewrite Hd. constructor.
  - change (toy_decode content = Some (b, rest)) in Hd. pose proof (toy_decode_length _ _ _ Hd).
    destruct n as [|n]; [lia|]. cbn [toy_certs]. rewrite Hd. unfold toy_block_cert.
    destruct (String.eqb_spec (b_Type b) "CERTIFICATE"); simpl.
    + apply among_cert; [assumption|exact (toy_decode_block content b rest Hd)|reflexivity|apply IH; lia].
    + apply among_other; [by left|apply IH; lia].
Qed.

#[local] Existing Instance toy.

Lemma diagCAs_agree_with_loading_witness :
  let ls := lines (fst (diagCAs ["-C-K-C"; "missing"; "-K"; "-C"] (mkLog "" []))) in
  numbers ls = seq 0 (length (listed ls)) ∧
  ∃ st' roots errs, LoadCertificateAuthorities ["-C-K-C"; "missing"; "-K"; "-C"] (mkStore [] []) = (st', Ok (Some roots, errs)) ∧
    pools st' !! roots = Some (pool_with (listed ls) []) ∧
    shown_errors ls = omap (λ e, match e with ErrNotACertificate _ => None | _ => Some e end) errs.
Proof. apply (diagCAs_agree_with_loading ["-C-K-C"; "missing"; "-K"; "-C"] "" (mkStore [] [])). discriminate. Defined.

Example diagCAs_runs :
  snd <$> lines (fst (diagCAs ["-C-K-C"; "missing"; "-K"; "-C"] (mkLog "" []))) =
  [Dprovided; DCA_cert 0 ca_cert; DCA_cert 1 ca_cert; DCA_error (Eread "no such file"); DCA_cert 2 ca_cert].
Proof. vm_compute. reflexivity. Qed.

(** An authority without a certificate: loading refuses it, the diagnostics say
    nothing about it. *)
Theorem diag_silent_without_certificate :
  snd <$> lines (fst (diagCAs ["-K"] (mkLog "" []))) = [Dprovided] ∧
  snd (LoadCertificateAuthorities ["-K"] (mkStore [] [])) = Ok (Some 0%nat, [ErrNotACertificate "inline"]).
Proof. vm_compute. done. Qed.

End TlsDiag.
