(* ===== verification/Logp.v ===== *)
(** * Package [logp]: loggers and their cores

    level.go, environment.go, config.go, options.go, selective.go,
    typedloggercore.go, core.go, the constructors of logger.go, global.go and
    configure/logging.go.

    A zap core that writes somewhere ([zapcore.NewCore], an observer, a core
    given by the caller) is an [output]: a destination, the cell of the level
    it is enabled from, and the fields bound to it.  It behaves as zap
    documents: [Check] adds it when its level is enabled, [Write] always
    writes.  The cores for syslog and the Windows event log are those of this
    package (Module LogpSinks of LogpLogger.v); they write without the fields
    bound to them.  The other cores of this package are built around outputs.
    The state holds the level cells, what reached each destination, and the logger
    [storeLogger] installed.  Encoders, callers and stack traces are left
    out. *)
From S2P Require Import Prelude GoStrings GoUtf8 Rotator Paths TlsNames.

Open Scope string_scope.
Open Scope list_scope.
Open Scope Z_scope.

(** [strings.ToLower]; on ASCII texts it lowers the letters. *)
Definition is_ascii (s : string) : bool := forallb (λ a, N_of_ascii a <? 128)%N (String.list_ascii_of_string s).
Class GoLower := {
  ToLower : string → string;
  ToLower_ascii : ∀ s, is_ascii s = true → ToLower s = lower_bytes s
}.

(** ** level.go *)
Definition Level : Type := Z.
Definition DebugLevel : Level := -1.
Definition InfoLevel : Level := 0.
Definition WarnLevel : Level := 1.
Definition ErrorLevel : Level := 2.
Definition CriticalLevel : Level := 3.

(** zap's levels *)
Definition zapDebug : Z := -1.
Definition zapInfo : Z := 0.
Definition zapWarn : Z := 1.
Definition zapError : Z := 2.
Definition zapDPanic : Z := 3.

Definition levelStrings : list (Level * string) :=
  [(DebugLevel, "debug"); (InfoLevel, "info"); (WarnLevel, "warning"); (ErrorLevel, "error");
   (CriticalLevel, "critical")].
Definition zapLevels : list (Level * Z) :=
  [(DebugLevel, zapDebug); (InfoLevel, zapInfo); (WarnLevel, zapWarn); (ErrorLevel, zapError);
   (CriticalLevel, zapError)].

Definition level_lookup {A} (t : list (Level * A)) (l : Level) : option A :=
  snd <$> find (λ e, fst e =? l) t.

Definition Level_String (l : Level) : string :=
  match level_lookup levelStrings l with Some s => s | None => "Level(" +:+ Itoa l +:+ ")" end.

(** [l.Enabled(level)] *)
Definition Level_Enabled (l level : Level) : bool := l <=? level.

Definition Level_Unpack `{GoLower} (str : string) : res string Level :=
  let str := ToLower str in
  match find (λ e, String.eqb (snd e) str) levelStrings with
  | Some (level, _) => Ok level
  | None => Err ("invalid level '" +:+ str +:+ "'")
  end.

Definition MarshalYAML (l : Level) : res string string :=
  match level_lookup levelStrings l with Some s => Ok s | None => Err ("invalid level '" +:+ Itoa l +:+ "'") end.
Definition MarshalJSON (l : Level) : res string string :=
  match level_lookup levelStrings l with Some s => Ok s | None => Err ("invalid level '" +:+ Itoa l +:+ "'") end.

Definition ZapLevel (l : Level) : Z := default zapInfo (level_lookup zapLevels l).

(** ** environment.go *)
Inductive Environment :=
| DefaultEnvironment | SystemdEnvironment | ContainerEnvironment | MacOSServiceEnvironment
| WindowsServiceEnvironment | InvalidEnvironment.

#[global] Instance Environment_eq_dec : EqDecision Environment.
Proof. solve_decision. Defined.

Definition Environment_String (v : Environment) : string :=
  match v with
  | DefaultEnvironment => "default"
  | SystemdEnvironment => "systemd"
  | ContainerEnvironment => "container"
  | MacOSServiceEnvironment => "macos_service"
  | WindowsServiceEnvironment => "windows_service"
  | InvalidEnvironment => "<invalid>"
  end.

Definition ParseEnvironment `{GoLower} (s : string) : Environment :=
  let s := ToLower s in
  if String.eqb s "default" then DefaultEnvironment
  else if String.eqb s "systemd" then SystemdEnvironment
  else if String.eqb s "container" then ContainerEnvironment
  else if String.eqb s "macos_service" then MacOSServiceEnvironment
  else if String.eqb s "windows_service" then WindowsServiceEnvironment
  else InvalidEnvironment.

(** ** config.go *)
Record FileConfig := mkFileConfig {
  fc_Path : string; fc_Name : string; MaxSize : Z; fc_MaxBackups : Z; fc_Permissions : Z;
  fc_Interval : Z; fc_RotateOnStartup : bool; fc_RedirectStderr : bool
}.
Record MetricsConfig := mkMetricsConfig { m_Enabled : bool; m_Period : Z }.

Record Field := mkField { f_Key : string; f_String : string; f_other : Z }.

Record Config := mkLogConfig {
  Beat : string;
  cfg_Level : Level;
  Selectors : list string;
  toObserver : bool;
  toIODiscard : bool;
  ToStderr : bool;
  ToSyslog : bool;
  ToFiles : bool;
  ToEventLog : bool;
  cfg_Files : FileConfig;
  cfg_Metrics : MetricsConfig;
  WithFields : option (list Field);     (** a map; nil is [None] *)
  environment : Environment;
  AddCaller : bool;
  development : bool
}.

Definition defaultLevel : Level := InfoLevel.

Definition DefaultConfig (env : Environment) : Config :=
  let stderr := match env with ContainerEnvironment | SystemdEnvironment => true | _ => false end in
  mkLogConfig "" defaultLevel [] false false stderr false (negb stderr) false
    (mkFileConfig "" "" (10 * 1024 * 1024) 7 384 0 true false)
    (mkMetricsConfig true 30000000000) None env true false.

Definition DefaultEventConfig (env : Environment) : Config :=
  mkLogConfig "" defaultLevel [] false false false false true false
    (mkFileConfig "" "event-data" (5 * 1024 * 1024) 2 384 0 false false)
    (mkMetricsConfig false 0) None env true false.

Definition LogFilename (cfg : Config) : string :=
  if negb (String.eqb (fc_Name (cfg_Files cfg)) "") then fc_Name (cfg_Files cfg) else Beat cfg.

(** Updates of a configuration. *)
Definition set_Beat (b : string) (c : Config) : Config :=
  mkLogConfig b (cfg_Level c) (Selectors c) (toObserver c) (toIODiscard c) (ToStderr c) (ToSyslog c) (ToFiles c)
    (ToEventLog c) (cfg_Files c) (cfg_Metrics c) (WithFields c) (environment c) (AddCaller c) (development c).
Definition set_Level (l : Level) (c : Config) : Config :=
  mkLogConfig (Beat c) l (Selectors c) (toObserver c) (toIODiscard c) (ToStderr c) (ToSyslog c) (ToFiles c)
    (ToEventLog c) (cfg_Files c) (cfg_Metrics c) (WithFields c) (environment c) (AddCaller c) (development c).
Definition set_Selectors (s : list string) (c : Config) : Config :=
  mkLogConfig (Beat c) (cfg_Level c) s (toObserver c) (toIODiscard c) (ToStderr c) (ToSyslog c) (ToFiles c)
    (ToEventLog c) (cfg_Files c) (cfg_Metrics c) (WithFields c) (environment c) (AddCaller c) (development c).
Definition set_outputs (observer discard stderr files : bool) (c : Config) : Config :=
  mkLogConfig (Beat c) (cfg_Level c) (Selectors c) observer discard stderr (ToSyslog c) files
    (ToEventLog c) (cfg_Files c) (cfg_Metrics c) (WithFields c) (environment c) (AddCaller c) (development c).
Definition set_FileName (n : string) (c : Config) : Config :=
  let f := cfg_Files c in
  mkLogConfig (Beat c) (cfg_Level c) (Selectors c) (toObserver c) (toIODiscard c) (ToStderr c) (ToSyslog c) (ToFiles c)
    (ToEventLog c)
    (mkFileConfig (fc_Path f) n (MaxSize f) (fc_MaxBackups f) (fc_Permissions f) (fc_Interval f)
       (fc_RotateOnStartup f) (fc_RedirectStderr f))
    (cfg_Metrics c) (WithFields c) (environment c) (AddCaller c) (development c).

(** ** options.go *)
Inductive Option := WithLevel (l : Level) | WithSelectors (l : list string) | ToObserverOutput | ToDiscardOutput.

Definition apply_opt (cfg : Config) (o : Option) : Config :=
  match o with
  | WithLevel l => set_Level l cfg
  | WithSelectors l => set_Selectors (Selectors cfg ++ l) cfg
  | ToObserverOutput => set_outputs true (toIODiscard cfg) false (ToFiles cfg) cfg
  | ToDiscardOutput => set_outputs (toObserver cfg) true false (ToFiles cfg) cfg
  end.

(** ** Cores *)
Inductive destination :=
| Discard | Stderr | Syslog | EventLog | Observed
| FileDest (filename : string) (options : list RotatorOption)
| External (n : nat).

(** A zap core: where it writes, the cell of its level, the bound fields, and
    whether it is an [io.Closer]. *)
Record output := mkOutput { dest : destination; level_cell : nat; bound : list Field; closable : bool }.

(** The cores of syslog_unix.go and eventlog_windows.go keep the fields given to
    [With] and do not write them. *)
Definition keeps_bound (d : destination) : bool := match d with Syslog | EventLog => false | _ => true end.
Definition written_fields (o : output) (fields : list Field) : list Field :=
  if keeps_bound (dest o) then bound o ++ fields else fields.

Record Entry := mkLogEntry { ent_Level : Z; LoggerName : string; Message : string }.

Inductive Core :=
| NopCore
| OutputCore (o : output)
| closerCore (core : Core) (closer : destination)
| selectiveCore (allSelectors : bool) (selectors : gset string) (core : Core)
| typedLoggerCore (typedCore defaultCore : Core) (value key : string)
| multiCore (cores : list Core).

Inductive log_error :=
| Eoutput (msg : string)
| Ejoined (errs : list log_error)
| Esync (defaultErr typedErr : option log_error).

(** [errors.Join] *)
Definition errors_Join (errs : list (option log_error)) : option log_error :=
  match omap id errs with [] => None | es => Some (Ejoined es) end.

Record zapLogger := mkZap { z_core : Core; z_name : string }.
Record Logger := mkLogger { logger : zapLogger; l_selectors : gset string }.

Record coreLogger := mkCoreLogger {
  selectors : gset string;
  rootLogger : zapLogger;
  globalLogger : zapLogger;
  core_logger : Logger;
  level : nat;
  observedLogs : bool
}.

Record lstate := mkLstate {
  cells : list Z;                                      (** atomic levels *)
  written : list (destination * Entry * list Field);   (** latest first *)
  synced : list destination;
  closed : list destination;
  golog_enabled : bool;       (** output of the standard logger: default or discarded *)
  current : coreLogger
}.

(** [init]: nothing is logged before the package is configured. *)
Definition init_state : lstate :=
  let nop := mkZap NopCore "" in
  mkLstate [zapInfo] [] [] [] true (mkCoreLogger ∅ nop nop (mkLogger nop ∅) 0 false).

Definition on_written (g : list (destination * Entry * list Field) → list (destination * Entry * list Field))
    (st : lstate) : lstate :=
  mkLstate (cells st) (g (written st)) (synced st) (closed st) (golog_enabled st) (current st).
Definition set_current (c : coreLogger) (st : lstate) : lstate :=
  mkLstate (cells st) (written st) (synced st) (closed st) (golog_enabled st) c.
Definition set_golog (b : bool) (st : lstate) : lstate :=
  mkLstate (cells st) (written st) (synced st) (closed st) b (current st).
Definition set_cells (l : list Z) (st : lstate) : lstate :=
  mkLstate l (written st) (synced st) (closed st) (golog_enabled st) (current st).

(** [AtomicLevel.Enabled] *)
Definition cell_enabled (lv : list Z) (c : nat) (l : Z) : bool :=
  match lv !! c with Some m => m <=? l | None => false end.

Fixpoint core_Enabled (lv : list Z) (c : Core) (l : Z) : bool :=
  match c with
  | NopCore => false
  | OutputCore o => cell_enabled lv (level_cell o) l
  | closerCore core _ => core_Enabled lv core l
  | selectiveCore _ _ core => core_Enabled lv core l
  | typedLoggerCore _ defaultCore _ _ => core_Enabled lv defaultCore l
  | multiCore cores => existsb (λ core, core_Enabled lv core l) cores
  end.

Definition selectiveWrapper (core : Core) (selectors : gset string) : Core :=
  if bool_decide (selectors = ∅) then core
  else selectiveCore (bool_decide ("*" ∈ selectors)) selectors core.

Fixpoint core_With (fields : list Field) (c : Core) : Core :=
  match c with
  | NopCore => NopCore
  | OutputCore o => OutputCore (mkOutput (dest o) (level_cell o) (bound o ++ fields) (closable o))
  | closerCore core closer => closerCore (core_With fields core) closer
  | selectiveCore _ selectors core => selectiveWrapper (core_With fields core) selectors
  | typedLoggerCore typedCore defaultCore value key =>
      typedLoggerCore (core_With fields typedCore) (core_With fields defaultCore) value key
  | multiCore cores => multiCore (map (core_With fields) cores)
  end.

(** The cores a checked entry collects. *)
Fixpoint core_Check (lv : list Z) (ent : Entry) (c : Core) (ce : list Core) : list Core :=
  match c with
  | NopCore => ce
  | OutputCore o => if cell_enabled lv (level_cell o) (ent_Level ent) then ce ++ [c] else ce
  | closerCore core _ => core_Check lv ent core ce
  | selectiveCore allSelectors selectors core =>
      if core_Enabled lv c (ent_Level ent) then
        if ent_Level ent =? zapDebug then
          if allSelectors then ce ++ [c]
          else if bool_decide (LoggerName ent ∈ selectors) then ce ++ [c]
          else ce
        else ce ++ [c]
      else ce
  | typedLoggerCore _ defaultCore _ _ =>
      if core_Enabled lv defaultCore (ent_Level ent) then ce ++ [c] else ce
  | multiCore cores => foldl (λ ce core, core_Check lv ent core ce) ce cores
  end.

Section outputs.
(** The errors of the destinations. *)
Context (write_error sync_error close_error : destination → option string).

Definition LW : Type := lstate → lstate * option log_error.

Fixpoint core_Write (ent : Entry) (fields : list Field) (c : Core) : LW := λ st,
  match c with
  | NopCore => (st, None)
  | OutputCore o =>
      match write_error (dest o) with
      | Some e => (st, Some (Eoutput e))
      | None => (on_written (cons (dest o, ent, written_fields o fields)) st, None)
      end
  | closerCore core _ => core_Write ent fields core st
  | selectiveCore _ _ core => core_Write ent fields core st
  | typedLoggerCore typedCore defaultCore value key =>
      match find (λ f, String.eqb (f_Key f) key) fields with
      | Some f =>
          if String.eqb (f_String f) value then core_Write ent fields typedCore st
          else core_Write ent fields defaultCore st
      | None => core_Write ent fields defaultCore st
      end
  | multiCore cores =>
      let '(st', errs) := foldl (λ '(st, errs) core,
        let '(st', e) := core_Write ent fields core st in (st', errs ++ [e])) (st, []) cores in
      (st', errors_Join errs)
  end.

Definition sync_dest (d : destination) : LW := λ st,
  if negb (keeps_bound d) then (st, None)     (* their Sync does nothing *)
  else
  match sync_error d with
  | Some e => (st, Some (Eoutput e))
  | None => (mkLstate (cells st) (written st) (d :: synced st) (closed st) (golog_enabled st) (current st), None)
  end.

Fixpoint core_Sync (c : Core) : LW := λ st,
  match c with
  | NopCore => (st, None)
  | OutputCore o => sync_dest (dest o) st
  | closerCore core _ => core_Sync core st
  | selectiveCore _ _ core => core_Sync core st
  | typedLoggerCore typedCore defaultCore _ _ =>
      let '(st1, defaultErr) := core_Sync defaultCore st in
      let '(st2, typedErr) := core_Sync typedCore st1 in
      (st2, match defaultErr, typedErr with None, None => None | _, _ => Some (Esync defaultErr typedErr) end)
  | multiCore cores =>
      let '(st', errs) := foldl (λ '(st, errs) core,
        let '(st', e) := core_Sync core st in (st', errs ++ [e])) (st, []) cores in
      (st', errors_Join errs)
  end.

Definition close_dest (d : destination) : LW := λ st,
  match close_error d with
  | Some e => (st, Some (Eoutput e))
  | None => (mkLstate (cells st) (written st) (synced st) (d :: closed st) (golog_enabled st) (current st), None)
  end.

(** [core.(io.Closer)], then [Close]: [None] when the core has no [Close]. *)
Fixpoint core_Close (c : Core) : option LW :=
  match c with
  | NopCore => None
  | OutputCore o => if closable o then Some (close_dest (dest o)) else None
  | closerCore _ closer => Some (close_dest closer)
  | selectiveCore _ _ core =>
      Some (λ st, match core_Close core with Some close => close st | None => (st, None) end)
  | typedLoggerCore typedCore defaultCore _ _ =>
      Some (λ st,
        let '(st1, e1) := match core_Close defaultCore with Some close => close st | None => (st, None) end in
        let '(st2, e2) := match core_Close typedCore with Some close => close st1 | None => (st1, None) end in
        (st2, errors_Join [e1; e2]))
  | multiCore cores =>
      Some (λ st,
        let '(st', errs) := foldl (λ '(st, errs) core,
          match core_Close core with
          | Some close => let '(st', e) := close st in (st', errs ++ [e])
          | None => (st, errs)
          end) (st, []) cores in
        (st', errors_Join errs))
  end.

(** ** Loggers *)
(** [zap.Logger.Named] *)
Definition zap_Named (s : string) (z : zapLogger) : zapLogger :=
  if String.eqb s "" then z
  else mkZap (z_core z) (if String.eqb (z_name z) "" then s else z_name z +:+ "." +:+ s).

Definition zap_With (fields : list Field) (z : zapLogger) : zapLogger := mkZap (core_With fields (z_core z)) (z_name z).

(** [zap.Logger.Check]: nil when the core is not enabled for a level below
    panics. *)
Definition zap_Check (z : zapLogger) (lvl : Z) (msg : string) (st : lstate) : list Core :=
  if (lvl <? zapDPanic) && negb (core_Enabled (cells st) (z_core z) lvl) then []
  else core_Check (cells st) (mkLogEntry lvl (z_name z) msg) (z_core z) [].

(** A call of a level's method: every checked core writes. *)
Definition zap_log (z : zapLogger) (lvl : Z) (msg : string) (fields : list Field) (st : lstate) : lstate :=
  foldl (λ st core, fst (core_Write (mkLogEntry lvl (z_name z) msg) fields core st)) st (zap_Check z lvl msg st).

Definition newLogger (root : zapLogger) (selectors : gset string) : Logger := mkLogger root selectors.
Definition NewLogger (selector : string) (st : lstate) : Logger :=
  newLogger (zap_Named selector (rootLogger (current st))) ∅.
Definition NewNopLogger : Logger := mkLogger (mkZap NopCore "") ∅.
Definition NewZapLogger (z : zapLogger) : Logger := mkLogger z ∅.
Definition Logger_HasSelector (l : Logger) (selector : string) : bool := bool_decide (selector ∈ l_selectors l).
Definition Logger_With (fields : list Field) (l : Logger) : Logger := mkLogger (zap_With fields (logger l)) (l_selectors l).
Definition Logger_Named (name : string) (l : Logger) : Logger := mkLogger (zap_Named name (logger l)) (l_selectors l).
Definition Logger_Sync (l : Logger) : LW := core_Sync (z_core (logger l)).
Definition Logger_Core (l : Logger) : Core := z_core (logger l).
Definition Logger_Close (l : Logger) : LW := λ st,
  match core_Close (Logger_Core l) with Some close => close st | None => (st, None) end.
Definition L (st : lstate) : Logger := core_logger (current st).
Definition HasSelector (selector : string) (st : lstate) : bool :=
  bool_decide (selector ∈ selectors (current st)).

(** ** global.go *)
Definition IsDebug (selector : string) (st : lstate) : bool :=
  match zap_Check (zap_Named selector (globalLogger (current st))) zapDebug "" st with [] => false | _ => true end.

Definition global_log (lvl : Z) (msg : string) (st : lstate) : lstate :=
  if core_Enabled (cells st) (z_core (globalLogger (current st))) lvl
  then zap_log (globalLogger (current st)) lvl msg [] st else st.
Definition Debug (selector msg : string) (st : lstate) : lstate :=
  if core_Enabled (cells st) (z_core (globalLogger (current st))) zapDebug
  then zap_log (zap_Named selector (globalLogger (current st))) zapDebug msg [] st else st.
Definition Info (msg : string) (st : lstate) : lstate := global_log zapInfo msg st.
Definition Warn (msg : string) (st : lstate) : lstate := global_log zapWarn msg st.
Definition Err_ (msg : string) (st : lstate) : lstate := global_log zapError msg st.
Definition Critical (msg : string) (st : lstate) : lstate := global_log zapError msg st.
Definition MakeDebug (selector msg : string) (st : lstate) : lstate :=
  zap_log (zap_Named selector (globalLogger (current st))) zapDebug msg [] st.

(** ** core.go *)
(** The errors of opening an output, and [paths.Paths]. *)
Context (open_error : destination → option string) (dirs : Path).

Abbreviation LM := (SE lstate log_error).

Definition wrappedCore (o : output) : Core :=
  if closable o then closerCore (OutputCore o) (dest o) else OutputCore o.
Definition newCore (d : destination) (enab : nat) : Core := wrappedCore (mkOutput d enab [] false).

(** [makeSyslogOutput]; the core has a [Close]. *)
Definition makeOutput (d : destination) (enab : nat) : LM Core :=
  match open_error d with Some e => fail (Eoutput e) | None => mret (wrappedCore (mkOutput d enab [] true)) end.

Definition makeEventLogOutput (cfg : Config) (enab : nat) : LM Core :=
  if String.eqb (Beat cfg) "" then fail (Eoutput "appName cannot be empty") else makeOutput EventLog enab.

(** [makeFileOutput]: the rotator is the destination. *)
Definition file_options (cfg : Config) : list RotatorOption :=
  let f := cfg_Files cfg in
  [MaxSizeBytes (MaxSize f); MaxBackups (fc_MaxBackups f); Permissions (fc_Permissions f);
   Interval (fc_Interval f); RotateOnStartup (fc_RotateOnStartup f); RedirectStderr (fc_RedirectStderr f)].

Definition file_destination (cfg : Config) : res paths_error destination :=
  filename ← Resolve dirs logs_type (filepath_Join [fc_Path (cfg_Files cfg); LogFilename cfg]);
  Ok (FileDest filename (file_options cfg)).

Definition makeFileOutput (cfg : Config) (enab : nat) : LM Core :=
  match file_destination cfg with
  | Ok d =>
      match open_error d with
      | Some e => fail (Eoutput e)
      | None => mret (closerCore (newCore d enab) d)
      end
  | Err _ => panics PNilPointer
  | Panic p => panics p
  | OutOfFuel => no_fuel
  end.

Definition createLogOutput (cfg : Config) (enab : nat) : LM Core :=
  if toIODiscard cfg then mret (newCore Discard enab)
  else if ToStderr cfg then mret (newCore Stderr enab)
  else if ToSyslog cfg then makeOutput Syslog enab
  else if ToEventLog cfg then makeEventLogOutput cfg enab
  else if ToFiles cfg then makeFileOutput cfg enab
  else
    match environment cfg with
    | SystemdEnvironment | ContainerEnvironment => mret (newCore Stderr enab)
    | MacOSServiceEnvironment | WindowsServiceEnvironment => makeFileOutput cfg enab
    | _ => mret NopCore
    end.

(** [zap.NewAtomicLevelAt] *)
Definition new_cell (l : Z) : LM nat :=
  st ← get_store; set_store (set_cells (cells st ++ [l]) st) ≫= λ _, mret (length (cells st)).

(** The selectors of a configuration and whether they restrict its sink. *)
Definition config_selectors (cfg : Config) : option (gset string) :=
  if Level_Enabled (cfg_Level cfg) DebugLevel && negb (bool_decide (Selectors cfg = [])) then
    let sels : gset string := list_to_set (map TrimSpace (Selectors cfg)) in
    Some (if bool_decide (sels = ∅) then {[ "*" ]} else sels)
  else None.

Definition createSink (cfg : Config) (outputs : list Core) : LM (Core * nat * bool * gset string) :=
  lvl ← new_cell (ZapLevel (cfg_Level cfg));
  sink ← (if toObserver cfg then mret (OutputCore (mkOutput Observed lvl [] false)) else createLogOutput cfg lvl);
  modify (set_golog false) ≫= λ _,
  match config_selectors cfg with
  | Some sels =>
      (if bool_decide ("stdlog" ∈ sels) || bool_decide ("*" ∈ sels) then modify (set_golog true) else mret tt) ≫= λ _,
      mret (multiCore (outputs ++ [selectiveWrapper sink sels]), lvl, toObserver cfg, sels)
  | None => mret (multiCore (outputs ++ [sink]), lvl, toObserver cfg, ∅)
  end.

(** [makeOptions]: the name of the service is a bound field. *)
Definition zap_New (core : Core) (cfg : Config) : zapLogger :=
  mkZap (if String.eqb (Beat cfg) "" then core else core_With [mkField "service.name" (Beat cfg) 0] core) "".

Definition storeLogger (l : coreLogger) : LM unit := λ st,
  let '(st', _) := core_Sync (z_core (rootLogger (current st))) st in (set_current l st', Ok tt).

Definition install (root : zapLogger) (sels : gset string) (lvl : nat) (observed : bool) : LM unit :=
  storeLogger (mkCoreLogger sels root root (newLogger root sels) lvl observed).

Definition ConfigureWithOutputs (cfg : Config) (outputs : list Core) : LM unit :=
  '(sink, lvl, observed, sels) ← createSink cfg outputs;
  install (zap_New sink cfg) sels lvl observed.

Definition Configure (cfg : Config) : LM unit := ConfigureWithOutputs cfg [].

(** The two functions that take a core differ in that the local one also
    returns the logger. *)
Definition ConfigureWithCoreLocal (cfg : Config) (core : output) : LM Logger :=
  lvl ← new_cell (ZapLevel (cfg_Level cfg));
  let core := match WithFields cfg with
              | Some fields => mkOutput (dest core) (level_cell core) (bound core ++ fields) (closable core)
              | None => core
              end in
  let sink := wrappedCore core in
  let sels := config_selectors cfg in
  let sink := match sels with Some s => selectiveWrapper sink s | None => sink end in
  let root := zap_New sink cfg in
  install root (default ∅ sels) lvl false ≫= λ _,
  mret (newLogger root (default ∅ sels)).
Definition ConfigureWithCore (cfg : Config) (core : output) : LM unit :=
  ConfigureWithCoreLocal cfg core ≫= λ _, mret tt.

Definition typed_output (localLogger : bool) (cfg typedCfg : Config) (key value : string) (outputs : list Core)
    : LM Logger :=
  '(sink, lvl, observed, sels) ← createSink cfg outputs;
  typedCore ← (if toObserver cfg && negb localLogger then mret sink else createLogOutput typedCfg lvl);
  let root := zap_New (selectiveWrapper (typedLoggerCore typedCore sink value key) sels) cfg in
  install root sels lvl observed ≫= λ _,
  mret (newLogger root sels).
Definition ConfigureWithTypedOutput (cfg typedCfg : Config) (key value : string) (outputs : list Core) : LM unit :=
  typed_output false cfg typedCfg key value outputs ≫= λ _, mret tt.
Definition ConfigureWithTypedOutputLocal (cfg typedCfg : Config) (key value : string) (outputs : list Core)
    : LM Logger :=
  typed_output true cfg typedCfg key value outputs.

Definition DevelopmentSetup (options : list Option) : LM unit :=
  let cfg := mkLogConfig "" DebugLevel [] false false true false false false
    (mkFileConfig "" "" 0 0 0 0 false false) (mkMetricsConfig false 0) None DefaultEnvironment true true in
  Configure (foldl apply_opt cfg options).

(** [testV]: the value of the flag test.v, if it is defined. *)
Definition TestingSetup (testV : option string) (options : list Option) : LM unit :=
  match testV with
  | Some v => if String.eqb v "true" then DevelopmentSetup options else mret tt
  | None => mret tt
  end.

Definition Sync : LW := λ st, core_Sync (z_core (rootLogger (current st))) st.
Definition SetLevel (lvl : Z) : LM unit :=
  modify (λ st, set_cells (<[level (current st) := lvl]> (cells st)) st).
Definition GetLevel (st : lstate) : option Z := cells st !! level (current st).

(** ** configure/logging.go *)
Record flags := mkFlags {
  verbose : bool; flag_toStderr : bool; debugSelectors : list string; flag_environment : Environment
}.

Definition applyFlags (fl : flags) (cfg : Config) : Config :=
  let cfg := if flag_toStderr fl then set_outputs (toObserver cfg) (toIODiscard cfg) true (ToFiles cfg) cfg else cfg in
  let cfg := if (cfg_Level cfg >? InfoLevel) && verbose fl then set_Level InfoLevel cfg else cfg in
  let cfg := foldl (λ cfg sels, set_Selectors (Selectors cfg ++ Split sels ",") cfg) cfg (debugSelectors fl) in
  let cfg := match debugSelectors fl with [] => cfg | _ => set_Level DebugLevel cfg end in
  if ToFiles cfg && ToStderr cfg then
    let defaultConfig := DefaultConfig (flag_environment fl) in
    if negb (Bool.eqb (ToFiles defaultConfig) (ToFiles cfg))
    then set_outputs (toObserver cfg) (toIODiscard cfg) (negb (ToFiles cfg)) (ToFiles cfg) cfg
    else if negb (Bool.eqb (ToStderr defaultConfig) (ToStderr cfg))
    then set_outputs (toObserver cfg) (toIODiscard cfg) (ToStderr cfg) (negb (ToStderr cfg)) cfg
    else cfg
  else cfg.

(** [unpack] is the effect of the user's configuration, [None] without one. *)
Definition base_config (fl : flags) (beatName : string) (unpack : option (Config → res string Config))
    : res string Config :=
  let cfg := set_Beat beatName (DefaultConfig (flag_environment fl)) in
  cfg ← match unpack with Some u => u cfg | None => Ok cfg end;
  Ok (applyFlags fl cfg).

Definition typed_config (fl : flags) (beatName : string) (cfg : Config)
    (unpack : option (Config → res string Config)) : res string Config :=
  let typed := DefaultEventConfig (flag_environment fl) in
  let defaultName := fc_Name (cfg_Files typed) in
  let typed := set_Beat beatName typed in
  typed ← match unpack with Some u => u typed | None => Ok typed end;
  let typed := set_Selectors (Selectors cfg) (set_Level (cfg_Level cfg) typed) in
  Ok (if String.eqb (fc_Name (cfg_Files typed)) defaultName
      then set_FileName (beatName +:+ "-events-data") typed else typed).

Definition cfg_res {A} (r : res string A) : LM A :=
  lift (match r with Ok a => Ok a | Err e => Err (Eoutput e) | Panic p => Panic p | OutOfFuel => OutOfFuel end).

Definition Logging (fl : flags) (beatName : string) (unpack : option (Config → res string Config)) : LM unit :=
  cfg ← cfg_res (base_config fl beatName unpack); Configure cfg.
Definition LoggingWithOutputs (fl : flags) (beatName : string) (unpack : option (Config → res string Config))
    (outputs : list Core) : LM unit :=
  cfg ← cfg_res (base_config fl beatName unpack); ConfigureWithOutputs cfg outputs.
Definition LoggingWithTypedOutputsLocal (fl : flags) (beatName : string)
    (unpack typedUnpack : option (Config → res string Config)) (logKey kind : string) (outputs : list Core)
    : LM Logger :=
  cfg ← cfg_res (base_config fl beatName unpack);
  typed ← cfg_res (typed_config fl beatName cfg typedUnpack);
  ConfigureWithTypedOutputLocal cfg typed logKey kind outputs.
Definition LoggingWithTypedOutputs (fl : flags) (beatName : string)
    (unpack typedUnpack : option (Config → res string Config)) (logKey kind : string) (outputs : list Core)
    : LM unit :=
  cfg ← cfg_res (base_config fl beatName unpack);
  typed ← cfg_res (typed_config fl beatName cfg typedUnpack);
  ConfigureWithTypedOutput cfg typed logKey kind outputs.

Definition environmentVar_Set `{GoLower} (fl : flags) (s : string) : res string flags :=
  let env := ParseEnvironment s in
  if bool_decide (env = InvalidEnvironment) then Err ("'" +:+ s +:+ "' is not supported")
  else Ok (mkFlags (verbose fl) (flag_toStderr fl) (debugSelectors fl) env).
End outputs.
