(* ===== verification/LogpFacts.v ===== *)
(** * Package [logp]: where entries go

    What a log call adds to the destinations, for the loggers the Configure
    functions install. *)
From S2P Require Import Prelude GoStrings GoUtf8 GoTime Trigger Rotator Paths TlsNames Logp.

Open Scope string_scope.
Open Scope list_scope.
Open Scope Z_scope.

Abbreviation delivery := (destination * Entry * list Field)%type.

(** Induction on cores through the list of a [multiCore]. *)
Lemma Core_ind' (P : Core → Prop) :
  P NopCore → (∀ o, P (OutputCore o)) → (∀ c d, P c → P (closerCore c d)) →
  (∀ a s c, P c → P (selectiveCore a s c)) → (∀ t d v k, P t → P d → P (typedLoggerCore t d v k)) →
  (∀ cs, Forall P cs → P (multiCore cs)) → ∀ c, P c.
Proof.
  intros H1 H2 H3 H4 H5 H6. fix IH 1. intros [|o|c d|a s c|t d v k|cs].
  - exact H1.
  - apply H2.
  - apply H3, IH.
  - apply H4, IH.
  - apply H5; apply IH.
  - apply H6. induction cs as [|c cs IHcs]; constructor; [apply IH|exact IHcs].
Qed.

(** ** What a core writes and delivers *)
Fixpoint writes (ent : Entry) (fields : list Field) (c : Core) : list delivery :=
  match c with
  | NopCore => []
  | OutputCore o => [(dest o, ent, written_fields o fields)]
  | closerCore core _ => writes ent fields core
  | selectiveCore _ _ core => writes ent fields core
  | typedLoggerCore typedCore defaultCore value key =>
      match find (λ f, String.eqb (f_Key f) key) fields with
      | Some f => if String.eqb (f_String f) value then writes ent fields typedCore else writes ent fields defaultCore
      | None => writes ent fields defaultCore
      end
  | multiCore cores => concat (map (writes ent fields) cores)
  end.

Definition selected (all : bool) (sels : gset string) (ent : Entry) : bool :=
  negb (ent_Level ent =? zapDebug) || all || bool_decide (LoggerName ent ∈ sels).

Fixpoint delivers (lv : list Z) (ent : Entry) (fields : list Field) (c : Core) : list delivery :=
  match c with
  | NopCore => []
  | OutputCore o => if cell_enabled lv (level_cell o) (ent_Level ent) then writes ent fields c else []
  | closerCore core _ => delivers lv ent fields core
  | selectiveCore all sels core =>
      if core_Enabled lv core (ent_Level ent) && selected all sels ent then writes ent fields core else []
  | typedLoggerCore _ defaultCore _ _ =>
      if core_Enabled lv defaultCore (ent_Level ent) then writes ent fields c else []
  | multiCore cores => concat (map (delivers lv ent fields) cores)
  end.

Lemma delivers_disabled lv ent fields c : core_Enabled lv c (ent_Level ent) = false → delivers lv ent fields c = [].
Proof.
  induction c as [|o|c d IH|a s c IH|t d v k _ IH|cs IH] using Core_ind'; simpl; intros He.
  - done.
  - by rewrite He.
  - auto.
  - by rewrite He.
  - by rewrite He.
  - induction IH as [|c cs Hc _ IHcs]; simpl in *; [done|]. apply orb_false_iff in He as [He1 He2].
    by rewrite Hc, IHcs.
Qed.

Section facts.
Context (write_error sync_error close_error open_error : destination → option string) (dirs : Path).
Context (no_write_error : ∀ d, write_error d = None).

Lemma core_Write_spec ent fields c st :
  core_Write write_error ent fields c st = (on_written (λ w, rev (writes ent fields c) ++ w) st, None).
Proof.
  revert st. induction c as [|o|c d IH|a s c IH|t d v k IHt IHd|cs IH] using Core_ind'; intros st; simpl.
  - by destruct st.
  - by rewrite no_write_error.
  - apply IH.
  - apply IH.
  - destruct (find _ fields) as [f|]; [destruct (String.eqb (f_String f) v)|]; auto.
  - assert (Hgen : ∀ st errs, omap id errs = [] →
      ∃ errs', foldl (λ '(st, errs) core,
        let '(st', e) := core_Write write_error ent fields core st in (st', errs ++ [e])) (st, errs) cs =
      (on_written (λ w, rev (concat (map (writes ent fields) cs)) ++ w) st, errs') ∧ omap id errs' = []).
    { induction IH as [|c cs Hc _ IHcs]; intros st1 errs Herrs; simpl.
      - exists errs. split; [by destruct st1|done].
      - rewrite Hc. destruct (IHcs (on_written (λ w, rev (writes ent fields c) ++ w) st1) (errs ++ [None]))
          as (errs' & Hf & He); [by rewrite omap_app, Herrs|].
        exists errs'. rewrite Hf. split; [|done]. f_equal. unfold on_written. simpl.
        by rewrite rev_app_distr, app_assoc. }
    destruct (Hgen st [] eq_refl) as (errs' & -> & He). unfold errors_Join. by rewrite He.
Qed.

(** Writing to the cores of a checked entry. *)
Lemma writes_checked lv ent fields c ce :
  concat (map (writes ent fields) (core_Check lv ent c ce)) =
  concat (map (writes ent fields) ce) ++ delivers lv ent fields c.
Proof.
  assert (Hadd : ∀ ce x, concat (map (writes ent fields) (ce ++ [x])) =
    concat (map (writes ent fields) ce) ++ writes ent fields x).
  { intros. rewrite map_app, concat_app. simpl. by rewrite app_nil_r. }
  revert ce. induction c as [|o|c d IH|a s c IH|t d v k _ IH|cs IH] using Core_ind'; intros ce;
    cbn [core_Check delivers].
  - by rewrite app_nil_r.
  - destruct (cell_enabled _ _ _); [apply Hadd|by rewrite app_nil_r].
  - apply IH.
  - cbn [core_Enabled]. unfold selected. destruct (core_Enabled lv c (ent_Level ent)); [|by rewrite app_nil_r].
    destruct (ent_Level ent =? zapDebug), a, (bool_decide (LoggerName ent ∈ s)); cbn [negb orb andb];
      (rewrite Hadd; reflexivity) || by rewrite app_nil_r.
  - destruct (core_Enabled _ _ _); [apply Hadd|by rewrite app_nil_r].
  - revert ce. induction IH as [|c cs Hc _ IHcs]; intros ce; simpl; [by rewrite app_nil_r|].
    by rewrite IHcs, Hc, app_assoc.
Qed.

(** A log call adds exactly what the core delivers. *)
Lemma zap_log_spec z lvl msg fields st : lvl < zapDPanic →
  zap_log write_error z lvl msg fields st =
    on_written (λ w, rev (delivers (cells st) (mkLogEntry lvl (z_name z) msg) fields (z_core z)) ++ w) st.
Proof.
  intros Hlvl. unfold zap_log. set (ent := mkLogEntry lvl (z_name z) msg).
  assert (Hfold : ∀ ce st, foldl (λ st core, fst (core_Write write_error ent fields core st)) st ce =
    on_written (λ w, rev (concat (map (writes ent fields) ce)) ++ w) st).
  { induction ce as [|c ce IH]; intros s; simpl; [by destruct s|].
    rewrite core_Write_spec. simpl. rewrite IH. unfold on_written. simpl. by rewrite rev_app_distr, app_assoc. }
  rewrite Hfold. f_equal. unfold zap_Check.
  rewrite (proj2 (Z.ltb_lt _ _) Hlvl). cbn [andb].
  destruct (core_Enabled (cells st) (z_core z) lvl) eqn:He; cbn [negb].
  - fold ent. by rewrite (writes_checked _ ent fields _ []).
  - by rewrite (delivers_disabled (cells st) ent fields (z_core z) He).
Qed.

(** ** The sinks of a configuration *)
(** Where the output of a configuration goes; [None]: nowhere. *)
Definition output_destination (cfg : Config) : res paths_error (option destination) :=
  let file := d ← file_destination dirs cfg; Ok (Some d) in
  if toIODiscard cfg then Ok (Some Discard)
  else if ToStderr cfg then Ok (Some Stderr)
  else if ToSyslog cfg then Ok (Some Syslog)
  else if ToEventLog cfg then Ok (Some EventLog)
  else if ToFiles cfg then file
  else match environment cfg with
       | SystemdEnvironment | ContainerEnvironment => Ok (Some Stderr)
       | MacOSServiceEnvironment | WindowsServiceEnvironment => file
       | _ => Ok None
       end.
Definition config_destination (cfg : Config) : res paths_error (option destination) :=
  if toObserver cfg then Ok (Some Observed) else output_destination cfg.

(** A core that writes to a destination at the level of a cell. *)
Definition sink_core (D : option destination) (lvl : nat) (c : Core) : Prop :=
  match D with
  | None => c = NopCore
  | Some d => ∃ closable, let o := OutputCore (mkOutput d lvl [] closable) in c = o ∨ c = closerCore o d
  end.

Lemma makeOutput_inv d lvl st st' c : makeOutput open_error d lvl st = (st', Ok c) → st' = st ∧ sink_core (Some d) lvl c.
Proof.
  unfold makeOutput. destruct (open_error d); [done|]. intros [= <- <-]. split; [done|]. exists true. by right.
Qed.

Lemma makeFileOutput_inv cfg lvl st st' c : makeFileOutput open_error dirs cfg lvl st = (st', Ok c) →
  st' = st ∧ ∃ d, file_destination dirs cfg = Ok d ∧ c = closerCore (newCore d lvl) d.
Proof.
  unfold makeFileOutput. destruct (file_destination dirs cfg) as [d| | |]; try done.
  destruct (open_error d); [done|]. intros [= <- <-]. eauto.
Qed.

Lemma createLogOutput_inv cfg lvl st st' c : createLogOutput open_error dirs cfg lvl st = (st', Ok c) →
  st' = st ∧ ∃ D, output_destination cfg = Ok D ∧ sink_core D lvl c.
Proof.
  unfold createLogOutput, output_destination. intros Hrun.
  unfold makeEventLogOutput in Hrun.
  repeat case_match; try (apply makeOutput_inv in Hrun as [-> ?]; split; [done|]; eexists; by split);
    try (apply makeFileOutput_inv in Hrun as (-> & d & -> & ->); split; [done|]; eexists; split; [done|exists false; by right]);
    try (injection Hrun as <- <-; split; [done|]; eexists; split; [done|]; (exists false; by left) || done); done.
Qed.

(** The fields every entry of a configured logger carries. *)
Definition service (cfg : Config) : list Field :=
  if String.eqb (Beat cfg) "" then [] else [mkField "service.name" (Beat cfg) 0].

(** The restriction of debug entries to the selectors. *)
Definition debug_selected (sels : option (gset string)) (ent : Entry) : bool :=
  match sels with Some s => selected (bool_decide ("*" ∈ s)) s ent | None => true end.

Definition wrap_sink (sels : option (gset string)) (c : Core) : Core :=
  match sels with Some s => selectiveWrapper c s | None => c end.

Lemma config_selectors_nonempty cfg s : config_selectors cfg = Some s → s ≠ ∅.
Proof.
  unfold config_selectors. destruct (_ && _); [|done]. intros [= <-]. case_bool_decide; [set_solver|done].
Qed.

Lemma createSink_inv cfg outputs st st' sink lvl observed sels :
  createSink open_error dirs cfg outputs st = (st', Ok (sink, lvl, observed, sels)) →
  ∃ D c, config_destination cfg = Ok D ∧ sink_core D lvl c ∧
    sink = multiCore (outputs ++ [wrap_sink (config_selectors cfg) c]) ∧
    lvl = length (cells st) ∧ cells st' = cells st ++ [ZapLevel (cfg_Level cfg)] ∧
    written st' = written st ∧ current st' = current st ∧ sels = default ∅ (config_selectors cfg).
Proof.
  unfold createSink, config_destination. rewrite SE_bind_Ok. intros (st1 & n & Hn & Hrun).
  injection Hn as <- <-. set (st1 := set_cells _ st) in Hrun. rewrite SE_bind_Ok in Hrun.
  destruct Hrun as (st2 & c & Hc & Hrun).
  assert (Hs : st2 = st1 ∧ ∃ D, (if toObserver cfg then Ok (Some Observed) else output_destination cfg) = Ok D ∧
    sink_core D (length (cells st)) c).
  { destruct (toObserver cfg); [|by apply createLogOutput_inv in Hc].
    injection Hc as <- <-. split; [done|]. eexists. split; [done|exists false; by left]. }
  destruct Hs as (-> & D & HD & Hsink). exists D, c.
  destruct (config_selectors cfg) as [s|]; cbn [wrap_sink default].
  - destruct (bool_decide ("stdlog" ∈ s) || bool_decide ("*" ∈ s)); injection Hrun as <- <- <- _ <-; done.
  - injection Hrun as <- <- <- _ <-. done.
Qed.

Definition bind_service (cfg : Config) (c : Core) : Core :=
  if String.eqb (Beat cfg) "" then c else core_With [mkField "service.name" (Beat cfg) 0] c.

Lemma bind_multi cfg cs : bind_service cfg (multiCore cs) = multiCore (map (bind_service cfg) cs).
Proof. unfold bind_service. destruct (String.eqb (Beat cfg) ""); [|done]. by rewrite map_id. Qed.

(** The fields an output writes: syslog and the event log write those of the call
    only. *)
Definition with_service (cfg : Config) (o : output) (fields : list Field) : list Field :=
  if keeps_bound (dest o) then bound o ++ service cfg ++ fields else fields.

Lemma bind_output cfg ent fields o :
  writes ent fields (bind_service cfg (OutputCore o)) = [(dest o, ent, with_service cfg o fields)].
Proof.
  unfold with_service, bind_service, service. destruct (String.eqb (Beat cfg) ""); simpl; unfold written_fields; simpl; [done|].
  by rewrite <- app_assoc.
Qed.

Lemma bind_output_delivers cfg lv ent fields o :
  delivers lv ent fields (bind_service cfg (OutputCore o)) =
    if cell_enabled lv (level_cell o) (ent_Level ent)
    then [(dest o, ent, with_service cfg o fields)] else [].
Proof.
  rewrite <- (bind_output cfg ent fields o). unfold bind_service. by destruct (String.eqb (Beat cfg) "").
Qed.

Lemma bind_wrap cfg s c : s ≠ ∅ →
  bind_service cfg (selectiveWrapper c s) = selectiveCore (bool_decide ("*" ∈ s)) s (bind_service cfg c).
Proof.
  intros Hs. unfold bind_service, selectiveWrapper. rewrite bool_decide_eq_false_2 by done.
  destruct (String.eqb (Beat cfg) ""); simpl; [done|]. unfold selectiveWrapper. by rewrite bool_decide_eq_false_2.
Qed.

(** What a destination gets of an entry when its cell has level [lvl]. *)
Definition sink_gets (cfg : Config) (D : option destination) (enabled : bool) (ent : Entry) (fields : list Field)
    : list delivery :=
  match D with
  | Some d => if enabled then [(d, ent, (if keeps_bound d then service cfg else []) ++ fields)] else []
  | None => []
  end.

Lemma sink_bound cfg D lvl c lv ent fields : sink_core D lvl c →
  writes ent fields (bind_service cfg c) = sink_gets cfg D true ent fields ∧
  delivers lv ent fields (bind_service cfg c) = sink_gets cfg D (cell_enabled lv lvl (ent_Level ent)) ent fields ∧
  core_Enabled lv (bind_service cfg c) (ent_Level ent) =
    match D with Some _ => cell_enabled lv lvl (ent_Level ent) | None => false end.
Proof.
  unfold sink_core, sink_gets. destruct D as [d|]; [|by intros ->; unfold bind_service; destruct (String.eqb _ _)].
  intros (b & Hc). set (o := mkOutput d lvl [] b) in *.
  assert (Ho : writes ent fields (bind_service cfg c) = writes ent fields (bind_service cfg (OutputCore o)) ∧
    delivers lv ent fields (bind_service cfg c) = delivers lv ent fields (bind_service cfg (OutputCore o)) ∧
    core_Enabled lv (bind_service cfg c) (ent_Level ent) =
      core_Enabled lv (bind_service cfg (OutputCore o)) (ent_Level ent)).
  { destruct Hc as [-> | ->]; [done|]. unfold bind_service. by destruct (String.eqb (Beat cfg) ""). }
  destruct Ho as (-> & -> & ->). rewrite bind_output, bind_output_delivers. unfold with_service. subst o. simpl.
  conjs; [by destruct (keeps_bound d)..|]. unfold bind_service. by destruct (String.eqb (Beat cfg) "").
Qed.


Lemma storeLogger_run l st st' : storeLogger sync_error l st = (st', Ok tt) →
  current st' = l ∧ ∃ st0 e, core_Sync sync_error (z_core (rootLogger (current st))) st = (st0, e) ∧ st' = set_current l st0.
Proof.
  unfold storeLogger. destruct (core_Sync _ _ _) as [st0 e]. intros [= <-]. split; [done|]. eauto.
Qed.

(** Syncing changes no level and writes nothing. *)
Lemma core_Sync_frame c st st' e : core_Sync sync_error c st = (st', e) →
  cells st' = cells st ∧ written st' = written st ∧ current st' = current st.
Proof.
  revert st st' e. induction c as [|o|c d IH|a s c IH|t d v k IHt IHd|cs IH] using Core_ind';
    intros st st' e; simpl; intros Hrun.
  - by injection Hrun as <- <-.
  - unfold sync_dest in Hrun. destruct (keeps_bound (dest o)), (sync_error (dest o)); by injection Hrun as <- <-.
  - eauto.
  - eauto.
  - destruct (core_Sync sync_error d st) as [st1 e1] eqn:H1. destruct (core_Sync sync_error t st1) as [st2 e2] eqn:H2.
    injection Hrun as <- _. apply IHd in H1 as (? & ? & ?). apply IHt in H2 as (? & ? & ?). conjs; congruence.
  - assert (Hgen : ∀ st errs st' errs', foldl (λ '(st, errs) core,
        let '(st', e) := core_Sync sync_error core st in (st', errs ++ [e])) (st, errs) cs = (st', errs') →
      cells st' = cells st ∧ written st' = written st ∧ current st' = current st).
    { clear Hrun. induction IH as [|c cs Hc _ IHcs]; intros s0 er s1 er1; simpl; [by intros [= <- <-]|].
      destruct (core_Sync sync_error c s0) as [s2 e2] eqn:H2. intros Hf. apply IHcs in Hf as (? & ? & ?).
      apply Hc in H2 as (? & ? & ?). conjs; congruence. }
    destruct (foldl _ _ _) as [s1 er1] eqn:Hf. injection Hrun as <- _. by apply Hgen in Hf.
Qed.

Lemma install_run root sels lvl observed st st' : install sync_error root sels lvl observed st = (st', Ok tt) →
  current st' = mkCoreLogger sels root root (newLogger root sels) lvl observed ∧ cells st' = cells st.
Proof.
  intros Hrun. apply storeLogger_run in Hrun as (Hc & st0 & e & Hs & ->). split; [done|].
  by apply core_Sync_frame in Hs as (? & _ & _).
Qed.

Lemma zap_Named_root name root : z_name root = "" → zap_Named name root = mkZap (z_core root) name.
Proof.
  intros Hr. destruct root as [c n]; simpl in Hr; subst n. unfold zap_Named. simpl.
  by destruct (String.eqb_spec name "") as [->|].
Qed.



(** The first field with the key of the typed logger decides. *)
Definition is_typed (key value : string) (fields : list Field) : bool :=
  match find (λ f, String.eqb (f_Key f) key) fields with Some f => String.eqb (f_String f) value | None => false end.

Lemma bind_typed cfg t d v k : bind_service cfg (typedLoggerCore t d v k) =
  typedLoggerCore (bind_service cfg t) (bind_service cfg d) v k.
Proof. unfold bind_service. by destruct (String.eqb (Beat cfg) ""). Qed.

Lemma typed_writes cfg D T lvl c t sels key value ent fields :
  sink_core D lvl c → sink_core T lvl t → (∀ s, sels = Some s → s ≠ ∅) →
  writes ent fields (bind_service cfg (typedLoggerCore t (multiCore [wrap_sink sels c]) value key)) =
    sink_gets cfg (if is_typed key value fields then T else D) true ent fields.
Proof.
  intros Hc Ht Hne. destruct (sink_bound cfg D lvl c [] ent fields Hc) as (Hw & _ & _).
  destruct (sink_bound cfg T lvl t [] ent fields Ht) as (Hwt & _ & _).
  assert (Hd : writes ent fields (bind_service cfg (multiCore [wrap_sink sels c])) = sink_gets cfg D true ent fields).
  { rewrite bind_multi. cbn [map writes concat]. rewrite app_nil_r, <- Hw.
    destruct sels as [s|]; cbn [wrap_sink]; [|done]. by rewrite bind_wrap by auto. }
  rewrite bind_typed. cbn [writes]. unfold is_typed. rewrite Hd, Hwt.
  destruct (find _ fields) as [f|]; [|done]. by destruct (String.eqb (f_String f) value).
Qed.

Lemma typed_delivers cfg D T lvl c t key value lv ent fields :
  sink_core D lvl c → sink_core T lvl t →
  let sels := config_selectors cfg in
  delivers lv ent fields (z_core (zap_New (selectiveWrapper
      (typedLoggerCore t (multiCore [wrap_sink sels c]) value key) (default ∅ sels)) cfg)) =
    sink_gets cfg (D ≫= λ _, if is_typed key value fields then T else D)
      (cell_enabled lv lvl (ent_Level ent) && debug_selected sels ent) ent fields.
Proof.
  intros Hc Ht sels. assert (Hne : ∀ s, sels = Some s → s ≠ ∅) by eauto using config_selectors_nonempty.
  change (z_core (zap_New ?x cfg)) with (bind_service cfg x).
  pose proof (typed_writes cfg D T lvl c t sels key value ent fields Hc Ht Hne) as Hw.
  destruct (sink_bound cfg D lvl c lv ent fields Hc) as (_ & _ & He).
  assert (Hen : core_Enabled lv (bind_service cfg (multiCore [wrap_sink sels c])) (ent_Level ent) =
    match D with Some _ => cell_enabled lv lvl (ent_Level ent) | None => false end).
  { rewrite bind_multi. cbn [map core_Enabled existsb]. rewrite orb_false_r, <- He.
    destruct sels as [s|]; cbn [wrap_sink]; [|done]. by rewrite bind_wrap by auto. }
  destruct sels as [s|]; cbn [default debug_selected].
  - rewrite bind_wrap by auto. cbn [delivers]. rewrite Hw. rewrite bind_typed at 1. cbn [core_Enabled]. rewrite Hen.
    destruct D as [d|]; [|done]. cbn [mbind option_bind]. unfold sink_gets.
    by destruct (_ && _), (if is_typed key value fields then T else Some d).
  - unfold selectiveWrapper. rewrite bool_decide_eq_true_2 by done. rewrite andb_true_r.
    rewrite bind_typed in *. cbn [delivers]. rewrite Hen, Hw. destruct D as [d|]; [|done]. cbn [mbind option_bind].
    unfold sink_gets. by destruct (cell_enabled _ _ _), (if is_typed key value fields then T else Some d).
Qed.

(** With a typed output, every enabled and selected entry goes to exactly
    one of two destinations: the typed one when the first field of the call
    with the key has the value, and the default one otherwise; to none when
    the default configuration has no output. *)
Theorem typed_output_routes cfg typedCfg key value st st1 :
  toObserver cfg = false →
  ConfigureWithTypedOutput sync_error open_error dirs cfg typedCfg key value [] st = (st1, Ok tt) →
  ∃ D T, output_destination cfg = Ok D ∧ output_destination typedCfg = Ok T ∧
    GetLevel st1 = Some (ZapLevel (cfg_Level cfg)) ∧
    ∀ st2 name lvl msg fields, current st2 = current st1 → lvl < zapDPanic →
    let ent := mkLogEntry lvl name msg in
    zap_log write_error (logger (NewLogger name st2)) lvl msg fields st2 =
    on_written (λ w, rev (
      sink_gets cfg (D ≫= λ _, if is_typed key value fields then T else D)
        (cell_enabled (cells st2) (level (current st2)) lvl && debug_selected (config_selectors cfg) ent)
        ent fields) ++ w) st2.
Proof.
  intros Hobs. unfold ConfigureWithTypedOutput, typed_output. rewrite !SE_bind_Ok.
  intros (st0 & lg & Hrun & Hend). injection Hend as ->. rewrite SE_bind_Ok in Hrun.
  destruct Hrun as (sta & [[[sink lvl] observed] sels] & Hs & Hrun).
  apply createSink_inv in Hs as (D & c & HD & Hc & -> & -> & Hcells & _ & _ & ->).
  unfold config_destination in HD. rewrite Hobs in *. cbn [andb] in Hrun. rewrite SE_bind_Ok in Hrun.
  destruct Hrun as (stb & t & Ht & Hrun). apply createLogOutput_inv in Ht as (-> & T & HT & Ht).
  rewrite SE_bind_Ok in Hrun. destruct Hrun as (stc & [] & Hinst & Hend). injection Hend as -> _.
  apply install_run in Hinst as [Hcur Hcells1]. exists D, T. split; [done|]. split; [done|].
  split; [unfold GetLevel; rewrite Hcur, Hcells1, Hcells; simpl; by rewrite lookup_app_r, Nat.sub_diag by done|].
  intros st2 name lvl msg fields Hst2 Hlvl. set (ent := mkLogEntry lvl name msg). rewrite zap_log_spec by done.
  unfold NewLogger, newLogger. rewrite Hst2, Hcur. cbn [rootLogger logger level app].
  rewrite zap_Named_root by done. cbn [z_core z_name]. fold ent.
  by rewrite (typed_delivers cfg D T (length (cells st)) c t key value (cells st2) ent fields Hc Ht).
Qed.
End facts.

(** ** Flags and defaults *)
Lemma ToFiles_select fl cfg :
  ToFiles (foldl (λ cfg sels, set_Selectors (Selectors cfg ++ Split sels ",") cfg) cfg fl) = ToFiles cfg ∧
  ToStderr (foldl (λ cfg sels, set_Selectors (Selectors cfg ++ Split sels ",") cfg) cfg fl) = ToStderr cfg.
Proof. revert cfg. induction fl as [|x fl IH]; intros cfg; simpl; [done|]. by edestruct IH as [-> ->]. Qed.

(** After the flags are applied a configuration does not log to files and
    to the standard error at once, whatever the user's configuration says, and
    if it asked for one of them it still has one. *)
Theorem applyFlags_one_output fl cfg :
  let cfg' := applyFlags fl cfg in
  ToFiles cfg' && ToStderr cfg' = false ∧
  (ToFiles cfg || ToStderr cfg || flag_toStderr fl = ToFiles cfg' || ToStderr cfg').
Proof.
  unfold applyFlags.
  set (cfg1 := if flag_toStderr fl then _ else cfg).
  assert (H1 : ToFiles cfg1 = ToFiles cfg ∧ ToStderr cfg1 = ToStderr cfg || flag_toStderr fl).
  { unfold cfg1. destruct (flag_toStderr fl); simpl; by rewrite ?orb_true_r, ?orb_false_r. }
  set (cfg2 := if (cfg_Level cfg1 >? InfoLevel) && verbose fl then _ else cfg1).
  assert (H2 : ToFiles cfg2 = ToFiles cfg1 ∧ ToStderr cfg2 = ToStderr cfg1) by (unfold cfg2; by destruct (_ && _)).
  destruct (ToFiles_select (debugSelectors fl) cfg2) as [H3a H3b].
  set (cfg3 := foldl _ cfg2 (debugSelectors fl)) in *.
  set (cfg4 := match debugSelectors fl with [] => cfg3 | _ => set_Level DebugLevel cfg3 end).
  assert (H4 : ToFiles cfg4 = ToFiles cfg3 ∧ ToStderr cfg4 = ToStderr cfg3) by (unfold cfg4; by destruct (debugSelectors fl)).
  destruct H1 as [H1a H1b], H2 as [H2a H2b], H4 as [H4a H4b].
  rewrite H4a, H4b, H3a, H3b, H2a, H2b, H1a, H1b.
  destruct (ToFiles cfg) eqn:Hf, (ToStderr cfg || flag_toStderr fl) eqn:Hs; cbn [andb];
    rewrite ?H4a, ?H4b, ?H3a, ?H3b, ?H2a, ?H2b, ?H1a, ?H1b; rewrite ?Hf; rewrite ?Hs.
  - destruct (flag_environment fl); simpl; rewrite ?H4a, ?H4b, ?H3a, ?H3b, ?H2a, ?H2b, ?H1a, ?H1b, ?Hs, ?Hf; done.
  - done.
  - done.
  - done.
Qed.

(** The names of levels and environments, in any case of letters, read as
    the level or environment they name; what prints is read back. *)
Theorem level_names `{GoLower} (s : string) : is_ascii s = true →
  (∀ l, Level_Unpack s = Ok l ↔ MarshalYAML l = Ok (lower_bytes s)) ∧
  (∀ v, v ≠ InvalidEnvironment → ParseEnvironment s = v ↔ Environment_String v = lower_bytes s).
Proof.
  intros Hs. unfold Level_Unpack, ParseEnvironment. rewrite (ToLower_ascii s Hs). split.
  - intros l. unfold MarshalYAML, level_lookup, levelStrings.
    generalize (lower_bytes s) as t. intros t.
    assert (Ht : ∀ n, String.eqb n t = true → t = n) by (intros n; by intros ->%String.eqb_eq).
    cbn [find snd fst].
    destruct (String.eqb_spec "debug" t), (String.eqb_spec "info" t), (String.eqb_spec "warning" t),
      (String.eqb_spec "error" t), (String.eqb_spec "critical" t); subst; try done;
      destruct (Z.eqb_spec DebugLevel l), (Z.eqb_spec InfoLevel l), (Z.eqb_spec WarnLevel l),
        (Z.eqb_spec ErrorLevel l), (Z.eqb_spec CriticalLevel l); subst; try done; simpl;
      split; intros Heq; simplify_eq; try done; unfold DebugLevel, InfoLevel, WarnLevel, ErrorLevel, CriticalLevel in *; try lia.
  - intros v Hv. generalize (lower_bytes s) as t. intros t.
    destruct (String.eqb_spec t "default"), (String.eqb_spec t "systemd"), (String.eqb_spec t "container"),
      (String.eqb_spec t "macos_service"), (String.eqb_spec t "windows_service"); subst; try done;
      destruct v; simpl; split; intros Heq; try done; congruence.
Qed.

(** ** Witnesses *)
Definition no_error (d : destination) : option string := None.
Definition etc : Path := mkPath "/usr" "/etc" "/var/lib" "/var/log".
Definition debug_http : Config :=
  apply_opt (apply_opt (set_Beat "beat" (DefaultConfig ContainerEnvironment)) (WithLevel DebugLevel))
    (WithSelectors [" http"]).
Definition errors_only : output := mkOutput (External 1) 0 [] false.
Definition errors_state : lstate := set_cells [zapError] init_state.


(** The run: a debug entry of the selected logger and an error. *)
Definition logged (st : lstate) : list (destination * string) := map (λ '(d, e, _), (d, Message e)) (rev (written st)).

Example Configure_run :
  let st1 := fst (ConfigureWithOutputs no_error no_error etc debug_http [OutputCore errors_only] errors_state) in
  let st2 := zap_log no_error (logger (NewLogger "http" st1)) zapDebug "a" [] st1 in
  let st3 := zap_log no_error (logger (NewLogger "db" st2)) zapDebug "b" [] st2 in
  let st4 := zap_log no_error (logger (NewLogger "db" st3)) zapError "c" [] st3 in
  logged st4 = [(Stderr, "a"); (External 1, "c"); (Stderr, "c")].
Proof. vm_compute. done. Qed.

Definition event_config : Config := set_Beat "beat" (DefaultEventConfig ContainerEnvironment).

Lemma typed_output_routes_witness :
  ∃ st1, ConfigureWithTypedOutput no_error no_error etc debug_http event_config "log.type" "event" [] init_state =
    (st1, Ok tt) ∧
  ∃ D T, output_destination etc debug_http = Ok D ∧ output_destination etc event_config = Ok T ∧
    GetLevel st1 = Some (ZapLevel (cfg_Level debug_http)) ∧
    ∀ st2 name lvl msg fields, current st2 = current st1 → lvl < zapDPanic →
    let ent := mkLogEntry lvl name msg in
    zap_log no_error (logger (NewLogger name st2)) lvl msg fields st2 =
    on_written (λ w, rev (
      sink_gets debug_http (D ≫= λ _, if is_typed "log.type" "event" fields then T else D)
        (cell_enabled (cells st2) (level (current st2)) lvl && debug_selected (config_selectors debug_http) ent)
        ent fields) ++ w) st2.
Proof.
  eexists. split; [reflexivity|].
  apply (typed_output_routes no_error no_error no_error etc (λ _, eq_refl) debug_http event_config
    "log.type" "event" init_state); reflexivity.
Defined.

#[local] Instance ascii_lower : GoLower := {| ToLower := lower_bytes; ToLower_ascii s _ := eq_refl |}.

Lemma level_names_witness :
  Level_Unpack "WARNING" = Ok 1 ∧ (Level_Unpack "WARNING" = Ok 1 ↔ MarshalYAML 1 = Ok (lower_bytes "WARNING")).
Proof. split; [reflexivity|]. apply (level_names "WARNING"). reflexivity. Defined.

(** ** Findings *)
(** A level marshals to JSON without quotes, which no JSON value is. *)
Theorem level_json_unquoted : MarshalJSON InfoLevel = Ok "info".
Proof. done. Qed.

(** With a typed output the levels of additional outputs are not consulted: an
    output for errors gets an informational entry, which it does not get
    without the typed output. *)
Theorem typed_output_ignores_levels :
  let log st := logged (zap_log no_error (logger (NewLogger "x" st)) zapInfo "hello" [] st) in
  let cfg := DefaultConfig ContainerEnvironment in
  log (fst (ConfigureWithOutputs no_error no_error etc cfg [OutputCore errors_only] errors_state)) =
    [(Stderr, "hello")] ∧
  log (fst (ConfigureWithTypedOutput no_error no_error etc cfg event_config "log.type" "event"
              [OutputCore errors_only] errors_state)) =
    [(External 1, "hello"); (Stderr, "hello")].
Proof. vm_compute. done. Qed.

(** A type bound with [With] is not looked at: the entry goes to the default
    output. *)
Theorem bound_type_not_routed :
  let st := fst (ConfigureWithTypedOutput no_error no_error etc (DefaultConfig ContainerEnvironment) event_config
              "log.type" "event" [] init_state) in
  let ty := [mkField "log.type" "event" 0] in
  let log lg fields := logged (zap_log no_error (logger lg) zapInfo "hello" fields st) in
  log (NewLogger "x" st) ty = [(FileDest "/var/log/event-data" (file_options event_config), "hello")] ∧
  log (Logger_With ty (NewLogger "x" st)) [] = [(Stderr, "hello")].
Proof. vm_compute. done. Qed.

(** Debug level without selectors: everything is logged, but no selector is
    set and the standard logger stays off. *)
Theorem no_selectors_is_not_all :
  let cfg := apply_opt (DefaultConfig ContainerEnvironment) (WithLevel DebugLevel) in
  let st := fst (ConfigureWithOutputs no_error no_error etc cfg [] init_state) in
  HasSelector "*" st = false ∧ golog_enabled st = false ∧ IsDebug "x" st = true.
Proof. vm_compute. done. Qed.

(** In a container with files configured, the flag [-e] is dropped. *)
Theorem stderr_flag_dropped :
  let fl := mkFlags false true [] ContainerEnvironment in
  let cfg := set_outputs false false false true (DefaultConfig ContainerEnvironment) in
  ToStderr (applyFlags fl cfg) = false ∧ ToFiles (applyFlags fl cfg) = true.
Proof. vm_compute. done. Qed.
