(* ===== verification/ConfigMask.v ===== *)
(** * Packages [config] and [mapstr]: masking of secrets in log output

    [ApplyLoggingMask] of config.go writes into the maps and arrays it is
    given, so it runs on a store of shared maps and arrays: a [mapstr.M], a
    [map[string]interface{}] and a [[]interface{}] are references.  [Format] of
    mapstr.go masks a clone, which copies maps but not arrays.  Nested values
    take a depth budget, as in MapStr.v. *)
From S2P Require Import Prelude GoStrings GoUtf8 TlsNames StrSet Logp.

Open Scope string_scope.
Open Scope list_scope.

(** ** The store *)
Inductive mval :=
| MStr (s : string)
| MOther (tag : Z)
| MM (l : positive)          (** [mapstr.M] *)
| MMap (l : positive)        (** [map[string]interface{}] *)
| MArr (l : positive)        (** [[]interface{}] *)
| MMs (l : list positive)    (** [[]mapstr.M] *)
| MMaps (l : list positive). (** [[]map[string]interface{}] *)

Record mheap := { maps : gmap positive (gmap string mval); arrs : gmap positive (list mval) }.

Abbreviation XM := (SE mheap unit).

Definition get_map (h : mheap) (l : positive) : gmap string mval := default ∅ (maps h !! l).
Definition get_arr (h : mheap) (l : positive) : list mval := default [] (arrs h !! l).

(** [m[k] = v] *)
Definition put_key (l : positive) (k : string) (v : mval) : XM unit :=
  modify (λ h, {| maps := <[l := <[k := v]> (get_map h l)]> (maps h); arrs := arrs h |}).
Definition put_arr (l : positive) (a : list mval) : XM unit :=
  modify (λ h, {| maps := maps h; arrs := <[l := a]> (arrs h) |}).
Definition alloc_map : XM positive := λ h,
  let l := fresh (dom (maps h)) in
  ({| maps := <[l := ∅]> (maps h); arrs := arrs h |}, Ok l).

(** [for k, v := range m] and [for _, elem := range arr]: each value is read
    when its turn comes. *)
Definition range_keys `{MapOrder} (l : positive) (body : string → mval → XM unit) : XM unit := λ h,
  foreach (map_order (get_map h l)).*1
    (λ k h', match get_map h' l !! k with Some v => body k v h' | None => (h', Ok tt) end) h.
Definition range_elems (l : positive) (body : mval → XM unit) : XM unit := λ h,
  foreach (seq 0 (length (get_arr h l)))
    (λ i h', match get_arr h' l !! i with Some v => body v h' | None => (h', Ok tt) end) h.

(** ** config.go *)
Definition mask : string := "xxxxx".

Definition maskList : Set_ :=
  MakeSet ["password"; "passphrase"; "key_passphrase"; "pass"; "proxy_url"; "url"; "urls"; "host"; "hosts";
           "authorization"; "proxy-authorization"].

Definition mask_arr (l : positive) : XM unit := λ h,
  put_arr l (map (λ _, MStr mask) (get_arr h l)) h.

Section mask.
Context `{MapOrder} `{GoLower}.

Definition sensitive (k : string) : bool := Has maskList (ToLower k).

Fixpoint ApplyLoggingMask (fuel : nat) (c : mval) : XM unit :=
  match fuel with
  | O => no_fuel
  | S fuel' =>
      match c with
      | MMap cfg =>
          range_keys cfg (λ k v,
            if sensitive k then
              match v with MArr arr => mask_arr arr | _ => put_key cfg k (MStr mask) end
            else ApplyLoggingMask fuel' v)
      | MArr arr => range_elems arr (ApplyLoggingMask fuel')
      | _ => mret tt
      end
  end.

(** ** mapstr.go: [Clone] on this store, and [Format] *)
Fixpoint clone_all (clone : positive → XM positive) (l : list positive) : XM (list positive) :=
  match l with
  | [] => mret []
  | m :: l' => d ← clone m; a ← clone_all clone l'; mret (d :: a)
  end.

Fixpoint cloneMap (fuel : nat) (dst src : positive) : XM unit :=
  match fuel with
  | O => no_fuel
  | S fuel' =>
      let clone_into m := d ← alloc_map; cloneMap fuel' d m ≫= λ _, mret d in
      range_keys src (λ k v,
        match v with
        | MM m | MMap m => d ← alloc_map; put_key dst k (MM d) ≫= λ _, cloneMap fuel' d m
        | MMs a | MMaps a => a' ← clone_all clone_into a; put_key dst k (MMs a')
        | _ => put_key dst k v
        end)
  end.

Definition Clone (fuel : nat) (m : positive) : XM positive :=
  result ← alloc_map; cloneMap fuel result m ≫= λ _, mret result.

(** The map [Format] prints: the original with the flags [+] and [#], a masked
    clone otherwise. *)
Definition Format (fuel : nat) (plain : bool) (m : positive) : XM positive :=
  if plain then mret m
  else
    debugM ← Clone fuel m;
    ApplyLoggingMask fuel (MMap debugM) ≫= λ _, mret debugM.

(** ** What masking does to a store *)
(** A value as it may stand under a masked key. *)
Definition masked (h : mheap) (v : mval) : Prop :=
  match v with
  | MStr s => s = mask
  | MArr a => Forall (.= MStr mask) (get_arr h a)
  | _ => False
  end.

(** The values met from [c] through the types [ApplyLoggingMask] descends into. *)
Inductive reach (h : mheap) : mval → mval → Prop :=
| reach_here c : reach h c c
| reach_key l k v w : get_map h l !! k = Some v → sensitive k = false → reach h v w → reach h (MMap l) w
| reach_elem l v w : v ∈ get_arr h l → reach h v w → reach h (MArr l) w.

(** The entries masking is about, and the arrays that are the value of one. *)
Definition secret_key (h : mheap) (c : mval) (l : positive) (k : string) : Prop :=
  reach h c (MMap l) ∧ sensitive k = true.
Definition secret_arr (h : mheap) (c : mval) (a : positive) : Prop :=
  ∃ l k, secret_key h c l k ∧ get_map h l !! k = Some (MArr a).

(** No entry appears or disappears, and the only changes are that an entry of
    [K] becomes the mask and every element of an array of [A] does. *)
Definition redacted_entry (K : Prop) (o o' : option mval) : Prop :=
  o' = o ∨ (K ∧ is_Some o ∧ o' = Some (MStr mask)).
Definition redacted_arr (A : Prop) (x x' : list mval) : Prop :=
  x' = x ∨ (A ∧ x' = map (λ _, MStr mask) x).

Definition redacted (K : positive → string → Prop) (A : positive → Prop) (h h' : mheap) : Prop :=
  (∀ l k, redacted_entry (K l k) (get_map h l !! k) (get_map h' l !! k)) ∧
  (∀ a, redacted_arr (A a) (get_arr h a) (get_arr h' a)).

Definition clean (h : mheap) (c : mval) : Prop :=
  ∀ l k v, reach h c (MMap l) → get_map h l !! k = Some v → sensitive k = true → masked h v.

(** Values nested at most [n] deep: those for which [n] calls are enough. *)
Fixpoint nested (h : mheap) (n : nat) (c : mval) : Prop :=
  match n with
  | O => False
  | S n' =>
      match c with
      | MMap l => map_Forall (λ k v, sensitive k = true ∨ nested h n' v) (get_map h l)
      | MArr l => Forall (nested h n') (get_arr h l)
      | _ => True
      end
  end.

#[global] Instance nested_dec h n c : Decision (nested h n c).
Proof.
  revert c. induction n as [|n IH]; intros c; [right; intros []|].
  destruct c; cbn [nested]; apply _.
Defined.

#[global] Instance redacted_preorder K A : PreOrder (redacted K A).
Proof.
  split.
  - intros h. split; by left.
  - intros h1 h2 h3 [Hm1 Ha1] [Hm2 Ha2]. split.
    + intros l k. specialize (Hm1 l k). specialize (Hm2 l k). unfold redacted_entry in *.
      destruct Hm1 as [E1|(S1 & I1 & E1)], Hm2 as [E2|(S2 & I2 & E2)]; rewrite ?E2, ?E1; auto.
      right. rewrite <- E1. auto.
    + intros a. unfold redacted_arr in *. destruct (Ha1 a) as [E1|(S1 & E1)], (Ha2 a) as [E2|(S2 & E2)];
        rewrite ?E2, ?E1; auto.
      right. split; [done|]. by rewrite map_map.
Qed.

Lemma reach_trans h a b c : reach h a b → reach h b c → reach h a c.
Proof. induction 1; eauto using reach. Qed.

Section facts.
(** The call: its value and the store it starts from. *)
Context (h0 : mheap) (c0 : mval).
Implicit Types h : mheap.
#[local] Abbreviation redacted := (redacted (secret_key h0 c0) (secret_arr h0 c0)).

Lemma redacted_lookup h h' l k v' :
  redacted h h' → get_map h' l !! k = Some v' →
  ∃ v, get_map h l !! k = Some v ∧ (v' = v ∨ sensitive k = true ∧ v' = MStr mask).
Proof.
  intros [Hm _] Hl. destruct (Hm l k) as [E|([_ ?] & [v E] & E')].
  - rewrite <- E. eauto.
  - exists v. split; [done|]. right. split; congruence.
Qed.

Lemma redacted_lookup_None h h' l k :
  redacted h h' → get_map h l !! k = None → get_map h' l !! k = None.
Proof. intros [Hm _] Hl. destruct (Hm l k) as [E|(? & [v E] & E')]; congruence. Qed.

Lemma redacted_elem h h' l i v' :
  redacted h h' → get_arr h' l !! i = Some v' →
  ∃ v, get_arr h l !! i = Some v ∧ (v' = v ∨ v' = MStr mask).
Proof.
  intros [_ Ha] Hl. destruct (Ha l) as [E|[_ E]]; rewrite E in Hl; [by eauto|].
  apply list_lookup_fmap_Some in Hl as (v & -> & Hv). eauto.
Qed.

Lemma masked_redacted h h' v : redacted h h' → masked h v → masked h' v.
Proof.
  intros Hr. destruct v as [|? |?|?|a|?|?]; try done. cbn [masked].
  rewrite !Forall_lookup. intros Hm i x Hx.
  destruct (redacted_elem _ _ _ _ _ Hr Hx) as (y & Hy & [->|?]); eauto.
Qed.

Lemma clean_mask h s : clean h (MStr s).
Proof. intros l k v Hr. inversion Hr. Qed.

(** ** The writes of masking *)
Lemma put_key_redacted h l k v0 :
  get_map h l !! k = Some v0 → secret_key h0 c0 l k →
  ∃ h', put_key l k (MStr mask) h = (h', Ok tt) ∧ redacted h h' ∧ get_map h' l !! k = Some (MStr mask).
Proof.
  intros Hl Hk. eexists. split; [reflexivity|].
  assert (Hg : ∀ l', get_map {| maps := <[l:=<[k:=MStr mask]> (get_map h l)]> (maps h); arrs := arrs h |} l' =
               if decide (l' = l) then <[k:=MStr mask]> (get_map h l) else get_map h l').
  { intros l'. unfold get_map at 1. cbn [maps]. case_decide as E; [subst l'; by rewrite lookup_insert_eq|].
    by rewrite lookup_insert_ne. }
  split; [split|].
  - intros l' k'. rewrite Hg. case_decide; [subst l'|by left].
    destruct (decide (k' = k)) as [->|Hne]; [|left; by rewrite lookup_insert_ne].
    right. rewrite lookup_insert_eq. eauto.
  - intros l'. by left.
  - rewrite Hg, decide_True by done. apply lookup_insert_eq.
Qed.

Lemma mask_arr_redacted h l : secret_arr h0 c0 l →
  ∃ h', mask_arr l h = (h', Ok tt) ∧ redacted h h' ∧ masked h' (MArr l).
Proof.
  intros Hsec. eexists. split; [reflexivity|].
  assert (Hg : ∀ l', get_arr {| maps := maps h; arrs := <[l := map (λ _, MStr mask) (get_arr h l)]> (arrs h) |} l' =
               if decide (l' = l) then map (λ _, MStr mask) (get_arr h l) else get_arr h l').
  { intros l'. unfold get_arr at 1. cbn [arrs]. case_decide as E; [subst l'; by rewrite lookup_insert_eq|].
    by rewrite lookup_insert_ne. }
  split; [split|].
  - intros l' k'. by left.
  - intros l'. rewrite Hg. case_decide; [subst l'; by right|by left].
  - cbn [masked]. rewrite Hg, decide_True by done. apply Forall_fmap, Forall_true. done.
Qed.

(** ** The loops *)
Lemma foreach_redacts {A} (body : A → XM unit) (Q : A → mheap → Prop) (l : list A) : ∀ h,
  (∀ x h1, x ∈ l → redacted h h1 →
     ∃ h2, body x h1 = (h2, Ok tt) ∧ redacted h1 h2 ∧ ∀ h3, redacted h2 h3 → Q x h3) →
  ∃ h', foreach l body h = (h', Ok tt) ∧ redacted h h' ∧
        ∀ h3, redacted h' h3 → ∀ x, x ∈ l → Q x h3.
Proof.
  induction l as [|x l IH]; intros h Hb.
  - exists h. split; [done|]. split; [reflexivity|]. intros ? _ ? ?%elem_of_nil. done.
  - destruct (Hb x h) as (h1 & Hrun & Hr1 & Hq1); [left|reflexivity|].
    destruct (IH h1) as (h' & Hrun' & Hr' & Hq').
    { intros y h2 Hy Hr2. apply Hb; [by right|]. by transitivity h1. }
    exists h'. cbn [foreach]. rewrite (SE_bind_run _ _ _ _ _ Hrun). split; [done|].
    split; [by transitivity h1|]. intros h3 Hr3 y [->|Hy]%elem_of_cons; [|by eapply Hq'].
    apply Hq1. by transitivity h'.
Qed.

Lemma nested_redacted n : ∀ h h' c, redacted h h' → nested h n c → nested h' n c.
Proof.
  induction n as [|n IH]; intros h h' c Hr; [done|].
  assert (Hmask : ∀ v, nested h n v → nested h' n (MStr mask)) by (destruct n; done).
  destruct c as [| | |l|l| |]; try done; cbn [nested].
  - intros Hn k v' Hv'. destruct (redacted_lookup _ _ _ _ _ Hr Hv') as (v & Hv & [->|[? _]]); [|by left].
    destruct (Hn k v Hv); [by left|]. right. by eapply IH.
  - rewrite !Forall_lookup. intros Hn i v' Hv'.
    destruct (redacted_elem _ _ _ _ _ Hr Hv') as (v & Hv & [->| ->]); eauto.
Qed.

(** What the body of the loop over a map establishes for one key, in every
    store that follows. *)
Definition key_done (cfg : positive) (k : string) (h : mheap) : Prop :=
  ∀ v, get_map h cfg !! k = Some v → if sensitive k then masked h v else clean h v.

Lemma mask_key_done h cfg k v :
  redacted h0 h → get_map h cfg !! k = Some v → secret_key h0 c0 cfg k →
  ∃ h2, (match v with MArr arr => mask_arr arr | _ => put_key cfg k (MStr mask) end) h = (h2, Ok tt) ∧
        redacted h h2 ∧ ∀ h3, redacted h2 h3 → key_done cfg k h3.
Proof.
  intros Hst Hv Hsec. pose proof Hsec as [_ Hk].
  assert (Hput : ∃ h2, put_key cfg k (MStr mask) h = (h2, Ok tt) ∧ redacted h h2 ∧
                       ∀ h3, redacted h2 h3 → key_done cfg k h3).
  { destruct (put_key_redacted h cfg k v Hv Hsec) as (h2 & Hrun & Hr & Hm). exists h2. split; [done|].
    split; [done|]. intros h3 Hr3 v3 Hv3. rewrite Hk.
    destruct (redacted_lookup _ _ _ _ _ Hr3 Hv3) as (v2 & Hv2 & [->|[_ ->]]); [|done].
    rewrite Hm in Hv2. by injection Hv2 as <-. }
  destruct v as [| | | |arr| |]; try exact Hput.
  assert (Harr : secret_arr h0 c0 arr).
  { destruct (redacted_lookup _ _ _ _ _ Hst Hv) as (v0 & Hv0 & [<-|[_ ?]]); [|done]. by exists cfg, k. }
  destruct (mask_arr_redacted h arr Harr) as (h2 & Hrun & Hr & Hm). exists h2. split; [done|].
  split; [done|]. intros h3 Hr3 v3 Hv3. rewrite Hk.
  destruct (redacted_lookup _ _ _ _ _ (transitivity Hr Hr3) Hv3) as (v2 & Hv2 & [->|[_ ->]]); [|done].
  rewrite Hv in Hv2. injection Hv2 as <-. by apply (masked_redacted h2).
Qed.

Lemma key_done_clean h cfg : (∀ k, is_Some (get_map h cfg !! k) → key_done cfg k h) → clean h (MMap cfg).
Proof.
  intros Hd l k v Hr Hv Hk. inversion Hr as [|l' k' v' ? Hv' Hk' Hr'|]; subst.
  - specialize (Hd k ltac:(eauto) v Hv). by rewrite Hk in Hd.
  - specialize (Hd k' ltac:(eauto) v' Hv'). rewrite Hk' in Hd. by eapply Hd.
Qed.

(** The values the recursion is called on. *)
Definition met (c : mval) : Prop := c = MStr mask ∨ reach h0 c0 c.

(** One level of the recursion, given what the calls of the level below do. *)
Section level.
Context (n : nat).

Definition masks (h : mheap) (c : mval) (fuel : nat) : Prop :=
  ∃ h', ApplyLoggingMask fuel c h = (h', Ok tt) ∧ redacted h h' ∧ ∀ h3, redacted h' h3 → clean h3 c.

Hypothesis IH : ∀ h c, redacted h0 h → met c → nested h n c → masks h c n.

Lemma mask_map h cfg : redacted h0 h → met (MMap cfg) → nested h (S n) (MMap cfg) → masks h (MMap cfg) (S n).
Proof.
  intros Hst [?|Hmet] Hn; [done|].
  destruct (foreach_redacts
    (λ k h', match get_map h' cfg !! k with
             | Some v => (if sensitive k then match v with MArr arr => mask_arr arr | _ => put_key cfg k (MStr mask) end
                          else ApplyLoggingMask n v) h'
             | None => (h', Ok tt) end)
    (key_done cfg) (map_order (get_map h cfg)).*1 h) as (h' & Hrun & Hr & Hq).
  + intros k h1 _ Hr1. destruct (get_map h1 cfg !! k) as [v|] eqn:Hv.
    * destruct (sensitive k) eqn:Hk; [apply mask_key_done; [by transitivity h|done|by split]|].
      destruct (redacted_lookup _ _ _ _ _ Hr1 Hv) as (v0 & Hv0 & [->|[? _]]); [|congruence].
      destruct (IH h1 v0) as (h2 & Hrun & Hr2 & Hc); [by transitivity h| | |].
      { destruct (redacted_lookup _ _ _ _ _ Hst Hv0) as (v1 & Hv1 & [->|[? _]]); [|congruence].
        right. apply (reach_trans _ _ _ _ Hmet). by eapply reach_key, reach_here. }
      { destruct (Hn k v0 Hv0); [congruence|]. by eapply nested_redacted. }
      exists h2. split; [done|]. split; [done|]. intros h3 Hr3 v3 Hv3. rewrite Hk.
      destruct (redacted_lookup _ _ _ _ _ (transitivity Hr2 Hr3) Hv3) as (v2 & Hv2 & [->|[? _]]); [|congruence].
      rewrite Hv in Hv2. injection Hv2 as <-. by apply Hc.
    * exists h1. split; [done|]. split; [reflexivity|]. intros h3 Hr3 v3 Hv3.
      by rewrite (redacted_lookup_None _ _ _ _ Hr3 Hv) in Hv3.
  + exists h'. split; [exact Hrun|]. split; [done|]. intros h3 Hr3. apply key_done_clean.
    intros k [v3 Hv3]. apply (Hq h3 Hr3).
    destruct (redacted_lookup _ _ _ _ _ (transitivity Hr Hr3) Hv3) as (v0 & Hv0 & _).
    apply list_elem_of_fmap. exists (k, v0). split; [done|]. by apply elem_of_map_order.
Qed.

Lemma mask_array h arr : redacted h0 h → met (MArr arr) → nested h (S n) (MArr arr) → masks h (MArr arr) (S n).
Proof.
  intros Hst [?|Hmet] Hn; [done|].
  destruct (foreach_redacts
    (λ i h', match get_arr h' arr !! i with Some v => ApplyLoggingMask n v h' | None => (h', Ok tt) end)
    (λ i h3, ∀ v, get_arr h3 arr !! i = Some v → clean h3 v)
    (seq 0 (length (get_arr h arr))) h) as (h' & Hrun & Hr & Hq).
  + intros i h1 _ Hr1. destruct (get_arr h1 arr !! i) as [v|] eqn:Hv.
    * destruct (IH h1 v) as (h2 & Hrun & Hr2 & Hc); [by transitivity h| | |].
      { destruct (redacted_elem _ _ _ _ _ (transitivity Hst Hr1) Hv) as (v1 & Hv1 & [->| ->]); [|by left].
        right. apply (reach_trans _ _ _ _ Hmet). eapply reach_elem, reach_here.
        by eapply list_elem_of_lookup_2. }
      { pose proof (nested_redacted _ _ _ _ Hr1 Hn) as Hn1. cbn [nested] in Hn1.
        rewrite Forall_lookup in Hn1. eauto. }
      exists h2. split; [done|]. split; [done|]. intros h3 Hr3 v3 Hv3.
      destruct (redacted_elem _ _ _ _ _ (transitivity Hr2 Hr3) Hv3) as (v2 & Hv2 & [->| ->]);
        [|apply clean_mask].
      rewrite Hv in Hv2. injection Hv2 as <-. by apply Hc.
    * exists h1. split; [done|]. split; [reflexivity|]. intros h3 Hr3 v3 Hv3.
      destruct (redacted_elem _ _ _ _ _ Hr3 Hv3) as (v2 & Hv2 & _). congruence.
  + exists h'. split; [exact Hrun|]. split; [done|]. intros h3 Hr3 l k v Hre.
    inversion Hre as [| |? v' ? Hv' Hre']; subst. apply list_elem_of_lookup in Hv' as [i Hi].
    refine (Hq h3 Hr3 i _ v' Hi l k v Hre').
    destruct (redacted_elem _ _ _ _ _ (transitivity Hr Hr3) Hi) as (v0 & Hv0%lookup_lt_Some & _).
    apply elem_of_seq. lia.
Qed.
End level.

Lemma mask_run n : ∀ h c, redacted h0 h → met c → nested h n c → masks h c n.
Proof.
  induction n as [|n IH]; intros h c Hst Hmet Hn; [done|].
  destruct c as [s|t|l|cfg|arr|l|l]; [| | |by apply mask_map|by apply mask_array| |];
    (exists h; split; [done|]; split; [reflexivity|]; intros h3 _ ? ? ? Hr; inversion Hr).
Qed.

End facts.

(** C25: [ApplyLoggingMask] returns on every value that is nested finitely deep
    (with as many levels of the recursion as that depth), and redacts it.
    Afterwards, in every [map[string]interface{}] reached from the value
    through unmasked keys of such maps and elements of [[]interface{}] (it does
    not descend into [mapstr.M] values or slices of maps), each entry whose
    lower-cased key is in the mask list holds the mask or an array of masks.
    Nothing else changes: no key or element appears or disappears, an entry
    changes only if its map is reached and its key is masked, and an array
    changes only if it was the value of such an entry. *)
Theorem ApplyLoggingMask_redacts fuel c h :
  nested h fuel c →
  ∃ h', ApplyLoggingMask fuel c h = (h', Ok tt) ∧
        (∀ l k v, reach h' c (MMap l) → get_map h' l !! k = Some v → sensitive k = true → masked h' v) ∧
        redacted (secret_key h c) (secret_arr h c) h h'.
Proof.
  intros Hn. destruct (mask_run h c fuel h c) as (h' & Hrun & Hr & Hc);
    [reflexivity|right; constructor|done|].
  exists h'. split; [done|]. split; [|done]. exact (Hc h' (reflexivity h')).
Qed.
End mask.

#[local] Instance mask_lower : GoLower := {| ToLower := lower_bytes; ToLower_ascii s _ := eq_refl |}.

(** [{"name": "a", "Hosts": ["h1", "h2"], "outputs": [{"Password": "s", "port": 1}]}] *)
Definition demo_config : mheap :=
  {| maps := {[ 1%positive := {[ "name" := MStr "a"; "Hosts" := MArr 1; "outputs" := MArr 2 ]};
                2%positive := {[ "Password" := MStr "s"; "port" := MOther 1 ]} ]};
     arrs := {[ 1%positive := [MStr "h1"; MStr "h2"]; 2%positive := [MMap 2] ]} |}.

Lemma ApplyLoggingMask_redacts_witness : ∃ h',
  ApplyLoggingMask 4 (MMap 1) demo_config = (h', Ok tt) ∧
  get_map h' 2 !! "Password" = Some (MStr mask) ∧ get_map h' 2 !! "port" = Some (MOther 1) ∧
  get_arr h' 1 = [MStr mask; MStr mask] ∧
  redacted (secret_key demo_config (MMap 1)) (secret_arr demo_config (MMap 1)) demo_config h'.
Proof.
  destruct (ApplyLoggingMask_redacts 4 (MMap 1) demo_config) as (h' & Hrun & _ & Hr).
  { apply (bool_decide_unpack _). vm_compute. done. }
  exists h'. split; [exact Hrun|]. split_and!; [..|exact Hr];
    (assert (Hh : h' = (ApplyLoggingMask 4 (MMap 1) demo_config).1) by (by rewrite Hrun));
    rewrite Hh; vm_compute; reflexivity.
Defined.

(** [Format] clones its map first, and the clone's nested maps have the type
    [mapstr.M], which [ApplyLoggingMask] does not descend into: the password of
    [M{"output": M{"password": "s"}}] is printed. *)
Lemma Format_prints_nested_secret :
  let h := {| maps := {[ 1%positive := {[ "output" := MM 2 ]}; 2%positive := {[ "password" := MStr "s" ]} ]};
              arrs := ∅ |} in
  ∃ h' d d2, Format 4 false 1 h = (h', Ok d) ∧
    get_map h' d !! "output" = Some (MM d2) ∧ get_map h' d2 !! "password" = Some (MStr "s").
Proof. do 3 eexists. split; [vm_compute; reflexivity|]. split; vm_compute; reflexivity. Qed.

(** The clone shares its arrays with the map it was made from: printing
    [M{"hosts": ["h1"]}] overwrites the hosts of the caller's map. *)
Lemma Format_overwrites_hosts :
  let h := {| maps := {[ 1%positive := {[ "hosts" := MArr 1 ]} ]}; arrs := {[ 1%positive := [MStr "h1"] ]} |} in
  ∃ h' d, Format 4 false 1 h = (h', Ok d) ∧
    get_map h' 1 !! "hosts" = Some (MArr 1) ∧ get_arr h' 1 = [MStr mask].
Proof. do 2 eexists. split; [vm_compute; reflexivity|]. split; vm_compute; reflexivity. Qed.
