(* ===== verification/Config.v ===== *)
(** * Package [config] (src/config/config.go, src/config/flags.go)

    A [C] is a configuration of the third-party library ucfg: the code here
    calls the operations of the class [Ucfg].  Modelled are what the package
    adds to them: the default of [Enabled], the choice of one section by
    [Namespace], [MergeConfigs], and the flag that collects strings. *)
From S2P Require Import Prelude GoStrings.

Open Scope string_scope.
Open Scope list_scope.

(** What the code calls of ucfg.  [GetFields] lists the keys of a Go map, in any
    order; [enabled_field] is [Unpack] into a struct with the one field
    [enabled]: its value if it is set. *)
Class Ucfg := {
  C : Type;
  ucfg_New : C;
  GetFields : C → list string;
  Child : C → string → res string C;
  enabled_field : C → res string (option bool);
  ucfg_Merge : C → C → res string C
}.

Section config.
Context `{Ucfg}.

(** [None] is a nil configuration. *)
Definition Enabled (c : option C) : bool :=
  match c with
  | None => false
  | Some c =>
      match enabled_field c with
      | Ok v => default true v
      | _ => true
      end
  end.

Fixpoint merge_all (config : C) (cfgs : list C) : res string C :=
  match cfgs with
  | [] => Ok config
  | c :: cfgs' => config' ← ucfg_Merge config c; merge_all config' cfgs'
  end.

Definition MergeConfigs (cfgs : list C) : res string C := merge_all ucfg_New cfgs.

(** ** [Namespace] *)
Record Namespace := mkNamespace { ns_name : string; ns_config : option C }.

Definition IsSet (ns : Namespace) : bool := if ns_config ns is Some _ then true else false.

(** The loop of [Unpack], with the variables [err] and [found] it leaves. *)
Fixpoint unpack_fields (cfg : C) (fields : list string) (err : option string) (found : bool)
    : SE Namespace string (option string * bool) :=
  match fields with
  | [] => mret (err, found)
  | name :: fields' => λ ns,
      match Child cfg name with
      | Ok sub =>
          if Enabled (Some sub) then
            if String.eqb (ns_name ns) ""
            then unpack_fields cfg fields' None true (mkNamespace name (Some sub))
            else (ns, Err "more than one namespace configured")
          else unpack_fields cfg fields' None found ns
      | Err e => unpack_fields cfg fields' (Some e) found ns
      | Panic p => (ns, Panic p)
      | OutOfFuel => (ns, OutOfFuel)
      end
  end.

Definition Namespace_Unpack (cfg : C) : SE Namespace string unit :=
  match GetFields cfg with
  | [] => mret tt
  | fields =>
      r ← unpack_fields cfg fields None false;
      match (r : option string * bool) with
      | (_, true) => mret tt
      | (None, false) => mret tt
      | (Some e, false) => fail e
      end
  end.

(** ** Properties of [Namespace] *)
(** The sections [Unpack] chooses from: the fields that are enabled objects. *)
Definition section_of (cfg : C) (name : string) : option C :=
  match Child cfg name with
  | Ok sub => if Enabled (Some sub) then Some sub else None
  | _ => None
  end.

Definition child_error (cfg : C) (name : string) : option string :=
  match Child cfg name with Err e => Some e | _ => None end.

Definition active (cfg : C) (fields : list string) : list string :=
  filter (λ n, is_Some (section_of cfg n)) fields.

Definition children_defined (cfg : C) (fields : list string) : Prop :=
  ∀ n, n ∈ fields → defined (Child cfg n).

(** The error variable after the loop: that of the last field. *)
Definition last_error (cfg : C) (fields : list string) (err : option string) : option string :=
  match last fields with Some n => child_error cfg n | None => err end.

Lemma last_error_cons cfg n fields err :
  last_error cfg (n :: fields) err = last_error cfg fields (child_error cfg n).
Proof.
  unfold last_error. destruct fields as [|m fields]; [done|].
  rewrite last_cons_cons. destruct (last (m :: fields)) eqn:E; [done|]. by apply last_None in E.
Qed.

Lemma unpack_fields_spec cfg fields : ∀ err found ns,
  children_defined cfg fields → "" ∉ fields →
  unpack_fields cfg fields err found ns =
    match active cfg fields with
    | [] => (ns, Ok (last_error cfg fields err, found))
    | n :: rest =>
        if String.eqb (ns_name ns) "" then
          match rest with
          | [] => (mkNamespace n (section_of cfg n), Ok (last_error cfg fields err, true))
          | _ => (mkNamespace n (section_of cfg n), Err "more than one namespace configured")
          end
        else (ns, Err "more than one namespace configured")
    end.
Proof.
  unfold active. induction fields as [|n fields IH]; intros err found ns Hd Hne; [done|].
  assert (Hd' : children_defined cfg fields) by (intros x ?; apply Hd; by right).
  assert (Hne' : "" ∉ fields) by (intros ?; apply Hne; by right).
  assert (Hn : n ≠ "") by (intros ->; apply Hne; by left).
  specialize (Hd n (list_elem_of_here n fields)).
  rewrite last_error_cons, filter_cons. cbn [unpack_fields].
  assert (Hs : section_of cfg n =
    match Child cfg n with Ok sub => if Enabled (Some sub) then Some sub else None | _ => None end) by done.
  unfold child_error.
  destruct (Child cfg n) as [sub|e| |]; [|rewrite decide_False by (rewrite Hs; by intros []); by apply IH|done..].
  destruct (Enabled (Some sub)) eqn:He; [|rewrite decide_False by (rewrite Hs; by intros []); by apply IH].
  rewrite decide_True by (rewrite Hs; eauto). destruct (String.eqb_spec (ns_name ns) "") as [_|_]; [|done].
  rewrite IH by done. cbn [ns_name]. rewrite (proj2 (String.eqb_neq n "")) by done.
  rewrite <- Hs. by destruct (filter _ fields).
Qed.

(** [Unpack] of a fresh namespace sets it to the one enabled section of the
    configuration, in whatever order ucfg lists the fields.  With several
    enabled sections it fails.  With none it leaves the namespace unset, and
    fails exactly when the field listed last is not an object. *)
Theorem Namespace_Unpack_spec cfg ns :
  ns_name ns = "" → children_defined cfg (GetFields cfg) → "" ∉ GetFields cfg →
  match active cfg (GetFields cfg) with
  | [] => Namespace_Unpack cfg ns =
            (ns, match last_error cfg (GetFields cfg) None with Some e => Err e | None => Ok tt end)
  | [n] => ∃ sub, Child cfg n = Ok sub ∧ Enabled (Some sub) = true ∧
            Namespace_Unpack cfg ns = (mkNamespace n (Some sub), Ok tt)
  | _ => (Namespace_Unpack cfg ns).2 = Err "more than one namespace configured"
  end.
Proof.
  intros Hns Hd Hne. unfold Namespace_Unpack.
  pose proof (unpack_fields_spec cfg (GetFields cfg) None false ns Hd Hne) as Hspec.
  rewrite Hns in Hspec. cbn [String.eqb] in Hspec.
  destruct (GetFields cfg) as [|f0 fields] eqn:Hf; [done|]. rewrite <- Hf in *.
  destruct (active cfg (GetFields cfg)) as [|n [|n2 rest]] eqn:Ha.
  - rewrite (SE_bind_run _ _ _ _ _ Hspec). by destruct (last_error _ _ _).
  - assert (Hn : n ∈ active cfg (GetFields cfg)) by (rewrite Ha; by left).
    unfold active in Hn. apply list_elem_of_filter in Hn as [[sub Hsub] _].
    exists sub. rewrite (SE_bind_run _ _ _ _ _ Hspec), Hsub. unfold section_of in Hsub.
    destruct (Child cfg n) as [s|?| |]; try done. destruct (Enabled (Some s)) eqn:?; [|done].
    injection Hsub as <-. by destruct (last_error _ _ _).
  - unfold mbind, SE_bind. by rewrite Hspec.
Qed.
End config.

(** ** [StringsFlag] (flags.go) *)
(** The list is the backing array of the caller; [DefValue] that of the flag in
    its set, once the flag is registered. *)
Record StringsFlag := mkStringsFlag { list_ : list string; isDefault : bool; DefValue : option string }.

(** [None] is a nil pointer to the array. *)
Definition NewStringsFlag (arr : option (list string)) : res string StringsFlag :=
  match arr with
  | None => Panic (PExplicit "No target array")
  | Some arr => Ok (mkStringsFlag arr true None)
  end.

(** Registration with a set of flags that does not hold the name yet. *)
Definition Register (f : StringsFlag) : res string StringsFlag :=
  match DefValue f with
  | Some _ => Panic (PExplicit "StringsFlag is already registered")
  | None => Ok (mkStringsFlag (list_ f) (isDefault f)
                  (Some (match list_ f with v :: _ => v | [] => Join (list_ f) ", " end)))
  end.

Definition StringArrVarFlag (arr : option (list string)) : res string StringsFlag :=
  f ← NewStringsFlag arr; Register f.

Definition StringArrFlag (def : string) : res string StringsFlag :=
  StringArrVarFlag (Some (if String.eqb def "" then [] else [def])).

Definition Flag_String (f : StringsFlag) : string := Join (list_ f) ", ".

Definition SetDefault (v : string) (f : StringsFlag) : StringsFlag :=
  mkStringsFlag [v] true (match DefValue f with Some _ => Some v | None => None end).

Definition Set_flag (v : string) (f : StringsFlag) : StringsFlag :=
  if isDefault f then mkStringsFlag [v] false (DefValue f)
  else if existsb (String.eqb v) (list_ f) then f
  else mkStringsFlag (list_ f ++ [v]) false (DefValue f).

Definition List_ (f : StringsFlag) : list string := list_ f.

(** The first occurrence of each value, in order. *)
Fixpoint first_uses (seen l : list string) : list string :=
  match l with
  | [] => []
  | v :: l' => if decide (v ∈ seen) then first_uses seen l' else v :: first_uses (v :: seen) l'
  end.

Lemma first_uses_equiv l : ∀ seen seen', (∀ v, v ∈ seen ↔ v ∈ seen') → first_uses seen l = first_uses seen' l.
Proof.
  induction l as [|v l IH]; intros seen seen' Hs; [done|]. cbn [first_uses].
  destruct (decide (v ∈ seen)) as [Hv|Hv].
  - rewrite decide_True by (by apply Hs). auto.
  - rewrite decide_False by (by rewrite <- Hs). f_equal. apply IH. set_solver.
Qed.

Lemma Set_flag_used l : ∀ f, isDefault f = false →
  foldl (λ f v, Set_flag v f) f l = mkStringsFlag (list_ f ++ first_uses (list_ f) l) false (DefValue f).
Proof.
  induction l as [|v l IH]; intros [old d def] Hd; cbn [foldl first_uses isDefault list_ DefValue] in *; subst d.
  { by rewrite app_nil_r. }
  unfold Set_flag at 2. cbn [isDefault list_ DefValue].
  assert (Hex : existsb (String.eqb v) old = bool_decide (v ∈ old)).
  { apply eq_true_iff_eq. rewrite existsb_exists, bool_decide_eq_true.
    split; [intros (x & Hx & ->%String.eqb_eq); by apply list_elem_of_In|].
    intros Hv. exists v. split; [by apply list_elem_of_In|apply String.eqb_refl]. }
  rewrite Hex. destruct (decide (v ∈ old)) as [Hv|Hv].
  - rewrite bool_decide_true by done. by rewrite IH.
  - rewrite bool_decide_false by done. rewrite IH by done. cbn [list_ DefValue].
    rewrite <- app_assoc. f_equal. f_equal. cbn [app]. f_equal. apply first_uses_equiv. set_solver.
Qed.

(** The values of a flag are those it was used with, each once, in the
    order of their first use; the default stands only as long as the flag is
    not used, and [SetDefault] starts again.  This is so whatever happened to
    the flag before. *)
Theorem StringsFlag_collects arr def v vs : ∃ f0 f1,
  StringArrVarFlag (Some arr) = Ok f0 ∧ List_ f0 = arr ∧
  foldl (λ f v, Set_flag v f) f0 (v :: vs) = f1 ∧ List_ f1 = first_uses [] (v :: vs) ∧
  List_ (SetDefault def f1) = [def] ∧ DefValue (SetDefault def f1) = Some def ∧
  ∀ f2, f2 = foldl (λ f v, Set_flag v f) (SetDefault def f1) (v :: vs) →
    List_ f2 = first_uses [] (v :: vs) ∧ DefValue f2 = Some def.
Proof.
  assert (Hfresh : ∀ f, isDefault f = true →
    foldl (λ f v, Set_flag v f) f (v :: vs) = mkStringsFlag (first_uses [] (v :: vs)) false (DefValue f)).
  { intros [l d df] Hd. cbn [isDefault] in Hd. subst d. cbn [foldl]. rewrite Set_flag_used by done. reflexivity. }
  do 2 eexists. split; [reflexivity|]. split; [done|]. split; [reflexivity|]. rewrite Hfresh by done.
  split_and!; try done. intros f2 ->. by rewrite Hfresh.
Qed.

(** ** A concrete configuration library *)
(** Objects are lists of fields; a leaf is a string. *)
Inductive tree := Leaf (s : string) | Node (fields : list (string * tree)).

Definition node_fields (c : tree) : list (string * tree) := match c with Node fs => fs | Leaf _ => [] end.
Definition tree_lookup (c : tree) (n : string) : option tree :=
  snd <$> find (λ f, String.eqb (fst f) n) (node_fields c).

#[local] Instance tree_ucfg : Ucfg := {|
  C := tree;
  ucfg_New := Node [];
  GetFields c := (node_fields c).*1;
  Child c n := match tree_lookup c n with
               | Some (Node fs) => Ok (Node fs)
               | _ => Err "type mismatch"
               end;
  enabled_field c := match tree_lookup c "enabled" with
                     | Some (Leaf "false") => Ok (Some false)
                     | Some (Leaf "true") => Ok (Some true)
                     | Some _ => Err "cannot unpack"
                     | None => Ok None
                     end;
  ucfg_Merge c d := Ok (Node (node_fields d ++ filter (λ f, f.1 ∉ (node_fields d).*1) (node_fields c)))
|}.

Definition disabled : tree := Node [("enabled", Leaf "false")].
Definition output_config : @C tree_ucfg :=
  Node [("worker", Leaf "2"); ("file", disabled); ("kafka", Node [("hosts", Leaf "h")])].

Lemma Namespace_Unpack_spec_witness :
  active output_config (GetFields output_config) = ["kafka"] ∧
  ∃ sub, Child output_config "kafka" = Ok sub ∧ Enabled (Some sub) = true ∧
    Namespace_Unpack output_config (mkNamespace "" None) = (mkNamespace "kafka" (Some sub), Ok tt).
Proof.
  split; [reflexivity|].
  apply (Namespace_Unpack_spec output_config (mkNamespace "" None)).
  - reflexivity.
  - intros n Hn. vm_compute in Hn |- *.
    repeat (apply elem_of_cons in Hn as [->|Hn]; [exact I|]). by apply elem_of_nil in Hn.
  - vm_compute. intros Hn. repeat (apply elem_of_cons in Hn as [Hn|Hn]; [discriminate|]). by apply elem_of_nil in Hn.
Defined.

(** The error of the field listed last is returned although other values beside
    sections are allowed: a configuration without enabled section is accepted
    or refused depending on the order in which its fields are listed. *)
Lemma Namespace_order_matters :
  (Namespace_Unpack (H := tree_ucfg) (Node [("worker", Leaf "2"); ("file", disabled)]) (mkNamespace "" None)).2 = Ok tt ∧
  (Namespace_Unpack (H := tree_ucfg) (Node [("file", disabled); ("worker", Leaf "2")]) (mkNamespace "" None)).2 =
    Err "type mismatch".
Proof. split; reflexivity. Qed.
