(* ===== verification/Loader.v ===== *)
(** * Package [loader] (src/loader)

    Files are read as YAML into maps, turned into configurations of the
    third-party ucfg library and merged; the inputs of the files of one folder
    are appended to the merged configuration.  The operations of ucfg and YAML
    are those of the class [LoaderLib], with the documented behaviour of lists
    in [LoaderLaws]. *)
From S2P Require Import Prelude GoStrings GoFS.

Open Scope string_scope.
Open Scope list_scope.

(** ** What the code calls of ucfg, cfgutil and yaml *)
Class LoaderLib := {
  Cfg : Type;
  Val : Type;                                         (** values of a YAML document *)
  UOpt : Type;                                        (** [ucfg.Option] *)
  default_uopts : list UOpt;                          (** of [DefaultOptions] *)
  empty_config : Cfg;                                 (** [ucfg.New] *)
  Unmarshal : string → res string (gmap string Val);
  NewFrom : gmap string Val → list UOpt → res string Cfg;
  Merge_NOOP : Cfg → gmap string Val → res string Cfg;  (** with [ucfg.ResolveNOOP] *)
  Collect : Cfg → Cfg → res string Cfg;               (** [Collector.Add] of a configuration *)
  HasField : Cfg → string → bool;
  CountField : Cfg → string → res string Z;
  SetChild : Cfg → string → Z → Cfg → res string Cfg;
  Unpack_inputs : Cfg → res string (list Cfg)         (** into a struct with the field [inputs] *)
}.

(** A field that is absent or a list can be extended at its end. *)
Class LoaderLaws `{LoaderLib} := {
  elems : Cfg → string → list Cfg;
  is_list : Cfg → string → Prop;
  HasField_false : ∀ c n, HasField c n = false → elems c n = [] ∧ is_list c n;
  CountField_elems : ∀ c n, HasField c n = true → is_list c n → CountField c n = Ok (Z.of_nat (length (elems c n)));
  SetChild_end : ∀ c n v, is_list c n → ∃ c',
    SetChild c n (Z.of_nat (length (elems c n))) v = Ok c' ∧
    elems c' n = elems c n ++ [v] ∧ is_list c' n ∧ ∀ n', n' ≠ n → elems c' n' = elems c n'
}.

Inductive load_error :=
| EunknownOption (ty : string)
| Ecfg (msg : string)
| Eexternal (file : string) (e : load_error)
| Efile (file : string) (e : load_error)
| Einputs (file : string) (e : load_error)
| EmergeFile (file : string) (e : load_error)
| Ecount (e : load_error)
| Eadd (e : load_error)
| Eglob
| ErrNoConfiguration.

Definition cfg_err {A} (r : res string A) : res load_error A :=
  match r with Ok a => Ok a | Err e => Err (Ecfg e) | Panic p => Panic p | OutOfFuel => OutOfFuel end.
Definition wrap_err {A} (g : load_error → load_error) (r : res load_error A) : res load_error A :=
  match r with Err e => Err (g e) | _ => r end.

Section loader.
Context `{MapOrder} `{LoaderLib}.

(** ** config.go *)
Inductive any_option := OUcfg (o : UOpt) | OVarSkipKeys (keys : list string) | OUnknown (ty : string).

Definition DefaultOptions : list any_option := map OUcfg default_uopts ++ [OVarSkipKeys ["inputs"]].

(** The loop over the options and the application of the local ones, of which
    the last wins. *)
Fixpoint split_options (opts : list any_option) (uopts : list UOpt) (skipKeys : list string)
    : res load_error (list UOpt * list string) :=
  match opts with
  | [] => Ok (uopts, skipKeys)
  | OUcfg o :: opts' => split_options opts' (uopts ++ [o]) skipKeys
  | OVarSkipKeys keys :: opts' => split_options opts' uopts keys
  | OUnknown ty :: _ => Err (EunknownOption ty)
  end.

(** The part of [NewConfigFrom] that works on a map: the caller's map, if it
    was given one. *)
Definition skip_key (ds : gmap string Val * gmap string Val) (skip : string) : gmap string Val * gmap string Val :=
  let '(data, skipped) := ds in
  match data !! skip with
  | Some val => (delete skip data, <[skip := val]> skipped)
  | None => (data, skipped)
  end.

Definition restore (data skipped : gmap string Val) : gmap string Val :=
  foldl (λ d kv, <[kv.1 := kv.2]> d) data (map_order skipped).

Definition config_of_data (uopts : list UOpt) (skipKeys : list string) : SE (gmap string Val) load_error Cfg := λ data0,
  let '(data, skipped) := foldl skip_key (data0, ∅) skipKeys in
  match cfg_err (NewFrom data uopts) with
  | Ok cfg =>
      if bool_decide (skipped = ∅) then (data, Ok cfg)
      else (restore data skipped, cfg_err (Merge_NOOP cfg skipped))
  | r => (data, r)
  end.

Inductive source :=
| FromText (s : string)                     (** bytes or a string *)
| FromReader (content : res string string)  (** what reading to the end gives *)
| FromMap                                   (** the map in the store *)
| FromOther (direct : list UOpt → res string Cfg).  (** [ucfg.NewFrom] on any other value *)

Definition local {A} (data : gmap string Val) (c : SE (gmap string Val) load_error A) : SE (gmap string Val) load_error A :=
  λ st, (st, (c data).2).

Definition NewConfigFrom (from : source) (opts : list any_option) : SE (gmap string Val) load_error Cfg :=
  let opts := match opts with [] => DefaultOptions | _ => opts end in
  o ← lift (split_options opts [] []);
  let '(uopts, skipKeys) := (o : list UOpt * list string) in
  match from with
  | FromText s => data ← lift (cfg_err (Unmarshal s)); local data (config_of_data uopts skipKeys)
  | FromReader r =>
      s ← lift (cfg_err r); data ← lift (cfg_err (Unmarshal s)); local data (config_of_data uopts skipKeys)
  | FromMap => config_of_data uopts skipKeys
  | FromOther direct => lift (cfg_err (direct uopts))
  end.

(** ** The caller's map *)
Definition without (keys : list string) (data : gmap string Val) : gmap string Val :=
  filter (λ kv, kv.1 ∉ keys) data.
Definition only (keys : list string) (data : gmap string Val) : gmap string Val :=
  filter (λ kv, kv.1 ∈ keys) data.

Lemma lookup_without keys data k : without keys data !! k = if decide (k ∈ keys) then None else data !! k.
Proof.
  unfold without. destruct (decide (k ∈ keys)).
  - by apply map_lookup_filter_None_2; right; intros ? _ ?.
  - destruct (data !! k) eqn:E; [by apply map_lookup_filter_Some_2|]. apply map_lookup_filter_None_2. by left.
Qed.

Lemma lookup_only keys data k : only keys data !! k = if decide (k ∈ keys) then data !! k else None.
Proof.
  unfold only. destruct (decide (k ∈ keys)).
  - destruct (data !! k) eqn:E; [by apply map_lookup_filter_Some_2|]. apply map_lookup_filter_None_2. by left.
  - by apply map_lookup_filter_None_2; right; intros ? _ ?.
Qed.

Lemma skip_keys_spec data keys : foldl skip_key (data, ∅) keys = (without keys data, only keys data).
Proof.
  induction keys as [|k keys IH] using rev_ind.
  - cbn [foldl]. f_equal; apply map_eq; intros i.
    + by rewrite lookup_without.
    + by rewrite lookup_only.
  - rewrite foldl_snoc, IH. cbn [skip_key]. rewrite lookup_without.
    destruct (decide (k ∈ keys)) as [Hk|Hk].
    { f_equal; apply map_eq; intros i; rewrite ?lookup_without, ?lookup_only;
        rewrite (decide_ext (i ∈ keys ++ [k]) (i ∈ keys)); set_solver. }
    assert (Hsnoc : ∀ A i (x y : A), (if decide (i ∈ keys ++ [k]) then x else y) =
                    if decide (i = k) then x else if decide (i ∈ keys) then x else y).
    { intros A i x y. repeat case_decide; set_solver. }
    destruct (data !! k) as [v|] eqn:Hd; f_equal; apply map_eq; intros i;
      rewrite ?lookup_without, ?lookup_only, Hsnoc; (destruct (decide (i = k)) as [->|Hi];
      [rewrite ?lookup_delete_eq, ?lookup_insert_eq|rewrite ?lookup_delete_ne, ?lookup_insert_ne by done]);
      rewrite ?lookup_without, ?lookup_only, ?decide_False, ?Hd by done; done.
Qed.

Lemma lookup_foldl_insert (l : list (string * Val)) k : ∀ d : gmap string Val, NoDup l.*1 →
  foldl (λ d kv, <[kv.1 := kv.2]> d) d l !! k =
  match (list_to_map l : gmap string Val) !! k with Some v => Some v | None => d !! k end.
Proof.
  induction l as [|[k0 v0] l IH]; intros d Hn; [done|]. rewrite fmap_cons in Hn. apply NoDup_cons in Hn as [Hk0 Hn].
  cbn [foldl fst snd] in *. rewrite IH by done. rewrite list_to_map_cons.
  destruct (decide (k = k0)) as [->|Hne]; [|by rewrite !lookup_insert_ne by congruence].
  by rewrite !lookup_insert_eq, not_elem_of_list_to_map_1.
Qed.

Lemma restore_spec keys data : restore (without keys data) (only keys data) = data.
Proof.
  apply map_eq. intros k. unfold restore. rewrite lookup_foldl_insert by apply NoDup_map_order.
  rewrite list_to_map_map_order, lookup_only, lookup_without.
  destruct (decide (k ∈ keys)); [by destruct (data !! k)|done].
Qed.

(** [NewConfigFrom] on a map expands the map without the skipped keys and
    then adds those unexpanded.  It takes them out of the caller's map on the
    way: the map is whole again afterwards, unless ucfg refused the rest of it;
    then the skipped keys stay missing. *)
Theorem NewConfigFrom_map opts data uopts keys :
  split_options (match opts with [] => DefaultOptions | _ => opts end) [] [] = Ok (uopts, keys) →
  NewConfigFrom FromMap opts data =
    match NewFrom (without keys data) uopts with
    | Ok cfg => (data, if bool_decide (only keys data = ∅) then Ok cfg else cfg_err (Merge_NOOP cfg (only keys data)))
    | Err e => (without keys data, Err (Ecfg e))
    | Panic p => (without keys data, Panic p)
    | OutOfFuel => (without keys data, OutOfFuel)
    end.
Proof.
  intros Ho. unfold NewConfigFrom, lift. rewrite Ho. unfold mbind, SE_bind, config_of_data.
  rewrite skip_keys_spec. destruct (NewFrom (without keys data) uopts) as [cfg|e|p|]; try done.
  cbn [cfg_err]. rewrite restore_spec. case_bool_decide as He; [|done]. f_equal.
  rewrite <- (restore_spec keys data) at 2. rewrite He. apply map_eq. intros k. unfold restore.
  rewrite lookup_foldl_insert by apply NoDup_map_order. by rewrite list_to_map_map_order, lookup_empty.
Qed.

(** [os.Open] and reading the file are the argument [read_file]. *)
Context (read_file : string → res string string).

Definition LoadFile (path : string) : res load_error Cfg :=
  (NewConfigFrom (FromReader (read_file path)) [] ∅).2.

Fixpoint load_files (merged : Cfg) (paths : list string) : res load_error Cfg :=
  match paths with
  | [] => Ok merged
  | path :: paths' =>
      cfg ← LoadFile path; merged' ← cfg_err (Collect merged cfg); load_files merged' paths'
  end.

Definition LoadFiles (paths : list string) : res load_error Cfg := load_files empty_config paths.

Fixpoint getUcfgOptions (opts : list any_option) (uopts : list UOpt) : res load_error (list UOpt) :=
  match opts with
  | [] => Ok uopts
  | OUcfg o :: opts' => getUcfgOptions opts' (uopts ++ [o])
  | OVarSkipKeys _ :: opts' => getUcfgOptions opts' uopts
  | OUnknown ty :: _ => Err (EunknownOption ty)
  end.

(** ** loader.go *)
(** [filepath.Match]: [*] and [?] stop at a separator. *)
Fixpoint whole_match (ts : list glob_token) (s : string) : bool :=
  match ts with
  | [] => String.eqb s ""
  | GStar :: ts' =>
      (fix star (s : string) : bool :=
         whole_match ts' s || match s with "" => false | String a s' => negb (Ascii.eqb a "/") && star s' end) s
  | t :: ts' =>
      match s with
      | "" => false
      | String a s' =>
          match t with
          | GChar c => Ascii.eqb a c
          | GClass neg rs => xorb neg (in_ranges a rs)
          | _ => negb (Ascii.eqb a "/")
          end && whole_match ts' s'
      end
  end.

Definition isFileUnderInputsFolder (inputsFolder f : string) : bool :=
  match tokens_of inputsFolder with
  | Some ts => whole_match ts f
  | None => false
  end.

Definition getInput (c : Cfg) : res load_error (list Cfg) := cfg_err (Unpack_inputs c).

(** The loop over the files: the list of inputs and the merged configuration. *)
Fixpoint load_loop (inputsFolder : string) (files : list string) (inputsList : list Cfg) (merged : Cfg)
    : res load_error (list Cfg * Cfg) :=
  match files with
  | [] => Ok (inputsList, merged)
  | f :: files' =>
      let under := isFileUnderInputsFolder inputsFolder f in
      cfg ← wrap_err (if under then Eexternal f else Efile f) (LoadFile f);
      if under then
        inp ← wrap_err (Einputs f) (getInput cfg);
        load_loop inputsFolder files' (inputsList ++ inp) merged
      else
        merged' ← wrap_err (EmergeFile f) (cfg_err (Collect merged cfg));
        load_loop inputsFolder files' inputsList merged'
  end.

Fixpoint append_inputs (config : Cfg) (start : Z) (inputs : list Cfg) : res load_error Cfg :=
  match inputs with
  | [] => Ok config
  | ll :: inputs' =>
      config' ← wrap_err Eadd (cfg_err (SetChild config "inputs" start ll));
      append_inputs config' (start + 1) inputs'
  end.

Definition Load (inputsFolder : string) (files : list string) : res load_error Cfg :=
  '(inputsList, config) ← load_loop inputsFolder files [] empty_config;
  match inputsList with
  | [] => Ok config
  | _ =>
      start ← (if HasField config "inputs" then wrap_err Ecount (cfg_err (CountField config "inputs")) else Ok 0%Z);
      append_inputs config start inputsList
  end.

(** ** file_discover.go and discover.go *)
Fixpoint discover (f : fs) (patterns files : list string) : list string * option load_error :=
  match patterns with
  | [] => (files, None)
  | pattern :: patterns' =>
      match Glob f pattern with
      | None => (files, Some Eglob)
      | Some found => discover f patterns' (files ++ found)
      end
  end.

Definition DiscoverFiles (f : fs) (patterns : list string) : list string * option load_error := discover f patterns [].

Definition Discoverer (patterns : list string) (f : fs) : list string * option load_error :=
  match filter (λ p, p ≠ "") patterns with
  | [] => ([], Some ErrNoConfiguration)
  | p => DiscoverFiles f p
  end.

(** ** [Load] *)
Section load.
Context `{!LoaderLaws}.

Fixpoint collect_all (merged : Cfg) (cfgs : list Cfg) : res string Cfg :=
  match cfgs with
  | [] => Ok merged
  | c :: cfgs' => merged' ← Collect merged c; collect_all merged' cfgs'
  end.

Variable folder : string.

Definition external (files : list string) : list string :=
  filter (λ f, isFileUnderInputsFolder folder f = true) files.
Definition standalone (files : list string) : list string :=
  filter (λ f, isFileUnderInputsFolder folder f = false) files.

(** What the files hold. *)
Variables (cfg_of : string → Cfg) (inputs_of : string → list Cfg).

Definition loads (files : list string) : Prop :=
  (∀ f, f ∈ files → LoadFile f = Ok (cfg_of f)) ∧
  (∀ f, f ∈ external files → Unpack_inputs (cfg_of f) = Ok (inputs_of f)).

Lemma load_loop_ok files : ∀ inputs merged m,
  loads files → collect_all merged (map cfg_of (standalone files)) = Ok m →
  load_loop folder files inputs merged = Ok (inputs ++ concat (map inputs_of (external files)), m).
Proof.
  unfold loads, external, standalone. induction files as [|f files IH]; intros inputs merged m [Hl Hi] Hm.
  { cbn in *. injection Hm as <-. by rewrite app_nil_r. }
  rewrite !filter_cons in *. cbn [load_loop]. rewrite (Hl f) by (by left).
  assert (Hl' : ∀ g, g ∈ files → LoadFile g = Ok (cfg_of g)) by (intros g ?; apply Hl; by right).
  destruct (isFileUnderInputsFolder folder f) eqn:Hu; cbn [wrap_err];
    unfold mbind, res_bind; cbn beta iota.
  - rewrite (decide_False (P := true = false)) in Hm by done. rewrite decide_True in Hi |- * by done.
    unfold getInput. rewrite (Hi f) by (by left). cbn [cfg_err wrap_err map concat].
    rewrite app_assoc. apply IH; [|done]. split; [done|]. intros g ?. apply Hi. by right.
  - rewrite (decide_True (P := false = false)) in Hm by done. rewrite decide_False in Hi |- * by done.
    cbn [map collect_all] in Hm. apply res_bind_Ok in Hm as (merged' & Hc & Hm). rewrite Hc.
    cbn [cfg_err wrap_err]. by apply IH.
Qed.

Lemma load_loop_app files1 : ∀ files2 inputs merged,
  load_loop folder (files1 ++ files2) inputs merged =
  ('(inputs', merged') ← load_loop folder files1 inputs merged; load_loop folder files2 inputs' merged').
Proof.
  induction files1 as [|f files1 IH]; intros files2 inputs merged; [done|]. cbn [app load_loop].
  destruct (wrap_err _ (LoadFile f)) as [cfg|?| |]; [|reflexivity..].
  unfold mbind, res_bind. cbn beta iota.
  destruct (isFileUnderInputsFolder folder f).
  - destruct (wrap_err _ (getInput cfg)) as [inp|?| |]; [apply IH|reflexivity..].
  - destruct (wrap_err _ _) as [m|?| |]; [apply IH|reflexivity..].
Qed.

Lemma append_inputs_ok ins : ∀ c, is_list c "inputs" → ∃ c',
  append_inputs c (Z.of_nat (length (elems c "inputs"))) ins = Ok c' ∧
  elems c' "inputs" = elems c "inputs" ++ ins ∧ ∀ n, n ≠ "inputs" → elems c' n = elems c n.
Proof.
  induction ins as [|v ins IH]; intros c Hc.
  { exists c. by rewrite app_nil_r. }
  destruct (SetChild_end c "inputs" v Hc) as (c1 & Hs & He & Hl & Hn).
  destruct (IH c1 Hl) as (c' & Ha & He' & Hn'). exists c'. cbn [append_inputs]. rewrite Hs. cbn [cfg_err wrap_err].
  unfold mbind, res_bind. cbn beta iota. split_and!.
  - rewrite <- Ha, He, length_app. cbn [length]. f_equal. lia.
  - by rewrite He', He, <- app_assoc.
  - intros n Hne. by rewrite Hn', Hn.
Qed.

(** [Load] merges the files outside the inputs folder in their order and
    appends the inputs of the files inside it, in their order, to the inputs of
    the merged configuration, leaving its other fields alone; without any such
    inputs the result is the merged configuration itself.  When a file cannot
    be loaded, and those before it can, the error names it. *)
Theorem Load_spec files m :
  loads files → collect_all empty_config (map cfg_of (standalone files)) = Ok m → is_list m "inputs" →
  (∃ c, Load folder files = Ok c ∧
     elems c "inputs" = elems m "inputs" ++ concat (map inputs_of (external files)) ∧
     (∀ n, n ≠ "inputs" → elems c n = elems m n) ∧
     (concat (map inputs_of (external files)) = [] → c = m)) ∧
  ∀ f rest e, LoadFile f = Err e →
    Load folder (files ++ f :: rest) =
      Err (if isFileUnderInputsFolder folder f then Eexternal f e else Efile f e).
Proof.
  intros Hl Hm Hlist. pose proof (load_loop_ok files [] empty_config m Hl Hm) as Hloop. cbn [app] in Hloop. split.
  - unfold Load. rewrite Hloop. unfold mbind at 1, res_bind at 1. cbn beta iota.
    destruct (concat (map inputs_of (external files))) as [|v ins] eqn:Hins.
    { exists m. by rewrite app_nil_r. }
    destruct (append_inputs_ok (v :: ins) m Hlist) as (c & Ha & He & Hn). exists c. split; [|done].
    destruct (HasField m "inputs") eqn:Hf.
    + by rewrite CountField_elems.
    + destruct (HasField_false m "inputs" Hf) as [He0 _]. by rewrite He0 in Ha.
  - intros f rest e Hf. unfold Load. rewrite load_loop_app, Hloop. unfold mbind at 1 2, res_bind at 1 2.
    cbn [load_loop]. rewrite Hf. by destruct (isFileUnderInputsFolder folder f).
Qed.
End load.
End loader.

(** ** A concrete library *)
Module Toy.
(** A configuration is a name and lists of configurations under keys. *)
Inductive tree := T (name : string) (fields : list (string * list tree)).

Definition fields_of (c : tree) : list (string * list tree) := let 'T _ fs := c in fs.
Definition get (fs : list (string * list tree)) (n : string) : option (list tree) :=
  snd <$> find (λ f, String.eqb (fst f) n) fs.
Definition put (fs : list (string * list tree)) (n : string) (v : list tree) : list (string * list tree) :=
  (n, v) :: filter (λ f, f.1 ≠ n) fs.

Lemma get_put fs n v : get (put fs n v) n = Some v.
Proof. unfold get, put. cbn [find fst]. by rewrite String.eqb_refl. Qed.

Lemma get_put_ne fs n n' v : n' ≠ n → get (put fs n v) n' = get fs n'.
Proof.
  intros Hne. unfold get, put. cbn [find fst]. rewrite (proj2 (String.eqb_neq n n')) by congruence. f_equal.
  induction fs as [|[k l] fs IH]; [done|]. rewrite filter_cons. cbn [find fst].
  destruct (decide (k ≠ n)) as [Hk|Hk]; cbn [find fst]; [by rewrite IH|].
  apply dec_stable in Hk as ->. by rewrite (proj2 (String.eqb_neq n n')) by congruence.
Qed.

Definition main_data : gmap string (list tree) := {[ "inputs" := [T "a" []]; "outputs" := [T "o" []] ]}.
Definition external_data : gmap string (list tree) := {[ "inputs" := [T "b" []; T "c" []] ]}.

#[global] Instance lib : LoaderLib := {|
  Cfg := tree; Val := list tree; UOpt := unit; default_uopts := [tt]; empty_config := T "" [];
  Unmarshal s := if String.eqb s "main" then Ok main_data
                 else if String.eqb s "external" then Ok external_data else Err "bad document";
  NewFrom d _ := Ok (T "" (map_to_list d));
  Merge_NOOP c d := Ok (T "" (map_to_list d ++ fields_of c));
  Collect c d := Ok (T "" (foldr (λ f fs, put fs f.1 f.2) (fields_of c) (fields_of d)));
  HasField c n := if get (fields_of c) n is Some _ then true else false;
  CountField c n := match get (fields_of c) n with Some l => Ok (Z.of_nat (length l)) | None => Err "missing" end;
  SetChild c n i v :=
    let l := default [] (get (fields_of c) n) in
    if (i =? Z.of_nat (length l))%Z then Ok (T "" (put (fields_of c) n (l ++ [v]))) else Err "index out of range";
  Unpack_inputs c := Ok (default [] (get (fields_of c) "inputs"))
|}.

#[global] Program Instance laws : LoaderLaws := {|
  elems c n := default [] (get (fields_of c) n);
  is_list c n := True
|}.
Next Obligation. intros c n. cbn. by destruct (get (fields_of c) n). Qed.
Next Obligation. intros c n. cbn. by destruct (get (fields_of c) n). Qed.
Next Obligation.
  intros c n v _. cbn. rewrite Z.eqb_refl. eexists. split; [reflexivity|]. cbn [fields_of].
  rewrite get_put. split_and!; [done..|]. intros n' Hne. by rewrite get_put_ne.
Qed.

Definition read (path : string) : res string string :=
  if String.eqb path "/etc/agent.yml" then Ok "main"
  else if String.eqb path "/etc/inputs.d/x.yml" then Ok "external"
  else Err "no such file".
Definition cfg_of (path : string) : tree :=
  if String.eqb path "/etc/agent.yml" then T "" [("inputs", [T "a" []]); ("outputs", [T "o" []])]
  else T "" [("inputs", [T "b" []; T "c" []])].
Definition inputs_of (_ : string) : list tree := [T "b" []; T "c" []].
End Toy.

Lemma Load_spec_witness : ∃ c,
  Load (H0 := Toy.lib) Toy.read "/etc/inputs.d/*.yml" ["/etc/inputs.d/x.yml"; "/etc/agent.yml"] = Ok c ∧
  elems c "inputs" = [Toy.T "a" []; Toy.T "b" []; Toy.T "c" []] ∧
  Load (H0 := Toy.lib) Toy.read "/etc/inputs.d/*.yml" ["/etc/inputs.d/x.yml"; "/etc/agent.yml"; "/etc/inputs.d/y.yml"]
    = Err (Eexternal "/etc/inputs.d/y.yml" (Ecfg "no such file")).
Proof.
  destruct (Load_spec (H0 := Toy.lib) Toy.read "/etc/inputs.d/*.yml" Toy.cfg_of Toy.inputs_of
    ["/etc/inputs.d/x.yml"; "/etc/agent.yml"] (Toy.T "" [("inputs", [Toy.T "a" []]); ("outputs", [Toy.T "o" []])]))
    as [(c & Hc & He & _) Herr].
  - split.
    + intros f Hf. apply elem_of_cons in Hf as [->|Hf]; [reflexivity|].
      apply list_elem_of_singleton in Hf as ->. reflexivity.
    + intros f Hf. vm_compute in Hf. apply list_elem_of_singleton in Hf as ->. reflexivity.
  - reflexivity.
  - exact I.
  - exists c. split; [exact Hc|]. split; [rewrite He; reflexivity|].
    apply (Herr "/etc/inputs.d/y.yml" [] (Ecfg "no such file")). reflexivity.
Defined.

Lemma NewConfigFrom_map_witness :
  (NewConfigFrom (H0 := Toy.lib) FromMap [] Toy.main_data).1 = Toy.main_data ∧
  (NewConfigFrom (H0 := Toy.lib) FromMap [] Toy.main_data).2 =
    cfg_err (Merge_NOOP (Toy.T "" [("outputs", [Toy.T "o" []])]) {[ "inputs" := [Toy.T "a" []] ]}).
Proof. rewrite (NewConfigFrom_map (H0 := Toy.lib) [] Toy.main_data [tt] ["inputs"]) by reflexivity. split; reflexivity. Defined.

(** With a library that refuses the rest of the map, the inputs are gone from
    the caller's map. *)
Lemma NewConfigFrom_loses_keys :
  let lib := {| Cfg := unit; Val := unit; UOpt := unit; default_uopts := []; empty_config := tt;
                Unmarshal _ := Ok ∅; NewFrom _ _ := Err "missing variable"; Merge_NOOP _ _ := Ok tt;
                Collect _ _ := Ok tt; HasField _ _ := false; CountField _ _ := Ok 0%Z;
                SetChild _ _ _ _ := Ok tt; Unpack_inputs _ := Ok [] |} in
  NewConfigFrom (H0 := lib) FromMap [] ({[ "inputs" := tt; "outputs" := tt ]} : gmap string unit) =
    ({[ "outputs" := tt ]}, Err (Ecfg "missing variable")).
Proof. reflexivity. Qed.
