(* ===== verification/GoNet.v ===== *)
(** * The standard library: addresses and HTTP headers

    [net.SplitHostPort] and [net.JoinHostPort], and [http.Header] with the
    canonical form of its keys. *)
From S2P Require Import Prelude GoStrings GoUtf8.

Open Scope string_scope.
Open Scope list_scope.
Open Scope Z_scope.

(** ** Addresses *)
Inductive addr_error :=
| MissingPort | TooManyColons | MissingBracket | UnexpectedOpen | UnexpectedClose.

Definition check_brackets (open_in close_in : string) (hp : string * string) : res addr_error (string * string) :=
  if negb (lacks "[" open_in) then Err UnexpectedOpen
  else if negb (lacks "]" close_in) then Err UnexpectedClose
  else Ok hp.

Definition split_bracketed (hostport : string) (i : nat) : res addr_error (string * string) :=
  match index_nat hostport "]" with
  | None => Err MissingBracket
  | Some e =>
      if (S e =? String.length hostport)%nat then Err MissingPort
      else if (S e =? i)%nat then
        check_brackets (sdrop 1 hostport) (sdrop (S e) hostport)
          (stake (e - 1) (sdrop 1 hostport), sdrop (S i) hostport)
      else if HasPrefix (sdrop (S e) hostport) ":" then Err TooManyColons
      else Err MissingPort
  end.

Definition SplitHostPort (hostport : string) : res addr_error (string * string) :=
  match last_index_nat hostport ":" with
  | None => Err MissingPort
  | Some i =>
      if HasPrefix hostport "[" then split_bracketed hostport i
      else if negb (lacks ":" (stake i hostport)) then Err TooManyColons
      else check_brackets hostport hostport (stake i hostport, sdrop (S i) hostport)
  end.

Definition JoinHostPort (host port : string) : string :=
  if lacks ":" host then host +:+ ":" +:+ port else "[" +:+ host +:+ "]:" +:+ port.

(** ** Headers
    [textproto.CanonicalMIMEHeaderKey]: the first letter and the letters after
    a hyphen in upper case, the others in lower case; a key with a byte that is
    not allowed in a header is left as it is. *)
Definition in_range (lo hi b : Z) : bool := (lo <=? b) && (b <=? hi).
Definition upper_case (b : Z) : bool := in_range 65 90 b.
Definition lower_case (b : Z) : bool := in_range 97 122 b.

(** The token characters of RFC 7230. *)
Definition validHeaderFieldByte (a : ascii) : bool :=
  let b := byte a in
  in_range 48 57 b || upper_case b || lower_case b ||
  existsb (Ascii.eqb a) ["!"; "#"; "$"; "%"; "&"; "'"; "*"; "+"; "-"; "."; "^"; "_"; "`"; "|"; "~"]%char.

Fixpoint valid_key (s : string) : bool :=
  match s with "" => true | String a r => validHeaderFieldByte a && valid_key r end.

Definition canon_byte (upper : bool) (a : ascii) : ascii :=
  let b := byte a in
  if upper && lower_case b then chr (b - 32)
  else if negb upper && upper_case b then chr (b + 32)
  else a.

Fixpoint canon (upper : bool) (s : string) : string :=
  match s with
  | "" => ""
  | String a r => let a' := canon_byte upper a in String a' (canon (Ascii.eqb a' "-") r)
  end.

Definition CanonicalHeaderKey (s : string) : string := if valid_key s then canon true s else s.

(** [http.Header]: the values of a key, in order. *)
Abbreviation Header := (gmap string (list string)).

Definition Header_values (h : Header) (k : string) : list string :=
  default [] (h !! CanonicalHeaderKey k).
Definition Header_Get (h : Header) (k : string) : string := default "" (head (Header_values h k)).
Definition Header_Set (h : Header) (k v : string) : Header := <[CanonicalHeaderKey k := [v]]> h.
Definition Header_Add (h : Header) (k v : string) : Header :=
  <[CanonicalHeaderKey k := Header_values h k ++ [v]]> h.

(** ** URLs
    The fields of a [url.URL] the code reads or sets; [User] is a name and an
    optional password, [url_rest] stands for the other fields.  Parsing and
    printing are the library's. *)
Record url := mkUrl {
  Scheme : string; User : option (string * option string); Host : string; Path : string; url_rest : string
}.
#[global] Instance url_eq_dec : EqDecision url.
Proof. solve_decision. Defined.
Definition zero_url : url := mkUrl "" None "" "" "".

Class UrlLib := {
  url_Parse : string → url + string;
  url_String : url → string
}.

(** ** Requests, responses and bodies
    A body yields its bytes and then ends, or fails. *)
Record Body := mkBody { b_data : string; b_err : option string }.
Record Request := mkRequest { r_Method : string; r_URL : string; r_Header : Header; r_Body : string }.
Record Response := mkResponse { StatusCode : Z; Status : string; ContentLength : Z; Resp_Body : Body }.

(** [io.ReadAll] *)
Definition io_ReadAll (b : Body) : string + string :=
  match b_err b with None => inl (b_data b) | Some e => inr e end.

(** ** Facts *)
Lemma lacks_HasPrefix c s : lacks c s = true → HasPrefix s (String c "") = false.
Proof.
  destruct s as [|a s]; [done|]. simpl. intros [Ha%negb_true_iff _]%andb_true_iff.
  by rewrite Ha.
Qed.

Lemma last_index_absent c p : lacks c p = true → last_index_nat p (String c "") = None.
Proof.
  induction p as [|a p IH]; [done|]. intros Hl. pose proof (lacks_HasPrefix _ _ Hl) as Hp.
  simpl in Hl. apply andb_true_iff in Hl as [_ Hl]. simpl. rewrite (IH Hl).
  simpl in Hp. by rewrite Hp.
Qed.

Lemma last_index_sep a c p :
  lacks c p = true → last_index_nat (a +:+ String c p) (String c "") = Some (String.length a).
Proof.
  intros Hp. induction a as [|x a IH]; simpl.
  - rewrite (last_index_absent _ _ Hp). rewrite Ascii.eqb_refl. by destruct p.
  - by rewrite IH.
Qed.

Lemma index_nat_sep h c r :
  lacks c h = true → index_nat (h +:+ String c r) (String c "") = Some (String.length h).
Proof.
  induction h as [|x h IH]; intros Hl; simpl.
  - rewrite Ascii.eqb_refl. by destruct r.
  - simpl in Hl. apply andb_true_iff in Hl as [Hx%negb_true_iff Hl]. rewrite Hx. simpl. by rewrite (IH Hl).
Qed.

Lemma sdrop_S_sep a c p : sdrop (S (String.length a)) (a +:+ String c p) = p.
Proof. induction a as [|x a IH]; [by destruct p|exact IH]. Qed.

Lemma SplitHostPort_defined s : defined (SplitHostPort s).
Proof.
  unfold SplitHostPort, split_bracketed, check_brackets.
  repeat (case_match; try exact I).
Qed.

(** Host and port come back, brackets or not. *)
Lemma SplitHostPort_JoinHostPort h p :
  lacks "[" h = true → lacks "]" h = true → lacks ":" p = true → lacks "[" p = true → lacks "]" p = true →
  SplitHostPort (JoinHostPort h p) = Ok (h, p).
Proof.
  intros Ho Hc Hp Hpo Hpc. unfold SplitHostPort, JoinHostPort. destruct (lacks ":" h) eqn:Hh.
  - change (h +:+ ":" +:+ p) with (h +:+ String ":" p). rewrite (last_index_sep _ _ _ Hp).
    assert (Hn : HasPrefix (h +:+ String ":" p) "[" = false).
    { apply lacks_HasPrefix. rewrite lacks_sapp, Ho. simpl. by rewrite Hpo. }
    rewrite Hn, stake_length_app, sdrop_S_sep, Hh. simpl. unfold check_brackets.
    rewrite !lacks_sapp, Ho, Hc. simpl. by rewrite Hpo, Hpc.
  - change ("[" +:+ h +:+ "]:" +:+ p) with (String "[" (h +:+ String "]" (String ":" p))).
    set (s := String "[" _).
    assert (Hs : s = ("[" +:+ h +:+ "]") +:+ String ":" p) by (unfold s; simpl; by rewrite sapp_assoc).
    rewrite Hs at 1. rewrite (last_index_sep _ _ _ Hp). simpl HasPrefix.
    assert (Hlen : String.length ("[" +:+ h +:+ "]") = S (S (String.length h))).
    { simpl. rewrite length_sapp. simpl. lia. }
    rewrite Hlen. unfold split_bracketed.
    assert (Hi : index_nat s "]" = Some (S (String.length h))).
    { unfold s. change (String "[" (h +:+ String "]" (String ":" p))) with ((String "[" h) +:+ String "]" (String ":" p)).
      apply index_nat_sep. simpl. by rewrite Hc. }
    rewrite Hi. assert (Hl : String.length s = (S (S (String.length h)) + S (String.length p))%nat).
    { rewrite Hs, length_sapp, Hlen. done. }
    rewrite Hl. destruct (Nat.eqb_spec (S (S (String.length h))) (S (S (String.length h)) + S (String.length p))); [lia|].
    rewrite Nat.eqb_refl. unfold check_brackets.
    assert (Hd : sdrop (S (S (S (String.length h)))) s = p).
    { rewrite Hs, <- Hlen. apply sdrop_S_sep. }
    assert (Hd1 : sdrop 1 s = h +:+ String "]" (String ":" p)) by (unfold s; simpl; by destruct h).
    assert (Hd2 : sdrop (S (S (String.length h))) s = String ":" p) by (rewrite Hs, <- Hlen; apply sdrop_length_app).
    rewrite Hd, Hd1, Hd2. rewrite lacks_sapp, Ho. simpl. rewrite Hpo, Hpc. simpl.
    by rewrite Nat.sub_0_r, stake_length_app, HasPrefix_nil.
Qed.

(** A canonical key is its own canonical form: headers can be read back under
    any spelling of their key. *)
Lemma canon_byte_idem u a : canon_byte u (canon_byte u a) = canon_byte u a.
Proof. destruct u, a as [[] [] [] [] [] [] [] []]; reflexivity. Qed.
Lemma canon_idem u s : canon u (canon u s) = canon u s.
Proof. revert u. induction s as [|a s IH]; intros u; simpl; [done|]. by rewrite canon_byte_idem, IH. Qed.
Lemma valid_canon_byte u a : validHeaderFieldByte (canon_byte u a) = validHeaderFieldByte a.
Proof. destruct u, a as [[] [] [] [] [] [] [] []]; reflexivity. Qed.
Lemma valid_canon u s : valid_key (canon u s) = valid_key s.
Proof. revert u. induction s as [|a s IH]; intros u; simpl; [done|]. by rewrite valid_canon_byte, IH. Qed.
Lemma CanonicalHeaderKey_idem s : CanonicalHeaderKey (CanonicalHeaderKey s) = CanonicalHeaderKey s.
Proof.
  unfold CanonicalHeaderKey. destruct (valid_key s) eqn:Hv; [|by rewrite Hv].
  by rewrite valid_canon, Hv, canon_idem.
Qed.

Section header_facts.
Implicit Types (h : Header) (k v : string).

Lemma Header_values_Set h k v k' : CanonicalHeaderKey k' = CanonicalHeaderKey k →
  Header_values (Header_Set h k v) k' = [v].
Proof. intros He. unfold Header_values, Header_Set. by rewrite He, lookup_insert_eq. Qed.
Lemma Header_values_Set_ne h k v k' : CanonicalHeaderKey k' ≠ CanonicalHeaderKey k →
  Header_values (Header_Set h k v) k' = Header_values h k'.
Proof. intros He. unfold Header_values, Header_Set. by rewrite lookup_insert_ne. Qed.
Lemma Header_values_Add h k v k' : CanonicalHeaderKey k' = CanonicalHeaderKey k →
  Header_values (Header_Add h k v) k' = Header_values h k' ++ [v].
Proof.
  intros He. unfold Header_Add. unfold Header_values at 1. rewrite He, lookup_insert_eq. simpl.
  unfold Header_values. by rewrite He.
Qed.
Lemma Header_values_Add_ne h k v k' : CanonicalHeaderKey k' ≠ CanonicalHeaderKey k →
  Header_values (Header_Add h k v) k' = Header_values h k'.
Proof. intros He. unfold Header_values at 1, Header_Add. by rewrite lookup_insert_ne. Qed.
End header_facts.
