(* ===== verification/Transport.v ===== *)
(** * Package [transport] (src/transport)

    Dialers and the client.  The network is a store of sockets, with the TLS
    configurations of tlscommon and the cells the TLS dialers remember their
    last configuration in.  What the operating system, the resolver, the random
    generator and the peer answer to the [n]-th call is given by the class
    [NetEnv].  Contexts only reach the forward dialer and are left out, as are
    log output and the test driver, which is the one that does nothing.  What
    crypto/tls reads and writes on the connection below it is not modelled. *)
From S2P Require Import Prelude GoStrings GoUtf8 GoNet TlsNames TlsTypes TlsVerify.

Open Scope string_scope.
Open Scope list_scope.
Open Scope Z_scope.

(** ** Errors of connections: the sentinel errors [errors.Is] finds in one, and
    [Timeout()] when it is a [net.Error]. *)
Inductive sentinel := EOF | Canceled | ErrClosed.
#[global] Instance sentinel_eq : EqDecision sentinel.
Proof. solve_decision. Defined.

Record io_error := mkIO { io_msg : string; io_is : list sentinel; io_net : option bool }.

Definition errors_Is (e : io_error) (s : sentinel) : bool := bool_decide (s ∈ io_is e).

(** The error of a call on a closed socket. *)
Definition use_of_closed : io_error := mkIO "use of closed network connection" [ErrClosed] (Some false).

Inductive net_error :=
| Eunsupported (network : string)
| Eaddr (e : addr_error)
| Elookup (msg : string)
| Enoroute (host : string)
| Eunable (host : string)
| Eio (e : io_error)
| Etls (e : verify_error)
| Ehandshake (msg : string)
| Eincomplete
| Eversion (v : Z)
| Eproxy (msg : string)
| ErrNotConnected.

(** ** Connections *)
Record hs_state := mkHs { HandshakeComplete : bool; hs_Version : Z; hs_cs : ConnectionState }.

(** [net.Conn]: nil, a socket, or a wrapper of a connection. *)
Inductive Conn :=
| NilConn
| Sock (id : nat)
| Tls (c : Conn) (t : tls_Config) (hs : hs_state)
| Stats (c : Conn) (stats : nat)
| Logging (c : Conn).

Definition is_nil (c : Conn) : bool := match c with NilConn => true | _ => false end.

(** The socket at the bottom. *)
Fixpoint sock_of (c : Conn) : option nat :=
  match c with
  | NilConn => None
  | Sock id => Some id
  | Tls c _ _ | Stats c _ | Logging c => sock_of c
  end.

Record sock := mkSock {
  s_network : string; s_address : string; s_open : bool;
  s_readDeadline : option Z; s_writeDeadline : option Z
}.

(** What an [IOStatser] was told. *)
Inductive stat_event :=
| SReadError (e : io_error) | SReadBytes (n : Z) | SWriteError (e : io_error) | SWriteBytes (n : Z).

Record tls_cache := mkCache {
  lastTLSConfig : option tls_Config; lastNetwork : string; lastAddress : string
}.

Record net := mkNet {
  calls : nat; socks : list sock; n_tls : tls_store; caches : list tls_cache;
  events : list (nat * stat_event)
}.

Class NetEnv := {
  now : nat → Z;
  LookupHost : nat → string → list string + string;
  os_Dial : nat → Z → string → string → option io_error;
  rand_Perm : nat → nat → list nat;
  os_SetDeadline : nat → option io_error;
  os_Close : nat → option io_error;
  conn_Read : nat → Z → Z * option io_error;
  conn_Write : nat → string → Z * option io_error;
  (** The exchange with the peer, up to the call of [VerifyConnection]. *)
  peer_Handshake : nat → tls_Config → hs_state + string
}.

(** [rand.Perm(n)] is a permutation of the numbers below [n]. *)
Class NetLaws `{NetEnv} := rand_Perm_perm n k : rand_Perm n k ≡ₚ seq 0 k.

Abbreviation NE := (SE net net_error).
Abbreviation Dialer := (string → string → NE Conn).
Abbreviation DialerH2 := (string → string → list string → NE Conn).

(** [url.Parse], and golang.org/x/net/proxy: the dialer through the proxy, from
    a URL and the dialer to reach the proxy with ([None]: nil). *)
Class ProxyLib := {
  ProxyURL : Type;
  proxy_url_Parse : string → ProxyURL + string;
  proxy_FromURL : ProxyURL → option Dialer → Dialer + string
}.

Record ProxyConfig := mkProxyConfig { URL : string; LocalResolve : bool }.

Record Config := mkConfig {
  Proxy : option ProxyConfig;
  TLS : option nat;
  Timeout : Z;
  c_Stats : option nat
}.

(** The client, whose connection changes, with the network it uses. *)
Record Client := mkClient { dialer : Dialer; network : string; host : string; config : Config }.
Record client_state := mkCS { cs_net : net; conn : Conn }.

Section transport.
Context `{X509} `{NetEnv} `{ProxyLib} (d : tls_defaults).

(** ** The store *)
Definition tick : NE nat :=
  st ← get_store;
  set_store (mkNet (S (calls st)) (socks st) (n_tls st) (caches st) (events st)) ≫= λ _, mret (calls st).

Definition add_sock (s : sock) : NE nat :=
  st ← get_store;
  set_store (mkNet (calls st) (socks st ++ [s]) (n_tls st) (caches st) (events st)) ≫= λ _,
  mret (length (socks st)).

Definition alter_sock (g : sock → sock) (id : nat) : NE unit :=
  modify (λ st, mkNet (calls st) (alter g id (socks st)) (n_tls st) (caches st) (events st)).

Definition emit (s : nat) (e : stat_event) : NE unit :=
  modify (λ st, mkNet (calls st) (socks st) (n_tls st) (caches st) (events st ++ [(s, e)])).

(** A call of tlscommon. *)
Definition with_tls {A} (c : SE tls_store verify_error A) : NE A := λ st,
  match c (n_tls st) with
  | (ts, r) =>
      (mkNet (calls st) (socks st) ts (caches st) (events st),
       match r with Ok a => Ok a | Err e => Err (Etls e) | Panic p => Panic p | OutOfFuel => OutOfFuel end)
  end.

Definition of_addr {A} (r : res addr_error A) : NE A :=
  match r with
  | Ok a => mret a
  | Err e => fail (Eaddr e)
  | Panic p => panics p
  | OutOfFuel => no_fuel
  end.

Definition is_open (st : net) (id : nat) : bool :=
  match socks st !! id with Some s => s_open s | None => false end.

Definition io_fail (e : option io_error) : NE unit :=
  match e with None => mret tt | Some e => fail (Eio e) end.

(** ** Connections *)
Definition shut (s : sock) : sock :=
  mkSock (s_network s) (s_address s) false (s_readDeadline s) (s_writeDeadline s).

Fixpoint Conn_Close (c : Conn) : NE unit :=
  match c with
  | NilConn => panics PNilPointer
  | Sock id =>
      st ← get_store; n ← tick;
      if is_open st id then alter_sock shut id ≫= λ _, io_fail (os_Close n)
      else fail (Eio use_of_closed)
  | Tls c _ _ | Stats c _ | Logging c => Conn_Close c
  end.

Definition deadlines (r w : option (option Z)) (s : sock) : sock :=
  mkSock (s_network s) (s_address s) (s_open s) (default (s_readDeadline s) r) (default (s_writeDeadline s) w).

(** [SetDeadline], [SetReadDeadline], [SetWriteDeadline]: the deadlines to set;
    the zero time means none. *)
Fixpoint Conn_SetDeadline (c : Conn) (r w : option (option Z)) : NE unit :=
  match c with
  | NilConn => panics PNilPointer
  | Sock id =>
      st ← get_store; n ← tick;
      if is_open st id then
        match os_SetDeadline n with
        | Some e => fail (Eio e)
        | None => alter_sock (deadlines r w) id
        end
      else fail (Eio use_of_closed)
  | Tls c _ _ | Stats c _ | Logging c => Conn_SetDeadline c r w
  end.

Definition usable (st : net) (c : Conn) : bool :=
  match sock_of c with Some id => is_open st id | None => false end.

(** Errors the statistics and the log do not report. *)
Definition stats_ignores (e : io_error) : bool := errors_Is e EOF || errors_Is e Canceled.

(** [conn.Read(b)] with [n = len(b)]; the answer is the count and the error. *)
Fixpoint Conn_Read (c : Conn) (len : Z) : NE (Z * option io_error) :=
  match c with
  | NilConn => panics PNilPointer
  | Sock id =>
      st ← get_store; n ← tick;
      mret (if is_open st id then conn_Read n len else (0, Some use_of_closed))
  | Tls c _ _ =>
      st ← get_store; n ← tick;
      mret (if usable st c then conn_Read n len else (0, Some use_of_closed))
  | Stats c s =>
      '(n, err) ← Conn_Read c len;
      (match err with
       | Some e => if stats_ignores e then mret tt else emit s (SReadError e)
       | None => mret tt
       end) ≫= λ _, emit s (SReadBytes n) ≫= λ _, mret (n, err)
  | Logging c => Conn_Read c len
  end.

Fixpoint Conn_Write (c : Conn) (b : string) : NE (Z * option io_error) :=
  match c with
  | NilConn => panics PNilPointer
  | Sock id =>
      st ← get_store; n ← tick;
      mret (if is_open st id then conn_Write n b else (0, Some use_of_closed))
  | Tls c _ _ =>
      st ← get_store; n ← tick;
      mret (if usable st c then conn_Write n b else (0, Some use_of_closed))
  | Stats c s =>
      '(n, err) ← Conn_Write c b;
      (match err with
       | Some e => if stats_ignores e then mret tt else emit s (SWriteError e)
       | None => mret tt
       end) ≫= λ _, emit s (SWriteBytes n) ≫= λ _, mret (n, err)
  | Logging c => Conn_Write c b
  end.

(** ** util.go *)
Definition fullAddress (host : string) (defaultPort : Z) : string :=
  match SplitHostPort host with
  | Ok _ => host
  | _ =>
      if 0 <=? Index host ":" then "[" +:+ host +:+ "]:" +:+ Itoa defaultPort
      else host +:+ ":" +:+ Itoa defaultPort
  end.

(** The loop of [DialWith]; [err] is that of the previous turn. *)
Fixpoint dial_loop (dialer : Dialer) (network host : string) (addresses : list string) (port : string)
    (order : list nat) (err : option net_error) : NE Conn :=
  match order with
  | [] => fail (match err with None => Eunable host | Some e => e end)
  | i :: order' =>
      match addresses !! i with
      | None => panics PIndexOutOfRange
      | Some a =>
          r ← attempt (dialer network (JoinHostPort a port));
          match r with
          | inl c =>
              if is_nil c then dial_loop dialer network host addresses port order' None else mret c
          | inr e => dial_loop dialer network host addresses port order' (Some e)
          end
      end
  end.

Definition DialWith (dialer : Dialer) (network host : string) (addresses : list string) (port : string) : NE Conn :=
  match addresses with
  | [] => fail (Enoroute host)
  | [a] => dialer network (JoinHostPort a port)
  | _ =>
      n ← tick;
      dial_loop dialer network host addresses port (rand_Perm n (length addresses)) None
  end.

(** ** tcp.go *)
(** [net.Dialer{Timeout: timeout}.DialContext] *)
Definition net_Dial (timeout : Z) : Dialer := λ network address,
  n ← tick;
  match os_Dial n timeout network address with
  | Some e => fail (Eio e)
  | None => id ← add_sock (mkSock network address true None None); mret (Sock id)
  end.

Definition tcp_networks : list string := ["tcp"; "tcp4"; "tcp6"].
Definition udp_networks : list string := ["udp"; "udp4"; "udp6"].
Definition one_of (l : list string) (s : string) : bool := existsb (String.eqb s) l.

Definition NetDialer (timeout : Z) : Dialer := λ network address,
  if negb (one_of (tcp_networks ++ udp_networks) network) then fail (Eunsupported network)
  else
    '(host, port) ← of_addr (SplitHostPort address);
    n ← tick;
    match LookupHost n host with
    | inr e => fail (Elookup e)
    | inl addresses => DialWith (net_Dial timeout) network host addresses port
    end.

Definition UnixDialer (timeout : Z) (sockFile : string) : Dialer := λ _ _, net_Dial timeout "unix" sockFile.

(** ** wrap.go, stats.go, logging.go *)
Definition ConnWrapper (dl : Dialer) (w : Conn → Conn) : Dialer := λ network addr,
  c ← dl network addr; mret (w c).

Definition StatsDialer (dl : Dialer) (s : nat) : Dialer := ConnWrapper dl (λ c, Stats c s).

Definition LoggingDialer (dl : Dialer) : Dialer := λ network addr,
  c ← dl network addr; mret (Logging c).

(** ** tls.go *)
Definition Handshake (c : Conn) (t : tls_Config) : NE hs_state :=
  if is_nil c then panics PNilPointer
  else
    n ← tick;
    match peer_Handshake n t with
    | inr e => fail (Ehandshake e)
    | inl hs =>
        match VerifyConnection t with
        | None => mret hs
        | Some f => with_tls (run_verify f (hs_cs hs)) ≫= λ _, mret hs
        end
    end.

(** [_ = conn.Close()] *)
Definition close_quietly (c : Conn) : NE unit := attempt (Conn_Close c) ≫= λ _, mret tt.

(** [if err := c(); err != nil { _ = conn.Close(); return nil, err }] *)
Definition or_close {A} (c : Conn) (call : NE A) : NE A :=
  r ← attempt call;
  match r with
  | inl a => mret a
  | inr e => close_quietly c ≫= λ _, fail e
  end.

Definition postVerifyTLSConnection (hs : hs_state) (config : option nat) : NE unit :=
  if negb (HandshakeComplete hs) then fail Eincomplete
  else
    match config with
    | None => mret tt
    | Some p =>
        cfg ← with_tls (deref p);
        let versions := match c_Versions cfg with [] => TLSDefaultVersions d | vs => vs end in
        if existsb (Z.eqb (hs_Version hs)) versions then mret tt else fail (Eversion (hs_Version hs))
    end.

Definition tlsDialWith (dialer : Dialer) (network address : string) (timeout : Z) (tlsConfig : tls_Config)
    (config : option nat) : NE Conn :=
  socket ← dialer network address;
  (if 0 <? timeout then
     n ← tick; or_close socket (let t := Some (Some (now n + timeout)) in Conn_SetDeadline socket t t)
   else mret tt) ≫= λ _,
  hs ← or_close socket (Handshake socket tlsConfig);
  (if 0 <? timeout then Conn_SetDeadline socket (Some None) (Some None) else mret tt) ≫= λ _,
  or_close socket (postVerifyTLSConnection hs config) ≫= λ _,
  mret (Tls socket tlsConfig hs).

(** The section under the mutex: the remembered configuration if it was made
    for this address, a new one otherwise. *)
Definition cached_config (cell : nat) (config : option nat) (network address host : string) : NE tls_Config :=
  st ← get_store;
  match caches st !! cell with
  | None => panics PNilPointer
  | Some k =>
      match (if String.eqb network (lastNetwork k) && String.eqb address (lastAddress k)
             then lastTLSConfig k else None) with
      | Some t => mret t
      | None =>
          t ← with_tls (BuildModuleClientConfig d config host);
          modify (λ st, mkNet (calls st) (socks st) (n_tls st)
            (<[cell := mkCache (Some t) network address]> (caches st)) (events st)) ≫= λ _,
          mret t
      end
  end.

Definition tls_dial (cell : nat) (forward : Dialer) (config : option nat) (timeout : Z) : Dialer :=
  λ network address,
  if negb (one_of tcp_networks network) then fail (Eunsupported network)
  else
    '(host, _) ← of_addr (SplitHostPort address);
    tlsConfig ← cached_config cell config network address host;
    tlsDialWith forward network address timeout tlsConfig config.

(** Making the dialer makes its three variables. *)
Definition TLSDialer (forward : Dialer) (config : option nat) (timeout : Z) : NE Dialer :=
  st ← get_store;
  set_store (mkNet (calls st) (socks st) (n_tls st) (caches st ++ [mkCache None "" ""]) (events st)) ≫= λ _,
  mret (tls_dial (length (caches st)) forward config timeout).

(** The dialer for HTTP/2: after the section under the mutex it writes the
    protocols of the call into the configuration, which is the remembered one. *)
Definition set_NextProtos (ps : list string) (t : tls_Config) : tls_Config :=
  mkTlsConfig (MinVersion t) (MaxVersion t) (t_Certificates t) (t_RootCAs t) (t_ClientCAs t)
    (InsecureSkipVerify t) (t_CipherSuites t) (t_CurvePreferences t) (t_Renegotiation t) (t_ClientAuth t)
    (t_ServerName t) (VerifyConnection t) ps.

Definition write_NextProtos (cell : nat) (ps : list string) (t : tls_Config) : NE tls_Config :=
  modify (λ st, mkNet (calls st) (socks st) (n_tls st)
    (alter (λ k, mkCache (set_NextProtos ps <$> lastTLSConfig k) (lastNetwork k) (lastAddress k)) cell (caches st))
    (events st)) ≫= λ _,
  mret (set_NextProtos ps t).

(** [cfg] is the list of protocols of the configuration that is passed. *)
Definition tls_dial_h2 (cell : nat) (forward : Dialer) (config : option nat) (timeout : Z) : DialerH2 :=
  λ network address cfg,
  if negb (one_of tcp_networks network) then fail (Eunsupported network)
  else
    '(host, _) ← of_addr (SplitHostPort address);
    cached ← cached_config cell config network address host;
    tlsConfig ← write_NextProtos cell cfg cached;
    tlsDialWith forward network address timeout tlsConfig config.

Definition TLSDialerH2 (forward : Dialer) (config : option nat) (timeout : Z) : NE DialerH2 :=
  st ← get_store;
  set_store (mkNet (calls st) (socks st) (n_tls st) (caches st ++ [mkCache None "" ""]) (events st)) ≫= λ _,
  mret (tls_dial_h2 (length (caches st)) forward config timeout).

(** ** proxy.go *)
Definition or_proxy {A} (r : A + string) : NE A :=
  match r with inl a => mret a | inr e => fail (Eproxy e) end.

Definition ProxyConfig_Validate (c : ProxyConfig) : NE unit :=
  if String.eqb (URL c) "" then mret tt
  else
    url ← or_proxy (proxy_url_Parse (URL c));
    or_proxy (proxy_FromURL url None) ≫= λ _, mret tt.

Definition ProxyDialer (config : option ProxyConfig) (forward : Dialer) : NE Dialer :=
  match config with
  | None => mret forward
  | Some c =>
      if String.eqb (URL c) "" then mret forward
      else
        url ← or_proxy (proxy_url_Parse (URL c));
        or_proxy (proxy_FromURL url None) ≫= λ _,
        mret (λ network address,
          '(host, port) ← of_addr (SplitHostPort address);
          addresses ← (if LocalResolve c then
                         n ← tick;
                         match LookupHost n host with inr e => fail (Elookup e) | inl l => mret l end
                       else mret [host]);
          contextDialer ← or_proxy (proxy_FromURL url (Some forward));
          DialWith contextDialer network host addresses port)
  end.

(** ** transport.go *)
Definition MakeDialer (c : Config) : NE Dialer :=
  dl ← ProxyDialer (Proxy c) (NetDialer (Timeout c));
  let dl := match c_Stats c with Some s => StatsDialer dl s | None => dl end in
  match TLS c with
  | Some p => TLSDialer dl (Some p) (Timeout c)
  | None => mret dl
  end.

Definition DialContext (c : Config) (network address : string) : NE Conn :=
  dl ← MakeDialer c; dl network address.

(** ** client.go *)
Definition NewClientWithDialer (dl : Dialer) (c : Config) (network host : string) (defaultPort : Z) : NE Client :=
  let host := fullAddress host defaultPort in
  of_addr (SplitHostPort host) ≫= λ _, mret (mkClient dl network host c).

Definition supported (c : Config) (network : string) : bool :=
  one_of tcp_networks network ||
  (one_of udp_networks network &&
   match TLS c, Proxy c with None, None => true | _, _ => false end).

Definition NewClient (c : Config) (network host : string) (defaultPort : Z) : NE Client :=
  if negb (supported c network) then fail (Eunsupported network)
  else dl ← MakeDialer c; NewClientWithDialer dl c network host defaultPort.

(** Calls of the client, on its connection and the network. *)
Definition on_net {A} (c : NE A) : SE client_state net_error A := λ st,
  let '(n, r) := c (cs_net st) in (mkCS n (conn st), r).
Definition set_conn (c : Conn) : SE client_state net_error unit :=
  modify (λ st, mkCS (cs_net st) c).
Definition getConn : SE client_state net_error Conn := st ← get_store; mret (conn st).

Definition ConnectContext (cl : Client) : SE client_state net_error unit :=
  st ← get_store;
  (if is_nil (conn st) then mret tt
   else on_net (close_quietly (conn st)) ≫= λ _, set_conn NilConn) ≫= λ _,
  c ← on_net (dialer cl (network cl) (host cl));
  set_conn c.

Definition Connect (cl : Client) : SE client_state net_error unit := ConnectContext cl.

Definition IsConnected : SE client_state net_error bool := c ← getConn; mret (negb (is_nil c)).

Definition Close : SE client_state net_error unit :=
  c ← getConn;
  if is_nil c then mret tt
  else
    r ← on_net (attempt (Conn_Close c));
    set_conn NilConn ≫= λ _,
    match r with inl _ => mret tt | inr e => fail e end.

(** A [net.Error] that is no timeout closes the connection. *)
Definition fatal (e : io_error) : bool := match io_net e with Some timeout => negb timeout | None => false end.

Definition handleError (err : option io_error) : SE client_state net_error (option io_error) :=
  match err with
  | None => mret None
  | Some e => (if fatal e then attempt Close ≫= λ _, mret tt else mret tt) ≫= λ _, mret err
  end.

Definition Read (len : Z) : SE client_state net_error (Z * option io_error) :=
  c ← getConn;
  if is_nil c then fail ErrNotConnected
  else
    '(n, err) ← on_net (Conn_Read c len);
    err ← handleError err; mret (n, err).

(** [Write] checks the connection and then reads the field again. *)
Definition Write_checked (b : string) : SE client_state net_error (Z * option io_error) :=
  c ← getConn;
  '(n, err) ← on_net (Conn_Write c b);
  err ← handleError err; mret (n, err).
Definition Write (b : string) : SE client_state net_error (Z * option io_error) :=
  c ← getConn;
  if is_nil c then fail ErrNotConnected else Write_checked b.

(** The three setters of deadlines. *)
Definition set_deadlines (r w : option (option Z)) : SE client_state net_error unit :=
  c ← getConn;
  if is_nil c then fail ErrNotConnected
  else
    x ← on_net (attempt (Conn_SetDeadline c r w));
    match x with
    | inl _ => mret tt
    | inr (Eio e) => handleError (Some e) ≫= λ _, fail (Eio e)
    | inr e => fail e
    end.
Definition SetDeadline (t : option Z) : SE client_state net_error unit := set_deadlines (Some t) (Some t).
Definition SetReadDeadline (t : option Z) : SE client_state net_error unit := set_deadlines (Some t) None.
Definition SetWriteDeadline (t : option Z) : SE client_state net_error unit := set_deadlines None (Some t).

Definition Client_String (cl : Client) : string := network cl +:+ "://" +:+ host cl.
End transport.
