(* ===== verification/TransportTls.v ===== *)
(** * Package [transport]: what a TLS dialer has verified

    A TLS dialer remembers the configuration of its last dial.  The invariant
    below says that it is the one made for the remembered address, so that the
    peer of every connection was checked against the host that was dialled,
    whatever was dialled before. *)
From S2P Require Import Prelude GoStrings GoUtf8 GoBase64 GoNet TlsNames TlsTypes TlsVerify TlsFacts Transport.

Open Scope string_scope.
Open Scope list_scope.
Open Scope Z_scope.

(** ** Calls that keep a property of the store, whatever they answer *)
Definition keeps {S E A} (I : S → Prop) (c : SE S E A) : Prop := ∀ s, I s → I (fst (c s)).

Section keeps.
Context {S E : Type} (I : S → Prop).

Lemma keeps_ret {A} (a : A) : keeps I (mret a : SE S E A).
Proof. by intros s. Qed.
Lemma keeps_fail {A} (e : E) : keeps I (fail e : SE S E A).
Proof. by intros s. Qed.
Lemma keeps_panics {A} p : keeps I (panics p : SE S E A).
Proof. by intros s. Qed.
Lemma keeps_get : keeps I (get_store : SE S E S).
Proof. by intros s. Qed.
Lemma keeps_bind {A B} (c : SE S E A) (k : A → SE S E B) :
  keeps I c → (∀ a, keeps I (k a)) → keeps I (c ≫= k).
Proof.
  intros Hc Hk s Hs. specialize (Hc s Hs). unfold mbind, SE_bind.
  destruct (c s) as [s' [a| | |]]; simpl in *; [by apply Hk|done..].
Qed.
Lemma keeps_attempt {A} (c : SE S E A) : keeps I c → keeps I (attempt c).
Proof. intros Hc s Hs. specialize (Hc s Hs). unfold attempt. by destruct (c s) as [s' []]. Qed.
Lemma keeps_modify (g : S → S) : (∀ s, I s → I (g s)) → keeps I (modify g : SE S E unit).
Proof. intros Hg s. apply Hg. Qed.
Lemma keeps_run {A} (c : SE S E A) s s' r : keeps I c → I s → c s = (s', r) → I s'.
Proof. intros Hc Hs Hr. specialize (Hc s Hs). by rewrite Hr in Hc. Qed.
End keeps.

(** A composed call either stops in its first part, without a result, or goes
    on. *)
Lemma SE_bind_inv {S E A B} (c : SE S E A) (k : A → SE S E B) s s' r :
  (c ≫= k) s = (s', r) →
  (∃ s1 a, c s = (s1, Ok a) ∧ k a s1 = (s', r)) ∨ (s' = fst (c s) ∧ ∀ b, r ≠ Ok b).
Proof.
  unfold mbind, SE_bind. destruct (c s) as [s1 [a| | |]]; [eauto|..]; intros [= <- <-]; by right.
Qed.

Create HintDb keeps.
#[export] Hint Resolve keeps_ret keeps_fail keeps_panics keeps_get keeps_attempt : keeps.

(** Walk through the binds, conditionals and matches of a call. *)
Ltac keeps_step :=
  match goal with
  | |- keeps _ (_ ≫= _) => apply keeps_bind; [|intros ?]
  | |- keeps _ (match ?x with _ => _ end) => destruct x
  | |- keeps _ (let '(_, _) := ?x in _) => destruct x
  | |- keeps _ _ => solve [eauto with keeps]
  end.
Ltac keeps_walk := repeat keeps_step.

Section tls.
Context `{X509} `{NetEnv} (d : tls_defaults).

(** ** Calls that leave TLS alone *)
Definition quiet {A} (c : NE A) : Prop :=
  ∀ ts ks, keeps (λ st, n_tls st = ts ∧ caches st = ks) c.

Lemma quiet_tick : quiet tick.
Proof. intros ts ks s Hs. exact Hs. Qed.
Lemma quiet_add_sock s : quiet (add_sock s).
Proof. intros ts ks st Hs. exact Hs. Qed.
Lemma quiet_alter_sock g id : quiet (alter_sock g id).
Proof. intros ts ks st Hs. exact Hs. Qed.
Lemma quiet_of_addr {A} (r : res addr_error A) : quiet (of_addr r).
Proof. intros ts ks st Hs. by destruct r. Qed.
Lemma quiet_io_fail e : quiet (io_fail e).
Proof. intros ts ks st Hs. by destruct e. Qed.

Hint Extern 1 (keeps _ tick) => apply quiet_tick : keeps.
Hint Extern 1 (keeps _ (add_sock _)) => apply quiet_add_sock : keeps.
Hint Extern 1 (keeps _ (alter_sock _ _)) => apply quiet_alter_sock : keeps.
Hint Extern 1 (keeps _ (of_addr _)) => apply quiet_of_addr : keeps.
Hint Extern 1 (keeps _ (io_fail _)) => apply quiet_io_fail : keeps.

Lemma quiet_Close c : quiet (Conn_Close c).
Proof. intros ts ks. induction c; simpl; keeps_walk. Qed.
Lemma quiet_SetDeadline c r w : quiet (Conn_SetDeadline c r w).
Proof. intros ts ks. induction c; simpl; keeps_walk. Qed.
Hint Extern 1 (keeps _ (Conn_Close _)) => apply quiet_Close : keeps.
Hint Extern 1 (keeps _ (Conn_SetDeadline _ _ _)) => apply quiet_SetDeadline : keeps.
Lemma quiet_close_quietly c : quiet (close_quietly c).
Proof. intros ts ks. unfold close_quietly. keeps_walk. Qed.
Hint Extern 1 (keeps _ (close_quietly _)) => apply quiet_close_quietly : keeps.
Lemma keeps_or_close {A} (I : net → Prop) c (call : NE A) :
  (∀ st st', n_tls st = n_tls st' → caches st = caches st' → I st → I st') →
  keeps I call → keeps I (or_close c call).
Proof.
  intros HI Hcall. unfold or_close. apply keeps_bind; [by apply keeps_attempt|]. intros [a|e]; [apply keeps_ret|].
  apply keeps_bind; [|intros; apply keeps_fail]. intros st Hst.
  destruct (quiet_close_quietly c _ _ st (conj eq_refl eq_refl)) as [Ht Hk]. by eapply HI; [| |exact Hst].
Qed.

(** A dialer that leaves TLS alone: those below a TLS dialer. *)
Definition plain (dl : Dialer) : Prop := ∀ network address, quiet (dl network address).

Lemma quiet_dial_loop dl nw h l p order err : plain dl → quiet (dial_loop dl nw h l p order err).
Proof.
  intros Hdl ts ks. revert err. induction order as [|i order IH]; intros err; simpl; [apply keeps_fail|].
  destruct (l !! i); [|apply keeps_panics]. apply keeps_bind; [apply keeps_attempt, Hdl|].
  intros [c|e]; [destruct (is_nil c)|]; eauto with keeps.
Qed.
Lemma quiet_DialWith dl nw h l p : plain dl → quiet (DialWith dl nw h l p).
Proof.
  intros Hdl ts ks. unfold DialWith. destruct l as [|a [|b l]]; [apply keeps_fail|apply Hdl|].
  apply keeps_bind; [apply quiet_tick|intros n; by apply quiet_dial_loop].
Qed.
Lemma plain_net_Dial t : plain (net_Dial t).
Proof. intros nw a ts ks. unfold net_Dial. keeps_walk. Qed.
Lemma plain_NetDialer t : plain (NetDialer t).
Proof.
  intros nw a ts ks. unfold NetDialer. destruct (negb _); [apply keeps_fail|].
  apply keeps_bind; [apply quiet_of_addr|]. intros [h p]. apply keeps_bind; [apply quiet_tick|]. intros n.
  destruct (LookupHost n h); [apply quiet_DialWith, plain_net_Dial|apply keeps_fail].
Qed.
Lemma plain_ConnWrapper dl w : plain dl → plain (ConnWrapper dl w).
Proof. intros Hdl nw a ts ks. apply keeps_bind; [apply Hdl|intros; apply keeps_ret]. Qed.

(** ** Trust over time *)
(** How trusting a certificate authority changes a configuration and the pools. *)
Lemma trust_evolves st p cfg cs : configs st !! p = Some cfg → pools_ok st cfg →
  ∃ r, configs (fst (trust_if_set p true cs st)) = <[p := set_RootCAs r cfg]> (configs st) ∧
    (r = RootCAs cfg ∨ RootCAs cfg = None ∧ r = Some (length (pools st))) ∧
    (length (pools st) ≤ length (pools (fst (trust_if_set p true cs st))))%nat ∧
    pools_ok (fst (trust_if_set p true cs st)) (set_RootCAs r cfg).
Proof.
  intros Hp Hpool.
  assert (Hsame : ∃ r, configs st = <[p := set_RootCAs r cfg]> (configs st) ∧
    (r = RootCAs cfg ∨ RootCAs cfg = None ∧ r = Some (length (pools st))) ∧
    (length (pools st) ≤ length (pools st))%nat ∧ pools_ok st (set_RootCAs r cfg)).
  { exists (RootCAs cfg). assert (set_RootCAs (RootCAs cfg) cfg = cfg) as -> by (by destruct cfg).
    rewrite (list_insert_id _ _ _ Hp). auto. }
  unfold trust_if_set. rewrite (SE_bind_run _ _ _ _ _ (config_deref_run _ _ _ Hp)).
  destruct (String.eqb _ ""); cbn [negb]; [exact Hsame|].
  unfold trustRootCA. cbn [Named]. rewrite (SE_bind_run _ _ st st tt eq_refl), (SE_bind_run _ _ _ _ _ (config_deref_run _ _ _ Hp)).
  destruct (hex_DecodeString _) as [fp|]; [|exact Hsame].
  destruct (find_ca fp (PeerCertificates cs)) as [ca|]; [|exact Hsame].
  destruct (RootCAs cfg) as [l|] eqn:Hr.
  - exists (Some l). simpl. rewrite length_alter. conjs; auto.
    + assert (set_RootCAs (Some l) cfg = cfg) as -> by (rewrite <- Hr; by destruct cfg).
      by rewrite (list_insert_id _ _ _ Hp).
    + intros l' [= <-]. simpl. rewrite list_lookup_alter_eq, fmap_is_Some. by apply Hpool.
  - exists (Some (length (pools st))). simpl. rewrite length_alter, length_app. conjs; auto; [simpl; lia|].
    intros l' [= <-]. simpl. by rewrite list_lookup_alter_eq, lookup_app_r, Nat.sub_diag.
Qed.

Lemma run_full_fst p h cs st :
  fst (run_verify (ClientFull p h true) cs st) = fst (trust_if_set p true cs st).
Proof.
  cbn [run_verify]. apply fst_bind_id. intros [] s. destruct (PeerCertificates cs); [done|].
  rewrite fst_bind_id; [apply verify_chain_fst|done].
Qed.

Section dialer.
(** The configuration [cfg] of the dialer, at address [c] in the store [ts0] the
    dialer was made in; the dialer keeps its variables in [cell]. *)
Variables (ts0 : tls_store) (c : nat) (cfg : TLSConfig) (cell : nat).
Hypothesis Hfull : Verification cfg = VerifyFull.
Hypothesis Hlogger : Logger cfg = true.
Hypothesis Hpool0 : pools_ok ts0 cfg.

(** A certificate that may be trusted: of the configured pool, or a certificate
    authority with the trusted fingerprint. *)
Definition allowed_root (x : Certificate) : Prop :=
  (∃ l pool, RootCAs cfg = Some l ∧ pools ts0 !! l = Some pool ∧ x ∈ pool) ∨
  (IsCA x = true ∧ hex_DecodeString (CATrustedFingerprint cfg) = Some (sha256_Sum (Raw x))).

(** The pool a copy of the configuration may use: the configured one, or one made
    later when none was configured. *)
Definition own_pool (r : option nat) : Prop :=
  r = RootCAs cfg ∨ (RootCAs cfg = None ∧ ∃ l, r = Some l ∧ (length (pools ts0) ≤ l)%nat).

(** [t] checks the peer against [h], with a copy of [cfg]. *)
Definition made_for (ts : tls_store) (t : tls_Config) (h : string) : Prop :=
  ∃ p r, VerifyConnection t = Some (ClientFull p h true) ∧ p ≠ c ∧
    configs ts !! p = Some (set_ServerName h (set_RootCAs r cfg)) ∧ own_pool r ∧
    pools_ok ts (set_RootCAs r cfg).

(** The pools hold what they held, and what the fingerprint allows. *)
Definition pools_trusted (ts : tls_store) : Prop :=
  (length (pools ts0) ≤ length (pools ts))%nat ∧
  ∀ l pool x, pools ts !! l = Some pool → x ∈ pool →
    (∃ pool0, pools ts0 !! l = Some pool0 ∧ x ∈ pool0) ∨
    (IsCA x = true ∧ hex_DecodeString (CATrustedFingerprint cfg) = Some (sha256_Sum (Raw x))).

Definition remembers (ts : tls_store) (k : tls_cache) : Prop :=
  ∀ t, lastTLSConfig k = Some t →
    ∃ h port, SplitHostPort (lastAddress k) = Ok (h, port) ∧ made_for ts t h.

Definition dialer_inv (st : net) : Prop :=
  configs (n_tls st) !! c = Some cfg ∧ pools_trusted (n_tls st) ∧
  ∃ k, caches st !! cell = Some k ∧ remembers (n_tls st) k.

Lemma trusted_allowed ts r l pool x : pools_trusted ts → own_pool r → r = Some l →
  pools ts !! l = Some pool → x ∈ pool → allowed_root x.
Proof.
  intros [_ Ht] [Hr|(Hr & l' & Hl & Hge)] -> Hpool Hx; (destruct (Ht _ _ _ Hpool Hx) as [(pool0 & Hl0 & ?)|?]; [|by right]).
  - left. eauto.
  - simplify_eq. apply lookup_lt_Some in Hl0. lia.
Qed.

(** Configurations keep the host they were made for when another copy, or this
    one, is used to verify a peer. *)
Lemma made_for_verify ts p r h t' h' cs :
  configs ts !! p = Some (set_ServerName h (set_RootCAs r cfg)) → own_pool r →
  pools_ok ts (set_RootCAs r cfg) → pools_trusted ts → made_for ts t' h' →
  made_for (fst (run_verify (ClientFull p h true) cs ts)) t' h'.
Proof.
  intros Hp Hown Hok [Hlen _] (p' & r' & Hv & Hne & Hp' & Hown' & Hok'). rewrite run_full_fst.
  destruct (trust_evolves ts p _ cs Hp Hok) as (r1 & Hcfgs & Hr1 & Hgrow & Hok1).
  assert (Hvalid : ∀ x, pools_ok ts (set_RootCAs x cfg) →
    pools_ok (fst (trust_if_set p true cs ts)) (set_RootCAs x cfg)).
  { intros x Hx l Hl. apply Hx in Hl. apply lookup_lt_is_Some in Hl. apply lookup_lt_is_Some. lia. }
  destruct (decide (p' = p)) as [->|Hpp].
  - rewrite Hp in Hp'. injection Hp' as Hh Hr. subst h' r'. exists p, r1. conjs; auto.
    + rewrite Hcfgs, list_lookup_insert_eq by (by eapply lookup_lt_Some). by destruct cfg.
    + destruct Hr1 as [->|[Hnone ->]]; [done|]. destruct Hown as [Heq|(? & l & Hl & ?)]; simpl in *; [|congruence].
      right. split; [congruence|]. eauto.
  - exists p', r'. conjs; auto. by rewrite Hcfgs, list_lookup_insert_ne.
Qed.

Lemma pools_trusted_verify ts p r h cs :
  configs ts !! p = Some (set_ServerName h (set_RootCAs r cfg)) → pools_ok ts (set_RootCAs r cfg) →
  pools_trusted ts → pools_trusted (fst (run_verify (ClientFull p h true) cs ts)).
Proof.
  intros Hp Hok [Hlen Ht]. rewrite run_full_fst.
  destruct (trust_evolves ts p _ cs Hp Hok) as (r1 & _ & _ & Hgrow & _).
  destruct (trust_if_set_step ts p _ cs true Hp) as [Hstep _]. split; [lia|].
  intros l pool x Hl Hx. destruct (Hstep l pool x Hl Hx) as [(pool1 & Hl1 & Hx1)|(_ & ? & ?)]; [eauto|by right].
Qed.

(** The properties above depend on the TLS part of the store only. *)
Lemma dialer_inv_quiet {A} (call : NE A) : quiet call → keeps dialer_inv call.
Proof.
  intros Hq st Hst. destruct (Hq _ _ st (conj eq_refl eq_refl)) as [Ht Hk].
  unfold dialer_inv. by rewrite Ht, Hk.
Qed.

Lemma pools_trusted_ok ts : pools_trusted ts → pools_ok ts cfg.
Proof.
  intros [Hlen _] l Hl. apply Hpool0, lookup_lt_is_Some in Hl. apply lookup_lt_is_Some. lia.
Qed.

Lemma made_for_grow ts t h cs : made_for ts t h → made_for (mkStore (pools ts) (configs ts ++ cs)) t h.
Proof.
  intros (p & r & ? & ? & Hp & ? & Hok). exists p, r. conjs; auto. simpl. by apply lookup_app_l_Some.
Qed.

(** The configuration a dial uses was made for the host of its address. *)
Lemma cached_config_inv network address h port st st' r :
  SplitHostPort address = Ok (h, port) → dialer_inv st →
  cached_config d cell (Some c) network address h st = (st', r) →
  dialer_inv st' ∧ ∃ t, r = Ok t ∧ made_for (n_tls st') t h.
Proof.
  intros Hsplit (Hc & Htr & k & Hk & Hrem). unfold cached_config. rewrite SE_bind_get, Hk.
  destruct (if _ && _ then _ else _) as [t|] eqn:Hlast.
  { intros [= <- <-]. split; [by split_and!; eauto|]. exists t. split; [done|].
    destruct (String.eqb_spec network (lastNetwork k)); [|done]. simpl in Hlast.
    destruct (String.eqb_spec address (lastAddress k)) as [->|]; [|done].
    destruct (Hrem t Hlast) as (h' & port' & Hs & Hm). rewrite Hsplit in Hs. by injection Hs as <- <-. }
  destruct (client_full_build d _ _ _ h Hc Hfull Hlogger) as (t & Hb & Hf & _).
  unfold mbind, SE_bind, with_tls. rewrite Hb. simpl. intros [= <- <-].
  assert (Hm : made_for (mkStore (pools (n_tls st)) (configs (n_tls st) ++ [set_ServerName h cfg])) t h).
  { exists (length (configs (n_tls st))), (RootCAs cfg).
    assert (set_RootCAs (RootCAs cfg) cfg = cfg) as -> by (by destruct cfg). conjs; auto.
    - apply lookup_lt_Some in Hc. lia.
    - apply new_config_lookup.
    - by left.
    - by apply pools_trusted_ok. }
  split; [|by exists t]. split_and!; simpl; [by apply lookup_app_l_Some|done|].
  eexists. split; [apply list_lookup_insert_eq; by eapply lookup_lt_Some|].
  intros t' [= <-]. simpl. eauto.
Qed.

(** A handshake keeps the invariant; when it succeeds the peer's certificate is
    for the host. *)
Definition verified (h : string) (cs : ConnectionState) : Prop :=
  ∃ leaf rest roots, PeerCertificates cs = leaf :: rest ∧ verifyHostname net_ParseIP leaf h = Ok tt ∧
    chain_ok (c_CASha256 cfg) roots false leaf rest ∧
    match roots with
    | Some l => ∀ x, x ∈ l → allowed_root x
    | None => RootCAs cfg = None
    end.

Lemma full_verified ts p r h cs :
  configs ts !! p = Some (set_ServerName h (set_RootCAs r cfg)) → own_pool r →
  pools_ok ts (set_RootCAs r cfg) → pools_trusted ts →
  snd (run_verify (ClientFull p h true) cs ts) = Ok tt → verified h cs.
Proof.
  intros Hp Hown Hok Htr [Hfp (leaf & rest & Hcs & Hchain & Hhost)]%(ClientFull_accepts _ _ _ _ _ Hp Hok).
  exists leaf, rest, (trusted_roots ts (set_ServerName h (set_RootCAs r cfg)) cs). conjs; [done|done|exact Hchain|].
  unfold trusted_roots. simpl. set (pool := pool_of ts r).
  assert (Hpool : match pool with Some l => ∀ x, x ∈ l → allowed_root x | None => RootCAs cfg = None end).
  { unfold pool, pool_of. destruct r as [l|]; simpl.
    - destruct (pools ts !! l) as [pl|] eqn:Hl; [intros x Hx; by eapply trusted_allowed|].
      destruct (Hok l eq_refl). congruence.
    - destruct Hown as [Hr|(_ & l & Hl & _)]; [congruence|done]. }
  destruct (String.eqb_spec (CATrustedFingerprint cfg) "") as [He|Hne]; [exact Hpool|].
  destruct (hex_DecodeString (CATrustedFingerprint cfg)) as [fp|] eqn:Hhex; simpl; [|exact Hpool].
  destruct (find_ca fp (PeerCertificates cs)) as [ca|] eqn:Hca; [|exact Hpool].
  intros x [->|Hx]%elem_of_add_cert.
  - apply find_ca_spec in Hca as (_ & Hisca & Hsum). right. rewrite Hhex. by subst fp.
  - destruct pool as [l|]; [by apply Hpool|by apply not_elem_of_nil in Hx].
Qed.

(** Up to the handshake a dial keeps the configuration it uses. *)
Definition ready (t : tls_Config) (h : string) (st : net) : Prop := dialer_inv st ∧ made_for (n_tls st) t h.

Lemma ready_quiet {A} t h (call : NE A) : quiet call → keeps (ready t h) call.
Proof.
  intros Hq st [Hinv Hm]. split; [by apply dialer_inv_quiet|].
  destruct (Hq _ _ st (conj eq_refl eq_refl)) as [-> _]. done.
Qed.

Lemma Handshake_inv socket t h st st' r :
  ready t h st → Handshake socket t st = (st', r) →
  ready t h st' ∧ ∀ hs, r = Ok hs → verified h (hs_cs hs).
Proof.
  intros [Hinv Hm]. assert (Hm' := Hm). destruct Hm' as (p & rt & Hv & Hne & Hp & Hown & Hok). unfold Handshake.
  destruct (is_nil socket); [by intros [= <- <-]|].
  rewrite (SE_bind_run _ _ st (mkNet (S (calls st)) (socks st) (n_tls st) (caches st) (events st)) (calls st) eq_refl).
  destruct (peer_Handshake _ t) as [hs|e]; [|by intros [= <- <-]].
  rewrite Hv. unfold mbind, SE_bind, with_tls. cbn [n_tls calls socks caches events].
  destruct Hinv as (Hc & Htr & k & Hk & Hrem).
  pose proof (full_verified _ p rt h (hs_cs hs) Hp Hown Hok Htr) as Hver.
  pose proof (pools_trusted_verify _ p rt h (hs_cs hs) Hp Hok Htr) as Htr'.
  pose proof (λ t' h', made_for_verify _ p rt h t' h' (hs_cs hs) Hp Hown Hok Htr) as Hmade.
  assert (Hc' : configs (fst (run_verify (ClientFull p h true) (hs_cs hs) (n_tls st))) !! c = Some cfg).
  { rewrite run_full_fst. destruct (trust_if_set_step (n_tls st) p _ (hs_cs hs) true Hp) as [_ Hq].
    rewrite Hq by done. done. }
  destruct (run_verify (ClientFull p h true) (hs_cs hs) (n_tls st)) as [ts r'] eqn:Hrun. cbn [fst snd] in *.
  intros Heq.
  assert (Hst' : st' = mkNet (S (calls st)) (socks st) ts (caches st) (events st)) by (unfold mret, SE_ret in Heq; destruct r' as [[]| | |]; cbn in Heq; congruence).
  split.
  - subst st'. split; [|by apply Hmade]. split_and!; [done|done|]. exists k. split; [done|]. intros t' Ht'.
    destruct (Hrem t' Ht') as (h' & port' & ? & ?). eauto.
  - intros hs' ->. unfold mret, SE_ret in Heq; destruct r' as [[]| | |]; cbn in Heq; try congruence. assert (hs' = hs) as -> by congruence. by apply Hver.
Qed.
Lemma quiet_run {A} (call : NE A) st st' r : quiet call → call st = (st', r) →
  n_tls st' = n_tls st ∧ caches st' = caches st.
Proof. intros Hq Hr. specialize (Hq _ _ st (conj eq_refl eq_refl)). by rewrite Hr in Hq. Qed.

Definition versions_of : list Z := match c_Versions cfg with [] => TLSDefaultVersions d | vs => vs end.

Lemma ready_or_close {A} t h s (call : NE A) : keeps (ready t h) call → keeps (ready t h) (or_close s call).
Proof. apply keeps_or_close. intros st st' Ht Hk. unfold ready, dialer_inv. by rewrite Ht, Hk. Qed.

Lemma ready_Handshake t h s : keeps (ready t h) (Handshake s t).
Proof.
  intros st Hst. destruct (Handshake s t st) as [st' r] eqn:He.
  by destruct (Handshake_inv _ _ _ _ _ _ Hst He).
Qed.

Lemma or_close_Ok {A} s (call : NE A) st st' a : or_close s call st = (st', Ok a) → call st = (st', Ok a).
Proof.
  unfold or_close, attempt, mbind, SE_bind. destruct (call st) as [st1 [b|e| |]]; try done.
  destruct (close_quietly s st1) as [st2 [| | |]]; done.
Qed.

Lemma ready_postVerify t h hs : keeps (ready t h) (postVerifyTLSConnection d hs (Some c)).
Proof.
  intros st Hst. unfold postVerifyTLSConnection. destruct (negb _); [done|].
  destruct Hst as ((Hc & Hrest) & Hm). unfold with_tls, mbind, SE_bind. rewrite (config_deref_run _ _ _ Hc). simpl.
  destruct (existsb _ _); done.
Qed.

Lemma postVerify_Ok hs st st' : dialer_inv st →
  postVerifyTLSConnection d hs (Some c) st = (st', Ok tt) → HandshakeComplete hs = true ∧ hs_Version hs ∈ versions_of.
Proof.
  intros (Hc & _). unfold postVerifyTLSConnection. destruct (HandshakeComplete hs); [|done]. cbn [negb].
  unfold with_tls, mbind, SE_bind. rewrite (config_deref_run _ _ _ Hc). unfold versions_of.
  destruct (existsb _ _) eqn:He; [|done]. intros _. split; [done|].
  apply existsb_exists in He as (v & Hin & ->%Z.eqb_eq). by apply list_elem_of_In.
Qed.

Lemma set_timeout_ready t h timeout s :
  keeps (ready t h) (if 0 <? timeout then
     n ← tick; or_close s (let dl := Some (Some (now n + timeout)) in Conn_SetDeadline s dl dl)
   else mret tt).
Proof.
  destruct (0 <? timeout); [|apply keeps_ret]. apply keeps_bind; [apply ready_quiet, quiet_tick|]. intros n.
  apply ready_or_close, ready_quiet, quiet_SetDeadline.
Qed.

(** What a dial that returns a connection has checked. *)
Definition dialled (address : string) (cn : Conn) : Prop :=
  ∃ socket t hs h port, cn = Tls socket t hs ∧ SplitHostPort address = Ok (h, port) ∧
    verified h (hs_cs hs) ∧ HandshakeComplete hs = true ∧ hs_Version hs ∈ versions_of.

(** One more step of a dial that is [ready]. *)
Lemma ready_step {A B} t h (call : NE A) (k : A → NE B) st st' r :
  keeps (ready t h) call → ready t h st → (call ≫= k) st = (st', r) →
  (∃ s1 a, call st = (s1, Ok a) ∧ ready t h s1 ∧ k a s1 = (st', r)) ∨ (ready t h st' ∧ ∀ b, r ≠ Ok b).
Proof.
  intros Hk Hst [(s1 & a & He & Hr)|[-> Hno]]%SE_bind_inv; [|right; split; [by apply Hk|done]].
  left. exists s1, a. conjs; try done. by eapply keeps_run.
Qed.

Lemma tlsDialWith_inv fwd nw a timeout t h port st st' r :
  plain fwd → SplitHostPort a = Ok (h, port) → ready t h st →
  tlsDialWith d fwd nw a timeout t (Some c) st = (st', r) →
  dialer_inv st' ∧ ∀ cn, r = Ok cn → dialled a cn.
Proof.
  intros Hf Hs Hst Hrun. unfold tlsDialWith in Hrun.
  apply (ready_step t h) in Hrun as [(s1 & socket & _ & H1 & Hrun)|[[? _] ?]]; [|split; naive_solver|by apply ready_quiet, Hf|done].
  apply (ready_step t h) in Hrun as [(s2 & [] & _ & H2 & Hrun)|[[? _] ?]]; [|split; naive_solver|by apply set_timeout_ready|done].
  apply (ready_step t h) in Hrun as [(s3 & hs & Hd & H3 & Hrun)|[[? _] ?]]; [|split; naive_solver|by apply ready_or_close, ready_Handshake|done].
  apply or_close_Ok in Hd. destruct (Handshake_inv _ _ _ _ _ _ H2 Hd) as [_ Hver]. specialize (Hver hs eq_refl).
  apply (ready_step t h) in Hrun as [(s4 & [] & _ & H4 & Hrun)|[[? _] ?]]; [|split; naive_solver| |done].
  2: { destruct (0 <? timeout); [apply ready_quiet, quiet_SetDeadline|apply keeps_ret]. }
  apply (ready_step t h) in Hrun as [(s5 & [] & Hp & H5 & Hrun)|[[? _] ?]]; [|split; naive_solver|by apply ready_or_close, ready_postVerify|done].
  apply or_close_Ok in Hp. apply postVerify_Ok in Hp as [Hc Hv]; [|by destruct H4].
  injection Hrun as <- <-. split; [by destruct H5|]. intros cn [= <-]. exists socket, t, hs, h, port. done.
Qed.

(** The connection has the configuration of the dial. *)
Lemma tlsDialWith_config fwd nw a timeout t ps st st' cn :
  tlsDialWith d fwd nw a timeout (set_NextProtos ps t) (Some c) st = (st', Ok cn) →
  ∃ s t' hs, cn = Tls s t' hs ∧ NextProtos t' = ps.
Proof.
  unfold tlsDialWith. rewrite SE_bind_Ok. intros (? & s & _ & Hrun). rewrite SE_bind_Ok in Hrun.
  destruct Hrun as (? & [] & _ & Hrun). rewrite SE_bind_Ok in Hrun. destruct Hrun as (? & hs & _ & Hrun).
  rewrite SE_bind_Ok in Hrun. destruct Hrun as (? & [] & _ & Hrun). rewrite SE_bind_Ok in Hrun.
  destruct Hrun as (? & [] & _ & Hrun). injection Hrun as _ <-. by eexists _, _, _.
Qed.

Lemma tls_dial_inv fwd timeout nw a st st' r :
  plain fwd → dialer_inv st → tls_dial d cell fwd (Some c) timeout nw a st = (st', r) →
  dialer_inv st' ∧ ∀ cn, r = Ok cn → dialled a cn.
Proof.
  intros Hf Hst. unfold tls_dial. destruct (negb _); [by intros [= <- <-]|].
  destruct (SplitHostPort a) as [[h port]| | |] eqn:Hs; [|by intros [= <- <-]..].
  rewrite (SE_bind_run _ _ st st (h, port) eq_refl). intros Hrun.
  destruct (cached_config d cell (Some c) nw a h st) as [s1 r1] eqn:Hc.
  destruct (cached_config_inv _ _ _ _ _ _ _ Hs Hst Hc) as (H1 & t & -> & Hm).
  rewrite (SE_bind_run _ _ _ _ _ Hc) in Hrun. by eapply tlsDialWith_inv.
Qed.

(** Writing the protocols changes nothing the invariant is about. *)
Lemma made_for_protos ts t h ps : made_for ts t h → made_for ts (set_NextProtos ps t) h.
Proof. done. Qed.

Lemma write_NextProtos_inv ps t h st st' r :
  ready t h st → write_NextProtos cell ps t st = (st', r) → ready (set_NextProtos ps t) h st' ∧ r = Ok (set_NextProtos ps t).
Proof.
  intros [(Hc & Htr & k & Hk & Hrem) Hm] [= <- <-]. split; [|done]. split; [|exact Hm].
  split_and!; [done|done|]. simpl. eexists. split; [by rewrite list_lookup_alter_eq, Hk|].
  intros t'. simpl. intros (t0 & Ht0 & ->)%fmap_Some. exact (Hrem t0 Ht0).
Qed.

Lemma tls_dial_h2_inv fwd timeout nw a ps st st' r :
  plain fwd → dialer_inv st → tls_dial_h2 d cell fwd (Some c) timeout nw a ps st = (st', r) →
  dialer_inv st' ∧ ∀ cn, r = Ok cn → dialled a cn ∧ ∃ s t hs, cn = Tls s t hs ∧ NextProtos t = ps.
Proof.
  intros Hf Hst. unfold tls_dial_h2. destruct (negb _); [by intros [= <- <-]|].
  destruct (SplitHostPort a) as [[h port]| | |] eqn:Hs; [|by intros [= <- <-]..].
  rewrite (SE_bind_run _ _ st st (h, port) eq_refl). intros Hrun.
  destruct (cached_config d cell (Some c) nw a h st) as [s1 r1] eqn:Hc.
  destruct (cached_config_inv _ _ _ _ _ _ _ Hs Hst Hc) as (H1 & t & -> & Hm).
  rewrite (SE_bind_run _ _ _ _ _ Hc) in Hrun.
  destruct (write_NextProtos cell ps t s1) as [s2 r2] eqn:Hw.
  destruct (write_NextProtos_inv _ _ _ _ _ _ (conj H1 Hm) Hw) as [H2 ->]. rewrite (SE_bind_run _ _ _ _ _ Hw) in Hrun.
  destruct (tlsDialWith_inv _ _ _ _ _ _ _ _ _ _ Hf Hs H2 Hrun) as [? Hd]. split; [done|].
  intros cn ->. split; [by apply Hd|]. by eapply tlsDialWith_config.
Qed.
End dialer.

(** Dials, one after the other, whatever each answers. *)
Definition dials (dl : Dialer) (l : list (string * string)) : NE unit :=
  foreach l (λ '(network, address), attempt (dl network address) ≫= λ _, mret tt).

Lemma dials_inv ts0 c cfg cell fwd timeout l :
  Verification cfg = VerifyFull → Logger cfg = true → pools_ok ts0 cfg → plain fwd →
  keeps (dialer_inv ts0 c cfg cell) (dials (tls_dial d cell fwd (Some c) timeout) l).
Proof.
  intros Hv Hl Hp Hf. induction l as [|[nw a] l IH]; [apply keeps_ret|].
  apply keeps_bind; [|intros _; exact IH]. apply keeps_bind; [|intros; apply keeps_ret].
  apply keeps_attempt. intros st Hst.
  destruct (tls_dial d cell fwd (Some c) timeout nw a st) as [st' r] eqn:He.
  by destruct (tls_dial_inv ts0 c cfg cell Hv Hl Hp _ _ _ _ _ _ _ Hf Hst He).
Qed.

Lemma TLSDialer_inv fwd timeout c cfg st0 : configs (n_tls st0) !! c = Some cfg → pools_ok (n_tls st0) cfg →
  ∃ st1, TLSDialer d fwd (Some c) timeout st0 = (st1, Ok (tls_dial d (length (caches st0)) fwd (Some c) timeout)) ∧
    dialer_inv (n_tls st0) c cfg (length (caches st0)) st1.
Proof.
  intros Hc Hp. eexists. split; [reflexivity|].
  split_and!; [done|split; [done|eauto]|]. eexists. split; [simpl; by rewrite lookup_app_r, Nat.sub_diag|]. done.
Qed.

(** C13: A TLS dialer with verification mode [full] that returns a connection
    has verified the certificate of the peer for the host of the address that
    was dialled, whatever was dialled through it before: the chain leads to a
    configured authority or to one with the trusted fingerprint, meets the
    pins, and the protocol version is a configured one. *)
Theorem TLSDialer_verifies_host fwd timeout c cfg st0 st1 dl earlier st2 network address st3 cn :
  plain fwd → configs (n_tls st0) !! c = Some cfg → pools_ok (n_tls st0) cfg →
  Verification cfg = VerifyFull → Logger cfg = true →
  TLSDialer d fwd (Some c) timeout st0 = (st1, Ok dl) →
  dials dl earlier st1 = (st2, Ok tt) →
  dl network address st2 = (st3, Ok cn) →
  dialled (n_tls st0) cfg address cn.
Proof.
  intros Hf Hc Hp Hv Hl Hmake He Hd.
  destruct (TLSDialer_inv fwd timeout c cfg st0 Hc Hp) as (st1' & Hmake' & Hinv).
  rewrite Hmake in Hmake'. injection Hmake' as <- ->.
  pose proof (keeps_run _ _ _ _ _ (dials_inv _ _ _ _ _ _ earlier Hv Hl Hp Hf) Hinv He) as Hi2.
  destruct (tls_dial_inv _ _ _ _ Hv Hl Hp _ _ _ _ _ _ _ Hf Hi2 Hd) as [_ Hok]. by apply Hok.
Qed.

(** The dialer for HTTP/2 verifies like the other, and each connection offers the
    protocols of its own call although the configuration is shared. *)
Definition dials_h2 (dl : DialerH2) (l : list (string * string * list string)) : NE unit :=
  foreach l (λ '(network, address, ps), attempt (dl network address ps) ≫= λ _, mret tt).

Lemma dials_h2_inv ts0 c cfg cell fwd timeout l :
  Verification cfg = VerifyFull → Logger cfg = true → pools_ok ts0 cfg → plain fwd →
  keeps (dialer_inv ts0 c cfg cell) (dials_h2 (tls_dial_h2 d cell fwd (Some c) timeout) l).
Proof.
  intros Hv Hl Hp Hf. induction l as [|[[nw a] ps] l IH]; [apply keeps_ret|].
  apply keeps_bind; [|intros _; exact IH]. apply keeps_bind; [|intros; apply keeps_ret].
  apply keeps_attempt. intros st Hst.
  destruct (tls_dial_h2 d cell fwd (Some c) timeout nw a ps st) as [st' r] eqn:He.
  by destruct (tls_dial_h2_inv ts0 c cfg cell Hv Hl Hp _ _ _ _ _ _ _ _ Hf Hst He).
Qed.

Theorem TLSDialerH2_verifies_host fwd timeout c cfg st0 st1 dl earlier st2 network address protos st3 cn :
  plain fwd → configs (n_tls st0) !! c = Some cfg → pools_ok (n_tls st0) cfg →
  Verification cfg = VerifyFull → Logger cfg = true →
  TLSDialerH2 d fwd (Some c) timeout st0 = (st1, Ok dl) →
  dials_h2 dl earlier st1 = (st2, Ok tt) →
  dl network address protos st2 = (st3, Ok cn) →
  dialled (n_tls st0) cfg address cn ∧ ∃ s t hs, cn = Tls s t hs ∧ NextProtos t = protos.
Proof.
  intros Hf Hc Hp Hv Hl Hmake He Hd. injection Hmake as Hst1 <-.
  assert (Hinv : dialer_inv (n_tls st0) c cfg (length (caches st0)) st1).
  { rewrite <- Hst1. split_and!; [done|split; [done|eauto]|]. eexists.
    split; [simpl; by rewrite lookup_app_r, Nat.sub_diag|]. done. }
  pose proof (keeps_run _ _ _ _ _ (dials_h2_inv _ _ _ _ _ _ earlier Hv Hl Hp Hf) Hinv He) as Hi2.
  destruct (tls_dial_h2_inv _ _ _ _ Hv Hl Hp _ _ _ _ _ _ _ _ Hf Hi2 Hd) as [_ Hok]. by apply Hok.
Qed.
End tls.

(** ** A network for the witness: every name resolves, every dial connects, and
    every peer presents the chain of [full_chain]. *)
#[local] Existing Instance toy.
#[local] Instance toy_net : NetEnv := {|
  now n := Z.of_nat n;
  LookupHost _ _ := inl ["10.0.0.1"];
  os_Dial _ _ _ _ := None;
  rand_Perm _ k := seq 0 k;
  os_SetDeadline _ := None;
  os_Close _ := None;
  conn_Read _ _ := (0, None);
  conn_Write _ b := (strlen b, None);
  peer_Handshake _ _ := inl (mkHs true TLSVersion12 full_chain)
|}.

Definition toy_store : net := mkNet 0 [] one_config [] [].
Definition toy_dialer : Dialer := tls_dial defaults 0 (NetDialer 5) (Some 0%nat) 5.
Definition toy_earlier : list (string * string) := [("tcp", "mail.example.com:443"); ("tcp", "example.org:443")].
Definition toy_made : net := fst (TLSDialer defaults (NetDialer 5) (Some 0%nat) 5 toy_store).
Definition toy_used : net := fst (dials toy_dialer toy_earlier toy_made).
Definition toy_answer : net * res net_error Conn := toy_dialer "tcp" "www.example.com:443" toy_used.
Definition toy_conn : Conn := match snd toy_answer with Ok cn => cn | _ => NilConn end.

Lemma TLSDialer_verifies_host_witness :
  dialled defaults (n_tls toy_store) by_fingerprint "www.example.com:443" toy_conn.
Proof.
  apply (TLSDialer_verifies_host defaults (NetDialer 5) 5 0%nat by_fingerprint toy_store toy_made toy_dialer
    toy_earlier toy_used "tcp" "www.example.com:443" (fst toy_answer) toy_conn).
  - apply plain_NetDialer.
  - reflexivity.
  - apply by_fingerprint_pools.
  - reflexivity.
  - reflexivity.
  - reflexivity.
  - vm_compute. reflexivity.
  - vm_compute. reflexivity.
Defined.

(** A connection to a host the certificate is not for is refused. *)
Example TLSDialer_refuses_other_host :
  snd ((toy_dialer "tcp" "www.example.com:443" ≫= λ _, toy_dialer "tcp" "example.org:443") toy_made) =
    Err (Etls (Ehost HostnameError)).
Proof. vm_compute. reflexivity. Qed.
