(* ===== verification/TransportClient.v ===== *)
(** * Package [transport]: no connection is left behind

    [DialerSpec] is what a client relies on from its dialer: a dial that
    succeeds opens exactly the socket of the connection it returns, one that
    fails leaves none open.  The dialers of the package implement it; against
    it, the client is shown to hold at most the socket of its connection after
    any sequence of calls with any outcome. *)
From S2P Require Import Prelude GoStrings GoUtf8 GoBase64 GoNet TlsNames TlsTypes TlsVerify TlsFacts Transport TransportTls.

Open Scope string_scope.
Open Scope list_scope.
Open Scope Z_scope.

Section client.
Context `{X509} `{NetEnv} (d : tls_defaults).

(** ** The interface *)
Definition same_open (st st' : net) : Prop := ∀ j, is_open st' j = is_open st j.
Definition one_more (id : nat) (st st' : net) : Prop :=
  is_open st id = false ∧ ∀ j, is_open st' j = is_open st j || Nat.eqb j id.

Definition dial_answer (st st' : net) (r : res net_error Conn) : Prop :=
  match r with
  | Ok c => ∃ id, sock_of c = Some id ∧ one_more id st st'
  | Err _ => same_open st st'
  | Panic _ | OutOfFuel => False
  end.

(** [I] is what the dialer needs of the TLS part of the store. *)
Class DialerSpec (I : net → Prop) (dl : Dialer) := {
  spec_tls st st' : n_tls st = n_tls st' → caches st = caches st' → I st → I st';
  spec_dial nw a st : I st →
    I (fst (dl nw a st)) ∧ dial_answer st (fst (dl nw a st)) (snd (dl nw a st))
}.

(** A dialer that needs nothing. *)
Abbreviation free := (λ _ : net, True).

Lemma same_open_refl st : same_open st st.
Proof. done. Qed.
Lemma same_open_trans a b c : same_open a b → same_open b c → same_open a c.
Proof. intros Hab Hbc j. by rewrite Hbc. Qed.

(** ** Connections *)
Lemma is_open_alter g id st j : (∀ s, s_open (g s) = s_open s) →
  is_open (mkNet (calls st) (alter g id (socks st)) (n_tls st) (caches st) (events st)) j = is_open st j.
Proof.
  intros Hg. unfold is_open. simpl. rewrite list_lookup_alter. case_decide; [subst|done].
  destruct (socks st !! j); simpl; [apply Hg|done].
Qed.

Lemma is_open_shut id st j :
  is_open (mkNet (calls st) (alter shut id (socks st)) (n_tls st) (caches st) (events st)) j =
  is_open st j && negb (Nat.eqb j id).
Proof.
  unfold is_open. simpl. rewrite list_lookup_alter. case_decide as Hj; [subst j|].
  - rewrite Nat.eqb_refl. destruct (socks st !! id); simpl; by rewrite ?andb_false_r.
  - destruct (Nat.eqb_spec j id); [by subst|]. by rewrite andb_true_r.
Qed.

Lemma Close_run c id st : sock_of c = Some id →
  ∃ st' r, Conn_Close c st = (st', r) ∧ defined r ∧ n_tls st' = n_tls st ∧ caches st' = caches st ∧
    ∀ j, is_open st' j = is_open st j && negb (Nat.eqb j id).
Proof.
  induction c as [|i|c IH|c IH|c IH]; simpl; [done| |auto..]. intros [= ->].
  rewrite SE_bind_get. rewrite (SE_bind_run _ _ st _ _ eq_refl). destruct (is_open st id) eqn:Ho.
  - eexists _, (match os_Close (calls st) with None => Ok tt | Some e => Err (Eio e) end). conjs.
    + unfold alter_sock, modify, mbind, SE_bind, io_fail. destruct (os_Close _); reflexivity.
    + by destruct (os_Close _).
    + done.
    + done.
    + intros j. apply (is_open_shut id st j).
  - eexists _, _. conjs; [reflexivity|done|done|done|]. intros j. change (is_open st j = is_open st j && negb (Nat.eqb j id)).
    destruct (Nat.eqb_spec j id) as [->|]; [by rewrite Ho|by rewrite andb_true_r].
Qed.

Lemma close_quietly_run c id st : sock_of c = Some id →
  ∃ st', close_quietly c st = (st', Ok tt) ∧ n_tls st' = n_tls st ∧ caches st' = caches st ∧
    ∀ j, is_open st' j = is_open st j && negb (Nat.eqb j id).
Proof.
  intros Hc. destruct (Close_run c id st Hc) as (st' & r & Hr & Hdef & ? & ? & ?).
  exists st'. conjs; try done. unfold close_quietly, attempt, mbind, SE_bind. rewrite Hr. by destruct r.
Qed.

Lemma SetDeadline_run c id r w st : sock_of c = Some id →
  ∃ st' x, Conn_SetDeadline c r w st = (st', x) ∧ defined x ∧ n_tls st' = n_tls st ∧ caches st' = caches st ∧
    same_open st st' ∧ (∀ e, x = Err e → ∃ i, e = Eio i) ∧
    (is_open st id = true → (∀ n, os_SetDeadline n = None) → x = Ok tt).
Proof.
  induction c as [|i|c IH|c IH|c IH]; simpl; [done| |auto..]. intros [= ->].
  rewrite SE_bind_get. rewrite (SE_bind_run _ _ st _ _ eq_refl). destruct (is_open st id) eqn:Ho.
  - destruct (os_SetDeadline (calls st)) eqn:He; eexists _, _; (conjs; [reflexivity|done|done|done|..]).
    + done.
    + intros e [= <-]. eauto.
    + intros _ Hn. by rewrite Hn in He.
    + intros j. by apply (is_open_alter (deadlines r w) id st j).
    + done.
    + done.
  - eexists _, _. conjs; [reflexivity|done..| |done]. intros e [= <-]. eauto.
Qed.

(** Reading and writing keep the sockets, and TLS. *)
Definition io_kept {A} (st : net) (x : net * res net_error A) : Prop :=
  ∃ st' a, x = (st', Ok a) ∧ n_tls st' = n_tls st ∧ caches st' = caches st ∧ same_open st st'.

Lemma io_kept_stats st (call : NE (Z * option io_error)) s (bad : io_error → stat_event) (count : Z → stat_event) :
  io_kept st (call st) →
  io_kept st ((call ≫= λ '(n, err),
      (match err with
       | Some e => if stats_ignores e then mret tt else emit s (bad e)
       | None => mret tt
       end) ≫= λ _, emit s (count n) ≫= λ _, mret (n, err)) st).
Proof.
  intros (st' & [n err] & Hr & Ht & Hk & Ho). rewrite (SE_bind_run _ _ _ _ _ Hr). unfold mbind, SE_bind.
  destruct err as [e|]; [destruct (stats_ignores e)|]; eexists _, _; (conjs; [reflexivity|done|done|done]).
Qed.

Lemma conn_Read_run c id len st : sock_of c = Some id → io_kept st (Conn_Read c len st).
Proof.
  revert st. induction c as [|i|c IH|c IH s|c IH]; intros st; simpl; [done| | | |auto]; intros Hc.
  - eexists _, _. conjs; [reflexivity|done..].
  - eexists _, _. conjs; [reflexivity|done..].
  - apply io_kept_stats. auto.
Qed.
Lemma conn_Write_run c id b st : sock_of c = Some id → io_kept st (Conn_Write c b st).
Proof.
  revert st. induction c as [|i|c IH|c IH s|c IH]; intros st; simpl; [done| | | |auto]; intros Hc.
  - eexists _, _. conjs; [reflexivity|done..].
  - eexists _, _. conjs; [reflexivity|done..].
  - apply io_kept_stats. auto.
Qed.

(** ** The dialers of the package *)
#[global] Instance net_Dial_spec t : DialerSpec free (net_Dial t).
Proof.
  split; [done|]. intros nw a st _. split; [done|].
  unfold net_Dial. rewrite (SE_bind_run _ _ st _ _ eq_refl). destruct (os_Dial _ _ _ _); [done|]. simpl.
  exists (length (socks st)). split; [done|]. unfold one_more, is_open. simpl. split; [by rewrite lookup_ge_None_2|].
  intros j. destruct (Nat.eqb_spec j (length (socks st))) as [->|].
  - rewrite lookup_app_r, Nat.sub_diag by done. simpl. by rewrite orb_true_r.
  - rewrite orb_false_r. destruct (decide (j < length (socks st))%nat).
    + by rewrite lookup_app_l.
    + rewrite (lookup_ge_None_2 (socks st ++ _)), (lookup_ge_None_2 (socks st)); [done|lia|].
      rewrite length_app. simpl. lia.
Qed.

Section loop.
Context (I : net → Prop) (dl : Dialer) `{!DialerSpec I dl}.

Lemma dial_loop_spec nw h l p order err st : Forall (λ i, (i < length l)%nat) order → I st →
  I (fst (dial_loop dl nw h l p order err st)) ∧
  dial_answer st (fst (dial_loop dl nw h l p order err st)) (snd (dial_loop dl nw h l p order err st)).
Proof.
  intros Hall. revert err st. induction Hall as [|i order Hi Hall IH]; intros err st HI; [done|].
  simpl. destruct (lookup_lt_is_Some_2 l i Hi) as [a ->].
  destruct (spec_dial nw (JoinHostPort a p) st HI) as [HI1 Ha].
  unfold attempt at 1 2 3, mbind, SE_bind.
  destruct (dl nw (JoinHostPort a p) st) as [st1 [c|e| |]] eqn:Hd; simpl in Ha; [| |done..].
  - destruct c; [destruct Ha as (? & [=] & _)|done..].
  - destruct (IH (Some e) st1 HI1) as [HI2 Ha2]. split; [done|].
    destruct (dial_loop dl nw h l p order (Some e) st1) as [st2 [c|e2| |]]; simpl in *; try done.
    + destruct Ha2 as (id & Hs & Hf & Ho). exists id. split; [done|]. split; [by rewrite <- Ha|].
      intros j. by rewrite Ho, Ha.
    + by eapply same_open_trans.
Qed.

Context `{!NetLaws}.

Lemma DialWith_spec nw h l p st : I st →
  I (fst (DialWith dl nw h l p st)) ∧
  dial_answer st (fst (DialWith dl nw h l p st)) (snd (DialWith dl nw h l p st)).
Proof.
  intros HI. unfold DialWith. destruct l as [|a [|b l]]; [done|by apply spec_dial|].
  rewrite (SE_bind_run _ _ st _ _ eq_refl).
  set (st1 := mkNet _ _ _ _ _).
  destruct (dial_loop_spec nw h (a :: b :: l) p (rand_Perm (calls st) (length (a :: b :: l))) None st1) as [? ?].
  - rewrite rand_Perm_perm. apply Forall_seq. lia.
  - by apply (spec_tls st).
  - done.
Qed.

#[global] Instance ConnWrapper_spec w : (∀ c, sock_of (w c) = sock_of c) → DialerSpec I (ConnWrapper dl w).
Proof.
  intros Hw. split; [apply spec_tls|]. intros nw a st HI. destruct (spec_dial nw a st HI) as [HI1 Ha].
  unfold ConnWrapper, mbind, SE_bind. destruct (dl nw a st) as [st1 [c|e| |]]; simpl in *; try done.
  by rewrite Hw.
Qed.
#[global] Instance StatsDialer_spec s : DialerSpec I (StatsDialer dl s).
Proof. by apply ConnWrapper_spec. Qed.
#[global] Instance LoggingDialer_spec : DialerSpec I (LoggingDialer dl).
Proof. by apply (ConnWrapper_spec Logging). Qed.
End loop.

Context `{!NetLaws}.

#[global] Instance NetDialer_spec t : DialerSpec free (NetDialer t).
Proof.
  split; [done|]. intros nw a st _. split; [done|]. unfold NetDialer. destruct (negb _); [done|].
  pose proof (SplitHostPort_defined a) as Hdef.
  unfold of_addr. destruct (SplitHostPort a) as [[h p]|e|q|]; [|done..].
  rewrite (SE_bind_run _ _ st st (h, p) eq_refl), (SE_bind_run _ _ st _ _ eq_refl).
  destruct (LookupHost _ h) as [l|]; [|done].
  destruct (DialWith_spec free (net_Dial t) nw h l p (mkNet (S (calls st)) (socks st) (n_tls st) (caches st) (events st)) I)
    as [_ Ha]. exact Ha.
Qed.

(** *** The TLS dialer
    [x509.Certificate.Verify] returns chains or an error. *)
Definition Verify_returns : Prop := ∀ cert roots inter any, defined (cert_Verify cert roots inter any).

Lemma verifyHostname_defined cert h : defined (verifyHostname net_ParseIP cert h).
Proof.
  unfold verifyHostname. destruct (String.eqb h ""); [done|]. destruct (net_ParseIP _).
  - destruct (existsb _ _); [done|]. destruct (net_ParseIP _); [|done]. by destruct (ip_Equal _ _).
  - induction (cert_names cert) as [|n l IH]; simpl; [done|]. destruct (matchHostnames _ _); [|done]. by destruct (negb _).
Qed.

Lemma verifyCAPin_defined pins chains : defined (verifyCAPin pins chains).
Proof. induction chains as [|ch chains IH]; simpl; [done|]. by destruct (pin_in_chain pins ch). Qed.

Lemma run_full_defined ts p cfg h cs : Verify_returns → configs ts !! p = Some cfg → pools_ok ts cfg →
  defined (snd (run_verify (ClientFull p h true) cs ts)).
Proof.
  intros Hret Hp Hpool. cbn [run_verify].
  destruct (trust_if_set_run ts p cfg cs Hp Hpool) as [(ts' & cfg' & Hrun & Hp' & _)|[Hrun _]].
  2: { unfold mbind, SE_bind. by rewrite Hrun. }
  rewrite (SE_bind_run _ _ _ _ _ Hrun). destruct (PeerCertificates cs) as [|leaf rest] eqn:Hcs; [done|].
  unfold mbind, SE_bind. rewrite (verify_chain_spec _ _ _ _ _ _ _ _ Hp' Hcs). unfold verifyCertsWithOpts.
  specialize (Hret leaf (pool_of ts' (RootCAs cfg')) rest false).
  destruct (cert_Verify _ _ _ _) as [chains| | |]; simpl; try done.
  assert (Hh : defined (snd (lift (S := tls_store) (host_res (verifyHostname net_ParseIP leaf h)) ts'))).
  { simpl. pose proof (verifyHostname_defined leaf h). by destruct (verifyHostname _ _ _). }
  destruct (c_CASha256 cfg') as [|pin pins]; [exact Hh|].
  pose proof (verifyCAPin_defined (pin :: pins) chains). by destruct (verifyCAPin _ _) as [[]| | |].
Qed.

Lemma or_close_run {A} (call : NE A) s id st0 st st1 r :
  sock_of s = Some id → one_more id st0 st → call st = (st1, r) → same_open st st1 → defined r →
  ∃ st2, or_close s call st = (st2, r) ∧
    match r with Ok _ => one_more id st0 st2 | _ => same_open st0 st2 end.
Proof.
  intros Hs [Hf Ho] Hc Hsame Hdef. unfold or_close, attempt, mbind, SE_bind. rewrite Hc.
  destruct r as [a|e| |]; [|..|done|done].
  - exists st1. split; [done|]. split; [done|]. intros j. by rewrite Hsame.
  - destruct (close_quietly_run s id st1 Hs) as (st2 & -> & _ & _ & Hcl). exists st2. split; [done|].
    intros j. rewrite Hcl, Hsame, Ho. destruct (Nat.eqb_spec j id) as [->|]; simpl; [by rewrite andb_false_r|].
    by rewrite orb_false_r, andb_true_r.
Qed.

Lemma one_more_open id st st' : one_more id st st' → is_open st' id = true.
Proof. intros [_ Ho]. by rewrite Ho, Nat.eqb_refl, orb_true_r. Qed.
Lemma one_more_same id st st1 st2 : one_more id st st1 → same_open st1 st2 → one_more id st st2.
Proof. intros [Hf Ho] Hs. split; [done|]. intros j. by rewrite Hs. Qed.
Lemma cached_config_socks cell config nw a h st : socks (fst (cached_config d cell config nw a h st)) = socks st.
Proof.
  unfold cached_config. rewrite SE_bind_get. destruct (caches st !! cell) as [k|]; [|done].
  destruct (if _ && _ then _ else _); [done|]. unfold mbind, SE_bind, with_tls.
  by destruct (BuildModuleClientConfig _ _ _ _) as [ts []].
Qed.

Section tls_dialer.
Variables (ts0 : tls_store) (c : nat) (cfg : TLSConfig) (cell : nat) (fwd : Dialer) (timeout : Z).
Hypothesis Hfull : Verification cfg = VerifyFull.
Hypothesis Hlogger : Logger cfg = true.
Hypothesis Hpool0 : pools_ok ts0 cfg.
Hypothesis Hplain : plain fwd.
Hypothesis Hret : Verify_returns.
Context `{!DialerSpec free fwd}.

Abbreviation J := (ready ts0 c cfg cell).

Lemma Handshake_run s id t h st : sock_of s = Some id → J t h st →
  ∃ st' r, Handshake s t st = (st', r) ∧ defined r ∧ same_open st st'.
Proof.
  intros Hs [(_ & Htr & _) (p & rt & Hv & _ & Hp & _ & Hok)].
  assert (Hnil : is_nil s = false) by (by destruct s).
  unfold Handshake. rewrite Hnil, (SE_bind_run _ _ st _ _ eq_refl), Hv.
  destruct (peer_Handshake _ t) as [hs|]; [|by eexists _, _].
  unfold mbind, SE_bind, with_tls. cbn [n_tls]. pose proof (run_full_defined _ _ _ h (hs_cs hs) Hret Hp Hok) as Hdef.
  destruct (run_verify _ _ _) as [ts [[]| | |]]; (eexists _, _; conjs; [reflexivity|done|done]).
Qed.

Lemma postVerify_run t h hs st : J t h st →
  ∃ r, postVerifyTLSConnection d hs (Some c) st = (st, r) ∧ defined r.
Proof.
  intros [(Hc & _) _]. unfold postVerifyTLSConnection. destruct (negb _); [by eexists|].
  unfold with_tls, mbind, SE_bind. rewrite (config_deref_run _ _ _ Hc).
  destruct st. destruct (existsb _ _); by eexists.
Qed.

(** With the deadline of the handshake always removed without error. *)
Hypothesis Hdeadline : ∀ n, os_SetDeadline n = None.

Lemma tlsDialWith_run nw a t h st : J t h st →
  dial_answer st (fst (tlsDialWith d fwd nw a timeout t (Some c) st))
    (snd (tlsDialWith d fwd nw a timeout t (Some c) st)).
Proof.
  intros HJ. unfold tlsDialWith. pose proof (spec_dial (DialerSpec := _) nw a st I) as [_ Ha].
  pose proof (ready_quiet ts0 c cfg cell t h _ (Hplain nw a) st HJ) as HJ1.
  destruct (fwd nw a st) as [s1 [s|e| |]] eqn:Hd; simpl in Ha, HJ1; [| |done..].
  2: { unfold mbind, SE_bind. by rewrite Hd. }
  rewrite (SE_bind_run _ _ _ _ _ Hd). destruct Ha as (id & Hs & Hone).
  assert (Hset : ∃ s2, (if 0 <? timeout then
      n ← tick; or_close s (let t := Some (Some (now n + timeout)) in Conn_SetDeadline s t t)
    else mret tt) s1 = (s2, Ok tt) ∧ one_more id st s2).
  { destruct (0 <? timeout); [|by exists s1]. rewrite (SE_bind_run _ _ s1 _ _ eq_refl).
    set (s1' := mkNet _ _ _ _ _). cbv zeta.
    destruct (SetDeadline_run s id (Some (Some (now (calls s1) + timeout))) (Some (Some (now (calls s1) + timeout))) s1' Hs)
      as (s2 & x & Hx & Hdef & _ & _ & Hsame & _ & Hok).
    specialize (Hok (one_more_open _ _ _ Hone) Hdeadline). subst x.
    destruct (or_close_run _ s id st s1' s2 _ Hs Hone Hx Hsame Hdef) as (s2' & Hor & Hpost). by exists s2'. }
  destruct Hset as (s2 & Hset & H2). pose proof (set_timeout_ready ts0 c cfg cell t h timeout s s1 HJ1) as HJ2.
  rewrite Hset in HJ2. simpl in HJ2. rewrite (SE_bind_run _ _ _ _ _ Hset). clear Hset.
  destruct (Handshake_run s id t h s2 Hs HJ2) as (s3 & r & Hh & Hdef & Hsame).
  destruct (or_close_run _ s id st s2 s3 r Hs H2 Hh Hsame Hdef) as (s3' & Hor & H3).
  destruct r as [hs|e| |]; [| |done..].
  2: { unfold mbind, SE_bind. by rewrite Hor. }
  rewrite (SE_bind_run _ _ _ _ _ Hor). apply or_close_Ok in Hor as Hor'. rewrite Hh in Hor'. injection Hor' as <-. clear Hor.
  pose proof (ready_Handshake ts0 c cfg cell Hfull Hlogger Hpool0 t h s s2 HJ2) as HJ3. rewrite Hh in HJ3. simpl in HJ3.
  assert (Hreset : ∃ s4, (if 0 <? timeout then Conn_SetDeadline s (Some None) (Some None) else mret tt) s3 = (s4, Ok tt) ∧
    one_more id st s4 ∧ J t h s4).
  { destruct (0 <? timeout); [|by exists s3].
    destruct (SetDeadline_run s id (Some None) (Some None) s3 Hs) as (s4 & x & Hx & _ & Ht & Hk & Hsame4 & _ & Hok).
    specialize (Hok (one_more_open _ _ _ H3) Hdeadline). subst x. exists s4. conjs; [done|by eapply one_more_same|].
    revert HJ3. unfold ready, dialer_inv. by rewrite Ht, Hk. }
  destruct Hreset as (s4 & Hreset & H4 & HJ4). rewrite (SE_bind_run _ _ _ _ _ Hreset).
  destruct (postVerify_run t h hs s4 HJ4) as (r & Hp & Hdefp).
  destruct (or_close_run _ s id st s4 s4 r Hs H4 Hp (same_open_refl _) Hdefp) as (s5 & Hor & H5).
  unfold mbind, SE_bind. rewrite Hor. destruct r as [[]|e| |]; [|done..]. simpl. eauto.
Qed.

#[global] Instance tls_dial_spec :
  DialerSpec (dialer_inv ts0 c cfg cell) (tls_dial d cell fwd (Some c) timeout).
Proof.
  split; [intros st st' Ht Hk; unfold dialer_inv; by rewrite Ht, Hk|]. intros nw a st Hst. split.
  - destruct (tls_dial d cell fwd (Some c) timeout nw a st) as [st' r] eqn:He.
    by destruct (tls_dial_inv d ts0 c cfg cell Hfull Hlogger Hpool0 _ _ _ _ _ _ _ Hplain Hst He).
  - unfold tls_dial. destruct (negb _); [done|]. pose proof (SplitHostPort_defined a) as Hdef.
    destruct (SplitHostPort a) as [[h port]| | |] eqn:Hs; [|done..].
    rewrite (SE_bind_run _ _ st st (h, port) eq_refl).
    destruct (cached_config d cell (Some c) nw a h st) as [s1 r1] eqn:Hc.
    destruct (cached_config_inv d ts0 c cfg cell Hfull Hlogger Hpool0 _ _ _ _ _ _ _ Hs Hst Hc) as (Hi1 & t & -> & Hm).
    pose proof (cached_config_socks cell (Some c) nw a h st) as Hsk. rewrite Hc in Hsk. simpl in Hsk.
    rewrite (SE_bind_run _ _ _ _ _ Hc).
    pose proof (tlsDialWith_run nw a t h s1 (conj Hi1 Hm)) as Ha. revert Ha.
    unfold dial_answer, one_more, same_open, is_open. by rewrite Hsk.
Qed.
End tls_dialer.

(** ** The client *)
Inductive client_op :=
| OConnect | OIsConnected | OClose | ORead (len : Z) | OWrite (b : string)
| OSetDeadline (t : option Z) | OSetReadDeadline (t : option Z) | OSetWriteDeadline (t : option Z).

(** A call, whose answer the caller may ignore. *)
Definition ignore {A} (call : SE client_state net_error A) : SE client_state net_error unit :=
  attempt call ≫= λ _, mret tt.
Definition run_op (cl : Client) (op : client_op) : SE client_state net_error unit :=
  match op with
  | OConnect => ignore (Connect cl)
  | OIsConnected => ignore IsConnected
  | OClose => ignore Close
  | ORead len => ignore (Read len)
  | OWrite b => ignore (Write b)
  | OSetDeadline t => ignore (SetDeadline t)
  | OSetReadDeadline t => ignore (SetReadDeadline t)
  | OSetWriteDeadline t => ignore (SetWriteDeadline t)
  end.

Section runs.
Context (I : net → Prop) (cl : Client) `{!DialerSpec I (dialer cl)}.
Variable net0 : net.

(** Beyond the sockets that were open before, at most that of the connection is
    open. *)
Definition holds_only (id : nat) (n : net) : Prop :=
  is_open net0 id = false ∧ ∀ j, is_open n j = is_open net0 j || (Nat.eqb j id && is_open n j).
Definition holds (st : client_state) : Prop :=
  I (cs_net st) ∧
  (conn st = NilConn ∧ same_open net0 (cs_net st) ∨
   ∃ id, sock_of (conn st) = Some id ∧ holds_only id (cs_net st)).

(** What every call of the client does. *)
Definition call_ok {A} (call : SE client_state net_error A) : Prop :=
  ∀ st, holds st → ∃ st' r, call st = (st', r) ∧ defined r ∧ holds st'.

Lemma sock_not_nil c id : sock_of c = Some id → is_nil c = false.
Proof. by destruct c. Qed.

Lemma holds_kept st n : holds st → n_tls n = n_tls (cs_net st) → caches n = caches (cs_net st) →
  same_open (cs_net st) n → holds (mkCS n (conn st)).
Proof.
  intros [HI Hc] Ht Hk Hs. split; [by apply (spec_tls (cs_net st))|]. simpl.
  destruct Hc as [[? ?]|(id & ? & ? & Ho)]; [left; split; [done|by eapply same_open_trans]|].
  right. exists id. split; [done|]. split; [done|]. intros j. rewrite Hs. apply Ho.
Qed.

(** Closing a connection leaves the sockets that were open before. *)
Lemma close_holds id c n : sock_of c = Some id → holds_only id n → I n →
  ∃ n' r, Conn_Close c n = (n', r) ∧ defined r ∧ I n' ∧ same_open net0 n'.
Proof.
  intros Hs [Hf Ho] HI. destruct (Close_run c id n Hs) as (n' & r & Hr & Hdef & Ht & Hk & Hcl).
  exists n', r. conjs; [done|done|by apply (spec_tls n)|].
  intros j. rewrite Hcl, Ho. destruct (Nat.eqb_spec j id) as [->|]; simpl.
  - by rewrite andb_false_r, Hf.
  - by rewrite orb_false_r, andb_true_r.
Qed.

Lemma Close_ok st : holds st →
  ∃ n r, Close st = (mkCS n NilConn, r) ∧ defined r ∧ I n ∧ same_open net0 n.
Proof.
  intros [HI Hc]. unfold Close. rewrite (SE_bind_run _ _ st st (conn st) eq_refl).
  destruct Hc as [[Hnil Hs]|(id & Hs & Hh)].
  { rewrite Hnil. destruct st as [n c]. simpl in *. subst c. by eexists _, _. }
  rewrite (sock_not_nil _ _ Hs). destruct (close_holds id _ _ Hs Hh HI) as (n' & r & Hr & Hdef & ? & ?).
  exists n', r. conjs; try done.
  unfold on_net, attempt, mbind, SE_bind, set_conn, modify. rewrite Hr. by destruct r as [[]| | |].
Qed.

Lemma holds_closed n : I n → same_open net0 n → holds (mkCS n NilConn).
Proof. split; [done|by left]. Qed.

Lemma handleError_ok err : call_ok (handleError err).
Proof.
  intros st Hst. destruct err as [e|]; [|by eexists _, _]. simpl. destruct (fatal e); [|by eexists _, _].
  destruct (Close_ok st Hst) as (n & r & Hr & Hdef & HI & Hs). unfold attempt, mbind, SE_bind. rewrite Hr.
  exists (mkCS n NilConn), (Ok (Some e)). split; [by destruct r|]. split; [done|by apply holds_closed].
Qed.

Lemma ConnectContext_ok : call_ok (ConnectContext cl).
Proof.
  intros st Hst. unfold ConnectContext. rewrite SE_bind_get.
  assert (∃ n, (if is_nil (conn st) then mret tt
     else on_net (close_quietly (conn st)) ≫= λ _, set_conn NilConn) st = (mkCS n NilConn, Ok tt) ∧ I n ∧ same_open net0 n)
    as (n & Hcl & HI & Hs).
  { destruct Hst as [HI [[Hnil Hs]|(id & Hs & Hh)]].
    - rewrite Hnil. destruct st as [n c]. simpl in *. subst c. by exists n.
    - rewrite (sock_not_nil _ _ Hs). destruct (close_holds id _ _ Hs Hh HI) as (n' & r & Hr & Hdef & ? & ?).
      exists n'. split; [|done]. unfold on_net, close_quietly, attempt, mbind, SE_bind. rewrite Hr. by destruct r. }
  rewrite (SE_bind_run _ _ _ _ _ Hcl).
  destruct (spec_dial (network cl) (host cl) n HI) as [HI' Ha].
  unfold on_net, mbind, SE_bind. simpl. destruct (dialer cl (network cl) (host cl) n) as [n' [c|e| |]]; simpl in *; [| |done..].
  - eexists _, _. conjs; [reflexivity|done|]. split; [done|]. right. destruct Ha as (id & Hsock & Hf & Ho).
    exists id. split; [done|]. split; [by rewrite <- Hs|]. simpl. intros j. rewrite Ho, <- Hs.
    destruct (is_open n j), (Nat.eqb j id); done.
  - eexists _, _. conjs; [reflexivity|done|]. apply holds_closed; [done|by eapply same_open_trans].
Qed.

(** Reading and writing: the answer goes through [handleError]. *)
Lemma io_ok (call : Conn → NE (Z * option io_error)) st :
  (∀ c id n, sock_of c = Some id → io_kept n (call c n)) → holds st →
  ∃ st' r, (if is_nil (conn st) then fail ErrNotConnected else
      '(n, err) ← on_net (call (conn st)); err ← handleError err; mret (n, err)) st = (st', r) ∧ defined r ∧ holds st'.
Proof.
  intros Hcall Hst. destruct (is_nil (conn st)) eqn:Hn; [by eexists _, _|].
  assert (∃ id, sock_of (conn st) = Some id) as [id Hs].
  { destruct Hst as [_ [[Hnil _]|(id & ? & _)]]; [by rewrite Hnil in Hn|eauto]. }
  destruct (Hcall _ id (cs_net st) Hs) as (n' & [k err] & Hr & Ht & Hk & Hsame).
  destruct (handleError_ok err _ (holds_kept st n' Hst Ht Hk Hsame)) as (st' & r & Hh & Hdef & Hst').
  exists st', (r ≫= λ err, Ok (k, err)). unfold on_net, mbind, SE_bind. rewrite Hr. cbn.
  rewrite Hh. split; [by destruct r|]. split; [by destruct r|done].
Qed.

Lemma Read_ok len : call_ok (Read len).
Proof.
  intros st Hst. unfold Read. rewrite (SE_bind_run _ _ st st (conn st) eq_refl).
  apply (io_ok (λ c, Conn_Read c len)); [intros; by eapply conn_Read_run|done].
Qed.
Lemma Write_ok b : call_ok (Write b).
Proof.
  intros st Hst. unfold Write, Write_checked. rewrite (SE_bind_run _ _ st st (conn st) eq_refl).
  destruct (io_ok (λ c, Conn_Write c b) st) as (st' & r & Hr & ?); [intros; by eapply conn_Write_run|done|].
  exists st', r. split; [|done]. rewrite <- Hr. by destruct (is_nil (conn st)).
Qed.

Lemma set_deadlines_ok r w : call_ok (set_deadlines r w).
Proof.
  intros st Hst. unfold set_deadlines. rewrite (SE_bind_run _ _ st st (conn st) eq_refl).
  destruct (is_nil (conn st)) eqn:Hn; [eexists _, (Err _); by split|].
  assert (∃ id, sock_of (conn st) = Some id) as [id Hs].
  { destruct Hst as [_ [[Hnil _]|(id & ? & _)]]; [by rewrite Hnil in Hn|eauto]. }
  destruct (SetDeadline_run (conn st) id r w (cs_net st) Hs) as (n' & x & Hr & Hdef & Ht & Hk & Hsame & He & _).
  pose proof (holds_kept st n' Hst Ht Hk Hsame) as Hst'.
  unfold on_net, attempt, mbind, SE_bind. rewrite Hr. destruct x as [[]|e| |]; [eexists _, (Ok tt); by split| |done..].
  destruct (He e eq_refl) as [i ->].
  destruct (handleError_ok (Some i) _ Hst') as (st2 & r2 & Hh & Hdef2 & Hst2).
  unfold mbind, SE_bind in Hh |- *. rewrite Hh. destruct r2; try done; (eexists st2, _; split; [reflexivity|done]).
Qed.

Lemma ignore_ok {A} (call : SE client_state net_error A) st : call_ok call → holds st →
  ∃ st', ignore call st = (st', Ok tt) ∧ holds st'.
Proof.
  intros Hc Hst. destruct (Hc st Hst) as (st' & r & Hr & Hdef & Hst').
  exists st'. split; [|done]. unfold ignore, attempt, mbind, SE_bind. rewrite Hr. by destruct r.
Qed.

Lemma run_op_ok op st : holds st → ∃ st', run_op cl op st = (st', Ok tt) ∧ holds st'.
Proof.
  intros Hst. destruct op; cbn [run_op]; apply ignore_ok; try done.
  - apply ConnectContext_ok.
  - intros s Hs. by eexists _, _.
  - intros s Hs. destruct (Close_ok s Hs) as (n & r & ? & ? & ? & ?). eexists _, r. conjs; [done..|]. by apply holds_closed.
  - apply Read_ok.
  - apply Write_ok.
  - apply set_deadlines_ok.
  - apply set_deadlines_ok.
  - apply set_deadlines_ok.
Qed.

Lemma run_ops_ok ops st : holds st → ∃ st', foreach ops (run_op cl) st = (st', Ok tt) ∧ holds st'.
Proof.
  revert st. induction ops as [|op ops IH]; intros st Hst; [by exists st|].
  destruct (run_op_ok op st Hst) as (st1 & Hr & H1'). simpl. rewrite (SE_bind_run _ _ _ _ _ Hr). by apply IH.
Qed.
End runs.

(** C14: For a client whose dialer meets the interface [DialerSpec] (every dial
    returns, a successful one opens exactly the socket of its connection, a
    failed one leaves none open) and whose calls are made one after another:
    whatever it is asked to do, in whatever order and whatever reads, writes,
    deadlines and closing answer, every call returns, and the sockets open
    afterwards are those that were open before, untouched, and at most the one of
    the client's connection; closing the client closes that one too, whether or
    not the operating system reports an error. *)
Theorem client_holds_one_socket I cl net0 ops :
  DialerSpec I (dialer cl) → I net0 →
  ∃ st, foreach ops (run_op cl) (mkCS net0 NilConn) = (st, Ok tt) ∧
    (∀ j, is_open net0 j = true → is_open (cs_net st) j = true) ∧
    (∀ j, is_open (cs_net st) j = true → is_open net0 j = true ∨ sock_of (conn st) = Some j) ∧
    ∃ n r, Close st = (mkCS n NilConn, r) ∧ ∀ j, is_open n j = is_open net0 j.
Proof.
  intros Hspec HI. assert (Hst : holds I net0 (mkCS net0 NilConn)) by (by apply holds_closed).
  destruct (run_ops_ok I cl net0 ops _ Hst) as (st & Hrun & Hh). exists st. split; [done|].
  destruct (Close_ok I cl net0 st Hh) as (n & r & Hc & _ & _ & Hsame).
  destruct Hh as [_ [[Hn Hs]|(id & Hs & _ & Ho)]]; conjs; try (by eexists _, _).
  - intros j. by rewrite Hs.
  - intros j. rewrite Hs. by left.
  - intros j Hj. by rewrite Ho, Hj.
  - intros j. rewrite Ho. destruct (is_open net0 j); [by left|]. simpl.
    intros [->%Nat.eqb_eq _]%andb_true_iff. by right.
Qed.
End client.

(** ** Addresses *)
Lemma Index_colon h : (0 <=? Index h ":") = negb (lacks ":" h).
Proof.
  rewrite <- Contains_lacks. unfold Index, Contains. destruct (index_nat h ":"); [|done].
  apply Z.leb_le. lia.
Qed.

(** [fullAddress] adds the default port exactly to addresses without one.
    For a host without brackets, be it a name, an IPv4 or an IPv6 address, the
    result always splits: into its own host and port if it has one, into the
    whole host and the default port otherwise.  So a client is always made. *)
Theorem fullAddress_splits host port :
  lacks "[" host = true → lacks "]" host = true → 0 ≤ port →
  SplitHostPort (fullAddress host port) =
    match SplitHostPort host with Ok hp => Ok hp | _ => Ok (host, Itoa port) end.
Proof.
  intros Ho Hc Hport. unfold fullAddress. pose proof (SplitHostPort_defined host) as Hdef.
  destruct (SplitHostPort host) as [hp|e| |] eqn:Hs; [done| |done..].
  rewrite Index_colon.
  assert (Hj : (if negb (lacks ":" host) then "[" +:+ host +:+ "]:" +:+ Itoa port else host +:+ ":" +:+ Itoa port) =
    JoinHostPort host (Itoa port)) by (unfold JoinHostPort; by destruct (lacks ":" host)).
  rewrite Hj. by apply SplitHostPort_JoinHostPort; try apply lacks_Itoa.
Qed.

Lemma fullAddress_splits_witness :
  SplitHostPort (fullAddress "::1" 5044) = Ok ("::1", "5044") ∧
  SplitHostPort (fullAddress "logs.example.com:9000" 5044) = Ok ("logs.example.com", "9000").
Proof.
  split; [rewrite (fullAddress_splits "::1" 5044) | rewrite (fullAddress_splits "logs.example.com:9000" 5044)];
    (reflexivity || lia).
Defined.

(** ** Witnesses and departures, on the network of TransportTls *)
Section toy.
#[local] Existing Instance toy.
#[local] Existing Instance toy_net.

#[local] Instance toy_laws : NetLaws.
Proof. intros n k. reflexivity. Qed.

Lemma toy_Verify_returns : Verify_returns.
Proof. intros cert roots inter any. simpl. by destruct (filter _ _). Qed.

Definition toy_client : Client := mkClient toy_dialer "tcp" "www.example.com:443" (mkConfig None (Some 0%nat) 5 None).

Lemma toy_client_spec : DialerSpec (dialer_inv one_config 0 by_fingerprint 0) (dialer toy_client).
Proof.
  apply tls_dial_spec.
  - reflexivity.
  - reflexivity.
  - apply by_fingerprint_pools.
  - apply plain_NetDialer.
  - apply toy_Verify_returns.
  - apply _.
  - done.
Qed.

Lemma toy_made_inv : dialer_inv one_config 0 by_fingerprint 0 toy_made.
Proof.
  split_and!; [reflexivity|split; [done|eauto]|]. eexists. split; [reflexivity|]. done.
Qed.

Lemma client_holds_one_socket_witness :
  ∃ st, foreach [OConnect; OWrite "x"; OConnect; ORead 10] (run_op toy_client) (mkCS toy_made NilConn) = (st, Ok tt) ∧
    (∀ j, is_open toy_made j = true → is_open (cs_net st) j = true) ∧
    (∀ j, is_open (cs_net st) j = true → is_open toy_made j = true ∨ sock_of (conn st) = Some j) ∧
    ∃ n r, Close st = (mkCS n NilConn, r) ∧ ∀ j, is_open n j = is_open toy_made j.
Proof. apply (client_holds_one_socket (dialer_inv one_config 0 by_fingerprint 0) toy_client); [apply toy_client_spec|apply toy_made_inv]. Defined.

(** The second connection replaces the first, which is closed. *)
Example reconnect_closes_first :
  let st := fst (foreach [OConnect; OConnect] (run_op toy_client) (mkCS toy_made NilConn)) in
  map s_open (socks (cs_net st)) = [false; true] ∧ sock_of (conn st) = Some 1%nat.
Proof. vm_compute. done. Qed.

(** A [Close] between the check of [Write] and its use of the connection makes
    it panic: the field is read twice. *)
Example Write_Close_race :
  let st := fst (Connect toy_client (mkCS toy_made NilConn)) in
  snd (Write "x" st) = Ok (1, None) ∧
  is_nil (conn st) = false ∧ snd (Write_checked "x" (fst (Close st))) = Panic PNilPointer.
Proof. vm_compute. done. Qed.
End toy.

(** When the deadline of the handshake cannot be removed, the TLS dialer reports
    the error and leaves the socket open. *)
Section leak.
#[local] Existing Instance toy.
#[local] Instance failing_reset : NetEnv := {|
  now n := Z.of_nat n;
  LookupHost _ _ := inl ["10.0.0.1"];
  os_Dial _ _ _ _ := None;
  rand_Perm _ k := seq 0 k;
  os_SetDeadline n := if Nat.eqb n 5 then Some (mkIO "setdeadline" [] None) else None;
  os_Close _ := None;
  conn_Read _ _ := (0, None);
  conn_Write _ b := (strlen b, None);
  peer_Handshake _ _ := inl (mkHs true TLSVersion12 full_chain)
|}.

Example tls_dial_leaks_socket :
  let '(st, r) := tls_dial defaults 0 (NetDialer 5) (Some 0%nat) 5 "tcp" "www.example.com:443" toy_made in
  r = Err (Eio (mkIO "setdeadline" [] None)) ∧ map s_open (socks st) = [true].
Proof. vm_compute. done. Qed.
End leak.
