(* ===== verification/HttpCommon.v ===== *)
(** * Package [httpcommon] (src/transport/httpcommon)

    The settings of HTTP clients and the transport made from them, on the
    network of Transport; the round tripper that adds headers; reading of
    response bodies.  What runs a request, and the third-party wrappers of a
    transport (http2, apm), are the library's.  Module HttpDiag: diagnostics. *)
From S2P Require Import Prelude GoStrings GoUtf8 GoBase64 GoNet TlsNames TlsTypes TlsVerify TlsLoad Transport.

Open Scope string_scope.
Open Scope list_scope.
Open Scope Z_scope.

(** ** proxy_uri.go *)
Abbreviation ProxyURI := url.

Inductive http_error :=
| Eurl (msg : string)
| Econfig (msg : string)
| Eload (e : load_error)
| Everify (e : verify_error)
| Edial (e : net_error)
| Ehttp2 (msg : string)
| EnilResponse
| ErrResponseLimit (length limit : Z)
| EreadKnown (length : Z) (msg : string)
| EreadUnknown (msg : string).

Section proxy.
Context `{UrlLib} `{MapOrder}.

Definition NewProxyURIFromURL (u : url) : option ProxyURI := if decide (u = zero_url) then None else Some u.

Definition NewProxyURIFromString (s : string) : res http_error (option ProxyURI) :=
  if String.eqb s "" then Ok None
  else
    match url_Parse s with
    | inr e => Err (Eurl e)
    | inl u => Ok (NewProxyURIFromURL u)
    end.

(** [*p = *uri] *)
Definition deref_uri (uri : option ProxyURI) : res http_error ProxyURI :=
  match uri with Some u => Ok u | None => Panic PNilPointer end.

Definition ProxyURI_Unpack (s : string) : res http_error ProxyURI :=
  uri ← NewProxyURIFromString s; deref_uri uri.

(** [strings.Trim] with the double quote, the byte 34 *)
Fixpoint trim_left_quotes (s : string) : string :=
  match s with String a r => if Ascii.eqb a "034" then trim_left_quotes r else s | "" => "" end.
Definition trim_quotes (s : string) : string :=
  String.rev (trim_left_quotes (String.rev (trim_left_quotes s))).

Definition ProxyURI_UnmarshalJSON (b : string) : res http_error ProxyURI :=
  uri ← NewProxyURIFromString (trim_quotes b); deref_uri uri.

(** [unmarshal] is the YAML library's, on a string. *)
Definition ProxyURI_UnmarshalYAML (unmarshal : string + string) : res http_error ProxyURI :=
  match unmarshal with
  | inr e => Err (Econfig e)
  | inl rawURI => uri ← NewProxyURIFromString rawURI; deref_uri uri
  end.

Definition ProxyURI_String (p : ProxyURI) : string := url_String p.

(** ** proxy_headers.go *)
Abbreviation ProxyHeaders := (gmap string string).

(** [Headers]: nil when there are none. *)
Definition ProxyHeaders_Headers (p : ProxyHeaders) : option Header :=
  if (0 <? Z.of_nat (size p))
  then Some (foldl (λ h '(k, v), Header_Add h k v) ∅ (map_order p))
  else None.

(** ** proxy.go *)
Record HTTPClientProxySettings := mkProxySettings {
  p_URL : option ProxyURI; p_Headers : ProxyHeaders; p_Disable : bool
}.

Definition NewHTTPClientProxySettings (u : string) (headers : gmap string string) (disable : bool)
    : res http_error HTTPClientProxySettings :=
  proxyURI ← NewProxyURIFromString u; Ok (mkProxySettings proxyURI headers disable).

Definition DefaultHTTPClientProxySettings : HTTPClientProxySettings := mkProxySettings None ∅ false.

(** [Unpack]: what ucfg reads into the three fields. *)
Definition HTTPClientProxySettings_Unpack (tmp : (string * bool * gmap string string) + string)
    : res http_error HTTPClientProxySettings :=
  match tmp with
  | inr e => Err (Econfig e)
  | inl (u, disable, headers) => NewHTTPClientProxySettings u headers disable
  end.

(** The proxy of a transport: nil, the environment's, or one for all requests. *)
Inductive proxy_func := ProxyFromEnvironment | ProxyFixed (u : ProxyURI).

Definition ProxyFunc (s : HTTPClientProxySettings) : option proxy_func :=
  if p_Disable s then None
  else match p_URL s with None => Some ProxyFromEnvironment | Some u => Some (ProxyFixed u) end.
End proxy.

(** ** httpcommon.go: settings and options *)
Record HTTPTransportSettings := mkSettings {
  s_TLS : option TlsTypes.Config;
  s_Timeout : Z;
  s_Proxy : HTTPClientProxySettings;
  s_IdleConnTimeout : Z
}.

(** The fields of an [http.Transport] the package sets.  [net/http] dials with
    [DialTLSContext] for https without a proxy, and for a proxy that is itself
    reached by https.  To an https host behind a proxy it dials the proxy, and
    makes the TLS connection through it with a copy of [TLSClientConfig] whose
    [ServerName], where empty, it sets to the host. *)
Record HTransport := mkTransport {
  t_DialContext : Dialer;
  t_DialTLSContext : Dialer;
  t_TLSClientConfig : tls_Config;
  ForceAttemptHTTP2 : bool;
  t_Proxy : option proxy_func;
  ProxyConnectHeader : option Header;
  TLSHandshakeTimeout : Z;
  ExpectContinueTimeout : Z;
  DisableKeepAlives : bool;
  IdleConnTimeout : Z;
  MaxIdleConns : Z;
  MaxIdleConnsPerHost : Z
}.

(** [http.RoundTripper]: a transport, its HTTP/2 companion, the one that adds
    headers, or a wrapper of another package. *)
Inductive RoundTripper :=
| HTTP1 (t : HTransport)
| HTTP2 (t : HTransport) (AllowHTTP : bool)
| headerRoundTripper (headers : gmap string string) (rt : RoundTripper)
| Wrapped (by_ : string) (rt : RoundTripper).

Record extraSettings := mkExtra { logger : option nat; http2 : bool }.

Inductive TransportOption :=
| baseDialerFunc (fn : option Dialer)
| dialerOptFunc (fn : Dialer → Dialer)
| transportOptFunc (fn : HTTPTransportSettings → HTransport → HTransport)
| rtOptFunc (fn : RoundTripper → RoundTripper)
| extraOptionFunc (fn : extraSettings → extraSettings)
| WithKeepaliveSettings (Disable : bool) (maxIdleConns maxIdleConnsPerHost idleConnTimeout : Z).

Definition second : Z := 1000000000.
Definition defaultHTTPTimeout : Z := 90 * second.

Definition DefaultHTTPTransportSettings : HTTPTransportSettings :=
  mkSettings None defaultHTTPTimeout DefaultHTTPClientProxySettings 0.

(** *** Options *)
Definition applyTransport (o : TransportOption) (s : HTTPTransportSettings) (t : HTransport) : HTransport :=
  match o with
  | transportOptFunc fn => fn s t
  | WithKeepaliveSettings disable conns perHost idle =>
      mkTransport (t_DialContext t) (t_DialTLSContext t) (t_TLSClientConfig t) (ForceAttemptHTTP2 t) (t_Proxy t)
        (ProxyConnectHeader t) (TLSHandshakeTimeout t) (ExpectContinueTimeout t) disable
        (if idle =? 0 then IdleConnTimeout t else idle)
        (if conns =? 0 then MaxIdleConns t else conns)
        (if perHost =? 0 then MaxIdleConnsPerHost t else perHost)
  | _ => t
  end.

Definition with_Proxy (p : option proxy_func) (t : HTransport) : HTransport :=
  mkTransport (t_DialContext t) (t_DialTLSContext t) (t_TLSClientConfig t) (ForceAttemptHTTP2 t) p
    (ProxyConnectHeader t) (TLSHandshakeTimeout t) (ExpectContinueTimeout t) (DisableKeepAlives t)
    (IdleConnTimeout t) (MaxIdleConns t) (MaxIdleConnsPerHost t).
Definition with_ForceAttemptHTTP2 (b : bool) (t : HTransport) : HTransport :=
  mkTransport (t_DialContext t) (t_DialTLSContext t) (t_TLSClientConfig t) b (t_Proxy t)
    (ProxyConnectHeader t) (TLSHandshakeTimeout t) (ExpectContinueTimeout t) (DisableKeepAlives t)
    (IdleConnTimeout t) (MaxIdleConns t) (MaxIdleConnsPerHost t).

Definition WithBaseDialer (dl : option Dialer) : TransportOption := baseDialerFunc dl.
Definition WithIOStats (stats : option nat) : TransportOption :=
  dialerOptFunc (λ dl, match stats with None => dl | Some s => StatsDialer dl s end).
Definition WithTransportFunc (fn : HTransport → HTransport) : TransportOption := transportOptFunc (λ _ t, fn t).
Definition WithHTTP2Only (b : bool) : TransportOption := extraOptionFunc (λ s, mkExtra (logger s) b).
Definition WithForceAttemptHTTP2 (b : bool) : TransportOption := transportOptFunc (λ _ t, with_ForceAttemptHTTP2 b t).
Definition WithNOProxy : TransportOption := transportOptFunc (λ _ t, with_Proxy None t).
Definition WithoutProxyEnvironmentVariables : TransportOption :=
  transportOptFunc (λ s t,
    if p_Disable (s_Proxy s) || match p_URL (s_Proxy s) with None => true | Some _ => false end
    then with_Proxy None t else t).
Definition WithModRoundtripper (w : RoundTripper → RoundTripper) : TransportOption := rtOptFunc w.
Definition WithAPMHTTPInstrumentation : TransportOption := WithModRoundtripper (Wrapped "apmhttp").
Definition HeaderRoundTripper (rt : RoundTripper) (headers : gmap string string) : RoundTripper :=
  headerRoundTripper headers rt.
Definition WithHeaderRoundTripper (headers : gmap string string) : TransportOption :=
  WithModRoundtripper (λ rt, HeaderRoundTripper rt headers).
Definition WithLogger (l : option nat) : TransportOption := extraOptionFunc (λ s, mkExtra l (http2 s)).

(** ** Making a transport *)
Abbreviation HE := (SE net http_error).

Section transport.
Context `{X509} `{NetEnv} `{UrlLib} `{MapOrder} `{Pki} (fips : bool) (d : tls_defaults).
(** [http2.ConfigureTransports]: whether it fails. *)
Context (http2_ConfigureTransports : HTransport → option string).

Definition on_tls {E A} (g : E → http_error) (c : SE tls_store E A) : HE A := λ st,
  match c (n_tls st) with
  | (ts, r) =>
      (mkNet (calls st) (socks st) ts (caches st) (events st),
       match r with Ok a => Ok a | Err e => Err (g e) | Panic p => Panic p | OutOfFuel => OutOfFuel end)
  end.

(** The settings read by ucfg: the TLS configuration, the timeout and the idle
    timeout, given the old values; and those of the proxy. *)
Definition Unpack (settings : HTTPTransportSettings)
    (unpack_tmp : Z → Z → (option TlsTypes.Config * Z * Z) + string)
    (unpack_proxy : (string * bool * gmap string string) + string) : HE HTTPTransportSettings :=
  match unpack_tmp (s_Timeout settings) (s_IdleConnTimeout settings) with
  | inr e => fail (Econfig e)
  | inl (tls, timeout, idle) =>
      proxy ← lift (HTTPClientProxySettings_Unpack unpack_proxy);
      on_tls Eload (LoadTLSConfig fips tls true) ≫= λ _,
      mret (mkSettings tls timeout proxy idle)
  end.

(** [http.DefaultTransport.Clone()] with the dialers and settings. *)
Definition httpRoundTripper (s : HTTPTransportSettings) (tls : option nat) (dl tlsDl : Dialer)
    (opts : list TransportOption) : HE HTransport :=
  cfg ← on_tls Everify (ToConfig d tls);
  let t := mkTransport dl tlsDl cfg false (ProxyFunc (s_Proxy s)) (ProxyHeaders_Headers (p_Headers (s_Proxy s)))
             0 0 false (90 * second) 100 0 in
  mret (foldl (λ t o, applyTransport o s t) t opts).

Definition http2RoundTripper (s : HTTPTransportSettings) (tls : option nat) (dl tlsDl : Dialer)
    (opts : list TransportOption) : HE RoundTripper :=
  t1 ← httpRoundTripper s tls dl tlsDl opts;
  match http2_ConfigureTransports t1 with
  | Some e => fail (Ehttp2 e)
  | None => mret (HTTP2 t1 true)
  end.

Definition applyExtra (x : extraSettings) (o : TransportOption) : extraSettings :=
  match o with extraOptionFunc fn => fn x | _ => x end.
Definition baseDialer (dl : option Dialer) (o : TransportOption) : option Dialer :=
  match o with baseDialerFunc fn => fn | _ => dl end.
Definition applyDialer (dl : Dialer) (o : TransportOption) : Dialer :=
  match o with dialerOptFunc fn => fn dl | _ => dl end.
Definition applyRoundTripper (rt : RoundTripper) (o : TransportOption) : RoundTripper :=
  match o with rtOptFunc fn => fn rt | _ => rt end.

(** The logger is never nil once the options were read. *)
Definition RoundTripper_of (s : HTTPTransportSettings) (opts : list TransportOption) : HE RoundTripper :=
  let extra := foldl applyExtra (mkExtra None false) opts in
  let dl := default (NetDialer (s_Timeout s)) (foldl baseDialer None opts) in
  tls ← on_tls Eload (LoadTLSConfig fips (s_TLS s) true);
  tlsDl ← map_err Edial (TLSDialer d dl tls (s_Timeout s));
  let dl := LoggingDialer (foldl applyDialer dl opts) in
  let tlsDl := LoggingDialer (foldl applyDialer tlsDl opts) in
  rt ← (if http2 extra then http2RoundTripper s tls dl tlsDl opts
        else t ← httpRoundTripper s tls dl tlsDl opts; mret (HTTP1 t));
  mret (foldl applyRoundTripper rt opts).

(** [http.Client]: its transport and timeout. *)
Record http_Client := mkHttpClient { hc_Transport : RoundTripper; hc_Timeout : Z }.

Definition Client_of (s : HTTPTransportSettings) (opts : list TransportOption) : HE http_Client :=
  rt ← RoundTripper_of s opts; mret (mkHttpClient rt (s_Timeout s)).
End transport.

(** ** Sending through the round trippers: what reaches the transport *)
Section headers.
Context `{MapOrder}.

Definition add_header (h : Header) (kv : string * string) : Header :=
  if (strlen (Header_Get h (fst kv)) =? 0) then Header_Set h (fst kv) (snd kv) else h.

Fixpoint header_RoundTrip (rt : RoundTripper) (req : Request) : Request :=
  match rt with
  | headerRoundTripper headers rt' =>
      header_RoundTrip rt' (mkRequest (r_Method req) (r_URL req)
        (foldl add_header (r_Header req) (map_order headers)) (r_Body req))
  | Wrapped _ rt' => header_RoundTrip rt' req
  | HTTP1 _ | HTTP2 _ _ => req
  end.
End headers.

(** ** Reading of bodies *)
Definition StatusNoContent : Z := 204.

(** [make([]byte, n)]: the runtime panics above the size it can allocate. *)
Definition make_bytes (max_alloc n : Z) : res http_error unit :=
  if max_alloc <? n then Panic (PExplicit "makeslice: len out of range") else Ok tt.

(** [io.ReadFull(body, buf)] with [len(buf) = n] *)
Definition ReadFull (b : Body) (n : Z) : string + string :=
  if n <=? strlen (b_data b) then inl (stake (Z.to_nat n) (b_data b))
  else inr (match b_err b with
            | Some e => e
            | None => if strlen (b_data b) =? 0 then "EOF" else "unexpected EOF"
            end).

(** [io.Copy] from [io.LimitReader(body, limit)]: the error of the body is not
    met once the limit is reached. *)
Definition copy_limited (b : Body) (limit : Z) : string + string :=
  if limit <=? strlen (b_data b) then inl (stake (Z.to_nat limit) (b_data b)) else io_ReadAll b.

Definition ReadAllWithLimit (max_alloc : Z) (resp : option Response) (limit : Z) : res http_error string :=
  match resp with
  | None => Err EnilResponse
  | Some resp =>
      if (ContentLength resp =? 0) || (limit =? 0) || (StatusCode resp =? StatusNoContent) then Ok ""
      else if (0 <? limit) && (limit <? ContentLength resp) then Err (ErrResponseLimit (ContentLength resp) limit)
      else if 0 <=? ContentLength resp then
        make_bytes max_alloc (ContentLength resp) ≫= λ _,
        match ReadFull (Resp_Body resp) (ContentLength resp) with
        | inr e => Err (EreadKnown (ContentLength resp) e)
        | inl body => Ok body
        end
      else
        match (if 0 <? limit then copy_limited (Resp_Body resp) limit else io_ReadAll (Resp_Body resp)) with
        | inr e => Err (EreadUnknown e)
        | inl body => Ok body
        end
  end.

Definition ReadAll (max_alloc : Z) (resp : option Response) : res http_error string :=
  ReadAllWithLimit max_alloc resp (-1).

(** ** Package [httpcommon]: diagnostics of requests (src/transport/httpcommon/diag.go)

    [diagError] looks for known causes in an error and everything it wraps, and
    [DiagRequests] sends requests one after the other and says how each ended.
    An error is a tree: its kind, its text and the errors it wraps, in the order
    [errors.Is] and [errors.As] look at them.  The lines the callbacks of
    [httptrace] add in between are not modelled. *)
Module HttpDiag.
Open Scope string_scope.
Open Scope list_scope.
Open Scope Z_scope.

(** The kinds of errors the diagnosis tells apart. *)
Inductive ekind :=
| ErrUnsupportedAlgorithm | OpError | UnknownAuthorityError | CertificateInvalidError
| CertificateVerificationError | UrlError | OtherError.

#[global] Instance ekind_eq_dec : EqDecision ekind.
Proof. solve_decision. Defined.

Inductive gerr := GErr (k : ekind) (text : string) (wraps : list gerr).

Definition e_kind (e : gerr) : ekind := let 'GErr k _ _ := e in k.
Definition e_text (e : gerr) : string := let 'GErr _ t _ := e in t.
Definition e_wraps (e : gerr) : list gerr := let 'GErr _ _ l := e in l.

(** [errors.As]: the first error of the kind, depth first. *)
Fixpoint find_as (k : ekind) (e : gerr) : option gerr :=
  match e with
  | GErr k' _ l =>
      if bool_decide (k' = k) then Some e
      else (fix go (l : list gerr) := match l with [] => None | x :: l => match find_as k x with Some y => Some y | None => go l end end) l
  end.

(** [x.Err.Error()]: the error an [OpError] or [url.Error] holds; nil panics. *)
Definition inner_text (x : gerr) : res unit string :=
  match e_wraps x with e :: _ => Ok (e_text e) | [] => Panic PNilPointer end.

Definition reset_by_peer : string := "read: connection reset by peer".

Definition url_hint (errString : string) : option string :=
  if Contains errString "http: server gave HTTP response to HTTPS client" then Some ": caused by using HTTPS schema on HTTP server."
  else if Contains errString "remote error: tls: certificate required" then Some ":  caused by missing mTLS client cert."
  else if Contains errString "remote error: tls: expired certificate" then Some ": caused by expired mTLS client cert."
  else if Contains errString "remote error: tls: bad certificate"
  then Some ": caused by invalid mTLS client cert, does the server trust the CA used for the client cert?."
  else None.

(** The part of [diagError] from the look at certificates on. *)
Definition diag_certificates (err : gerr) : res unit string :=
  match find_as UnknownAuthorityError err with
  | Some _ => Ok (e_text err +:+ ": caused by no trusted client CA.")
  | None =>
  match find_as CertificateInvalidError err with
  | Some x => Ok (e_text x +:+ ": caused by invalid server certificate.")
  | None =>
  match find_as CertificateVerificationError err with
  | Some x => Ok (e_text x +:+ ": possible cause: client TLS settings incorrect.")
  | None =>
  match find_as UrlError err with
  | Some uErr =>
      errString ← inner_text uErr;
      match url_hint errString with Some hint => Ok (e_text uErr +:+ hint) | None => Ok (e_text err) end
  | None => Ok (e_text err)
  end end end end.

Definition diagError (err : gerr) : res unit string :=
  match find_as ErrUnsupportedAlgorithm err with
  | Some _ => Ok (e_text err +:+ ": caused by client does not support server's signature algorithm.")
  | None =>
      match find_as OpError err with
      | Some netErr =>
          t ← inner_text netErr;
          if String.eqb t reset_by_peer then Ok (e_text netErr +:+ ": possible cause: HTTP schema used for HTTPS server.")
          else diag_certificates err
      | None => diag_certificates err
      end
  end.

(** ** Requests *)
Record response := mkResp { StatusCode : Z; body : string + string }.   (** the body or the error of reading it *)

Definition StatusBadRequest : Z := 400.

Definition isGoHTTPResp (r : response) : bool :=
  if negb (StatusCode r =? StatusBadRequest) then false
  else
    match body r with
    | inr _ => false
    | inl p => String.eqb p ("Client sent an HTTP request to an HTTPS server." +:+ String "010" "")
    end.

(** What is printed about a request, and the bodies closed. *)
Inductive rline :=
| Rstarting (i : nat) (url : string)
| Rerror (i : nat) (text : string)
| Rhttp_to_https (i : nat)
| Rsuccess (i : nat) (status : Z).

Inductive dline := Dnil_settings | Dno_requests | Dno_roundtripper (e : string) | Dtls (set : bool) | Dproxy | Dreq (l : rline).

Section requests.
(** The round tripper: what it answers to the i-th request. *)
Context (RoundTrip : nat → string → response + gerr).

Definition diag_request (i : nat) (url : string) : res unit (list rline * nat) :=
  match RoundTrip i url with
  | inr err => t ← diagError err; Ok ([Rstarting i url; Rerror i t], 0%nat)
  | inl resp =>
      if isGoHTTPResp resp then Ok ([Rstarting i url; Rhttp_to_https i], 1%nat)
      else Ok ([Rstarting i url; Rsuccess i (StatusCode resp)], 1%nat)
  end.

(** The lines and the number of bodies closed. *)
Fixpoint diag_each (i : nat) (reqs : list string) : res unit (list rline * nat) :=
  match reqs with
  | [] => Ok ([], 0%nat)
  | url :: reqs =>
      '(l, n) ← diag_request i url;
      '(ls, m) ← diag_each (S i) reqs;
      Ok (l ++ ls, (n + m)%nat)
  end.

(** [settings] tells whether TLS settings are present, [None] for nil settings;
    [made] is the error of making the round tripper. *)
Definition DiagRequests (settings : option bool) (made : option string) (reqs : list string) : res unit (list dline) :=
  match settings with
  | None => Ok [Dnil_settings]
  | Some tls =>
      match reqs with
      | [] => Ok [Dno_requests]
      | _ =>
          match made with
          | Some e => Ok [Dno_roundtripper e]
          | None => '(ls, _) ← diag_each 0 reqs; Ok (Dtls tls :: Dproxy :: (Dreq <$> ls))
          end
      end
  end.
End requests.

(** ** Facts *)

(** The errors of a tree. *)
Inductive within : gerr → gerr → Prop :=
| within_self e : within e e
| within_wraps x e k t l : e ∈ l → within x e → within x (GErr k t l).

Section gerr_ind.
Context (P : gerr → Prop) (Hstep : ∀ k t l, Forall P l → P (GErr k t l)).
Fixpoint gerr_ind' (e : gerr) : P e :=
  match e with
  | GErr k t l =>
      Hstep k t l ((fix go (l : list gerr) : Forall P l :=
        match l with [] => Forall_nil_2 P | x :: l => Forall_cons_2 P x l (gerr_ind' x) (go l) end) l)
  end.
End gerr_ind.

(** [find_as] finds an error of the kind when there is one. *)
Lemma find_as_spec k e :
  match find_as k e with
  | Some x => within x e ∧ e_kind x = k
  | None => ∀ x, within x e → e_kind x ≠ k
  end.
Proof.
  induction e as [k' t l IH] using gerr_ind'. simpl. case_bool_decide as Hk.
  { split; [apply within_self|exact Hk]. }
  set (go := fix go (l : list gerr) := match l with [] => None | x :: l => match find_as k x with Some y => Some y | None => go l end end).
  assert (Hgo : match go l with
    | Some x => ∃ e, e ∈ l ∧ within x e ∧ e_kind x = k
    | None => ∀ x e, e ∈ l → within x e → e_kind x ≠ k
    end).
  { induction IH as [|x l Hx _ IHl]; simpl; [by intros x e ?%not_elem_of_nil|].
    destruct (find_as k x) as [y|]; [exists x; split; [by left|done]|].
    destruct (go l) as [y|].
    - destruct IHl as (e & He & ?). exists e. split; [by right|done].
    - intros y e [->|He]%elem_of_cons; [by apply Hx|by apply (IHl y e)]. }
  destruct (go l) as [x|].
  - destruct Hgo as (e & He & Hw & Hkx). split; [|done]. by eapply within_wraps.
  - intros x Hw. inversion Hw as [|? e ? ? ? He Hwe]; subst; [done|]. by eapply Hgo.
Qed.

(** Network and URL errors hold an error. *)
Definition well_formed (e : gerr) : Prop :=
  ∀ x, within x e → e_kind x = OpError ∨ e_kind x = UrlError → e_wraps x ≠ [].

(** What a hint says, and of which errors it may be said. *)
Inductive explains (e : gerr) : gerr → string → Prop :=
| ex_plain : explains e e ""
| ex_algorithm x : within x e → e_kind x = ErrUnsupportedAlgorithm →
    explains e e ": caused by client does not support server's signature algorithm."
| ex_reset x y l : within x e → e_kind x = OpError → e_wraps x = y :: l → e_text y = reset_by_peer →
    explains e x ": possible cause: HTTP schema used for HTTPS server."
| ex_authority x : within x e → e_kind x = UnknownAuthorityError → explains e e ": caused by no trusted client CA."
| ex_invalid x : within x e → e_kind x = CertificateInvalidError → explains e x ": caused by invalid server certificate."
| ex_verification x : within x e → e_kind x = CertificateVerificationError →
    explains e x ": possible cause: client TLS settings incorrect."
| ex_url x y l hint : within x e → e_kind x = UrlError → e_wraps x = y :: l → url_hint (e_text y) = Some hint →
    explains e x hint.

Lemma diag_certificates_explains e : well_formed e →
  ∃ x hint, explains e x hint ∧ diag_certificates e = Ok (e_text x +:+ hint).
Proof.
  intros Hwf. assert (Hplain : ∃ x hint, explains e x hint ∧ Ok (E := unit) (e_text e) = Ok (e_text x +:+ hint)).
  { exists e, "". split; [constructor|]. by rewrite sapp_nil_r. }
  unfold diag_certificates. pose proof (find_as_spec UnknownAuthorityError e) as H1.
  destruct (find_as UnknownAuthorityError e) as [x|]; [destruct H1; eauto using explains|].
  pose proof (find_as_spec CertificateInvalidError e) as H2.
  destruct (find_as CertificateInvalidError e) as [x|]; [destruct H2; eauto using explains|].
  pose proof (find_as_spec CertificateVerificationError e) as H3.
  destruct (find_as CertificateVerificationError e) as [x|]; [destruct H3; eauto using explains|].
  pose proof (find_as_spec UrlError e) as H4. destruct (find_as UrlError e) as [x|]; [|done].
  destruct H4 as [Hw Hk]. specialize (Hwf x Hw (or_intror Hk)). unfold inner_text.
  destruct (e_wraps x) as [|y l] eqn:Hl; [done|]. simpl. destruct (url_hint (e_text y)) as [hint|] eqn:Hh; [|done].
  exists x, hint. split; [by eapply ex_url|done].
Qed.

(** Every answer is the text of an error of the tree followed by a hint that is
    justified by an error of the tree. *)
Theorem diagError_explains (e : gerr) : well_formed e →
  ∃ x hint, explains e x hint ∧ diagError e = Ok (e_text x +:+ hint).
Proof.
  intros Hwf. unfold diagError. pose proof (find_as_spec ErrUnsupportedAlgorithm e) as H1.
  destruct (find_as ErrUnsupportedAlgorithm e) as [x|]; [destruct H1; eauto using explains|].
  pose proof (find_as_spec OpError e) as H2. destruct (find_as OpError e) as [x|]; [|by apply diag_certificates_explains].
  destruct H2 as [Hw Hk]. pose proof (Hwf x Hw (or_introl Hk)) as Hne. unfold inner_text.
  destruct (e_wraps x) as [|y l] eqn:Hl; [done|]. simpl.
  destruct (String.eqb_spec (e_text y) reset_by_peer); [|by apply diag_certificates_explains].
  eexists x, _. split; [by eapply ex_reset|done].
Qed.

(** What a verdict says of a request. *)
Definition verdict_of (answer : response + gerr) (i : nat) (v : rline) : Prop :=
  match v with
  | Rstarting _ _ => False
  | Rerror k t => k = i ∧ ∃ e, answer = inr e ∧ diagError e = Ok t
  | Rhttp_to_https k => k = i ∧ ∃ r, answer = inl r ∧ isGoHTTPResp r = true
  | Rsuccess k status => k = i ∧ ∃ r, answer = inl r ∧ isGoHTTPResp r = false ∧ StatusCode r = status
  end.

Lemma diag_request_run RoundTrip i url : (∀ e, RoundTrip i url = inr e → well_formed e) →
  ∃ v n, diag_request RoundTrip i url = Ok ([Rstarting i url; v], n) ∧ verdict_of (RoundTrip i url) i v ∧
    n = (if RoundTrip i url is inl _ then 1 else 0)%nat.
Proof.
  intros Hwf. unfold diag_request. destruct (RoundTrip i url) as [r|e] eqn:Hr.
  - destruct (isGoHTTPResp r) eqn:Hg; eexists _, _; (split; [reflexivity|]); simpl; eauto 10.
  - destruct (diagError_explains e (Hwf e eq_refl)) as (x & hint & _ & Hd). rewrite Hd. eexists _, _.
    split; [reflexivity|]. simpl. eauto.
Qed.

(** The diagnosis of a list of requests ends, reports each of them once and in order
    with what became of it, and closes the body of every response. *)
Theorem diag_each_reports RoundTrip reqs : ∀ i,
  (∀ j url e, RoundTrip j url = inr e → well_formed e) →
  ∃ ls n, diag_each RoundTrip i reqs = Ok (ls, n) ∧ length ls = (2 * length reqs)%nat ∧
    n = sum_list (imap (λ j url, if RoundTrip (i + j)%nat url is inl _ then 1 else 0)%nat reqs) ∧
    ∀ j url, reqs !! j = Some url → ls !! (2 * j)%nat = Some (Rstarting (i + j) url) ∧
      ∃ v, ls !! (2 * j + 1)%nat = Some v ∧ verdict_of (RoundTrip (i + j)%nat url) (i + j) v.
Proof.
  induction reqs as [|url reqs IH]; intros i Hwf; [by exists [], 0%nat|].
  destruct (diag_request_run RoundTrip i url) as (v & n & Hr & Hv & Hn); [eauto|].
  destruct (IH (S i) Hwf) as (ls & m & Hls & Hlen & Hm & Hl).
  exists (Rstarting i url :: v :: ls), (n + m)%nat. cbn [diag_each]. rewrite Hr. cbn [mbind res_bind]. rewrite Hls. conjs; [done|simpl; lia| |].
  - rewrite Hn, Hm. simpl. rewrite Nat.add_0_r. f_equal. f_equal. apply imap_ext. intros j x _. simpl. by rewrite Nat.add_succ_r.
  - intros [|j] u Hj; simpl in Hj.
    + injection Hj as <-. replace (i + 0)%nat with i by lia. simpl. split; [done|]. by exists v.
    + destruct (Hl j u Hj) as (H1 & v' & H2 & H3).
      replace (i + S j)%nat with (S i + j)%nat by lia.
      replace (2 * S j)%nat with (S (S (2 * j))) by lia. split; [exact H1|]. exists v'.
      split; [exact H2|exact H3].
Qed.

(** A request that is answered, one that meets a server without TLS, one refused
    for an unknown authority. *)
Definition sample_answers (i : nat) (url : string) : response + gerr :=
  match i with
  | 0%nat => inl (mkResp 200 (inl "ok"))
  | 1%nat => inl (mkResp 400 (inl ("Client sent an HTTP request to an HTTPS server." +:+ String "010" "")))
  | _ => inr (GErr UrlError "Get: x509" [GErr CertificateVerificationError "x509" [GErr UnknownAuthorityError "unknown" []]])
  end.

Example diag_each_sample :
  diag_each sample_answers 0 ["a"; "b"; "c"] =
  Ok ([Rstarting 0 "a"; Rsuccess 0 200; Rstarting 1 "b"; Rhttp_to_https 1;
       Rstarting 2 "c"; Rerror 2 "Get: x509: caused by no trusted client CA."], 2%nat).
Proof. vm_compute. reflexivity. Qed.

End HttpDiag.
