(* ===== verification/HttpCommonFacts.v ===== *)
(** * Package [httpcommon]: bodies, headers, proxies and verified connections *)
From S2P Require Import Prelude GoStrings GoUtf8 GoBase64 GoNet TlsNames TlsTypes TlsVerify TlsFacts TlsLoad TlsLoadFacts.
From S2P Require Import Transport TransportTls HttpCommon.

Open Scope string_scope.
Open Scope list_scope.
Open Scope Z_scope.

(** ** Bodies *)
Definition prefix_of_body (b : string) (resp : Response) : Prop := ∃ rest, b_data (Resp_Body resp) = b +:+ rest.

Lemma stake_prefix n s : ∃ rest, s = stake n s +:+ rest.
Proof. exists (sdrop n s). symmetry. apply stake_sdrop. Qed.

Lemma strlen_stake n s : 0 ≤ n ≤ strlen s → strlen (stake (Z.to_nat n) s) = n.
Proof. intros Hn. unfold strlen in *. rewrite length_stake. lia. Qed.

Lemma ReadFull_spec b n s : 0 ≤ n → ReadFull b n = inl s → strlen s = n ∧ ∃ rest, b_data b = s +:+ rest.
Proof.
  intros Hn. unfold ReadFull. destruct (Z.leb_spec n (strlen (b_data b))); [|done].
  intros [= <-]. split; [by apply strlen_stake|apply stake_prefix].
Qed.

Lemma copy_limited_spec b n s : 0 < n → copy_limited b n = inl s → strlen s ≤ n ∧ ∃ rest, b_data b = s +:+ rest.
Proof.
  intros Hn. unfold copy_limited, io_ReadAll. destruct (Z.leb_spec n (strlen (b_data b))).
  - intros [= <-]. split; [rewrite strlen_stake; lia|apply stake_prefix].
  - destruct (b_err b); [done|]. intros [= <-]. split; [lia|]. exists "". by rewrite sapp_nil_r.
Qed.

(** A body that ends without error and is as long as announced. *)
Definition honest (resp : Response) : Prop :=
  b_err (Resp_Body resp) = None ∧ StatusCode resp ≠ StatusNoContent ∧
  (ContentLength resp = -1 ∨ ContentLength resp = strlen (b_data (Resp_Body resp))).

(** The branches of the switch. *)
Lemma ReadAllWithLimit_cases max_alloc resp limit :
  let out := ReadAllWithLimit max_alloc (Some resp) limit in
  let cl := ContentLength resp in
  (out = Ok "" ∧ (cl = 0 ∨ limit = 0 ∨ StatusCode resp = StatusNoContent)) ∨
  (cl ≠ 0 ∧ limit ≠ 0 ∧ StatusCode resp ≠ StatusNoContent ∧
    (out = Err (ErrResponseLimit cl limit) ∧ 0 < limit < cl ∨
     (limit < 0 ∨ cl ≤ limit) ∧
     (0 < cl ∧ out = (make_bytes max_alloc cl ≫= λ _,
        match ReadFull (Resp_Body resp) cl with inr e => Err (EreadKnown cl e) | inl b => Ok b end) ∨
      cl < 0 ∧ out = match (if 0 <? limit then copy_limited (Resp_Body resp) limit else io_ReadAll (Resp_Body resp)) with
                     | inr e => Err (EreadUnknown e) | inl b => Ok b end))).
Proof.
  cbv zeta. unfold ReadAllWithLimit.
  destruct (Z.eqb_spec (ContentLength resp) 0); simpl; [left; auto|].
  destruct (Z.eqb_spec limit 0); simpl; [left; auto|].
  destruct (Z.eqb_spec (StatusCode resp) StatusNoContent); simpl; [left; auto|].
  right. conjs; try done.
  destruct (Z.ltb_spec 0 limit), (Z.ltb_spec limit (ContentLength resp)), (Z.leb_spec 0 (ContentLength resp)); simpl;
    first [left; split; [done|lia] | right; split; [lia|first [left; split; [lia|done] | right; split; [lia|done]]]].
Qed.

Lemma ReadAll_limited max_alloc resp limit b : 0 < limit →
  ReadAllWithLimit max_alloc (Some resp) limit = Ok b → strlen b ≤ limit ∧ prefix_of_body b resp.
Proof.
  intros Hl Hout. destruct (ReadAllWithLimit_cases max_alloc resp limit) as
    [[Heq _]|(_ & _ & _ & [[Heq _]|[Hle [[Hc Heq]|[Hc Heq]]]])]; rewrite Heq in Hout; simplify_eq/=.
  - split; [unfold strlen; simpl; lia|]. eexists. reflexivity.
  - apply res_bind_Ok in Hout as ([] & _ & Hout).
    destruct (ReadFull _ _) as [s|] eqn:Hr; simplify_eq. apply ReadFull_spec in Hr as [Hs Hp]; [|lia].
    split; [lia|done].
  - destruct (Z.ltb_spec 0 limit); [|lia]. destruct (copy_limited _ _) as [s|] eqn:Hr; simplify_eq.
    by apply copy_limited_spec in Hr.
Qed.

Lemma ReadAll_limited_defined max_alloc resp limit : 0 < limit ≤ max_alloc →
  defined (ReadAllWithLimit max_alloc (Some resp) limit).
Proof.
  intros Hl. destruct (ReadAllWithLimit_cases max_alloc resp limit) as
    [[-> _]|(_ & _ & _ & [[-> _]|[Hle [[Hc ->]|[Hc ->]]]])]; try done.
  - unfold make_bytes. destruct (Z.ltb_spec max_alloc (ContentLength resp)); [lia|]. simpl. by destruct (ReadFull _ _).
  - by case_match.
Qed.

Lemma ReadAll_honest max_alloc resp limit :
  honest resp → strlen (b_data (Resp_Body resp)) ≤ max_alloc → limit ≠ 0 →
  ReadAllWithLimit max_alloc (Some resp) limit =
    if (limit <? 0) || (strlen (b_data (Resp_Body resp)) <=? limit) then Ok (b_data (Resp_Body resp))
    else if ContentLength resp =? -1 then Ok (stake (Z.to_nat limit) (b_data (Resp_Body resp)))
    else Err (ErrResponseLimit (ContentLength resp) limit).
Proof.
  intros (Herr & Hst & Hcl) Hmax Hl. pose proof (strlen_nonneg (b_data (Resp_Body resp))) as Hpos.
  destruct (ReadAllWithLimit_cases max_alloc resp limit) as
    [[-> Hz]|(Hc0 & _ & _ & [[-> Hlt]|[Hle [[Hc ->]|[Hc ->]]]])].
  - assert (Hlen : strlen (b_data (Resp_Body resp)) = 0) by lia.
    assert (b_data (Resp_Body resp) = "") as ->.
    { destruct (b_data (Resp_Body resp)); [done|]. unfold strlen in Hlen. simpl in Hlen. lia. }
    change (strlen "") with 0. destruct (Z.ltb_spec limit 0); [done|]. by destruct (Z.leb_spec 0 limit); [|lia].
  - destruct (Z.ltb_spec limit 0); [lia|]. destruct (Z.leb_spec (strlen (b_data (Resp_Body resp))) limit); [lia|]. simpl.
    destruct (Z.eqb_spec (ContentLength resp) (-1)); [lia|done].
  - assert (Hlen : ContentLength resp = strlen (b_data (Resp_Body resp))) by lia. rewrite Hlen in *.
    unfold make_bytes, ReadFull. destruct (Z.ltb_spec max_alloc (strlen (b_data (Resp_Body resp)))); [lia|].
    cbn [mbind res_bind]. rewrite Z.leb_refl, stake_all by (unfold strlen; lia).
    destruct (Z.ltb_spec limit 0); [done|]. by destruct (Z.leb_spec (strlen (b_data (Resp_Body resp))) limit); [|lia].
  - assert (Hm : ContentLength resp = -1) by lia. rewrite Hm. unfold copy_limited, io_ReadAll. rewrite Herr.
    destruct (Z.ltb_spec 0 limit), (Z.ltb_spec limit 0); try lia; [|done]. simpl.
    destruct (Z.leb_spec limit (strlen (b_data (Resp_Body resp)))),
      (Z.leb_spec (strlen (b_data (Resp_Body resp))) limit); try done; try lia.
    rewrite stake_all; [done|]. unfold strlen in *. lia.
Qed.

(** C29: Reading with a positive limit never panics and never returns more than
    the limit, whatever length the server announces and whatever it sends; what
    is returned is a prefix of the body.  A longer announced length is an error.
    From a server that announces the right length or none, the whole body is
    returned when it fits the limit (or when there is none); a longer body of
    unknown length is cut at the limit, silently. *)
Theorem ReadAllWithLimit_spec max_alloc resp limit :
  limit ≤ max_alloc →
  (0 < limit →
    defined (ReadAllWithLimit max_alloc (Some resp) limit) ∧
    (∀ b, ReadAllWithLimit max_alloc (Some resp) limit = Ok b → strlen b ≤ limit ∧ prefix_of_body b resp) ∧
    (limit < ContentLength resp → StatusCode resp ≠ StatusNoContent →
      ReadAllWithLimit max_alloc (Some resp) limit = Err (ErrResponseLimit (ContentLength resp) limit))) ∧
  (honest resp → strlen (b_data (Resp_Body resp)) ≤ max_alloc → limit ≠ 0 →
    ReadAllWithLimit max_alloc (Some resp) limit =
      if (limit <? 0) || (strlen (b_data (Resp_Body resp)) <=? limit) then Ok (b_data (Resp_Body resp))
      else if ContentLength resp =? -1 then Ok (stake (Z.to_nat limit) (b_data (Resp_Body resp)))
      else Err (ErrResponseLimit (ContentLength resp) limit)).
Proof.
  intros Hmax. split; [|apply ReadAll_honest]. intros Hl. split; [by apply ReadAll_limited_defined|]. split.
  - intros b. by apply ReadAll_limited.
  - intros Hlt Hst. destruct (ReadAllWithLimit_cases max_alloc resp limit) as
      [[_ ?]|(_ & _ & _ & [[-> _]|[? _]])]; [lia|done|lia].
Qed.

(** A server that announces more than it sends, and one that announces less
    than the limit but sends more. *)
Definition short_response : Response := mkResponse 200 "200 OK" 5 (mkBody "abc" None).
Definition long_response : Response := mkResponse 200 "200 OK" (-1) (mkBody "abcdefgh" None).

Lemma ReadAllWithLimit_spec_witness :
  (0 < 4 →
    defined (ReadAllWithLimit 1000 (Some long_response) 4) ∧
    (∀ b, ReadAllWithLimit 1000 (Some long_response) 4 = Ok b → strlen b ≤ 4 ∧ prefix_of_body b long_response) ∧
    (4 < -1 → 200 ≠ StatusNoContent → ReadAllWithLimit 1000 (Some long_response) 4 = Err (ErrResponseLimit (-1) 4))) ∧
  ReadAllWithLimit 1000 (Some long_response) 4 = Ok "abcd".
Proof.
  destruct (ReadAllWithLimit_spec 1000 long_response 4) as [Hlim Hhon]; [lia|]. split; [exact Hlim|].
  apply Hhon; [|vm_compute; discriminate|lia]. split; [reflexivity|]. split; [discriminate|by left].
Defined.

Example ReadAllWithLimit_runs :
  ReadAllWithLimit 1000 (Some short_response) 4 = Err (ErrResponseLimit 5 4) ∧
  ReadAllWithLimit 1000 (Some short_response) 10 = Err (EreadKnown 5 "unexpected EOF") ∧
  ReadAll 1000 (Some long_response) = Ok "abcdefgh" ∧
  ReadAll 1000 (Some (mkResponse 200 "200 OK" 4611686018427387904 (mkBody "" None))) =
    Panic (PExplicit "makeslice: len out of range").
Proof. vm_compute. done. Qed.

(** ** Headers *)
Section headers.
Context `{MapOrder}.
Implicit Types (h : Header) (k v : string) (l : list (string * string)).

Lemma add_header_Get h kv k : CanonicalHeaderKey k ≠ CanonicalHeaderKey (fst kv) →
  Header_Get (add_header h kv) k = Header_Get h k.
Proof.
  intros Hne. unfold add_header. destruct (_ =? 0); [|done].
  unfold Header_Get. by rewrite Header_values_Set_ne.
Qed.

Lemma strlen_zero s : (strlen s =? 0) = String.eqb s "".
Proof. by destruct s. Qed.

Lemma add_header_Get_eq h kv k : CanonicalHeaderKey k = CanonicalHeaderKey (fst kv) →
  Header_Get (add_header h kv) k = if String.eqb (Header_Get h k) "" then snd kv else Header_Get h k.
Proof.
  intros He. assert (Hg : Header_Get h (fst kv) = Header_Get h k) by (unfold Header_Get, Header_values; by rewrite He).
  unfold add_header. rewrite strlen_zero, Hg. destruct (String.eqb _ ""); [|done].
  unfold Header_Get. by rewrite Header_values_Set.
Qed.

Lemma add_headers_absent l h k : (∀ k' v, (k', v) ∈ l → CanonicalHeaderKey k' ≠ CanonicalHeaderKey k) →
  Header_Get (foldl add_header h l) k = Header_Get h k.
Proof.
  revert h. induction l as [|[k' v] l IH]; intros h Hl; [done|]. simpl. rewrite IH by set_solver.
  apply add_header_Get. simpl. intros He. by destruct (Hl k' v); [left|].
Qed.

Lemma add_headers_Get l h k k' v : NoDup (map CanonicalHeaderKey l.*1) → (k', v) ∈ l →
  CanonicalHeaderKey k' = CanonicalHeaderKey k →
  Header_Get (foldl add_header h l) k = if String.eqb (Header_Get h k) "" then v else Header_Get h k.
Proof.
  revert h. induction l as [|[k1 v1] l IH]; intros h Hnd Hin He; [by apply not_elem_of_nil in Hin|].
  simpl in Hnd. apply NoDup_cons in Hnd as [Hnot Hnd]. simpl.
  assert (Hother : ∀ k2 v2, (k2, v2) ∈ l → CanonicalHeaderKey k2 ≠ CanonicalHeaderKey k1).
  { intros k2 v2 H2 Heq. apply Hnot. rewrite <- Heq. apply list_elem_of_fmap. exists k2. split; [done|].
    apply list_elem_of_fmap. by exists (k2, v2). }
  apply elem_of_cons in Hin as [[= -> ->]|Hin].
  - rewrite add_headers_absent by (intros k2 v2 H2; rewrite <- He; by eapply Hother).
    by apply add_header_Get_eq.
  - rewrite (IH _ Hnd Hin He), add_header_Get; [done|]. simpl. rewrite <- He. by eapply Hother.
Qed.

(** The header round tripper gives a request each of its headers exactly when
    the request has no value for it, under any spelling of the key; headers the
    request has, and all others, reach the transport as they were. *)
Theorem header_RoundTrip_defaults headers t req k :
  NoDup (map CanonicalHeaderKey (map_order headers).*1) →
  Header_Get (r_Header (header_RoundTrip (HeaderRoundTripper (HTTP1 t) headers) req)) k =
    if String.eqb (Header_Get (r_Header req) k) "" then
      match list_find (λ kv, CanonicalHeaderKey (fst kv) = CanonicalHeaderKey k) (map_order headers) with
      | Some (_, (_, v)) => v
      | None => ""
      end
    else Header_Get (r_Header req) k.
Proof.
  intros Hnd. simpl.
  destruct (list_find _ _) as [[i [k' v]]|] eqn:Hf.
  - apply list_find_Some in Hf as (Hi & He & _). simpl in He.
    by apply (add_headers_Get _ _ _ k' v); [|by eapply list_elem_of_lookup_2|].
  - rewrite add_headers_absent.
    + destruct (String.eqb_spec (Header_Get (r_Header req) k) "") as [->|]; done.
    + intros k' v Hin. apply list_find_None in Hf. rewrite Forall_forall in Hf. by apply (Hf (k', v)).
Qed.
End headers.

(** ** Proxies
    The options of the package, other than those that run a function of the
    caller on the transport. *)
Inductive known :=
| KBaseDialer (dl : option Dialer) | KIOStats (s : option nat) | KHTTP2Only (b : bool) | KForceHTTP2 (b : bool)
| KNOProxy | KNoEnvironment | KHeaders (h : gmap string string) | KAPM | KLogger (l : option nat)
| KKeepalive (disable : bool) (conns perHost idle : Z).

Definition option_of (o : known) : TransportOption :=
  match o with
  | KBaseDialer dl => WithBaseDialer dl
  | KIOStats s => WithIOStats s
  | KHTTP2Only b => WithHTTP2Only b
  | KForceHTTP2 b => WithForceAttemptHTTP2 b
  | KNOProxy => WithNOProxy
  | KNoEnvironment => WithoutProxyEnvironmentVariables
  | KHeaders h => WithHeaderRoundTripper h
  | KAPM => WithAPMHTTPInstrumentation
  | KLogger l => WithLogger l
  | KKeepalive disable conns perHost idle => WithKeepaliveSettings disable conns perHost idle
  end.

(** The proxy that results, as documented. *)
Definition proxy_of (s : HTTPClientProxySettings) (opts : list known) : option proxy_func :=
  if p_Disable s || existsb (λ o, match o with KNOProxy => true | _ => false end) opts then None
  else
    match p_URL s with
    | Some u => Some (ProxyFixed u)
    | None =>
        if existsb (λ o, match o with KNoEnvironment => true | _ => false end) opts then None
        else Some ProxyFromEnvironment
    end.

Lemma transport_Proxy s opts t :
  t_Proxy (foldl (λ t o, applyTransport o s t) t (map option_of opts)) =
    if existsb (λ o, match o with KNOProxy => true | _ => false end) opts then None
    else if (p_Disable (s_Proxy s) || match p_URL (s_Proxy s) with None => true | Some _ => false end) &&
            existsb (λ o, match o with KNoEnvironment => true | _ => false end) opts then None
    else t_Proxy t.
Proof.
  revert t. induction opts as [|o opts IH]; intros t; [by rewrite andb_false_r|].
  cbn [map foldl]. rewrite IH. clear IH.
  set (ex := existsb _ opts). set (ex' := existsb _ opts).
  destruct o; simpl; fold ex ex'; try done.
  - destruct ex; [done|]. by destruct (_ && ex').
  - destruct ex; [done|]. rewrite andb_true_r. destruct (p_Disable _ || _) eqn:Hc; simpl; [|done]. by destruct ex'.
Qed.

Section transports.
Context `{X509} `{NetEnv} `{UrlLib} `{MapOrder} `{Pki} (fips : bool) (d : tls_defaults).
Context (h2 : HTransport → option string).

Lemma ToConfig_run tls ts :
  (∀ p, tls = Some p → ∃ cfg, configs ts !! p = Some cfg ∧ Logger cfg = true) →
  ∃ t, ToConfig d tls ts = (ts, Ok t).
Proof.
  intros Htls. destruct tls as [p|]; [|by eexists]. destruct (Htls p eq_refl) as (cfg & Hp & Hl).
  unfold ToConfig, mbind, SE_bind. rewrite (config_deref_run _ _ _ Hp). destruct (extractMinMaxVersion _ _) as [mn mx].
  rewrite Hl. assert (Hmk : ∃ f, makeVerifyConnection p true ts = (ts, Ok f)).
  { unfold makeVerifyConnection, mbind, SE_bind. rewrite (config_deref_run _ _ _ Hp).
    repeat (case_match; try by eexists). }
  destruct Hmk as [f Hmk]. destruct (Verification cfg =? VerifyNone); cbn; rewrite Hmk; by eexists.
Qed.

Lemma httpRoundTripper_run s tls dl tlsDl opts st :
  (∀ p, tls = Some p → ∃ cfg, configs (n_tls st) !! p = Some cfg ∧ Logger cfg = true) →
  ∃ cfg, httpRoundTripper d s tls dl tlsDl opts st = (st, Ok (foldl (λ t o, applyTransport o s t)
    (mkTransport dl tlsDl cfg false (ProxyFunc (s_Proxy s)) (ProxyHeaders_Headers (p_Headers (s_Proxy s)))
      0 0 false (90 * second) 100 0) opts)).
Proof.
  intros Htls. destruct (ToConfig_run tls (n_tls st) Htls) as [cfg Hto]. exists cfg.
  unfold httpRoundTripper, mbind, SE_bind, on_tls. rewrite Hto. by destruct st.
Qed.

Lemma proxy_of_fold s opts t : t_Proxy t = ProxyFunc (s_Proxy s) →
  t_Proxy (foldl (λ t o, applyTransport o s t) t (map option_of opts)) = proxy_of (s_Proxy s) opts.
Proof.
  intros Ht. rewrite transport_Proxy, Ht. unfold proxy_of, ProxyFunc.
  destruct (p_Disable (s_Proxy s)), (existsb _ opts), (p_URL (s_Proxy s)); simpl; try done; by destruct (existsb _ opts).
Qed.

(** Whatever the order of the options, the transport is made, and it uses no
    proxy when the settings disable it or [WithNOProxy] is given, the configured
    URL for every request when there is one, and otherwise the proxy of the
    environment unless [WithoutProxyEnvironmentVariables] is given. *)
Theorem httpRoundTripper_proxy s tls dl tlsDl opts st :
  (∀ p, tls = Some p → ∃ cfg, configs (n_tls st) !! p = Some cfg ∧ Logger cfg = true) →
  ∃ t, httpRoundTripper d s tls dl tlsDl (map option_of opts) st = (st, Ok t) ∧
    t_Proxy t = proxy_of (s_Proxy s) opts.
Proof.
  intros Htls. destruct (httpRoundTripper_run s tls dl tlsDl (map option_of opts) st Htls) as [cfg ->].
  eexists. split; [reflexivity|]. by apply proxy_of_fold.
Qed.

(** ** From the settings to verified connections *)
(** The transport at the bottom of the round trippers. *)
Fixpoint transport_of (rt : RoundTripper) : HTransport :=
  match rt with
  | HTTP1 t | HTTP2 t _ => t
  | headerRoundTripper _ rt | Wrapped _ rt => transport_of rt
  end.

(** A connection without the wrappers that log and count. *)
Fixpoint unwrap (c : Conn) : Conn :=
  match c with Stats c _ | Logging c => unwrap c | _ => c end.

(** [dl'] dials with [dl] and wraps the connection. *)
Definition wraps (dl' dl : Dialer) : Prop :=
  ∃ w, (∀ c, unwrap (w c) = unwrap c) ∧ ∀ nw a st, dl' nw a st = ConnWrapper dl w nw a st.

Lemma wraps_refl dl : wraps dl dl.
Proof.
  exists id. split; [done|]. intros nw a st. unfold ConnWrapper, mbind, SE_bind. by destruct (dl nw a st) as [? []].
Qed.

Lemma wraps_wrapper dl' dl w : (∀ c, unwrap (w c) = unwrap c) → wraps dl' dl → wraps (ConnWrapper dl' w) dl.
Proof.
  intros Hw (w' & Hw' & Hd). exists (λ c, w (w' c)). split; [intros c; by rewrite Hw, Hw'|]. intros nw a st.
  unfold ConnWrapper at 1, mbind, SE_bind. rewrite Hd. unfold ConnWrapper, mbind, SE_bind.
  by destruct (dl nw a st) as [? []].
Qed.

Lemma wraps_options opts dl' dl : wraps dl' dl → wraps (foldl applyDialer dl' (map option_of opts)) dl.
Proof.
  revert dl'. induction opts as [|o opts IH]; intros dl' Hw; [done|]. simpl. apply IH.
  destruct o; try done. simpl. destruct s as [k|]; [by apply wraps_wrapper|done].
Qed.

Lemma dials_wraps dl' dl l st : wraps dl' dl → dials dl' l st = dials dl l st.
Proof.
  intros (w & _ & Hd). revert st. induction l as [|[nw a] l IH]; intros st; [done|].
  unfold dials in *. cbn [foreach]. unfold mbind, SE_bind, attempt. rewrite Hd. unfold ConnWrapper, mbind, SE_bind.
  destruct (dl nw a st) as [st1 [c|e| |]]; cbn; try done; apply IH.
Qed.

Lemma wraps_Ok dl' dl nw a st st' cn : wraps dl' dl → dl' nw a st = (st', Ok cn) →
  ∃ c, dl nw a st = (st', Ok c) ∧ unwrap cn = unwrap c.
Proof.
  intros (w & Hw & Hd). rewrite Hd. unfold ConnWrapper, mbind, SE_bind.
  destruct (dl nw a st) as [st1 [c|e| |]]; intros [= <- <-]. eauto.
Qed.

Lemma options_DialTLS s opts t :
  t_DialTLSContext (foldl (λ t o, applyTransport o s t) t (map option_of opts)) = t_DialTLSContext t.
Proof.
  revert t. induction opts as [|o opts IH]; intros t; [done|]. cbn [map foldl]. rewrite IH.
  destruct o; simpl; try done. by destruct (_ || _).
Qed.

Lemma options_transport opts rt : transport_of (foldl applyRoundTripper rt (map option_of opts)) = transport_of rt.
Proof. revert rt. induction opts as [|o opts IH]; intros rt; [done|]. simpl. rewrite IH. by destruct o. Qed.

Lemma dialled_unwrap ts cfg a cn : dialled d ts cfg a cn → unwrap cn = cn.
Proof. by intros (? & ? & ? & ? & ? & -> & _). Qed.

(** C15: From the settings to the connection.  With TLS enabled, mode [full], a
    certificate and authorities that can be loaded, options of the package other
    than those that run a function of the caller and that do not select HTTP/2,
    and a base dialer that leaves the TLS state alone, making the round tripper
    succeeds.  Every connection that its [DialTLSContext] makes, which [net/http]
    uses for https without a proxy, was verified for the host of the address
    dialled against the authorities of the configuration, in whatever order
    hosts were dialled before.  Connections to https hosts behind a proxy do not
    come from it. *)
Theorem https_connections_verified s c cert certs opts st0 :
  s_TLS s = Some c → IsEnabled (Some c) = true → VerificationMode c = VerifyFull →
  LoadCertificate fips (CertConfig c) = Ok cert → ca_certs (CAs c) = Some certs →
  http2 (foldl applyExtra (mkExtra None false) (map option_of opts)) = false →
  plain (default (NetDialer (s_Timeout s)) (foldl baseDialer None (map option_of opts))) →
  ∃ st1 rt ts cas,
    RoundTripper_of fips d h2 s (map option_of opts) st0 = (st1, Ok rt) ∧
    pool_of ts cas = loaded_pool (CAs c) certs ∧
    ∀ earlier st2 network address st3 cn,
      dials (t_DialTLSContext (transport_of rt)) earlier st1 = (st2, Ok tt) →
      t_DialTLSContext (transport_of rt) network address st2 = (st3, Ok cn) →
      dialled d ts (loaded_config c cert cas) address (unwrap cn).
Proof.
  intros Htls Hen Hmode Hcert Hca Hh2 Hplain. set (base := default _ _) in Hplain.
  destruct (LoadTLSConfig_run fips (n_tls st0) c cert certs Hen Hcert Hca) as (ts & p & cas & Hload & Hp & Hpok & Hpool).
  set (cfg := loaded_config c cert cas) in *.
  set (st0' := mkNet (calls st0) (socks st0) ts (caches st0) (events st0)).
  destruct (TLSDialer_inv d base (s_Timeout s) p cfg st0' Hp Hpok) as (st1 & Hmake & Hinv).
  set (tdl := tls_dial d (length (caches st0')) base (Some p) (s_Timeout s)) in *.
  set (tlsDl := LoggingDialer (foldl applyDialer tdl (map option_of opts))).
  assert (Hwrap : wraps tlsDl tdl).
  { apply (wraps_wrapper _ _ Logging); [done|]. apply wraps_options, wraps_refl. }
  destruct (httpRoundTripper_run s (Some p) (LoggingDialer (foldl applyDialer base (map option_of opts))) tlsDl
    (map option_of opts) st1) as [tc Hrt].
  { intros ? [= <-]. exists cfg. split; [apply Hinv|done]. }
  eexists st1, _, ts, cas. split; [|split; [exact Hpool|]].
  - unfold RoundTripper_of. rewrite Htls. fold base. unfold mbind, SE_bind, on_tls at 1. rewrite Hload. fold st0'.
    unfold map_err. rewrite Hmake. fold tlsDl. rewrite Hh2. unfold mbind, SE_bind. rewrite Hrt. reflexivity.
  - rewrite options_transport. cbn [transport_of]. rewrite options_DialTLS. cbn [t_DialTLSContext].
    intros earlier st2 nw a st3 cn He Hd. rewrite (dials_wraps _ _ _ _ Hwrap) in He.
    destruct (wraps_Ok _ _ _ _ _ _ _ Hwrap Hd) as (c' & Hd' & ->).
    pose proof (keeps_run _ _ _ _ _ (dials_inv d ts p cfg _ base _ earlier Hmode eq_refl Hpok Hplain) Hinv He) as Hi2.
    destruct (tls_dial_inv d ts p cfg _ Hmode eq_refl Hpok _ _ _ _ _ _ _ Hplain Hi2 Hd') as [_ Hok].
    specialize (Hok c' eq_refl). by rewrite (dialled_unwrap _ _ _ _ Hok).
Qed.
End transports.

(** ** Witnesses *)
Section toy.
#[local] Existing Instance toy.
#[local] Existing Instance toy_net.
#[local] Existing Instance toy_pki.
#[local] Instance toy_url : UrlLib := {|
  url_Parse s := inl (mkUrl "" None "" s "");
  url_String u := Path u
|}.

Definition tls_settings : HTTPTransportSettings :=
  mkSettings (Some client_config) 5 (mkProxySettings (Some (mkUrl "http" None "proxy:3128" "" "")) ∅ false) 0.
Definition agent_header : gmap string string := {["User-Agent" := "Elastic"]}.
Definition toy_options : list known := [KIOStats (Some 7%nat); KNoEnvironment; KHeaders agent_header].
Definition plain_transport : HTransport :=
  mkTransport (NetDialer 0) (NetDialer 0) zero_Config false None None 0 0 false 0 0 0.
Definition bare_request : Request := mkRequest "GET" "/" {["Accept" := ["text/html"]]} "".

Lemma header_RoundTrip_defaults_witness :
  Header_Get (r_Header (header_RoundTrip (HeaderRoundTripper (HTTP1 plain_transport) agent_header) bare_request)) "user-agent"
    = "Elastic" ∧
  Header_Get (r_Header (header_RoundTrip (HeaderRoundTripper (HTTP1 plain_transport) {["accept" := "*/*"]}) bare_request)) "Accept"
    = "text/html".
Proof.
  split.
  - refine (header_RoundTrip_defaults agent_header plain_transport bare_request "user-agent" _).
    vm_compute. apply NoDup_singleton.
  - refine (header_RoundTrip_defaults {["accept" := "*/*"]} plain_transport bare_request "Accept" _).
    vm_compute. apply NoDup_singleton.
Defined.

Lemma httpRoundTripper_proxy_witness :
  ∃ t, httpRoundTripper defaults tls_settings (Some 0%nat) (NetDialer 5) (NetDialer 5) (map option_of toy_options) toy_store =
      (toy_store, Ok t) ∧
    t_Proxy t = Some (ProxyFixed (mkUrl "http" None "proxy:3128" "" "")).
Proof.
  apply (httpRoundTripper_proxy defaults tls_settings (Some 0%nat) (NetDialer 5) (NetDialer 5) toy_options toy_store).
  intros p [= <-]. exists by_fingerprint. split; reflexivity.
Defined.

Lemma https_connections_verified_witness :
  ∃ st1 rt ts cas,
    RoundTripper_of false defaults (λ _, None) tls_settings (map option_of toy_options) toy_store = (st1, Ok rt) ∧
    pool_of ts cas = Some [ca_cert] ∧
    ∀ earlier st2 network address st3 cn,
      dials (t_DialTLSContext (transport_of rt)) earlier st1 = (st2, Ok tt) →
      t_DialTLSContext (transport_of rt) network address st2 = (st3, Ok cn) →
      dialled defaults ts (loaded_config client_config None cas) address (unwrap cn).
Proof.
  apply (https_connections_verified false defaults (λ _, None) tls_settings client_config None [ca_cert] toy_options toy_store);
    try reflexivity. apply plain_NetDialer.
Defined.

(** The peers of this network present a chain to [ca_cert] for example.com. *)
Example https_dial_runs :
  let '(st1, r) := RoundTripper_of false defaults (λ _, None) tls_settings (map option_of toy_options) toy_store in
  match r with
  | Ok rt =>
      (∃ hs t id, snd (t_DialTLSContext (transport_of rt) "tcp" "www.example.com:443" st1) =
         Ok (Logging (Stats (Tls (Sock id) t hs) 7%nat))) ∧
      snd (t_DialTLSContext (transport_of rt) "tcp" "example.org:443" st1) = Err (Etls (Ehost HostnameError))
  | _ => False
  end.
Proof. vm_compute. split; [|done]. by do 3 eexists. Qed.

(** ** Finding *)
(** Behind a proxy the TLS connection is made with [TLSClientConfig], whose
    function was made for the empty host name: it accepts the chain of
    example.com whatever host was asked for, and the library's verification is
    switched off. *)
Theorem proxied_https_host_unverified :
  let '(st1, r) := RoundTripper_of false defaults (λ _, None) tls_settings (map option_of toy_options) toy_store in
  match r with
  | Ok rt =>
      let t := transport_of rt in
      t_Proxy t = Some (ProxyFixed (mkUrl "http" None "proxy:3128" "" "")) ∧
      InsecureSkipVerify (t_TLSClientConfig t) = true ∧
      match VerifyConnection (t_TLSClientConfig t) with
      | Some f => (∃ p, f = ClientFull p "" true) ∧ snd (run_verify f full_chain (n_tls st1)) = Ok tt
      | None => False
      end
  | _ => False
  end.
Proof. vm_compute. conjs; [done..|by eexists|done]. Qed.

(** An empty proxy URL is no URL: reading one from JSON, YAML or a
    configuration string dereferences the nil pointer. *)
Example empty_proxy_url_panics :
  NewProxyURIFromString "" = Ok None ∧
  ProxyURI_Unpack "" = Panic PNilPointer ∧
  ProxyURI_UnmarshalJSON (String "034" (String "034" "")) = Panic PNilPointer ∧
  ProxyURI_UnmarshalYAML (inl "") = Panic PNilPointer.
Proof. vm_compute. done. Qed.
End toy.
