(* ===== verification/Kibana.v ===== *)
(** * Package [kibana]: the client (src/kibana client.go, client_config.go, url.go)

    A client sends requests; what the server answers to a request may depend on
    all requests before it ([HTTP_Do]).  The state is the list of requests sent
    and the network the transport is made on.  JSON decoding, media types and
    URL parsing are the library's.  Log output is left out.  With it the user
    agent of src/useragent. *)
From S2P Require Import Version Paths.
From S2P Require Import Prelude GoStrings GoUtf8 GoBase64 GoNet TlsNames TlsTypes TlsVerify TlsLoad Transport HttpCommon.

Open Scope string_scope.
Open Scope list_scope.
Open Scope Z_scope.

(** ** useragent.go *)
Module useragent.
Section agent.
Context (GOOS GOARCH : string).

Inductive AgentManagementMode := ModeUnknown | ModeStandalone | ModeUnmanaged | ModeManaged.
Definition Mode_String (m : AgentManagementMode) : string :=
  match m with
  | ModeUnmanaged => "Unmanaged" | ModeManaged => "Managed" | ModeStandalone => "Standalone" | ModeUnknown => "Unknown"
  end.

Inductive AgentUnprivilegedMode := PrivUnknown | Unprivileged | Privileged.
Definition Priv_String (m : AgentUnprivilegedMode) : string :=
  match m with Unprivileged => "Unprivileged" | Privileged => "Privileged" | PrivUnknown => "Unknown" end.

Definition comment (values : list string) : string := "(" +:+ Join values "; " +:+ ")".

Definition UserAgent (name version commit buildTime : string) (additionalComments : list string) : string :=
  "Elastic-" +:+ name +:+ "/" +:+ version +:+ " " +:+
  comment ([GOOS; GOARCH; commit; buildTime] ++ filter (λ v, v ≠ "") additionalComments).

Definition UserAgentWithBeatTelemetry (name version : string) (mode : AgentManagementMode)
    (unprivileged : AgentUnprivilegedMode) : string :=
  "Elastic-" +:+ name +:+ "/" +:+ version +:+ " " +:+
  comment ([GOOS; GOARCH] ++
    (match mode with ModeUnknown => [] | _ => [Mode_String mode] end) ++
    (match unprivileged with PrivUnknown => [] | _ => [Priv_String unprivileged] end)).
End agent.
End useragent.

(** ** [url.Values]
    [Encode] sorts by key and escapes keys and values. *)
Abbreviation Values := (gmap string (list string)).

Definition hex_digit (n : Z) : ascii := chr (if n <? 10 then 48 + n else 55 + n).
Definition unreserved (a : ascii) : bool :=
  let b := byte a in
  in_range 48 57 b || upper_case b || lower_case b || existsb (Ascii.eqb a) ["-"; "_"; "."; "~"]%char.
Fixpoint QueryEscape (s : string) : string :=
  match s with
  | "" => ""
  | String a r =>
      if unreserved a then String a (QueryEscape r)
      else if Ascii.eqb a " " then String "+" (QueryEscape r)
      else String "%" (String (hex_digit (byte a / 16)) (String (hex_digit (byte a mod 16)) (QueryEscape r)))
  end.

Definition key_less (a b : string * list string) : bool := negb (String.leb (fst b) (fst a)).
Definition Values_Encode (v : Values) : string :=
  Join (flat_map (λ '(k, vs), map (λ x, QueryEscape k +:+ "=" +:+ QueryEscape x) vs)
    (insertion_sort key_less (map_to_list v))) "&".
Definition Values_Add (v : Values) (k x : string) : Values := <[k := default [] (v !! k) ++ [x]]> v.

(** ** url.go *)
(** The regular expression: a lower-case letter, then letters, digits, plus,
    hyphen and dot, then a colon and two slashes *)
Definition scheme_byte (a : ascii) : bool :=
  let b := byte a in lower_case b || in_range 48 57 b || existsb (Ascii.eqb a) ["+"; "-"; "."]%char.
Fixpoint after_scheme (s : string) : string :=
  match s with String a r => if scheme_byte a then after_scheme r else s | "" => "" end.
Definition hasScheme (s : string) : bool :=
  match s with String a _ => lower_case (byte a) && HasPrefix (after_scheme s) "://" | "" => false end.

(** [strings.Count] of one byte *)
Fixpoint Count (s : string) (c : ascii) : Z :=
  match s with "" => 0 | String a r => (if Ascii.eqb a c then 1 else 0) + Count r c end.

Section urls.
Context `{UrlLib}.

Definition MakeURL (defaultScheme defaultPath rawURL : string) (defaultPort : Z) : string + string :=
  let defaultScheme := if String.eqb defaultScheme "" then "http" else defaultScheme in
  let rawURL := if hasScheme rawURL then rawURL else defaultScheme +:+ "://" +:+ rawURL in
  match url_Parse rawURL with
  | inr e => inr e
  | inl addr =>
      let port := if 0 <? defaultPort then Itoa defaultPort else "" in
      let '(host, port) :=
        if String.eqb (Host addr) "" then ("localhost", port)
        else
          let '(host, port) :=
            match SplitHostPort (Host addr) with Ok (h, p) => (h, p) | _ => (Host addr, port) end in
          ((if (1 <? Count host ":") && (Count host "]" =? 0) then "[" +:+ host +:+ "]" else host), port) in
      let path := if String.eqb (Path addr) "" then defaultPath else Path addr in
      inl (url_String (mkUrl (Scheme addr) (User addr)
        (if String.eqb port "" then host else host +:+ ":" +:+ port) path (url_rest addr)))
  end.

Definition EncodeURLParams (u : string) (params : Values) : string :=
  if (size params =? 0)%nat then u else Join [u; "?"; Values_Encode params] "".

Abbreviation ParseHint := (string → string).

Definition WithDefaultScheme (scheme : string) : ParseHint := λ raw,
  if negb (Contains raw "://") then scheme +:+ "://" +:+ raw else raw.

(** A nil URL for the empty text. *)
Definition ParseURL (raw : string) (hints : list ParseHint) : option url + string :=
  if String.eqb raw "" then inl None
  else
    let hints := match hints with [] => [WithDefaultScheme "http"] | _ => hints end in
    let raw := if negb (Contains raw "://") then foldl (λ raw hint, hint raw) raw hints else raw in
    match url_Parse raw with inr e => inr e | inl u => inl (Some u) end.
End urls.

(** ** client_config.go *)
Definition elasticAPIVersionHeaderKey : string := "Elastic-Api-Version".
Definition elasticAPIDefaultVersion : string := "2023-10-31".

Record ClientConfig := mkClientConfig {
  cc_Protocol : string; cc_Host : string; cc_Path : string; cc_SpaceID : string;
  cc_Username : string; cc_Password : string; cc_APIKey : string; cc_ServiceToken : string;
  cc_Headers : gmap string string; cc_IgnoreVersion : bool; cc_Transport : HTTPTransportSettings
}.

Definition DefaultClientConfig : ClientConfig :=
  mkClientConfig "http" "localhost:5601" "" "" "" "" "" ""
    {[elasticAPIVersionHeaderKey := elasticAPIDefaultVersion]} false DefaultHTTPTransportSettings.

(** ** client.go *)
(** The objects a failed request names, and the assets a failed import names. *)
Record object_error := mkObjectError { oe_ID : string; oe_Message : string }.
Record asset_error := mkAssetError {
  ae_ID : string; ae_Type : string; ae_Error : string; ae_References : list (string * string)
}.

Inductive kerror :=
| EcredentialsConflict
| EurlCredentials
| Eunpack (msg : string)
| EinvalidHost (msg : string)
| EparseURL (msg : string)
| Ehttp (e : http_error)
| EnewRequest (method msg : string)
| Edo (msg : string)
| Eexecute (method : string) (e : kerror)
| EreadBody (msg : string)
| EerrorJSON (msg : string)
| Eapi (message : string) (objects : list object_error)
| Eassets (errs : list asset_error)
| EstatusRequest (url : string) (e : option kerror) (code : Z) (response : string)
| EstatusJSON (url response msg : string)
| EbadVersion (v : string) (e : Version.version_error)
| EgetVersion (e : kerror)
| EinRequest (e : kerror)
| EresponseCode (code : Z) (response : string)
| Ejson (msg : string)
| Eimport (code : Z) (e : option kerror) (response : string)
| Ecalling (what : string) (e : kerror)
| Emarshal (what msg : string)
| EdeletePolicy (code : Z) (body : string + string)
| EdownloadSource (status body : string)
| EjoinPath (msg : string).

Record Connection := mkConnection {
  k_URL : string; Username : string; Password : string; APIKey : string; ServiceToken : string;
  Headers : Header; HTTP : http_Client
}.
Record Client := mkKibanaClient { Conn_ : Connection; k_Version : Version.V }.

Record kworld := mkWorld { k_net : net; k_sent : list Request }.
Abbreviation KM := (SE kworld kerror).

Class KibanaEnv := {
  NewRequest_err : string → string → option string;
  HTTP_Do : http_Client → list Request → Request → Response + string;
  ParseMediaType : string → string;
  decode_error : string → (string * list object_error) + string;
  decode_message : string → (bool * list asset_error) + string;
  decode_version : string → (string * bool) + string;
  decode_flavor : string → string + string;
  multipart_boundary : nat → string
}.

Definition statusAPI : string := "/api/status".

Definition addToURL (u p : string) (params : Values) : string :=
  if (size params =? 0)%nat then u +:+ p else Join [u; p; "?"; Values_Encode params] "".

(** [truncateString] *)
Definition maxLength : nat := 250.
Fixpoint replace_newlines (s : string) : string :=
  match s with "" => "" | String a r => String (if Ascii.eqb a "010" then " " else a) (replace_newlines r) end.
Definition truncateString (b : string) : string :=
  let runes := (range_string b).*2 in
  let runes := if (maxLength <? length runes)%nat
    then take maxLength runes ++ (range_string "... (truncated)").*2 else runes in
  replace_newlines (encode runes).

Section client.
Context `{MapOrder} `{UrlLib} `{KibanaEnv}.

Definition extractError (result : string) : option kerror :=
  match decode_error result with
  | inr e => Some (EerrorJSON e)
  | inl (message, objects) => if String.eqb message "" then None else Some (Eapi message objects)
  end.

(** [errors.Join] of nothing is nil. *)
Definition extractMessage (result : string) : option kerror :=
  match decode_message result with
  | inr _ => None
  | inl (success, errs) => if success then None else match errs with [] => None | _ => Some (Eassets errs) end
  end.

Definition ClientConfig_Validate (c : ClientConfig) : option kerror :=
  if negb (String.eqb (cc_APIKey c) "") &&
     (negb (String.eqb (cc_Username c) "") || negb (String.eqb (cc_Password c) ""))
  then Some EcredentialsConflict else None.

Definition addHeaders (out_ in_ : Header) : Header :=
  foldl (λ h '(k, vs), foldl (λ h v, Header_Add h k v) h vs) out_ (map_order in_).

Definition SetBasicAuth (h : Header) (username password : string) : Header :=
  Header_Set h "Authorization" ("Basic " +:+ Encode (username +:+ ":" +:+ password)).

(** The credentials of a connection: each overwrites the one before. *)
Definition authorize (conn : Connection) (h : Header) : Header :=
  let h := if negb (String.eqb (Username conn) "") || negb (String.eqb (Password conn) "")
           then SetBasicAuth h (Username conn) (Password conn) else h in
  let h := if negb (String.eqb (APIKey conn) "")
           then Header_Set h "Authorization" ("ApiKey " +:+ Encode (APIKey conn)) else h in
  if negb (String.eqb (ServiceToken conn) "")
  then Header_Set h "Authorization" ("Bearer " +:+ ServiceToken conn) else h.

Definition content_headers (h : Header) : Header :=
  let contentType := ParseMediaType (Header_Get h "Content-Type") in
  let h := if negb (String.eqb contentType "multipart/form-data") && negb (String.eqb contentType "application/ndjson")
           then Header_Set h "Content-Type" "application/json" else h in
  Header_Set (Header_Set h "Accept" "application/json") "kbn-xsrf" "1".

(** [conn.HTTP.Do(req)] *)
Definition conn_RoundTrip (conn : Connection) (req : Request) : KM Response := λ w,
  (mkWorld (k_net w) (k_sent w ++ [req]),
   match HTTP_Do (HTTP conn) (k_sent w) req with inl resp => Ok resp | inr e => Err (Edo e) end).

Definition request_headers (conn : Connection) (headers : Header) : Header :=
  content_headers (addHeaders (addHeaders (authorize conn ∅) (Headers conn)) headers).

Definition SendWithContext (conn : Connection) (method extraPath : string) (params : Values) (headers : Header)
    (body : string) : KM Response :=
  let reqURL := addToURL (k_URL conn) extraPath params in
  match NewRequest_err method reqURL with
  | Some e => fail (EnewRequest method e)
  | None => conn_RoundTrip conn (mkRequest method reqURL (request_headers conn headers) body)
  end.

Definition Send := SendWithContext.

(** The status, the body and the error the body stands for. *)
Definition Request_ (conn : Connection) (method extraPath : string) (params : Values) (headers : Header)
    (body : string) : KM (Z * string * option kerror) :=
  r ← attempt (Send conn method extraPath params headers body);
  match r with
  | inr e => mret (0, "", Some (Eexecute method e))
  | inl resp =>
      match io_ReadAll (Resp_Body resp) with
      | inr e => mret (0, "", Some (EreadBody e))
      | inl result =>
          mret (StatusCode resp, result,
            if 300 <=? StatusCode resp then extractError result else extractMessage result)
      end
  end.

Definition readVersion (client : Client) : KM Client :=
  let conn := Conn_ client in
  '(code, result, err) ← Request_ conn "GET" statusAPI ∅ ∅ "";
  match err with
  | Some e => fail (EstatusRequest (k_URL conn) (Some e) code (truncateString result))
  | None =>
      if 400 <=? code then fail (EstatusRequest (k_URL conn) None code (truncateString result))
      else
        match decode_version result with
        | inr e => fail (EstatusJSON (k_URL conn) (truncateString result) e)
        | inl (number, snapshot) =>
            let versionString := if snapshot : bool then number +:+ "-SNAPSHOT" else number in
            match Version.New versionString with
            | Ok v => mret (mkKibanaClient conn v)
            | Err e => fail (EbadVersion versionString e)
            | Panic p => panics p
            | OutOfFuel => no_fuel
            end
        end
  end.

Definition GetVersion (client : Client) : Version.V := k_Version client.

Definition KibanaIsServerless (client : Client) : KM bool :=
  let conn := Conn_ client in
  let params := if negb (String.eqb (APIKey conn) "")
    then Header_Add ∅ "Authorization" ("ApiKey " +:+ Encode (APIKey conn)) else ∅ in
  '(ret, resp, err) ← Request_ conn "GET" "/api/status" ∅ params "";
  match err with
  | Some e => fail (EinRequest e)
  | None =>
      if 300 <? ret then fail (EresponseCode ret resp)
      else
        match decode_flavor resp with
        | inr e => fail (Ejson e)
        | inl flavor => mret (String.eqb flavor "serverless")
        end
  end.

(** The body [mime/multipart] writes for one part; [dq] is the double quote. *)
Definition dq : string := String "034" "".
Definition crlf : string := String "013" (String "010" "").
Definition multipart_body (boundary filename contents : string) : string :=
  "--" +:+ boundary +:+ crlf +:+
  "Content-Disposition: form-data; name=" +:+ dq +:+ "file" +:+ dq +:+ "; filename=" +:+ dq +:+ filename +:+ dq +:+ crlf +:+
  "Content-Type: application/ndjson" +:+ crlf +:+ crlf +:+
  contents +:+ crlf +:+ "--" +:+ boundary +:+ "--" +:+ crlf.

Definition ImportMultiPartFormFile (client : Client) (u : string) (params : Values) (filename contents : string) : KM unit :=
  w ← get_store;
  let boundary := multipart_boundary (length (k_sent w)) in
  let sendHeaders := Header_Add ∅ "Content-Type" ("multipart/form-data; boundary=" +:+ boundary) in
  serverless ← attempt (KibanaIsServerless client);
  let sendHeaders :=
    match serverless with
    | inl true => Header_Add sendHeaders "x-elastic-internal-origin" "elastic-agent-libs"
    | _ => sendHeaders
    end in
  '(statusCode, response, err) ←
    Request_ (Conn_ client) "POST" u params sendHeaders (multipart_body boundary filename contents);
  match err with
  | Some e => fail (Eimport statusCode (Some e) response)
  | None => if 300 <=? statusCode then fail (Eimport statusCode None response) else mret tt
  end.
End client.

(** ** Making a client *)
Section new_client.
Context `{MapOrder} `{UrlLib} `{KibanaEnv} `{X509} `{NetEnv} `{Pki} (fips : bool) (d : tls_defaults).
Context (h2 : HTransport → option string) (GOOS GOARCH : string).

Definition on_http {A} (c : SE net http_error A) : KM A := λ w,
  let '(n, r) := c (k_net w) in
  (mkWorld n (k_sent w),
   match r with Ok a => Ok a | Err e => Err (Ehttp e) | Panic p => Panic p | OutOfFuel => OutOfFuel end).

(** The credentials and the URL without those in it. *)
Definition url_credentials (config : ClientConfig) (kibanaURL : string) (u : url) : res kerror (string * string * string) :=
  match User u with
  | None => Ok (cc_Username config, cc_Password config, kibanaURL)
  | Some (username, password) =>
      let password := default "" password in
      if negb (String.eqb (cc_APIKey config) "") &&
         (negb (String.eqb username "") || negb (String.eqb password ""))
      then Err EurlCredentials
      else Ok (username, password, url_String (mkUrl (Scheme u) None (Host u) (Path u) (url_rest u)))
  end.

Definition NewClientWithConfigDefault (config : ClientConfig) (defaultPort : Z)
    (binaryName version commit buildtime : string) : KM Client :=
  match ClientConfig_Validate config with
  | Some e => fail e
  | None =>
      let p := if String.eqb (cc_SpaceID config) "" then cc_Path config
               else Paths.filepath_Join [cc_Path config; "s"; cc_SpaceID config] in
      match MakeURL (cc_Protocol config) p (cc_Host config) defaultPort with
      | inr e => fail (EinvalidHost e)
      | inl kibanaURL =>
          match url_Parse kibanaURL with
          | inr e => fail (EparseURL e)
          | inl u =>
              '(username, password, kibanaURL) ← lift (url_credentials config kibanaURL u);
              let headers := foldl (λ h '(k, v), Header_Set h k v) ∅ (map_order (cc_Headers config)) in
              let binaryName := if String.eqb binaryName "" then "Libbeat" else binaryName in
              let userAgent := useragent.UserAgent GOOS GOARCH binaryName version commit buildtime [] in
              rt ← on_http (Client_of fips d h2 (cc_Transport config)
                     [WithHeaderRoundTripper {["User-Agent" := userAgent]}]);
              let client := mkKibanaClient
                (mkConnection kibanaURL username password (cc_APIKey config) (cc_ServiceToken config) headers rt)
                (Version.mkV "" 0 0 0 "") in
              if negb (cc_IgnoreVersion config) then map_err EgetVersion (readVersion client) else mret client
          end
      end
  end.

Definition NewClientWithConfig (config : ClientConfig) (binaryName version commit buildtime : string) : KM Client :=
  NewClientWithConfigDefault config 5601 binaryName version commit buildtime.

(** [cfg.Unpack(&config)] is ucfg's, on the default configuration. *)
Definition NewKibanaClient (unpack : ClientConfig → ClientConfig + string)
    (binaryName version commit buildtime : string) : KM Client :=
  match unpack DefaultClientConfig with
  | inr e => fail (Eunpack e)
  | inl config => NewClientWithConfig config binaryName version commit buildtime
  end.
End new_client.
