(* ===== verification/Fleet.v ===== *)
(** * Package [kibana]: the Fleet API (src/kibana/fleet.go)

    The request and response types with the source's fields, and one operation
    per API call.  [JSON A] is encoding/json for a type: [unmarshal] gives the
    value it leaves in a zero variable, with its error.  An operation answers
    the value and the error the Go function returns together. *)
From S2P Require Import Prelude GoStrings GoUtf8 GoBase64 GoNet TlsNames TlsTypes TlsVerify TlsLoad Transport HttpCommon Kibana.

Open Scope string_scope.
Open Scope list_scope.
Open Scope Z_scope.

Class JSON (A : Type) := {
  zero : A;
  marshal : A → string + string;
  unmarshal : string → A * option string;
  decode : Body → A * option string      (** [json.NewDecoder(body).Decode] *)
}.

(** [interface{}] *)
Class AnyValue := any : Type.

(** ** Agent policies *)
Definition fleetAgentAPI (id : string) : string := "/api/fleet/agents/" +:+ id.
Definition fleetAgentPoliciesAPI : string := "/api/fleet/agent_policies".
Definition fleetAgentPolicyAPI (id : string) : string := "/api/fleet/agent_policies/" +:+ id.
Definition fleetAgentsAPI : string := "/api/fleet/agents".
Definition fleetAgentsDeleteAPI : string := "/api/fleet/agent_policies/delete".
Definition fleetEnrollmentAPIKeysAPI : string := "/api/fleet/enrollment_api_keys".
Definition fleetFleetServerHostsAPI : string := "/api/fleet/fleet_server_hosts".
Definition fleetPackagePoliciesAPI : string := "/api/fleet/package_policies".
Definition fleetUnEnrollAgentAPI (id : string) : string := "/api/fleet/agents/" +:+ id +:+ "/unenroll".
Definition fleetUninstallTokensAPI : string := "/api/fleet/uninstall_tokens".
Definition fleetUpgradeAgentAPI (id : string) : string := "/api/fleet/agents/" +:+ id +:+ "/upgrade".
Definition fleetAgentDownloadSourcesAPI : string := "/api/fleet/agent_download_sources".
Definition fleetProxiesAPI : string := "/api/fleet/proxies".

Section types.
Context `{AnyValue}.

(** [MonitoringEnabledOption] *)
Definition MonitoringEnabledLogs : string := "logs".
Definition MonitoringEnabledMetrics : string := "metrics".

Record AgentPolicy := mkAgentPolicy {
  ap_ID : string; ap_Name : string; ap_Namespace : string; ap_Description : string;
  ap_MonitoringEnabled : list string; ap_DataOutputID : string; ap_MonitoringOutputID : string;
  ap_FleetServerHostID : string; ap_DownloadSourceID : string; ap_UnenrollTimeout : Z; ap_InactivityTImeout : Z;
  ap_AgentFeatures : list (gmap string any); ap_Overrides : option (gmap string any); ap_IsProtected : bool
}.

(** Times are nanoseconds since the Unix epoch. *)
Record PolicyResponse := mkPolicyResponse {
  pr_AgentPolicy : AgentPolicy; UpdatedOn : Z; UpdatedBy : string; Revision : Z; pr_IsProtected : bool;
  PackagePolicies : list (gmap string any)
}.

Record AgentPolicyUpdateRequest := mkAgentPolicyUpdateRequest {
  au_Name : string; au_Namespace : string; au_Description : string; au_MonitoringEnabled : list string;
  au_DataOutputID : string; au_MonitoringOutputID : string; au_FleetServerHostID : string;
  au_DownloadSourceID : string; au_UnenrollTimeout : Z; au_InactivityTImeout : Z;
  au_AgentFeatures : list (gmap string any); au_Overrides : option (gmap string any); au_IsProtected : option bool
}.

Record DownloadSource := mkDownloadSource {
  ds_Name : string; ds_Host : string; ds_IsDefault : bool; ds_ProxyID : option any
}.
Record DownloadSourceResponse := mkDownloadSourceResponse {
  dr_ID : string; dr_Name : string; dr_Host : string; dr_IsDefault : bool; dr_ProxyID : string
}.

Record delete_request := mkDeleteRequest { AgentPolicyID : string }.

(** ** Enrollment *)
Record CreateEnrollmentAPIKeyRequest := mkEnrollmentRequest { er_Name : string; er_PolicyID : string }.
Record CreateEnrollmentAPIKeyResponse := mkEnrollmentResponse {
  ek_Active : bool; ek_APIKey : string; ek_APIKeyID : string; ek_ID : string; ek_Name : string; ek_PolicyID : string
}.

(** ** Agents *)
Record AgentUpgradeDetails := mkUpgradeDetails {
  ud_TargetVersion : string; ud_State : string; ud_ActionID : string;
  ud_ScheduledAt : option Z; ud_DownloadPercent : any; ud_DownloadRate : any; ud_FailedState : string;
  ud_ErrorMsg : string; ud_Reason : string
}.
Record AgentCommon := mkAgentCommon {
  ag_Active : bool; ag_Status : string; ag_Agent_ID : string; ag_Agent_Version : string;
  ag_Hostname : string; ag_FIPS : bool; ag_PolicyID : string; ag_PolicyRevision : Z;
  ag_UpgradeDetails : option AgentUpgradeDetails
}.
Record AgentExisting := mkAgentExisting { ax_ID : string; ax_AgentCommon : AgentCommon }.
Record ListAgentsResponse := mkListAgentsResponse { la_Items : list AgentExisting }.
Record GetAgentRequest := mkGetAgentRequest { ga_ID : string }.
Record UnEnrollAgentRequest := mkUnEnroll { un_ID : string; un_Revoke : bool }.
Record UpgradeAgentRequest := mkUpgrade { up_ID : string; up_Version : string; up_SourceURI : string; up_Force : bool }.

(** ** Fleet Server hosts *)
Record FleetServerHost := mkFleetServerHost {
  fh_ID : string; fh_Name : string; fh_HostURLs : list string; fh_IsDefault : bool; fh_IsInternal : bool;
  fh_IsPreconfigured : bool; fh_ProxyID : string
}.
Record ListFleetServerHostsRequest := mkHostsRequest {
  lh_HostURLs : list string; lh_ID : string; lh_IsDefault : bool; lh_IsInternal : bool; lh_Name : string;
  lh_ProxyID : string
}.
Record ListFleetServerHostsResponse := mkHostsResponse { lr_Items : list FleetServerHost }.
Record FleetServerHostsResponse := mkHostResponse { hr_Item : FleetServerHost }.
Record GetFleetServerHostRequest := mkGetHost { gh_ID : string }.

(** ** Package policies *)
Record PackagePolicyRequestPackage := mkPackage { pk_Name : string; pk_Version : string }.
Record PackagePolicyRequest := mkPackagePolicyRequest {
  pp_ID : string; pp_Name : string; pp_Namespace : string; pp_PolicyID : string;
  pp_Package : PackagePolicyRequestPackage; pp_Vars : option (gmap string any); pp_Inputs : list (gmap string any);
  pp_Force : bool
}.
Record PackagePolicy := mkPackagePolicy {
  po_ID : string; po_Revision : Z; po_Enabled : bool; po_Inputs : list (gmap string any);
  po_Package : PackagePolicyRequestPackage; po_Namespace : string; po_OutputID : string; po_PolicyID : string;
  po_Name : string; po_Description : string
}.
Record DeletePackagePolicyResponse := mkDeletePackage { dp_ID : string }.

(** ** Proxies: a nil map of headers is [None]. *)
Record ProxiesRequest := mkProxiesRequest {
  px_Certificate : string; px_CertificateAuthorities : string; px_CertificateKey : string; px_ID : string;
  px_Name : string; px_ProxyHeaders : option (gmap string string); px_URL : string
}.
Record ProxiesResponse := mkProxiesResponse {
  pz_Certificate : string; pz_CertificateAuthorities : string; pz_CertificateKey : string; pz_ID : string;
  pz_IsPreconfigured : bool; pz_Name : string; pz_ProxyHeaders : option (gmap string string); pz_URL : string
}.

(** ** Uninstall tokens *)
Record UninstallTokenItem := mkToken { ut_ID : string; ut_PolicyID : string; ut_Token : string; ut_CreatedAt : string }.
Record UninstallTokenResponse := mkTokens {
  ur_Items : list UninstallTokenItem; ur_Total : Z; ur_Page : Z; ur_PerPage : Z
}.

(** The anonymous structures with one field [item]. *)
Record with_item (A : Type) := mkItem { Item : A }.
End types.
Arguments mkItem {A} Item.
Arguments Item {A} w.

Section fleet.
Context `{MapOrder} `{UrlLib} `{KibanaEnv} `{AnyValue}.
(** [url.JoinPath] *)
Context (url_JoinPath : string → string → string + string).
Implicit Types (client : Client).

(** What a call answers: its value and its error. *)
Abbreviation answer A := (KM (A * option kerror)).

Definition readJSONResponse {A} `{JSON A} (r : Response) : A * option kerror :=
  match io_ReadAll (Resp_Body r) with
  | inr e => (zero, Some (EreadBody e))
  | inl b =>
      if negb (StatusCode r =? 200) then (zero, extractError b)
      else
        let '(v, err) := unmarshal b in
        (v, match err with Some e => Some (Ejson e) | None => None end)
  end.

(** Send a request and hand the response on, or answer [r] with the error. *)
Definition calling {A} (what : string) (r : A) (client : Client) (method path : string) (params : Values)
    (body : string) (k : Response → answer A) : answer A :=
  resp ← attempt (SendWithContext (Conn_ client) method path params ∅ body);
  match resp with
  | inr e => mret (r, Some (Ecalling what e))
  | inl resp => k resp
  end.

(** Encode the request, or answer [r] with the error. *)
Definition encoding {A B} `{JSON B} (what : string) (r : A) (request : B) (k : string → answer A) : answer A :=
  match marshal request with
  | inr e => mret (r, Some (Emarshal what e))
  | inl reqBody => k reqBody
  end.

(** The field [item] of what was read. *)
Definition item_of {A} (x : with_item A * option kerror) : A * option kerror := (Item (fst x), snd x).

Section policies.
Context `{JSON AgentPolicy} `{JSON AgentPolicyUpdateRequest} `{JSON (with_item PolicyResponse)} `{JSON delete_request}.
Context `{JSON PolicyResponse} `{JSON DownloadSource} `{JSON (with_item DownloadSourceResponse)}.

Definition CreatePolicy client (request : AgentPolicy) : answer PolicyResponse :=
  encoding "create policy" zero request (λ reqBody,
    calling "create policy" zero client "POST" fleetAgentPoliciesAPI ∅ reqBody (λ resp,
      mret (item_of (readJSONResponse resp)))).

Definition CreateDownloadSource client (source : DownloadSource) : answer (with_item DownloadSourceResponse) :=
  encoding "DownloadSource" zero source (λ reqBody,
    calling "Agent Binary Download Sources" zero client "POST" fleetAgentDownloadSourcesAPI ∅ reqBody (λ resp,
      if negb (StatusCode resp =? 200) then
        let respBody := match io_ReadAll (Resp_Body resp) with
          | inr _ => "could not read response body" | inl bs => bs end in
        mret (zero, Some (EdownloadSource (Status resp) respBody))
      else
        let '(body, err) := decode (Resp_Body resp) in
        mret (match err with Some e => (zero, Some (Ejson e)) | None => (body, None) end))).

Definition GetPolicy client (id : string) : answer PolicyResponse :=
  calling "get policy" zero client "GET" (fleetAgentPolicyAPI id) ∅ "" (λ resp,
    mret (item_of (readJSONResponse resp))).

Definition UpdatePolicy client (id : string) (request : AgentPolicyUpdateRequest) : answer PolicyResponse :=
  encoding "update policy" zero request (λ reqBody,
    calling "update policy" zero client "PUT" (fleetAgentPolicyAPI id) ∅ reqBody (λ resp,
      mret (item_of (readJSONResponse resp)))).

Definition DeletePolicy client (id : string) : answer unit :=
  encoding "delete policy" tt (mkDeleteRequest id) (λ reqBody,
    calling "delete policy" tt client "POST" fleetAgentsDeleteAPI ∅ reqBody (λ resp,
      mret (tt,
        if negb (StatusCode resp =? 200) then
          Some (EdeletePolicy (StatusCode resp) (io_ReadAll (Resp_Body resp)))
        else None))).
End policies.

Section agents.
Context `{JSON CreateEnrollmentAPIKeyRequest} `{JSON CreateEnrollmentAPIKeyResponse} `{JSON (with_item CreateEnrollmentAPIKeyResponse)}.
Context `{JSON ListAgentsResponse} `{JSON AgentExisting} `{JSON (with_item AgentExisting)}.
Context `{JSON UnEnrollAgentRequest} `{JSON UpgradeAgentRequest} `{JSON unit}.

Definition CreateEnrollmentAPIKey client (request : CreateEnrollmentAPIKeyRequest) : answer CreateEnrollmentAPIKeyResponse :=
  encoding "create enrollment API key" zero request (λ reqBody,
    calling "create enrollment API key" zero client "POST" fleetEnrollmentAPIKeysAPI ∅ reqBody (λ resp,
      mret (item_of (readJSONResponse resp)))).

Definition ListAgents client : answer ListAgentsResponse :=
  calling "list agents" zero client "GET" fleetAgentsAPI ∅ "" (λ resp, mret (readJSONResponse resp)).

(** [GetAgentResponse] is [AgentExisting]. *)
Definition GetAgent client (request : GetAgentRequest) : answer AgentExisting :=
  calling "get agent" zero client "GET" (fleetAgentAPI (ga_ID request)) ∅ "" (λ resp,
    mret (item_of (readJSONResponse resp))).

(** [UnEnrollAgentResponse] and [UpgradeAgentResponse] have no fields. *)
Definition UnEnrollAgent client (request : UnEnrollAgentRequest) : answer unit :=
  encoding "unenroll agent" zero request (λ reqBody,
    calling "unenroll agent" zero client "POST" (fleetUnEnrollAgentAPI (un_ID request)) ∅ reqBody (λ resp,
      mret (readJSONResponse resp))).

Definition UpgradeAgent client (request : UpgradeAgentRequest) : answer unit :=
  encoding "upgrade agent" zero request (λ reqBody,
    calling "upgrade agent" zero client "POST" (fleetUpgradeAgentAPI (up_ID request)) ∅ reqBody (λ resp,
      mret (readJSONResponse resp))).
End agents.

Section hosts.
Context `{JSON ListFleetServerHostsRequest} `{JSON ListFleetServerHostsResponse} `{JSON FleetServerHostsResponse}.
Context `{JSON FleetServerHost} `{JSON (with_item FleetServerHost)}.

Definition ListFleetServerHosts client : answer ListFleetServerHostsResponse :=
  calling "list fleet server hosts" zero client "GET" fleetFleetServerHostsAPI ∅ "" (λ resp, mret (readJSONResponse resp)).

Definition CreateFleetServerHosts client (req : ListFleetServerHostsRequest) : answer FleetServerHostsResponse :=
  encoding "ListFleetServerHostsRequest" zero req (λ bs,
    calling "new fleet server hosts" zero client "POST" fleetFleetServerHostsAPI ∅ bs (λ resp,
      mret (readJSONResponse resp))).

Definition GetFleetServerHost client (request : GetFleetServerHostRequest) : answer FleetServerHost :=
  calling "get fleet server hosts" zero client "GET" (fleetFleetServerHostsAPI +:+ "/" +:+ gh_ID request) ∅ "" (λ resp,
    mret (item_of (readJSONResponse resp))).
End hosts.

Section packages.
Context `{JSON PackagePolicyRequest} `{JSON (with_item PackagePolicy)} `{JSON DeletePackagePolicyResponse}.

Definition InstallFleetPackage client (req : PackagePolicyRequest) : answer (with_item PackagePolicy) :=
  encoding "request" zero req (λ reqBytes,
    calling fleetPackagePoliciesAPI zero client "POST" fleetPackagePoliciesAPI ∅ reqBytes (λ resp,
      mret (readJSONResponse resp))).

Definition DeleteFleetPackage client (packagePolicyID : string) : answer DeletePackagePolicyResponse :=
  match url_JoinPath fleetPackagePoliciesAPI packagePolicyID with
  | inr e => mret (zero, Some (EjoinPath e))
  | inl u => calling u zero client "DELETE" u ∅ "" (λ resp, mret (readJSONResponse resp))
  end.
End packages.

Section proxies.
Context `{JSON ProxiesRequest} `{JSON (with_item ProxiesResponse)}.

(** Kibana refuses null headers. *)
Definition with_headers (req : ProxiesRequest) : ProxiesRequest :=
  match px_ProxyHeaders req with
  | Some _ => req
  | None => mkProxiesRequest (px_Certificate req) (px_CertificateAuthorities req) (px_CertificateKey req) (px_ID req)
      (px_Name req) (Some ∅) (px_URL req)
  end.

(** The error of the request is returned as it is. *)
Definition CreateFleetProxy client (req : ProxiesRequest) : answer (with_item ProxiesResponse) :=
  encoding "ListFleetServerHostsRequest" zero (with_headers req) (λ bs,
    r ← attempt (SendWithContext (Conn_ client) "POST" fleetProxiesAPI ∅ ∅ bs);
    match r with
    | inr e => mret (zero, Some e)
    | inl r => mret (readJSONResponse r)
    end).
End proxies.

Section tokens.
Context `{JSON UninstallTokenResponse} `{JSON UninstallTokenItem} `{JSON (with_item UninstallTokenItem)}.

Definition GetUninstallToken client (tokenID : string) : answer UninstallTokenItem :=
  match url_JoinPath fleetUninstallTokensAPI tokenID with
  | inr e => mret (zero, Some (EjoinPath e))
  | inl u =>
      calling u zero client "GET" u ∅ "" (λ resp,
        let '(res, err) := readJSONResponse (A := with_item UninstallTokenItem) resp in
        mret (match err with Some e => (zero, Some e) | None => (Item res, None) end))
  end.

(** The loop: tokens resolved so far, and those to come. *)
Fixpoint resolve_tokens client (done_ todo : list UninstallTokenItem) : answer (list UninstallTokenItem) :=
  match todo with
  | [] => mret (done_, None)
  | tok :: todo' =>
      '(tokRes, err) ← GetUninstallToken client (ut_ID tok);
      match err with
      | Some e => mret (done_ ++ todo, Some e)
      | None => resolve_tokens client (done_ ++ [tokRes]) todo'
      end
  end.

Definition token_query (policyID : string) : Values :=
  Values_Add (Values_Add (Values_Add ∅ "policyId" policyID) "page" "1") "perPage" "1000".

Definition GetPolicyUninstallTokens client (policyID : string) : answer UninstallTokenResponse :=
  calling fleetUninstallTokensAPI zero client "GET" fleetUninstallTokensAPI (token_query policyID) "" (λ resp,
    let '(r, err) := readJSONResponse resp in
    match err with
    | Some e => mret (r, Some e)
    | None =>
        '(items, err) ← resolve_tokens client [] (ur_Items r);
        mret (mkTokens items (ur_Total r) (ur_Page r) (ur_PerPage r), err)
    end).
End tokens.
End fleet.
