(* ===== verification/KibanaFacts.v ===== *)
(** * Package [kibana]: what is sent, and what is made of the answers *)
From S2P Require Import Version Paths TlsFacts TlsLoadFacts TransportTls.
From S2P Require Import Prelude GoStrings GoUtf8 GoBase64 GoNet TlsNames TlsTypes TlsVerify TlsLoad Transport.
From S2P Require Import HttpCommon HttpCommonFacts Kibana Fleet.

Open Scope string_scope.
Open Scope list_scope.
Open Scope Z_scope.

Section requests.
Context `{MapOrder} `{UrlLib} `{KibanaEnv}.
Implicit Types (h : Header) (k v : string) (conn : Connection).

(** ** Headers *)
(** The values a set of headers has for a key, under any spelling. *)
Definition values_for (h : Header) (k : string) : list string :=
  flat_map snd (filter (λ kv, CanonicalHeaderKey (fst kv) = CanonicalHeaderKey k) (map_order h)).

Lemma add_values h k k' vs :
  Header_values (foldl (λ h v, Header_Add h k v) h vs) k' =
    Header_values h k' ++ (if decide (CanonicalHeaderKey k = CanonicalHeaderKey k') then vs else []).
Proof.
  revert h. induction vs as [|v vs IH]; intros h; simpl; [by case_decide; rewrite app_nil_r|].
  rewrite IH. case_decide as He.
  - rewrite Header_values_Add by done. by rewrite <- app_assoc.
  - by rewrite Header_values_Add_ne.
Qed.

Lemma addHeaders_values out_ in_ k :
  Header_values (addHeaders out_ in_) k = Header_values out_ k ++ values_for in_ k.
Proof.
  unfold addHeaders, values_for. generalize (map_order in_). intros l. revert out_.
  induction l as [|[k' vs] l IH]; intros out_; simpl; [by rewrite app_nil_r|].
  rewrite IH, add_values. rewrite filter_cons. cbn [fst]. destruct (decide _); simpl; by rewrite ?app_nil_r, <- ?app_assoc.
Qed.

(** The credential of a connection. *)
Definition credential (conn : Connection) : list string :=
  if negb (String.eqb (ServiceToken conn) "") then ["Bearer " +:+ ServiceToken conn]
  else if negb (String.eqb (APIKey conn) "") then ["ApiKey " +:+ Encode (APIKey conn)]
  else if negb (String.eqb (Username conn) "") || negb (String.eqb (Password conn) "")
  then ["Basic " +:+ Encode (Username conn +:+ ":" +:+ Password conn)]
  else [].

Lemma authorize_values conn : Header_values (authorize conn ∅) "Authorization" = credential conn.
Proof.
  unfold authorize, credential, SetBasicAuth.
  destruct (negb (String.eqb (ServiceToken conn) "")); [by apply Header_values_Set|].
  destruct (negb (String.eqb (APIKey conn) "")); [by apply Header_values_Set|].
  by destruct (_ || _); [apply Header_values_Set|].
Qed.

Lemma authorize_other conn k : CanonicalHeaderKey k ≠ "Authorization" → Header_values (authorize conn ∅) k = [].
Proof.
  intros Hk. unfold authorize, SetBasicAuth.
  repeat (case_match; rewrite ?Header_values_Set_ne by done); done.
Qed.

Lemma content_headers_other h k :
  CanonicalHeaderKey k ∉ ["Content-Type"; "Accept"; "Kbn-Xsrf"] →
  Header_values (content_headers h) k = Header_values h k.
Proof.
  rewrite !not_elem_of_cons. intros (? & ? & ? & _). unfold content_headers.
  rewrite !Header_values_Set_ne by done. by case_match; rewrite ?Header_values_Set_ne.
Qed.

(** The values of a header of the caller that are sent. *)
Definition sent_values conn headers k : list string := values_for (Headers conn) k ++ values_for headers k.

(** A request carries the credential of the connection first (a service
    token before an API key before user and password), asks for JSON and has the
    header that protects against forgery; its content type is JSON unless the
    caller's is multipart or ndjson; every other header has the values of the
    connection and then those of the call.  Exactly one request is sent, or none
    when it cannot be made. *)
Theorem SendWithContext_request conn method path params headers body w :
  let url := addToURL (k_URL conn) path params in
  match NewRequest_err method url with
  | Some e => SendWithContext conn method path params headers body w = (w, Err (EnewRequest method e))
  | None => ∃ req,
      SendWithContext conn method path params headers body w =
        (mkWorld (k_net w) (k_sent w ++ [req]),
         match HTTP_Do (HTTP conn) (k_sent w) req with inl resp => Ok resp | inr e => Err (Edo e) end) ∧
      r_Method req = method ∧ r_URL req = url ∧ r_Body req = body ∧
      Header_values (r_Header req) "Authorization" = credential conn ++ sent_values conn headers "Authorization" ∧
      Header_values (r_Header req) "Accept" = ["application/json"] ∧
      Header_values (r_Header req) "kbn-xsrf" = ["1"] ∧
      Header_values (r_Header req) "Content-Type" =
        (if bool_decide (ParseMediaType (default "" (head (sent_values conn headers "Content-Type")))
              ∈ ["multipart/form-data"; "application/ndjson"])
         then sent_values conn headers "Content-Type" else ["application/json"]) ∧
      ∀ k, CanonicalHeaderKey k ∉ ["Authorization"; "Content-Type"; "Accept"; "Kbn-Xsrf"] →
        Header_values (r_Header req) k = sent_values conn headers k
  end.
Proof.
  cbv zeta. unfold SendWithContext. destruct (NewRequest_err _ _); [done|].
  eexists. split; [reflexivity|]. cbn [r_Method r_URL r_Body r_Header].
  unfold request_headers. set (h := addHeaders _ headers).
  assert (Hall : ∀ k, Header_values h k = Header_values (authorize conn ∅) k ++ sent_values conn headers k).
  { intros k. unfold h, sent_values. by rewrite !addHeaders_values, app_assoc. }
  conjs; try done.
  - rewrite content_headers_other by (apply (bool_decide_unpack _); reflexivity). by rewrite Hall, authorize_values.
  - unfold content_headers. rewrite Header_values_Set_ne by done. by rewrite Header_values_Set.
  - unfold content_headers. by rewrite Header_values_Set.
  - assert (Hct : Header_values h "Content-Type" = sent_values conn headers "Content-Type").
    { by rewrite Hall, authorize_other. }
    unfold content_headers. rewrite !Header_values_Set_ne by done. unfold Header_Get. rewrite Hct.
    set (ct := ParseMediaType _). clearbody ct.
    destruct (String.eqb_spec ct "multipart/form-data") as [->|Hn1].
    { cbn [negb andb]. by rewrite Hct, bool_decide_true by set_solver. }
    destruct (String.eqb_spec ct "application/ndjson") as [->|Hn2].
    { cbn [negb andb]. by rewrite Hct, bool_decide_true by set_solver. }
    cbn [negb andb].
    rewrite Header_values_Set by done. rewrite bool_decide_false by set_solver. done.
  - intros k Hk. rewrite content_headers_other by set_solver. rewrite Hall, authorize_other; [done|set_solver].
Qed.

(** [KibanaIsServerless] adds the API key to the headers of the call although
    the connection sends it already: the header is sent twice. *)
Theorem serverless_authorizes_twice client w :
  APIKey (Conn_ client) ≠ "" → ServiceToken (Conn_ client) = "" → Headers (Conn_ client) = ∅ →
  NewRequest_err "GET" (addToURL (k_URL (Conn_ client)) "/api/status" ∅) = None →
  ∃ req, k_sent (fst (KibanaIsServerless client w)) = k_sent w ++ [req] ∧
    let v := "ApiKey " +:+ Encode (APIKey (Conn_ client)) in
    Header_values (r_Header req) "Authorization" = [v; v].
Proof.
  intros Hk Ht Hh Hreq. unfold KibanaIsServerless.
  destruct (String.eqb_spec (APIKey (Conn_ client)) ""); [done|]. cbn [negb].
  set (hdr := Header_Add ∅ "Authorization" _).
  unfold Request_, Send, SendWithContext. rewrite Hreq.
  set (req := mkRequest _ _ _ _). exists req. split.
  { unfold attempt, conn_RoundTrip, mbind, SE_bind.
    destruct (HTTP_Do _ _ _) as [resp|e]; [|done]. destruct (io_ReadAll (Resp_Body resp)); [|done].
    cbn. repeat (case_match; try done). }
  cbv zeta. unfold req. cbn [r_Header]. unfold request_headers.
  rewrite content_headers_other by (apply (bool_decide_unpack _); reflexivity).
  rewrite !addHeaders_values, authorize_values, Hh.
  assert (He : values_for ∅ "Authorization" = []).
  { unfold values_for. assert (map_order (A := list string) ∅ = []) as ->; [|done].
    apply Permutation_nil_r. by rewrite map_order_perm, map_to_list_empty. }
  assert (Hv : values_for hdr "Authorization" = ["ApiKey " +:+ Encode (APIKey (Conn_ client))]).
  { unfold values_for, hdr, Header_Add, Header_values. rewrite lookup_empty. cbn [default app].
    assert (map_order (A := list string) (<[CanonicalHeaderKey "Authorization" := ["ApiKey " +:+ Encode (APIKey (Conn_ client))]]> ∅)
      = [(CanonicalHeaderKey "Authorization", ["ApiKey " +:+ Encode (APIKey (Conn_ client))])]) as ->; [|done].
    apply Permutation_singleton_r. rewrite map_order_perm. by rewrite insert_empty, map_to_list_singleton. }
  rewrite He, Hv. unfold credential. rewrite Ht. destruct (String.eqb_spec (APIKey (Conn_ client)) ""); done.
Qed.
End requests.

(** ** Making a client *)
Section new_client.
Context `{MapOrder} `{UrlLib} `{KibanaEnv} `{X509} `{NetEnv} `{Pki} (fips : bool) (d : tls_defaults).
Context (h2 : HTransport → option string) (GOOS GOARCH : string).

Definition no_user (u : url) : url := mkUrl (Scheme u) None (Host u) (Path u) (url_rest u).

Lemma url_credentials_spec config raw u username password shown :
  ClientConfig_Validate config = None →
  url_credentials config raw u = Ok (username, password, shown) →
  (cc_APIKey config ≠ "" → username = "" ∧ password = "") ∧
  (User u = None ∧ shown = raw ∧ username = cc_Username config ∧ password = cc_Password config ∨
   ∃ pw, User u = Some (username, pw) ∧ password = default "" pw ∧ shown = url_String (no_user u)).
Proof.
  unfold ClientConfig_Validate, url_credentials. intros Hv.
  destruct (User u) as [[n pw]|].
  - destruct (String.eqb_spec (cc_APIKey config) ""); simpl.
    + intros [= -> <- <-]. split; [done|]. right. eauto.
    + destruct (String.eqb_spec n ""), (String.eqb_spec (default "" pw) ""); simpl; try done.
      intros [= <- <- <-]. split; [done|]. right. eauto.
  - intros [= <- <- <-]. split; [|by left].
    intros Hk. destruct (String.eqb_spec (cc_APIKey config) ""); [done|]. simpl in Hv.
    destruct (String.eqb_spec (cc_Username config) ""), (String.eqb_spec (cc_Password config) ""); done.
Qed.

Lemma readVersion_conn client w w' client' : readVersion client w = (w', Ok client') →
  Conn_ client' = Conn_ client ∧ k_net w' = k_net w.
Proof.
  unfold readVersion, Request_, attempt, Send, SendWithContext, conn_RoundTrip, mbind, SE_bind.
  destruct (NewRequest_err _ _); [done|].
  destruct (HTTP_Do _ _ _) as [resp|]; cbn; [|done]. destruct (io_ReadAll (Resp_Body resp)); cbn; [|done].
  destruct (if 300 <=? _ then _ else _); [done|]. destruct (400 <=? _); [done|].
  destruct (decode_version _) as [[number snap]|]; [|done].
  destruct (Version.New _); try done. by intros [= <- <-].
Qed.

Lemma Client_of_headers s headers n n' c :
  Client_of fips d h2 s [WithHeaderRoundTripper headers] n = (n', Ok c) →
  ∃ rt, hc_Transport c = headerRoundTripper headers rt ∧ ∀ req, header_RoundTrip rt req = req.
Proof.
  unfold Client_of. intros Hc. apply SE_bind_Ok in Hc as (n1 & rt & Hrt & [= <- <-]).
  unfold RoundTripper_of in Hrt. simpl in Hrt.
  apply SE_bind_Ok in Hrt as (n2 & tls & _ & Hrt). apply SE_bind_Ok in Hrt as (n3 & tdl & _ & Hrt).
  apply SE_bind_Ok in Hrt as (n4 & rt0 & Hrt0 & [= _ <-]).
  apply SE_bind_Ok in Hrt0 as (n5 & t & _ & [= _ <-]). simpl. eauto.
Qed.

(** C30: A client never holds an API key together with a user name or a password,
    whether they come from the configuration or from the URL; the URL it uses
    has no credentials in it when the one it was given had; and its transport
    gives every request the user agent of the program unless the request has
    one. *)
Theorem NewClient_credentials config port name version commit buildtime w w' client :
  NewClientWithConfigDefault fips d h2 GOOS GOARCH config port name version commit buildtime w = (w', Ok client) →
  let conn := Conn_ client in
  (APIKey conn ≠ "" → Username conn = "" ∧ Password conn = "") ∧
  APIKey conn = cc_APIKey config ∧ ServiceToken conn = cc_ServiceToken config ∧
  (∃ u, User u = None ∧ url_Parse (k_URL conn) = inl u ∨ k_URL conn = url_String (no_user u)) ∧
  ∀ req, Header_Get (r_Header (header_RoundTrip (hc_Transport (HTTP conn)) req)) "User-Agent" =
    if String.eqb (Header_Get (r_Header req) "User-Agent") ""
    then useragent.UserAgent GOOS GOARCH (if String.eqb name "" then "Libbeat" else name) version commit buildtime []
    else Header_Get (r_Header req) "User-Agent".
Proof.
  unfold NewClientWithConfigDefault. destruct (ClientConfig_Validate config) eqn:Hv; [done|].
  destruct (MakeURL _ _ _ _) as [raw|]; [|done]. destruct (url_Parse raw) as [u|] eqn:Hu; [|done].
  intros Hc. apply SE_bind_Ok in Hc as (w1 & [[username password] shown] & Hcred & Hc).
  unfold lift in Hcred. injection Hcred as -> Hcred.
  apply (url_credentials_spec _ _ _ _ _ _ Hv) in Hcred as [Hkey Hshown].
  apply SE_bind_Ok in Hc as (w2 & rt & Hrt & Hc).
  unfold on_http in Hrt. destruct (Client_of _ _ _ _ _ _) as [n [c| | |]] eqn:Hcl; try done. injection Hrt as <- <-.
  apply Client_of_headers in Hcl as (rt0 & Htr & Hid).
  assert (Hconn : ∃ hs, Conn_ client =
    mkConnection shown username password (cc_APIKey config) (cc_ServiceToken config) hs c).
  { destruct (negb (cc_IgnoreVersion config)).
    - unfold map_err in Hc. destruct (readVersion _ _) as [w3 [cl| | |]] eqn:Hr; try done. injection Hc as <- <-.
      apply readVersion_conn in Hr as [-> _]. by eexists.
    - injection Hc as <- <-. by eexists. }
  destruct Hconn as [hs ->]. cbn [APIKey Username Password ServiceToken k_URL HTTP]. conjs; try done.
  - exists u. destruct Hshown as [(? & -> & _)|(pw & _ & _ & ->)]; [by left|by right].
  - intros req. rewrite Htr. cbn [header_RoundTrip]. rewrite Hid. cbn [r_Header].
    apply (add_headers_Get _ _ _ "User-Agent"); [| |done].
    + assert (map_order (A := string) {["User-Agent" := useragent.UserAgent GOOS GOARCH
        (if String.eqb name "" then "Libbeat" else name) version commit buildtime []]} =
        [("User-Agent", useragent.UserAgent GOOS GOARCH (if String.eqb name "" then "Libbeat" else name) version commit buildtime [])]) as ->.
      { apply Permutation_singleton_r. by rewrite map_order_perm, map_to_list_singleton. }
      apply NoDup_singleton.
    + apply elem_of_map_order. by rewrite lookup_singleton_eq.
Qed.

(** Conflicting credentials are refused before anything is sent. *)
Theorem NewClient_conflict config port name version commit buildtime w :
  cc_APIKey config ≠ "" → cc_Username config ≠ "" ∨ cc_Password config ≠ "" →
  NewClientWithConfigDefault fips d h2 GOOS GOARCH config port name version commit buildtime w =
    (w, Err EcredentialsConflict).
Proof.
  intros Hk Hup. unfold NewClientWithConfigDefault, ClientConfig_Validate.
  destruct (String.eqb_spec (cc_APIKey config) ""); [done|].
  destruct (String.eqb_spec (cc_Username config) ""), (String.eqb_spec (cc_Password config) ""); naive_solver.
Qed.
End new_client.

(** ** The Fleet API *)
Section fleet.
Context `{MapOrder} `{UrlLib} `{KibanaEnv} `{AnyValue}.
Context (url_JoinPath : string → string → string + string).

(** *** Uninstall tokens, against a server that stores them *)
Context `{JSON UninstallTokenResponse} `{JSON UninstallTokenItem} `{JSON (with_item UninstallTokenItem)}.

(** What the server promises to a client: the same listing for a policy and the
    stored token for an identifier, whatever was asked before. *)
Class TokenServer (client : Client) (policyID : string) := {
  listing : UninstallTokenResponse;
  stored : string → option UninstallTokenItem;
  not_found : kerror;
  token_url : string → string;
  server_join id : url_JoinPath fleetUninstallTokensAPI id = inl (token_url id);
  server_valid url : NewRequest_err "GET" url = None;
  server_lists hist req :
    r_Method req = "GET" →
    r_URL req = addToURL (k_URL (Conn_ client)) fleetUninstallTokensAPI (token_query policyID) →
    ∃ resp, HTTP_Do (HTTP (Conn_ client)) hist req = inl resp ∧ readJSONResponse resp = (listing, None);
  server_token hist req id :
    r_Method req = "GET" → r_URL req = addToURL (k_URL (Conn_ client)) (token_url id) ∅ →
    ∃ resp, HTTP_Do (HTTP (Conn_ client)) hist req = inl resp ∧
      match stored id with
      | Some t => readJSONResponse resp = (mkItem t, None)
      | None => snd (readJSONResponse (A := with_item UninstallTokenItem) resp) = Some not_found
      end
}.

Section server.
Context (client : Client) (policyID : string) `{!TokenServer client policyID}.

(** The tokens of a listing: each replaced by the stored one, up to the first
    that is not stored. *)
Fixpoint resolved (l : list UninstallTokenItem) : list UninstallTokenItem * option kerror :=
  match l with
  | [] => ([], None)
  | tok :: l' =>
      match stored (ut_ID tok) with
      | None => (l, Some not_found)
      | Some t => (t :: fst (resolved l'), snd (resolved l'))
      end
  end.

Definition sent_urls (w : kworld) : list string := map r_URL (k_sent w).

(** The identifiers that are asked for. *)
Fixpoint asked (l : list UninstallTokenItem) : list string :=
  match l with
  | [] => []
  | tok :: l' => ut_ID tok :: match stored (ut_ID tok) with None => [] | Some _ => asked l' end
  end.

Definition url_of (id : string) : string := addToURL (k_URL (Conn_ client)) (token_url id) ∅.

Lemma GetUninstallToken_run id w :
  ∃ w' x, GetUninstallToken url_JoinPath client id w = (w', Ok x) ∧ sent_urls w' = sent_urls w ++ [url_of id] ∧
    match stored id with Some t => x = (t, None) | None => snd x = Some not_found end.
Proof.
  unfold GetUninstallToken. rewrite server_join. unfold calling, SendWithContext, attempt, conn_RoundTrip, mbind, SE_bind.
  rewrite server_valid. set (req := mkRequest _ _ _ _).
  destruct (server_token (k_sent w) req id eq_refl eq_refl) as (resp & -> & Hresp). cbn.
  destruct (readJSONResponse resp) as [v err] eqn:Hr. eexists _, _. split; [reflexivity|]. split.
  { unfold sent_urls. simpl. by rewrite map_app. }
  destruct (stored id) as [t|]; [by injection Hresp as -> ->|]. simpl in Hresp. by rewrite Hresp.
Qed.

Lemma resolve_tokens_run todo : ∀ done_ w, ∃ w',
  resolve_tokens url_JoinPath client done_ todo w = (w', Ok (done_ ++ fst (resolved todo), snd (resolved todo))) ∧
  sent_urls w' = sent_urls w ++ map url_of (asked todo).
Proof.
  induction todo as [|tok todo IH]; intros done_ w; simpl.
  { exists w. by rewrite !app_nil_r. }
  destruct (GetUninstallToken_run (ut_ID tok) w) as (w1 & x & Hrun & Hs & Hx).
  rewrite (SE_bind_run _ _ _ _ _ Hrun). destruct (stored (ut_ID tok)) as [t|].
  - subst x. destruct (IH (done_ ++ [t]) w1) as (w' & Hr & Hs'). exists w'. split.
    + rewrite Hr. simpl. by rewrite <- app_assoc.
    + rewrite Hs', Hs. by rewrite <- app_assoc.
  - destruct x as [v err]. simpl in Hx. subst err. exists w1. split; [done|]. by rewrite Hs.
Qed.

(** Against a server that stores tokens, the call returns: it asks for the
    listing of the policy, then for each token in turn, and answers the listing
    with every token replaced by the stored one.  When one is missing it stops
    there, with the error and the tokens resolved so far. *)
Theorem GetPolicyUninstallTokens_resolves w :
  ∃ w', GetPolicyUninstallTokens url_JoinPath client policyID w =
      (w', Ok (mkTokens (fst (resolved (ur_Items listing))) (ur_Total listing) (ur_Page listing) (ur_PerPage listing),
               snd (resolved (ur_Items listing)))) ∧
    sent_urls w' = sent_urls w ++
      addToURL (k_URL (Conn_ client)) fleetUninstallTokensAPI (token_query policyID) ::
      map url_of (asked (ur_Items listing)).
Proof.
  unfold GetPolicyUninstallTokens, calling, SendWithContext.
  rewrite server_valid. set (req := mkRequest _ _ _ _).
  destruct (server_lists (k_sent w) req eq_refl eq_refl) as (resp & Hdo & Hresp).
  unfold attempt, conn_RoundTrip. unfold mbind at 1, SE_bind at 1. rewrite Hdo. cbv beta iota. rewrite Hresp.
  set (w1 := mkWorld _ _). destruct (resolve_tokens_run (ur_Items listing) [] w1) as (w' & Hr & Hs).
  exists w'. split; [by rewrite (SE_bind_run _ _ _ _ _ Hr)|]. rewrite Hs. unfold sent_urls, w1. simpl.
  by rewrite map_app, <- app_assoc.
Qed.
End server.
End fleet.

(** ** Truncation *)
Lemma replace_newlines_app a b : replace_newlines (a +:+ b) = replace_newlines a +:+ replace_newlines b.
Proof. induction a as [|x a IH]; simpl; [done|]. by rewrite IH. Qed.

Lemma lacks_replace s : lacks "010" (replace_newlines s) = true.
Proof.
  induction s as [|a s IH]; [done|]. simpl. rewrite IH, andb_true_r.
  destruct (Ascii.eqb_spec a "010") as [->|Hne]; [done|]. destruct (Ascii.eqb_spec a "010"); done.
Qed.

Lemma replace_lacks s : lacks "010" s = true → replace_newlines s = s.
Proof.
  induction s as [|a s IH]; [done|]. simpl. intros [Ha%negb_true_iff Hs]%andb_true_iff. by rewrite Ha, (IH Hs).
Qed.

Lemma length_replace s : String.length (replace_newlines s) = String.length s.
Proof. induction s as [|a s IH]; simpl; [done|]. by rewrite IH. Qed.

Lemma length_EncodeRune r : (String.length (EncodeRune r) ≤ 4)%nat.
Proof. unfold EncodeRune. repeat case_match; simpl; lia. Qed.

Lemma length_encode rs : (String.length (encode rs) ≤ 4 * length rs)%nat.
Proof.
  induction rs as [|r rs IH]; simpl; [lia|]. rewrite length_sapp. pose proof (length_EncodeRune r). lia.
Qed.

(** What a log line quotes of a response has no line breaks and at most 250
    runes and the mark of truncation, so at most 1060 bytes, whatever the server
    sent; a valid text of at most 250 runes without line breaks is quoted as it
    is. *)
Theorem truncateString_bounded b :
  lacks "010" (truncateString b) = true ∧ (String.length (truncateString b) ≤ 1060)%nat ∧
  ∀ rs, b = encode rs → Forall valid_rune rs → (length rs ≤ 250)%nat → lacks "010" b = true → truncateString b = b.
Proof.
  unfold truncateString. split; [apply lacks_replace|]. split.
  - rewrite length_replace. etransitivity; [apply length_encode|].
    destruct (Nat.ltb_spec maxLength (length (range_string b).*2)) as [Hlt|Hle]; unfold maxLength in *; [|lia].
    rewrite length_app, length_take.
    assert (length (range_string "... (truncated)").*2 = 15%nat) as -> by (vm_compute; reflexivity). lia.
  - intros rs -> Hv Hlen Hl. rewrite range_string_encode by done.
    destruct (Nat.ltb_spec maxLength (length rs)); [unfold maxLength in *; lia|]. by apply replace_lacks.
Qed.

(** ** Witnesses and departures *)
Section toy.
#[local] Instance toy_any : AnyValue := unit.
#[local] Instance toy_url : UrlLib := {|
  url_Parse s :=
    if HasPrefix s "http://" then
      let r := sdrop 7 s in
      match index_nat r "/" with
      | Some i => inl (mkUrl "http" None (stake i r) (sdrop i r) "")
      | None => inl (mkUrl "http" None r "" "")
      end
    else inr "unsupported";
  url_String u := Scheme u +:+ "://" +:+ Host u +:+ Path u
|}.
Definition tokens_at : string := "http://kb/api/fleet/uninstall_tokens".
Definition list_url : string := tokens_at +:+ "?" +:+ Values_Encode (token_query "p1").
(** A server that lists tokens, of which it does not have "b"; other requests
    are answered with their URL, those for a broken policy with an error that
    has no message. *)
#[local] Instance toy_kibana : KibanaEnv := {|
  NewRequest_err _ _ := None;
  HTTP_Do _ _ req :=
    inl (if String.eqb (r_URL req) "http://kb/api/fleet/agent_policies/broken" then mkResponse 500 "500" (-1) (mkBody "{}" None)
         else if String.eqb (r_URL req) (tokens_at +:+ "/b") then mkResponse 404 "404" (-1) (mkBody "missing" None)
         else mkResponse 200 "200 OK" (-1) (mkBody (r_URL req) None));
  ParseMediaType s := s;
  decode_error s := inl (if String.eqb s "{}" then ("", []) else (s, []));
  decode_message s := inr "not used";
  decode_version s := inl ("8.15.0", false);
  decode_flavor s := inl "stateful";
  multipart_boundary _ := "b"
|}.
Definition token (id value : string) : UninstallTokenItem := mkToken id "p1" value "".
#[local] Instance json_tokens : JSON UninstallTokenResponse := {|
  zero := mkTokens [] 0 0 0; marshal _ := inr "not used";
  unmarshal s := (mkTokens [token "a" ""; token "b" ""; token "c" ""] 3 1 1000, None);
  decode b := (mkTokens [] 0 0 0, None)
|}.
#[local] Instance json_token : JSON UninstallTokenItem := {|
  zero := token "" ""; marshal _ := inr "not used"; unmarshal s := (token "" s, None); decode b := (token "" "", None)
|}.
#[local] Instance json_token_item : JSON (with_item UninstallTokenItem) := {|
  zero := mkItem (token "" ""); marshal _ := inr "not used"; unmarshal s := (mkItem (token "" s), None);
  decode b := (mkItem (token "" ""), None)
|}.
Definition toy_policy : PolicyResponse :=
  mkPolicyResponse (mkAgentPolicy "" "" "" "" [] "" "" "" "" 0 0 [] None false) 0 "" 0 false [].
#[local] Instance json_policy : JSON PolicyResponse := {|
  zero := toy_policy; marshal _ := inr "not used"; unmarshal s := (toy_policy, None); decode b := (toy_policy, None)
|}.
#[local] Instance json_policy_item : JSON (with_item PolicyResponse) := {|
  zero := mkItem toy_policy; marshal _ := inr "not used"; unmarshal s := (mkItem toy_policy, None);
  decode b := (mkItem toy_policy, None)
|}.

Definition toy_transport : HTransport :=
  mkTransport (λ _ _, fail ErrNotConnected) (λ _ _, fail ErrNotConnected) zero_Config false None None 0 0 false 0 0 0.
Definition toy_conn : Connection :=
  mkConnection "http://kb" "elastic" "changeme" "" "" ∅ (mkHttpClient (HTTP1 toy_transport) 0).
Definition toy_client : Client := mkKibanaClient toy_conn (Version.mkV "" 0 0 0 "").
Definition toy_world : kworld := mkWorld (mkNet 0 [] (mkStore [] []) [] []) [].
Definition toy_join (base elem : string) : string + string := inl (base +:+ "/" +:+ elem).

(** A request on behalf of [toy_client]. *)
Example send_runs :
  let '(w, r) := SendWithContext toy_conn "GET" "/api/status" ∅ {["x-a" := ["1"; "2"]]} "" toy_world in
  map (λ req, (r_URL req, Header_values (r_Header req) "Authorization", Header_values (r_Header req) "X-A")) (k_sent w) =
    [("http://kb/api/status", ["Basic ZWxhc3RpYzpjaGFuZ2VtZQ=="], ["1"; "2"])].
Proof. vm_compute. reflexivity. Qed.

#[local] Instance toy_server : TokenServer toy_join toy_client "p1".
Proof.
  refine {|
    listing := mkTokens [token "a" ""; token "b" ""; token "c" ""] 3 1 1000;
    stored id := if String.eqb id "b" then None else Some (token "" (tokens_at +:+ "/" +:+ id));
    not_found := Eapi "missing" [];
    token_url id := "/api/fleet/uninstall_tokens/" +:+ id
  |}.
  - done.
  - done.
  - intros hist [m u h b] _ Hu. cbn [r_URL] in Hu. subst u. eexists. split; [vm_compute; reflexivity|]. reflexivity.
  - intros hist [m u h b] id _ Hu. cbn [r_URL] in Hu.
    assert (u = tokens_at +:+ "/" +:+ id) as -> by (rewrite Hu; reflexivity).
    eexists. split; [reflexivity|]. cbn [r_URL].
    change (String.eqb (tokens_at +:+ "/" +:+ id) (tokens_at +:+ "/b")) with (String.eqb id "b").
    change (String.eqb (tokens_at +:+ "/" +:+ id) "http://kb/api/fleet/agent_policies/broken") with false.
    by destruct (String.eqb id "b").
Defined.

Lemma GetPolicyUninstallTokens_resolves_witness :
  ∃ w', GetPolicyUninstallTokens toy_join toy_client "p1" toy_world =
      (w', Ok (mkTokens [token "" (tokens_at +:+ "/a"); token "b" ""; token "c" ""] 3 1 1000, Some (Eapi "missing" []))) ∧
    sent_urls w' = [list_url; tokens_at +:+ "/a"; tokens_at +:+ "/b"].
Proof. exact (GetPolicyUninstallTokens_resolves toy_join toy_client "p1" toy_world). Defined.

#[local] Existing Instance TlsFacts.toy.
#[local] Existing Instance TransportTls.toy_net.
#[local] Existing Instance TlsLoadFacts.toy_pki.
Definition toy_config : ClientConfig :=
  mkClientConfig "http" "http://kb" "" "" "" "" "key" "" ∅ true DefaultHTTPTransportSettings.
Definition toy_new : kworld * res kerror Client :=
  NewClientWithConfigDefault false defaults (λ _, None) "linux" "amd64" toy_config 5601 "" "8.15.0" "abc" "now" toy_world.
Definition made_client : Client := match snd toy_new with Ok c => c | _ => toy_client end.

Lemma NewClient_credentials_witness :
  let conn := Conn_ made_client in
  (APIKey conn ≠ "" → Username conn = "" ∧ Password conn = "") ∧
  APIKey conn = "key" ∧ ServiceToken conn = "" ∧
  (∃ u, User u = None ∧ url_Parse (k_URL conn) = inl u ∨ k_URL conn = url_String (no_user u)) ∧
  ∀ req, Header_Get (r_Header (header_RoundTrip (hc_Transport (HTTP conn)) req)) "User-Agent" =
    if String.eqb (Header_Get (r_Header req) "User-Agent") ""
    then useragent.UserAgent "linux" "amd64" "Libbeat" "8.15.0" "abc" "now" []
    else Header_Get (r_Header req) "User-Agent".
Proof.
  exact (NewClient_credentials false defaults (λ _, None) "linux" "amd64" toy_config 5601 "" "8.15.0" "abc" "now" toy_world
    (fst toy_new) made_client eq_refl).
Defined.

Example made_client_agent : useragent.UserAgent "linux" "amd64" "Libbeat" "8.15.0" "abc" "now" [] =
  "Elastic-Libbeat/8.15.0 (linux; amd64; abc; now)" ∧ k_URL (Conn_ made_client) = "http://kb:5601".
Proof. vm_compute. done. Qed.

(** An error status with a JSON body that has no message is returned as an
    empty policy without error. *)
Example error_status_reported_as_success :
  snd (GetPolicy toy_client "broken" toy_world) = Ok (toy_policy, None).
Proof. vm_compute. reflexivity. Qed.

(** The path of a space is dropped when the host has a path of its own. *)
Example space_dropped :
  MakeURL "http" (Paths.filepath_Join [""; "s"; "ops"]) "http://kb:5601/base" 5601 = inl "http://kb:5601/base" ∧
  MakeURL "http" (Paths.filepath_Join ["/base"; "s"; "ops"]) "http://kb:5601" 5601 = inl "http://kb:5601/base/s/ops".
Proof. vm_compute. done. Qed.
End toy.
