(* ===== verification/LogpLogger.v ===== *)
(** * Package [logp]: the methods of a logger (src/logp/logger.go, global.go)

    Every method builds a message and writes it to the cores of the logger that
    take the entry (Logp); [Fatal] then ends the process, [Panic] panics, and
    [DPanic] panics in development.  How values are printed and how loose
    key-value pairs become fields is zap's.  Module LogpSinks: the cores for the
    system logs. *)
From S2P Require Import Prelude GoStrings Rotator Logp.

Open Scope string_scope.
Open Scope list_scope.
Open Scope Z_scope.

Definition zapPanic : Z := 4.
Definition zapFatal : Z := 5.

Section methods.
(** The arguments of the methods; a field is one of them. *)
Context (write_error : destination → option string).
Context {Arg : Type} (Sprint : list Arg → string) (Sprintf : string → list Arg → string)
        (sweetenFields : list Arg → list Field) (text : string → Arg) (field : Field → Arg) (development : bool).

Abbreviation RM := (SE lstate Z).

(** The entry is written, then the level takes its effect: an exit code, a panic,
    or nothing. *)
Definition sugar_log (lvl : Z) (msg : string) (fields : list Field) (l : Logger) : RM unit := λ st,
  let st' := zap_log write_error (logger l) lvl msg fields st in
  if lvl =? zapFatal then (st', Err 1)
  else if lvl =? zapPanic then (st', Panic (PExplicit msg))
  else if (lvl =? zapDPanic) && development then (st', Panic (PExplicit msg))
  else (st', Ok tt).

Definition Logger_Debug (args : list Arg) := sugar_log zapDebug (Sprint args) [].
Definition Logger_Info (args : list Arg) := sugar_log zapInfo (Sprint args) [].
Definition Logger_Warn (args : list Arg) := sugar_log zapWarn (Sprint args) [].
Definition Logger_Error (args : list Arg) := sugar_log zapError (Sprint args) [].
Definition Logger_Fatal (args : list Arg) := sugar_log zapFatal (Sprint args) [].
Definition Logger_Panic (args : list Arg) := sugar_log zapPanic (Sprint args) [].
Definition Logger_DPanic (args : list Arg) := sugar_log zapDPanic (Sprint args) [].

Definition Logger_IsDebug (l : Logger) (st : lstate) : bool :=
  match zap_Check (logger l) zapDebug "" st with [] => false | _ => true end.

Definition Logger_Debugf (format : string) (args : list Arg) := sugar_log zapDebug (Sprintf format args) [].
Definition Logger_Infof (format : string) (args : list Arg) := sugar_log zapInfo (Sprintf format args) [].
Definition Logger_Warnf (format : string) (args : list Arg) := sugar_log zapWarn (Sprintf format args) [].
Definition Logger_Errorf (format : string) (args : list Arg) := sugar_log zapError (Sprintf format args) [].
Definition Logger_Fatalf (format : string) (args : list Arg) := sugar_log zapFatal (Sprintf format args) [].
Definition Logger_Panicf (format : string) (args : list Arg) := sugar_log zapPanic (Sprintf format args) [].
Definition Logger_DPanicf (format : string) (args : list Arg) := sugar_log zapDPanic (Sprintf format args) [].

Definition Logger_Debugw (msg : string) (kvs : list Arg) := sugar_log zapDebug msg (sweetenFields kvs).
Definition Logger_Infow (msg : string) (kvs : list Arg) := sugar_log zapInfo msg (sweetenFields kvs).
Definition Logger_Warnw (msg : string) (kvs : list Arg) := sugar_log zapWarn msg (sweetenFields kvs).
Definition Logger_Errorw (msg : string) (kvs : list Arg) := sugar_log zapError msg (sweetenFields kvs).
Definition Logger_Fatalw (msg : string) (kvs : list Arg) := sugar_log zapFatal msg (sweetenFields kvs).
Definition Logger_Panicw (msg : string) (kvs : list Arg) := sugar_log zapPanic msg (sweetenFields kvs).
Definition Logger_DPanicw (msg : string) (kvs : list Arg) := sugar_log zapDPanic msg (sweetenFields kvs).

(** [recovered] is what [recover()] returns, as the field [zap.Any] makes of it;
    [stack] is the field of [zap.Stack]. *)
Definition recover_text (msg : string) : string := msg +:+ ". Recovering, but please report this.".

Definition Logger_Recover (recovered : option Field) (stack : Field) (msg : string) (l : Logger) : RM unit :=
  match recovered with
  | None => mret tt
  | Some r => Logger_Error [text (recover_text msg); field r; field stack] l
  end.

(** ** global.go *)
Definition WTF (format : string) (args : list Arg) : RM unit := λ st,
  let msg := Sprintf format args in
  (zap_log write_error (globalLogger (current st)) zapPanic msg [] st, Panic (PExplicit msg)).

Definition Recover (recovered : option Field) (stack : Field) (msg : string) : RM unit :=
  match recovered with
  | None => mret tt
  | Some r => modify (λ st, zap_log write_error (globalLogger (current st)) zapError (recover_text msg) [r; stack] st)
  end.

(** ** Facts *)
(** A method of any style writes one entry of its level, with the fields bound to
    the logger and those of the call, to the cores that take it; only [Fatal],
    [Panic] and, in development, [DPanic] do not return. *)
Theorem sugar_log_effect lvl msg fields l st :
  (sugar_log lvl msg fields l st).1 = zap_log write_error (logger l) lvl msg fields st ∧
  ((sugar_log lvl msg fields l st).2 = Ok tt ↔
   lvl ≠ zapFatal ∧ lvl ≠ zapPanic ∧ (lvl = zapDPanic → development = false)).
Proof.
  unfold sugar_log. destruct (Z.eqb_spec lvl zapFatal); [split; [done|]; naive_solver|].
  destruct (Z.eqb_spec lvl zapPanic); [split; [done|]; naive_solver|].
  destruct (Z.eqb_spec lvl zapDPanic), development; cbn; (split; [done|]; naive_solver).
Qed.

(** [Logger.Recover] prints the recovered value into the message; the function
    [Recover] of the package records it as a field. *)
Theorem Logger_Recover_has_no_fields r stack msg l st :
  (Logger_Recover (Some r) stack msg l st).1 =
    zap_log write_error (logger l) zapError (Sprint [text (recover_text msg); field r; field stack]) [] st ∧
  (Recover (Some r) stack msg st).1 =
    zap_log write_error (globalLogger (current st)) zapError (recover_text msg) [r; stack] st.
Proof. done. Qed.

End methods.

(** ** Package [logp]: the cores for syslog and the Windows event log
    (src/logp/syslog_unix.go, src/logp/eventlog_windows.go)

    zap's encoder and the two system logs are parameters.  Both cores refine the
    output of Logp.v with the destinations [Syslog] and [EventLog]: what reaches
    the system log is the rendering of what that output writes. *)
From S2P Require Import GoStrings GoUtf8 Rotator Paths TlsNames Logp LogpFacts.

Module LogpSinks.
Open Scope string_scope.
Open Scope list_scope.
Open Scope Z_scope.

(** [zapcore.Encoder]: a clone encodes like the original. *)
Class ZapEncoder := { EncodeEntry : Entry → list Field → res string string }.

Inductive sink_error :=
| Ewriter (msg : string)
| Eencode (msg : string)
| Elevel (l : Z)
| Esetup (msg : string)
| Eopen (msg : string)
| EappName.

Inductive severity := LOG_CRIT | LOG_ERR | LOG_WARNING | LOG_INFO | LOG_DEBUG.
Inductive event_kind := EventError | EventWarning | EventInfo.

(** ** syslog_unix.go *)
Definition tab : ascii := "009"%char.

(** The loop of [replaceTabsWithSpaces] from the count so far. *)
Fixpoint replace_tabs (b : string) (n count : Z) : string :=
  match b with
  | EmptyString => EmptyString
  | String v b =>
      if bool_decide (v = tab) then
        let count := count + 1 in
        if (0 <=? n) && (n <=? count) then String " " b else String " " (replace_tabs b n count)
      else String v (replace_tabs b n count)
  end.

Definition replaceTabsWithSpaces (b : string) (n : Z) : string := replace_tabs b n 0.

(** The method of the writer for a level; [None] is the default case. *)
Definition syslog_severity (l : Z) : option severity :=
  if l =? zapDebug then Some LOG_DEBUG
  else if l =? zapInfo then Some LOG_INFO
  else if l =? zapWarn then Some LOG_WARNING
  else if l =? zapError then Some LOG_ERR
  else if (l =? zapDPanic) || (l =? zapPanic) || (l =? zapFatal) then Some LOG_CRIT
  else None.

(** The level cell, the fields given to [With]. *)
Record sinkCore := mkSinkCore { sc_level : nat; sc_fields : list Field }.

(** What the system log got, latest first. *)
Record syslog := mkSyslog { sys_lines : list (severity * string); sys_closed : bool }.
Record evlog := mkEvlog { ev_lines : list (event_kind * Z * string); ev_closed : bool }.

Section sinks.
Context `{ZapEncoder} `{GoLower}.
(** The errors of the two writers, for a message. *)
Context (syslog_error : severity → string → option string) (event_error : event_kind → string → option string).

(** [opened] is the error of [syslog.New]. *)
Definition newSyslog (opened : option string) (enab : nat) : res sink_error sinkCore :=
  match opened with Some e => Err (Eopen e) | None => Ok (mkSinkCore enab []) end.

Definition sink_Clone (c : sinkCore) : sinkCore := mkSinkCore (sc_level c) (sc_fields c).

Definition sink_With (fields : list Field) (c : sinkCore) : sinkCore :=
  let clone := sink_Clone c in mkSinkCore (sc_level clone) (sc_fields clone ++ fields).

(** Whether the core is added to the checked entry. *)
Definition sink_Check (lv : list Z) (c : sinkCore) (ent : Entry) : bool := cell_enabled lv (sc_level c) (ent_Level ent).

Definition syslog_Write (c : sinkCore) (ent : Entry) (fields : list Field) : SE syslog sink_error unit := λ w,
  match EncodeEntry ent fields with
  | Ok buffer =>
      let msg := replaceTabsWithSpaces buffer 4 in
      match syslog_severity (ent_Level ent) with
      | Some sev =>
          match syslog_error sev msg with
          | Some e => (w, Err (Ewriter e))
          | None => (mkSyslog ((sev, msg) :: sys_lines w) (sys_closed w), Ok tt)
          end
      | None => (w, Err (Elevel (ent_Level ent)))
      end
  | Err e => (w, Err (Eencode e))
  | Panic p => (w, Panic p)
  | OutOfFuel => (w, OutOfFuel)
  end.

Definition sink_Sync (c : sinkCore) : res sink_error unit := Ok tt.

(** [closing] is the error of the writer. *)
Definition syslog_Close (c : sinkCore) (closing : option string) : SE syslog sink_error unit := λ w,
  match closing with
  | Some e => (w, Err (Ewriter e))
  | None => (mkSyslog (sys_lines w) true, Ok tt)
  end.

(** ** eventlog_windows.go *)
Definition eventID : Z := 100.
Definition alreadyExistsMsg : string := "registry key already exists".

(** [title] is [cases.Title(language.English)], [install] and [open_log] the errors of
    the calls for an application; the answer has the name the log is opened with. *)
Definition newEventLog (title : string → string) (install open_log : string → option string)
    (appName : string) (enab : nat) : res sink_error (sinkCore * string) :=
  if String.eqb appName "" then Err EappName
  else
    let appName := title (ToLower appName) in
    let opened := match open_log appName with Some e => Err (Eopen e) | None => Ok (mkSinkCore enab [], appName) end in
    match install appName with
    | Some e => if Contains e alreadyExistsMsg then opened else Err (Esetup e)
    | None => opened
    end.

Definition event_severity (l : Z) : option event_kind :=
  if (l =? zapDebug) || (l =? zapInfo) then Some EventInfo
  else if l =? zapWarn then Some EventWarning
  else if (l =? zapError) || (l =? zapDPanic) || (l =? zapPanic) || (l =? zapFatal) then Some EventError
  else None.

Definition event_Write (c : sinkCore) (ent : Entry) (fields : list Field) : SE evlog sink_error unit := λ w,
  match EncodeEntry ent fields with
  | Ok msg =>
      match event_severity (ent_Level ent) with
      | Some k =>
          match event_error k msg with
          | Some e => (w, Err (Ewriter e))
          | None => (mkEvlog ((k, eventID, msg) :: ev_lines w) (ev_closed w), Ok tt)
          end
      | None => (w, Err (Elevel (ent_Level ent)))
      end
  | Err e => (w, Err (Eencode e))
  | Panic p => (w, Panic p)
  | OutOfFuel => (w, OutOfFuel)
  end.

Definition event_Close (c : sinkCore) (closing : option string) : SE evlog sink_error unit := λ w,
  match closing with
  | Some e => (w, Err (Ewriter e))
  | None => (mkEvlog (ev_lines w) true, Ok tt)
  end.

(** ** Facts *)

(** Calls of a core and of the cores [With] made of it: the last one made logs. *)
Inductive sink_call := CWith (fields : list Field) | CLog (ent : Entry) (fields : list Field).

Fixpoint sink_run {L} (write : sinkCore → Entry → list Field → SE L sink_error unit) (lv : list Z)
    (c : sinkCore) (calls : list sink_call) (w : L) : L :=
  match calls with
  | [] => w
  | CWith fields :: calls => sink_run write lv (sink_With fields c) calls w
  | CLog ent fields :: calls =>
      sink_run write lv c calls (if sink_Check lv c ent then (write c ent fields w).1 else w)
  end.

(** The same calls of an output of Logp.v. *)
Fixpoint output_run (c : Core) (calls : list sink_call) (st : lstate) : lstate :=
  match calls with
  | [] => st
  | CWith fields :: calls => output_run (core_With fields c) calls st
  | CLog ent fields :: calls =>
      output_run c calls (foldl (λ st core, fst (core_Write (λ _, None) ent fields core st)) st
                            (core_Check (cells st) ent c []))
  end.

(** *** Tabs *)
Fixpoint tabs (s : string) : Z :=
  match s with EmptyString => 0 | String v s => (if bool_decide (v = tab) then 1 else 0) + tabs s end.
Fixpoint untab (s : string) : string :=
  match s with EmptyString => EmptyString | String v s => String (if bool_decide (v = tab) then " "%char else v) (untab s) end.

Lemma tabs_nonneg s : 0 ≤ tabs s.
Proof. induction s as [|v s IH]; simpl; [done|]. case_bool_decide; lia. Qed.

Lemma replace_tabs_spec b n count :
  0 ≤ count < n →
  ∃ p q, b = p +:+ q ∧ replace_tabs b n count = untab p +:+ q ∧ count + tabs p ≤ n ∧ (q = "" ∨ count + tabs p = n).
Proof.
  revert count. induction b as [|v b IH]; intros count Hc; simpl.
  { exists "", "". simpl. conjs; [done..|lia|by left]. }
  case_bool_decide as Hv.
  - destruct (Z.leb_spec 0 n); [|lia]. destruct (Z.leb_spec n (count + 1)); simpl.
    + exists (String v ""), b. simpl. rewrite bool_decide_eq_true_2 by done. conjs; [done..|lia|right; lia].
    + destruct (IH (count + 1)) as (p & q & -> & -> & Hle & Hor); [lia|]. exists (String v p), q. simpl.
      rewrite bool_decide_eq_true_2 by done. conjs; [done..|lia|]. destruct Hor; [by left|right; lia].
  - destruct (IH count Hc) as (p & q & -> & -> & Hle & Hor). exists (String v p), q. simpl.
    rewrite bool_decide_eq_false_2 by done. conjs; [done..|lia|]. destruct Hor; [by left|right; lia].
Qed.

(** With a positive limit the first that many tabs become spaces and nothing else
    changes. *)
Theorem replaceTabsWithSpaces_spec (b : string) (n : Z) :
  0 < n → ∃ p q, b = p +:+ q ∧ replaceTabsWithSpaces b n = untab p +:+ q ∧ tabs p ≤ n ∧ (q = "" ∨ tabs p = n).
Proof. intros Hn. by apply (replace_tabs_spec b n 0). Qed.

(** What syslog and the event log take for each level of zap, from debug (-1)
    to fatal (5). *)
Definition syslog_levels : list (Z * severity) :=
  [(-1, LOG_DEBUG); (0, LOG_INFO); (1, LOG_WARNING); (2, LOG_ERR); (3, LOG_CRIT); (4, LOG_CRIT); (5, LOG_CRIT)].
Definition event_levels : list (Z * event_kind) :=
  [(-1, EventInfo); (0, EventInfo); (1, EventWarning); (2, EventError); (3, EventError); (4, EventError);
   (5, EventError)].

(** The text with its first four tabs as spaces and nothing else changed. *)
Definition four_tabs_spaced (b msg : string) : Prop :=
  ∃ p q, b = p +:+ q ∧ msg = untab p +:+ q ∧ tabs p ≤ 4 ∧ (q = "" ∨ tabs p = 4).

(** The line an entry is to become. *)
Definition syslog_takes (d : delivery) (line : severity * string) : Prop :=
  let '(_, ent, fields) := d in
  ∃ text, EncodeEntry ent fields = Ok text ∧ (ent_Level ent, line.1) ∈ syslog_levels ∧
    four_tabs_spaced text line.2 ∧ syslog_error line.1 line.2 = None.
Definition event_takes (d : delivery) (line : event_kind * Z * string) : Prop :=
  let '(_, ent, fields) := d in
  ∃ k text, line = (k, 100, text) ∧ EncodeEntry ent fields = Ok text ∧ (ent_Level ent, k) ∈ event_levels ∧
    event_error k text = None.

(** A log that holds, in their order, one line for each entry that has one, and
    nothing else. *)
Inductive holds_lines {A} (takes : delivery → A → Prop) : list delivery → list A → Prop :=
| hl_nil : holds_lines takes [] []
| hl_line d x ds l : takes d x → holds_lines takes ds l → holds_lines takes (d :: ds) (x :: l)
| hl_none d ds l : (∀ x, ¬ takes d x) → holds_lines takes ds l → holds_lines takes (d :: ds) l.

Lemma sink_run_refines {L A} (write : sinkCore → Entry → list Field → SE L sink_error unit)
    (takes : delivery → A → Prop) (lines : L → list A) (D : destination) :
  keeps_bound D = false →
  (∀ c ent fields w,
     (∃ x, takes (D, ent, fields) x ∧ lines (write c ent fields w).1 = x :: lines w) ∨
     ((∀ x, ¬ takes (D, ent, fields) x) ∧ lines (write c ent fields w).1 = lines w)) →
  ∀ calls c o st w, dest o = D → level_cell o = sc_level c → holds_lines takes (written st) (lines w) →
    holds_lines takes (written (output_run (OutputCore o) calls st)) (lines (sink_run write (cells st) c calls w)).
Proof.
  intros Hk Hwrite. induction calls as [|[fields|ent fields] calls IH]; intros c o st w Hd Hl Hw; simpl; [done| |].
  - by apply IH.
  - unfold sink_Check. rewrite <- Hl. destruct (cell_enabled (cells st) (level_cell o) (ent_Level ent)); simpl; [|by apply IH].
    unfold written_fields. rewrite Hd, Hk.
    apply (IH c o (on_written (cons (D, ent, fields)) st)); [done..|]. simpl.
    destruct (Hwrite c ent fields w) as [(x & Hx & ->)|[Hx ->]]; by constructor.
Qed.

Lemma syslog_severity_table l sev : syslog_severity l = Some sev ↔ (l, sev) ∈ syslog_levels.
Proof.
  unfold syslog_severity, syslog_levels, zapDebug, zapInfo, zapWarn, zapError, zapDPanic, zapPanic, zapFatal.
  rewrite !elem_of_cons, elem_of_nil. repeat case_match; simpl in *; rewrite ?orb_true_iff, ?orb_false_iff in *;
    rewrite ?Z.eqb_eq, ?Z.eqb_neq in *; split; intros; destruct_or?; simplify_eq; naive_solver lia.
Qed.

Lemma event_severity_table l k : event_severity l = Some k ↔ (l, k) ∈ event_levels.
Proof.
  unfold event_severity, event_levels, zapDebug, zapInfo, zapWarn, zapError, zapDPanic, zapPanic, zapFatal.
  rewrite !elem_of_cons, elem_of_nil. repeat case_match; simpl in *; rewrite ?orb_true_iff, ?orb_false_iff in *;
    rewrite ?Z.eqb_eq, ?Z.eqb_neq in *; split; intros; destruct_or?; simplify_eq; naive_solver lia.
Qed.

Lemma untab_without p : tabs p = 0 → untab p = p.
Proof.
  induction p as [|c p IH]; simpl; [done|]. pose proof (tabs_nonneg p).
  case_bool_decide; intros; [lia|]. by rewrite IH.
Qed.

Lemma replace_tabs_unique p q n count :
  0 ≤ count < n → count + tabs p ≤ n → q = "" ∨ count + tabs p = n →
  replace_tabs (p +:+ q) n count = untab p +:+ q.
Proof.
  revert count. induction p as [|c p IH]; intros count Hc Hle Hq; simpl in *.
  { destruct Hq as [->|?]; [done|lia]. }
  pose proof (tabs_nonneg p). case_bool_decide.
  - destruct (Z.leb_spec 0 n); [|lia]. destruct (Z.leb_spec n (count + 1)); simpl.
    + by rewrite untab_without by lia.
    + f_equal. apply IH; [lia|lia|]. destruct Hq; [by left|right; lia].
  - f_equal. by apply IH.
Qed.

Lemma four_tabs_spaced_spec b msg : four_tabs_spaced b msg ↔ msg = replaceTabsWithSpaces b 4.
Proof.
  split.
  - intros (p & q & -> & -> & Hle & Hq). symmetry. by apply replace_tabs_unique.
  - intros ->. destruct (replaceTabsWithSpaces_spec b 4) as (p & q & ? & ? & ? & ?); [done|]. by exists p, q.
Qed.

Lemma syslog_Write_takes c ent fields w :
  (∃ x, syslog_takes (Syslog, ent, fields) x ∧ sys_lines (syslog_Write c ent fields w).1 = x :: sys_lines w) ∨
  ((∀ x, ¬ syslog_takes (Syslog, ent, fields) x) ∧ sys_lines (syslog_Write c ent fields w).1 = sys_lines w).
Proof.
  unfold syslog_Write, syslog_takes. setoid_rewrite four_tabs_spaced_spec.
  setoid_rewrite <- syslog_severity_table.
  destruct (EncodeEntry ent fields) as [text| | |]; [|right; naive_solver..].
  destruct (syslog_severity (ent_Level ent)) as [sev|]; [|right; naive_solver].
  destruct (syslog_error sev _) eqn:He; [right; split; [|done]|left].
  - intros [sev0 m] (? & [= <-] & [= <-] & Hm & Hn). simpl in *. congruence.
  - exists (sev, replaceTabsWithSpaces text 4). split; [|done]. exists text. done.
Qed.

Lemma event_Write_takes c ent fields w :
  (∃ x, event_takes (EventLog, ent, fields) x ∧ ev_lines (event_Write c ent fields w).1 = x :: ev_lines w) ∨
  ((∀ x, ¬ event_takes (EventLog, ent, fields) x) ∧ ev_lines (event_Write c ent fields w).1 = ev_lines w).
Proof.
  unfold event_Write, event_takes. setoid_rewrite <- event_severity_table.
  destruct (EncodeEntry ent fields) as [text| | |]; [|right; naive_solver..].
  destruct (event_severity (ent_Level ent)) as [k|]; [|right; naive_solver].
  destruct (event_error k text) eqn:He; [right; naive_solver congruence|left].
  exists (k, 100, text). split; [|done]. by exists k, text.
Qed.

(** C28: The cores for syslog and the event log do what the output they stand for
    does: after any calls of the core and of those [With] made of it, failing
    ones included, the system log holds, in order, one line for each entry that
    output wrote and whose encoding, level and writer do not fail, and nothing
    else.  A line of syslog has the encoding with its first four tabs as spaces
    and the severity debug, info, warning or error of the level, and critical
    above error; one of the event log has the encoding as it is, the identifier
    100 and the kind info up to level info, warning for warn and error above. *)
Theorem system_logs_refine_outputs (calls : list sink_call) (c : sinkCore) (b : list Field) (cl : bool) (st : lstate)
    (w : syslog) (v : evlog) :
  (holds_lines syslog_takes (written st) (sys_lines w) →
   holds_lines syslog_takes
     (written (output_run (OutputCore (mkOutput Syslog (sc_level c) b cl)) calls st))
     (sys_lines (sink_run syslog_Write (cells st) c calls w))) ∧
  (holds_lines event_takes (written st) (ev_lines v) →
   holds_lines event_takes
     (written (output_run (OutputCore (mkOutput EventLog (sc_level c) b cl)) calls st))
     (ev_lines (sink_run event_Write (cells st) c calls v))).
Proof.
  split; intros Hw.
  - by apply (sink_run_refines syslog_Write syslog_takes sys_lines Syslog); auto using syslog_Write_takes.
  - by apply (sink_run_refines event_Write event_takes ev_lines EventLog); auto using event_Write_takes.
Qed.

(** Fields given to [With] never reach the system logs: the core with them writes
    what the core without them writes. *)
Theorem system_logs_drop_bound_fields (fields : list Field) (c : sinkCore) (ent : Entry) (call : list Field) w v :
  syslog_Write (sink_With fields c) ent call w = syslog_Write c ent call w ∧
  event_Write (sink_With fields c) ent call v = event_Write c ent call v.
Proof. done. Qed.
End sinks.

(** ** A concrete encoder *)
#[local] Instance line_encoder : ZapEncoder :=
  {| EncodeEntry ent fields := Ok (LoggerName ent +:+ String tab (Message ent) +:+ String.concat "" ((λ f, String tab (f_Key f)) <$> fields)) |}.

(** A logger for syslog with a name of the service bound to it. *)
Definition service_calls : list sink_call :=
  [CWith [mkField "service.name" "beat" 0]; CLog (mkLogEntry zapWarn "http" "slow") [mkField "ms" "" 12];
   CLog (mkLogEntry zapDebug "http" "quiet") []].

Lemma system_logs_refine_outputs_witness :
  holds_lines (syslog_takes (λ _ _, None))
    (written (output_run (OutputCore (mkOutput Syslog 0 [] true)) service_calls init_state))
    (sys_lines (sink_run (syslog_Write (λ _ _, None)) (cells init_state) (mkSinkCore 0 []) service_calls
      (mkSyslog [] false))).
Proof.
  apply (proj1 (system_logs_refine_outputs (λ _ _, None) (λ _ _, None) service_calls (mkSinkCore 0 []) [] true init_state
    (mkSyslog [] false) (mkEvlog [] false))).
  constructor.
Defined.

(** The line has the field of the call and not the name of the service. *)
Example service_name_missing :
  sys_lines (sink_run (syslog_Write (λ _ _, None)) (cells init_state) (mkSinkCore 0 []) service_calls (mkSyslog [] false)) =
  [(LOG_WARNING, "http slow ms")].
Proof. vm_compute. reflexivity. Qed.

End LogpSinks.
