(* ===== verification/TypeConv.v ===== *)
(** * Package [typeconv] (src/transform/typeconv/typeconv.go)

    Conversion between values by events: how a timestamp is folded into an array
    of two numbers and unfolded again, and the converter that owns the iterator
    and the unfolder of the go-structform library and throws them away after a
    failure.  That library, the time zones of the host and the parser of
    RFC 3339 texts are parameters.  Module DateTime: times as text
    (datetime.go). *)
From Stdlib Require Import SpecFloat.
From S2P Require Import Prelude GoStrings.

Open Scope string_scope.
Open Scope list_scope.
Open Scope Z_scope.

(** ** Package [time] *)

(** [time.UTC] and [time.Local] are compared by address; a fixed zone carries
    its offset, and a zone of the time zone database its name. *)
Inductive Location :=
| UTC
| Local
| FixedZone (name : string) (offset : Z)
| Named (name : string).

#[global] Instance Location_eq_dec : EqDecision Location.
Proof. solve_decision. Defined.

(** Seconds since 1970-01-01T00:00:00Z, the nanoseconds of the second, and the
    location the value is shown in. *)
Record Time := mkTime { Unix : Z; Nanosecond : Z; loc : Location }.

#[global] Instance Time_eq_dec : EqDecision Time.
Proof. solve_decision. Defined.

Definition Time_ok (t : Time) : Prop := in_i64 (Unix t) ∧ 0 ≤ Nanosecond t < 1000000000.

(** The zero [time.Time]: year 1, UTC. *)
Definition zero_Time : Time := mkTime (-62135596800) 0 UTC.

(** What the host knows of time: the offset, in seconds east of UTC, of its own
    zone (which no time zone moves by more than 26 hours) and of the zones of
    the database at an instant, and the texts of RFC 3339.  A parse that fails also returns the zero time. *)
Class TimeLib := {
  local_offset : Z → Z;
  local_offset_bounded t : Z.abs (local_offset t) < 100000;
  named_offset : string → Z → Z;
  Parse_RFC3339 : string → Time + string
}.

Definition int16 (z : Z) : Z := (z + 32768) mod 65536 - 32768.
Definition uint16 (z : Z) : Z := z mod 65536.
Definition uint32 (z : Z) : Z := z mod two32.

(** [time.Unix]: the nanoseconds may exceed a second; the value is local. *)
Definition time_Unix (sec nsec : Z) : Time :=
  if (nsec <? 0) || (1000000000 <=? nsec) then
    let n := Z.quot nsec 1000000000 in
    let sec := wrap64 (sec + n) in
    let nsec := nsec - n * 1000000000 in
    if nsec <? 0 then mkTime (wrap64 (sec - 1)) (nsec + 1000000000) Local else mkTime sec nsec Local
  else mkTime sec nsec Local.

Definition In (t : Time) (l : Location) : Time := mkTime (Unix t) (Nanosecond t) l.

(** ** The events of go-structform that concern timestamps *)
Inductive BaseType := AnyType | Uint64Type.

Inductive event :=
| OnString (s : string)
| OnArrayStart (len : Z) (t : BaseType)
| OnInt (i : Z)
| OnUint64 (u : Z)
| OnFloat (f : spec_float)
| OnArrayFinished.

Inductive conv_error :=
| EunexpectedString (s : string)
| Eparse (msg : string)
| EunexpectedArray
| EinvalidLength (len : Z)
| EunexpectedNumber (u : Z)
| EunexpectedClose
| EinvalidTimestamp (extra sec : Z)
| Elib (msg : string).

Inductive timeUnfoldState :=
| timeUnfoldInit
| timeUnfoldDone
| timeUnfoldWaitA
| timeUnfoldWaitB
| timeUnfoldWaitDone.

#[global] Instance timeUnfoldState_eq_dec : EqDecision timeUnfoldState.
Proof. solve_decision. Defined.

(** [to] is the timestamp the unfolder writes to; [ctx_done] tells whether
    [ctx.Done] was called, which makes the library stop sending events here. *)
Record timeUnfolder := mkUnfolder { to : Time; a : Z; b : Z; st : timeUnfoldState; ctx_done : bool }.

Definition set_to (t : Time) (u : timeUnfolder) := mkUnfolder t (a u) (b u) (st u) (ctx_done u).
Definition set_a (x : Z) (u : timeUnfolder) := mkUnfolder (to u) x (b u) (st u) (ctx_done u).
Definition set_b (x : Z) (u : timeUnfolder) := mkUnfolder (to u) (a u) x (st u) (ctx_done u).
Definition set_st (s : timeUnfoldState) (u : timeUnfolder) := mkUnfolder (to u) (a u) (b u) s (ctx_done u).
Definition Done (u : timeUnfolder) := mkUnfolder (to u) (a u) (b u) (st u) true.

Definition unfoldTimestamp (t : Time) : timeUnfolder := mkUnfolder t 0 0 timeUnfoldInit false.

Abbreviation UM := (SE timeUnfolder conv_error).

(** [uint64(f)] truncates towards zero; a value that does not fit is converted
    in a way that depends on the machine. *)
Definition truncate (f : spec_float) : option Z :=
  match f with
  | S754_zero _ => Some 0
  | S754_finite s m e =>
      let v := if 0 <=? e then Zpos m * 2 ^ e else Zpos m / 2 ^ (- e) in
      Some (if s then - v else v)
  | _ => None
  end.

Section timestamps.
Context `{TimeLib} (unfit : spec_float → Z).

(** [ts.Zone()], without the abbreviation. *)
Definition Zone (t : Time) : Z :=
  match loc t with
  | UTC => 0
  | Local => local_offset (Unix t)
  | FixedZone _ o => o
  | Named n => named_offset n (Unix t)
  end.

Definition encodingVersion : Z := 0.

Definition timestampToBits (ts : Time) : Z * Z :=
  let off :=
    if decide (loc ts = UTC) then -1
    else
      let offset := Z.quot (Zone ts) 60 in
      let offset := if (offset <? -32768) || (offset =? -1) || (32767 <? offset) then 0 else offset in
      int16 offset in
  let sec := wrapu64 (Unix ts) in
  let extra :=
    Z.lor (Z.lor (wrapu64 (Z.shiftl encodingVersion 56)) (wrapu64 (Z.shiftl (uint16 off) 32)))
          (wrapu64 (Nanosecond ts)) in
  (extra, sec).

Definition bitsToTimestamp (extra sec : Z) : res conv_error Time :=
  let version := Z.land (Z.shiftr extra 56) 255 in
  if negb (version =? 0) then Err (EinvalidTimestamp extra sec)
  else
    let nsec := uint32 extra in
    let off := int16 (Z.shiftr extra 32) in
    let ts := time_Unix (wrap64 sec) nsec in
    if off =? -1 then Ok (In ts UTC)
    else if negb (off =? 0) then
      let locOff := Zone ts in
      if negb (off =? int16 (Z.quot locOff 60)) then Ok (In ts (FixedZone "" (int16 (off * 60))))
      else Ok ts
    else Ok ts.

(** ** Folding: the visitor [v] is whatever receives the events *)
Definition foldTimestamp {S E} (v : event → SE S E unit) (in_ : Time) : SE S E unit :=
  let '(extra, sec) := timestampToBits in_ in
  _ ← v (OnArrayStart 2 Uint64Type);
  _ ← v (OnUint64 extra);
  _ ← v (OnUint64 sec);
  v OnArrayFinished.

(** ** Unfolding *)
Definition uint64_of_float (f : spec_float) : Z :=
  match truncate f with
  | Some z => if (0 <=? z) && (z <? two64) then z else unfit f
  | None => unfit f
  end.

Definition u_OnString (in_ : string) : UM unit :=
  u ← get_store;
  if decide (st u ≠ timeUnfoldInit) then fail (EunexpectedString in_)
  else
    let '(ts, err) := match Parse_RFC3339 in_ with inl t => (t, None) | inr e => (zero_Time, Some e) end in
    _ ← modify (set_to ts);
    _ ← modify (set_st timeUnfoldDone);
    _ ← modify Done;
    match err with Some e => fail (Eparse e) | None => mret tt end.

Definition u_OnArrayStart (len : Z) : UM unit :=
  u ← get_store;
  if decide (st u ≠ timeUnfoldInit) then fail EunexpectedArray
  else if (0 <=? len) && negb (len =? 2) then fail (EinvalidLength len)
  else modify (set_st timeUnfoldWaitA).

Definition u_OnUint (in_ : Z) : UM unit :=
  u ← get_store;
  match st u with
  | timeUnfoldWaitA => _ ← modify (set_a in_); modify (set_st timeUnfoldWaitB)
  | timeUnfoldWaitB => _ ← modify (set_b in_); modify (set_st timeUnfoldWaitDone)
  | _ => fail (EunexpectedNumber in_)
  end.

Definition u_OnInt (in_ : Z) : UM unit := u_OnUint (wrapu64 in_).
Definition u_OnFloat (f : spec_float) : UM unit := u_OnUint (uint64_of_float f).

(** [defer ctx.Done()] runs on every path. *)
Definition u_OnArrayFinished : UM unit :=
  u ← get_store;
  _ ← modify Done;
  if decide (st u ≠ timeUnfoldWaitDone) then fail EunexpectedClose
  else
    _ ← modify (set_st timeUnfoldDone);
    ts ← lift (bitsToTimestamp (a u) (b u));
    modify (set_to ts).

Definition handle (e : event) : UM unit :=
  match e with
  | OnString s => u_OnString s
  | OnArrayStart n _ => u_OnArrayStart n
  | OnInt i => u_OnInt i
  | OnUint64 n => u_OnUint n
  | OnFloat f => u_OnFloat f
  | OnArrayFinished => u_OnArrayFinished
  end.

End timestamps.

#[global] Arguments bitsToTimestamp : simpl never.

(** ** The converter

    [Unfolder] is the library's unfolder, which also holds the target it is
    filling; the iterator made from it only sends it the events of a value, so
    the pair is one state here. *)
Section converter.
Context {Target Source Unfolder : Type}.
Context (NewUnfolder : Unfolder) (NewIterator : option string)
        (SetTarget : Target → SE Unfolder conv_error unit)
        (Fold : Source → SE Unfolder conv_error unit)
        (Reset : Unfolder → Unfolder).

(** Both pointers are nil, or both are set. *)
Record Converter := mkConverter { conv : option Unfolder }.

Definition NewConverter : Converter := mkConverter None.

(** [c.init()]: both libraries' objects are made anew. *)
Definition init : res conv_error Unfolder :=
  match NewIterator with
  | Some msg => Panic (PExplicit msg)
  | None => Ok NewUnfolder
  end.

(** The deferred functions run last to first: the unfolder is reset, then both
    pointers are cleared when an error is returned (and not on a panic). *)
Definition Convert (t : Target) (from : Source) : SE Converter conv_error unit := λ c,
  match (match conv c with Some u => Ok u | None => init end) with
  | Ok u =>
      let '(u1, r) := SetTarget t u in
      match r with
      | Ok _ =>
          let '(u2, r2) := Fold from u1 in
          match r2 with
          | Err e => (mkConverter None, Err e)
          | r2 => (mkConverter (Some (Reset u2)), r2)
          end
      | Err e => (mkConverter None, Err e)
      | r => (mkConverter (Some u1), r)
      end
  | Err e => (mkConverter None, Err e)
  | Panic p => (c, Panic p)
  | OutOfFuel => (c, OutOfFuel)
  end.

(** [convPool]: the pool gives back a converter it holds, or a new one. *)
Definition pool_Get (pool : list Converter) : Converter * list Converter :=
  match pool with c :: rest => (c, rest) | [] => (mkConverter None, []) end.

Definition pool_Convert (t : Target) (from : Source) : SE (list Converter) conv_error unit := λ pool,
  let '(c, rest) := pool_Get pool in
  let '(c', r) := Convert t from c in
  (c' :: rest, r).

End converter.

(** * Facts *)

Lemma int16_small z : -32768 ≤ z < 32768 → int16 z = z.
Proof. unfold int16. intros. rewrite Z.mod_small; lia. Qed.

Lemma int16_range z : -32768 ≤ int16 z < 32768.
Proof. unfold int16. pose proof (Z.mod_pos_bound (z + 32768) 65536). lia. Qed.

Lemma int16_uint16 z : int16 (uint16 z) = int16 z.
Proof. unfold int16, uint16. rewrite Zplus_mod_idemp_l. done. Qed.

Lemma wrap64_wrapu64 z : wrap64 (wrapu64 z) = wrap64 z.
Proof. unfold wrap64, wrapu64. rewrite Zplus_mod_idemp_l. done. Qed.

Definition read_back `{TimeLib} (unfit : spec_float → Z) (ts old : Time) : timeUnfolder * res conv_error unit :=
  foldTimestamp (handle unfit) ts (unfoldTimestamp old).

(** Runs the handlers of an unfolder whose state is known. *)
Ltac run_unfolder :=
  unfold read_back, foldTimestamp, handle, u_OnString, u_OnArrayStart, u_OnInt, u_OnFloat, u_OnUint,
    u_OnArrayFinished, mbind, mret, SE_bind, SE_ret, get_store, modify, lift, fail; cbn;
  repeat (first [rewrite decide_False by (by intros []) | rewrite decide_True by done]; cbn).

(** The minutes that are written for a timestamp: -1 stands for UTC. *)
Definition zone_minutes `{TimeLib} (ts : Time) : Z := Z.quot (Zone ts) 60.

Definition encoded_minutes `{TimeLib} (ts : Time) : Z :=
  if decide (loc ts = UTC) then -1
  else if decide (-32768 ≤ zone_minutes ts ≤ 32767 ∧ zone_minutes ts ≠ -1) then zone_minutes ts else 0.

Lemma lor_fields x n : 0 ≤ x → 0 ≤ n < two32 → Z.lor (Z.shiftl x 32) n = x * two32 + n.
Proof.
  intros Hx Hn. rewrite Z.shiftl_mul_pow2 by lia. change two32 with (2 ^ 32) in *.
  assert (Hl : Z.land (x * 2 ^ 32) n = 0).
  { apply Z.bits_inj'. intros i Hi. rewrite Z.land_spec, Z.bits_0, andb_false_iff.
    destruct (Z.lt_ge_cases i 32); [left; apply Z.mul_pow2_bits_low; lia|right].
    rewrite <-(Z.mod_small n (2 ^ 32)) by lia. apply Z.mod_pow2_bits_high. lia. }
  by rewrite <-Z.lxor_lor, <-Z.add_nocarry_lxor.
Qed.

Lemma quot60_range z n : Z.abs z < 60 * n → - n ≤ Z.quot z 60 ≤ n.
Proof. intros. pose proof (Z.quot_rem' z 60). pose proof (Z.rem_bound_abs z 60). lia. Qed.

Section facts.
Context `{TimeLib} (unfit : spec_float → Z).

Lemma local_minutes_bounded t : -2000 ≤ Z.quot (local_offset t) 60 ≤ 2000.
Proof. apply (quot60_range _ 2000). pose proof (local_offset_bounded t). lia. Qed.

Lemma encoded_minutes_range ts : -32768 ≤ encoded_minutes ts < 32768.
Proof. unfold encoded_minutes. repeat case_decide; lia. Qed.

(** The layout of the first number: minutes above 32 bits of nanoseconds. *)
Lemma timestampToBits_eq ts :
  Time_ok ts →
  timestampToBits ts = (uint16 (encoded_minutes ts) * two32 + Nanosecond ts, wrapu64 (Unix ts)).
Proof.
  intros [_ Hn]. unfold timestampToBits. f_equal.
  assert (Hoff : (if decide (loc ts = UTC) then -1
      else int16 (if (Z.quot (Zone ts) 60 <? -32768) || (Z.quot (Zone ts) 60 =? -1) || (32767 <? Z.quot (Zone ts) 60)
                  then 0 else Z.quot (Zone ts) 60)) = encoded_minutes ts).
  { unfold encoded_minutes, zone_minutes. case_decide; [done|].
    case_decide as Hd; destruct (_ || _) eqn:Hb; try (rewrite int16_small; lia). all: lia. }
  cbv zeta in *. rewrite Hoff.
  assert (0 ≤ uint16 (encoded_minutes ts) < 65536) by (apply Z.mod_pos_bound; lia).
  replace (wrapu64 (Z.shiftl encodingVersion 56)) with 0 by done. rewrite Z.lor_0_l.
  rewrite !wrapu64_small; [apply lor_fields; unfold two32; lia|unfold in_u64, two64; lia|].
  rewrite Z.shiftl_mul_pow2 by lia. unfold in_u64, two64. lia.
Qed.

Definition restored_loc (ts : Time) : Location :=
  let m := encoded_minutes ts in
  if m =? -1 then UTC
  else if (m =? 0) || (m =? int16 (Z.quot (local_offset (Unix ts)) 60)) then Local
  else FixedZone "" (int16 (m * 60)).

Lemma bitsToTimestamp_encoded ts :
  Time_ok ts →
  bitsToTimestamp (timestampToBits ts).1 (timestampToBits ts).2 = Ok (In ts (restored_loc ts)).
Proof.
  intros Hok. rewrite timestampToBits_eq by done. destruct Hok as [Hu Hn]. cbn [fst snd].
  assert (0 ≤ uint16 (encoded_minutes ts) < 65536) as Hm by (apply Z.mod_pos_bound; lia).
  set (x := uint16 _) in *. unfold bitsToTimestamp.
  rewrite !Z.shiftr_div_pow2 by lia.
  replace ((x * two32 + Nanosecond ts) / 2 ^ 56) with 0 by (symmetry; apply Z.div_small; unfold two32; lia).
  replace ((x * two32 + Nanosecond ts) / 2 ^ 32) with x
    by (change (2 ^ 32) with two32; unfold two32; rewrite Z.div_add_l, (Z.div_small (Nanosecond ts)); lia).
  replace (uint32 (x * two32 + Nanosecond ts)) with (Nanosecond ts)
    by (unfold uint32; rewrite Z.add_comm, Z_mod_plus_full, Z.mod_small by (unfold two32; lia); done).
  rewrite wrap64_wrapu64, wrap64_small by done. subst x.
  rewrite int16_uint16, int16_small by (pose proof (encoded_minutes_range ts); lia).
  unfold time_Unix.
  replace ((Nanosecond ts <? 0) || (1000000000 <=? Nanosecond ts)) with false by (symmetry; lia).
  change (negb (Z.land 0 255 =? 0)) with false. cbv iota.
  unfold restored_loc, Zone, In; cbn.
  repeat (destruct (_ =? _); cbn); done.
Qed.

(** The events of folding drive the unfolder to the timestamp they encode. *)
Lemma fold_unfold ts old :
  Time_ok ts →
  let '(u, r) := read_back unfit ts old in
  r = Ok tt ∧ st u = timeUnfoldDone ∧ ctx_done u = true ∧ to u = In ts (restored_loc ts).
Proof.
  intros Hok. pose proof (bitsToTimestamp_encoded ts Hok) as Hb.
  unfold read_back, foldTimestamp. destruct (timestampToBits ts) as [extra sec]. cbn in Hb.
  run_unfolder. by rewrite Hb.
Qed.

Lemma restored_loc_minutes ts :
  zone_minutes ts ≠ 0 → zone_minutes ts ≠ -1 → -546 ≤ zone_minutes ts ≤ 546 →
  zone_minutes (In ts (restored_loc ts)) = zone_minutes ts.
Proof.
  intros H0 H1 Hr.
  assert (He : encoded_minutes ts = zone_minutes ts).
  { unfold encoded_minutes. case_decide as Hd.
    - destruct H0. unfold zone_minutes, Zone. by rewrite Hd.
    - case_decide; [done|lia]. }
  unfold restored_loc. rewrite He. rewrite (proj2 (Z.eqb_neq _ _) H1), (proj2 (Z.eqb_neq _ _) H0). cbn [orb].
  destruct (_ =? _) eqn:E; unfold zone_minutes at 1, Zone; cbn.
  - apply Z.eqb_eq in E. rewrite int16_small in E; [done|].
    pose proof (local_minutes_bounded (Unix ts)). lia.
  - rewrite int16_small by lia. by rewrite Z.quot_mul.
Qed.

(** C31: A timestamp that is folded into events and unfolded from them is read
    back without error, whatever the target held: the instant is the same to the
    nanosecond, a UTC timestamp is the same value, and a timestamp of another
    zone comes back with its offset to the minute when that is neither 0 nor -1
    and at most 546 minutes from UTC (nine hours and six minutes). *)
Theorem timestamp_roundtrip ts old :
  Time_ok ts →
  let '(u, r) := read_back unfit ts old in
  r = Ok tt ∧ ctx_done u = true ∧ Unix (to u) = Unix ts ∧ Nanosecond (to u) = Nanosecond ts ∧
  (loc ts = UTC → to u = ts) ∧
  (zone_minutes ts ≠ 0 → zone_minutes ts ≠ -1 → -546 ≤ zone_minutes ts ≤ 546 →
   zone_minutes (to u) = zone_minutes ts).
Proof.
  intros Hok. pose proof (fold_unfold ts old Hok) as Hf. destruct (read_back unfit ts old) as [u r].
  destruct Hf as (-> & _ & -> & ->). conjs; try done; [|by intros; apply restored_loc_minutes].
  intros Hl. unfold restored_loc, encoded_minutes. rewrite decide_True by done. cbn.
  destruct ts; cbn in *. by subst.
Qed.

(** Beyond 546 minutes the offset is lost: the product by 60 is computed in 16
    bits. *)
Theorem far_offset_lost ts old :
  Time_ok ts → loc ts ≠ UTC → 546 < Z.abs (zone_minutes ts) ≤ 32767 →
  zone_minutes ts ≠ Z.quot (local_offset (Unix ts)) 60 →
  let '(u, r) := read_back unfit ts old in r = Ok tt ∧ Zone (to u) ≠ zone_minutes ts * 60.
Proof.
  intros Hok Hl Hm Hloc. pose proof (fold_unfold ts old Hok) as Hf. destruct (read_back unfit ts old) as [u r].
  destruct Hf as (-> & _ & _ & ->). split; [done|].
  unfold restored_loc, encoded_minutes. rewrite decide_False by done. rewrite decide_True by lia.
  rewrite int16_small by (pose proof (local_minutes_bounded (Unix ts)); lia).
  rewrite !(proj2 (Z.eqb_neq _ _)) by lia. unfold Zone; cbn. pose proof (int16_range (zone_minutes ts * 60)). lia.
Qed.

(** ** The sequences of events an unfolder takes *)
Definition number (e : event) : option Z :=
  match e with
  | OnUint64 n => Some n
  | OnInt i => Some (wrapu64 i)
  | OnFloat f => Some (uint64_of_float unfit f)
  | _ => None
  end.

Inductive decodes : list event → Time → Prop :=
| decodes_text s t : Parse_RFC3339 s = inl t → decodes [OnString s] t
| decodes_array n ty x y extra sec t :
    n < 0 ∨ n = 2 → number x = Some extra → number y = Some sec → bitsToTimestamp extra sec = Ok t →
    decodes [OnArrayStart n ty; x; y; OnArrayFinished] t.

Abbreviation unfolds es u := (foreach es (handle unfit) u).

Lemma unfolds_nil u u' : unfolds [] u = (u', Ok tt) → u' = u.
Proof. by intros [= ->]. Qed.

Lemma unfolds_cons e es u u' :
  unfolds (e :: es) u = (u', Ok tt) ↔ ∃ v, handle unfit e u = (v, Ok tt) ∧ unfolds es v = (u', Ok tt).
Proof.
  cbn [foreach]. split.
  - intros (v & [] & Hv & Hr)%SE_bind_Ok. eauto.
  - intros (v & Hv & Hr). by rewrite (SE_bind_run _ _ _ _ _ Hv).
Qed.

Lemma handle_number e n u : number e = Some n → handle unfit e u = u_OnUint n u.
Proof. destruct e; cbn; intros; by simplify_eq. Qed.

(** What one event does, by the state it meets. *)
Lemma handle_init e t u' :
  handle unfit e (unfoldTimestamp t) = (u', Ok tt) →
  (∃ s x, e = OnString s ∧ Parse_RFC3339 s = inl x ∧ u' = mkUnfolder x 0 0 timeUnfoldDone true) ∨
  (∃ n ty, e = OnArrayStart n ty ∧ (n < 0 ∨ n = 2) ∧ u' = mkUnfolder t 0 0 timeUnfoldWaitA false).
Proof.
  destruct e; run_unfolder; try done.
  - destruct (Parse_RFC3339 _) eqn:E; cbn; intros; simplify_eq. left. eauto 6.
  - destruct (_ && _) eqn:E; cbn; intros; simplify_eq. right. eexists _, _. conjs; [done|lia|done].
Qed.

Lemma handle_wait_a e t x y u' :
  handle unfit e (mkUnfolder t x y timeUnfoldWaitA false) = (u', Ok tt) →
  ∃ n, number e = Some n ∧ u' = mkUnfolder t n y timeUnfoldWaitB false.
Proof. destruct e; run_unfolder; intros; simplify_eq; eauto. Qed.

Lemma handle_wait_b e t x y u' :
  handle unfit e (mkUnfolder t x y timeUnfoldWaitB false) = (u', Ok tt) →
  ∃ n, number e = Some n ∧ u' = mkUnfolder t x n timeUnfoldWaitDone false.
Proof. destruct e; run_unfolder; intros; simplify_eq; eauto. Qed.

Lemma handle_wait_done e t x y u' :
  handle unfit e (mkUnfolder t x y timeUnfoldWaitDone false) = (u', Ok tt) →
  e = OnArrayFinished ∧ ∃ ts, bitsToTimestamp x y = Ok ts ∧ u' = mkUnfolder ts x y timeUnfoldDone true.
Proof.
  destruct e; run_unfolder; try done.
  destruct (bitsToTimestamp x y) eqn:E; cbn; intros; simplify_eq. eauto.
Qed.

Lemma handle_done e t x y d u' : handle unfit e (mkUnfolder t x y timeUnfoldDone d) ≠ (u', Ok tt).
Proof. by destruct e. Qed.

(** An unfolder accepts exactly the sequences of events that encode a
    timestamp, a text of RFC 3339 or an array of two numbers (announced with two
    elements, or with an unknown number of them) whose version is 0, and it then
    holds the timestamp they encode: no event is taken out of order, and none
    after the last. *)
Theorem unfold_accepts es old t :
  (∃ u, unfolds es (unfoldTimestamp old) = (u, Ok tt) ∧ st u = timeUnfoldDone ∧ to u = t) ↔ decodes es t.
Proof.
  split.
  - intros (u & Hr & Hs & Ht). destruct es as [|e es]; [by apply unfolds_nil in Hr as ->|].
    apply unfolds_cons in Hr as (v & [(s & x & -> & Hp & ->)|(n & ty & -> & Hn & ->)]%handle_init & Hr).
    { destruct es as [|e es]; [apply unfolds_nil in Hr as ->; subst; by constructor|].
      by apply unfolds_cons in Hr as (v & ?%handle_done & _). }
    destruct es as [|x es]; [by apply unfolds_nil in Hr as ->|].
    apply unfolds_cons in Hr as (v & (xn & Hx & ->)%handle_wait_a & Hr).
    destruct es as [|y es]; [by apply unfolds_nil in Hr as ->|].
    apply unfolds_cons in Hr as (v & (yn & Hy & ->)%handle_wait_b & Hr).
    destruct es as [|e es]; [by apply unfolds_nil in Hr as ->|].
    apply unfolds_cons in Hr as (v & [-> (ts & Hb & ->)]%handle_wait_done & Hr).
    destruct es as [|e es]; [apply unfolds_nil in Hr as ->; subst; by econstructor|].
    by apply unfolds_cons in Hr as (v & ?%handle_done & _).
  - destruct 1 as [s t Hp|n ty x y extra sec t Hn Hx Hy Hb].
    + eexists. run_unfolder. rewrite Hp. done.
    + eexists (mkUnfolder t extra sec timeUnfoldDone true). split; [|done].
      apply unfolds_cons. exists (mkUnfolder old 0 0 timeUnfoldWaitA false). split.
      { run_unfolder. destruct (_ && _) eqn:E; [lia|done]. }
      apply unfolds_cons. eexists. rewrite (handle_number _ _ _ Hx). split; [done|].
      apply unfolds_cons. eexists. rewrite (handle_number _ _ _ Hy). split; [done|].
      apply unfolds_cons. eexists. split; [|done]. run_unfolder. by rewrite Hb.
Qed.

End facts.

(** ** The converter between conversions *)
Section converter_facts.
Context {Target Source Unfolder : Type}.
Context (NewUnfolder : Unfolder)
        (SetTarget : Target → SE Unfolder conv_error unit)
        (Fold : Source → SE Unfolder conv_error unit)
        (Reset : Unfolder → Unfolder).
(** [idle]: the unfolder holds no target and is inside no value. *)
Context (idle : Unfolder → Prop).
Hypothesis New_idle : idle NewUnfolder.
Hypothesis Reset_idle : ∀ u, idle (Reset u).
(** Idle unfolders may differ in the types they have cached, not in what they do
    with a value. *)
Hypothesis idle_alike : ∀ u v t from,
  idle u → idle v → ((SetTarget t ≫= λ _, Fold from) u).2 = ((SetTarget t ≫= λ _, Fold from) v).2.

Abbreviation Conv := (Convert NewUnfolder None SetTarget Fold Reset).
Abbreviation PoolConv := (pool_Convert NewUnfolder None SetTarget Fold Reset).

(** The converters of a pool are idle, or cleared. *)
Definition conv_idle (c : Converter (Unfolder := Unfolder)) : Prop := ∀ u, conv c = Some u → idle u.

Lemma Convert_result t from c :
  conv_idle c → (Conv t from c).2 = ((SetTarget t ≫= λ _, Fold from) NewUnfolder).2.
Proof.
  intros Hc.
  assert (Hu : ∀ u, idle u → (Conv t from (mkConverter (Some u))).2 = ((SetTarget t ≫= λ _, Fold from) u).2).
  { intros u _. unfold Convert, mbind, SE_bind. cbn. destruct (SetTarget t u) as [u1 [[]|?|?|]]; try done.
    cbn. destruct (Fold from u1) as [u2 [[]|?|?|]]; done. }
  destruct c as [[u|]].
  - rewrite Hu by (by apply Hc). apply idle_alike; [by apply Hc|done].
  - change (Conv t from (mkConverter None)) with (Conv t from (mkConverter (Some NewUnfolder))). by apply Hu.
Qed.

Lemma Convert_idle t from c :
  conv_idle c → defined (Conv t from c).2 → conv_idle (Conv t from c).1.
Proof.
  intros Hc. unfold Convert.
  destruct (match conv c with Some u => Ok u | None => init NewUnfolder None end); [|done..].
  destruct (SetTarget t a0) as [u1 [[]|?|?|]]; try done.
  destruct (Fold from u1) as [u2 [[]|?|?|]]; try done; intros _ u; cbn; intros; by simplify_eq.
Qed.

(** Conversions made one after the other with converters of the pool, each of
    which returned, with an error or not. *)
Inductive converted : list (Converter (Unfolder := Unfolder)) → list (Converter (Unfolder := Unfolder)) → Prop :=
| converted_nil pool : converted pool pool
| converted_step pool t from pool1 pool2 :
    defined (PoolConv t from pool).2 → (PoolConv t from pool).1 = pool1 →
    converted pool1 pool2 → converted pool pool2.

Lemma converted_idle pool pool' : converted pool pool' → Forall conv_idle pool → Forall conv_idle pool'.
Proof.
  induction 1 as [|pool t from pool1 pool2 Hd <- _ IH]; [done|]. intros Hp. apply IH. clear IH. revert Hd.
  assert (Hg : conv_idle (pool_Get pool).1 ∧ Forall conv_idle (pool_Get pool).2).
  { destruct pool; cbn; [by split|by inversion Hp]. }
  unfold pool_Convert. destruct (pool_Get pool) as [c rest]. cbn in Hg. destruct Hg as [Hc Hrest].
  pose proof (Convert_idle t from c Hc) as Hi. destruct (Conv t from c) as [c' r]. cbn in *. auto.
Qed.

(** A conversion gives the result a new converter gives, whatever
    conversions the pool's converters were used for before, failed ones
    included: a failure inside a value never leaks into the next conversion. *)
Theorem conversion_history_free pool t from :
  converted [] pool → (PoolConv t from pool).2 = (Conv t from NewConverter).2.
Proof.
  intros Hp%converted_idle; [|done]. rewrite (Convert_result _ _ NewConverter) by done.
  unfold pool_Convert.
  assert (Hg : conv_idle (pool_Get pool).1) by (destruct pool; cbn; [done|by inversion Hp]).
  destruct (pool_Get pool) as [c rest]. cbn in Hg. pose proof (Convert_result t from c Hg) as Hr.
  by destruct (Conv t from c).
Qed.

End converter_facts.

(** ** Concrete hosts, and the values that are not read back *)
#[local] Instance host_at (off : Z) (bound : Z.abs off < 100000) : TimeLib := {
  local_offset _ := off;
  local_offset_bounded _ := bound;
  named_offset _ _ := 0;
  Parse_RFC3339 _ := inr "not a time"
}.

Definition utc_host : TimeLib := host_at 0 eq_refl.
Definition paris_host : TimeLib := host_at 3600 eq_refl.

Lemma timestamp_roundtrip_witness :
  let u := (read_back (H := utc_host) (λ _, 0) (mkTime 1700000000 5 (FixedZone "CET" 3600)) zero_Time).1 in
  Unix (to u) = 1700000000 ∧ zone_minutes (H := utc_host) (to u) = 60.
Proof.
  pose proof (timestamp_roundtrip (H := utc_host) (λ _, 0) (mkTime 1700000000 5 (FixedZone "CET" 3600)) zero_Time) as Hr.
  cbv zeta. destruct (read_back _ _ _) as [u r]. cbn [fst].
  destruct Hr as (_ & _ & Hu & _ & _ & Hz); [split; cbn; unfold_width; lia|].
  split; [exact Hu|]. apply Hz; vm_compute; done.
Defined.

(** A timestamp of Sydney, ten hours east, is read back at 08:12:16 west. *)
Theorem zone_offset_overflows :
  let ts := mkTime 1700000000 0 (FixedZone "AEST" 36000) in
  let '(u, r) := read_back (H := utc_host) (λ _, 0) ts zero_Time in
  r = Ok tt ∧ Unix (to u) = Unix ts ∧ loc (to u) = FixedZone "" (-29536).
Proof. vm_compute. done. Qed.

(** A timestamp whose zone is at offset 0 but is not UTC is read back in the
    zone of the host, although that has another offset. *)
Theorem zero_offset_not_restored :
  let ts := mkTime 1700000000 0 (FixedZone "GMT" 0) in
  let '(u, r) := read_back (H := paris_host) (λ _, 0) ts zero_Time in
  r = Ok tt ∧ loc (to u) = Local ∧ Zone (H := paris_host) (to u) = 3600.
Proof. vm_compute. done. Qed.

(** An unfolder with one slot: it refuses a target while it holds one, and fails
    half-way through negative values. *)
Definition slot_SetTarget (t : Z) : SE (option Z) conv_error unit := λ u,
  match u with None => (Some t, Ok tt) | Some _ => (u, Err (Elib "busy")) end.
Definition slot_Fold (v : Z) : SE (option Z) conv_error unit := λ u,
  if v <? 0 then (Some v, Err (Elib "negative")) else (Some v, Ok tt).

Lemma conversion_history_free_witness :
  let pool := [mkConverter None] in
  (pool_Convert None None slot_SetTarget slot_Fold (λ _, None) 1 2 pool).2 = Ok tt.
Proof.
  cbv zeta.
  rewrite (conversion_history_free None slot_SetTarget slot_Fold (λ _, None) (λ u, u = None)); try done.
  - by intros u v t from -> ->.
  - apply (converted_step _ _ _ _ [] 7 (-1) [mkConverter None]); [done|done|constructor].
Defined.

(** ** Package [typeconv]: timestamps as text (src/transform/typeconv/datetime.go) *)
From S2P Require Import Prelude GoStrings GoUtf8 GoTime GoDate.

Module DateTime.
Open Scope string_scope.
Open Scope list_scope.
Open Scope Z_scope.

(** ** [json.Marshal] of a string

    Quotes, backslashes, control characters and the characters HTML gives a
    meaning are escaped, as are the two line separators; an invalid byte becomes
    the escape of U+FFFD. *)
Definition hex_digit (n : Z) : ascii := if n <? 10 then chr (48 + n) else chr (87 + n).

Definition u_escape (r : Z) : string :=
  "\u" +:+ String (hex_digit (r / 4096 mod 16)) (String (hex_digit (r / 256 mod 16))
    (String (hex_digit (r / 16 mod 16)) (String (hex_digit (r mod 16)) ""))).

Definition json_rune (r : Z) : string :=
  if (r =? 34) || (r =? 92) then String "\" (String (chr r) "")
  else if r =? 8 then "\b" else if r =? 12 then "\f" else if r =? 10 then "\n"
  else if r =? 13 then "\r" else if r =? 9 then "\t"
  else if (r <? 32) || (r =? 60) || (r =? 62) || (r =? 38) || (r =? 0x2028) || (r =? 0x2029) then u_escape r
  else EncodeRune r.

(** The runes with their bytes: U+FFFD of one byte is an invalid one. *)
Fixpoint json_body (fuel : nat) (s : string) : string :=
  match fuel, s with
  | S fuel', String a s' =>
      let '(r, rest) := DecodeRune a s' in
      (if (r =? RuneError) && (String.length rest =? String.length s')%nat then "\ufffd" else json_rune r)
        +:+ json_body fuel' rest
  | _, _ => ""
  end.

Definition json_quote : ascii := "034"%char.
Definition json_string (s : string) : string :=
  String json_quote (json_body (String.length s) s +:+ String json_quote "").

(** ** [Time] *)
Inductive dt_error := ErrNotQuoted | ErrParse.

(** [time.Time(t).UTC()], as the instant the layout is applied to. *)
Definition utc_instant (t : TypeConv.Time) : Instant := mkInstant (TypeConv.Unix t) (TypeConv.Nanosecond t) 0.

Definition Time_String (t : TypeConv.Time) : string := Format_ms (utc_instant t).

Definition MarshalJSON (t : TypeConv.Time) : string := json_string (Format_ms (utc_instant t)).

(** A parse that fails also returns the zero time. *)
Definition ParseTime (timespec : string) : TypeConv.Time * option dt_error :=
  match Parse_ms timespec with
  | Some i => (TypeConv.mkTime (i_unix i) (i_nsec i) TypeConv.UTC, None)
  | None => (TypeConv.zero_Time, Some ErrParse)
  end.

(** [data[i]] *)
Definition byte_at (s : string) (i : Z) : res dt_error ascii :=
  if (i <? 0) || (strlen s <=? i) then Panic PIndexOutOfRange
  else match sdrop (Z.to_nat i) s with String a _ => Ok a | "" => Panic PIndexOutOfRange end.

(** The receiver keeps its value only when the text is not quoted. *)
Definition UnmarshalJSON (data : string) : SE TypeConv.Time dt_error unit :=
  first ← lift (byte_at data 0);
  bad ← (if bool_decide (first = json_quote)
         then last ← lift (byte_at data (strlen data - 1)); mret (negb (bool_decide (last = json_quote)))
         else mret true);
  if (bad : bool) then fail ErrNotQuoted
  else
    text ← lift (slice data 1 (strlen data - 1));
    let '(t, err) := ParseTime text in
    set_store t ≫= λ _,
    match err with Some e => fail e | None => mret tt end.

Definition MustParseTime (timespec : string) : res dt_error TypeConv.Time :=
  match ParseTime timespec with
  | (ts, None) => Ok ts
  | (_, Some _) => Panic (PExplicit "parsing time")
  end.

(** [binary.Write(h, binary.LittleEndian, t.UnixNano())]: the bytes written. *)
Definition UnixNano (t : TypeConv.Time) : Z :=
  wrap64 (TypeConv.Unix t * 1000000000 + TypeConv.Nanosecond t).

Fixpoint le_bytes (n : nat) (z : Z) : list Z :=
  match n with O => [] | S n' => z mod 256 :: le_bytes n' (z / 256) end.

Definition Hash32 {S E} (write : list Z → SE S E unit) (t : TypeConv.Time) : SE S E unit :=
  write (le_bytes 8 (wrapu64 (UnixNano t))).

(** ** Facts *)
Definition ts_char (a : ascii) : Prop :=
  byte a < 128 ∧ json_rune (byte a) = String a "".

Lemma json_body_plain s :
  Forall ts_char (String.list_ascii_of_string s) → ∀ fuel, (String.length s ≤ fuel)%nat → json_body fuel s = s.
Proof.
  induction s as [|a s IH]; intros Hs [|fuel] Hf; simpl in *; try done; [lia|].
  apply Forall_cons in Hs as [[Ha Hj] Hs]. unfold DecodeRune.
  destruct (Z.ltb_spec (byte a) 128); [|lia].
  assert (Hr : (byte a =? RuneError) = false) by (unfold RuneError; lia).
  rewrite Hr. simpl. rewrite Hj, IH by (done || lia). done.
Qed.

Definition ts_char_b (a : ascii) : bool := (byte a <? 128) && bool_decide (json_rune (byte a) = String a "").

Definition ts_text (s : string) : Prop := Forall ts_char (String.list_ascii_of_string s).

Lemma ts_text_app s t : ts_text s → ts_text t → ts_text (s +:+ t).
Proof.
  unfold ts_text. induction s as [|a s IH]; simpl; [done|]. intros [? ?]%Forall_cons Ht.
  constructor; [done|]. by apply IH.
Qed.

Lemma ts_text_b s : forallb ts_char_b (String.list_ascii_of_string s) = true → ts_text s.
Proof.
  unfold ts_text. induction s as [|a s IH]; simpl; [by constructor|].
  intros [Ha Hs]%andb_true_iff. constructor; [|by apply IH].
  unfold ts_char_b in Ha. apply andb_true_iff in Ha as [H1 H2]. split; [lia|].
  by apply bool_decide_eq_true in H2.
Qed.

Lemma ts_char_digit a d : char_digit a = Some d → ts_char a.
Proof.
  unfold char_digit. case_bool_decide as Hb; [|done]. intros _. fold (byte a) in Hb.
  split; [lia|]. unfold json_rune.
  repeat match goal with |- context [byte a =? ?k] => replace (byte a =? k) with false by lia end.
  destruct (Z.ltb_spec (byte a) 32); [lia|]. simpl. unfold EncodeRune.
  rewrite bool_decide_true by (unfold valid_rune; lia). destruct (Z.leb_spec (byte a) 127); [|lia].
  by rewrite chr_byte.
Qed.

Lemma ts_text_digits s : ∀ acc v, parse_digits acc s = Some v → ts_text s.
Proof.
  induction s as [|a s IH]; intros acc v Hp; [by constructor|]. simpl in Hp.
  destruct (char_digit a) as [d|] eqn:Ha; [|done].
  constructor; [by apply (ts_char_digit a d)|by apply (IH (acc * 10 + d) v)].
Qed.

Lemma ts_text_appendInt x k :
  0 ≤ x < 10 ^ Z.of_nat k → (0 < k)%nat → x < 10 ^ 18 → ts_text (appendInt x k).
Proof. intros H1 H2 H3. destruct (appendInt_spec x k H1 H2 H3) as [_ Hp]. by apply (ts_text_digits _ 0 x). Qed.

Lemma ts_text_Format i :
  0 ≤ Year (clock i) ≤ 9999 → 0 ≤ i_nsec i < 1000000000 → ts_text (Format_ms i).
Proof.
  intros Hy Hn. destruct (Month_Day_range (clock i)) as [Hm Hd].
  pose proof (daysIn_le (Month (clock i)) (Year (clock i))).
  destruct (clock_fields (clock i)) as (Hh & Hmi & Hs & _).
  assert (0 ≤ i_nsec i / 1000000 < 1000) by (Z.to_euclidean_division_equations; lia).
  unfold Format_ms.
  repeat (apply ts_text_app; [first [by apply ts_text_b | apply ts_text_appendInt; simpl; lia]|]).
  by apply ts_text_b.
Qed.

Lemma json_string_Format i :
  0 ≤ Year (clock i) ≤ 9999 → 0 ≤ i_nsec i < 1000000000 →
  json_string (Format_ms i) = String json_quote (Format_ms i +:+ String json_quote "").
Proof. intros. unfold json_string. rewrite json_body_plain; [done| |lia]. by apply ts_text_Format. Qed.

(** The quotes off a text between quotes. *)
Lemma UnmarshalJSON_quoted s old :
  UnmarshalJSON (String json_quote (s +:+ String json_quote "")) old =
  ((ParseTime s).1, match (ParseTime s).2 with Some e => Err e | None => Ok tt end).
Proof.
  set (data := String json_quote (s +:+ String json_quote "")).
  assert (Hlen : strlen data = strlen s + 2).
  { unfold data, strlen. simpl. rewrite length_sapp. simpl. lia. }
  pose proof (strlen_nonneg s).
  assert (H0 : byte_at data 0 = Ok json_quote).
  { unfold byte_at. rewrite Hlen. destruct (Z.leb_spec (strlen s + 2) 0); [lia|]. done. }
  assert (H1 : byte_at data (strlen data - 1) = Ok json_quote).
  { unfold byte_at. rewrite Hlen. destruct (Z.ltb_spec (strlen s + 2 - 1) 0); [lia|].
    destruct (Z.leb_spec (strlen s + 2) (strlen s + 2 - 1)); [lia|]. simpl.
    replace (Z.to_nat (strlen s + 2 - 1)) with (S (String.length s)) by (unfold strlen; lia).
    unfold data. simpl. by rewrite sdrop_length_app. }
  assert (H2 : slice (E := dt_error) data 1 (strlen data - 1) = Ok s).
  { replace (strlen data - 1) with (1 + strlen s) by lia.
    apply (slice_middle (String json_quote "") s (String json_quote "")). }
  unfold UnmarshalJSON, mbind, SE_bind, lift. rewrite H0. cbv beta iota. rewrite bool_decide_true by done.
  rewrite H1. cbv beta iota. rewrite bool_decide_true by done. cbv beta iota. cbn [negb mret SE_ret].
  rewrite H2. cbv beta iota. destruct (ParseTime s) as [t [e|]]; done.
Qed.

(** A time between the years 0 and 9999 survives its text and its JSON: both
    are read back as the same instant in UTC, cut to the millisecond, whatever
    zone the value was in. *)
Theorem Time_text_roundtrip (t old : TypeConv.Time) :
  0 ≤ Year (clock (utc_instant t)) ≤ 9999 → 0 ≤ TypeConv.Nanosecond t < 1000000000 →
  let ms := TypeConv.mkTime (TypeConv.Unix t) (TypeConv.Nanosecond t / 1000000 * 1000000) TypeConv.UTC in
  ParseTime (Time_String t) = (ms, None) ∧
  MustParseTime (Time_String t) = Ok ms ∧
  UnmarshalJSON (MarshalJSON t) old = (ms, Ok tt).
Proof.
  intros Hy Hn ms.
  assert (Hp : ParseTime (Time_String t) = (ms, None)).
  { unfold ParseTime, Time_String. rewrite Parse_Format_ms by done. simpl. by rewrite Z.add_0_r. }
  conjs; [done|by unfold MustParseTime; rewrite Hp|].
  unfold MarshalJSON. rewrite json_string_Format, UnmarshalJSON_quoted by done.
  fold (Time_String t). by rewrite Hp.
Qed.

Lemma Time_text_roundtrip_witness :
  MarshalJSON (TypeConv.mkTime 1709251198 123456789 TypeConv.Local) =
    String json_quote ("2024-02-29T23:59:58.123Z" +:+ String json_quote "") ∧
  UnmarshalJSON (MarshalJSON (TypeConv.mkTime 1709251198 123456789 TypeConv.Local)) TypeConv.zero_Time
    = (TypeConv.mkTime 1709251198 123000000 TypeConv.UTC, Ok tt).
Proof.
  split; [vm_compute; done|].
  apply (Time_text_roundtrip (TypeConv.mkTime 1709251198 123456789 TypeConv.Local) TypeConv.zero_Time);
    vm_compute; split; congruence.
Defined.

(** A lone quote passes both checks and is sliced from 1 to 0. *)
Theorem UnmarshalJSON_lone_quote old :
  UnmarshalJSON (String json_quote "") old = (old, Panic PIndexOutOfRange).
Proof. vm_compute. reflexivity. Qed.

End DateTime.
