(* ===== verification/Adapter.v ===== *)
(** * Package [adapter] (src/monitoring/adapter)

    go-metrics registries over a monitoring registry: filters that accept,
    rename or replace a metric (filters.go), wrappers that show a metric as a
    variable (go-metrics-wrapper.go, histogram.go), and the registry itself
    (go-metrics.go), which registers accepted metrics with monitoring and keeps
    the others in a shadow registry.

    go-metrics is a library: its registry is the interface [MetricsRegistry]; of
    a metric only the dynamic type, the identity and what it currently reads are
    known. *)
From Stdlib Require Import SpecFloat.
From S2P Require Import Prelude GoStrings GoUtf8 StrSet Monitoring MonitoringFacts.

Open Scope string_scope.
Open Scope list_scope.
Open Scope Z_scope.

(** ** go-metrics *)

(** The dynamic types the type switches know. *)
Inductive metric_type :=
| StandardCounter
| StandardEWMA
| StandardGauge
| StandardGaugeFloat64
| StandardHealthcheck
| StandardHistogram
| StandardMeter
| StandardTimer
| FunctionalGauge
| FunctionalGaugeFloat64
| ClearOnVisitHistogram
| NilCounter
| NilEWMA
| NilGauge
| NilGaugeFloat64
| NilHealthcheck
| NilHistogram
| NilMeter
| NilTimer
| OtherType.

#[global] Instance metric_type_eq_dec : EqDecision metric_type.
Proof. solve_decision. Defined.

(** Two metrics are the same when they are the same object. *)
Record metric := mkMetric { mtype : metric_type; mid : positive }.

#[global] Instance metric_eq_dec : EqDecision metric.
Proof. solve_decision. Defined.

(** What a metric reads when it is visited; a histogram reads its sample. *)
Record reading := mkReading {
  r_Count : Z;
  r_Value : Z;
  r_ValueFloat : float64;
  r_Sum : Z;
  r_Min : Z;
  r_Max : Z;
  r_Mean : float64;
  r_StdDev : float64;
  r_Percentile : float64 → float64
}.

(** The registry of go-metrics.  It may refuse to keep a metric whose type it does
    not know; [GetOrRegister] returns the metric all the same. *)
Class MetricsRegistry (R : Type) := {
  NewShadow : R;
  sh_Get : string → R → option metric;
  sh_GetOrRegister : string → option metric → R → R * option metric;
  sh_Unregister : string → R → R;
  sh_UnregisterAll : R → R;
  sh_keeps : metric → bool;
  sh_Get_new n : sh_Get n NewShadow = None;
  sh_Get_existing n m r x : sh_Get n r = Some x → sh_GetOrRegister n m r = (r, Some x);
  sh_Get_added n m r : sh_Get n r = None →
    (sh_GetOrRegister n (Some m) r).2 = Some m ∧
    sh_Get n (sh_GetOrRegister n (Some m) r).1 = (if sh_keeps m then Some m else None);
  sh_Get_other n n' m r : n ≠ n' → sh_Get n' (sh_GetOrRegister n m r).1 = sh_Get n' r;
  sh_Get_removed n r : sh_Get n (sh_Unregister n r) = None;
  sh_Get_kept n n' r : n ≠ n' → sh_Get n' (sh_Unregister n r) = sh_Get n' r;
  sh_Get_cleared n r : sh_Get n (sh_UnregisterAll r) = None
}.

(** ** filters.go *)
Inductive action := actIgnore | actAccept.
Inductive kind := kndFind | kndAdd | kndRemove.

#[global] Instance action_eq_dec : EqDecision action.
Proof. solve_decision. Defined.

(** [st_metric] is nil when a name is looked up or removed. *)
Record state := mkState {
  st_kind : kind;
  st_action : action;
  st_mode : Mode;
  st_reg : positive;
  st_name : string;
  st_metric : option metric
}.

Definition set_action (x : action) (st : state) : state :=
  mkState (st_kind st) x (st_mode st) (st_reg st) (st_name st) (st_metric st).
Definition set_mode (x : Mode) (st : state) : state :=
  mkState (st_kind st) (st_action st) x (st_reg st) (st_name st) (st_metric st).
Definition set_name (x : string) (st : state) : state :=
  mkState (st_kind st) (st_action st) (st_mode st) (st_reg st) x (st_metric st).
Definition set_metric (x : metric) (st : state) : state :=
  mkState (st_kind st) (st_action st) (st_mode st) (st_reg st) (st_name st) (Some x).

Definition varFilter : Type := state → state.
Definition metricFilters : Type := list varFilter.
Definition MetricFilter : Type := metricFilters → metricFilters.

(** [None] is the nil pointer. *)
Definition makeFilters (in_ : list MetricFilter) : option metricFilters :=
  match in_ with
  | [] => None
  | _ => Some (foldl (λ m mk, mk m) [] in_)
  end.

Definition apply (m : option metricFilters) (st : state) : state :=
  match m with
  | Some filters => foldl (λ st filter, filter st) st filters
  | None => st
  end.

Definition withVarFilter (f : varFilter) : MetricFilter := λ m, m ++ [f].

Definition ApplyIf (pred : string → bool) (filters : list MetricFilter) : MetricFilter :=
  let then_ := makeFilters filters in
  withVarFilter (λ st, if pred (st_name st) then apply then_ st else st).

Definition Accept : MetricFilter := withVarFilter (set_action actAccept).

Definition WhitelistIf (pred : string → bool) : MetricFilter := ApplyIf pred [Accept].

Definition NameIn (names : list string) : string → bool := Has (MakeSet names).

Definition Whitelist (names : list string) : MetricFilter := WhitelistIf (NameIn names).

Definition ReportIf (pred : string → bool) : MetricFilter :=
  ApplyIf pred [withVarFilter (set_mode Reported)].

Definition ReportNames (names : list string) : MetricFilter := ReportIf (NameIn names).

Definition ModifyName (f : string → string) : MetricFilter :=
  withVarFilter (λ st, set_name (f (st_name st)) st).

Definition Rename (from to : string) : MetricFilter :=
  withVarFilter (λ st, if String.eqb (st_name st) from then set_name to (set_action actAccept st) else st).

(** [strings.Replace] of every occurrence; the empty text occurs before every
    character and at the end. *)
Fixpoint pieces (s : string) (starts : list nat) : list string :=
  match starts with
  | [] => []
  | [i] => [String.substring i (String.length s - i) s]
  | i :: (j :: _) as rest => String.substring i (j - i) s :: pieces s rest
  end.
Fixpoint replace_loop (fuel : nat) (s old new : string) : string :=
  match fuel, index_nat s old with
  | S fuel', Some i =>
      let rest := (i + String.length old)%nat in
      String.substring 0 i s +:+ new +:+
      replace_loop fuel' (String.substring rest (String.length s - rest) s) old new
  | _, _ => s
  end.
Definition ReplaceAll (s old new : string) : string :=
  if String.eqb old "" then new +:+ String.concat "" ((λ c, c +:+ new) <$> pieces s (range_string s).*1)
  else replace_loop (String.length s) s old new.

Example replace_dots : ReplaceAll "a-b-c" "-" "." = "a.b.c" ∧ ReplaceAll "ab" "" "-" = "-a-b-".
Proof. done. Qed.

Definition NameReplace (old new : string) : MetricFilter := ModifyName (λ name, ReplaceAll name old new).

Definition ToLowerName (strings_ToLower : string → string) : MetricFilter := ModifyName strings_ToLower.
Definition ToUpperName (strings_ToUpper : string → string) : MetricFilter := ModifyName strings_ToUpper.

(** ** go-metrics.go: [GoMetricsNilify] *)
Definition nilify (m : metric) : metric :=
  match mtype m with
  | StandardCounter => mkMetric NilCounter 1
  | StandardEWMA => mkMetric NilEWMA 1
  | StandardGauge => mkMetric NilGauge 1
  | StandardGaugeFloat64 => mkMetric NilGaugeFloat64 1
  | StandardHealthcheck => mkMetric NilHealthcheck 1
  | StandardHistogram => mkMetric NilHistogram 1
  | StandardMeter => mkMetric NilMeter 1
  | StandardTimer => mkMetric NilTimer 1
  | _ => m
  end.

Definition GoMetricsNilify : MetricFilter := withVarFilter (λ st,
  if decide (st_action st ≠ actIgnore) then st
  else match st_metric st with Some m => set_metric (nilify m) st | None => st end).

(** ** go-metrics-wrapper.go *)
Inductive wrapper :=
| goMetricsCounter (c : metric)
| goMetricsGauge (g : metric)
| goMetricsGaugeFloat64 (g : metric)
| goMetricsFuncGauge (g : metric)
| goMetricsFuncGaugeFloat (g : metric)
| goMetricsHistogram (h : metric)
| goMetricsMeter (m : metric)
| goMetricsClearOnVisitHistogram (h : metric).

Definition goMetricsWrap (m : option metric) : option wrapper :=
  v ← m;
  match mtype v with
  | StandardCounter => Some (goMetricsCounter v)
  | StandardGauge => Some (goMetricsGauge v)
  | StandardGaugeFloat64 => Some (goMetricsGaugeFloat64 v)
  | FunctionalGauge => Some (goMetricsFuncGauge v)
  | FunctionalGaugeFloat64 => Some (goMetricsFuncGaugeFloat v)
  | StandardHistogram => Some (goMetricsHistogram v)
  | StandardMeter => Some (goMetricsMeter v)
  | ClearOnVisitHistogram => Some (goMetricsClearOnVisitHistogram v)
  | _ => None
  end.

Definition wrapped (w : wrapper) : metric :=
  match w with
  | goMetricsCounter x | goMetricsGauge x | goMetricsGaugeFloat64 x | goMetricsFuncGauge x
  | goMetricsFuncGaugeFloat x | goMetricsHistogram x | goMetricsMeter x
  | goMetricsClearOnVisitHistogram x => x
  end.

(** 0.5, 0.75, 0.95, 0.99 and 0.999 *)
Definition p50 : float64 := S754_finite false 4503599627370496 (-53).
Definition p75 : float64 := S754_finite false 6755399441055744 (-53).
Definition p95 : float64 := S754_finite false 8556839292003942 (-53).
Definition p99 : float64 := S754_finite false 8917127262193582 (-53).
Definition p999 : float64 := S754_finite false 8998192055486251 (-53).

(** [Get]: an integer or a float *)
Definition wrapper_Get (r : reading) (w : wrapper) : Z + float64 :=
  match w with
  | goMetricsCounter _ | goMetricsMeter _ => inl (r_Count r)
  | goMetricsGauge _ | goMetricsFuncGauge _ => inl (r_Value r)
  | goMetricsGaugeFloat64 _ | goMetricsFuncGaugeFloat _ => inr (r_ValueFloat r)
  | goMetricsHistogram _ | goMetricsClearOnVisitHistogram _ => inl (r_Sum r)
  end.

(** What [Visit] calls, and whether it clears the histogram after reading it. *)
Definition wrapper_Visit (r : reading) (w : wrapper) : list event * bool :=
  match w with
  | goMetricsHistogram _ =>
      let ps := r_Percentile r <$> [p50; p75; p95; p99; p999] in
      ([OnRegistryStart; OnKey "count"; OnInt (r_Count r); OnKey "min"; OnInt (r_Min r);
        OnKey "max"; OnInt (r_Max r); OnKey "mean"; OnFloat (r_Mean r);
        OnKey "stddev"; OnFloat (r_StdDev r)] ++
       concat (zip_with (λ k p, [OnKey k; OnFloat p]) ["median"; "p75"; "p95"; "p99"; "p999"] ps) ++
       [OnRegistryFinished], false)
  | goMetricsClearOnVisitHistogram _ =>
      let ps := r_Percentile r <$> [p50; p99] in
      ([OnRegistryStart; OnKey "count"; OnInt (r_Count r); OnKey "min"; OnInt (r_Min r);
        OnKey "max"; OnInt (r_Max r)] ++
       concat (zip_with (λ k p, [OnKey k; OnFloat p]) ["median"; "p99"] ps) ++ [OnRegistryFinished], true)
  | _ => ([match wrapper_Get r w with inl i => OnInt i | inr f => OnFloat f end], false)
  end.

(** ** go-metrics.go *)

(** The monitoring store, the wrappers among its variables, and the shadow. *)
Record adapter (R : Type) := mkAdapter { mon : store; wrappers : gmap positive wrapper; shadow : R }.
Arguments mkAdapter {R}.
Arguments mon {R}.
Arguments wrappers {R}.
Arguments shadow {R}.

Record GoMetricsRegistry := mkGo { reg : positive; filters : option metricFilters }.

(** What [Get] returns: a metric of go-metrics, or a variable of monitoring. *)
Inductive found := FMetric (m : metric) | FVar (p : positive).

(** A metric, or a function that makes one. *)
Inductive metric_arg := AMetric (m : option metric) | AFunc (f : unit → option metric).

Inductive adapter_error := Emon (e : mon_error) | EalreadyRegistered (name : string).

Section registry.
Context `{MetricsRegistry R} (read : metric → reading).

Abbreviation AM := (SE (adapter R) adapter_error).

Definition on_mon {A} (c : MM A) : AM A := λ s,
  let '(m, r) := c (mon s) in
  (mkAdapter m (wrappers s) (shadow s),
   match r with Ok a => Ok a | Err e => Err (Emon e) | Panic p => Panic p | OutOfFuel => OutOfFuel end).

Definition set_shadow (r : R) (s : adapter R) : adapter R := mkAdapter (mon s) (wrappers s) r.

(** A wrapper becomes a variable of the heap. *)
Definition new_wrapper (w : wrapper) : AM positive :=
  p ← on_mon (new_object (OForeign (λ _, (wrapper_Visit (read (wrapped w)) w).1)));
  _ ← modify (λ s, mkAdapter (mon s) (<[p := w]> (wrappers s)) (shadow s));
  mret p.

Definition newGoMetrics (r : positive) (fs : list MetricFilter) : AM GoMetricsRegistry :=
  _ ← modify (set_shadow NewShadow); mret (mkGo r (makeFilters fs)).

Definition NewGoMetrics (parent : positive) (name : string) (fs : list MetricFilter) : AM GoMetricsRegistry :=
  r ← on_mon (r_NewRegistry parent name [IgnorePublishExpvar]); newGoMetrics r fs.

Definition GetGoMetrics (parent : positive) (name : string) (fs : list MetricFilter) : AM GoMetricsRegistry :=
  v ← on_mon (Monitoring.Get parent name);
  match v with
  | None => NewGoMetrics parent name fs
  | Some _ =>
      s ← get_store;
      match as_registry (mon s) v with
      | Some r => newGoMetrics r fs
      | None => panics (PExplicit "interface conversion")
      end
  end.

Definition stateWith (g : GoMetricsRegistry) (k : kind) (name : string) (m : option metric) : state :=
  apply (filters g) (mkState k actIgnore Full (reg g) name m).

Definition findState g name := stateWith g kndFind name None.
Definition addState g name m := stateWith g kndAdd name m.
Definition rmState g name := stateWith g kndRemove name None.

Definition find (g : GoMetricsRegistry) (name : string) : AM (option positive) :=
  let st := findState g name in
  if decide (st_action st = actIgnore) then mret None
  else on_mon (Monitoring.Get (reg g) (st_name st)).

Definition get (g : GoMetricsRegistry) (name : string) : AM (option found) :=
  m ← find g name;
  s ← get_store;
  match m with
  | None => mret (FMetric <$> sh_Get name (shadow s))
  | Some p =>
      match wrappers s !! p with
      | Some w => mret (Some (FMetric (wrapped w)))
      | None => mret (Some (FVar p))
      end
  end.

Definition Get (g : GoMetricsRegistry) (name : string) : AM (option found) := get g name.

Definition doRegister (g : GoMetricsRegistry) (name : string) (arg : metric_arg) : AM (option metric) :=
  let m := match arg with AMetric m => m | AFunc f => f tt end in
  let st := addState g name m in
  match st_action st with
  | actIgnore => λ s,
      let '(r, x) := sh_GetOrRegister name (st_metric st) (shadow s) in (set_shadow r s, Ok x)
  | actAccept =>
      match goMetricsWrap (st_metric st) with
      | Some w =>
          p ← new_wrapper w;
          _ ← on_mon (Monitoring.Add (reg g) (st_name st) (Some p) (st_mode st));
          mret (st_metric st)
      | None => mret (st_metric st)
      end
  end.

Definition GetOrRegister (g : GoMetricsRegistry) (name : string) (arg : metric_arg) : AM (option found) :=
  v ← get g name;
  match v with
  | Some _ => mret v
  | None => x ← doRegister g name arg; mret (FMetric <$> x)
  end.

Definition Register (g : GoMetricsRegistry) (name : string) (arg : metric_arg) : AM unit :=
  v ← get g name;
  match v with
  | Some _ => fail (EalreadyRegistered name)
  | None => _ ← doRegister g name arg; mret tt
  end.

Definition Unregister (g : GoMetricsRegistry) (name : string) : AM unit :=
  let st := rmState g name in
  _ ← on_mon (Monitoring.Remove (reg g) (st_name st));
  modify (λ s, set_shadow (sh_Unregister name (shadow s)) s).

(** An error of [Clear] is logged. *)
Definition UnregisterAll (g : GoMetricsRegistry) : AM unit :=
  _ ← modify (λ s, set_shadow (sh_UnregisterAll (shadow s)) s);
  _ ← attempt (on_mon (Monitoring.Clear (reg g)));
  mret tt.

End registry.

(** ** Package [adapter]: histograms that are cleared when they are visited
    (src/monitoring/adapter/histogram.go, the visit in go-metrics-wrapper.go)

    The sample is a metric of the third-party library go-metrics, the class
    [GoSample]; its calls are atomic.  A visit takes a snapshot of the sample,
    clears the sample and reports the snapshot: three steps that other goroutines
    can come between. *)
Module Histogram.
Open Scope string_scope.
Open Scope list_scope.
Open Scope Z_scope.

Class GoSample := {
  sample : Type;
  snap : Type;                          (** [metrics.SampleSnapshot] *)
  float : Type;
  s_Update : Z → sample → sample;
  s_Clear : sample → sample;
  s_Snapshot : sample → snap;
  (** What a sample and its snapshot answer. *)
  s_Count : sample → Z; s_Max : sample → Z; s_Min : sample → Z; s_Sum : sample → Z;
  s_Mean : sample → float; s_StdDev : sample → float; s_Variance : sample → float;
  s_Percentile : float → sample → float;
  p_Count : snap → Z; p_Max : snap → Z; p_Min : snap → Z; p_Sum : snap → Z;
  p_Mean : snap → float; p_StdDev : snap → float; p_Variance : snap → float;
  p_Percentile : float → snap → float
}.

(** A count of the values added since the last [Clear], kept by the snapshot. *)
Class GoSampleLaws `{GoSample} := {
  Count_Update v s : s_Count (s_Update v s) = s_Count s + 1;
  Count_Clear s : s_Count (s_Clear s) = 0;
  Count_Snapshot s : p_Count (s_Snapshot s) = s_Count s
}.

Section histogram.
Context `{GoSample}.

(** ** histogram.go *)
Record ClearOnVisitHistogram := mkHistogram { h_sample : sample }.
Record ClearOnVisitHistogramSnapshot := mkHSnapshot { hs_sample : snap }.

Definition NewClearOnVisitHistogram (s : sample) : ClearOnVisitHistogram := mkHistogram s.
Definition Clear (h : ClearOnVisitHistogram) : ClearOnVisitHistogram := mkHistogram (s_Clear (h_sample h)).
Definition Update (v : Z) (h : ClearOnVisitHistogram) : ClearOnVisitHistogram := mkHistogram (s_Update v (h_sample h)).
Definition Count (h : ClearOnVisitHistogram) : Z := s_Count (h_sample h).
Definition Max (h : ClearOnVisitHistogram) : Z := s_Max (h_sample h).
Definition Min (h : ClearOnVisitHistogram) : Z := s_Min (h_sample h).
Definition Sum (h : ClearOnVisitHistogram) : Z := s_Sum (h_sample h).
Definition Mean (h : ClearOnVisitHistogram) : float := s_Mean (h_sample h).
Definition StdDev (h : ClearOnVisitHistogram) : float := s_StdDev (h_sample h).
Definition Variance (h : ClearOnVisitHistogram) : float := s_Variance (h_sample h).
Definition Percentile (p : float) (h : ClearOnVisitHistogram) : float := s_Percentile p (h_sample h).
Definition Percentiles (ps : list float) (h : ClearOnVisitHistogram) : list float := (λ p, s_Percentile p (h_sample h)) <$> ps.
Definition Sample (h : ClearOnVisitHistogram) : sample := h_sample h.
Definition Snapshot (h : ClearOnVisitHistogram) : ClearOnVisitHistogramSnapshot := mkHSnapshot (s_Snapshot (h_sample h)).

Definition snapshot_Clear (h : ClearOnVisitHistogramSnapshot) : res Empty_set ClearOnVisitHistogramSnapshot :=
  Panic (PExplicit "Clear called on a HistogramSnapshot").
Definition snapshot_Update (v : Z) (h : ClearOnVisitHistogramSnapshot) : res Empty_set ClearOnVisitHistogramSnapshot :=
  Panic (PExplicit "Update called on a HistogramSnapshot").
Definition snapshot_Count (h : ClearOnVisitHistogramSnapshot) : Z := p_Count (hs_sample h).
Definition snapshot_Max (h : ClearOnVisitHistogramSnapshot) : Z := p_Max (hs_sample h).
Definition snapshot_Min (h : ClearOnVisitHistogramSnapshot) : Z := p_Min (hs_sample h).
Definition snapshot_Sum (h : ClearOnVisitHistogramSnapshot) : Z := p_Sum (hs_sample h).
Definition snapshot_Mean (h : ClearOnVisitHistogramSnapshot) : float := p_Mean (hs_sample h).
Definition snapshot_StdDev (h : ClearOnVisitHistogramSnapshot) : float := p_StdDev (hs_sample h).
Definition snapshot_Variance (h : ClearOnVisitHistogramSnapshot) : float := p_Variance (hs_sample h).
Definition snapshot_Percentile (p : float) (h : ClearOnVisitHistogramSnapshot) : float := p_Percentile p (hs_sample h).
Definition snapshot_Percentiles (ps : list float) (h : ClearOnVisitHistogramSnapshot) : list float :=
  (λ p, p_Percentile p (hs_sample h)) <$> ps.
Definition snapshot_Snapshot (h : ClearOnVisitHistogramSnapshot) : ClearOnVisitHistogramSnapshot := h.

(** ** Visits and updates as steps

    A visit is idle, or has its snapshot and is about to clear the histogram. *)
Record hsys := mkH {
  hist : ClearOnVisitHistogram;
  visits : list (option ClearOnVisitHistogramSnapshot);
  counts : list Z;                      (** what was reported as the count, latest first *)
  updates : Z                           (** the updates made *)
}.

Inductive hstep : hsys → hsys → Prop :=
| h_update y v : hstep y (mkH (Update v (hist y)) (visits y) (counts y) (updates y + 1))
| h_snapshot y i : visits y !! i = Some None →
    hstep y (mkH (hist y) (<[i := Some (Snapshot (hist y))]> (visits y)) (counts y) (updates y))
| h_clear y i s : visits y !! i = Some (Some s) →
    hstep y (mkH (Clear (hist y)) (<[i := None]> (visits y)) (snapshot_Count s :: counts y) (updates y)).

Definition total (l : list Z) : Z := foldr Z.add 0 l.

(** No update and no other visit comes between the two steps of a visit. *)
Inductive visited_alone : hsys → hsys → Prop :=
| va_update y y' v : y' = mkH (Update v (hist y)) (visits y) (counts y) (updates y + 1) → visited_alone y y'
| va_visit y y1 y2 i : visits y !! i = Some None → hstep y y1 →
    y1 = mkH (hist y) (<[i := Some (Snapshot (hist y))]> (visits y)) (counts y) (updates y) →
    y2 = mkH (Clear (hist y1)) (<[i := None]> (visits y1)) (snapshot_Count (Snapshot (hist y)) :: counts y1) (updates y1) →
    hstep y1 y2 → visited_alone y y2.

Context `{!GoSampleLaws}.

(** When the steps of each visit are not interrupted, every update is reported by
    exactly one visit, or still counted by the histogram. *)
Theorem uninterrupted_visits_exact y y' :
  updates y = total (counts y) + Count (hist y) → rtc visited_alone y y' →
  updates y' = total (counts y') + Count (hist y').
Proof.
  intros Hinv Hrun. induction Hrun as [y|y1 y2 y3 Hstep _ IH]; [done|]. apply IH.
  destruct Hstep as [y y' v ->|y ya yb i Hi _ -> -> _].
  - unfold Count in *. simpl. rewrite Count_Update. lia.
  - unfold Count in *. simpl. rewrite Count_Clear. unfold snapshot_Count, Snapshot. simpl. rewrite Count_Snapshot. lia.
Qed.

(** An update between the two steps is neither reported nor kept. *)
Theorem update_during_visit_lost (s : sample) (v : Z) : ∃ y,
  rtc hstep (mkH (mkHistogram s) [None] [] (s_Count s)) y ∧
  updates y = total (counts y) + Count (hist y) + 1.
Proof.
  eexists. split.
  - eapply rtc_l; [by apply (h_snapshot _ 0)|]. eapply rtc_l; [by apply (h_update _ v)|].
    eapply rtc_l; [by eapply (h_clear _ 0)|]. apply rtc_refl.
  - unfold Count, snapshot_Count, total, Snapshot. simpl. rewrite Count_Clear, Count_Snapshot. lia.
Qed.

(** Two visits at the same time report the same values twice. *)
Theorem concurrent_visits_report_twice (s : sample) : ∃ y,
  rtc hstep (mkH (mkHistogram s) [None; None] [] (s_Count s)) y ∧ total (counts y) = 2 * updates y.
Proof.
  eexists. split.
  - eapply rtc_l; [by apply (h_snapshot _ 0)|]. eapply rtc_l; [by apply (h_snapshot _ 1)|].
    eapply rtc_l; [by eapply (h_clear _ 0)|]. eapply rtc_l; [by eapply (h_clear _ 1)|]. apply rtc_refl.
  - unfold snapshot_Count, Snapshot, total. simpl. rewrite Count_Snapshot. lia.
Qed.
End histogram.

End Histogram.
