(* ===== verification/AdapterFacts.v ===== *)
(** * Properties of the go-metrics adapter *)
From S2P Require Import Prelude GoStrings StrSet Monitoring MonitoringFacts Adapter.

Open Scope string_scope.
Open Scope list_scope.
Open Scope Z_scope.

(** ** Filters that decide by the name *)

(** What decides where a metric is registered. *)
Definition same_view (st st' : state) : Prop := st_action st = st_action st' ∧ st_name st = st_name st'.

Definition by_name (f : varFilter) : Prop := ∀ st st', same_view st st' → same_view (f st) (f st').

Definition names_only (mk : MetricFilter) : Prop := ∀ m, Forall by_name m → Forall by_name (mk m).

Create HintDb adapter.

Lemma withVarFilter_names_only f : by_name f → names_only (withVarFilter f).
Proof. intros Hf m Hm. apply Forall_app. auto. Qed.
#[export] Hint Resolve withVarFilter_names_only : adapter.

Lemma makeFilters_by_name fs : Forall names_only fs → ∀ l, makeFilters fs = Some l → Forall by_name l.
Proof.
  intros Hfs l Hl. destruct fs as [|f fs]; [done|]. injection Hl as <-.
  change (Forall by_name (foldl (λ m mk, mk m) [] (f :: fs))). set (fs' := f :: fs) in *. clearbody fs'.
  assert (Hg : ∀ m, Forall by_name m → Forall by_name (foldl (λ m mk, mk m) m fs')); [|by apply Hg].
  induction Hfs as [|mk l Hmk _ IH]; intros m Hm; [done|]. apply IH. by apply Hmk.
Qed.

Lemma apply_by_name fs : Forall names_only fs → by_name (apply (makeFilters fs)).
Proof.
  intros Hfs st st' Hst. destruct (makeFilters fs) as [l|] eqn:El; [|done]. cbn.
  pose proof (makeFilters_by_name _ Hfs _ El) as Hl. clear El. revert st st' Hst.
  induction Hl as [|f l Hf _ IH]; intros st st' Hst; [done|]. cbn. by apply IH, Hf.
Qed.

Lemma ApplyIf_names_only pred fs : Forall names_only fs → names_only (ApplyIf pred fs).
Proof.
  intros Hfs. apply withVarFilter_names_only. intros st st' Hst. destruct (Hst) as [_ ->].
  destruct (pred _); [by apply apply_by_name|done].
Qed.
#[export] Hint Resolve ApplyIf_names_only : adapter.

Lemma ModifyName_names_only f : names_only (ModifyName f).
Proof. apply withVarFilter_names_only. intros st st' [Ha Hn]. split; cbn; congruence. Qed.
#[export] Hint Resolve ModifyName_names_only : adapter.

Lemma Rename_names_only from to : names_only (Rename from to).
Proof.
  apply withVarFilter_names_only. intros st st' [Ha Hn]. rewrite Hn. destruct (String.eqb _ _); by split.
Qed.
#[export] Hint Resolve Rename_names_only : adapter.

Lemma GoMetricsNilify_names_only : names_only GoMetricsNilify.
Proof.
  apply withVarFilter_names_only. intros st st' [Ha Hn]. rewrite Ha.
  destruct (decide _); [done|]. destruct (st_metric st), (st_metric st'); done.
Qed.
#[export] Hint Resolve GoMetricsNilify_names_only : adapter.

Lemma set_action_by_name x : by_name (set_action x).
Proof. by intros st st' []. Qed.
Lemma set_mode_by_name x : by_name (set_mode x).
Proof. by intros st st' []. Qed.
#[export] Hint Resolve set_action_by_name set_mode_by_name : adapter.

Lemma Accept_names_only : names_only Accept.
Proof. unfold Accept. auto with adapter. Qed.
#[export] Hint Resolve Accept_names_only : adapter.

(** The filters of the package, except those a client writes. *)
Inductive provided : MetricFilter → Prop :=
| pr_accept : provided Accept
| pr_whitelist names : provided (Whitelist names)
| pr_whitelist_if pred : provided (WhitelistIf pred)
| pr_report names : provided (ReportNames names)
| pr_report_if pred : provided (ReportIf pred)
| pr_modify f : provided (ModifyName f)
| pr_rename from to : provided (Rename from to)
| pr_replace old new : provided (NameReplace old new)
| pr_nilify : provided GoMetricsNilify
| pr_apply_if pred fs : Forall provided fs → provided (ApplyIf pred fs).

Lemma provided_names_only mk : provided mk → names_only mk.
Proof.
  revert mk. fix IH 2. intros mk [| | | | | | | | |pred fs Hfs].
  1-9: unfold Whitelist, WhitelistIf, ReportNames, ReportIf, NameReplace; auto 8 using Forall_nil_2, Forall_cons_2 with adapter.
  apply ApplyIf_names_only. revert fs Hfs. fix IHs 2. intros fs [|f fs' Hf Hfs']; constructor; auto.
Qed.

(** ** Names that were added *)
Lemma free_dec s names r : free s names r ∨ ¬ free s names r.
Proof.
  revert r. induction names as [|n names IH]; intros r; [right; cbn; tauto|].
  destruct (registry_at s r) as [reg|] eqn:Hr; [|right; intros [? ?]%free_registry; congruence].
  destruct (decide (names = [])) as [->|Hne].
  { cbn. rewrite Hr. destruct (entries reg !! n); [right; congruence|by left]. }
  rewrite (free_cons _ _ _ _ _ Hne Hr). destruct (entries reg !! n) as [e|]; [|by left].
  destruct (as_registry s (Var e)); [apply IH|right; tauto].
Qed.

Lemma Add_Get s r reg n v m s' :
  registry_at s r = Some reg → Monitoring.Add r n v m s = (s', Ok tt) →
  Monitoring.Get r n s' = (s', Ok v) ∧ is_Some (registry_at s' r).
Proof.
  intros Hr. unfold Monitoring.Add, mbind, SE_bind. rewrite (load_Ok _ _ _ Hr). fold (add_opts reg m).
  destruct (free_dec s (Split n ".") r) as [Hf|Hf].
  - destruct (addNames_Ok (Split n ".") r v (add_opts reg m) s Hf) as (s1 & He & Hg & _ & Hl).
    unfold panicErr. rewrite He. intros [= <-].
    destruct (grows_registry _ _ _ _ Hg Hr) as (m' & Hm' & _).
    rewrite (Get_lookup _ _ _ _ Hm'), Hl. split; [done|eauto].
  - destruct (addNames_taken (Split n ".") r v (add_opts reg m) s) as [n' He];
      [apply Split_dot_nonempty|eauto|done|].
    unfold panicErr. by rewrite He.
Qed.

Lemma wrapped_wrap m w : goMetricsWrap m = Some w → m = Some (wrapped w).
Proof. destruct m as [[[] i]|]; cbn; intros; by simplify_eq. Qed.

Section facts.
Context `{MetricsRegistry R} (read : metric → reading).

Implicit Types (s : adapter R) (g : GoMetricsRegistry).

(** The registry of [g] exists, and its filters decide by names. *)
Record usable g s : Prop := {
  us_reg : is_Some (registry_at (mon s) (reg g));
  us_filters : by_name (apply (filters g))
}.

Lemma same_state g k k' name m m' : by_name (apply (filters g)) →
  same_view (stateWith g k name m) (stateWith g k' name m').
Proof. intros Hf. by apply Hf. Qed.

(** Where [find] looks. *)
Definition accepted g name : bool := bool_decide (st_action (findState g name) = actAccept).
Definition key g name : string := st_name (findState g name).

Lemma find_run g name s : usable g s →
  find g name s =
  (s, Ok (if accepted g name then lookup_names (mon s) (Split (key g name) ".") (reg g) ≫= Var else None)).
Proof.
  intros [[rg Hr] _]. unfold find, accepted, key. destruct (st_action (findState g name)).
  - rewrite decide_True, bool_decide_false by done. done.
  - rewrite decide_False, bool_decide_true by done. unfold on_mon.
    rewrite (Get_lookup _ _ _ _ Hr). by destruct s.
Qed.

Definition lookup g name s : option found :=
  match (if accepted g name then lookup_names (mon s) (Split (key g name) ".") (reg g) ≫= Var else None) with
  | None => FMetric <$> sh_Get name (shadow s)
  | Some p => Some (match wrappers s !! p with Some w => FMetric (wrapped w) | None => FVar p end)
  end.

Lemma get_run g name s : usable g s → get g name s = (s, Ok (lookup g name s)).
Proof.
  intros Hu. unfold get. rewrite (SE_bind_run _ _ _ _ _ (find_run g name s Hu)), SE_bind_get.
  unfold lookup. destruct (if accepted g name then _ else _) as [p|]; [|done]. by destruct (wrappers s !! p).
Qed.

(** The metric that is registered can be found again: an accepted one has a
    wrapper, and the shadow keeps a refused one. *)
Definition arg_metric (arg : metric_arg) : option metric := match arg with AMetric m => m | AFunc f => f tt end.

Definition durable g name (arg : metric_arg) : Prop :=
  let m := st_metric (addState g name (arg_metric arg)) in
  if accepted g name then is_Some (goMetricsWrap m) else ∃ x, m = Some x ∧ sh_keeps x = true.

Lemma accepted_add g name m : by_name (apply (filters g)) →
  accepted g name = bool_decide (st_action (addState g name m) = actAccept) ∧
  key g name = st_name (addState g name m).
Proof. intros Hf. destruct (same_state g kndFind kndAdd name None m Hf) as [Ha Hn]. unfold accepted, key, findState, addState. by rewrite Ha, Hn. Qed.

Lemma doRegister_found g name arg s s' x :
  usable g s → lookup g name s = None → durable g name arg →
  doRegister read g name arg s = (s', Ok x) →
  usable g s' ∧ is_Some x ∧ lookup g name s' = FMetric <$> x.
Proof.
  intros [Hreg Hf] Hl Hd. destruct (accepted_add g name (arg_metric arg) Hf) as [Ha Hk].
  unfold durable in Hd. unfold doRegister. fold (arg_metric arg).
  set (st := addState g name (arg_metric arg)) in *. cbv zeta in *.
  destruct (st_action st) eqn:Est.
  - rewrite bool_decide_false in Ha by done. rewrite Ha in Hd. destruct Hd as (m & Hm & Hkeep).
    unfold lookup in Hl |- *. rewrite Ha in Hl |- *. rewrite Hm.
    assert (Hn : sh_Get name (shadow s) = None) by (by destruct (sh_Get name (shadow s))).
    destruct (sh_Get_added name m (shadow s) Hn) as [H1 H2]. rewrite Hkeep in H2.
    destruct (sh_GetOrRegister name (Some m) (shadow s)) as [r y]. cbn in H1, H2. intros [= <- <-].
    subst y. split; [by split|]. split; [done|]. cbn. by rewrite H2.
  - rewrite bool_decide_true in Ha by done. rewrite Ha in Hd. destruct Hd as [w Hw]. rewrite Hw.
    intros (s1 & p & Hnew & Hrest)%SE_bind_Ok. apply SE_bind_Ok in Hrest as (s2 & [] & Hadd & Hret).
    injection Hret as <- <-. injection Hnew as <- <-.
    unfold on_mon in Hadd. cbn [mon wrappers shadow fst] in Hadd.
    destruct Hreg as [rg Hr].
    match type of Hadd with context [Monitoring.Add _ _ (Some ?q) _ ?m1] =>
      set (m1' := m1) in *; set (p := q) in * end.
    assert (Hg : grows (mon s) m1') by apply new_object_grows.
    destruct (grows_registry _ _ _ _ Hg Hr) as (em & Hr1 & _).
    destruct (Monitoring.Add (reg g) (st_name st) (Some p) (st_mode st) m1') as [m2 [[]|?|?|]] eqn:Eadd; [|discriminate Hadd..].
    injection Hadd as <-. destruct (Add_Get _ _ _ _ _ _ _ Hr1 Eadd) as [Hget [rg2 Hr2]].
    split; [split; [by eexists|done]|]. rewrite (wrapped_wrap _ _ Hw). split; [done|].
    rewrite (Get_lookup _ _ _ _ Hr2) in Hget. injection Hget as Hget.
    unfold lookup. rewrite Ha, Hk. cbn [mon wrappers]. rewrite Hget. by rewrite lookup_insert_eq.
Qed.

(** C36: when [GetOrRegister] of a name returns, in a registry whose filters
    look at names only, and the metric could be stored (an accepted one is of a
    type with a wrapper, a refused one of a type go-metrics keeps), it returns a
    metric and [Get] finds that metric in the state it leaves.  There, whatever
    they are offered, [GetOrRegister] of the name returns the same metric and
    [Register] fails as already registered; neither changes the state, so they
    do so however often they are called. *)
Theorem GetOrRegister_once g name arg s s' v :
  usable g s → durable g name arg →
  GetOrRegister read g name arg s = (s', Ok v) →
  is_Some v ∧ Get g name s' = (s', Ok v) ∧
  ∀ arg', GetOrRegister read g name arg' s' = (s', Ok v) ∧
          Register read g name arg' s' = (s', Err (EalreadyRegistered name)).
Proof.
  intros Hu Hd Hrun.
  assert (Hs' : usable g s' ∧ is_Some v ∧ lookup g name s' = v).
  { unfold GetOrRegister in Hrun. rewrite (SE_bind_run _ _ _ _ _ (get_run g name s Hu)) in Hrun.
    destruct (lookup g name s) as [x|] eqn:El; [injection Hrun as <- <-; eauto|].
    apply SE_bind_Ok in Hrun as (s1 & x & Hreg & Hret). injection Hret as <- <-.
    destruct (doRegister_found _ _ _ _ _ _ Hu El Hd Hreg) as (? & [y ->] & ?). eauto. }
  destruct Hs' as (Hu' & [x ->] & Hl). pose proof (get_run g name s' Hu') as Hget. rewrite Hl in Hget.
  split; [done|]. split; [done|]. intros arg'. unfold GetOrRegister, Register.
  by rewrite !(SE_bind_run _ _ _ _ _ Hget).
Qed.

(** After [Unregister] the name is unknown. *)
Theorem Unregister_forgets g name s :
  usable g s → ∃ s', Unregister g name s = (s', Ok tt) ∧ Get g name s' = (s', Ok None).
Proof.
  intros [Hreg Hf]. destruct (same_state g kndFind kndRemove name None None Hf) as [_ Hk].
  destruct (Remove_spec (reg g) (st_name (rmState g name)) (mon s) Hreg) as (m' & Hrm & Hget & Hsh).
  unfold Unregister, on_mon, mbind, SE_bind. rewrite Hrm. eexists. split; [done|].
  destruct Hreg as [rg Hr]. destruct (shrinks_registry _ _ _ _ _ Hsh Hr) as (em & Hr' & _).
  set (s' := set_shadow _ _). assert (Hu' : usable g s') by (split; [by eexists|done]).
  unfold Get. rewrite (get_run _ _ _ Hu'). do 2 f_equal. unfold lookup, s', key. cbn.
  rewrite (Get_lookup _ _ _ _ Hr') in Hget. injection Hget as Hget.
  unfold findState, rmState in *. rewrite Hk, Hget, sh_Get_removed. by destruct (accepted g name).
Qed.

(** A metric the filters refuse never reaches monitoring: registering it
    changes neither the registry nor its variables, with any filters. *)
Theorem refused_metric_hidden g name arg s s' v :
  st_action (addState g name (arg_metric arg)) = actIgnore →
  usable g s → GetOrRegister read g name arg s = (s', Ok v) →
  mon s' = mon s ∧ wrappers s' = wrappers s.
Proof.
  intros Hi Hu. unfold GetOrRegister. rewrite (SE_bind_run _ _ _ _ _ (get_run g name s Hu)).
  destruct (lookup g name s); [by intros [= <- <-]|].
  unfold doRegister, mbind, SE_bind. fold (arg_metric arg). rewrite Hi.
  destruct (sh_GetOrRegister _ _ _). by intros [= <- <-].
Qed.

End facts.

(** ** A concrete shadow, and the metrics that are lost *)
#[local] Program Instance gmap_registry : MetricsRegistry (gmap string metric) := {
  NewShadow := ∅;
  sh_Get n r := r !! n;
  sh_GetOrRegister n m r :=
    match r !! n, m with
    | Some x, _ => (r, Some x)
    | None, Some x => (if bool_decide (mtype x ≠ OtherType) then <[n := x]> r else r, Some x)
    | None, None => (r, None)
    end;
  sh_Unregister n r := delete n r;
  sh_UnregisterAll _ := ∅;
  sh_keeps m := bool_decide (mtype m ≠ OtherType)
}.
Next Obligation. done. Qed.
Next Obligation. intros n m r x Hx. cbn. by rewrite Hx. Qed.
Next Obligation. intros n m r Hn. cbn. rewrite Hn. split; [done|]. case_bool_decide; cbn; [apply lookup_insert_eq|done]. Qed.
Next Obligation.
  intros n n' m r Hn. cbn. destruct (r !! n), m; cbn; try done. case_bool_decide; [|done].
  by rewrite lookup_insert_ne.
Qed.
Next Obligation. intros. apply lookup_delete_eq. Qed.
Next Obligation. intros. by apply lookup_delete_ne. Qed.
Next Obligation. done. Qed.

Definition no_reading (m : metric) : reading :=
  mkReading 0 0 (SpecFloat.S754_zero false) 0 0 0 (SpecFloat.S754_zero false) (SpecFloat.S754_zero false) (λ x, x).

Definition empty_adapter : adapter (gmap string metric) := mkAdapter init_store ∅ ∅.
Definition accept_all : GoMetricsRegistry := mkGo Default (makeFilters [Accept]).

Lemma usable_provided fs : Forall provided fs → usable (mkGo Default (makeFilters fs)) empty_adapter.
Proof.
  intros Hfs. split; [by eexists|]. apply apply_by_name. eapply Forall_impl; [done|]. apply provided_names_only.
Qed.

Lemma GetOrRegister_once_witness :
  let c := mkMetric StandardCounter 5 in
  let s' := (GetOrRegister no_reading accept_all "hits" (AMetric (Some c)) empty_adapter).1 in
  Get accept_all "hits" s' = (s', Ok (Some (FMetric c))).
Proof.
  intros c s'.
  refine (proj1 (proj2 (GetOrRegister_once no_reading accept_all "hits" (AMetric (Some c)) empty_adapter s' _ _ _ _))).
  - apply usable_provided. repeat constructor.
  - vm_compute. by eexists.
  - vm_compute. reflexivity.
Defined.

Lemma refused_metric_hidden_witness :
  let c := mkMetric StandardCounter 5 in
  let g := mkGo Default (makeFilters [Whitelist ["misses"]]) in
  mon (GetOrRegister no_reading g "hits" (AMetric (Some c)) empty_adapter).1 = init_store.
Proof.
  intros c g.
  refine (proj1 (refused_metric_hidden no_reading g "hits" (AMetric (Some c)) empty_adapter _ (Some (FMetric c)) _ _ _)).
  - vm_compute. reflexivity.
  - apply usable_provided. repeat constructor.
  - vm_compute. reflexivity.
Defined.

(** An accepted timer has no wrapper: it is returned, and stored nowhere. *)
Theorem unwrappable_metric_lost :
  let t := mkMetric StandardTimer 5 in
  let '(s, r) := GetOrRegister no_reading accept_all "latency" (AMetric (Some t)) empty_adapter in
  r = Ok (Some (FMetric t)) ∧ (Get accept_all "latency" s).2 = Ok None ∧
  (Register no_reading accept_all "latency" (AMetric (Some (mkMetric StandardTimer 6))) s).2 = Ok tt.
Proof. vm_compute. done. Qed.

(** [Unregister] of a name that was never registered removes the metric whose
    filtered name it is. *)
Theorem Unregister_removes_renamed :
  let g := mkGo Default (makeFilters [Rename "x" "a"]) in
  let c := mkMetric StandardCounter 5 in
  let s1 := (Register no_reading g "x" (AMetric (Some c)) empty_adapter).1 in
  (Get g "x" s1).2 = Ok (Some (FMetric c)) ∧ (Get g "a" s1).2 = Ok None ∧
  (Get g "x" (Unregister g "a" s1).1).2 = Ok None.
Proof. vm_compute. done. Qed.

(** A metric whose name continues that of another one: [Register] panics instead
    of returning an error. *)
Theorem Register_below_metric_panics :
  let c := mkMetric StandardCounter 5 in
  let s1 := (Register no_reading accept_all "a" (AMetric (Some c)) empty_adapter).1 in
  match (Register no_reading accept_all "a.b" (AMetric (Some (mkMetric StandardCounter 6))) s1).2 with
  | Panic _ => True
  | _ => False
  end.
Proof. vm_compute. done. Qed.
