(* ===== verification/Service.v ===== *)
(** * Package [service] (src/service)

    Stopping a service (service.go, service_windows.go): the goroutine that waits
    for a signal and the one that talks to the Windows service manager share one
    [sync.Once]; the second answers the manager while a third goroutine forwards
    its requests.  The machine interleaves their steps; a send on an unbuffered
    channel is one step of both sides.

    Profiles and the metrics page (service.go): the files that [BeforeRun] opens
    and [Cleanup] closes, and the text [metricsHandler] writes.  The profiler,
    the manager and the operating system are the environment. *)
From S2P Require Import Prelude GoStrings.

Open Scope string_scope.
Open Scope list_scope.
Open Scope Z_scope.

(** ** The service manager's vocabulary *)
Inductive State := StartPending | Running | StopPending | Stopped.
Inductive Cmd := Interrogate (current : State) | Stop | Shutdown | OtherCmd (n : Z).

#[global] Instance State_eq_dec : EqDecision State.
Proof. solve_decision. Defined.

(** What the manager is told: a change of state, or its own status back. *)
Inductive report := Report (s : State) | Echo (s : State).

#[global] Instance report_eq_dec : EqDecision report.
Proof. solve_decision. Defined.

(** ** Where the goroutines are *)

(** [sync.Once]: a second caller waits while the first one runs the function. *)
Inductive once := OnceNew | OnceRunning | OnceDone.

(** [ProcessWindowsControlEvents] and, inside it, [Execute]. *)
Inductive win :=
| WInit                       (** before [run] *)
| WSend0                      (** [changes <- StartPending] *)
| WSend1                      (** [changes <- Running] *)
| WLoop                       (** [range combinedChan] *)
| WEcho (again : bool) (s : State)
| WPending                    (** [trySendState(svc.StopPending, changes)] *)
| WDo                         (** [m.stopCallback()], which is [callback.Do(stopFunction)] *)
| WRunning
| WWait                       (** [<-m.done] *)
| WStopped                    (** the deferred [trySendState(svc.Stopped, changes)] *)
| WReturned                   (** the deferred [close(executeFinished)] *)
| WFinished.

(** The goroutine of [Execute] that forwards requests. *)
Inductive fwd := FNone | FSelect | FSend (c : Cmd) | FLast | FEnd.

(** The goroutine of [HandleSignals] that waits for a signal. *)
Inductive sig := SWait | SCancel | SDo | SRunning | SEnd.

#[global] Instance once_eq_dec : EqDecision once.
Proof. solve_decision. Defined.
#[global] Instance win_eq_dec : EqDecision win.
Proof. solve_decision. Defined.
#[global] Instance sig_eq_dec : EqDecision sig.
Proof. solve_decision. Defined.

Record sys := mkSys {
  done : bool;               (** [serviceInstance.done] is closed *)
  executeFinished : bool;
  callback : once;
  cancelled : bool;
  stops : nat;               (** how often [stopFunction] was called *)
  changes : list report;     (** what the manager was told, oldest first *)
  wpc : win;
  fpc : fwd;
  spc : sig
}.

Definition set_wpc (w : win) (s : sys) : sys :=
  mkSys (done s) (executeFinished s) (callback s) (cancelled s) (stops s) (changes s) w (fpc s) (spc s).
Definition set_fpc (f : fwd) (s : sys) : sys :=
  mkSys (done s) (executeFinished s) (callback s) (cancelled s) (stops s) (changes s) (wpc s) f (spc s).
Definition set_spc (x : sig) (s : sys) : sys :=
  mkSys (done s) (executeFinished s) (callback s) (cancelled s) (stops s) (changes s) (wpc s) (fpc s) x.
Definition tell (r : report) (s : sys) : sys :=
  mkSys (done s) (executeFinished s) (callback s) (cancelled s) (stops s) (changes s ++ [r]) (wpc s) (fpc s) (spc s).
Definition set_callback (o : once) (s : sys) : sys :=
  mkSys (done s) (executeFinished s) o (cancelled s) (stops s) (changes s) (wpc s) (fpc s) (spc s).
Definition cancel (s : sys) : sys :=
  mkSys (done s) (executeFinished s) (callback s) true (stops s) (changes s) (wpc s) (fpc s) (spc s).
Definition call_stop (s : sys) : sys :=
  mkSys (done s) (executeFinished s) OnceRunning (cancelled s) (S (stops s)) (changes s) (wpc s) (fpc s) (spc s).
Definition close_executeFinished (s : sys) : sys :=
  mkSys (done s) true (callback s) (cancelled s) (stops s) (changes s) (wpc s) (fpc s) (spc s).

(** On Windows the second goroutine runs [ProcessWindowsControlEvents]; elsewhere
    that does nothing. *)
Definition HandleSignals (windows : bool) : sys :=
  mkSys false false OnceNew false 0 [] (if windows then WInit else WFinished) FNone SWait.

(** [beatService.stop], called by [NotifyTermination]: closing a closed channel
    panics. *)
Definition stop (s : sys) : res unit sys :=
  if done s then Panic (PExplicit "close of closed channel")
  else Ok (mkSys true (executeFinished s) (callback s) (cancelled s) (stops s) (changes s) (wpc s) (fpc s) (spc s)).

(** [callback.Do(stopFunction)]: run it, return, or wait. *)
Definition once_Do (running : sys → sys) (returned : sys → sys) (s : sys) : option sys :=
  match callback s with
  | OnceNew => Some (running (call_stop s))
  | OnceRunning => None
  | OnceDone => Some (returned s)
  end.

(** [trySendState]: the send may time out. *)
Definition trySendState (sent : bool) (st : State) (s : sys) : sys := if sent then tell (Report st) s else s.

(** The case a request is handled by in the loop of [Execute]. *)
Definition handle (c : Cmd) : win :=
  match c with
  | Interrogate st => WEcho true st
  | Stop | Shutdown => WPending
  | OtherCmd _ => WLoop
  end.

(** One step of the Windows goroutine; [b] is the outcome of what the environment
    decides: whether the service could be run, whether a send timed out. *)
Definition win_step (b : bool) (s : sys) : option sys :=
  match wpc s with
  | WInit => Some (set_wpc (if b then WSend0 else WReturned) s)
  | WSend0 => Some (set_wpc WSend1 (tell (Report StartPending) s))
  | WSend1 => Some (set_wpc WLoop (set_fpc FSelect (tell (Report Running) s)))
  | WLoop =>
      match fpc s with
      | FSend c => Some (set_wpc (handle c) (set_fpc FSelect s))
      | FLast => Some (set_wpc (handle Shutdown) (set_fpc FEnd s))
      | _ => None
      end
  | WEcho again st => Some (set_wpc (if again then WEcho false st else WLoop) (tell (Echo st) s))
  | WPending => Some (set_wpc WDo (trySendState b StopPending s))
  | WDo => once_Do (set_wpc WRunning) (set_wpc WWait) s
  | WRunning => Some (set_wpc WWait (set_callback OnceDone s))
  | WWait => if done s then Some (set_wpc WStopped s) else None
  | WStopped => Some (set_wpc WReturned (trySendState b Stopped s))
  | WReturned => Some (set_wpc WFinished (close_executeFinished s))
  | WFinished => None
  end.

(** The forwarder: a request arrives, or [done] is closed. *)
Definition fwd_recv (c : Cmd) (s : sys) : option sys :=
  match fpc s with FSelect => Some (set_fpc (FSend c) s) | _ => None end.
Definition fwd_done (s : sys) : option sys :=
  match fpc s with FSelect => if done s then Some (set_fpc FLast s) else None | _ => None end.

(** The signal goroutine after a signal arrived. *)
Definition sig_recv (s : sys) : option sys :=
  match spc s with SWait => Some (set_spc SCancel s) | _ => None end.
Definition sig_step (s : sys) : option sys :=
  match spc s with
  | SCancel => Some (set_spc SDo (cancel s))
  | SDo => once_Do (set_spc SRunning) (set_spc SEnd) s
  | SRunning => Some (set_spc SEnd (set_callback OnceDone s))
  | SWait | SEnd => None
  end.

(** A step of one of the goroutines, the world doing its part where it has one:
    the service manager takes the status it is sent, [svc.Run] answers, the
    stop function returns. *)
Inductive served_step : sys → sys → Prop :=
| served_win b s s' : win_step b s = Some s' → served_step s s'
| served_fwd s s' : fwd_done s = Some s' → served_step s s'
| served_sig s s' : sig_step s = Some s' → served_step s s'.

Inductive step : sys → sys → Prop :=
| step_served s s' : served_step s s' → step s s'
| step_request c s s' : fwd_recv c s = Some s' → step s s'
| step_signal s s' : sig_recv s = Some s' → step s s'
| step_notify s s' : stop s = Ok s' → step s s'.

(** Those of these steps that need nothing but the program and its clock: a send
    with a timeout goes on without the manager. *)
Definition win_alone (b : bool) (w : win) : bool :=
  match w with
  | WInit | WSend0 | WSend1 | WEcho _ _ | WRunning => false
  | WPending | WStopped => negb b
  | WLoop | WDo | WWait | WReturned | WFinished => true
  end.

Inductive program_step : sys → sys → Prop :=
| program_win b s s' : win_step b s = Some s' → win_alone b (wpc s) = true → program_step s s'
| program_fwd s s' : fwd_done s = Some s' → program_step s s'
| program_sig s s' : sig_step s = Some s' → spc s ≠ SRunning → program_step s s'.

(** ** Invariant *)
Definition past_do (w : win) : bool :=
  match w with WWait | WStopped => true | _ => false end.

(** Who is inside [stopFunction]. *)
Definition in_win (w : win) : nat := match w with WRunning => 1 | _ => 0 end.
Definition in_sig (x : sig) : nat := match x with SRunning => 1 | _ => 0 end.
Definition runners (s : sys) : nat := in_win (wpc s) + in_sig (spc s).

Record ok (s : sys) : Prop := {
  ok_once : match callback s with
            | OnceNew => stops s = 0%nat ∧ runners s = 0%nat
            | OnceRunning => stops s = 1%nat ∧ runners s = 1%nat
            | OnceDone => stops s = 1%nat ∧ runners s = 0%nat
            end;
  ok_wait : past_do (wpc s) = true → callback s = OnceDone;
  ok_stopped : wpc s = WStopped → done s = true;
  ok_reported : Report Stopped ∈ changes s → callback s = OnceDone ∧ done s = true;
  ok_cancel : spc s = SWait ∨ spc s = SCancel ∨ cancelled s = true
}.

Lemma init_ok windows : ok (HandleSignals windows).
Proof. destruct windows; split; cbn; try done; auto; intros []%elem_of_nil. Qed.

Create HintDb service.

Lemma tell_ok r s : ok s → (r = Report Stopped → callback s = OnceDone ∧ done s = true) → ok (tell r s).
Proof.
  intros [Ho Hw Hst Hr Hc] Hn. split; try done. cbn.
  intros [?|<-%list_elem_of_singleton]%elem_of_app; auto.
Qed.

Lemma set_fpc_ok f s : ok s → ok (set_fpc f s).
Proof. by intros []. Qed.

Lemma set_wpc_ok w s :
  ok s → in_win (wpc s) = in_win w → (past_do w = true → callback s = OnceDone) →
  (w = WStopped → done s = true) → ok (set_wpc w s).
Proof. intros [Ho _ _ Hr Hc] Hi Hp Hst. split; try done. unfold runners in *. cbn. by rewrite <-Hi. Qed.

Lemma set_spc_ok x s :
  ok s → in_sig (spc s) = in_sig x → (x = SWait ∨ x = SCancel ∨ cancelled s = true) → ok (set_spc x s).
Proof. intros [Ho Hw Hst Hr _] Hi Hx. split; try done. unfold runners in *. cbn. by rewrite <-Hi. Qed.

Lemma tell_other_ok r s : ok s → r ≠ Report Stopped → ok (tell r s).
Proof. intros. by apply tell_ok. Qed.

#[local] Hint Resolve tell_other_ok set_fpc_ok : service.
#[local] Hint Extern 1 (_ ≠ _) => discriminate : service.

(** The first call of [stopFunction] starts, from either goroutine, and ends. *)
Lemma win_runs s : ok s → callback s = OnceNew → wpc s = WDo → ok (set_wpc WRunning (call_stop s)).
Proof.
  intros [Ho Hw Hst Hr Hc] Hcb Hpc. rewrite Hcb in *. unfold runners in *. rewrite Hpc in *. cbn in *.
  split; try done; unfold runners; cbn; [|by intros []%Hr]. lia.
Qed.

Lemma sig_runs s : ok s → callback s = OnceNew → spc s = SDo → ok (set_spc SRunning (call_stop s)).
Proof.
  intros [Ho Hw Hst Hr Hc] Hcb Hpc. rewrite Hcb in *. unfold runners in *. rewrite Hpc in *. cbn in *.
  split; try done; unfold runners; cbn; [lia|by intros ?%Hw|by intros []%Hr|].
  destruct Hc as [?|[?|?]]; auto; congruence.
Qed.

Lemma win_returns s : ok s → wpc s = WRunning → ok (set_wpc WWait (set_callback OnceDone s)).
Proof.
  intros [Ho Hw Hst Hr Hc] Hpc. unfold runners in *. rewrite Hpc in *.
  split; try done; unfold runners; cbn in *; [|by intros []%Hr].
  destruct (callback s); lia.
Qed.

Lemma sig_returns s : ok s → spc s = SRunning → ok (set_spc SEnd (set_callback OnceDone s)).
Proof.
  intros [Ho Hw Hst Hr Hc] Hpc. unfold runners in *. rewrite Hpc in *.
  split; try done; unfold runners; cbn in *; [destruct (callback s); lia|by intros []%Hr|].
  destruct Hc as [?|[?|?]]; auto; congruence.
Qed.

Lemma win_step_ok b s s' : ok s → win_step b s = Some s' → ok s'.
Proof.
  intros Hok. unfold win_step, once_Do, trySendState. destruct (wpc s) eqn:Ew.
  - intros [= <-]. apply set_wpc_ok; [done|by rewrite Ew; destruct b|by destruct b..].
  - intros [= <-]. apply set_wpc_ok; [auto with service|cbn; by rewrite Ew|done..].
  - intros [= <-]. apply set_wpc_ok; [auto with service|cbn; by rewrite Ew|done..].
  - destruct (fpc s) as [| |c| |]; intros [= <-].
    all: apply set_wpc_ok; [auto with service|cbn; rewrite Ew; try (by destruct c); done|try (by destruct c); done..].
  - intros [= <-]. apply set_wpc_ok; [auto with service|cbn; rewrite Ew; by destruct again|by destruct again..].
  - intros [= <-]. apply set_wpc_ok; [destruct b; auto with service|destruct b; cbn; by rewrite Ew|done..].
  - destruct (callback s) eqn:Ec; [|done|]; intros [= <-]; [by apply win_runs|].
    apply set_wpc_ok; [done|by rewrite Ew|done..].
  - intros [= <-]. by apply win_returns.
  - destruct (done s) eqn:Ed; [|done]. intros [= <-]. apply set_wpc_ok; [done|by rewrite Ew| |done].
    intros _. apply (ok_wait _ Hok). by rewrite Ew.
  - intros [= <-]. apply set_wpc_ok; [|destruct b; cbn; by rewrite Ew|done..].
    destruct b; [|done]. apply tell_ok; [done|]. intros _. split; [|by apply (ok_stopped _ Hok)].
    apply (ok_wait _ Hok). by rewrite Ew.
  - intros [= <-]. apply set_wpc_ok; [by destruct Hok|cbn; by rewrite Ew|done..].
  - done.
Qed.

Lemma step_ok s s' : ok s → step s s' → ok s'.
Proof.
  intros Hok Hst. revert Hok.
  destruct Hst as [s0 s1 [b s2 s3 Hs|s2 s3 Hs|s2 s3 Hs]|c s0 s1 Hs|s0 s1 Hs|s0 s1 Hs]; intros Hok.
  - by eapply win_step_ok.
  - unfold fwd_done in Hs. destruct (fpc s2), (done s2); simplify_eq. auto with service.
  - unfold sig_step, once_Do in Hs. destruct (spc s2) eqn:Ex; [done| | | |done].
    + injection Hs as <-. apply set_spc_ok; [destruct Hok; split; cbn; auto|cbn; by rewrite Ex|auto].
    + pose proof (ok_cancel _ Hok) as Hc. rewrite Ex in Hc.
      destruct (callback s2) eqn:Ec; [|done|]; injection Hs as <-; [by apply sig_runs|].
      apply set_spc_ok; [done|by rewrite Ex|]. destruct Hc as [?|[?|?]]; auto; congruence.
    + injection Hs as <-. by apply sig_returns.
  - unfold fwd_recv in Hs. destruct (fpc s0); simplify_eq. auto with service.
  - unfold sig_recv in Hs. destruct (spc s0) eqn:Ex; simplify_eq. apply set_spc_ok; [done|by rewrite Ex|auto].
  - unfold stop in Hs. destruct (done s0) eqn:Ed; simplify_eq. destruct Hok as [Ho Hw Hst Hr Hc].
    split; try done. cbn. intros [? ?]%Hr. auto.
Qed.

Lemma reachable_ok windows s : rtc step (HandleSignals windows) s → ok s.
Proof.
  intros Hr. assert (Hi := init_ok windows). induction Hr as [|x y z Hxy _ IH]; [done|].
  by apply IH, (step_ok x).
Qed.

(** While [Execute] reads requests its forwarder runs. *)
Definition forwarding (s : sys) : Prop :=
  match wpc s with
  | WLoop | WEcho _ _ => match fpc s with FNone | FEnd => False | _ => True end
  | _ => True
  end.

Lemma step_forwarding s s' : forwarding s → step s s' → forwarding s'.
Proof.
  intros Hf Hst. revert Hf. destruct Hst as [s0 s1 [b s2 s3 Hs|s2 s3 Hs|s2 s3 Hs]|c s0 s1 Hs|s0 s1 Hs|s0 s1 Hs];
    unfold forwarding; intros Hf.
  - unfold win_step, once_Do, trySendState in Hs. destruct (wpc s2) eqn:Ew; simplify_eq/=; try done.
    + by destruct b.
    + destruct (fpc s2) as [| |[]| |]; by simplify_eq/=.
    + by destruct again.
    + destruct (callback s2); by simplify_eq/=.
    + destruct (done s2); by simplify_eq/=.
  - unfold fwd_done in Hs. destruct (fpc s2) eqn:Ef, (done s2); simplify_eq/=. by destruct (wpc s2).
  - unfold sig_step, once_Do in Hs. destruct (spc s2), (callback s2); by simplify_eq/=.
  - unfold fwd_recv in Hs. destruct (fpc s0) eqn:Ef; simplify_eq/=. by destruct (wpc s0).
  - unfold sig_recv in Hs. destruct (spc s0); by simplify_eq/=.
  - unfold stop in Hs. destruct (done s0); by simplify_eq/=.
Qed.

(** ** The Windows goroutine comes to its end *)
(** An upper bound on the steps that are left while no signal, request or
    notification arrives. *)
Definition win_rank (w : win) : nat :=
  match w with
  | WInit => 40 | WSend0 => 39 | WSend1 => 38 | WEcho true _ => 12 | WEcho false _ => 11 | WLoop => 10
  | WPending => 9 | WDo => 8 | WRunning => 7 | WWait => 6 | WStopped => 5 | WReturned => 4 | WFinished => 3
  end.
Definition fwd_rank (f : fwd) : nat :=
  match f with FSend _ => 8 | FSelect => 4 | FLast => 2 | FNone | FEnd => 0 end.
Definition sig_rank (x : sig) : nat :=
  match x with SCancel => 3 | SDo => 2 | SRunning => 1 | SWait | SEnd => 0 end.
Definition rank (s : sys) : nat := win_rank (wpc s) + fwd_rank (fpc s) + sig_rank (spc s).

Lemma rank_bound s : (rank s ≤ 51)%nat.
Proof. unfold rank. destruct (wpc s) as [| | | |[] ?| | | | | | |], (fpc s), (spc s); cbn; lia. Qed.

Lemma served_rank s s' : served_step s s' → (rank s' < rank s)%nat.
Proof.
  unfold rank. intros [b s0 s1 Hs|s0 s1 Hs|s0 s1 Hs].
  - unfold win_step, once_Do, trySendState in Hs. destruct (wpc s0) as [| | | |[] ?| | | | | | |] eqn:Ew;
      repeat (case_match; simplify_eq/=); simplify_eq/=; try lia.
    all: try (destruct b; cbn; lia). all: destruct c; cbn; lia.
  - unfold fwd_done in Hs. destruct (fpc s0) eqn:Ef, (done s0); simplify_eq/=. lia.
  - unfold sig_step, once_Do in Hs. destruct (spc s0) eqn:Es; [done| | | |done];
      try destruct (callback s0); simplify_eq/=; lia.
Qed.

Lemma served_run_bound k s s' : nsteps served_step k s s' → (k + rank s' ≤ rank s)%nat.
Proof. induction 1 as [|k x y z Hxy _ IH]; [lia|]. apply served_rank in Hxy. lia. Qed.

Lemma served_done s s' : served_step s s' → done s' = done s.
Proof.
  intros [b s0 s1 Hs|s0 s1 Hs|s0 s1 Hs].
  - unfold win_step, once_Do, trySendState in Hs. repeat (case_match; simplify_eq/=); done.
  - unfold fwd_done in Hs. repeat (case_match; simplify_eq/=); done.
  - unfold sig_step, once_Do in Hs. repeat (case_match; simplify_eq/=); done.
Qed.

(** The status the goroutine waits for the manager to take, [svc.Run] included. *)
Definition needs_manager (s : sys) : Prop :=
  match wpc s with WInit | WSend0 | WSend1 | WEcho _ _ => True | _ => False end.

(** After the notification the program is never the one that is stuck. *)
Lemma notified_progress s : ok s → done s = true → forwarding s →
  wpc s = WFinished ∨ (∃ s', program_step s s') ∨ needs_manager s ∨ runners s = 1%nat.
Proof.
  intros Hok Hd Hf. pose proof (ok_once _ Hok) as Ho.
  assert (Hwin : ∀ b s', win_step b s = Some s' → win_alone b (wpc s) = true → ∃ s', program_step s s').
  { intros b s' Hs Ha. exists s'. by apply (program_win b). }
  unfold forwarding in Hf. unfold needs_manager. unfold win_step, once_Do in Hwin.
  destruct (wpc s) eqn:Ew; auto; [| | |right; right; right|..].
  all: try (right; left; by eapply (Hwin false)).
  - right. left. destruct (fpc s) eqn:Ef; try done; try (by eapply (Hwin true)).
    eexists. apply program_fwd. unfold fwd_done. rewrite Ef, Hd. reflexivity.
  - destruct (callback s) eqn:Ec; [right; left; by eapply (Hwin true)|tauto|right; left; by eapply (Hwin true)].
  - unfold runners in *. rewrite Ew in *. destruct (callback s); cbn in *; lia.
  - rewrite Hd in Hwin. right. left. by eapply (Hwin true).
Qed.

Lemma program_served s s' : program_step s s' → served_step s s'.
Proof. intros [b s0 s1 Hs _|s0 s1 Hs|s0 s1 Hs _]; eauto using served_step. Qed.

Lemma world_answers s : needs_manager s ∨ runners s = 1%nat → ∃ s', served_step s s'.
Proof.
  intros [Hn|Hr].
  - unfold needs_manager in Hn.
    destruct (wpc s) eqn:Ew; try done; eexists; apply (served_win true); unfold win_step; rewrite Ew; reflexivity.
  - unfold runners in Hr. destruct (wpc s) eqn:Ew;
      try (eexists; apply (served_win true); unfold win_step; rewrite Ew; reflexivity).
    all: destruct (spc s) eqn:Es; cbn in Hr; try lia.
    all: eexists; apply served_sig; unfold sig_step; rewrite Es; reflexivity.
Qed.

Lemma reachable_forwarding windows s : rtc step (HandleSignals windows) s → forwarding s.
Proof.
  intros Hr. assert (Hi : forwarding (HandleSignals windows)) by (by destruct windows).
  induction Hr as [|x y z Hxy _ IH]; [done|]. by apply IH, (step_forwarding x).
Qed.

(** C33: whatever signals and requests of the service manager arrive and however
    the goroutines interleave, the stop function is called at most once; the
    signal goroutine calls it only after it cancelled the context; and the
    manager is told that the service is stopped only after the stop function has
    returned and the termination was notified. *)
Theorem service_stops_once windows s :
  rtc step (HandleSignals windows) s →
  (stops s ≤ 1)%nat ∧ (runners s ≤ 1)%nat ∧
  (spc s = SRunning → cancelled s = true) ∧
  (Report Stopped ∈ changes s → stops s = 1%nat ∧ runners s = 0%nat ∧ done s = true).
Proof.
  intros Hr%reachable_ok. destruct Hr as [Ho Hw Hst Hrep Hc]. conjs.
  - destruct (callback s); lia.
  - destruct (callback s); lia.
  - intros Hs. destruct Hc as [?|[?|?]]; congruence.
  - intros [Hcb Hd]%Hrep. rewrite Hcb in Ho. tauto.
Qed.

Definition stop_run : option sys :=
  let s0 := HandleSignals true in
  s ← win_step true s0; s ← win_step true s; s ← win_step true s; s ← fwd_recv Stop s;
  s ← win_step true s; s ← win_step true s; s ← win_step true s; s ← win_step true s;
  s ← (match stop s with Ok s' => Some s' | _ => None end); s ← win_step true s; win_step true s.

Lemma stop_run_reachable : ∃ s, stop_run = Some s ∧ rtc step (HandleSignals true) s.
Proof.
  eexists. split; [vm_compute; reflexivity|].
  do 3 (eapply rtc_l; [apply step_served, (served_win true); vm_compute; reflexivity|]).
  eapply rtc_l; [apply (step_request Stop); vm_compute; reflexivity|].
  do 4 (eapply rtc_l; [apply step_served, (served_win true); vm_compute; reflexivity|]).
  eapply rtc_l; [apply step_notify; vm_compute; reflexivity|].
  do 2 (eapply rtc_l; [apply step_served, (served_win true); vm_compute; reflexivity|]).
  apply rtc_refl.
Qed.

Lemma service_stops_once_witness :
  ∃ s, stop_run = Some s ∧ Report Stopped ∈ changes s ∧ (stops s ≤ 1)%nat.
Proof.
  destruct stop_run_reachable as (s & Hs & Hr). exists s. split; [exact Hs|].
  split; [|apply (service_stops_once true s Hr)].
  vm_compute in Hs. injection Hs as <-. do 3 right. left.
Defined.

(** C34: Once the termination was notified, and while no further signal, request
    or notification arrives, the goroutines make at most 51 more steps, and when
    they can make none the goroutine of the service manager has come to its end,
    wherever it was.  Until then the program can go on by itself, unless it
    waits for the manager (which has to answer [svc.Run] or take a status sent
    without a timeout) or the stop function has not returned.  So with a manager
    that answers and a stop function that returns, it finishes. *)
Theorem notified_service_finishes windows s :
  rtc step (HandleSignals windows) s → done s = true →
  (∀ k s', nsteps served_step k s s' → (k ≤ 51)%nat) ∧
  (∀ s', rtc served_step s s' →
     wpc s' = WFinished ∨ (∃ s'', program_step s' s'') ∨ needs_manager s' ∨ runners s' = 1%nat) ∧
  (∀ s', rtc served_step s s' → (¬ ∃ s'', served_step s' s'') → wpc s' = WFinished).
Proof.
  intros Hr Hd.
  assert (Hprog : ∀ s', rtc served_step s s' →
     wpc s' = WFinished ∨ (∃ s'', program_step s' s'') ∨ needs_manager s' ∨ runners s' = 1%nat).
  { intros s' Hs. assert (Hr' : rtc step (HandleSignals windows) s').
    { etransitivity; [exact Hr|]. eapply (rtc_subrel served_step); [exact step_served|done]. }
    apply notified_progress; [by eapply reachable_ok| |by eapply reachable_forwarding].
    clear Hr Hr'. induction Hs as [|x y z Hxy _ IH]; [done|]. apply IH. by rewrite (served_done _ _ Hxy). }
  conjs.
  - intros k s' Hk%served_run_bound. pose proof (rank_bound s). lia.
  - done.
  - intros s' Hs Hn. destruct (Hprog s' Hs) as [?|[[s'' ?]|Hw]]; [done| |]; destruct Hn.
    + exists s''. by apply program_served.
    + by apply world_answers.
Qed.

Definition early_notify : sys := mkSys true false OnceNew false 0 [] WInit FNone SWait.

Lemma notified_service_finishes_witness :
  (∀ k s', nsteps served_step k early_notify s' → (k ≤ 51)%nat) ∧
  (∀ s', rtc served_step early_notify s' →
     wpc s' = WFinished ∨ (∃ s'', program_step s' s'') ∨ needs_manager s' ∨ runners s' = 1%nat) ∧
  (∀ s', rtc served_step early_notify s' → (¬ ∃ s'', served_step s' s'') → wpc s' = WFinished).
Proof.
  apply (notified_service_finishes true early_notify); [|reflexivity].
  eapply rtc_l; [apply step_notify; vm_compute; reflexivity|]. apply rtc_refl.
Defined.

(** A second notification panics. *)
Theorem second_notify_panics s : done s = true → stop s = Panic (PExplicit "close of closed channel").
Proof. unfold stop. by intros ->. Qed.

(** ** Package [service]: profiles and the metrics page (src/service/service.go)

    [BeforeRun] opens the CPU profile and starts the pprof endpoint, [Cleanup]
    stops the profile and writes the heap profile; [metricsHandler] writes the
    monitoring variables as one JSON object.  An exit of the process is an error
    that carries the exit code.  Which calls of the operating system and of the
    profiler fail is given by the environment. *)
From S2P Require Import Prelude GoStrings Monitoring Snapshot.

Module ServiceProf.
Open Scope string_scope.
Open Scope list_scope.
Open Scope Z_scope.

(** [None]: the call succeeds. *)
Class ServiceEnv := {
  create_fails : string → option string;
  StartCPUProfile_fails : option string;
  WriteHeapProfile_fails : option string;
  Listen_fails : string → option string;
  debug_enabled : bool
}.

(** The flags, the package variable [cpuOut], and what the process holds. *)
Record process := mkProcess {
  memprofile : string;
  cpuprofile : string;
  httpprof : string;
  cpuOut : option positive;
  files : gmap positive string;      (** open files, by handle *)
  profiling : option positive;       (** where the profiler writes *)
  listening : list string;
  logged : list string
}.

Abbreviation PM := (SE process Z).

Definition log (msg : string) : PM unit := modify (λ p,
  mkProcess (memprofile p) (cpuprofile p) (httpprof p) (cpuOut p) (files p) (profiling p) (listening p)
    (logged p ++ [msg])).
Definition set_files (fs : gmap positive string) (p : process) : process :=
  mkProcess (memprofile p) (cpuprofile p) (httpprof p) (cpuOut p) fs (profiling p) (listening p) (logged p).
Definition set_profiling (h : option positive) (p : process) : process :=
  mkProcess (memprofile p) (cpuprofile p) (httpprof p) (cpuOut p) (files p) h (listening p) (logged p).
Definition add_listener (a : string) (p : process) : process :=
  mkProcess (memprofile p) (cpuprofile p) (httpprof p) (cpuOut p) (files p) (profiling p) (listening p ++ [a]) (logged p).

Section profiles.
Context `{ServiceEnv}.

(** [os.Create] *)
Definition os_Create (name : string) : PM (positive + string) := λ p,
  match create_fails name with
  | Some e => (p, Ok (inr e))
  | None => let h := fresh (dom (files p)) in (set_files (<[h := name]> (files p)) p, Ok (inl h))
  end.

(** [f.Close()]; on a nil pointer it only returns an error. *)
Definition os_Close (f : option positive) : PM unit :=
  match f with Some h => modify (λ p, set_files (delete h (files p)) p) | None => mret tt end.

Definition withMemProfile (p : process) : bool := negb (String.eqb (memprofile p) "").
Definition withCPUProfile (p : process) : bool := negb (String.eqb (cpuprofile p) "").
Definition ProfileEnabled (p : process) : bool := withMemProfile p || withCPUProfile p.

(** [cpuOut, err := os.Create(...)] declares a variable of its own. *)
Definition start_cpu_profile : PM unit :=
  p ← get_store;
  if withCPUProfile p then
    r ← os_Create (cpuprofile p);
    match r with
    | inr e => _ ← log ("Failed to create CPU profile: " +:+ e); fail 1
    | inl cpuOut =>
        match StartCPUProfile_fails with
        | Some e => _ ← log ("Failed to start CPU profiler: " +:+ e); fail 1
        | None => modify (set_profiling (Some cpuOut))
        end
    end
  else mret tt.

Definition BeforeRun : PM unit :=
  _ ← start_cpu_profile;
  p ← get_store;
  if String.eqb (httpprof p) "" then mret tt
  else
    _ ← log "Start pprof endpoint";
    match Listen_fails (httpprof p) with
    | Some e => _ ← log ("Failed to start pprof listener: " +:+ e); fail 1
    | None => modify (add_listener (httpprof p))
    end.

Definition writeHeapProfile (filename : string) : PM unit :=
  r ← os_Create filename;
  match r with
  | inr e => log ("Failed creating file " +:+ filename +:+ ": " +:+ e)
  | inl f =>
      match WriteHeapProfile_fails with
      | Some e => log ("Failed write heap profile " +:+ filename +:+ ": " +:+ e)
      | None => _ ← os_Close (Some f); log ("Created memory profile file " +:+ filename +:+ ".")
      end
  end.

(** [logger.Debug] prints its arguments one after the other; it is not a
    [Debugf]. *)
Definition debugMemStats (alloc total sys : string) : PM unit :=
  if negb debug_enabled then mret tt
  else log ("Memory stats: In use: %d Total (even if freed): %d System: %d" +:+ alloc +:+ " " +:+ total +:+ " " +:+ sys).

Definition Cleanup (alloc total sys : string) : PM unit :=
  p ← get_store;
  _ ← (if withCPUProfile p then
         _ ← modify (set_profiling None);
         p ← get_store; os_Close (cpuOut p)
       else mret tt);
  p ← get_store;
  if withMemProfile p then
    _ ← writeHeapProfile (memprofile p); debugMemStats alloc total sys
  else mret tt.

(** ** The metrics page *)

(** [%q] and [%v] are the library's. *)
Context (quote : string → string) (show : kv_value → string).

Definition metric_text (kv : string * kv_value) : string :=
  match kv.2 with
  | VString str => quote kv.1 +:+ ": " +:+ quote str
  | v => quote kv.1 +:+ ": " +:+ show v
  end.

Definition newline : string := String "010" "".

(** [report], which writes a comma before every call but the first. *)
Definition report (acc : bool * string) (kv : string * kv_value) : bool * string :=
  (false, acc.2 +:+ (if acc.1 then "" else "," +:+ newline) +:+ metric_text kv).

(** [calls] are those of [monitoring.Do], [vars] those of [expvar.Do]. *)
Definition metricsHandler (calls vars : list (string * kv_value)) : string :=
  "{" +:+ newline +:+ (foldl report (foldl report (true, "") calls) vars).2 +:+ newline +:+ "}" +:+ newline.

(** ** Facts *)
Lemma report_rest l t kv :
  (foldl report (false, t +:+ metric_text kv) l).2 =
  t +:+ Join (metric_text <$> kv :: l) ("," +:+ newline).
Proof.
  revert t kv. induction l as [|kv' l IH]; intros t kv; [done|]. cbn [foldl].
  unfold report at 2. cbn [fst snd]. rewrite <-sapp_assoc, IH. cbn. by rewrite !sapp_assoc.
Qed.

(** The page is one object with a member per variable, separated by commas. *)
Theorem metricsHandler_object calls vars :
  metricsHandler calls vars =
  "{" +:+ newline +:+ Join (metric_text <$> calls ++ vars) ("," +:+ newline) +:+ newline +:+ "}" +:+ newline.
Proof.
  unfold metricsHandler. do 2 f_equal. f_equal. rewrite <-foldl_app.
  destruct (calls ++ vars) as [|kv l]; [done|]. apply (report_rest l "" kv).
Qed.

Lemma start_cpu_profile_Ok p p' :
  cpuprofile p ≠ "" → start_cpu_profile p = (p', Ok tt) →
  let h := fresh (dom (files p)) in
  p' = set_profiling (Some h) (set_files (<[h := cpuprofile p]> (files p)) p).
Proof.
  intros Hc. unfold start_cpu_profile, mbind, SE_bind, get_store, withCPUProfile.
  rewrite (proj2 (String.eqb_neq _ _) Hc). unfold os_Create.
  destruct (create_fails _); [done|]. cbn. destruct StartCPUProfile_fails; [done|]. by intros [= <-].
Qed.

Lemma BeforeRun_Ok p p' :
  cpuprofile p ≠ "" → BeforeRun p = (p', Ok tt) →
  let h := fresh (dom (files p)) in
  files p' = <[h := cpuprofile p]> (files p) ∧ profiling p' = Some h ∧ cpuOut p' = cpuOut p ∧
  cpuprofile p' = cpuprofile p.
Proof.
  intros Hc (p1 & [] & H1%start_cpu_profile_Ok & Hrun)%SE_bind_Ok; [|done]. cbv zeta in *. subst p1.
  rewrite SE_bind_get in Hrun. destruct (String.eqb _ _); [injection Hrun as <-; done|].
  unfold mbind, SE_bind in Hrun. cbn in Hrun. destruct (Listen_fails _); [done|]. by injection Hrun as <-.
Qed.

Lemma writeHeapProfile_keeps n p h x :
  files p !! h = Some x → files (writeHeapProfile n p).1 !! h = Some x.
Proof.
  intros Hh. unfold writeHeapProfile, os_Create, mbind, SE_bind. destruct (create_fails n); [done|].
  assert (h ≠ fresh (dom (files p))).
  { intros ->. apply (is_fresh (dom (files p))), elem_of_dom. eauto. }
  destruct WriteHeapProfile_fails; cbn; rewrite ?lookup_delete_ne, lookup_insert_ne by done; done.
Qed.

(** The CPU profile that [BeforeRun] opened is still open after [Cleanup], which
    closes another variable, the package's, that nobody assigned. *)
Theorem cpu_profile_stays_open p p' p'' alloc total sys :
  cpuprofile p ≠ "" → cpuOut p = None →
  BeforeRun p = (p', Ok tt) → Cleanup alloc total sys p' = (p'', Ok tt) →
  ∃ h, files p !! h = None ∧ profiling p' = Some h ∧ files p'' !! h = Some (cpuprofile p).
Proof.
  intros Hc Ho Hb Hcl. destruct (BeforeRun_Ok _ _ Hc Hb) as (Hf & Hp & Ho' & Hc').
  exists (fresh (dom (files p))). split; [apply not_elem_of_dom, is_fresh|]. split; [done|].
  revert Hcl. unfold Cleanup, withCPUProfile. rewrite SE_bind_get, Hc', (proj2 (String.eqb_neq _ _) Hc). cbn [negb].
  rewrite (SE_bind_run _ _ _ (set_profiling None p') tt);
    [|unfold mbind, SE_bind; cbn; by rewrite Ho', Ho].
  rewrite SE_bind_get. destruct (withMemProfile _); [|intros [= <-]; cbn; by rewrite Hf, lookup_insert_eq].
  intros (p1 & [] & Hw & Hd)%SE_bind_Ok.
  assert (Hk : files p1 !! fresh (dom (files p)) = Some (cpuprofile p)).
  { change p1 with (p1, Ok (E := Z) tt).1. rewrite <-Hw. apply writeHeapProfile_keeps. cbn. by rewrite Hf, lookup_insert_eq. }
  unfold debugMemStats in Hd. destruct (negb debug_enabled); by injection Hd as <-.
Qed.

End profiles.

End ServiceProf.
