(* ===== verification/PipeListener.v ===== *)
(** * Package [transport]: listeners over in-memory pipes (src/transport/pipelistener.go)

    Goroutines dial and accept on one listener.  A dialer makes a pipe and hands
    its server end over an unbuffered channel, unless the listener is closed or
    its context ends first; the handover is one step of a dialer and of an
    accepter.  When several cases of a [select] are ready any of them is taken. *)
From S2P Require Import Prelude.

Open Scope list_scope.

Inductive listen_error := errListenerClosed | ErrContext.

(** A call of [DialContext]: not started, in the [select] with its pipe, or
    returned. *)
Inductive dialer :=
| DStart
| DSelect (pipe : nat)
| DConn (pipe : nat)
| DFail (pipe : nat) (e : listen_error).

Inductive accepter :=
| ASelect
| AConn (pipe : nat)
| AFail (e : listen_error).

(** [pipes] tells of every pipe whether it is open; this code closes both ends
    together. *)
Record PipeListener := mkListener {
  closed : bool;
  closeOnce : bool;
  pipes : list bool;
  dialers : list dialer;
  cancelled : list bool;
  accepters : list accepter
}.

(** The calls that will be made on a new listener. *)
Definition NewPipeListener (dials accepts : nat) : PipeListener :=
  mkListener false false [] (replicate dials DStart) (replicate dials false) (replicate accepts ASelect).

Definition set_dialer (i : nat) (d : dialer) (l : PipeListener) : PipeListener :=
  mkListener (closed l) (closeOnce l) (pipes l) (<[i := d]> (dialers l)) (cancelled l) (accepters l).
Definition set_accepter (j : nat) (a : accepter) (l : PipeListener) : PipeListener :=
  mkListener (closed l) (closeOnce l) (pipes l) (dialers l) (cancelled l) (<[j := a]> (accepters l)).
Definition add_pipe (l : PipeListener) : PipeListener :=
  mkListener (closed l) (closeOnce l) (pipes l ++ [true]) (dialers l) (cancelled l) (accepters l).
Definition close_pipe (c : nat) (l : PipeListener) : PipeListener :=
  mkListener (closed l) (closeOnce l) (<[c := false]> (pipes l)) (dialers l) (cancelled l) (accepters l).
Definition cancel (i : nat) (l : PipeListener) : PipeListener :=
  mkListener (closed l) (closeOnce l) (pipes l) (dialers l) (<[i := true]> (cancelled l)) (accepters l).

(** [l.closeOnce.Do(func() { close(l.closed) })] *)
Definition Close (l : PipeListener) : res unit PipeListener :=
  if closeOnce l then Ok l
  else if closed l then Panic (PExplicit "close of closed channel")
  else Ok (mkListener true true (pipes l) (dialers l) (cancelled l) (accepters l)).

Definition Addr : string * string := ("pipe", "pipe").

(** The cases of the two [select]s that do not hand a connection over. *)
Definition Accept_closed (j : nat) (l : PipeListener) : option PipeListener :=
  match accepters l !! j with
  | Some ASelect => if closed l then Some (set_accepter j (AFail errListenerClosed) l) else None
  | _ => None
  end.

Definition Dial_start (i : nat) (l : PipeListener) : option PipeListener :=
  match dialers l !! i with
  | Some DStart => Some (set_dialer i (DSelect (length (pipes l))) (add_pipe l))
  | _ => None
  end.

Definition Dial_fail (e : listen_error) (i : nat) (l : PipeListener) : option PipeListener :=
  match dialers l !! i with
  | Some (DSelect c) =>
      let ready := match e with errListenerClosed => closed l | ErrContext => default false (cancelled l !! i) end in
      if ready then Some (set_dialer i (DFail c e) (close_pipe c l)) else None
  | _ => None
  end.

(** [l.conns <- server] and [conn := <-l.conns] *)
Definition handover (i j : nat) (l : PipeListener) : option PipeListener :=
  match dialers l !! i, accepters l !! j with
  | Some (DSelect c), Some ASelect => Some (set_accepter j (AConn c) (set_dialer i (DConn c) l))
  | _, _ => None
  end.

Inductive step : PipeListener → PipeListener → Prop :=
| step_start i l l' : Dial_start i l = Some l' → step l l'
| step_fail e i l l' : Dial_fail e i l = Some l' → step l l'
| step_handover i j l l' : handover i j l = Some l' → step l l'
| step_accept j l l' : Accept_closed j l = Some l' → step l l'
| step_close l l' : Close l = Ok l' → step l l'
| step_cancel i l : step l (cancel i l).

(** ** Invariant *)
Definition pid (d : dialer) : option nat :=
  match d with DStart => None | DSelect c | DConn c | DFail c _ => Some c end.

Definition is_open (d : dialer) : bool := match d with DFail _ _ => false | _ => true end.

(** Why a dialer failed. *)
Definition reason (l : PipeListener) (i : nat) (d : dialer) : Prop :=
  match d with
  | DFail _ errListenerClosed => closed l = true
  | DFail _ ErrContext => cancelled l !! i = Some true
  | _ => True
  end.

Record ok (l : PipeListener) : Prop := {
  ok_pipe i d c : dialers l !! i = Some d → pid d = Some c → pipes l !! c = Some (is_open d);
  ok_inj i i' d d' c : dialers l !! i = Some d → dialers l !! i' = Some d' →
    pid d = Some c → pid d' = Some c → i = i';
  ok_accept j c : accepters l !! j = Some (AConn c) → ∃ i, dialers l !! i = Some (DConn c);
  ok_accept_inj j j' c : accepters l !! j = Some (AConn c) → accepters l !! j' = Some (AConn c) → j = j';
  ok_dial i c : dialers l !! i = Some (DConn c) → ∃ j, accepters l !! j = Some (AConn c);
  ok_reason i d : dialers l !! i = Some d → reason l i d;
  ok_once : closeOnce l = closed l
}.

Lemma listener_init_ok n m : ok (NewPipeListener n m).
Proof.
  split; cbn; try done; intros *; rewrite ?lookup_replicate; naive_solver.
Qed.

(** Changing the dialer in the [select] to its result. *)
Section change.
Context (l : PipeListener) (Hok : ok l) (i c : nat) (Hi : dialers l !! i = Some (DSelect c)).

Lemma not_accepted j : accepters l !! j ≠ Some (AConn c).
Proof.
  intros [i' Hi']%(ok_accept _ Hok). pose proof (ok_inj _ Hok i i' _ _ c Hi Hi' eq_refl eq_refl) as ->. congruence.
Qed.

Lemma other_pipe i' d c' : dialers l !! i' = Some d → pid d = Some c' → i' ≠ i → c' ≠ c.
Proof. intros Hd Hp Hne ->. apply Hne. by eapply (ok_inj _ Hok). Qed.

Lemma dialers_changed d i' d' :
  <[i := d]> (dialers l) !! i' = Some d' → (i' = i ∧ d' = d) ∨ (i' ≠ i ∧ dialers l !! i' = Some d').
Proof. intros [(<- & <- & _)|[? ?]]%list_lookup_insert_Some; auto. Qed.

Lemma fail_ok e : reason l i (DFail c e) → ok (set_dialer i (DFail c e) (close_pipe c l)).
Proof.
  intros Hr. pose proof Hok as [H1 H2 H3 H4 H5 H6 H7]. split; cbn; try done.
  - intros i' d c' [[-> ->]|[Hne Hd]]%dialers_changed Hp.
    + injection Hp as <-. apply list_lookup_insert_eq. by eapply lookup_lt_Some, (H1 i).
    + rewrite list_lookup_insert_ne; [by eapply H1|]. intros <-. by eapply other_pipe.
  - intros i1 i2 d1 d2 c' [[-> ->]|[Hn1 Hd1]]%dialers_changed [[-> ->]|[Hn2 Hd2]]%dialers_changed Hp1 Hp2; try done.
    + by apply (H2 i i2 (DSelect c) d2 c').
    + by apply (H2 i1 i d1 (DSelect c) c').
    + by eapply H2.
  - intros j c' Hj. destruct (H3 j c' Hj) as [i' Hi']. exists i'. rewrite list_lookup_insert_ne; [done|].
    intros <-. congruence.
  - intros i' c' [[-> ?]|[Hne Hd]]%dialers_changed; [done|]. by eapply H5.
  - intros i' d [[-> ->]|[Hne Hd]]%dialers_changed; [done|]. by apply (H6 i' d).
Qed.

Lemma handover_ok j : accepters l !! j = Some ASelect → ok (set_accepter j (AConn c) (set_dialer i (DConn c) l)).
Proof.
  intros Hj. pose proof Hok as [H1 H2 H3 H4 H5 H6 H7].
  assert (Hacc : ∀ j' a, <[j := AConn c]> (accepters l) !! j' = Some a →
    (j' = j ∧ a = AConn c) ∨ (j' ≠ j ∧ accepters l !! j' = Some a)).
  { intros j' a [(<- & <- & _)|[? ?]]%list_lookup_insert_Some; auto. }
  assert (Hlen : (i < length (dialers l))%nat) by (by eapply lookup_lt_Some).
  assert (Hlenj : (j < length (accepters l))%nat) by (by eapply lookup_lt_Some).
  split; cbn; try done.
  - intros i' d c' [[-> ->]|[Hne Hd]]%dialers_changed Hp; [|by eapply H1].
    injection Hp as <-. by apply (H1 i (DSelect c)).
  - intros i1 i2 d1 d2 c' [[-> ->]|[Hn1 Hd1]]%dialers_changed [[-> ->]|[Hn2 Hd2]]%dialers_changed Hp1 Hp2; try done.
    + by apply (H2 i i2 (DSelect c) d2 c').
    + by apply (H2 i1 i d1 (DSelect c) c').
    + by eapply H2.
  - intros j' c' [[-> [= ->]]|[Hne Ha]]%Hacc; [exists i; by apply list_lookup_insert_eq|].
    destruct (H3 j' c' Ha) as [i' Hi']. exists i'. rewrite list_lookup_insert_ne; [done|]. intros <-. congruence.
  - intros j1 j2 c' [[-> E1]|[Hn1 Ha1]]%Hacc [[-> E2]|[Hn2 Ha2]]%Hacc; simplify_eq; try done.
    + by apply not_accepted in Ha2.
    + by apply not_accepted in Ha1.
    + by eapply H4.
  - intros i' c' [[-> [= ->]]|[Hne Hd]]%dialers_changed; [exists j; by apply list_lookup_insert_eq|].
    destruct (H5 i' c' Hd) as [j' Hj']. exists j'. rewrite list_lookup_insert_ne; [done|]. intros <-. congruence.
  - intros i' d [[-> ->]|[Hne Hd]]%dialers_changed; [done|]. by apply (H6 i' d).
Qed.
End change.

Lemma start_ok l i : ok l → dialers l !! i = Some DStart → ok (set_dialer i (DSelect (length (pipes l))) (add_pipe l)).
Proof.
  intros [H1 H2 H3 H4 H5 H6 H7] Hi.
  assert (Hnew : ∀ i' d, dialers l !! i' = Some d → pid d ≠ Some (length (pipes l))).
  { intros i' d Hd Hp. specialize (H1 _ _ _ Hd Hp). apply lookup_lt_Some in H1. lia. }
  split; cbn; try done.
  - intros i' d c' [[-> ->]|[Hne Hd]]%dialers_changed Hp.
    + injection Hp as <-. by rewrite lookup_app_r, Nat.sub_diag.
    + specialize (H1 _ _ _ Hd Hp). rewrite lookup_app_l; [done|]. by eapply lookup_lt_Some.
  - intros i1 i2 d1 d2 c' [[-> ->]|[Hn1 Hd1]]%dialers_changed [[-> ->]|[Hn2 Hd2]]%dialers_changed Hp1 Hp2; try done.
    + injection Hp1 as <-. by apply (Hnew _ _ Hd2) in Hp2.
    + injection Hp2 as <-. by apply (Hnew _ _ Hd1) in Hp1.
    + by eapply H2.
  - intros j c' Hj. destruct (H3 j c' Hj) as [i' Hi']. exists i'. rewrite list_lookup_insert_ne; [done|].
    intros <-. congruence.
  - intros i' c' [[-> ?]|[Hne Hd]]%dialers_changed; [done|]. by eapply H5.
  - intros i' d [[-> ->]|[Hne Hd]]%dialers_changed; [done|]. by apply (H6 i' d).
Qed.

Lemma listener_step_ok l l' : ok l → step l l' → ok l'.
Proof.
  intros Hok Hst. revert Hok. destruct Hst as [i l l' Hs|e i l l' Hs|i j l l' Hs|j l l' Hs|l l' Hs|i l]; intros Hok.
  - unfold Dial_start in Hs. destruct (dialers l !! i) as [[]|] eqn:Hi; simplify_eq. by apply start_ok.
  - unfold Dial_fail in Hs. destruct (dialers l !! i) as [[|c| |]|] eqn:Hi; try done.
    destruct e; [destruct (closed l) eqn:Er|destruct (cancelled l !! i) as [[]|] eqn:Er]; simplify_eq/=;
      by apply fail_ok.
  - unfold handover in Hs. destruct (dialers l !! i) as [[|c| |]|] eqn:Hi; try done.
    destruct (accepters l !! j) as [[]|] eqn:Hj; simplify_eq. by apply handover_ok.
  - unfold Accept_closed in Hs. destruct (accepters l !! j) as [[]|] eqn:Hj; try done.
    destruct (closed l); simplify_eq. destruct Hok as [H1 H2 H3 H4 H5 H6 H7].
    split; cbn; try done.
    + intros j' c [(_ & ? & _)|[? Ha]]%list_lookup_insert_Some; [done|]. by eapply H3.
    + intros j1 j2 c [(_ & ? & _)|[? Ha]]%list_lookup_insert_Some [(_ & ? & _)|[? Hb]]%list_lookup_insert_Some; try done.
      by eapply H4.
    + intros i c Hi. destruct (H5 i c Hi) as [j' Hj']. exists j'. rewrite list_lookup_insert_ne; [done|].
      intros <-. congruence.
  - unfold Close in Hs. destruct Hok as [H1 H2 H3 H4 H5 H6 H7]. destruct (closeOnce l) eqn:Eo; [injection Hs as <-; split; done || congruence|].
    rewrite <-H7 in Hs. injection Hs as <-. split; cbn; try done.
    intros i d Hd. specialize (H6 i d Hd). destruct d as [| | |? []]; done.
  - destruct Hok as [H1 H2 H3 H4 H5 H6 H7]. split; cbn; try done.
    intros i' d Hd. specialize (H6 i' d Hd). destruct d as [| | |? []]; try done. cbn in *.
    destruct (decide (i' = i)) as [->|]; [apply list_lookup_insert_eq; by eapply lookup_lt_Some|].
    by rewrite list_lookup_insert_ne.
Qed.

Lemma listener_reachable_ok n m l : rtc step (NewPipeListener n m) l → ok l.
Proof.
  intros Hr. assert (Hi := listener_init_ok n m). induction Hr as [|x y z Hxy _ IH]; [done|]. by apply IH, (listener_step_ok x).
Qed.

(** C35: in every interleaving of dials, accepts, cancellations and closings, the
    connections are paired: every connection a dialer returned was accepted
    exactly once and every accepted one was returned by exactly one dialer, with
    the pipe open between them; a dialer that failed has closed both ends of its
    pipe, and did so because the listener was closed or its context had ended. *)
Theorem pipe_connections_paired n m l :
  rtc step (NewPipeListener n m) l →
  (∀ i c, dialers l !! i = Some (DConn c) →
     pipes l !! c = Some true ∧
     (∃ j, accepters l !! j = Some (AConn c) ∧ ∀ j', accepters l !! j' = Some (AConn c) → j' = j) ∧
     ∀ i', dialers l !! i' = Some (DConn c) → i' = i) ∧
  (∀ j c, accepters l !! j = Some (AConn c) → ∃ i, dialers l !! i = Some (DConn c)) ∧
  (∀ i c e, dialers l !! i = Some (DFail c e) →
     pipes l !! c = Some false ∧
     match e with errListenerClosed => closed l = true | ErrContext => cancelled l !! i = Some true end).
Proof.
  intros [H1 H2 H3 H4 H5 H6 H7]%listener_reachable_ok. split; [|split; [done|]].
  - intros i c Hi. split; [by apply (H1 i (DConn c))|]. split; [|by intros i' Hi'; eapply H2].
    destruct (H5 i c Hi) as [j Hj]. exists j. split; [done|]. intros j' Hj'. by eapply H4.
  - intros i c e Hi. split; [by apply (H1 i (DFail c e))|]. exact (H6 i _ Hi).
Qed.

(** After [Close] nobody waits for ever: every call that is still in its [select]
    can return. *)
Theorem closed_listener_releases l i j :
  closed l = true →
  (∀ c, dialers l !! i = Some (DSelect c) → is_Some (Dial_fail errListenerClosed i l)) ∧
  (accepters l !! j = Some ASelect → is_Some (Accept_closed j l)).
Proof.
  intros Hc. unfold Dial_fail, Accept_closed. split.
  - intros c ->. rewrite Hc. eauto.
  - intros ->. rewrite Hc. eauto.
Qed.

Definition one_connection : PipeListener :=
  mkListener true true [true; false] [DConn 0; DFail 1 errListenerClosed] [false; false] [AConn 0].

Lemma pipe_connections_paired_witness :
  dialers one_connection !! 0%nat = Some (DConn 0) ∧
  ∃ j, accepters one_connection !! j = Some (AConn 0).
Proof.
  split; [reflexivity|].
  destruct (pipe_connections_paired 2 1 one_connection) as (Hd & _).
  { eapply rtc_l; [apply (step_start 0); reflexivity|].
    eapply rtc_l; [apply (step_start 1); reflexivity|].
    eapply rtc_l; [apply (step_handover 0 0); reflexivity|].
    eapply rtc_l; [apply step_close; reflexivity|].
    eapply rtc_l; [apply (step_fail errListenerClosed 1); reflexivity|]. apply rtc_refl. }
  destruct (Hd 0%nat 0%nat eq_refl) as (_ & (j & Hj & _) & _). exists j. exact Hj.
Defined.
