(* ===== verification/Api.v ===== *)
(** * Package [api] (src/api): the HTTP endpoint of the metrics

    Where the server listens (config.go, server.go [parse], make_listener_*.go,
    npipe), the handlers of its routes (routes.go) and the registration of
    handlers (server.go).  The operating system, the URL parser, the request
    multiplexer of net/http and the JSON encoder are parameters. *)
From S2P Require Import Prelude GoStrings GoNet Monitoring Snapshot.

Open Scope string_scope.
Open Scope list_scope.
Open Scope Z_scope.

(** ** config.go *)
Record Config := mkConfig {
  c_Enabled : bool;
  c_Host : string;
  c_Port : Z;
  c_User : string;
  c_SecurityDescriptor : string;
  c_Timeout : Z
}.

Definition DefaultConfig : Config := mkConfig false "localhost" 5066 "" "" 5000000000.

(** 0740 *)
Definition socketFileMode : Z := 480.

Definition unixNetwork : string := "unix".
Definition tcpNetwork : string := "tcp".

Inductive api_error :=
| EurlParse (msg : string)
| EunknownScheme (scheme host : string)
| EuserUnsupported
| EsdUnsupported
| EnpipeUnsupported (host : string)
| EunixUnsupported (host : string)
| Eexclusive
| EcurrentSID (msg : string)
| EuserSID (username msg : string)
| EsidString (username msg : string)
| EgenerateSD (e : api_error)
| ElistenPipe (name msg : string)
| Eremove (path msg : string)
| Elisten (msg : string)
| Echmod (path msg : string)
| Ealready (route : string)
| Epanic (msg : string)
| Eunpack (msg : string).

(** ** npipe/pipe.go, npipe/listener_windows.go *)
Definition npipe_uri : string := "npipe:///".
Definition npipe_path : string := "\\.\pipe\".

Definition IsNPipe (s : string) : bool := HasPrefix s npipe_uri || HasPrefix s npipe_path.

Definition TransformString (name : string) : string :=
  if HasPrefix name npipe_uri then
    let path := String.substring (String.length npipe_uri) (String.length name - String.length npipe_uri) name in
    npipe_path +:+ path
  else name.

Definition ntAuthoritySystemSID : string := "S-1-5-18".

(** ** The operating system *)

(** Files, with their mode and whether they are sockets, and what is listened to. *)
Record host := mkHost { files : gmap string (bool * Z); listeners : list (string * string) }.

(** [None]: the call succeeds; [new_mode]: of a new socket file. *)
Class ApiOs := {
  remove_fails : string → option string;
  listen_fails : string → string → option string;
  chmod_fails : string → option string;
  new_mode : Z;
  currentUserSID : string + string;
  LookupSID : string → positive + string;
  sid_String : positive → string + string
}.

Abbreviation HM := (SE host api_error).

Section listeners.
Context `{UrlLib} `{ApiOs}.

(** [net.Listen]: a socket file must not exist yet. *)
Definition net_Listen (network address : string) : HM (string * string) := λ h,
  match listen_fails network address with
  | Some e => (h, Err (Elisten e))
  | None =>
      if String.eqb network unixNetwork then
        match files h !! address with
        | Some _ => (h, Err (Elisten "address already in use"))
        | None => (mkHost (<[address := (true, new_mode)]> (files h)) (listeners h ++ [(network, address)]),
                   Ok (network, address))
        end
      else (mkHost (files h) (listeners h ++ [(network, address)]), Ok (network, address))
  end.

(** [os.Remove], whose error for a missing file is ignored. *)
Definition remove_existing (path : string) : HM unit := λ h,
  match files h !! path with
  | None => (h, Ok tt)
  | Some _ =>
      match remove_fails path with
      | Some e => (h, Err (Eremove path e))
      | None => (mkHost (delete path (files h)) (listeners h), Ok tt)
      end
  end.

Definition os_Chmod (path : string) (mode : Z) : HM unit := λ h,
  match chmod_fails path, files h !! path with
  | None, Some (sock, _) => (mkHost (<[path := (sock, mode)]> (files h)) (listeners h), Ok tt)
  | Some e, _ => (h, Err (Echmod path e))
  | None, None => (h, Err (Echmod path "no such file"))
  end.

(** ** server.go *)
Definition parse (host : string) (port : Z) : res api_error (string * string) :=
  match url_Parse host with
  | inr e => Err (EurlParse e)
  | inl url =>
      if String.eqb (Host url) "" && String.eqb (Scheme url) "" then Ok (tcpNetwork, host +:+ ":" +:+ Itoa port)
      else if String.eqb (Scheme url) "http" then Ok (tcpNetwork, Host url)
      else if String.eqb (Scheme url) "unix" then Ok (Scheme url, Path url)
      else Err (EunknownScheme (Scheme url) host)
  end.

(** ** make_listener_posix.go *)
Definition makeListener_posix (cfg : Config) : HM (string * string) :=
  if negb (String.eqb (c_User cfg) "") then fail EuserUnsupported
  else if negb (String.eqb (c_SecurityDescriptor cfg) "") then fail EsdUnsupported
  else if IsNPipe (c_Host cfg) then fail (EnpipeUnsupported (c_Host cfg))
  else
    '(network, path) ← lift (parse (c_Host cfg) (c_Port cfg));
    _ ← (if String.eqb network unixNetwork then remove_existing path else mret tt);
    l ← net_Listen network path;
    _ ← (if String.eqb network unixNetwork then os_Chmod path socketFileMode else mret tt);
    mret l.

(** ** npipe/listener_windows.go, make_listener_windows.go *)
Definition lookupSID (username : string) : res api_error string :=
  if String.eqb username "" then
    match currentUserSID with
    | inl sid => Ok sid
    | inr e => Err (EcurrentSID e)
    end
  else
    match LookupSID username with
    | inr e => Err (EuserSID username e)
    | inl sid =>
        match sid_String sid with
        | inl sidString => Ok sidString
        | inr e => Err (EsidString username e)
        end
    end.

Definition DefaultSD (forUser : string) : res api_error string :=
  sid ← lookupSID forUser;
  let descriptor := "D:P(A;;GA;;;" +:+ sid +:+ ")" in
  Ok (if String.eqb sid ntAuthoritySystemSID then descriptor +:+ "(A;;GA;;;S-1-5-32-544)" else descriptor).

(** [winio.ListenPipe]: the pipe and its security descriptor *)
Definition NewListener (name sd : string) : HM (string * string) := λ h,
  match listen_fails "npipe" name with
  | Some e => (h, Err (ElistenPipe name e))
  | None => (mkHost (files h) (listeners h ++ [(name, sd)]), Ok (name, sd))
  end.

Definition makeListener_windows (cfg : Config) : HM (string * string) :=
  if negb (String.eqb (c_User cfg) "") && negb (String.eqb (c_SecurityDescriptor cfg) "") then fail Eexclusive
  else if IsNPipe (c_Host cfg) then
    let pipe := TransformString (c_Host cfg) in
    sd ← (if String.eqb (c_SecurityDescriptor cfg) "" then map_err EgenerateSD (lift (DefaultSD (c_User cfg)))
          else mret (c_SecurityDescriptor cfg));
    NewListener pipe sd
  else
    '(network, path) ← lift (parse (c_Host cfg) (c_Port cfg));
    if String.eqb network unixNetwork then fail (EunixUnsupported (c_Host cfg))
    else net_Listen network path.

End listeners.

(** ** routes.go: handlers *)
Record response := mkResp { w_header : Header; w_status : Z; w_body : string }.
Record request := mkReq { q_path : string; q_query : gmap string (list string) }.

Definition empty_response : response := mkResp ∅ 200 "".

(** What a handler does to the monitoring store and to the response. *)
Definition HandlerFunc : Type := request → SE (store * response) mon_error unit.

Section routes.
Context `{MapOrder} (fuel : nat) (render : bool → option (gmap string tree) → string) (NotFound : HandlerFunc).

Definition on_store {A} (c : MM A) : SE (store * response) mon_error A := λ s,
  let '(m, r) := c s.1 in ((m, s.2), r).
Definition set_header (k v : string) : SE (store * response) mon_error unit :=
  modify (λ s, (s.1, mkResp (Header_Set (w_header s.2) k v) (w_status s.2) (w_body s.2))).
Definition write (t : string) : SE (store * response) mon_error unit :=
  modify (λ s, (s.1, mkResp (w_header s.2) (w_status s.2) (w_body s.2 +:+ t))).

Definition MakeRootAPIHandler (handler : HandlerFunc) : HandlerFunc := λ r,
  if negb (String.eqb (q_path r) "/") then NotFound r else handler r.

(** [render true] is [StringToPrint], [render false] is [String]. *)
Definition prettyPrint (data : option (gmap string tree)) (r : request) : SE (store * response) mon_error unit :=
  match q_query r !! "pretty" with
  | Some _ => write (render true data)
  | None => write (render false data)
  end.

Definition MakeAPIHandler (ns : string) : HandlerFunc := λ r,
  _ ← set_header "Content-Type" "application/json; charset=utf-8";
  reg ← on_store (ns_GetRegistry ns);
  s ← get_store;
  data ← lift (CollectStructSnapshot fuel s.1 (Some reg) Full None);
  prettyPrint data r.

(** ** Registration of handlers *)

(** What [ServeMux.Handle] panics with. *)
Inductive panic_value := PVError (msg : string) | PVString (msg : string) | PVOther (msg : string).

Context {Mux : Type} (NewServeMux : Mux) (mux_Handle : string → HandlerFunc → Mux → Mux + panic_value).

(** [defer recover()] turns the panic into an error. *)
Definition AttachHandler (route : string) (h : HandlerFunc) : SE Mux api_error unit := λ m,
  match mux_Handle route h m with
  | inl m' => (m', Ok tt)
  | inr (PVError e) => (m, Err (Epanic e))
  | inr (PVString e) => (m, Err (Epanic e))
  | inr (PVOther e) => (m, Err (Epanic ("handle attempted to panic with " +:+ e)))
  end.

Definition HandleFunc (route : string) (h : HandlerFunc) : SE Mux api_error unit := λ m,
  match mux_Handle route h m with
  | inl m' => (m', Ok tt)
  | inr (PVError e) | inr (PVString e) | inr (PVOther e) => (m, Panic (PExplicit e))
  end.

Definition AddHandlerFunc (api : string) (h : HandlerFunc) : SE (gmap string HandlerFunc) api_error unit := λ m,
  match m !! api with
  | Some _ => (m, Err (Ealready api))
  | None => (<[api := h]> m, Ok tt)
  end.

(** The routes of [NewWithDefaultRoutes], before it makes the server. *)
Definition default_routes (handlerFuncMap : gmap string HandlerFunc) : SE Mux api_error unit :=
  _ ← HandleFunc "/" (MakeRootAPIHandler (MakeAPIHandler "info"));
  _ ← HandleFunc "/state" (MakeAPIHandler "state");
  _ ← HandleFunc "/stats" (MakeAPIHandler "stats");
  _ ← HandleFunc "/dataset" (MakeAPIHandler "dataset");
  foreach (map_order handlerFuncMap) (λ '(api, h), HandleFunc api h).

End routes.

(** ** Facts *)
(** A name of either form becomes the path of a pipe, and stays as it is when it
    is one. *)
Theorem TransformString_pipe s :
  IsNPipe s = true →
  HasPrefix (TransformString s) npipe_path = true ∧ TransformString (TransformString s) = TransformString s.
Proof.
  unfold IsNPipe, TransformString. destruct (HasPrefix s npipe_uri) eqn:E; cbn [orb]; intros Hs.
  - split; [apply HasPrefix_app|done].
  - by rewrite E.
Qed.

Section listener_facts.
Context `{UrlLib} `{ApiOs}.

Lemma remove_existing_Ok path h h' :
  remove_existing path h = (h', Ok tt) → files h' = delete path (files h) ∧ listeners h' = listeners h.
Proof.
  unfold remove_existing. destruct (files h !! path) eqn:E.
  - destruct (remove_fails path); intros [= <-]. done.
  - intros [= <-]. by rewrite delete_id.
Qed.

Lemma net_Listen_Ok network address h h' l :
  net_Listen network address h = (h', Ok l) →
  l = (network, address) ∧ listeners h' = listeners h ++ [l] ∧
  files h' = (if String.eqb network unixNetwork then <[address := (true, new_mode)]> (files h) else files h).
Proof.
  unfold net_Listen. destruct (listen_fails _ _); [done|]. destruct (String.eqb network unixNetwork).
  - destruct (files h !! address); [done|]. by intros [= <- <-].
  - by intros [= <- <-].
Qed.

(** A listener of the endpoint on a POSIX system is where the configuration
    says: for a unix socket the file is a socket with mode 0740, whatever was at
    that path before; for TCP the address is the one [parse] computes, and no
    file changes.  It never exists for a named pipe, a user or a security
    descriptor. *)
Theorem makeListener_posix_spec cfg h h' l :
  makeListener_posix cfg h = (h', Ok l) →
  c_User cfg = "" ∧ c_SecurityDescriptor cfg = "" ∧ IsNPipe (c_Host cfg) = false ∧
  parse (c_Host cfg) (c_Port cfg) = Ok l ∧ listeners h' = listeners h ++ [l] ∧
  (if String.eqb l.1 unixNetwork then
     files h' !! l.2 = Some (true, socketFileMode) ∧ ∀ p, p ≠ l.2 → files h' !! p = files h !! p
   else files h' = files h).
Proof.
  unfold makeListener_posix.
  destruct (String.eqb_spec (c_User cfg) "") as [Hu|]; [|done].
  destruct (String.eqb_spec (c_SecurityDescriptor cfg) "") as [Hsd|]; [|done].
  destruct (IsNPipe (c_Host cfg)) eqn:Hn; [done|]. cbn [negb].
  intros (h1 & [network path] & Hp & Hrest)%SE_bind_Ok. injection Hp as <- Hp.
  apply SE_bind_Ok in Hrest as (h2 & [] & Hrm & Hrest).
  apply SE_bind_Ok in Hrest as (h3 & l' & Hli & Hrest).
  apply SE_bind_Ok in Hrest as (h4 & [] & Hch & [= <- <-]).
  apply net_Listen_Ok in Hli as (-> & Hls & Hfs). cbn [fst snd].
  conjs; try done; destruct (String.eqb network unixNetwork).
  - apply remove_existing_Ok in Hrm as [_ Hrm]. rewrite <-Hrm, <-Hls.
    unfold os_Chmod in Hch. destruct (chmod_fails path), (files h3 !! path) as [[]|]; try done. by injection Hch as <-.
  - injection Hrm as <-. injection Hch as <-. done.
  - apply remove_existing_Ok in Hrm as [Hrm _]. unfold os_Chmod in Hch.
    rewrite Hfs, lookup_insert_eq in Hch. destruct (chmod_fails path); [done|]. injection Hch as <-. cbn.
    split; [by rewrite lookup_insert_eq|]. intros p Hne.
    by rewrite lookup_insert_ne, lookup_insert_ne, Hrm, lookup_delete_ne by done.
  - injection Hrm as <-. injection Hch as <-. done.
Qed.

(** When the mode of the socket cannot be set the listener is not closed: it
    keeps listening, and nobody holds it. *)
Theorem chmod_failure_leaks_listener cfg h path e :
  c_User cfg = "" → c_SecurityDescriptor cfg = "" → IsNPipe (c_Host cfg) = false →
  parse (c_Host cfg) (c_Port cfg) = Ok (unixNetwork, path) → files h !! path = None →
  listen_fails unixNetwork path = None → chmod_fails path = Some e →
  let '(h', r) := makeListener_posix cfg h in
  r = Err (Echmod path e) ∧ listeners h' = listeners h ++ [(unixNetwork, path)].
Proof.
  intros Hu Hsd Hn Hp Hf Hl Hc. unfold makeListener_posix. rewrite Hu, Hsd, Hn. cbn [negb String.eqb].
  unfold mbind, SE_bind, lift. rewrite Hp. cbn. unfold remove_existing. rewrite Hf. unfold net_Listen. rewrite Hl, Hf.
  cbn. unfold os_Chmod. cbn. by rewrite Hc.
Qed.

End listener_facts.

(** A host that opens sockets, and a parser that knows one address. *)
#[local] Instance api_url : UrlLib := {
  url_Parse s := inl (if String.eqb s "unix:///run/m.sock" then mkUrl "unix" None "" "/run/m.sock" "" else zero_url);
  url_String _ := ""
}.
#[local] Instance api_os : ApiOs := {
  remove_fails _ := None;
  listen_fails _ _ := None;
  chmod_fails _ := None;
  new_mode := 493;
  currentUserSID := inl "S-1-5-18";
  LookupSID _ := inr "unknown";
  sid_String _ := inr "unknown"
}.

Lemma makeListener_posix_spec_witness :
  let cfg := mkConfig true "unix:///run/m.sock" 0 "" "" 0 in
  let h' := (makeListener_posix cfg (mkHost {[ "/run/m.sock" := (false, 420) ]} [])).1 in
  files h' !! "/run/m.sock" = Some (true, socketFileMode).
Proof.
  intros cfg h'.
  pose proof (makeListener_posix_spec cfg (mkHost {[ "/run/m.sock" := (false, 420) ]} []) h' ("unix", "/run/m.sock")) as Hs.
  apply Hs. vm_compute. reflexivity.
Defined.

(** ** Routes *)
Section route_facts.
Context `{MapOrder} (fuel : nat) (render : bool → option (gmap string tree) → string) (NotFound : HandlerFunc).
Context {Mux : Type} (mux_Handle : string → HandlerFunc → Mux → Mux + panic_value).
Context (registered : Mux → string → Prop).
(** A pattern that is registered twice makes the multiplexer panic. *)
Hypothesis Handle_registers : ∀ p h m m', mux_Handle p h m = inl m' →
  registered m' p ∧ ∀ q, registered m q → registered m' q.
Hypothesis Handle_twice : ∀ p h m, registered m p → ∃ v, mux_Handle p h m = inr v.

Lemma HandleFunc_Ok route h m m' :
  HandleFunc mux_Handle route h m = (m', Ok tt) →
  registered m' route ∧ ∀ q, registered m q → registered m' q.
Proof.
  unfold HandleFunc. destruct (mux_Handle route h m) as [m1|[]] eqn:E; intros [= <-]. by eapply Handle_registers.
Qed.

Lemma foreach_registered l m m' q :
  registered m q → foreach l (λ '(api, h), HandleFunc mux_Handle api h) m = (m', Ok tt) →
  q ∉ l.*1.
Proof.
  revert m. induction l as [|[api h] l IH]; intros m Hm Hrun; [by intros ?%elem_of_nil|].
  cbn [foreach] in Hrun. apply SE_bind_Ok in Hrun as (m1 & [] & Hh & Hrun).
  cbn. apply not_elem_of_cons. split.
  - intros ->. unfold HandleFunc in Hh. destruct (Handle_twice api h m Hm) as [[] Hv]; by rewrite Hv in Hh.
  - eapply IH; [|exact Hrun]. by apply (HandleFunc_Ok _ _ _ _ Hh).
Qed.

(** [AddHandlerFunc] accepts the routes of the package itself; the server can
    then no longer be made. *)
Theorem reserved_route_panics handlers m m' route :
  route ∈ ["/"; "/state"; "/stats"; "/dataset"] → is_Some (handlers !! route) →
  default_routes fuel render NotFound mux_Handle handlers m ≠ (m', Ok tt).
Proof.
  intros Hin [hd Hh] Hrun. unfold default_routes in Hrun.
  apply SE_bind_Ok in Hrun as (m1 & [] & [H1 _]%HandleFunc_Ok & Hrun).
  apply SE_bind_Ok in Hrun as (m2 & [] & [H2 K2]%HandleFunc_Ok & Hrun).
  apply SE_bind_Ok in Hrun as (m3 & [] & [H3 K3]%HandleFunc_Ok & Hrun).
  apply SE_bind_Ok in Hrun as (m4 & [] & [H4 K4]%HandleFunc_Ok & Hrun).
  assert (Hr : registered m4 route) by (set_unfold; naive_solver).
  apply (foreach_registered _ _ _ _ Hr) in Hrun. apply Hrun, list_elem_of_fmap.
  exists (route, hd). split; [done|]. by apply elem_of_map_order.
Qed.

End route_facts.
