(* ===== verification/Pdh.v ===== *)
(** * Package [pdh]: Windows performance counters (src/helpers/windows/pdh)

    The functions of [pdh.dll], of the operating system and of
    [golang.org/x/sys/windows] are the operations of the class [PdhApi]: each
    answers with its status and with what it wrote through its out-parameters,
    and may change the state of the system.  Memory is a list of 16-bit units;
    [beyond] is what lies after a buffer of the Go heap.  Everything the package
    does around the calls (the two-call buffer protocol, the decoding of
    multi-strings, the query and its map of counters) is defined here, after the
    conversions between UTF-16 and byte strings. *)
From S2P Require Import Prelude GoStrings GoUtf8.

Open Scope string_scope.
Open Scope list_scope.
Open Scope Z_scope.

(** ** UTF-16: package [unicode/utf16] and the conversions of [syscall] on Windows

    A code unit is a [Z] below 65536.  [syscall] reads and writes WTF-16: a
    surrogate that is not half of a pair goes through as the three bytes WTF-8
    gives it, which [GoUtf8.DecodeRune] reads as three invalid bytes. *)

Definition surr1 : Z := 0xd800.
Definition surr2 : Z := 0xdc00.
Definition surr3 : Z := 0xe000.

Definition is_high (u : Z) : bool := (surr1 <=? u) && (u <? surr2).
Definition is_low (u : Z) : bool := (surr2 <=? u) && (u <? surr3).

(** [utf16.DecodeRune] of a surrogate pair. *)
Definition DecodePair (r1 r2 : Z) : Z := Z.lor (Z.shiftl (r1 - surr1) 10) (r2 - surr2) + 0x10000.

(** [decodeWTF16] of package [syscall] *)
Fixpoint decodeWTF16 (s : list Z) : string :=
  match s with
  | [] => ""
  | u :: s' =>
      if is_high u then
        match s' with
        | v :: s'' => if is_low v then EncodeRune (DecodePair u v) +:+ decodeWTF16 s''
                      else encode3 u +:+ decodeWTF16 s'
        | [] => encode3 u
        end
      else if is_low u then encode3 u +:+ decodeWTF16 s'
      else EncodeRune u +:+ decodeWTF16 s'
  end.

(** The units before the first zero, if the memory has one. *)
Fixpoint until_nul (m : list Z) : option (list Z) :=
  match m with
  | [] => None
  | u :: m' => if u =? 0 then Some [] else cons u <$> until_nul m'
  end.

(** [syscall.UTF16ToString]: up to the first zero, or all of the slice. *)
Definition UTF16ToString (s : list Z) : string := decodeWTF16 (from_option id s (until_nul s)).

(** [utf16.AppendRune]: the units a rune is written as. *)
Definition utf16_rune (r : Z) : list Z :=
  if bool_decide (valid_rune r) then
    if r <? 0x10000 then [r]
    else [surr1 + Z.land (Z.shiftr (r - 0x10000) 10) 0x3ff; surr2 + Z.land (r - 0x10000) 0x3ff]
  else [RuneError].

(** The three bytes of a WTF-8 surrogate at the front of a string. *)
Definition wtf8_surrogate (s : string) : option (Z * string) :=
  match s with
  | String a (String b (String c rest)) =>
      if (byte a =? 0xED) && (0xA0 <=? byte b) && (byte b <=? 0xBF) && is_cont (byte c)
      then Some (Z.shiftl (Z.land (byte a) 15) 12 + Z.shiftl (low6 (byte b)) 6 + low6 (byte c), rest)
      else None
  | _ => None
  end.

(** [encodeWTF16] of package [syscall]; every turn takes a byte at least. *)
Fixpoint encodeWTF16_loop (fuel : nat) (s : string) : list Z :=
  match fuel, s with
  | S fuel', String a s' =>
      let '(r, rest) := DecodeRune a s' in
      match (if r =? RuneError then wtf8_surrogate s else None) with
      | Some (u, rest') => u :: encodeWTF16_loop fuel' rest'
      | None => utf16_rune r ++ encodeWTF16_loop fuel' rest
      end
  | _, _ => []
  end.

Definition encodeWTF16 (s : string) : list Z := encodeWTF16_loop (String.length s) s.

(** [syscall.UTF16PtrFromString]: [EINVAL] for a string with a zero byte, else
    the units and a terminating zero. *)
Definition UTF16FromString (s : string) : option (list Z) :=
  if lacks "000" s then Some (encodeWTF16 s ++ [0]) else None.

(** ** Runes that are one unit *)
Definition bmp (r : Z) : Prop := 0 < r < surr1 ∨ surr3 ≤ r < 0x10000.

#[global] Instance bmp_dec r : Decision (bmp r).
Proof. unfold bmp. apply _. Defined.

Lemma bmp_valid r : bmp r → valid_rune r.
Proof. unfold bmp, valid_rune, surr1, surr3, MaxRune. lia. Qed.

Lemma bmp_not_surrogate r : bmp r → is_high r = false ∧ is_low r = false.
Proof. unfold bmp, is_high, is_low, surr1, surr2, surr3. lia. Qed.

Lemma decodeWTF16_bmp rs : Forall bmp rs → decodeWTF16 rs = encode rs.
Proof.
  induction 1 as [|r rs Hr Hrs IH]; simpl; [done|].
  destruct (bmp_not_surrogate r Hr) as [-> ->]. by rewrite IH.
Qed.

Lemma until_nul_bmp rs m : Forall bmp rs → until_nul (rs ++ 0 :: m) = Some rs.
Proof.
  induction 1 as [|r rs Hr Hrs IH]; simpl; [done|].
  destruct (Z.eqb_spec r 0) as [->|]; [unfold bmp, surr3 in Hr; lia|]. by rewrite IH.
Qed.

Lemma utf16_rune_bmp r : bmp r → utf16_rune r = [r].
Proof.
  intros Hr. unfold utf16_rune. rewrite bool_decide_true by by apply bmp_valid.
  destruct (Z.ltb_spec r 65536); [done|]. unfold bmp, surr1 in Hr. lia.
Qed.

Lemma wtf8_surrogate_EncodeRune r s : valid_rune r → wtf8_surrogate (EncodeRune r +:+ s) = None.
Proof.
  intros Hv. destruct (wtf8_surrogate _) as [[u rest]|] eqn:E; [|done]. exfalso.
  destruct (DecodeRune_EncodeRune r s Hv) as (a & e & He & Hd).
  rewrite He in E. simpl in E. unfold wtf8_surrogate in E.
  destruct (e +:+ s) as [|b [|c rest']]; [done..|].
  destruct (Z.eqb_spec (byte a) 237) as [Ha|]; [|done]. simpl in E.
  destruct (Z.leb_spec 160 (byte b)) as [Hb|]; [|done]. simpl in E.
  unfold DecodeRune in Hd. rewrite Ha in Hd. simpl in Hd.
  destruct (Z.leb_spec (byte b) 159); [lia|]. rewrite andb_false_r in Hd. simpl in Hd.
  injection Hd as Hr Hs.
  (* the lead byte of the encoding of U+FFFD is not 0xED *)
  subst r. vm_compute in He. injection He as <- _. vm_compute in Ha. lia.
Qed.

(** ** Codes and formats (defs_pdh_windows_amd64.go) *)
Definition PDH_MORE_DATA : Z := 0x800007d2.
Definition PDH_CSTATUS_NO_OBJECT : Z := 0xc0000bb8.
Definition PDH_CSTATUS_NO_COUNTER : Z := 0xc0000bb9.

(** The codes, in the order of the constants. *)
Definition PDH_codes : list Z :=
  [0x0; 0x1; 0x800007d0; 0x800007d1; 0x800007d2; 0x800007d3; 0x800007d4; 0x800007d5;
   0x800007d6; 0x800007d7; 0x800007d8; 0x800007d9; 0x800007da; 0x800007db; 0x800007dc; 0xc0000bb8;
   0xc0000bb9; 0xc0000bba; 0xc0000bbb; 0xc0000bbc; 0xc0000bbd; 0xc0000bbe; 0xc0000bbf; 0xc0000bc0;
   0xc0000bc1; 0xc0000bc2; 0xc0000bc3; 0xc0000bc4; 0xc0000bc5; 0xc0000bc6; 0xc0000bc7; 0xc0000bc8;
   0xc0000bc9; 0xc0000bca; 0xc0000bcb; 0xc0000bcc; 0xc0000bcd; 0xc0000bce; 0xc0000bcf; 0xc0000bd0;
   0xc0000bd1; 0xc0000bd2; 0xc0000bd3; 0xc0000bd4; 0x80000bd5; 0xc0000bd6; 0xc0000bd7; 0xc0000bd8;
   0xc0000bd9; 0xc0000bda; 0xc0000bdb; 0xc0000bdc; 0xc0000bdd; 0xc0000bde; 0xc0000bdf; 0xc0000be0;
   0xc0000be1; 0xc0000be2; 0xc0000be3; 0xc0000be4; 0xc0000be5; 0xc0000be6; 0xc0000be7; 0xc0000be8;
   0xc0000be9; 0xc0000bea; 0xc0000beb; 0xc0000bec; 0xc0000bed; 0xc0000bee; 0xc0000bef; 0xc0000bf0;
   0xc0000bf1; 0xc0000bf2; 0x80000bf3; 0xc0000bf4; 0xc0000bf5; 0xc0000bf6; 0xc0000bf7; 0xc0000bf8;
   0xc0000bf9; 0xc0000bfa; 0xc0000bfb; 0xc0000bfc; 0xc0000bfd; 0xc0000bfe].

(** The map has an entry for each of them. *)
Definition pdhErrors : gset Z := list_to_set PDH_codes.

Definition PdhFmtDouble : Z := 0x200.
Definition PdhFmtLarge : Z := 0x400.
Definition PdhFmtLong : Z := 0x100.
Definition PdhFmtNoCap100 : Z := 0x8000.

Definition ERROR_NOT_FOUND : Z := 1168.      (** [syscall.ERROR_NOT_FOUND] *)

(** ** Data (pdh_windows.go, pdh_query_windows.go) *)
Definition InvalidQueryHandle : Z := two64 - 1.
Definition InvalidCounterHandle : Z := two64 - 1.
Definition PerformanceDetailWizard : Z := 400.

Record PdhRawCounter := mkRaw {
  rc_CStatus : Z;
  rc_TimeStamp : Z * Z;
  rc_FirstValue : Z;
  rc_SecondValue : Z;
  rc_MultiCount : Z
}.

Definition zero_raw : PdhRawCounter := mkRaw 0 (0, 0) 0 0 0.

(** [pdhRawCounterItem]: the name is a pointer into memory. *)
Record raw_item := mkRawItem { SzName : option (list Z); item_RawValue : PdhRawCounter }.

Record PdhRawCounterItem := mkItem { InstanceName : string; RawValue : PdhRawCounter }.

(** The union [PDH_FMT_COUNTERVALUE] with its status. *)
Record fmt_value (F : Type) := mkFmt { CStatus : Z; longValue : Z; largeValue : Z; doubleValue : F }.
Arguments mkFmt {F}.
Arguments CStatus {F}.
Arguments longValue {F}.
Arguments largeValue {F}.
Arguments doubleValue {F}.

(** ** What is outside: the system's functions

    A function that fills a buffer takes it as [None] for a nil pointer and as
    the buffer itself otherwise, with the size the caller passes; it answers
    with its status, the size it leaves behind and the units it wrote from the
    start of the buffer. *)
Class PdhApi := {
  system : Type;
  float64 : Type;
  GOARCH : string;
  EINVAL : Z;
  beyond : list Z;
  PdhOpenQueryW : option (list Z) → Z → system → system * (Z * Z);
  PdhAddEnglishCounterW : Z → list Z → Z → system → system * (Z * Z);
  PdhAddCounterW : Z → list Z → Z → system → system * (Z * Z);
  PdhRemoveCounterProc : Z → system → system * Z;
  PdhCollectQueryDataProc : Z → system → system * Z;
  PdhCollectQueryDataExProc : list Z → system → system * Z;
  PdhGetFormattedCounterValueProc : Z → Z → system → system * (Z * Z * fmt_value float64);
  PdhCloseQueryProc : Z → system → system * Z;
  PdhGetRawCounterValueProc : Z → system → system * (Z * PdhRawCounter);
  PdhGetRawCounterArrayW : Z → Z → bool → system → system * (Z * Z * Z * (nat → raw_item));
  PdhExpandWildCardPathW : option (list Z) → list Z → option (list Z) → Z → system →
    system * (Z * Z * list Z);
  PdhExpandCounterPathW : list Z → option (list Z) → Z → system → system * (Z * Z * list Z);
  PdhGetCounterInfoW : Z → Z → Z → bool → system → system * (Z * Z * option (list Z));
  PdhEnumObjectItemsW : list Z → (list Z * Z) → (list Z * Z) → Z → Z → system →
    system * (Z * (Z * list Z) * (Z * list Z));
  x_UTF16PtrToString : option (list Z) → string;
  x_FormatMessage : Z → nat → option (list Z);
  errno_message : Z → string
}.

(** A dynamic error value: [PdhErrno] and [syscall.Errno] are different types. *)
Inductive perr :=
| EPdhErrno (e : Z)
| EErrno (e : Z)
| ENoQueryPath
| ENoCounterPaths
| ENoCounterList
| ENoInstance
| EEnumItems (objectName : string) (cause : option perr)
| ENotInMap (counterName : string)
| EInvalidFormat (format : Z) (instance : string).

(** [PdhErrno(err.(syscall.Errno))] *)
Definition pdh_errno {A} (e : Z) : res perr A := Err (EPdhErrno e).

(** [if r0 != 0 { errcode = syscall.Errno(r0) }] *)
Definition errcode (r0 : Z) : option Z := if r0 =? 0 then None else Some r0.

(** ** Strings in memory *)
Definition fault : panic := PExplicit "unexpected fault address".

(** Units written from the start of a buffer. *)
Definition fill (buf written : list Z) : list Z :=
  take (length buf) (written ++ drop (length written) buf).

Definition zeros (n : Z) : list Z := replicate (Z.to_nat n) 0.

(** [s] is the memory from the pointer on. *)
Definition UTF16PtrToString {E} (s : option (list Z)) : res E string :=
  match s with
  | None => Ok ""
  | Some mem =>
      match until_nul mem with
      | Some units => Ok (decodeWTF16 units)
      | None => Panic fault
      end
  end.

Definition rune_count (s : string) : nat := length (range_string s).

Section api.
Context `{PdhApi} `{MapOrder} `{SliceSort}.

(** [&buf[i]] and what can be read from there. *)
Definition at_index {E} (buf : list Z) (i : nat) : res E (list Z) :=
  if (i <? length buf)%nat then Ok (drop i buf ++ beyond) else Panic PIndexOutOfRange.

(** The loop of [UTF16ToStringArray]; every turn moves the start of the next
    line up by one at least. *)
Fixpoint string_array_loop {E} (fuel : nat) (buf : list Z) (nextLineStart : nat) (stringLine : string)
    (strings : list string) : res E (list string) :=
  match fuel with
  | O => OutOfFuel
  | S fuel' =>
      if bool_decide (stringLine = "") then Ok strings
      else
        let strings := strings ++ [stringLine] in
        let nextLineStart := (nextLineStart + (rune_count stringLine + 1))%nat in
        if (length buf <? nextLineStart)%nat then Panic PIndexOutOfRange
        else
          mem ← at_index buf nextLineStart;
          line ← UTF16PtrToString (Some mem);
          string_array_loop fuel' buf nextLineStart line strings
  end.

Definition UTF16ToStringArray {E} (buf : list Z) : res E (list string) :=
  mem ← at_index buf 0;
  line ← UTF16PtrToString (Some mem);
  string_array_loop (S (length buf)) buf 0 line [].

(** ** The calls of zpdh_windows.go

    A status that is not zero is an error; the out-parameters keep what the
    function wrote either way. *)
Definition CALL (A : Type) : Type := system → system * (option Z * A).

Definition syscall {A} (proc : system → system * (Z * A)) : CALL A := λ w,
  let '(w', (r0, a)) := proc w in (w', (errcode r0, a)).

Definition syscall_ (proc : system → system * Z) : CALL unit := λ w,
  let '(w', r0) := proc w in (w', (errcode r0, tt)).

Definition _PdhOpenQuery (dataSource : option (list Z)) (userData : Z) : CALL Z :=
  syscall (PdhOpenQueryW dataSource userData).

Definition _PdhAddEnglishCounter (query : Z) (counterPath : string) (userData : Z) : CALL Z :=
  match UTF16FromString counterPath with
  | None => λ w, (w, (Some EINVAL, 0))
  | Some _p0 => syscall (PdhAddEnglishCounterW query _p0 userData)
  end.

Definition _PdhAddCounter (query : Z) (counterPath : string) (userData : Z) : CALL Z :=
  match UTF16FromString counterPath with
  | None => λ w, (w, (Some EINVAL, 0))
  | Some _p0 => syscall (PdhAddCounterW query _p0 userData)
  end.

Definition _PdhRemoveCounter (counter : Z) : CALL unit := syscall_ (PdhRemoveCounterProc counter).
Definition _PdhCollectQueryData (query : Z) : CALL unit := syscall_ (PdhCollectQueryDataProc query).

(** [syscall.Syscall(proc, 1, query, interval, event)]: the second argument is
    the number of words that are passed. *)
Definition _PdhCollectQueryDataEx (query interval event : Z) : CALL unit :=
  syscall_ (PdhCollectQueryDataExProc (take 1 [query; interval; event])).

(** The counter type and the value, in the three functions of this name. *)
Definition _PdhGetFormattedCounterValue (counter format : Z) : CALL (Z * fmt_value float64) := λ w,
  let '(w', (r0, counterType, value)) := PdhGetFormattedCounterValueProc counter format w in
  (w', (errcode r0, (counterType, value))).

Definition _PdhCloseQuery (query : Z) : CALL unit := syscall_ (PdhCloseQueryProc query).
Definition _PdhGetRawCounter (counter : Z) : CALL PdhRawCounter := syscall (PdhGetRawCounterValueProc counter).

Definition _PdhGetRawCounterArray (counter bufferSize : Z) (itemBuffer : bool) :
    CALL (Z * Z * (nat → raw_item)) := λ w,
  let '(w', (r0, size, count, items)) := PdhGetRawCounterArrayW counter bufferSize itemBuffer w in
  (w', (errcode r0, (size, count, items))).

Definition _PdhExpandWildCardPath (dataSource : option (list Z)) (wildcardPath : list Z)
    (expandedPathList : option (list Z)) (pathListLength : Z) : CALL (Z * list Z) := λ w,
  let '(w', (r0, size, written)) :=
    PdhExpandWildCardPathW dataSource wildcardPath expandedPathList pathListLength w in
  (w', (errcode r0, (size, written))).

Definition _PdhExpandCounterPath (wildcardPath : list Z) (expandedPathList : option (list Z))
    (pathListLength : Z) : CALL (Z * list Z) := λ w,
  let '(w', (r0, size, written)) := PdhExpandCounterPathW wildcardPath expandedPathList pathListLength w in
  (w', (errcode r0, (size, written))).

Definition _PdhGetCounterInfo (counter text size : Z) (lpBuffer : bool) : CALL (Z * option (list Z)) := λ w,
  let '(w', (r0, size', szFullPath)) := PdhGetCounterInfoW counter text size lpBuffer w in
  (w', (errcode r0, (size', szFullPath))).

Definition _PdhEnumObjectItems (objectName : list Z) (counterList instanceList : list Z * Z)
    (detailLevel flags : Z) : CALL ((Z * list Z) * (Z * list Z)) := λ w,
  let '(w', (r0, c, i)) := PdhEnumObjectItemsW objectName counterList instanceList detailLevel flags w in
  (w', (errcode r0, (c, i))).

(** ** The functions of pdh_windows.go *)
Definition SYS (A : Type) : Type := SE system perr A.

(** [err := f()] used as a value. *)
Definition status {A} (call : CALL A) : SYS (option Z * A) := λ w,
  let '(w', a) := call w in (w', Ok a).

(** [if err := f(); err != nil { return PdhErrno(err.(syscall.Errno)) }] *)
Definition status_of {A} (call : CALL A) : SYS A :=
  '(err, a) ← status call;
  match err with Some e => lift (pdh_errno e) | None => mret a end.

Definition PdhOpenQuery (dataSource : string) (userData : Z) : SYS Z :=
  if bool_decide (dataSource = "") then status_of (_PdhOpenQuery None userData)
  else
    match UTF16FromString dataSource with
    | None => fail (EErrno EINVAL)
    | Some p => status_of (_PdhOpenQuery (Some p) userData)
    end.

Definition PdhAddEnglishCounter (query : Z) (counterPath : string) (userData : Z) : SYS Z :=
  status_of (_PdhAddEnglishCounter query counterPath userData).
Definition PdhAddCounter (query : Z) (counterPath : string) (userData : Z) : SYS Z :=
  status_of (_PdhAddCounter query counterPath userData).
Definition PdhRemoveCounter (counter : Z) : SYS unit := status_of (_PdhRemoveCounter counter).
Definition PdhCollectQueryData (query : Z) : SYS unit := status_of (_PdhCollectQueryData query).
Definition PdhCollectQueryDataEx (query interval event : Z) : SYS unit :=
  status_of (_PdhCollectQueryDataEx query interval event).

(** The three functions answer with the value next to the error. *)
Definition formatted_value {A} (counter format : Z) (field : fmt_value float64 → A) :
    SYS (Z * (Z * A) * option perr) :=
  '(err, (counterType, value)) ← status (_PdhGetFormattedCounterValue counter (Z.lor format PdhFmtNoCap100));
  match err with
  | Some e => mret (0, (CStatus value, field value), Some (EPdhErrno e))
  | None => mret (counterType, (CStatus value, field value), None)
  end.

Definition PdhGetFormattedCounterValueDouble (counter : Z) : SYS (Z * (Z * float64) * option perr) :=
  formatted_value counter PdhFmtDouble doubleValue.
Definition PdhGetFormattedCounterValueLarge (counter : Z) : SYS (Z * (Z * Z) * option perr) :=
  formatted_value counter PdhFmtLarge largeValue.
Definition PdhGetFormattedCounterValueLong (counter : Z) : SYS (Z * (Z * Z) * option perr) :=
  formatted_value counter PdhFmtLong longValue.

Definition PdhGetRawCounterValue (counter : Z) : SYS PdhRawCounter := status_of (_PdhGetRawCounter counter).

(** [RawCounterArray.Less] on the elements. *)
Definition raw_Less (a b : PdhRawCounterItem) : bool :=
  negb (String.leb (InstanceName b) (InstanceName a)).

Definition raw_of (filterTotal : bool) (item : raw_item) : list PdhRawCounterItem :=
  let instance := x_UTF16PtrToString (SzName item) in
  if filterTotal && Contains instance "_Total" then [] else [mkItem instance (item_RawValue item)].

Definition PdhGetRawCounterArray (counter : Z) (filterTotal : bool) : SYS (list PdhRawCounterItem) :=
  '(err, (bufferSize, _, _)) ← status (_PdhGetRawCounterArray counter 0 false);
  match err with
  | None => lift (pdh_errno ERROR_NOT_FOUND)
  | Some e =>
      if negb (e =? PDH_MORE_DATA) then lift (pdh_errno e)
      else if bufferSize =? 0 then panics PIndexOutOfRange
      else
        '(_, itemCount, items) ← status_of (_PdhGetRawCounterArray counter bufferSize true);
        let ret := concat (map (λ i, raw_of filterTotal (items i)) (seq 0 (Z.to_nat itemCount))) in
        mret (sort_slice raw_Less ret)
  end.

Definition PdhExpandWildCardPath (utfPath : list Z) : SYS (list Z) :=
  '(err, (bufferSize, _)) ← status (_PdhExpandWildCardPath None utfPath None 0);
  match err with
  | None => lift (pdh_errno ERROR_NOT_FOUND)
  | Some e =>
      if negb (e =? PDH_MORE_DATA) then lift (pdh_errno e)
      else
        let expandPaths := zeros bufferSize in
        if bufferSize =? 0 then panics PIndexOutOfRange
        else
          '(_, written) ← status_of (_PdhExpandWildCardPath None utfPath (Some expandPaths) bufferSize);
          mret (fill expandPaths written)
  end.

(** The result is [None] for a nil slice. *)
Definition PdhExpandCounterPath (utfPath : list Z) : SYS (option (list Z)) :=
  '(err, (bufferSize, _)) ← status (_PdhExpandCounterPath utfPath None 0);
  match err with
  | None => mret None
  | Some e =>
      if negb (e =? PDH_MORE_DATA) then lift (pdh_errno e)
      else
        let expandPaths := zeros bufferSize in
        if bufferSize =? 0 then panics PIndexOutOfRange
        else
          '(_, written) ← status_of (_PdhExpandCounterPath utfPath (Some expandPaths) bufferSize);
          mret (Some (fill expandPaths written))
  end.

(** Of the structure only [SzFullPath] is read; [None] is a nil pointer. *)
Definition PdhGetCounterInfo (handle : Z) : SYS (option (option (list Z))) :=
  '(err, (bufSize, _)) ← status (_PdhGetCounterInfo handle 0 0 false);
  match err with
  | None => mret None
  | Some e =>
      if negb (e =? PDH_MORE_DATA) then lift (pdh_errno e)
      else if bufSize =? 0 then panics PIndexOutOfRange
      else
        '(err, (_, szFullPath)) ← status (_PdhGetCounterInfo handle 0 bufSize true);
        match err with None => mret (Some szFullPath) | Some _ => mret None end
  end.

Definition PdhCloseQuery (query : Z) : SYS unit := status_of (_PdhCloseQuery query).

(** [windows.StringToUTF16Ptr] panics on a string with a zero byte.  The error
    of the second call is returned as the [syscall.Errno] it is. *)
Definition PdhEnumObjectItems (objectName : string) : SYS (list Z * list Z) :=
  match UTF16FromString objectName with
  | None => panics (PExplicit "syscall: string with NUL passed to StringToUTF16")
  | Some obj =>
      '(err, ((cBuffSize, _), (iBuffSize, _))) ←
        status (_PdhEnumObjectItems obj ([0], 0) ([0], 0) PerformanceDetailWizard 0);
      match err with
      | None => mret ([], [])
      | Some e =>
          if negb (e =? PDH_MORE_DATA) then lift (pdh_errno e)
          else
            let cBuff := zeros cBuffSize in
            let iBuff := zeros iBuffSize in
            if (cBuffSize =? 0) || (iBuffSize =? 0) then panics PIndexOutOfRange
            else
              '(err, ((_, cw), (_, iw))) ←
                status (_PdhEnumObjectItems obj (cBuff, cBuffSize) (iBuff, iBuffSize) PerformanceDetailWizard 0);
              match err with Some e => fail (EErrno e) | None => mret (fill cBuff cw, fill iBuff iw) end
      end
  end.

(** Trailing carriage returns and line feeds go. *)
Fixpoint trim_crlf (rev_units : list Z) : list Z :=
  match rev_units with
  | u :: rest => if (u =? 10) || (u =? 13) then trim_crlf rest else rev_units
  | [] => []
  end.

(** [string(utf16.Decode(units))]: unpaired surrogates become U+FFFD. *)
Fixpoint utf16_Decode (s : list Z) : list Z :=
  match s with
  | [] => []
  | u :: s' =>
      if is_high u then
        match s' with
        | v :: s'' => if is_low v then DecodePair u v :: utf16_Decode s'' else RuneError :: utf16_Decode s'
        | [] => [RuneError]
        end
      else if is_low u then RuneError :: utf16_Decode s'
      else u :: utf16_Decode s'
  end.

Definition PdhErrno_Error (e : Z) : string :=
  if bool_decide (e ∈ pdhErrors) then
    match x_FormatMessage e 300 with
    | None => "pdh error #" +:+ Itoa e
    | Some units => encode (utf16_Decode (rev (trim_crlf (rev units))))
    end
  else errno_message e.

(** ** Queries (pdh_query_windows.go) *)
Record Counter := mkCounter { handle : Z; format : Z; instanceName : string }.

(** [Counters] is [None] for the nil map of the zero value. *)
Record Query := mkQuery { q_Handle : Z; q_Counters : option (gmap string Counter) }.

Record pdh_state := mkPdh { query : Query; sys : system }.

Definition PDH (A : Type) : Type := SE pdh_state perr A.

Definition in_sys {A} (c : SYS A) : PDH A := λ s,
  let '(w, r) := c (sys s) in (mkPdh (query s) w, r).

Definition set_query (q : Query) : PDH unit := modify (λ s, mkPdh q (sys s)).
Definition the_query : PDH Query := λ s, (s, Ok (query s)).

(** Reading a nil map finds nothing. *)
Definition counters (q : Query) : gmap string Counter := default ∅ (q_Counters q).

(** [q.Counters[k] = c] *)
Definition put_counter (k : string) (c : Counter) : PDH unit :=
  q ← the_query;
  match q_Counters q with
  | None => panics PNilMap
  | Some m => set_query (mkQuery (q_Handle q) (Some (<[k := c]> m)))
  end.

(** [delete(q.Counters, k)] does nothing on a nil map. *)
Definition drop_counter (k : string) : PDH unit :=
  q ← the_query; set_query (mkQuery (q_Handle q) (delete k <$> q_Counters q)).

Definition Query_Open : PDH unit :=
  h ← in_sys (PdhOpenQuery "" 0); set_query (mkQuery h (Some ∅)).

Definition AddEnglishCounter (counterPath : string) : PDH Z :=
  q ← the_query; in_sys (PdhAddEnglishCounter (q_Handle q) counterPath 0).

(** *** The name of the instance in a counter path *)

(** What [(\(.+\))\\] captures: from the first parenthesis that is followed on
    its line by a closing parenthesis and a backslash, with something between
    the two, up to the last such closing parenthesis of the line. *)
Fixpoint last_close (n : nat) (s : string) : option nat :=
  match s with
  | "" => None
  | String a s' =>
      if bool_decide (a = "010"%char) then None
      else
        match last_close (S n) s' with
        | Some i => Some i
        | None => if bool_decide (a = ")"%char) && HasPrefix s' "\" then Some n else None
        end
  end.

Fixpoint instance_submatch (s : string) : option string :=
  match s with
  | "" => None
  | String a s' =>
      if bool_decide (a = "("%char) then
        match s' with
        | "" => None
        | String b rest =>
            match (if bool_decide (b = "010"%char) then None else last_close 2 rest) with
            | Some i => Some (stake (S i) s)
            | None => instance_submatch s'
            end
        end
      else instance_submatch s'
  end.

(** The longest prefix without a backslash, and what follows. *)
Fixpoint until_backslash (s : string) : string * string :=
  match s with
  | "" => ("", "")
  | String a s' =>
      if bool_decide (a = "\"%char) then ("", s)
      else let '(p, r) := until_backslash s' in (String a p, r)
  end.

Definition non_empty_run (s : string) : option string :=
  let '(p, _) := until_backslash s in if bool_decide (p = "") then None else Some p.

(** What [(?:^\\\\[^\\]+\\|^\\)([^\\]+)] captures: the object after the name
    of the machine, or after the one backslash the path starts with. *)
Definition object_submatch (s : string) : option string :=
  let second := match s with String a s' => if bool_decide (a = "\"%char) then non_empty_run s' else None | "" => None end in
  match s with
  | String a (String b rest) =>
      if bool_decide (a = "\"%char) && bool_decide (b = "\"%char) then
        let '(machine, after) := until_backslash rest in
        match after with
        | String _ object =>
            if bool_decide (machine = "") then second
            else match non_empty_run object with Some o => Some o | None => second end
        | "" => second
        end
      else second
  | _ => second
  end.

(** The loop of [returnLastInstance] over the runes; [string(rune)] of an
    invalid byte is U+FFFD. *)
Fixpoint last_instance_loop (runes : list Z) (openedParanth : Z) (innerMatch : string) (matches : list string) :
    list string :=
  match runes with
  | [] => matches
  | r :: rest =>
      let openedParanth := if r =? 41 then openedParanth - 1 else openedParanth in
      let innerMatch := if 0 <? openedParanth then innerMatch +:+ EncodeRune r else innerMatch in
      let '(matches, innerMatch) :=
        if (openedParanth =? 0) && negb (bool_decide (innerMatch = ""))
        then (matches ++ [innerMatch], "") else (matches, innerMatch) in
      let openedParanth := if r =? 40 then openedParanth + 1 else openedParanth in
      last_instance_loop rest openedParanth innerMatch matches
  end.

Definition returnLastInstance (mtch : string) : string :=
  match last (last_instance_loop (range_string mtch).*2 0 "" []) with
  | Some m => m
  | None => mtch
  end.

Definition MatchInstanceName (counterPath : string) : res perr string :=
  match instance_submatch counterPath with
  | Some m => Ok (returnLastInstance m)
  | None =>
      match object_submatch counterPath with
      | Some o => Ok o
      | None => Err ENoInstance
      end
  end.

(** *** Counters of a query *)
Definition getPDHFormat (f : string) : Z :=
  if bool_decide (f = "long") then PdhFmtLong
  else if bool_decide (f = "large") then PdhFmtLarge
  else PdhFmtDouble.

Definition AddCounter (counterPath inst fmt : string) (wildcard english : bool) : PDH unit :=
  q ← the_query;
  match counters q !! counterPath with
  | Some _ => mret tt
  | None =>
      name ← (if bool_decide (inst = "") || wildcard then lift (MatchInstanceName counterPath) else mret inst);
      h ← in_sys (if (english : bool) then PdhAddEnglishCounter (q_Handle q) counterPath 0
                  else PdhAddCounter (q_Handle q) counterPath 0);
      put_counter counterPath (mkCounter h (getPDHFormat fmt) name)
  end.

(** [expdPaths, err = PdhExpandWildCardPath(utfPath)] with its one retry. *)
Definition expand_retry (utfPath : list Z) : PDH (list Z) :=
  r ← attempt (in_sys (PdhExpandWildCardPath utfPath));
  match r with
  | inl buf => mret buf
  | inr (EPdhErrno e) =>
      if e =? PDH_MORE_DATA then in_sys (PdhExpandWildCardPath utfPath) else fail (EPdhErrno e)
  | inr e => fail e
  end.

Definition ExpandWildCardPath (wildCardPath : string) : PDH (list string) :=
  if bool_decide (wildCardPath = "") then fail ENoQueryPath
  else
    match UTF16FromString wildCardPath with
    | None => fail (EErrno EINVAL)
    | Some utfPath =>
        if bool_decide (GOARCH = "386") then
          r ← in_sys (PdhExpandCounterPath utfPath);
          match r with
          | None => fail ENoCounterPaths
          | Some buf => lift (UTF16ToStringArray buf)
          end
        else
          buf ← expand_retry utfPath;
          paths ← lift (UTF16ToStringArray buf);
          match paths with
          | [p] =>
              if Contains p "*" && bool_decide (p = wildCardPath) then
                r ← attempt (in_sys (PdhExpandWildCardPath utfPath));
                match r with
                | inl _ => mret paths
                | inr _ => fail (EPdhErrno ERROR_NOT_FOUND)
                end
              else mret paths
          | _ => mret paths
          end
    end.

(** [defer d()]: runs however the body ends, its own result is dropped. *)
Definition deferred {A} (body : PDH A) (d : PDH unit) : PDH A := λ s,
  let '(s1, r) := body s in
  match d s1 with
  | (s2, Panic p) => (s2, Panic p)
  | (s2, _) => (s2, r)
  end.

(** The full path of the counter [h] that was added for an English name. *)
Definition expand_full_path (counterPath : string) (err : perr) (h : Z) : PDH (list string) :=
  info ← in_sys (PdhGetCounterInfo h);
  match info with
  | None => panics PNilPointer
  | Some szFullPath =>
      path ← lift (UTF16PtrToString szFullPath);
      if bool_decide (path = counterPath) then fail err else ExpandWildCardPath path
  end.

Definition GetCounterPaths (counterPath : string) : PDH (list string) :=
  r ← attempt (ExpandWildCardPath counterPath);
  match r with
  | inl paths => mret paths
  | inr err =>
      match err with
      | EPdhErrno e =>
          if (e =? PDH_CSTATUS_NO_OBJECT) || (e =? PDH_CSTATUS_NO_COUNTER) then
            h ← AddEnglishCounter counterPath;
            deferred (expand_full_path counterPath err h) (in_sys (PdhRemoveCounter h))
          else fail err
      | _ => fail err
      end
  end.

Fixpoint matchCounter (counterPath : string) (counterList : list string) : bool :=
  match counterList with
  | [] => false
  | cn :: rest => if bool_decide (cn = counterPath) then true else matchCounter counterPath rest
  end.

Definition RemoveUnusedCounters (ctrs : list string) : PDH unit :=
  if existsb (λ c, Contains c "*") ctrs then mret tt
  else
    q ← the_query;
    let unused : gmap string Counter := list_to_map
      (filter (λ '(counterPath, _), matchCounter counterPath ctrs = false) (map_order (counters q))) in
    foreach (map_order unused) (λ '(counterPath, cnt),
      in_sys (PdhRemoveCounter (handle cnt)) ≫= λ _, drop_counter counterPath).

Definition CollectData : PDH unit := q ← the_query; in_sys (PdhCollectQueryData (q_Handle q)).
Definition CollectDataEx (interval event : Z) : PDH unit :=
  q ← the_query; in_sys (PdhCollectQueryDataEx (q_Handle q) interval event).

(** *** Values *)
Inductive measurement := MLong (v : Z) | MLarge (v : Z) | MDouble (v : float64).

Record CounterValue := mkValue {
  cv_Instance : string;
  Measurement : option measurement;
  cv_Error : option perr;
  cv_CStatus : Z
}.

Definition value_of (name : string) {A} (wrap : A → measurement)
    (r : Z * (Z * A) * option perr) : CounterValue :=
  let '(_, (st, v), err) := r in
  match err with
  | Some e => mkValue name None (Some e) st
  | None => mkValue name (Some (wrap v)) None 0
  end.

Definition getCounterValue (c : Counter) : PDH CounterValue :=
  if format c =? PdhFmtLong then
    r ← in_sys (PdhGetFormattedCounterValueLong (handle c)); mret (value_of (instanceName c) MLong r)
  else if format c =? PdhFmtLarge then
    r ← in_sys (PdhGetFormattedCounterValueLarge (handle c)); mret (value_of (instanceName c) MLarge r)
  else if format c =? PdhFmtDouble then
    r ← in_sys (PdhGetFormattedCounterValueDouble (handle c)); mret (value_of (instanceName c) MDouble r)
  else
    mret (mkValue (instanceName c) None (Some (EInvalidFormat (format c) (instanceName c))) 0).

Fixpoint values_loop (l : list (string * Counter)) (rtn : gmap string (list CounterValue)) :
    PDH (gmap string (list CounterValue)) :=
  match l with
  | [] => mret rtn
  | (path, c) :: l' =>
      v ← getCounterValue c;
      values_loop l' (<[path := default [] (rtn !! path) ++ [v]]> rtn)
  end.

Definition GetFormattedCounterValues : PDH (gmap string (list CounterValue)) :=
  q ← the_query;
  if bool_decide (counters q = ∅) then fail ENoCounterList
  else values_loop (map_order (counters q)) ∅.

Definition GetCountersAndInstances (objectName : string) : PDH (list string * list string) :=
  '(cs, ins) ← map_err (λ e, EEnumItems objectName (Some e)) (in_sys (PdhEnumObjectItems objectName));
  if bool_decide (cs = []) && bool_decide (ins = []) then fail (EEnumItems objectName None)
  else
    a ← lift (UTF16ToStringArray cs);
    b ← lift (UTF16ToStringArray ins);
    mret (a, b).

Definition GetRawCounterValue (counterName : string) : PDH PdhRawCounter :=
  q ← the_query;
  match counters q !! counterName with
  | None => fail (ENotInMap counterName)
  | Some c => in_sys (PdhGetRawCounterValue (handle c))
  end.

Definition GetRawCounterArray (counterName : string) (filterTotal : bool) : PDH (list PdhRawCounterItem) :=
  q ← the_query;
  match counters q !! counterName with
  | None => fail (ENotInMap counterName)
  | Some c => in_sys (PdhGetRawCounterArray (handle c) filterTotal)
  end.

Definition Query_Close : PDH unit := q ← the_query; in_sys (PdhCloseQuery (q_Handle q)).
End api.
