(* ===== verification/PdhFacts.v ===== *)
(** * Package [pdh]: strings from the system and the life of counters

    Multi-strings of the system read back; the instance of a counter path; the
    map of a query against the counters the system holds for it. *)
From S2P Require Import Prelude GoStrings GoUtf8 Pdh.

Open Scope string_scope.
Open Scope list_scope.
Open Scope Z_scope.

(** ** Multi-strings *)

(** Zero-terminated strings one after the other. *)
Definition lines (ls : list (list Z)) : list Z := concat (map (λ l, l ++ [0]) ls).

Definition plain (l : list Z) : Prop := l ≠ [] ∧ Forall bmp l.

#[global] Instance plain_dec l : Decision (plain l).
Proof. unfold plain. apply _. Defined.

Lemma rune_count_encode l : Forall bmp l → rune_count (encode l) = length l.
Proof.
  intros Hl. unfold rune_count. rewrite <- (length_fmap snd).
  rewrite range_string_encode; [done|]. by eapply Forall_impl, bmp_valid.
Qed.

Lemma encode_nonempty l : plain l → encode l ≠ "".
Proof. intros [Hne _]. destruct l; [done|]. apply EncodeRune_nonempty. Qed.

Section arrays.
Context `{PdhApi} {E : Type}.

Lemma UTF16PtrToString_line l m :
  Forall bmp l → UTF16PtrToString (E := E) (Some (l ++ 0 :: m)) = Ok (encode l).
Proof. intros Hl. simpl. by rewrite until_nul_bmp, decodeWTF16_bmp. Qed.

Lemma at_index_app pre x m :
  at_index (E := E) (pre ++ x :: m) (length pre) = Ok (x :: m ++ beyond).
Proof.
  unfold at_index. rewrite length_app. simpl.
  destruct (Nat.ltb_spec (length pre) (length pre + S (length m))); [|lia].
  by rewrite drop_app_length.
Qed.

(** The string a list of lines starts with. *)
Definition first_line (ls : list (list Z)) : string := from_option encode "" (head ls).

(** What is read at the start of [lines ls ++ 0 :: junk]. *)
Lemma read_first_line pre ls junk :
  Forall plain ls → ∃ mem,
  at_index (E := E) (pre ++ lines ls ++ 0 :: junk) (length pre) = Ok mem ∧
  UTF16PtrToString (E := E) (Some mem) = Ok (first_line ls).
Proof.
  intros Hls. destruct Hls as [|l ls [Hne Hl] Hls].
  { exists (0 :: junk ++ beyond). split; [apply at_index_app|done]. }
  unfold lines. simpl. rewrite <- !app_assoc. fold (lines ls).
  destruct l as [|x l]; [done|]. simpl. rewrite at_index_app. eexists. split; [done|].
  rewrite <- app_assoc. apply (UTF16PtrToString_line (x :: l)). done.
Qed.

Lemma string_array_loop_lines ls : ∀ fuel pre junk acc,
  Forall plain ls → (length ls < fuel)%nat →
  string_array_loop (E := E) fuel (pre ++ lines ls ++ 0 :: junk) (length pre) (first_line ls) acc
  = Ok (acc ++ map encode ls).
Proof.
  induction ls as [|l ls IH]; intros [|fuel] pre junk acc Hls Hf; simpl in Hf; try lia.
  { simpl. by rewrite app_nil_r. }
  apply Forall_cons in Hls as [Hl Hls]. cbn [string_array_loop first_line head from_option].
  rewrite bool_decide_false by by apply encode_nonempty.
  rewrite rune_count_encode by apply Hl.
  assert (Hb : pre ++ lines (l :: ls) ++ 0 :: junk = (pre ++ l ++ [0]) ++ lines ls ++ 0 :: junk).
  { unfold lines. simpl. by rewrite <- !app_assoc. }
  assert (Hn : (length pre + (length l + 1))%nat = length (pre ++ l ++ [0])).
  { rewrite !length_app. simpl. lia. }
  rewrite Hb, Hn. destruct (Nat.ltb_spec (length ((pre ++ l ++ [0]) ++ lines ls ++ 0 :: junk))
    (length (pre ++ l ++ [0]))) as [Hlt|]; [rewrite length_app in Hlt; lia|].
  destruct (read_first_line (pre ++ l ++ [0]) ls junk Hls) as (mem & -> & Hr). unfold mbind at 1, res_bind at 1.
  rewrite Hr. unfold mbind, res_bind. rewrite IH by (done || lia).
  by rewrite <- app_assoc.
Qed.

(** A buffer that holds zero-terminated strings of characters of the basic
    plane, ended by an empty one, is read as exactly these strings, in order,
    whatever follows the terminator in the buffer and in memory; the call
    neither panics nor reads past the terminator. *)
Theorem UTF16ToStringArray_lines (ls : list (list Z)) (junk : list Z) :
  Forall plain ls →
  UTF16ToStringArray (E := E) (lines ls ++ 0 :: junk) = Ok (map encode ls).
Proof.
  intros Hls. unfold UTF16ToStringArray.
  destruct (read_first_line [] ls junk Hls) as (mem & Hm & Hr). simpl in Hm. rewrite Hm.
  unfold mbind at 1, res_bind at 1. rewrite Hr. unfold mbind, res_bind.
  apply (string_array_loop_lines ls _ []); [done|].
  assert (Hlen : ∀ ls, (length ls ≤ length (lines ls))%nat).
  { intros ls'. unfold lines. induction ls' as [|l ls' IH]; simpl; [done|]. rewrite !length_app. simpl. lia. }
  specialize (Hlen ls). rewrite length_app. simpl. lia.
Qed.
End arrays.

(** ** The instance of a counter path *)

(** The depth of parentheses after the runes, unless one closes too many. *)
Fixpoint depth (k : Z) (rs : list Z) : option Z :=
  match rs with
  | [] => Some k
  | r :: rest =>
      if r =? 41 then if k <? 1 then None else depth (k - 1) rest
      else depth (if r =? 40 then k + 1 else k) rest
  end.

Definition balanced (rs : list Z) : Prop := depth 0 rs = Some 0.

#[global] Instance balanced_dec rs : Decision (balanced rs).
Proof. unfold balanced. apply _. Defined.

(** Inside an open parenthesis everything goes to the inner match. *)
Lemma last_instance_inner rs : ∀ d k k' rest inner ms,
  0 < d → 0 ≤ k → depth k rs = Some k' →
  last_instance_loop (rs ++ rest) (d + k) inner ms
  = last_instance_loop rest (d + k') (inner +:+ encode rs) ms.
Proof.
  induction rs as [|r rs IH]; intros d k k' rest inner ms Hd Hk Hdep; simpl in *.
  { injection Hdep as ->. by rewrite sapp_nil_r. }
  rewrite <- sapp_assoc.
  destruct (Z.eqb_spec r 41) as [->|]; simpl in *.
  - destruct (Z.ltb_spec k 1); [done|].
    destruct (Z.ltb_spec 0 (d + k - 1)); [|lia]. destruct (Z.eqb_spec (d + k - 1) 0); [lia|]. simpl.
    replace (d + k - 1) with (d + (k - 1)) by lia. apply IH; (done || lia).
  - destruct (Z.ltb_spec 0 (d + k)); [|lia]. destruct (Z.eqb_spec (d + k) 0); [lia|]. simpl.
    destruct (Z.eqb_spec r 40); [|apply IH; (done || lia)].
    rewrite <- Z.add_assoc. apply IH; (done || lia).
Qed.

(** Between top-level groups the inner match is empty. *)
Lemma last_instance_outer rs : ∀ k k' rest inner ms,
  0 ≤ k → depth k rs = Some k' → (k = 0 → inner = "") →
  ∃ inner' ms', (k' = 0 → inner' = "") ∧
    last_instance_loop (rs ++ rest) k inner ms = last_instance_loop rest k' inner' ms'.
Proof.
  induction rs as [|r rs IH]; intros k k' rest inner ms Hk Hdep Hi; simpl in *.
  { injection Hdep as ->. by exists inner, ms. }
  destruct (Z.eqb_spec r 41) as [->|]; simpl in *.
  - destruct (Z.ltb_spec k 1); [done|]. destruct (Z.eqb_spec (k - 1) 0) as [E|]; simpl.
    + rewrite E in *. simpl. destruct (bool_decide _) eqn:Hb; simpl; apply IH; try done.
      by apply bool_decide_eq_true in Hb.
    + destruct (Z.ltb_spec 0 (k - 1)); [|lia]. apply IH; (done || lia).
  - destruct (Z.ltb_spec 0 k).
    + destruct (Z.eqb_spec k 0); [lia|]. simpl.
      destruct (Z.eqb_spec r 40); apply IH; (done || lia).
    + assert (k = 0) as -> by lia. rewrite Hi by done. simpl.
      destruct (Z.eqb_spec r 40); apply IH; (done || lia).
Qed.

Lemma returnLastInstance_group p x :
  Forall valid_rune p → Forall valid_rune x → balanced p → balanced x → x ≠ [] →
  returnLastInstance (encode (p ++ 40 :: x ++ [41])) = encode x.
Proof.
  intros Hp Hx Bp Bx Hne. unfold returnLastInstance.
  rewrite range_string_encode.
  2:{ apply Forall_app. split; [done|]. constructor; [unfold valid_rune; lia|].
      apply Forall_app. split; [done|]. constructor; [unfold valid_rune; lia|constructor]. }
  destruct (last_instance_outer p 0 0 (40 :: x ++ [41]) "" []) as (inner & ms & Hi & ->); [done..|].
  rewrite Hi by done. cbn [last_instance_loop Z.eqb Z.ltb Z.compare andb negb Pos.eqb Pos.compare].
  rewrite bool_decide_true by done. simpl.
  change (0 + 1) with (1 + 0). rewrite (last_instance_inner x 1 0 0 [41] "" ms) by (done || lia). simpl.
  rewrite bool_decide_false; simpl; [by rewrite last_snoc|].
  destruct x as [|y x]; [done|]. apply EncodeRune_nonempty.
Qed.

(** *** What the first expression captures *)
Lemma last_close_lacks_backslash s : ∀ n, lacks "\" s = true → last_close n s = None.
Proof.
  induction s as [|a s IH]; intros n Hs; simpl in *; [done|].
  destruct (Ascii.eqb_spec a "\") as [->|]; [done|]. simpl in Hs.
  case_bool_decide; [done|]. rewrite IH by done.
  destruct s as [|b s]; simpl in *; [by rewrite andb_false_r|].
  destruct (Ascii.eqb_spec b "\"); [done|]. by rewrite andb_false_r.
Qed.

Lemma last_close_group m : ∀ n c,
  lacks "010" m = true → lacks "\" c = true →
  last_close n (m +:+ ")\" +:+ c) = Some (n + String.length m)%nat.
Proof.
  induction m as [|a m IH]; intros n c Hm Hc; simpl in *.
  - rewrite last_close_lacks_backslash by done.
    rewrite HasPrefix_nil. by rewrite Nat.add_0_r.
  - destruct (Ascii.eqb_spec a "010") as [|Ha]; [done|]. simpl in Hm.
    rewrite bool_decide_false by done. rewrite IH by done. f_equal. lia.
Qed.

(** A group at the first parenthesis of the path, up to the end of its line. *)
Lemma instance_submatch_group a m c :
  lacks "(" a = true → lacks "010" m = true → m ≠ "" → lacks "\" c = true →
  instance_submatch (a +:+ "(" +:+ m +:+ ")\" +:+ c) = Some ("(" +:+ m +:+ ")").
Proof.
  intros Ha Hm Hne Hc. induction a as [|x a IH]; simpl in *.
  - destruct m as [|b m]; [done|]. simpl in *.
    destruct (Ascii.eqb_spec b "010"); [done|]. rewrite bool_decide_false by done.
    change (String ")" (String "\" c)) with (")\" +:+ c).
    rewrite last_close_group by done. simpl. do 3 f_equal.
    replace (m +:+ String ")" (String "\" c)) with ((m +:+ ")") +:+ String "\" c) by by rewrite sapp_assoc.
    replace (S (String.length m)) with (String.length (m +:+ ")")) by (rewrite length_sapp; simpl; lia).
    exact (stake_length_app (m +:+ ")") (String "\" c)).
  - destruct (Ascii.eqb_spec x "("); [done|]. rewrite bool_decide_false by done. by apply IH.
Qed.

Lemma encode_lacks c rs :
  Forall valid_rune rs → valid_rune (byte c) → byte c < 128 → byte c ∉ rs → lacks c (encode rs) = true.
Proof.
  intros Hrs Hv Hc Hn. destruct (lacks c (encode rs)) eqn:E; [done|].
  assert (He : encode [byte c] = String c "").
  { simpl. unfold EncodeRune. rewrite bool_decide_true by done.
    destruct (Z.leb_spec (byte c) 127); [|lia]. simpl. by rewrite chr_byte. }
  assert (Hk : Contains (encode rs) (encode [byte c]) = true) by (rewrite He, Contains_lacks, E; done).
  apply encode_contains in Hk as (x & y & ->); [|by constructor|done].
  exfalso. apply Hn. set_solver.
Qed.

(** A balanced text is a part without parentheses, then nothing or a balanced
    part that starts with one. *)
Lemma balanced_split rs : balanced rs → ∃ a b, rs = a ++ b ∧ (40 ∉ a) ∧ balanced b ∧ (b = [] ∨ (∃ b', b = 40 :: b')).
Proof.
  unfold balanced at 1. induction rs as [|r rs IH]; intros Hd; simpl in *.
  { exists [], []. repeat split; [set_solver|by left]. }
  destruct (Z.eqb_spec r 41); [done|]. destruct (Z.eqb_spec r 40) as [->|Hr]; simpl in *.
  - exists [], (40 :: rs). repeat split; [set_solver|done|]. right. by exists rs.
  - destruct IH as (a & b & -> & Ha & Hb & Hc); [done|]. exists (r :: a), b.
    repeat split; [set_solver|done..].
Qed.

Lemma encode_paren q : encode (40 :: q ++ [41]) = "(" +:+ encode q +:+ ")".
Proof. simpl. by rewrite encode_app. Qed.

Lemma encode_ascii c rs : valid_rune (byte c) → byte c < 128 → encode (byte c :: rs) = String c (encode rs).
Proof.
  intros Hv Hc. simpl. unfold EncodeRune. rewrite bool_decide_true by done.
  destruct (Z.leb_spec (byte c) 127); [|lia]. simpl. by rewrite chr_byte.
Qed.

(** A counter path [\\machine\object(instance)\counter], whose part before
    the instance may itself hold balanced parentheses and whose counter name has
    no backslash, gives the instance, parentheses inside it included. *)
Theorem MatchInstanceName_instance (pre inst ctr : list Z) :
  Forall valid_rune (pre ++ inst ++ ctr) → balanced pre → balanced inst → inst ≠ [] →
  10 ∉ pre ++ inst → 92 ∉ ctr →
  MatchInstanceName (encode (pre ++ 40 :: inst ++ 41 :: 92 :: ctr)) = Ok (encode inst).
Proof.
  intros Hv Bp Bi Hne Hnl Hbs. rewrite !Forall_app in Hv. destruct Hv as (Vp & Vi & Vc).
  destruct (balanced_split pre Bp) as (a & b & -> & Ha & Bb & Hb).
  rewrite Forall_app in Vp. destruct Vp as [Va Vb].
  assert (Hq : ∃ q, b ++ 40 :: inst = 40 :: q ∧ q ≠ [] ∧ Forall valid_rune q ∧ 10 ∉ q).
  { destruct Hb as [->|[b' ->]]; [by exists inst; conjs; [| | |set_solver]|].
    exists (b' ++ 40 :: inst). inversion Vb; subst. conjs; [done|by destruct b'| |set_solver].
    apply Forall_app. split; [done|]. constructor; [unfold valid_rune; lia|done]. }
  destruct Hq as (q & Hq & Hqne & Vq & Hqnl).
  assert (Hs : encode ((a ++ b) ++ 40 :: inst ++ 41 :: 92 :: ctr) =
               encode a +:+ "(" +:+ encode q +:+ ")\" +:+ encode ctr).
  { replace ((a ++ b) ++ 40 :: inst ++ 41 :: 92 :: ctr) with (a ++ (40 :: q) ++ 41 :: 92 :: ctr)
      by (rewrite <- Hq; rewrite <- !app_assoc; done).
    rewrite !encode_app. done. }
  unfold MatchInstanceName. rewrite Hs, instance_submatch_group.
  - f_equal. rewrite <- encode_paren. change (40 :: q ++ [41]) with ((40 :: q) ++ [41]).
    rewrite <- Hq, <- app_assoc. by apply (returnLastInstance_group b inst).
  - by apply encode_lacks; [|by left|done|].
  - by apply encode_lacks; [|by left|done|].
  - destruct q; [done|]. apply EncodeRune_nonempty.
  - by apply encode_lacks; [|by left|done|].
Qed.

(** ** Counters held by the system

    What the documentation of the functions says about handles: a query that is
    opened has no counters and a counter that is added gets a handle that no
    counter has; removing a counter that is held succeeds; closing a query gives
    up its counters; the other functions neither add nor remove counters.
    [live] are the counters held, each with its query. *)
Class PdhLaws `{PdhApi} := {
  live : system → gset (Z * Z);
  open_law : ∀ src u w w' r q, PdhOpenQueryW src u w = (w', (r, q)) →
    live w' = live w ∧ (r = 0 → ∀ c, (q, c) ∉ live w);
  add_english_law : ∀ q p u w w' r h, PdhAddEnglishCounterW q p u w = (w', (r, h)) →
    if r =? 0 then (∀ q', (q', h) ∉ live w) ∧ live w' = {[(q, h)]} ∪ live w else live w' = live w;
  add_law : ∀ q p u w w' r h, PdhAddCounterW q p u w = (w', (r, h)) →
    if r =? 0 then (∀ q', (q', h) ∉ live w) ∧ live w' = {[(q, h)]} ∪ live w else live w' = live w;
  remove_law : ∀ h w w' r, PdhRemoveCounterProc h w = (w', r) →
    live w' = filter (λ x, x.2 ≠ h) (live w) ∧ (∀ q, (q, h) ∈ live w → r = 0);
  close_law : ∀ q w w' r, PdhCloseQueryProc q w = (w', r) →
    live w' = if r =? 0 then filter (λ x, x.1 ≠ q) (live w) else live w;
  collect_law : ∀ q w, live (PdhCollectQueryDataProc q w).1 = live w;
  collect_ex_law : ∀ args w, live (PdhCollectQueryDataExProc args w).1 = live w;
  formatted_law : ∀ c f w, live (PdhGetFormattedCounterValueProc c f w).1 = live w;
  raw_law : ∀ c w, live (PdhGetRawCounterValueProc c w).1 = live w;
  raw_array_law : ∀ c n b w, live (PdhGetRawCounterArrayW c n b w).1 = live w;
  wildcard_law : ∀ d p b n w, live (PdhExpandWildCardPathW d p b n w).1 = live w;
  counter_path_law : ∀ p b n w, live (PdhExpandCounterPathW p b n w).1 = live w;
  info_law : ∀ c t n b w, live (PdhGetCounterInfoW c t n b w).1 = live w;
  enum_law : ∀ o c i d f w, live (PdhEnumObjectItemsW o c i d f w).1 = live w
}.

Section laws.
Context `{PdhLaws} `{MapOrder} `{SliceSort}.
Implicit Types (s : pdh_state).

(** *** Calls that leave the counters alone *)
Definition quiet_sys {A} (c : SYS A) : Prop := ∀ w, live (c w).1 = live w.
Definition quiet {A} (c : PDH A) : Prop := ∀ s,
  query (c s).1 = query s ∧ live (sys (c s).1) = live (sys s).

Lemma quiet_sys_ret {A} (a : A) : quiet_sys (mret a).
Proof. done. Qed.
Lemma quiet_sys_fail {A} e : quiet_sys (A := A) (fail e).
Proof. done. Qed.
Lemma quiet_sys_panics {A} p : quiet_sys (A := A) (panics p).
Proof. done. Qed.
Lemma quiet_sys_lift {A} (r : res perr A) : quiet_sys (lift r).
Proof. done. Qed.

Lemma quiet_sys_bind {A B} (c : SYS A) (k : A → SYS B) :
  quiet_sys c → (∀ a, quiet_sys (k a)) → quiet_sys (c ≫= k).
Proof.
  intros Hc Hk w. specialize (Hc w). unfold mbind, SE_bind.
  destruct (c w) as [w' [a| | |]]; simpl in *; try done. by rewrite Hk.
Qed.

Lemma status_of_run {A} (call : CALL A) w :
  status_of call w =
  match call w with
  | (w', (Some e, _)) => (w', pdh_errno e)
  | (w', (None, a)) => (w', Ok a)
  end.
Proof. unfold status_of, status, mbind, SE_bind. by destruct (call w) as [w' [[e|] a]]. Qed.

Definition quiet_call {A} (call : CALL A) : Prop := ∀ w, live (call w).1 = live w.

Lemma quiet_status {A} (call : CALL A) : quiet_call call → quiet_sys (status call).
Proof. intros Hc w. specialize (Hc w). unfold status. by destruct (call w). Qed.

Lemma quiet_status_of {A} (call : CALL A) : quiet_call call → quiet_sys (status_of call).
Proof.
  intros Hc w. specialize (Hc w). rewrite status_of_run.
  by destruct (call w) as [w' [[e|] a]].
Qed.

Lemma quiet_collect q : quiet_call (_PdhCollectQueryData q).
Proof. intros w. unfold _PdhCollectQueryData, syscall_. pose proof (collect_law q w). by destruct (PdhCollectQueryDataProc q w). Qed.
Lemma quiet_collect_ex q i e : quiet_call (_PdhCollectQueryDataEx q i e).
Proof.
  intros w. unfold _PdhCollectQueryDataEx, syscall_. pose proof (collect_ex_law (take 1 [q; i; e]) w).
  by destruct (PdhCollectQueryDataExProc _ w).
Qed.
Lemma quiet_formatted_call c f : quiet_call (_PdhGetFormattedCounterValue c f).
Proof.
  intros w. unfold _PdhGetFormattedCounterValue. pose proof (formatted_law c f w).
  by destruct (PdhGetFormattedCounterValueProc c f w) as [? [[??]?]].
Qed.
Lemma quiet_raw c : quiet_call (_PdhGetRawCounter c).
Proof.
  intros w. unfold _PdhGetRawCounter, syscall. pose proof (raw_law c w).
  by destruct (PdhGetRawCounterValueProc c w) as [? [??]].
Qed.
Lemma quiet_raw_array c n b : quiet_call (_PdhGetRawCounterArray c n b).
Proof.
  intros w. unfold _PdhGetRawCounterArray. pose proof (raw_array_law c n b w).
  by destruct (PdhGetRawCounterArrayW c n b w) as [? [[[??]?]?]].
Qed.
Lemma quiet_wildcard d p b n : quiet_call (_PdhExpandWildCardPath d p b n).
Proof.
  intros w. unfold _PdhExpandWildCardPath. pose proof (wildcard_law d p b n w).
  by destruct (PdhExpandWildCardPathW d p b n w) as [? [[??]?]].
Qed.
Lemma quiet_counter_path p b n : quiet_call (_PdhExpandCounterPath p b n).
Proof.
  intros w. unfold _PdhExpandCounterPath. pose proof (counter_path_law p b n w).
  by destruct (PdhExpandCounterPathW p b n w) as [? [[??]?]].
Qed.
Lemma quiet_info c t n b : quiet_call (_PdhGetCounterInfo c t n b).
Proof.
  intros w. unfold _PdhGetCounterInfo. pose proof (info_law c t n b w).
  by destruct (PdhGetCounterInfoW c t n b w) as [? [[??]?]].
Qed.
Lemma quiet_enum o c i d f : quiet_call (_PdhEnumObjectItems o c i d f).
Proof.
  intros w. unfold _PdhEnumObjectItems. pose proof (enum_law o c i d f w).
  by destruct (PdhEnumObjectItemsW o c i d f w) as [? [[??]?]].
Qed.

Lemma quiet_ret {A} (a : A) : quiet (mret a).
Proof. done. Qed.
Lemma quiet_fail {A} e : quiet (A := A) (fail e).
Proof. done. Qed.
Lemma quiet_panics {A} p : quiet (A := A) (panics p).
Proof. done. Qed.
Lemma quiet_lift {A} (r : res perr A) : quiet (lift r).
Proof. done. Qed.
Lemma quiet_the_query : quiet the_query.
Proof. done. Qed.

Lemma quiet_bind {A B} (c : PDH A) (k : A → PDH B) :
  quiet c → (∀ a, quiet (k a)) → quiet (c ≫= k).
Proof.
  intros Hc Hk s. specialize (Hc s). unfold mbind, SE_bind.
  destruct (c s) as [s' [a| | |]]; simpl in *; try done.
  destruct (Hk a s') as [-> ->]. done.
Qed.

Lemma quiet_in_sys {A} (c : SYS A) : quiet_sys c → quiet (in_sys c).
Proof. intros Hc s. specialize (Hc (sys s)). unfold in_sys. by destruct (c (sys s)). Qed.

Lemma quiet_attempt {A} (c : PDH A) : quiet c → quiet (attempt c).
Proof. intros Hc s. specialize (Hc s). unfold attempt. by destruct (c s) as [s' [| | |]]. Qed.

Lemma quiet_map_err {A} (f : perr → perr) (c : PDH A) : quiet c → quiet (map_err f c).
Proof. intros Hc s. specialize (Hc s). unfold map_err. by destruct (c s) as [s' [| | |]]. Qed.
End laws.

Create HintDb pdh.
#[export] Hint Resolve quiet_sys_ret quiet_sys_fail quiet_sys_panics quiet_sys_lift
  quiet_ret quiet_fail quiet_panics quiet_lift quiet_the_query : pdh.
#[export] Hint Resolve quiet_collect quiet_collect_ex quiet_formatted_call quiet_raw quiet_raw_array
  quiet_wildcard quiet_counter_path quiet_info quiet_enum : pdh.

(** Walks through a call whose system calls are all quiet. *)
Ltac quiet_tac :=
  repeat first
    [ solve [eauto with pdh]
    | apply quiet_bind; [|intros ?]
    | apply quiet_sys_bind; [|intros ?]
    | apply quiet_in_sys | apply quiet_attempt | apply quiet_map_err
    | apply quiet_status | apply quiet_status_of
    | case_match ].

Section invariant.
Context `{PdhLaws} `{MapOrder} `{SliceSort}.
Implicit Types (s : pdh_state).

Lemma quiet_PdhExpandWildCardPath p : quiet_sys (PdhExpandWildCardPath p).
Proof. unfold PdhExpandWildCardPath. quiet_tac. Qed.
Lemma quiet_PdhExpandCounterPath p : quiet_sys (PdhExpandCounterPath p).
Proof. unfold PdhExpandCounterPath. quiet_tac. Qed.
Lemma quiet_PdhGetCounterInfo h : quiet_sys (PdhGetCounterInfo h).
Proof. unfold PdhGetCounterInfo. quiet_tac. Qed.
Lemma quiet_PdhEnumObjectItems o : quiet_sys (PdhEnumObjectItems o).
Proof. unfold PdhEnumObjectItems. quiet_tac. Qed.
Lemma quiet_PdhGetRawCounterArray h b : quiet_sys (PdhGetRawCounterArray h b).
Proof. unfold PdhGetRawCounterArray. quiet_tac. Qed.
#[local] Hint Resolve quiet_PdhExpandWildCardPath quiet_PdhExpandCounterPath quiet_PdhGetCounterInfo
  quiet_PdhEnumObjectItems quiet_PdhGetRawCounterArray : pdh.

Lemma quiet_formatted {A} c f (g : fmt_value float64 → A) : quiet_sys (formatted_value c f g).
Proof. unfold formatted_value. quiet_tac. Qed.
#[local] Hint Resolve quiet_formatted : pdh.

Lemma quiet_ExpandWildCardPath p : quiet (ExpandWildCardPath p).
Proof. unfold ExpandWildCardPath, expand_retry. quiet_tac. Qed.
#[local] Hint Resolve quiet_ExpandWildCardPath : pdh.

Lemma quiet_GetCountersAndInstances o : quiet (GetCountersAndInstances o).
Proof. unfold GetCountersAndInstances. quiet_tac. Qed.
Lemma quiet_GetRawCounterValue n : quiet (GetRawCounterValue n).
Proof. unfold GetRawCounterValue, PdhGetRawCounterValue. quiet_tac. Qed.
Lemma quiet_GetRawCounterArray n b : quiet (GetRawCounterArray n b).
Proof. unfold GetRawCounterArray. quiet_tac. Qed.
Lemma quiet_CollectData : quiet CollectData.
Proof. unfold CollectData, PdhCollectQueryData. quiet_tac. Qed.
Lemma quiet_CollectDataEx i e : quiet (CollectDataEx i e).
Proof. unfold CollectDataEx, PdhCollectQueryDataEx. quiet_tac. Qed.

Lemma quiet_getCounterValue c : quiet (getCounterValue c).
Proof.
  unfold getCounterValue, PdhGetFormattedCounterValueLong, PdhGetFormattedCounterValueLarge,
    PdhGetFormattedCounterValueDouble. quiet_tac.
Qed.
#[local] Hint Resolve quiet_getCounterValue : pdh.

Lemma quiet_GetFormattedCounterValues : quiet GetFormattedCounterValues.
Proof.
  unfold GetFormattedCounterValues. apply quiet_bind; [quiet_tac|intros q]. case_bool_decide; [quiet_tac|].
  generalize (∅ : gmap string (list CounterValue)).
  induction (map_order (counters q)) as [|[k c] l IH]; intros rtn; simpl; quiet_tac.
Qed.

(** *** The map of a query and the counters the system holds for it
    [given] are the handles [AddEnglishCounter] gave to the caller. *)
Record tracked (given : gset Z) s : Prop := mkTracked {
  tr_open : is_Some (q_Counters (query s));
  tr_held : ∀ p c, counters (query s) !! p = Some c →
    (q_Handle (query s), handle c) ∈ live (sys s) ∧ handle c ∉ given;
  tr_given : ∀ h, h ∈ given → (q_Handle (query s), h) ∈ live (sys s);
  tr_known : ∀ h, (q_Handle (query s), h) ∈ live (sys s) →
    (∃ p c, counters (query s) !! p = Some c ∧ handle c = h) ∨ h ∈ given;
  tr_inj : ∀ p p' c c', counters (query s) !! p = Some c → counters (query s) !! p' = Some c' →
    handle c = handle c' → p = p'
}.
Implicit Types given : gset Z.

Lemma tracked_same given s s' :
  query s' = query s → live (sys s') = live (sys s) → tracked given s → tracked given s'.
Proof. intros Hq Hl []. split; rewrite ?Hq, ?Hl; done. Qed.

Lemma tracked_quiet {A} (c : PDH A) given s : quiet c → tracked given s → tracked given (c s).1.
Proof. intros Hc Hs. destruct (Hc s). by apply (tracked_same given s). Qed.

(** Whatever the query was before, opening it starts with no counter. *)
Lemma tracked_Open s s' : Query_Open s = (s', Ok tt) → tracked ∅ s'.
Proof.
  unfold Query_Open, mbind, SE_bind, in_sys, PdhOpenQuery. simpl.
  rewrite status_of_run. unfold _PdhOpenQuery, syscall, errcode.
  destruct (PdhOpenQueryW None 0 (sys s)) as [w [r q]] eqn:E. apply open_law in E as [Hl Hf].
  destruct (Z.eqb_spec r 0) as [->|]; simpl; [|done]. intros [= <-].
  split; unfold counters; simpl; [by eexists|done|set_solver| |done].
  intros h Hh. rewrite Hl in Hh. by destruct (Hf eq_refl h).
Qed.

(** Adding through either function. *)
Definition added (q : Z) s (r : system * res perr Z) : Prop :=
  match r with
  | (w, Ok h) => (∀ q', (q', h) ∉ live (sys s)) ∧ live w = {[(q, h)]} ∪ live (sys s)
  | (w, _) => live w = live (sys s)
  end.

Lemma PdhAddEnglishCounter_added q p s : added q s (PdhAddEnglishCounter q p 0 (sys s)).
Proof.
  unfold PdhAddEnglishCounter. rewrite status_of_run. unfold _PdhAddEnglishCounter, syscall, errcode.
  destruct (UTF16FromString p) as [u|]; [|done].
  destruct (PdhAddEnglishCounterW q u 0 (sys s)) as [w [r h]] eqn:E. apply add_english_law in E.
  by destruct (r =? 0).
Qed.

Lemma PdhAddCounter_added q p s : added q s (PdhAddCounter q p 0 (sys s)).
Proof.
  unfold PdhAddCounter. rewrite status_of_run. unfold _PdhAddCounter, syscall, errcode.
  destruct (UTF16FromString p) as [u|]; [|done].
  destruct (PdhAddCounterW q u 0 (sys s)) as [w [r h]] eqn:E. apply add_law in E.
  by destruct (r =? 0).
Qed.

Lemma tracked_put given s w m p c :
  tracked given s → q_Counters (query s) = Some m → m !! p = None →
  (∀ q', (q', handle c) ∉ live (sys s)) → live w = {[(q_Handle (query s), handle c)]} ∪ live (sys s) →
  tracked given (mkPdh (mkQuery (q_Handle (query s)) (Some (<[p := c]> m))) w).
Proof.
  intros [_ Hheld Hgiven Hknown Hinj] Hm Hp Hfresh Hl. unfold counters in *. rewrite Hm in *. simpl in *.
  assert (Hnew : ∀ p' c', m !! p' = Some c' → handle c' ≠ handle c).
  { intros p' c' Hc' He. apply (Hfresh (q_Handle (query s))). rewrite <- He. by apply (Hheld p'). }
  split; unfold counters; simpl; rewrite ?Hl; [by eexists|..].
  - intros p' c' [[<- <-]|[? Hc']]%lookup_insert_Some.
    + split; [set_solver|]. intros Hg%Hgiven. by apply (Hfresh (q_Handle (query s))).
    + apply Hheld in Hc'. set_solver.
  - intros h Hg%Hgiven. set_solver.
  - intros h [[= ->]%elem_of_singleton|Hh]%elem_of_union.
    + left. exists p, c. by rewrite lookup_insert_eq.
    + destruct (Hknown h Hh) as [(p' & c' & Hc' & <-)|?]; [left|by right]. exists p', c'. split; [|done].
      rewrite lookup_insert_ne; [done|]. intros <-. by rewrite Hp in Hc'.
  - intros p1 p2 c1 c2 [[<- <-]|[? Hc1]]%lookup_insert_Some [[<- <-]|[? Hc2]]%lookup_insert_Some He;
      [done| | |by apply (Hinj p1 p2 c1 c2)].
    + by destruct (Hnew _ _ Hc2).
    + by destruct (Hnew _ _ Hc1).
Qed.

Lemma tracked_add_put (add : SYS Z) p f name given s :
  tracked given s → counters (query s) !! p = None → added (q_Handle (query s)) s (add (sys s)) →
  tracked given ((h ← in_sys add; put_counter p (mkCounter h f name)) s).1.
Proof.
  intros Hs Hp Ha. unfold mbind, SE_bind, in_sys.
  destruct (add (sys s)) as [w [h| | |]]; simpl in Ha |- *; try by apply (tracked_same given s).
  destruct Ha as [Hf Hl]. unfold put_counter, mbind, SE_bind. simpl.
  destruct (tr_open _ _ Hs) as [m Hm]. rewrite Hm. simpl.
  unfold counters in Hp. rewrite Hm in Hp. by apply tracked_put.
Qed.

Lemma tracked_AddCounter p i f wild en given s :
  tracked given s → tracked given (AddCounter p i f wild en s).1.
Proof.
  intros Hs. unfold AddCounter, the_query. unfold mbind at 1, SE_bind at 1. cbn [query].
  destruct (counters (query s) !! p) as [|] eqn:Hp; [done|].
  assert (Hadd : added (q_Handle (query s)) s
    ((if en then PdhAddEnglishCounter (q_Handle (query s)) p 0
      else PdhAddCounter (q_Handle (query s)) p 0) (sys s))).
  { destruct en; [apply PdhAddEnglishCounter_added|apply PdhAddCounter_added]. }
  destruct (bool_decide (i = "") || wild); [destruct (MatchInstanceName p)|]; try done;
    by apply tracked_add_put.
Qed.

(** The counter is the caller's: the map does not have it. *)
Lemma tracked_AddEnglishCounter p given s : tracked given s →
  let '(s', r) := AddEnglishCounter p s in
  tracked (match r with Ok h => {[h]} ∪ given | _ => given end) s'.
Proof.
  intros Hs. unfold AddEnglishCounter, the_query, mbind, SE_bind, in_sys.
  pose proof (PdhAddEnglishCounter_added (q_Handle (query s)) p s) as Ha.
  destruct (PdhAddEnglishCounter _ p 0 (sys s)) as [w [h| | |]]; simpl in Ha |- *;
    try by apply (tracked_same given s).
  destruct Ha as [Hf Hl], Hs as [Hopen Hheld Hgiven Hknown Hinj]. split; simpl; rewrite ?Hl; [done|..|done].
  - intros p' c' Hc'. destruct (Hheld p' c' Hc') as [Hin Hn]. split; [set_solver|].
    intros [He%elem_of_singleton|?]%elem_of_union; [|done]. rewrite He in Hin. by apply (Hf _ Hin).
  - intros h' [->%elem_of_singleton|Hg%Hgiven]%elem_of_union; set_solver.
  - intros h' [[= ->]%elem_of_singleton|Hh]%elem_of_union; [right; set_solver|].
    destruct (Hknown h' Hh); [by left|right; set_solver].
Qed.

Lemma quiet_expand_full_path p e h : quiet (expand_full_path p e h).
Proof. unfold expand_full_path. quiet_tac. Qed.

(** The counter added for the English name is gone again however the call ends. *)
Lemma tracked_GetCounterPaths p given s : tracked given s → tracked given (GetCounterPaths p s).1.
Proof.
  intros Hs. unfold GetCounterPaths. unfold mbind at 1, SE_bind at 1.
  destruct (quiet_attempt _ (quiet_ExpandWildCardPath p) s) as [Hq Hl].
  destruct (attempt (ExpandWildCardPath p) s) as [s1 r]. simpl in Hq, Hl.
  assert (Hs1 : tracked given s1) by by apply (tracked_same given s).
  destruct r as [[paths|err]| | |]; try done. destruct err; try done.
  destruct (_ || _); [|done]. unfold AddEnglishCounter, mbind, SE_bind. simpl. unfold in_sys at 1.
  pose proof (PdhAddEnglishCounter_added (q_Handle (query s1)) p s1) as Ha.
  destruct (PdhAddEnglishCounter _ p 0 (sys s1)) as [w [h| | |]]; simpl in Ha |- *;
    try by apply (tracked_same given s1).
  destruct Ha as [Hf Hlw]. unfold deferred.
  destruct (quiet_expand_full_path p (EPdhErrno e) h (mkPdh (query s1) w)) as [Hq2 Hl2].
  destruct (expand_full_path p (EPdhErrno e) h (mkPdh (query s1) w)) as [s2 r]. simpl in Hq2, Hl2.
  unfold in_sys, PdhRemoveCounter, mbind, SE_bind. rewrite status_of_run. unfold _PdhRemoveCounter, syscall_.
  destruct (PdhRemoveCounterProc h (sys s2)) as [w3 r3] eqn:E. apply remove_law in E as [Hl3 _].
  assert (Hgoal : tracked given (mkPdh (query s2) w3)).
  { apply (tracked_same given s1); simpl; [by rewrite Hq2| |done]. rewrite Hl3, Hl2, Hlw. apply set_eq.
    intros [q' h']. rewrite elem_of_filter, elem_of_union, elem_of_singleton. simpl.
    split; [intros [? [[= -> ->]|?]]; done|]. intros Hin. split; [|by right]. intros ->. by apply (Hf q'). }
  by destruct (errcode r3).
Qed.

(** One turn of the loop that drops unused counters. *)
Lemma remove_step given s p c :
  tracked given s → counters (query s) !! p = Some c → ∃ s',
  (in_sys (PdhRemoveCounter (handle c)) ≫= λ _, drop_counter p) s = (s', Ok tt) ∧ tracked given s' ∧
  q_Handle (query s') = q_Handle (query s) ∧ counters (query s') = delete p (counters (query s)).
Proof.
  intros [[m Hm] Hheld Hgiven Hknown Hinj] Hc. unfold in_sys, PdhRemoveCounter, mbind, SE_bind. rewrite status_of_run. unfold _PdhRemoveCounter, syscall_.
  destruct (PdhRemoveCounterProc (handle c) (sys s)) as [w r] eqn:E. apply remove_law in E as [Hl Hr].
  destruct (Hheld p c Hc) as [Hlive Hmine]. rewrite (Hr _ Hlive). simpl.
  unfold counters in *. rewrite Hm in *. simpl in *.
  eexists. split; [done|]. simpl. rewrite Hm. simpl. split; [|done]. split; unfold counters; simpl; [by eexists|..].
  - intros p' c' [Hne Hc']%lookup_delete_Some. rewrite Hl, elem_of_filter. simpl.
    destruct (Hheld p' c' Hc') as [? ?]. conjs; [|done..]. intros He. apply Hne. by apply (Hinj p p' c c').
  - intros h Hg. rewrite Hl, elem_of_filter. simpl. split; [congruence|by apply Hgiven].
  - intros h. rewrite Hl, elem_of_filter. simpl. intros [Hne Hh].
    destruct (Hknown h Hh) as [(p' & c' & Hc' & <-)|?]; [left|by right]. exists p', c'. split; [|done].
    apply lookup_delete_Some. split; [|done]. intros <-. rewrite Hc in Hc'. by injection Hc' as ->.
  - intros p1 p2 c1 c2 [_ ?]%lookup_delete_Some [_ ?]%lookup_delete_Some. by apply (Hinj p1 p2 c1 c2).
Qed.

Lemma remove_loop given l : ∀ s,
  tracked given s → NoDup l.*1 → (∀ p c, (p, c) ∈ l → counters (query s) !! p = Some c) → ∃ s',
  foreach l (λ '(p, c), in_sys (PdhRemoveCounter (handle c)) ≫= λ _, drop_counter p) s = (s', Ok tt) ∧
  tracked given s' ∧ q_Handle (query s') = q_Handle (query s) ∧
  (∀ p, counters (query s') !! p = if bool_decide (p ∈ l.*1) then None else counters (query s) !! p).
Proof.
  induction l as [|[p c] l IH]; intros s Hs Hnd Hin; cbn [foreach].
  { exists s. done. }
  rewrite fmap_cons in *. cbn [fst] in *. apply NoDup_cons in Hnd as [Hp Hnd].
  destruct (remove_step given s p c Hs) as (s1 & Hr1 & Ht1 & Hq1 & Hc1); [apply Hin; by left|].
  rewrite (SE_bind_run _ _ s s1 tt Hr1).
  destruct (IH s1 Ht1 Hnd) as (s2 & Hr2 & Ht2 & Hq2 & Hc2).
  { intros p' c' Hpc. rewrite Hc1. apply lookup_delete_Some. split; [|apply Hin; by right].
    intros <-. apply Hp, list_elem_of_fmap. by exists (p, c'). }
  exists s2. rewrite Hr2, Hq2. conjs; [done..|]. intros p'. rewrite Hc2, Hc1.
  destruct (decide (p' = p)) as [->|Hne].
  - rewrite lookup_delete_eq. repeat case_bool_decide; (done || set_solver).
  - rewrite lookup_delete_ne by done. repeat case_bool_decide; (done || set_solver).
Qed.

Lemma matchCounter_spec p l : matchCounter p l = bool_decide (p ∈ l).
Proof.
  induction l as [|x l IH]; simpl; [done|]. rewrite IH.
  repeat case_bool_decide; (done || set_solver).
Qed.

Lemma RemoveUnusedCounters_run given s (ctrs : list string) :
  tracked given s → Forall (λ c, Contains c "*" = false) ctrs → ∃ s',
  RemoveUnusedCounters ctrs s = (s', Ok tt) ∧ tracked given s' ∧ q_Handle (query s') = q_Handle (query s) ∧
  (∀ p, counters (query s') !! p = if bool_decide (p ∈ ctrs) then counters (query s) !! p else None).
Proof.
  intros Hs Hw. unfold RemoveUnusedCounters.
  destruct (existsb _ ctrs) eqn:He.
  { apply existsb_exists in He as (c & Hc & Hst). apply list_elem_of_In in Hc.
    rewrite Forall_forall in Hw. by rewrite Hw in Hst. }
  unfold mbind at 1, SE_bind at 1, the_query. set (unused := list_to_map _ : gmap string Counter).
  assert (Hu : ∀ p c, unused !! p = Some c ↔ counters (query s) !! p = Some c ∧ p ∉ ctrs).
  { intros p c. unfold unused. rewrite <- elem_of_list_to_map.
    2:{ eapply sublist_NoDup; [apply (NoDup_map_order (counters (query s)))|].
        apply fmap_sublist, sublist_filter. }
    rewrite list_elem_of_filter, elem_of_map_order, matchCounter_spec, bool_decide_eq_false. naive_solver. }
  destruct (remove_loop given (map_order unused) s Hs) as (s' & Hr & Ht & Hq & Hc).
  { apply NoDup_map_order. }
  { intros p c Hpc. apply elem_of_map_order, Hu in Hpc. apply Hpc. }
  exists s'. conjs; [done..|]. intros p. rewrite Hc.
  destruct (counters (query s) !! p) as [c|] eqn:Hp; [|by repeat case_bool_decide].
  assert (Hiff : p ∈ (map_order unused).*1 ↔ p ∉ ctrs).
  { rewrite list_elem_of_fmap. split.
    - intros ([p' c'] & -> & Hin). apply elem_of_map_order, Hu in Hin. apply Hin.
    - intros Hn. exists (p, c). split; [done|]. apply elem_of_map_order, Hu. done. }
  repeat case_bool_decide; naive_solver.
Qed.

(** *** Any use of a query between its opening and its closing
    The exported methods other than [Open] and [Close]. *)
Inductive query_op :=
| OpEnglish (counterPath : string)
| OpAdd (counterPath inst fmt : string) (wildcard english : bool)
| OpPaths (counterPath : string)
| OpRemoveUnused (ctrs : list string)
| OpCollect
| OpCollectEx (interval event : Z)
| OpValues
| OpItems (objectName : string)
| OpRaw (counterName : string)
| OpRawArray (counterName : string) (filterTotal : bool)
| OpExpand (wildCardPath : string).

(** The state after a call, with the handles [AddEnglishCounter] returned so
    far; the caller may go on after an error, and after a panic it recovers
    from. *)
Definition after_op (x : pdh_state * gset Z) (op : query_op) : pdh_state * gset Z :=
  let '(s, given) := x in
  match op with
  | OpEnglish p =>
      let '(s', r) := AddEnglishCounter p s in (s', match r with Ok h => {[h]} ∪ given | _ => given end)
  | OpAdd p i f w e => ((AddCounter p i f w e s).1, given)
  | OpPaths p => ((GetCounterPaths p s).1, given)
  | OpRemoveUnused l => ((RemoveUnusedCounters l s).1, given)
  | OpCollect => ((CollectData s).1, given)
  | OpCollectEx i e => ((CollectDataEx i e s).1, given)
  | OpValues => ((GetFormattedCounterValues s).1, given)
  | OpItems o => ((GetCountersAndInstances o s).1, given)
  | OpRaw n => ((GetRawCounterValue n s).1, given)
  | OpRawArray n b => ((GetRawCounterArray n b s).1, given)
  | OpExpand p => ((ExpandWildCardPath p s).1, given)
  end.

Definition session (s : pdh_state) (ops : list query_op) : pdh_state * gset Z := foldl after_op (s, ∅) ops.

Lemma tracked_RemoveUnusedCounters l given s : tracked given s → tracked given (RemoveUnusedCounters l s).1.
Proof.
  intros Hs. destruct (existsb (λ c, Contains c "*") l) eqn:He.
  { unfold RemoveUnusedCounters. by rewrite He. }
  destruct (RemoveUnusedCounters_run given s l Hs) as (s' & -> & Ht & _); [|done].
  apply Forall_forall. intros c Hc. destruct (Contains c "*") eqn:E; [|done].
  assert (existsb (λ c, Contains c "*") l = true); [|congruence].
  apply existsb_exists. exists c. by rewrite list_elem_of_In in Hc.
Qed.

Lemma tracked_after_op x op : tracked x.2 x.1 → tracked (after_op x op).2 (after_op x op).1.
Proof.
  destruct x as [s given]. intros Hs. destruct op; simpl in *.
  - pose proof (tracked_AddEnglishCounter counterPath given s Hs). by destruct (AddEnglishCounter counterPath s).
  - by apply tracked_AddCounter.
  - by apply tracked_GetCounterPaths.
  - by apply tracked_RemoveUnusedCounters.
  - apply tracked_quiet; [apply quiet_CollectData|done].
  - apply tracked_quiet; [apply quiet_CollectDataEx|done].
  - apply tracked_quiet; [apply quiet_GetFormattedCounterValues|done].
  - apply tracked_quiet; [apply quiet_GetCountersAndInstances|done].
  - apply tracked_quiet; [apply quiet_GetRawCounterValue|done].
  - apply tracked_quiet; [apply quiet_GetRawCounterArray|done].
  - apply tracked_quiet; [apply quiet_ExpandWildCardPath|done].
Qed.

Lemma tracked_session s0 s1 ops : Query_Open s0 = (s1, Ok tt) →
  tracked (session s1 ops).2 (session s1 ops).1.
Proof.
  intros Ho%tracked_Open.
  enough (Hg : ∀ x, tracked x.2 x.1 → tracked (foldl after_op x ops).2 (foldl after_op x ops).1)
    by by apply (Hg (s1, ∅)).
  clear Ho s1.
  induction ops as [|op l IH]; intros x Hx; simpl; [done|]. by apply IH, tracked_after_op.
Qed.

Lemma Query_Close_run s s' : Query_Close s = (s', Ok tt) →
  query s' = query s ∧ live (sys s') = filter (λ x, x.1 ≠ q_Handle (query s)) (live (sys s)).
Proof.
  unfold Query_Close, mbind, SE_bind, in_sys, PdhCloseQuery. simpl.
  rewrite status_of_run. unfold _PdhCloseQuery, syscall_, errcode.
  destruct (PdhCloseQueryProc _ _) as [w' r] eqn:E. apply close_law in E.
  destruct (r =? 0); [|done]. intros [= <-]. done.
Qed.

(** C38: After a successful [Open] (in whatever state the query was) and any
    calls of its other methods but [Close], failing and panicking ones included,
    the counters the system holds for the query are exactly those of its map,
    under different handles, and those whose handle [AddEnglishCounter] gave to
    the caller, which the map does not have.  A successful [Close] then leaves
    the system no counter of the query and keeps those of other queries; the
    map stays as it was. *)
Theorem query_tracks_counters (s0 s1 : pdh_state) (ops : list query_op) :
  Query_Open s0 = (s1, Ok tt) →
  let '(s, given) := session s1 ops in
  (∀ h, (q_Handle (query s), h) ∈ live (sys s) ↔
     (∃ p c, counters (query s) !! p = Some c ∧ handle c = h) ∨ h ∈ given) ∧
  (∀ p p' c c', counters (query s) !! p = Some c → counters (query s) !! p' = Some c' →
     handle c ∉ given ∧ (handle c = handle c' → p = p')) ∧
  (∀ s', Query_Close s = (s', Ok tt) → query s' = query s ∧
     ∀ q h, (q, h) ∈ live (sys s') ↔ q ≠ q_Handle (query s) ∧ (q, h) ∈ live (sys s)).
Proof.
  intros Ho. pose proof (tracked_session s0 s1 ops Ho) as Ht.
  destruct (session s1 ops) as [s given]. destruct Ht as [_ Hheld Hgiven Hknown Hinj]. simpl in *. conjs.
  - intros h. split; [apply Hknown|]. intros [(p & c & Hc & <-)|Hg]; [by apply (Hheld p)|by apply Hgiven].
  - intros p p' c c' Hc Hc'. split; [by apply (Hheld p)|by apply Hinj].
  - intros s' [Hq Hl]%Query_Close_run. split; [done|]. intros q h. rewrite Hl. by rewrite elem_of_filter.
Qed.

(** When no path of the list is an unexpanded wildcard, [RemoveUnusedCounters]
    succeeds and keeps exactly the counters whose path is in the list, with the
    handles they had; the others are gone from the system too. *)
Theorem RemoveUnusedCounters_spec given s (ctrs : list string) :
  tracked given s → Forall (λ c, Contains c "*" = false) ctrs → ∃ s',
  RemoveUnusedCounters ctrs s = (s', Ok tt) ∧ tracked given s' ∧ q_Handle (query s') = q_Handle (query s) ∧
  (∀ p, counters (query s') !! p = if bool_decide (p ∈ ctrs) then counters (query s) !! p else None).
Proof. apply RemoveUnusedCounters_run. Qed.
End invariant.

(** ** A system to run the model on

    Handles are numbered from 1 on; every path expands to the lines [paths]; an
    object has the counters [ctrs] and the instances [insts]. *)
Section demo.
Context (paths ctrs insts : list (list Z)) (info : option (list Z)).

Definition demo_list (l : list (list Z)) (buf : option (list Z)) : Z * Z * list Z :=
  let units := lines l ++ [0] in
  match buf with
  | None => (PDH_MORE_DATA, Z.of_nat (length units), [])
  | Some _ => (0, Z.of_nat (length units), units)
  end.

(** No room is needed for an empty list. *)
Definition demo_size (l : list (list Z)) : Z := 
  if bool_decide (l = []) then 0 else Z.of_nat (length (lines l ++ [0])).

Definition demo_max (l : gset (Z * Z)) : Z :=
  set_fold (λ x n, Z.max (Z.abs x.2) (Z.max (Z.abs x.1) n)) 0 l.

Definition demo_add (q : Z) (w : Z * gset (Z * Z)) : (Z * gset (Z * Z)) * (Z * Z) :=
  let h := Z.abs w.1 + 1 + demo_max w.2 in
  ((h, {[(q, h)]} ∪ w.2), (0, h)).

Definition demo_api : PdhApi := {|
  system := Z * gset (Z * Z);
  float64 := Z;
  GOARCH := "amd64";
  EINVAL := 22;
  beyond := [];
  PdhOpenQueryW _ _ w :=
    let h := Z.abs w.1 + 1 + demo_max w.2 in
    ((h, w.2), (0, h));
  PdhAddEnglishCounterW q _ _ w := demo_add q w;
  PdhAddCounterW q _ _ w := demo_add q w;
  PdhRemoveCounterProc h w :=
    ((w.1, filter (λ x, x.2 ≠ h) w.2),
     if bool_decide (set_Exists (λ x, x.2 = h) w.2) then 0 else 0xc0000bbc);
  PdhCollectQueryDataProc _ w := (w, 0);
  PdhCollectQueryDataExProc _ w := (w, 0);
  PdhGetFormattedCounterValueProc c f w := (w, (0, 0, mkFmt 0 7 7 7));
  PdhCloseQueryProc q w := ((w.1, filter (λ x, x.1 ≠ q) w.2), 0);
  PdhGetRawCounterValueProc _ w := (w, (0, zero_raw));
  PdhGetRawCounterArrayW _ _ _ w := (w, (0, 0, 0, λ _, mkRawItem None zero_raw));
  PdhExpandWildCardPathW _ _ buf _ w := (w, demo_list paths buf);
  PdhExpandCounterPathW _ buf _ w := (w, demo_list paths buf);
  PdhGetCounterInfoW _ _ _ buf w := (w, if (buf : bool) then (0, 4, info) else (PDH_MORE_DATA, 4, None));
  PdhEnumObjectItemsW _ c i _ _ w :=
    (w, (if 0 <? c.2 then 0 else PDH_MORE_DATA, (demo_size ctrs, lines ctrs), (demo_size insts, lines insts)));
  x_UTF16PtrToString _ := "";
  x_FormatMessage _ _ := None;
  errno_message _ := ""
|}.

Lemma demo_bound (l : gset (Z * Z)) :
  0 ≤ demo_max l ∧ set_Forall (λ x, Z.abs x.1 ≤ demo_max l ∧ Z.abs x.2 ≤ demo_max l) l.
Proof.
  apply (set_fold_ind_L (λ n X, 0 ≤ n ∧ set_Forall (λ x, Z.abs x.1 ≤ n ∧ Z.abs x.2 ≤ n) X)).
  - split; [done|]. intros x. set_solver.
  - intros x X n Hx [Hn IH]. split; [lia|]. intros y [->%elem_of_singleton|Hy]%elem_of_union; [lia|].
    destruct (IH y Hy). lia.
Qed.

#[global] Program Instance demo_laws : @PdhLaws demo_api := {| live := λ w : system, w.2 |}.
Next Obligation.
  intros src u w w' r q [= <- <- <-]. split; [done|]. intros _ c Hc.
  destruct (demo_bound w.2) as [? Hb]. apply Hb in Hc. simpl in Hc. lia.
Qed.
Next Obligation.
  intros q p u w w' r h [= <- <- <-]. split; [|done]. intros q' Hc.
  destruct (demo_bound w.2) as [? Hb]. apply Hb in Hc. simpl in Hc. lia.
Qed.
Next Obligation.
  intros q p u w w' r h [= <- <- <-]. split; [|done]. intros q' Hc.
  destruct (demo_bound w.2) as [? Hb]. apply Hb in Hc. simpl in Hc. lia.
Qed.
Next Obligation.
  intros h w w' r [= <- <-]. split; [done|]. intros q Hq. rewrite bool_decide_true; [done|].
  by exists (q, h).
Qed.
Next Obligation. intros q w w' r [= <- <-]. done. Qed.
Solve Obligations with done.
End demo.

(** A path whose first expansion is the path itself is expanded once more, but
    whatever that second expansion finds is dropped. *)
Theorem ExpandWildCardPath_unexpanded `{PdhApi} (path : string) (utf buf : list Z) s s1 :
  GOARCH ≠ "386" → path ≠ "" → UTF16FromString path = Some utf → Contains path "*" = true →
  expand_retry utf s = (s1, Ok buf) → UTF16ToStringArray (E := perr) buf = Ok [path] →
  let r := (ExpandWildCardPath path s).2 in
  r = Ok [path] ∨ r = Err (EPdhErrno ERROR_NOT_FOUND) ∨
  (∃ p, r = Panic p).
Proof.
  intros Ha Hne Hu Hst Hr Hd r.
  assert (Heq : ExpandWildCardPath path s =
    (r ← attempt (in_sys (PdhExpandWildCardPath utf));
     match r with inl _ => mret [path] | inr _ => fail (EPdhErrno ERROR_NOT_FOUND) end) s1).
  { unfold ExpandWildCardPath.
    rewrite bool_decide_false, Hu, (bool_decide_false (GOARCH = "386")) by done.
    rewrite (SE_bind_run _ _ s s1 buf Hr). unfold mbind at 1, SE_bind at 1, lift. rewrite Hd.
    cbn beta iota. by rewrite Hst, (bool_decide_true (path = path)) by done. }
  unfold r. rewrite Heq. unfold mbind, SE_bind, attempt, in_sys.
  destruct (PdhExpandWildCardPath utf (sys s1)) as [w [| | |]] eqn:E; simpl;
    [by left|right; by left|right; right; by eexists|].
  exfalso. revert E. unfold PdhExpandWildCardPath, status_of, mbind, SE_bind, status, lift, fail, panics, pdh_errno.
  repeat case_match; intros; simplify_eq.
Qed.

(** The lines of ASCII text. *)
Definition text (s : string) : list Z := (range_string s).*2.

Lemma UTF16ToStringArray_lines_witness :
  Forall plain [text "a"; text "bc"] ∧
  @UTF16ToStringArray (demo_api [] [] [] None) perr (lines [text "a"; text "bc"] ++ [0; 5; 6]) = Ok ["a"; "bc"].
Proof.
  assert (Hp : Forall plain [text "a"; text "bc"]) by (apply (bool_decide_unpack _); vm_compute; done).
  split; [done|]. apply (@UTF16ToStringArray_lines (demo_api [] [] [] None) perr _ [5; 6] Hp).
Defined.

(** A character outside the basic plane is two units but one rune: the next
    string is taken to start one unit early. *)
Theorem UTF16ToStringArray_supplementary :
  @UTF16ToStringArray (demo_api [] [] [] None) perr (lines [[0xd83d; 0xde00; 97]; [98]] ++ [0])
  = Ok [encode [0x1f600; 97]].
Proof. vm_compute. reflexivity. Qed.

Lemma MatchInstanceName_instance_witness :
  MatchInstanceName "\\host\WF (System.Workflow) 4.0(a(b))\Workflows Created" = Ok "a(b)".
Proof.
  apply (MatchInstanceName_instance (text "\\host\WF (System.Workflow) 4.0") (text "a(b)")
    (text "Workflows Created")); apply (bool_decide_unpack _); vm_compute; done.
Defined.

(** An opened query with two counters added and one removed again. *)
Definition demo_start : @system (demo_api [] [] [] None) := (0, ∅).
Definition demo_open : @pdh_state (demo_api [] [] [] None) :=
  (Query_Open (mkPdh (mkQuery 0 None) demo_start)).1.

Lemma RemoveUnusedCounters_spec_witness :
  let s := (session demo_open [OpAdd "\a(x)\c" "" "long" false true; OpAdd "\b(y)\c" "" "" false false]).1 in
  size (counters (query s)) = 2%nat ∧
  ∃ s', RemoveUnusedCounters ["\b(y)\c"] s = (s', Ok tt) ∧ tracked ∅ s' ∧
    q_Handle (query s') = q_Handle (query s) ∧
    (∀ p, counters (query s') !! p = if bool_decide (p ∈ ["\b(y)\c"]) then counters (query s) !! p else None).
Proof.
  intros s. split; [vm_compute; done|].
  apply (RemoveUnusedCounters_spec ∅ s ["\b(y)\c"]).
  - exact (tracked_session (mkPdh (mkQuery 0 None) demo_start) demo_open
      [OpAdd "\a(x)\c" "" "long" false true; OpAdd "\b(y)\c" "" "" false false] eq_refl).
  - by repeat constructor.
Defined.

(** On the zero value, whose map is nil, [AddCounter] adds the counter to the
    system and panics: nothing has its handle. *)
Theorem AddCounter_before_Open :
  let '(s, r) := @AddCounter (demo_api [] [] [] None) "\a(x)\c" "" "" false false
    (mkPdh (mkQuery 0 None) demo_start) in
  r = Panic PNilMap ∧ live (sys s) = {[(0, 1)]} ∧ counters (query s) = ∅.
Proof. vm_compute. done. Qed.

(** The object has counters but no instances: the second call would need the
    address of the first element of an empty buffer. *)
Theorem GetCountersAndInstances_no_instances :
  (@GetCountersAndInstances (demo_api [] [text "Threads"] [] None) "System"
     (@mkPdh (demo_api [] [text "Threads"] [] None) (mkQuery 1 (Some ∅)) demo_start)).2 = Panic PIndexOutOfRange.
Proof. vm_compute. reflexivity. Qed.

(** When the second call for the information of a counter fails, the error is
    dropped and the nil result dereferenced. *)
Theorem expand_full_path_info_fails `{PdhApi} q w w1 w2 h n x n' y r p e :
  PdhGetCounterInfoW h 0 0 false w = (w1, (PDH_MORE_DATA, n, x)) → n ≠ 0 →
  PdhGetCounterInfoW h 0 n true w1 = (w2, (r, n', y)) → r ≠ 0 →
  (expand_full_path p e h (mkPdh q w)).2 = Panic PNilPointer.
Proof.
  intros H1 Hn H2 Hr. unfold expand_full_path, PdhGetCounterInfo, in_sys, status, _PdhGetCounterInfo, errcode, mbind, SE_bind. simpl.
  rewrite H1. simpl. destruct (Z.eqb_spec n 0); [done|]. rewrite H2. by destruct (Z.eqb_spec r 0).
Qed.

Lemma query_tracks_counters_witness :
  let '(s, given) := session demo_open
    [OpAdd "\a(x)\c" "" "long" false true; OpEnglish "\d(z)\e"; OpPaths "\b(*)\c"; OpRemoveUnused []] in
  (∀ h, (q_Handle (query s), h) ∈ live (sys s) ↔
     (∃ p c, counters (query s) !! p = Some c ∧ handle c = h) ∨ h ∈ given) ∧
  (∀ p p' c c', counters (query s) !! p = Some c → counters (query s) !! p' = Some c' →
     handle c ∉ given ∧ (handle c = handle c' → p = p')) ∧
  (∀ s', Query_Close s = (s', Ok tt) → query s' = query s ∧
     ∀ q h, (q, h) ∈ live (sys s') ↔ q ≠ q_Handle (query s) ∧ (q, h) ∈ live (sys s)).
Proof.
  apply (query_tracks_counters (H := demo_api [] [] [] None) (mkPdh (mkQuery 0 None) demo_start) demo_open).
  reflexivity.
Defined.
