(* ===== verification/DissectConvert.v ===== *)
(** * Package [processors/dissect]: typed values and the UTF-8 trimmer

    [DissectConvert] and the conversions of dissect.go, the UTF-8 trimmer and
    the choice between the trimmers of trim.go.  Floating-point texts
    ([strconv.ParseFloat]) and addresses ([net.ParseIP]) are read by a class.  The
    second half shows that the two trimmers agree. *)
From S2P Require Import Prelude GoStrings GoUtf8 Dissect DissectFacts.

Open Scope string_scope.
Open Scope list_scope.
Open Scope Z_scope.

(** ** Integers: [strconv.ParseInt] *)
Definition hex_value (a : ascii) : option Z :=
  let n := byte a in
  if (48 <=? n) && (n <=? 57) then Some (n - 48)
  else if (97 <=? n) && (n <=? 102) then Some (n - 87)
  else if (65 <=? n) && (n <=? 70) then Some (n - 55)
  else None.

(** The digits after [0x]; [prev] tells whether a digit or the prefix is in
    front, which is where an underscore may stand, and [ok] whether the number
    may end here. *)
Fixpoint hex_digits (acc : Z) (prev ok : bool) (s : string) : option Z :=
  match s with
  | "" => if ok then Some acc else None
  | String a s' =>
      if bool_decide (a = "_"%char) then (if prev then hex_digits acc false false s' else None)
      else d ← hex_value a; hex_digits (acc * 16 + d) true true s'
  end.

(** [strings.HasPrefix(s, "0x") || strings.HasPrefix(s, "0X")] *)
Definition hex_prefixed (s : string) : bool := HasPrefix s "0x" || HasPrefix s "0X".

(** Sign and decimal digits, one at least. *)
Definition decimal (s : string) : option Z :=
  let '(neg, body) :=
    match s with
    | String a s' =>
        if bool_decide (a = "+"%char) then (false, s')
        else if bool_decide (a = "-"%char) then (true, s') else (false, s)
    | "" => (false, "")
    end in
  if bool_decide (body = "") then None
  else v ← parse_digits 0 body; Some (if (neg : bool) then - v else v).

(** [strToInt(s, bitSize)]; [None] is a syntax or range error. *)
Definition strToInt (s : string) (bitSize : Z) : option Z :=
  v ← (if hex_prefixed s then hex_digits 0 true false (sdrop 2 s) else decimal s);
  if (- 2 ^ (bitSize - 1) <=? v) && (v <? 2 ^ (bitSize - 1)) then Some v else None.

(** ** Values *)
Class ValueLib := {
  float : Type;
  ParseFloat : string → Z → option float;
  is_IP : string → bool                    (** [net.ParseIP(s) != nil] *)
}.

Inductive data_type := Integer | Long | Float | Double | DString | Boolean | IP.

Definition dataTypeOf (name : string) : option data_type :=
  if bool_decide (name = "integer") then Some Integer
  else if bool_decide (name = "long") then Some Long
  else if bool_decide (name = "float") then Some Float
  else if bool_decide (name = "double") then Some Double
  else if bool_decide (name = "string") then Some DString
  else if bool_decide (name = "boolean") then Some Boolean
  else if bool_decide (name = "ip") then Some IP
  else None.

Section values.
Context `{ValueLib}.

(** [interface{}]: the dynamic type with the value. *)
Inductive value :=
| VString (s : string)
| VInt64 (v : Z)
| VInt32 (v : Z)
| VFloat32 (v : float)
| VFloat64 (v : float)
| VBool (b : bool).

Definition ParseBool (s : string) : option bool :=
  if bool_decide (s ∈ ["1"; "t"; "T"; "TRUE"; "true"; "True"]) then Some true
  else if bool_decide (s ∈ ["0"; "f"; "F"; "FALSE"; "false"; "False"]) then Some false
  else None.

(** [strings.TrimRight(s, " ")] *)
Fixpoint trim_spaces (s : string) : string :=
  match s with
  | "" => ""
  | String a s' =>
      match trim_spaces s' with
      | "" => if bool_decide (a = " "%char) then "" else String a ""
      | r => String a r
      end
  end.

(** [None] is an error. *)
Definition transformType (typ : data_type) (v : string) : option value :=
  let v := trim_spaces v in
  match typ with
  | DString => Some (VString v)
  | Long => VInt64 <$> strToInt v 64
  | Integer => VInt32 <$> (wrap32 <$> strToInt v 32)
  | Float => VFloat32 <$> ParseFloat v 32
  | Double => VFloat64 <$> ParseFloat v 64
  | Boolean => VBool <$> ParseBool v
  | IP => if is_IP v then Some (VString v) else None
  end.

Definition convertData (typ : string) (b : string) : value :=
  match dataTypeOf typ ≫= λ dt, transformType dt b with
  | Some v => v
  | None => VString b
  end.

(** ** dissect.go: resolution with conversion *)

(** What a saveable field stores, from the map of strings. *)
Definition stored (f : field) (v : string) : value :=
  if bool_decide (DataType f = "") then VString v else convertData (DataType f) v.

Fixpoint resolveConvert_fields (s : string) (ps : list position) (fs : list field)
    (lookup m : gmap string string) (mc : gmap string value) : res dissect_error (gmap string value) :=
  match fs with
  | [] => Ok mc
  | f :: fs' =>
      match ps !! ID f with
      | None => Panic PIndexOutOfRange
      | Some pos =>
          b ← slice s (start pos) (end_ pos);
          let m := Apply f b m in
          if negb (IsSaveable f) then resolveConvert_fields s ps fs' (<[Key f := b]> lookup) m mc
          else
            let key := default (Key f) (lookup !! Key f) in
            let v := default "" (m !! key) in
            resolveConvert_fields s ps fs' lookup m (<[key := stored f v]> mc)
      end
  end.

Definition resolveConvert (p : parser) (s : string) (ps : list position) : res dissect_error (gmap string value) :=
  mc ← resolveConvert_fields s ps (fields p) ∅ ∅ ∅;
  Ok (foldl (λ m f, delete (Key f) m) mc (referenceFields p)).

(** The positions are not trimmed here. *)
Definition DissectConvert (fuel : nat) (d : Dissector) (s : string) : res dissect_error (gmap string value) :=
  if String.eqb s "" then Err errEmpty
  else
    positions ← extract fuel (dparser d) s;
    if bool_decide (positions = []) then Err errParsingFailure
    else resolveConvert (dparser d) s positions.

Definition Raw (d : Dissector) : string := raw d.
End values.

(** ** trim.go: the UTF-8 trimmer *)
Record utf8trimmer := mkUtf8 { keep : Z → bool; u_left : bool; u_right : bool }.

Definition runes (s : string) : list Z := (range_string s).*2.

(** [!strings.ContainsRune(trimChars, r)] *)
Definition newUTF8Trimmer (trimChars : string) (trimLeft trimRight : bool) : utf8trimmer :=
  mkUtf8 (λ r, negb (bool_decide (r ∈ runes trimChars))) trimLeft trimRight.

(** The runes of the text that satisfy [fn], with their offsets.  UTF-8 finds its
    boundaries from either end, so the last of them is what decoding backwards
    meets first. *)
Definition hits (fn : Z → bool) (s : string) : list (nat * Z) := filter (λ x, fn x.2 = true) (range_string s).
Definition IndexFunc (s : string) (fn : Z → bool) : option nat := fst <$> head (hits fn s).
Definition LastIndexFunc (s : string) (fn : Z → bool) : option nat := fst <$> last (hits fn s).

(** The width of the rune at the front of a string. *)
Definition rune_width (s : string) : nat :=
  match s with "" => 0 | String a s' => String.length s - String.length (DecodeRune a s').2 end.

Definition utf8_Trim (t : utf8trimmer) (s : string) (start end_ : nat) : nat * nat :=
  let sub a b := stake (b - a) (sdrop a s) in
  let right_side start :=
    if u_right t then
      match LastIndexFunc (sub start end_) (keep t) with
      | None => (start, start)
      | Some pos => (start, start + pos + rune_width (sdrop (start + pos) s))%nat
      end
    else (start, end_) in
  if u_left t then
    match IndexFunc (sub start end_) (keep t) with
    | None => (end_, end_)
    | Some pos => right_side (start + pos)%nat
    end
  else right_side start.

(** The ASCII trimmer when it can be had. *)
Definition newTrimmer (trimChars : string) (trimLeft trimRight : bool) : trimmer_iface :=
  match newASCIITrimmer trimChars trimLeft trimRight with
  | Some t => Trim t
  | None => utf8_Trim (newUTF8Trimmer trimChars trimLeft trimRight)
  end.

(** ** Agreement with [resolve] *)
Section agreement.
Context `{ValueLib}.

Definition ref_keys (p : parser) : list string := Key <$> referenceFields p.

(** The keys of reference fields are used by them and by indirect fields only, no
    text they capture is such a key, and an indirect field names one of them. *)
Record separate (p : parser) (s : string) (ps : list position) : Prop := mkSeparate {
  sep_refs : referenceFields p = filterFieldsWith (fields p) (λ f, negb (IsSaveable f));
  sep_keys : ∀ f, f ∈ fields p → IsSaveable f = true → isIndirectField f = false → Key f ∉ ref_keys p;
  sep_indirect : ∀ f, f ∈ fields p → isIndirectField f = true → Key f ∈ ref_keys p ∧ Key f ≠ "";
  sep_skip : ∀ b, skipField b ∈ fields p → key b = "";
  sep_texts : ∀ f pos b, f ∈ fields p → IsSaveable f = false → ps !! ID f = Some pos →
    slice (E := dissect_error) s (start pos) (end_ pos) = Ok b → b ∉ ref_keys p
}.

(** What a typed map may hold for a string: the string, or the string converted
    to the type of a field. *)
Definition typed (p : parser) (v : string) (x : value) : Prop :=
  x = VString v ∨ ∃ f, f ∈ fields p ∧ x = stored f v.

Definition agrees (p : parser) (m : gmap string string) (mc : gmap string value) (k : string) : Prop :=
  match m !! k, mc !! k with
  | Some v, Some x => typed p v x
  | None, None => True
  | _, _ => False
  end.

(** The three maps of the loop, against the one of [resolve]. *)
Definition loop_inv (p : parser) (lookup m : gmap string string) (mc : gmap string value) : Prop :=
  (∀ k, k ∈ ref_keys p → k ≠ "" → m !! k = lookup !! k) ∧
  (∀ k, is_Some (lookup !! k) → k ∈ ref_keys p) ∧
  (∀ k v, lookup !! k = Some v → v ∉ ref_keys p) ∧
  (∀ k, k ∉ ref_keys p → agrees p m mc k).

Lemma not_saveable_ref p f :
  referenceFields p = filterFieldsWith (fields p) (λ f, negb (IsSaveable f)) →
  f ∈ fields p → IsSaveable f = false → Key f ∈ ref_keys p.
Proof.
  intros Hr Hf Hs. apply list_elem_of_fmap. exists f. split; [done|]. rewrite Hr.
  apply list_elem_of_filter. by rewrite Hs.
Qed.

Lemma agrees_insert p m mc k v x k' :
  typed p v x → (k' ≠ k → agrees p m mc k') → agrees p (<[k := v]> m) (<[k := x]> mc) k'.
Proof.
  intros Hx Hk. unfold agrees. destruct (decide (k' = k)) as [->|Hne].
  - by rewrite !lookup_insert_eq.
  - rewrite !lookup_insert_ne by done. by apply Hk.
Qed.

Lemma agrees_frame p m mc k v k' : k ≠ k' → agrees p m mc k' → agrees p (<[k := v]> m) mc k'.
Proof. intros Hne Ha. unfold agrees. by rewrite lookup_insert_ne. Qed.

(** A field that is not saved. *)
Lemma loop_inv_reference p s ps lookup m mc f pos b :
  separate p s ps → f ∈ fields p → IsSaveable f = false → ps !! ID f = Some pos →
  slice (E := dissect_error) s (start pos) (end_ pos) = Ok b →
  loop_inv p lookup m mc → loop_inv p (<[Key f := b]> lookup) (Apply f b m) mc.
Proof.
  intros Hsep Hf Hs Hpos Hb (I1 & I2 & I3 & I4).
  assert (Href : Key f ∈ ref_keys p) by (apply not_saveable_ref; [apply (sep_refs _ _ _ Hsep)|done..]).
  assert (Hap : (∃ bf, f = skipField bf) ∧ Apply f b m = m ∨ Apply f b m = <[Key f := b]> m).
  { destruct f; simpl in *; try discriminate; [left; eauto|by right|by right]. }
  split; [|split; [|split]].
  - intros k Hk Hne. destruct (decide (k = Key f)) as [->|Hkf].
    + rewrite lookup_insert_eq. destruct Hap as [[[bf ->] _]| ->]; [|apply lookup_insert_eq].
      exfalso. apply Hne, (sep_skip _ _ _ Hsep bf Hf).
    + rewrite lookup_insert_ne by done. destruct Hap as [[_ ->]| ->]; [|rewrite lookup_insert_ne by done]; by apply I1.
  - intros k [x [[<- _]|[_ Hx]]%lookup_insert_Some]; [done|apply I2; eauto].
  - intros k v [[_ <-]|[_ Hv]]%lookup_insert_Some; [by apply (sep_texts _ _ _ Hsep f pos)|by apply (I3 k)].
  - intros k Hk. assert (Key f ≠ k) by (intros <-; done).
    destruct Hap as [[_ ->]| ->]; [by apply I4|apply agrees_frame; [done|by apply I4]].
Qed.

(** A field that is saved. *)
Lemma loop_inv_saved p s ps lookup m mc f b :
  separate p s ps → f ∈ fields p → IsSaveable f = true → loop_inv p lookup m mc →
  let key := default (Key f) (lookup !! Key f) in
  loop_inv p lookup (Apply f b m) (<[key := stored f (default "" (Apply f b m !! key))]> mc).
Proof.
  intros Hsep Hf Hs (I1 & I2 & I3 & I4).
  assert (Hput : ∀ k v, k ∉ ref_keys p →
    loop_inv p lookup (<[k := v]> m) (<[k := stored f (default "" (<[k := v]> m !! k))]> mc)).
  { intros k v Hk. rewrite lookup_insert_eq. simpl. split; [|split; [done|split; [done|]]].
    - intros k' Hk' Hne. rewrite lookup_insert_ne by (intros <-; done). by apply I1.
    - intros k' Hk'. apply agrees_insert; [by right; exists f|]. intros _. by apply I4. }
  destruct (isIndirectField f) eqn:Hi.
  - destruct (sep_indirect _ _ _ Hsep f Hf Hi) as [Hr Hne]. rewrite <- (I1 _ Hr Hne).
    destruct f as [| | | |bf|]; try done. unfold Apply.
    destruct (m !! Key (indirectField bf)) as [v|] eqn:Hm; simpl.
    + apply Hput. rewrite I1 in Hm by done. by apply (I3 (Key (indirectField bf))).
    + split; [done|split; [done|split; [done|]]]. intros k Hk. specialize (I4 k Hk). unfold agrees in *.
      rewrite (lookup_insert_ne mc); [done|]. intros <-. done.
  - pose proof (sep_keys _ _ _ Hsep f Hf Hs Hi) as Hk.
    assert (lookup !! Key f = None) as ->.
    { destruct (lookup !! Key f) eqn:E; [|done]. exfalso. apply Hk, I2. eauto. }
    simpl. destruct f; try done; simpl; [by apply Hput|]. by destruct (m !! Key _); apply Hput.
Qed.

Lemma resolveConvert_fields_agree p s ps fs : ∀ lookup m mc,
  separate p s ps → (∀ f, f ∈ fs → f ∈ fields p) → loop_inv p lookup m mc →
  match resolve_fields s ps fs m with
  | Ok m' => ∃ mc', resolveConvert_fields s ps fs lookup m mc = Ok mc' ∧
      ∀ k, k ∉ ref_keys p → agrees p m' mc' k
  | Err e => resolveConvert_fields s ps fs lookup m mc = Err e
  | Panic x => resolveConvert_fields s ps fs lookup m mc = Panic x
  | OutOfFuel => True
  end.
Proof.
  induction fs as [|f fs IH]; intros lookup m mc Hsep Hfs Hinv; simpl.
  { exists mc. split; [done|]. apply Hinv. }
  destruct (ps !! ID f) as [pos|] eqn:Hpos; [|done].
  destruct (slice s (start pos) (end_ pos)) as [b| | |] eqn:Hb; simpl; try done.
  assert (Hf : f ∈ fields p) by (apply Hfs; by left).
  assert (Hfs' : ∀ g, g ∈ fs → g ∈ fields p) by (intros g Hg; apply Hfs; by right).
  destruct (IsSaveable f) eqn:Hs; simpl.
  - apply IH; [done|done|]. by apply (loop_inv_saved p s ps).
  - apply IH; [done|done|]. by apply (loop_inv_reference p s ps lookup m mc f pos b).
Qed.

Lemma foldl_delete_agree p (fs : list field) : ∀ m mc,
  (∀ k, k ∉ (Key <$> fs) → agrees p m mc k) →
  ∀ k, agrees p (foldl (λ m f, delete (Key f) m) m fs) (foldl (λ m f, delete (Key f) m) mc fs) k.
Proof.
  induction fs as [|f fs IH]; intros m mc Ha k; simpl; [apply Ha; set_solver|].
  apply IH. intros k' Hk'. unfold agrees. destruct (decide (k' = Key f)) as [->|Hne].
  - by rewrite !lookup_delete_eq.
  - rewrite !lookup_delete_ne by done. apply Ha. set_solver.
Qed.

Lemma loop_inv_empty p : loop_inv p ∅ ∅ ∅.
Proof.
  split; [done|]. split; [intros k [x Hx]; by rewrite lookup_empty in Hx|].
  split; [intros k v Hv; by rewrite lookup_empty in Hv|].
  intros k _. unfold agrees. by rewrite !lookup_empty.
Qed.

Lemma resolve_fields_fuel s ps fs : ∀ m, resolve_fields s ps fs m ≠ OutOfFuel.
Proof.
  induction fs as [|f fs IH]; intros m; simpl; [done|]. destruct (ps !! ID f); [|done].
  unfold slice. case_bool_decide; [|done]. apply IH.
Qed.

(** Without a trimmer, [DissectConvert] finds the keys [Dissect] finds, and
    under each the same string, or that string converted to the type of a field;
    it fails where [Dissect] fails, with the same error.  The keys of reference
    fields must not be used by saved fields nor be captured as texts. *)
Theorem DissectConvert_agrees (fuel : nat) d s :
  trimmer d = None →
  (∀ ps, extract fuel (dparser d) s = Ok ps → separate (dparser d) s ps) →
  match Dissect fuel d s with
  | Ok m => ∃ mc, DissectConvert fuel d s = Ok mc ∧ ∀ k, agrees (dparser d) m mc k
  | Err e => DissectConvert fuel d s = Err e
  | Panic x => DissectConvert fuel d s = Panic x
  | OutOfFuel => DissectConvert fuel d s = OutOfFuel
  end.
Proof.
  intros Ht Hsep. unfold Dissect, DissectConvert. rewrite Ht. destruct (String.eqb s ""); [done|].
  destruct (extract fuel (dparser d) s) as [ps| | |] eqn:He; simpl; try done.
  case_bool_decide; [done|]. specialize (Hsep ps eq_refl). unfold resolve, resolveConvert.
  pose proof (resolveConvert_fields_agree (dparser d) s ps (fields (dparser d)) ∅ ∅ ∅ Hsep) as Hag.
  specialize (Hag ltac:(done) (loop_inv_empty _)).
  destruct (resolve_fields s ps (fields (dparser d)) ∅) as [m| | |] eqn:Hm; simpl; try by rewrite Hag.
  - destruct Hag as (mc & -> & Hk). simpl. eexists. split; [done|]. by apply foldl_delete_agree.
  - by destruct (resolve_fields_fuel s ps (fields (dparser d)) ∅).
Qed.
End agreement.

(** *** On a tokenizer *)
#[local] Instance plain_values : ValueLib := {| float := Z; ParseFloat _ _ := None; is_IP _ := false |}.

Definition dissector_of (tok : string) : Dissector :=
  match New tok with Ok d => d | _ => mkDissector "" (mkParser [] [] ∅ []) None end.

Definition convert (tok s : string) : res dissect_error (list (string * value)) :=
  mc ← DissectConvert (String.length s + 2) (dissector_of tok) s; Ok (map_to_list mc).

Example converted_types : convert "%{n|integer} %{?k} %{&k|boolean} %{h|long}" "-7 flag true 0x1f"
  = Ok [("n", VInt32 (-7)); ("flag", VBool true); ("h", VInt64 31)].
Proof. vm_compute. reflexivity. Qed.

(** A number that does not fit stays a string. *)
Example converted_overflow : convert "%{n|integer}" "2147483648" = Ok [("n", VString "2147483648")].
Proof. vm_compute. reflexivity. Qed.

Lemma DissectConvert_agrees_witness :
  let d := dissector_of "%{n|integer} %{?k} %{&k}" in
  ∃ mc, DissectConvert 20 d "-7 name value" = Ok mc ∧
    ∀ k, agrees (dparser d) (<["n" := "-7"]> {["name" := "value"]}) mc k.
Proof.
  intros d. pose proof (DissectConvert_agrees 20 d "-7 name value" eq_refl) as Ha.
  assert (Hd : Dissect 20 d "-7 name value" = Ok (<["n" := "-7"]> {["name" := "value"]}))
    by (vm_compute; reflexivity).
  rewrite Hd in Ha. apply Ha. intros ps Hps. vm_compute in Hps. injection Hps as <-.
  assert (Hr : ref_keys (dparser d) = ["k"]) by reflexivity.
  split; rewrite ?Hr.
  - reflexivity.
  - intros f Hf. vm_compute in Hf. repeat (apply elem_of_cons in Hf as [->|Hf]); intros; try done; set_solver.
  - intros f Hf. vm_compute in Hf. repeat (apply elem_of_cons in Hf as [->|Hf]); intros; try done; set_solver.
  - intros b Hf. vm_compute in Hf. repeat (apply elem_of_cons in Hf as [?|Hf]); try done; set_solver.
  - intros f pos b Hf. vm_compute in Hf. repeat (apply elem_of_cons in Hf as [->|Hf]); intros Hs Hp Hb;
      try done; vm_compute in Hp; simplify_eq; vm_compute in Hb; simplify_eq; set_solver.
Defined.

(** A saved key that is also the key of a reference field: [Dissect] drops it,
    [DissectConvert] stores an empty value under the text of the reference. *)
Theorem DissectConvert_shared_key :
  let d := dissector_of "%{?a} %{a}" in
  Dissect 10 d "x y" = Ok ∅ ∧ DissectConvert 10 d "x y" = Ok {["x" := VString ""]}.
Proof. split; vm_compute; reflexivity. Qed.

(** The positions are trimmed by [Dissect] only. *)
Theorem DissectConvert_does_not_trim :
  let d := mkDissector "" (dparser (dissector_of "%{a},%{b}")) (Some (newTrimmer " " true true)) in
  Dissect 10 d " x , y " = Ok (<["a" := "x"]> {["b" := "y"]}) ∧
  DissectConvert 10 d " x , y " = Ok (<["a" := VString " x "]> {["b" := VString " y "]}).
Proof. split; vm_compute; reflexivity. Qed.

(** ** Package [processors/dissect]: the two trimmers agree

    When every character to trim is ASCII the table of bytes of the ASCII
    trimmer gives what decoding runes gives, at every cut that does not split a
    rune. *)

(** ** The runes to keep *)
Section agree.
Context (t : asciiTrimmer) (fn : Z → bool).

(** [s[i] < asciiLimit && t.chars[s[i]] != 0] of the byte itself. *)
Definition trims (c : ascii) : bool := (N_of_ascii c <? asciiLimit)%N && bool_decide (c ∈ chars t).

Hypothesis fn_ascii : ∀ c, byte c < 128 → fn (byte c) = negb (trims c).
Hypothesis fn_high : ∀ r, 128 ≤ r → fn r = true.

Fixpoint all_trims (s : string) : bool :=
  match s with "" => true | String c s' => trims c && all_trims s' end.

Lemma trims_ascii c : trims c = true → byte c < 128.
Proof. unfold trims, asciiLimit, byte. intros [H _]%andb_true_iff. apply N.ltb_lt in H. lia. Qed.

Lemma trims_high c : 128 ≤ byte c → trims c = false.
Proof. intros Hc. destruct (trims c) eqn:E; [|done]. apply trims_ascii in E. lia. Qed.

Lemma is_cont_high c : is_cont (byte c) = true → 128 ≤ byte c.
Proof. unfold is_cont. lia. Qed.

(** A rune is trimmed exactly when its first byte is. *)
Lemma fn_decoded a s r rest : DecodeRune a s = (r, rest) → fn r = negb (trims a).
Proof.
  intros Hd. destruct (DecodeRune_reads _ _ _ _ Hd) as (e & _ & _ & Hlow & Hhigh & _).
  destruct (decide (byte a < 128)) as [Ha|Ha].
  - destruct (Hlow Ha) as [_ ->]. by apply fn_ascii.
  - rewrite (trims_high a) by lia. apply fn_high, Hhigh. lia.
Qed.

Lemma DecodeRune_shorter a s r rest : DecodeRune a s = (r, rest) → (String.length rest ≤ String.length s)%nat.
Proof.
  intros Hd. destruct (DecodeRune_reads _ _ _ _ Hd) as (e & -> & _). rewrite length_sapp. lia.
Qed.

(** The first rune to keep starts at the first byte that is not trimmed. *)
Lemma first_hit fuel : ∀ i w, (String.length w ≤ fuel)%nat →
  match head (filter (λ x, fn x.2 = true) (range_loop fuel i w)) with
  | None => all_trims w = true
  | Some (j, _) => ∃ u c v, w = u +:+ String c v ∧ all_trims u = true ∧ trims c = false ∧
      j = (i + String.length u)%nat
  end.
Proof.
  induction fuel as [|fuel IH]; intros i w Hw; destruct w as [|a w]; simpl in *; try done; [lia|].
  destruct (DecodeRune a w) as [r rest] eqn:Hd. pose proof (fn_decoded _ _ _ _ Hd) as Hr.
  pose proof (DecodeRune_shorter _ _ _ _ Hd). rewrite filter_cons. cbn [snd].
  destruct (trims a) eqn:Ha; simpl in Hr.
  - rewrite decide_False by by rewrite Hr.
    pose proof (trims_ascii a Ha) as Hlow.
    destruct (DecodeRune_reads _ _ _ _ Hd) as (e & He & _ & Hl & _). destruct (Hl Hlow) as [-> _].
    simpl in He. subst rest. specialize (IH (i + (S (String.length w) - String.length w))%nat w ltac:(lia)).
    destruct (head _) as [[j ?]|]; [|done].
    destruct IH as (u & c & v & -> & Hu & Hc & ->). exists (String a u), c, v. simpl. rewrite Ha, Hu.
    conjs; (done || lia).
  - rewrite decide_True by done. simpl. exists "", a, w. simpl. conjs; (done || lia).
Qed.

Lemma all_trims_app a b : all_trims (a +:+ b) = all_trims a && all_trims b.
Proof. induction a as [|c a IH]; simpl; [done|]. by rewrite IH, andb_assoc. Qed.

(** The last byte of what is read is not trimmed when the first is not. *)
Lemma last_read a e : trims a = false → all_cont e = true →
  ∃ x c, String a e = x +:+ String c "" ∧ trims c = false.
Proof.
  intros Ha. revert a Ha. induction e as [|b e IH]; intros a Ha He; [by exists "", a|].
  simpl in He. apply andb_true_iff in He as [Hb He].
  destruct (IH b) as (x & c & -> & Hc); [by apply trims_high, is_cont_high|done|]. by exists (String a x), c.
Qed.

(** After the last rune to keep everything is trimmed, and its last byte is not. *)
Lemma last_hit fuel : ∀ i w, (String.length w ≤ fuel)%nat →
  match last (filter (λ x, fn x.2 = true) (range_loop fuel i w)) with
  | None => all_trims w = true
  | Some (j, _) => ∃ u a e y x c, w = u +:+ String a (e +:+ y) ∧ j = (i + String.length u)%nat ∧
      String a e = x +:+ String c "" ∧ trims c = false ∧ all_trims y = true ∧
      (∀ z, fresh_start z = true → (DecodeRune a (e +:+ z)).2 = z)
  end.
Proof.
  induction fuel as [|fuel IH]; intros i w Hw; destruct w as [|a w]; simpl in *; try done; [lia|].
  destruct (DecodeRune a w) as [r rest] eqn:Hd. pose proof (fn_decoded _ _ _ _ Hd) as Hr.
  pose proof (DecodeRune_shorter _ _ _ _ Hd) as Hs.
  destruct (DecodeRune_reads _ _ _ _ Hd) as (e & He & Hc & Hl & _ & Hz).
  specialize (IH (i + (S (String.length w) - String.length rest))%nat rest ltac:(lia)).
  rewrite filter_cons. cbn [snd].
  set (tail := filter _ (range_loop fuel _ rest)) in *.
  assert (Hlast : ∀ x, last (x :: tail) = match last tail with Some y => Some y | None => Some x end).
  { intros x. clearbody tail. destruct tail as [|y l _] using rev_ind; [done|].
    rewrite app_comm_cons, !last_snoc. done. }
  assert (Hmore : ∀ j q, last tail = Some (j, q) → ∃ u a' e y x c, String a w = u +:+ String a' (e +:+ y) ∧
    j = (i + String.length u)%nat ∧ String a' e = x +:+ String c "" ∧ trims c = false ∧ all_trims y = true ∧
    (∀ z, fresh_start z = true → (DecodeRune a' (e +:+ z)).2 = z)).
  { intros j q Hj. rewrite Hj in IH. destruct IH as (u & a' & e' & y & x & c & Hu & Hji & Hx & Hc' & Hy & Hz').
    exists (String a e +:+ u), a', e', y, x, c. conjs; try done.
    - rewrite He, Hu. by rewrite sapp_assoc.
    - rewrite Hji, length_sapp, He, length_sapp. simpl. lia. }
  destruct (trims a) eqn:Ha; simpl in Hr.
  - rewrite decide_False by by rewrite Hr. destruct (last tail) as [[j q]|] eqn:Hj; [by apply (Hmore j q)|].
    destruct (Hl (trims_ascii a Ha)) as [-> _]. simpl in He. by subst.
  - rewrite decide_True by done. rewrite Hlast. destruct (last tail) as [[j q]|] eqn:Hj; [by apply (Hmore j q)|].
    destruct (last_read a e Ha Hc) as (x & c & Hx & Hc'). exists "", a, e, rest, x, c. simpl.
    conjs; (done || lia || by rewrite He).
Qed.
End agree.

(** ** Bytes of a part of a string *)
Lemma get_app_r p w i : String.get (String.length p + i) (p +:+ w) = String.get i w.
Proof. induction p as [|c p IH]; simpl; [done|]. apply IH. Qed.

Lemma get_app_l w q i : (i < String.length w)%nat → String.get i (w +:+ q) = String.get i w.
Proof. revert i. induction w as [|c w IH]; intros [|i] Hi; simpl in *; try lia; [done|]. apply IH. lia. Qed.

Lemma trimmable_part t p w q i :
  (i < String.length w)%nat →
  trimmable t (p +:+ w +:+ q) (String.length p + i) = match String.get i w with Some c => trims t c | None => false end.
Proof. intros Hi. unfold trimmable, byte_at. by rewrite get_app_r, get_app_l. Qed.

Lemma all_trims_get t w i : all_trims t w = true → (i < String.length w)%nat →
  match String.get i w with Some c => trims t c | None => false end = true.
Proof.
  revert i. induction w as [|c w IH]; intros [|i] Hw Hi; simpl in *; try lia.
  - by apply andb_true_iff in Hw as [-> _].
  - apply andb_true_iff in Hw as [_ Hw]. apply IH; [done|lia].
Qed.

Lemma get_at u c v : String.get (String.length u) (u +:+ String c v) = Some c.
Proof. rewrite <- (Nat.add_0_r (String.length u)). by rewrite get_app_r. Qed.

(** ** The loops of the ASCII trimmer, by what they stop at *)
Lemma trim_left_at t p u c v q :
  all_trims t u = true → trims t c = false →
  trim_left t (p +:+ (u +:+ String c v) +:+ q) (String.length p) (String.length (u +:+ String c v))
  = (String.length p + String.length u)%nat.
Proof.
  intros Hu Hc. set (w := u +:+ String c v). assert (Hlen : (String.length u < String.length w)%nat)
    by (unfold w; rewrite length_sapp; simpl; lia).
  destruct (trim_left_spec t (p +:+ w +:+ q) (String.length p) (String.length w)) as (L1 & L2 & L3 & L4).
  set (k := trim_left _ _ _ _) in *.
  assert (Hk : trimmable t (p +:+ w +:+ q) (String.length p + String.length u) = false).
  { rewrite trimmable_part by done. unfold w. by rewrite get_at. }
  destruct (decide (k < String.length p + String.length u)%nat) as [Hlt|Hge].
  - specialize (L4 ltac:(lia)). replace k with (String.length p + (k - String.length p))%nat in L4 by lia.
    rewrite trimmable_part in L4 by lia. unfold w in L4. rewrite get_app_l in L4 by lia.
    rewrite all_trims_get in L4; [done|done|lia].
  - destruct (decide (k = String.length p + String.length u)%nat); [done|].
    rewrite L3 in Hk; [done|lia].
Qed.

Lemma trim_left_all t p w q :
  all_trims t w = true →
  trim_left t (p +:+ w +:+ q) (String.length p) (String.length w) = (String.length p + String.length w)%nat.
Proof.
  intros Hw.
  destruct (trim_left_spec t (p +:+ w +:+ q) (String.length p) (String.length w)) as (L1 & L2 & _ & L4).
  set (k := trim_left _ _ _ _) in *.
  destruct (decide (k < String.length p + String.length w)%nat) as [Hlt|]; [|lia].
  specialize (L4 Hlt). replace k with (String.length p + (k - String.length p))%nat in L4 by lia.
  rewrite trimmable_part in L4 by lia. rewrite all_trims_get in L4; [done|done|lia].
Qed.

Lemma trim_right_at t p x c y q :
  all_trims t y = true → trims t c = false →
  trim_right t (p +:+ (x +:+ String c y) +:+ q) (String.length p) (String.length (x +:+ String c y))
  = (String.length p + String.length x + 1)%nat.
Proof.
  intros Hy Hc. set (w := x +:+ String c y). assert (Hlen : (String.length w = String.length x + 1 + String.length y)%nat)
    by (unfold w; rewrite length_sapp; simpl; lia).
  destruct (trim_right_spec t (p +:+ w +:+ q) (String.length p) (String.length w)) as (L1 & L2 & L3 & L4).
  set (k := trim_right _ _ _ _) in *.
  assert (Hk : trimmable t (p +:+ w +:+ q) (String.length p + String.length x) = false).
  { rewrite trimmable_part by lia. unfold w. by rewrite get_at. }
  destruct (decide (k ≤ String.length p + String.length x)%nat) as [Hle|Hgt].
  - rewrite L3 in Hk; [done|lia].
  - destruct (decide (k = String.length p + String.length x + 1)%nat); [done|].
    specialize (L4 ltac:(lia)).
    replace (k - 1)%nat with (String.length p + (String.length x + 1 + (k - 2 - String.length p - String.length x)))%nat
      in L4 by lia.
    rewrite trimmable_part in L4 by lia. unfold w in L4.
    change (x +:+ String c y) with (x +:+ String c "" +:+ y) in L4. rewrite <- sapp_assoc in L4.
    replace (String.length x + 1)%nat with (String.length (x +:+ String c "")) in L4 by (rewrite length_sapp; done).
    rewrite get_app_r, all_trims_get in L4; [done|done|lia].
Qed.

Lemma trim_right_all t p w q :
  all_trims t w = true →
  trim_right t (p +:+ w +:+ q) (String.length p) (String.length w) = String.length p.
Proof.
  intros Hw.
  destruct (trim_right_spec t (p +:+ w +:+ q) (String.length p) (String.length w)) as (L1 & L2 & _ & L4).
  set (k := trim_right _ _ _ _) in *.
  destruct (decide (String.length p < k)%nat) as [Hlt|]; [|lia].
  specialize (L4 Hlt). replace (k - 1)%nat with (String.length p + (k - 1 - String.length p))%nat in L4 by lia.
  rewrite trimmable_part in L4 by lia. rewrite all_trims_get in L4; [done|done|lia].
Qed.

(** ** The characters *)
Lemma newASCIITrimmer_spec cs l r t :
  newASCIITrimmer cs l r = Some t →
  left t = l ∧ right t = r ∧ (∀ c, c ∈ chars t ↔ c ∈ String.list_ascii_of_string cs) ∧
  (∀ c, c ∈ String.list_ascii_of_string cs → byte c < 128).
Proof.
  revert t. induction cs as [|a cs IH]; intros t Ht; simpl in *.
  { injection Ht as <-. simpl. conjs; try done; set_solver. }
  destruct (N.leb_spec asciiLimit (N_of_ascii a)) as [|Ha]; [done|].
  destruct (newASCIITrimmer cs l r) as [t0|]; [|done]. injection Ht as <-.
  destruct (IH t0 eq_refl) as (? & ? & Hin & Hlow). simpl. conjs; [done|done| |].
  - intros c. rewrite elem_of_union, elem_of_singleton, Hin, elem_of_cons. done.
  - intros c [->|Hc]%elem_of_cons; [|by apply Hlow]. unfold byte, asciiLimit in *. lia.
Qed.

Lemma runes_ascii s :
  (∀ c, c ∈ String.list_ascii_of_string s → byte c < 128) →
  runes s = map byte (String.list_ascii_of_string s).
Proof.
  unfold runes, range_string. generalize 0%nat at 1.
  assert (Hgen : ∀ fuel i, (String.length s ≤ fuel)%nat →
    (∀ c, c ∈ String.list_ascii_of_string s → byte c < 128) →
    (range_loop fuel i s).*2 = map byte (String.list_ascii_of_string s)).
  { induction s as [|a s IH]; intros [|fuel] i Hf Hs; simpl in *; try done; [lia|].
    unfold DecodeRune. destruct (Z.ltb_spec (byte a) 128) as [|Hge].
    - simpl. f_equal. apply IH; [lia|]. intros c Hc. apply Hs. set_solver.
    - specialize (Hs a ltac:(set_solver)). lia. }
  intros n Hs. by apply Hgen.
Qed.

Lemma keep_spec cs l r t :
  newASCIITrimmer cs l r = Some t →
  (∀ c, byte c < 128 → keep (newUTF8Trimmer cs l r) (byte c) = negb (trims t c)) ∧
  (∀ x, 128 ≤ x → keep (newUTF8Trimmer cs l r) x = true).
Proof.
  intros Ht. destruct (newASCIITrimmer_spec _ _ _ _ Ht) as (_ & _ & Hin & Hlow).
  simpl. rewrite runes_ascii by done.
  assert (Hmap : ∀ x, x ∈ map byte (String.list_ascii_of_string cs) ↔
    ∃ c, x = byte c ∧ c ∈ String.list_ascii_of_string cs) by (intros x; apply list_elem_of_fmap).
  split.
  - intros c Hc. f_equal. unfold trims. rewrite (proj2 (N.ltb_lt _ _)); [|unfold asciiLimit, byte in *; lia].
    simpl. apply bool_decide_ext. rewrite Hmap, Hin. split; [|by eauto].
    intros (c' & He & Hc'). by rewrite <- (chr_byte c), He, chr_byte.
  - intros x Hx. rewrite bool_decide_false; [done|]. rewrite Hmap. intros (c & -> & Hc).
    apply Hlow in Hc. lia.
Qed.

(** ** Both trimmers *)
Lemma split_part s a b : (a ≤ b ≤ String.length s)%nat → ∃ p w q, s = p +:+ w +:+ q ∧
  String.length p = a ∧ String.length w = (b - a)%nat ∧ q = sdrop b s.
Proof.
  intros Hab. exists (stake a s), (stake (b - a) (sdrop a s)), (sdrop b s).
  replace (sdrop b s) with (sdrop (b - a) (sdrop a s)) by (rewrite sdrop_sdrop; f_equal; lia).
  rewrite !stake_sdrop, !length_stake, !length_sdrop. conjs; try done; lia.
Qed.

Lemma part_of p w q :
  stake (String.length p + String.length w - String.length p) (sdrop (String.length p) (p +:+ w +:+ q)) = w.
Proof.
  rewrite sdrop_length_app. replace (_ + _ - _)%nat with (String.length w) by lia. apply stake_length_app.
Qed.

Section both.
Context (t : asciiTrimmer) (fn : Z → bool).
Hypothesis fn_ascii : ∀ c, byte c < 128 → fn (byte c) = negb (trims t c).
Hypothesis fn_high : ∀ r, 128 ≤ r → fn r = true.

Lemma LastIndexFunc_spec w :
  match LastIndexFunc w fn with
  | None => all_trims t w = true
  | Some j => ∃ u a e y x c, w = u +:+ String a (e +:+ y) ∧ j = String.length u ∧
      String a e = x +:+ String c "" ∧ trims t c = false ∧ all_trims t y = true ∧
      (∀ z, fresh_start z = true → (DecodeRune a (e +:+ z)).2 = z)
  end.
Proof.
  pose proof (last_hit t fn fn_ascii fn_high (String.length w) 0 w ltac:(lia)) as Hl.
  unfold LastIndexFunc, hits, range_string. by destruct (last _) as [[j q]|].
Qed.

Lemma IndexFunc_spec w :
  match IndexFunc w fn with
  | None => all_trims t w = true
  | Some j => ∃ u c v, w = u +:+ String c v ∧ all_trims t u = true ∧ trims t c = false ∧ j = String.length u
  end.
Proof.
  pose proof (first_hit t fn fn_ascii fn_high (String.length w) 0 w ltac:(lia)) as Hl.
  unfold IndexFunc, hits, range_string. by destruct (head _) as [[j q]|].
Qed.

Lemma fresh_start_app y q : all_trims t y = true → fresh_start q = true → fresh_start (y +:+ q) = true.
Proof.
  intros Hy Hq. destruct y as [|c y]; [done|]. simpl in *. apply andb_true_iff in Hy as [Hc _].
  apply trims_ascii in Hc. unfold is_cont. lia.
Qed.

(** The end on the right. *)
Lemma right_agrees p w q :
  fresh_start q = true →
  match LastIndexFunc w fn with
  | None => String.length p
  | Some pos => (String.length p + pos + rune_width (sdrop (String.length p + pos) (p +:+ w +:+ q)))%nat
  end = trim_right t (p +:+ w +:+ q) (String.length p) (String.length w).
Proof.
  intros Hq. pose proof (LastIndexFunc_spec w) as Hl. destruct (LastIndexFunc w fn) as [pos|].
  2: { symmetry. by apply trim_right_all. }
  destruct Hl as (u & a & e & y & x & c & Hw & -> & Hx & Hc & Hy & Hz).
  assert (Hw' : w = (u +:+ x) +:+ String c y).
  { rewrite Hw. change (String a (e +:+ y)) with (String a e +:+ y). rewrite Hx, !sapp_assoc. done. }
  rewrite Hw' at 2 3. rewrite trim_right_at by done. rewrite length_sapp.
  replace (sdrop (String.length p + String.length u) (p +:+ w +:+ q)) with (String a (e +:+ y +:+ q)).
  2: { rewrite Hw, <- sdrop_sdrop, sdrop_length_app, sapp_assoc, sdrop_length_app. simpl. by rewrite sapp_assoc. }
  unfold rune_width. rewrite Hz by by apply fresh_start_app. simpl.
  assert (Hlen : (String.length (String a e) = String.length x + 1)%nat) by (rewrite Hx, length_sapp; done).
  simpl in Hlen. rewrite !length_sapp. lia.
Qed.
End both.

(** C39: When every character to trim is ASCII, the ASCII trimmer that
    [newTrimmer] picks gives what the UTF-8 trimmer would give, for every part of
    every text, valid UTF-8 or not, that does not end inside a rune. *)
Theorem trimmers_agree (cs : string) (l r : bool) t s (a b : nat) :
  newASCIITrimmer cs l r = Some t → (a ≤ b ≤ String.length s)%nat → fresh_start (sdrop b s) = true →
  utf8_Trim (newUTF8Trimmer cs l r) s a b = Trim t s a b ∧ newTrimmer cs l r s a b = Trim t s a b.
Proof.
  intros Ht Hab Hq. split; [|unfold newTrimmer; by rewrite Ht].
  destruct (keep_spec _ _ _ _ Ht) as [Hlow Hhigh].
  destruct (newASCIITrimmer_spec _ _ _ _ Ht) as (Hl & Hr & _).
  destruct (split_part s a b Hab) as (p & w & q & Hs & Hp & Hw & ->).
  assert (Hright : ∀ p w a', p +:+ w +:+ sdrop b s = s → String.length p = a' → (a' + String.length w = b)%nat →
    (if u_right (newUTF8Trimmer cs l r) then
       match LastIndexFunc (stake (b - a') (sdrop a' s)) (keep (newUTF8Trimmer cs l r)) with
       | Some pos => (a', (a' + pos + rune_width (sdrop (a' + pos) s))%nat)
       | None => (a', a')
       end
     else (a', b)) = (a', if right t then trim_right t s a' (b - a') else b)).
  { intros p' w' a' Hs' <- Hb. simpl. rewrite Hr. destruct r; [|done].
    rewrite <- Hb at 1. rewrite <- Hs' at 1. rewrite part_of.
    pose proof (right_agrees t _ Hlow Hhigh p' w' (sdrop b s) Hq) as Hag. rewrite Hs' in Hag.
    replace (b - String.length p')%nat with (String.length w') by lia. rewrite <- Hag.
    by destruct (LastIndexFunc w' _). }
  unfold utf8_Trim, Trim. simpl (u_left _). rewrite Hl. destruct l.
  2: { apply (Hright p w a); [done|done|lia]. }
  pose proof (IndexFunc_spec t _ Hlow Hhigh w) as Hi.
  replace (stake (b - a) (sdrop a s)) with w.
  2: { pose proof (part_of p w (sdrop b s)) as Hpart. rewrite <- Hs, Hp in Hpart.
       by replace (a + String.length w - a)%nat with (b - a)%nat in Hpart by lia. }
  destruct (IndexFunc w _) as [pos|].
  - destruct Hi as (u & c & v & -> & Hu & Hc & ->).
    assert (Hk : trim_left t s a (b - a) = (a + String.length u)%nat).
    { rewrite <- Hw, <- Hp. rewrite Hs at 1. by apply trim_left_at. }
    rewrite Hk. apply (Hright (p +:+ u) (String c v)).
    + rewrite Hs at 2. by rewrite !sapp_assoc.
    + rewrite length_sapp. lia.
    + rewrite length_sapp in Hw. lia.
  - assert (Hk : trim_left t s a (b - a) = b).
    { rewrite <- Hw, <- Hp. rewrite Hs at 1. rewrite trim_left_all by done. lia. }
    rewrite Hk, Nat.sub_diag. simpl. by destruct (right t).
Qed.

Lemma trimmers_agree_witness :
  utf8_Trim (newUTF8Trimmer " #" true true) " #aé b# " 1%nat 8%nat = (2, 7)%nat ∧
  (let t := mkTrimmer ({[" "%char]} ∪ ({["#"%char]} ∪ ∅)) true true in
   utf8_Trim (newUTF8Trimmer " #" true true) " #aé b# " 1%nat 8%nat = Trim t " #aé b# " 1%nat 8%nat ∧
   newTrimmer " #" true true " #aé b# " 1%nat 8%nat = Trim t " #aé b# " 1%nat 8%nat).
Proof.
  split; [vm_compute; done|].
  apply (trimmers_agree " #" true true); [reflexivity|simpl; lia|reflexivity].
Defined.

(** A part that ends inside a rune: the width is taken from the whole text, so the
    trimmed part is longer than the part it was given. *)
Theorem utf8_Trim_widens :
  utf8_Trim (newUTF8Trimmer "é" false true) "aéb" 0%nat 2%nat = (0, 3)%nat.
Proof. vm_compute. reflexivity. Qed.
