(* ===== verification/ConfigOpts.v ===== *)
(** * Package [config]: the calls of ucfg and their options (src/config/config.go, src/config/flags.go)

    Every method of [C] passes its arguments on to the third-party library ucfg
    together with the options in the package variable [configOpts].  ucfg is the
    class [UcfgOps]: its configurations live in a heap, and each operation may
    change it.  The options are a Go slice: a backing array that other slices may
    share, a length, and a capacity which [append] fills in place. *)
From S2P Require Import Prelude GoStrings.

Open Scope string_scope.
Open Scope list_scope.
Open Scope Z_scope.

Class UcfgOps := {
  uheap : Type;
  cptr : Type;                        (** [*ucfg.Config] *)
  uopt : Type;
  uerr : Type;
  any : Type;                         (** [interface{}] *)
  float : Type;
  PathSep : string → uopt;
  ResolveEnv : uopt;
  VarExp : uopt;
  MetaSource : string → uopt;         (** [ucfg.MetaData(ucfg.Meta{Source: s})] *)
  of_config : cptr → any;
  as_string : any → option string;
  u_New : uheap → uheap * cptr;
  u_NewFrom : any → list uopt → uheap → uheap * (cptr * option uerr);
  yaml_NewConfig : string → list uopt → uheap → uheap * (cptr * option uerr);
  u_Merge : cptr → any → list uopt → uheap → uheap * option uerr;
  u_Unpack : cptr → any → list uopt → uheap → uheap * option uerr;
  u_Path : cptr → string → uheap → string;
  u_PathOf : cptr → string → string → uheap → string;
  u_Remove : cptr → string → Z → list uopt → uheap → uheap * (bool * option uerr);
  u_Has : cptr → string → Z → list uopt → uheap → uheap * (bool * option uerr);
  u_HasField : cptr → string → uheap → bool;
  u_CountField : cptr → string → uheap → Z * option uerr;
  u_Bool : cptr → string → Z → list uopt → uheap → uheap * (bool * option uerr);
  u_String : cptr → string → Z → list uopt → uheap → uheap * (string * option uerr);
  u_Int : cptr → string → Z → list uopt → uheap → uheap * (Z * option uerr);
  u_Float : cptr → string → Z → list uopt → uheap → uheap * (float * option uerr);
  u_Child : cptr → string → Z → list uopt → uheap → uheap * (cptr * option uerr);
  u_SetBool : cptr → string → Z → bool → list uopt → uheap → uheap * option uerr;
  u_SetInt : cptr → string → Z → Z → list uopt → uheap → uheap * option uerr;
  u_SetFloat : cptr → string → Z → float → list uopt → uheap → uheap * option uerr;
  u_SetString : cptr → string → Z → string → list uopt → uheap → uheap * option uerr;
  u_SetChild : cptr → string → Z → cptr → list uopt → uheap → uheap * option uerr;
  u_IsDict : cptr → uheap → bool;
  u_IsArray : cptr → uheap → bool;
  u_FlattenedKeys : cptr → list uopt → uheap → list string;
  u_GetFields : cptr → uheap → list string;
  flag_value : Type;                  (** [cfgflag.FlagValue] *)
  f_NewFlagKeyValue : cptr → bool → list uopt → uheap → uheap * flag_value;
  f_Config : flag_value → cptr;
  f_Set : flag_value → string → uheap → uheap * option uerr
}.

Section config.
Context `{UcfgOps}.

(** ** Slices of options *)
Record oslice := mkOslice { o_arr : positive; o_len : nat }.

(** A cell that was never written is nil. *)
Record cstate := mkC {
  arrays : gmap positive (list (option uopt));
  configOpts : oslice;
  ucfg : uheap
}.

Definition cells (s : cstate) (o : oslice) : list (option uopt) := default [] (arrays s !! o_arr o).

(** The elements of a slice. *)
Definition elems (s : cstate) (o : oslice) : list uopt := omap id (take (o_len o) (cells s o)).

Definition set_array (p : positive) (l : list (option uopt)) (s : cstate) : cstate :=
  mkC (<[p := l]> (arrays s)) (configOpts s) (ucfg s).

(** [append(o, opts...)]: in place while the capacity lasts. *)
Definition append_opts (o : oslice) (opts : list uopt) (s : cstate) : cstate * oslice :=
  let c := cells s o in
  let n := (o_len o + length opts)%nat in
  if (n <=? length c)%nat then
    (set_array (o_arr o) (take (o_len o) c ++ (Some <$> opts) ++ drop n c) s, mkOslice (o_arr o) n)
  else
    let p := fresh (dom (arrays s)) in
    (set_array p (take (o_len o) c ++ (Some <$> opts)) s, mkOslice p n).

(** The calls of this package; the error is a value like the others. *)
Definition CM (A : Type) : Type := cstate → cstate * A.

#[global] Instance CM_ret : MRet CM := λ A a s, (s, a).
#[global] Instance CM_bind : MBind CM := λ A B f c s, let '(s', a) := c s in f a s'.

(** A call of ucfg. *)
Definition in_ucfg {A} (call : uheap → uheap * A) : CM A := λ s,
  let '(h, a) := call (ucfg s) in (mkC (arrays s) (configOpts s) h, a).
Definition reads {A} (f : uheap → A) : CM A := λ s, (s, f (ucfg s)).

Definition getGlobalConfigOpts : CM oslice := λ s, (s, configOpts s).
Definition setGlobalConfigOpts (o : oslice) : CM unit := λ s, (mkC (arrays s) o (ucfg s), tt).

(** [f(args, o...)]: the callee is given the slice and reads it. *)
Definition with_opts {A} (o : oslice) (call : list uopt → uheap → uheap * A) : CM A := λ s,
  in_ucfg (call (elems s o)) s.

Definition with_global {A} (call : list uopt → uheap → uheap * A) : CM A :=
  o ← getGlobalConfigOpts; with_opts o call.

(** The value [configOpts] starts with. *)
Definition initial_opts : list (option uopt) := [Some (PathSep "."); Some ResolveEnv; Some VarExp].

(** ** config.go *)
Definition NewConfig : CM cptr := in_ucfg u_New.

Definition NewConfigFrom (from : any) : CM (cptr * option uerr) :=
  match as_string from with
  | Some str => with_global (yaml_NewConfig str)
  | None => with_global (u_NewFrom from)
  end.

(** [None] is a panic. *)
Definition MustNewConfigFrom (from : any) : CM (option cptr) :=
  '(cfg, err) ← NewConfigFrom from;
  match err with Some _ => mret None | None => mret (Some cfg) end.

Definition Merge (c : cptr) (from : any) : CM (option uerr) := with_global (u_Merge c from).

(** [opts] is [None] for a call without variadic arguments. *)
Definition MergeWithOpts (c : cptr) (from : any) (opts : option (list uopt)) : CM (option uerr) :=
  o ← getGlobalConfigOpts;
  o' ← match opts with Some l => append_opts o l | None => mret o end;
  with_opts o' (u_Merge c from).

Fixpoint merge_each (config : cptr) (cfgs : list cptr) (options : option (list uopt)) : CM (option uerr) :=
  match cfgs with
  | [] => mret None
  | c :: rest =>
      err ← MergeWithOpts config (of_config c) options;
      match err with Some e => mret (Some e) | None => merge_each config rest options end
  end.

Definition MergeConfigsWithOptions (cfgs : list cptr) (options : option (list uopt)) : CM (cptr + uerr) :=
  config ← NewConfig;
  err ← merge_each config cfgs options;
  match err with Some e => mret (inr e) | None => mret (inl config) end.

(** [append([]ucfg.Option{meta}, opts...)]: a new array with the elements. *)
Definition meta_first {A} (source : string) (o : oslice) (call : list uopt → uheap → uheap * A) : CM A := λ s,
  in_ucfg (call (MetaSource source :: elems s o)) s.

Definition NewConfigWithYAML (in_ source : string) : CM (cptr * option uerr) :=
  o ← getGlobalConfigOpts; meta_first source o (yaml_NewConfig in_).

Definition OverwriteConfigOpts (options : oslice) : CM unit := setGlobalConfigOpts options.

Definition Unpack (c : cptr) (to : any) : CM (option uerr) := with_global (u_Unpack c to).
Definition Path (c : cptr) : CM string := reads (u_Path c ".").
Definition PathOf (c : cptr) (field : string) : CM string := reads (u_PathOf c field ".").
Definition Remove (c : cptr) (name : string) (idx : Z) : CM (bool * option uerr) := with_global (u_Remove c name idx).
Definition Has (c : cptr) (name : string) (idx : Z) : CM (bool * option uerr) := with_global (u_Has c name idx).
Definition HasField (c : cptr) (name : string) : CM bool := reads (u_HasField c name).
Definition CountField (c : cptr) (name : string) : CM (Z * option uerr) := reads (u_CountField c name).
Definition C_Bool (c : cptr) (name : string) (idx : Z) : CM (bool * option uerr) := with_global (u_Bool c name idx).
Definition C_String (c : cptr) (name : string) (idx : Z) : CM (string * option uerr) := with_global (u_String c name idx).
Definition C_Int (c : cptr) (name : string) (idx : Z) : CM (Z * option uerr) := with_global (u_Int c name idx).
Definition C_Float (c : cptr) (name : string) (idx : Z) : CM (float * option uerr) := with_global (u_Float c name idx).
Definition C_Child (c : cptr) (name : string) (idx : Z) : CM (cptr * option uerr) := with_global (u_Child c name idx).
Definition SetBool (c : cptr) (name : string) (idx : Z) (v : bool) : CM (option uerr) := with_global (u_SetBool c name idx v).
Definition SetInt (c : cptr) (name : string) (idx v : Z) : CM (option uerr) := with_global (u_SetInt c name idx v).
Definition SetFloat (c : cptr) (name : string) (idx : Z) (v : float) : CM (option uerr) := with_global (u_SetFloat c name idx v).
Definition SetString (c : cptr) (name : string) (idx : Z) (v : string) : CM (option uerr) := with_global (u_SetString c name idx v).
Definition SetChild (c : cptr) (name : string) (idx : Z) (v : cptr) : CM (option uerr) := with_global (u_SetChild c name idx v).
Definition IsDict (c : cptr) : CM bool := reads (u_IsDict c).
Definition IsArray (c : cptr) : CM bool := reads (u_IsArray c).
Definition FlattenedKeys (c : cptr) : CM (list string) := λ s, (s, u_FlattenedKeys c (elems s (configOpts s)) (ucfg s)).
Definition C_GetFields (c : cptr) : CM (list string) := reads (u_GetFields c).

(** ** flags.go: a flag that overwrites one setting *)
Record flagOverwrite := mkOverwrite { ow_config : cptr; ow_path : string; ow_value : string }.

Definition newOverwriteFlag (c : cptr) (path def : string) : flagOverwrite := mkOverwrite c path def.

(** [None] is a panic: a nil configuration, an empty path, or a default that
    cannot be set. *)
Definition ConfigOverwriteFlag (config : option cptr) (path def : string) : CM (option flagOverwrite) :=
  match config with
  | None => mret None
  | Some c =>
      if bool_decide (path = "") then mret None
      else
        err ← (if bool_decide (def = "") then mret None else SetString c path (-1) def);
        match err with
        | Some _ => mret None
        | None => mret (Some (newOverwriteFlag c path def))
        end
  end.

Definition overwrite_Set (f : flagOverwrite) (v : string) : CM (flagOverwrite * option uerr) := λ s,
  (err ← meta_first "command line flag" (configOpts s) (u_SetString (ow_config f) (ow_path f) (-1) v);
   match err with
   | Some e => mret (f, Some e)
   | None => mret (mkOverwrite (ow_config f) (ow_path f) v, None)
   end) s.

Definition overwrite_String (f : flagOverwrite) : string := ow_value f.
Definition overwrite_Get (f : flagOverwrite) : string := ow_value f.
Definition typeString : string := "string".
Definition overwrite_Type (f : flagOverwrite) : string := typeString.

(** A flag that collects settings. *)
Definition NewSettingsFlag (def : cptr) : CM flag_value := λ s,
  meta_first "command line flag" (configOpts s) (f_NewFlagKeyValue def true) s.
Definition Settings_Config (f : flag_value) : cptr := f_Config f.
Definition Settings_Set (f : flag_value) (s : string) : CM (option uerr) := in_ucfg (f_Set f s).
Definition Settings_Get (f : flag_value) : cptr := Settings_Config f.
Definition Settings_String (f : flag_value) : string := "".
Definition Settings_Type (f : flag_value) : string := "setting=value".
Definition SettingVarFlag (def : cptr) : CM flag_value := NewSettingsFlag def.
Definition SettingFlag : CM (cptr * flag_value) := cfg ← NewConfig; f ← SettingVarFlag cfg; mret (cfg, f).

(** ** Facts *)

(** What [append] leaves: the new slice has the elements of both, and a slice
    whose array has no room left is not touched. *)
Definition full (s : cstate) (o : oslice) : Prop := length (cells s o) = o_len o.

Lemma omap_id_Some {A} (l : list A) : omap id (Some <$> l) = l.
Proof.
  induction l as [|x l IH]; [done|].
  change (omap id (Some <$> (x :: l))) with (x :: omap id (Some <$> l)). by rewrite IH.
Qed.

Lemma append_opts_elems o opts s :
  (o_len o ≤ length (cells s o))%nat →
  let '(s', o') := append_opts o opts s in elems s' o' = elems s o ++ opts.
Proof.
  intros Hlen. unfold append_opts. destruct (Nat.leb_spec (o_len o + length opts) (length (cells s o))).
  - unfold elems, cells, set_array at 1. simpl. rewrite lookup_insert_eq. simpl. fold (cells s o).
    rewrite app_assoc, take_app_length'.
    + by rewrite omap_app, omap_id_Some.
    + rewrite length_app, length_take, length_fmap. lia.
  - unfold elems, cells, set_array at 1. simpl. rewrite lookup_insert_eq. simpl. fold (cells s o).
    rewrite firstn_all2 by (rewrite length_app, length_take, length_fmap; lia).
    by rewrite omap_app, omap_id_Some.
Qed.

Lemma append_opts_full o opts s q :
  full s o → opts ≠ [] → is_Some (arrays s !! o_arr q) →
  cells (append_opts o opts s).1 q = cells s q.
Proof.
  intros Hf Hne [l Hq]. unfold append_opts. destruct (Nat.leb_spec (o_len o + length opts) (length (cells s o))).
  { unfold full in Hf. destruct opts; [done|]. simpl in *. lia. }
  unfold cells, set_array. simpl. rewrite lookup_insert_ne; [done|].
  intros He. apply (is_fresh (dom (arrays s))). rewrite He. apply elem_of_dom. eauto.
Qed.

(** ** Concurrent merges

    A call of [MergeWithOpts] reads the global slice under the lock and then
    appends to it and passes it on without the lock. *)
Record margs := mkArgs { m_config : cptr; m_from : any; m_opts : list uopt }.

Inductive mcall :=
| MStart (a : margs)
| MRead (o : oslice) (a : margs)
| MReady (o : oslice) (a : margs)
| MDone (seen : list uopt) (a : margs) (err : option uerr).

(** [past] are the values the global options have had. *)
Record csys := mkSys { shared : cstate; calls : list mcall; past : list (list uopt) }.

Definition set_call (i : nat) (c : mcall) (s : cstate) (y : csys) : csys := mkSys s (<[i := c]> (calls y)) (past y).

Inductive cstep : csys → csys → Prop :=
| step_read y i a :
    calls y !! i = Some (MStart a) →
    cstep y (set_call i (MRead (getGlobalConfigOpts (shared y)).2 a) (shared y) y)
| step_append y i o a s' o' :
    calls y !! i = Some (MRead o a) → append_opts o (m_opts a) (shared y) = (s', o') →
    cstep y (set_call i (MReady o' a) s' y)
| step_merge y i o a s' err :
    calls y !! i = Some (MReady o a) → with_opts o (u_Merge (m_config a) (m_from a)) (shared y) = (s', err) →
    cstep y (set_call i (MDone (elems (shared y) o) a err) s' y)
| step_overwrite y p l :
    arrays (shared y) !! p = None →
    cstep y (mkSys (OverwriteConfigOpts (mkOslice p (length l)) (set_array p (Some <$> l) (shared y))).1
      (calls y) (l :: past y)).

(** The three steps of a call that no other interrupts are [MergeWithOpts]. *)
Lemma MergeWithOpts_steps y i a :
  calls y !! i = Some (MStart a) →
  let '(s', err) := MergeWithOpts (m_config a) (m_from a) (Some (m_opts a)) (shared y) in
  ∃ seen, rtc cstep y (mkSys s' (<[i := MDone seen a err]> (calls y)) (past y)).
Proof.
  intros Hi. unfold MergeWithOpts, mbind, CM_bind. simpl.
  destruct (append_opts (configOpts (shared y)) (m_opts a) (shared y)) as [s1 o1] eqn:Hap.
  destruct (with_opts o1 (u_Merge (m_config a) (m_from a)) s1) as [s2 err] eqn:Hm.
  exists (elems s1 o1). assert (Hlen : (i < length (calls y))%nat) by by apply lookup_lt_Some in Hi.
  eapply rtc_l; [by eapply step_read|].
  eapply rtc_l; [eapply (step_append _ i); [simpl; by apply list_lookup_insert_eq|exact Hap]|].
  eapply rtc_l; [eapply (step_merge _ i); [simpl; apply list_lookup_insert_eq; by rewrite length_insert|exact Hm]|].
  unfold set_call. simpl. rewrite !list_insert_insert_eq. apply rtc_refl.
Qed.

(** A slice of options that was global: its array is full. *)
Definition settled (y : csys) (o : oslice) : Prop :=
  is_Some (arrays (shared y) !! o_arr o) ∧ full (shared y) o ∧ elems (shared y) o ∈ past y.

Definition call_ok (y : csys) (c : mcall) : Prop :=
  match c with
  | MStart a => m_opts a ≠ []
  | MRead o a => m_opts a ≠ [] ∧ settled y o
  | MReady o a => is_Some (arrays (shared y) !! o_arr o) ∧ ∃ g, g ∈ past y ∧ elems (shared y) o = g ++ m_opts a
  | MDone seen a _ => ∃ g, g ∈ past y ∧ seen = g ++ m_opts a
  end.

Definition csys_ok (y : csys) : Prop :=
  settled y (configOpts (shared y)) ∧ ∀ i c, calls y !! i = Some c → call_ok y c.

(** Arrays are only added, and the past only grows. *)
Definition extends (y y' : csys) : Prop :=
  (∀ o, is_Some (arrays (shared y) !! o_arr o) →
     is_Some (arrays (shared y') !! o_arr o) ∧ cells (shared y') o = cells (shared y) o) ∧
  (∀ g, g ∈ past y → g ∈ past y').

Lemma settled_extends y y' o : extends y y' → settled y o → settled y' o.
Proof.
  intros [Ha Hp] (Hs & Hf & He). destruct (Ha o Hs) as [Hs' Hc]. unfold settled, full, elems in *.
  rewrite Hc. auto.
Qed.

Lemma call_ok_extends y y' c : extends y y' → call_ok y c → call_ok y' c.
Proof.
  intros Hx. pose proof Hx as [Ha Hp]. destruct c as [|o a|o a|seen a err]; simpl; [done| | |].
  - intros [? ?]. split; [done|]. by apply (settled_extends y).
  - intros (Hs & g & Hg & He). destruct (Ha o Hs) as [Hs' Hc]. split; [done|]. exists g.
    unfold elems in *. rewrite Hc. auto.
  - intros (g & Hg & He). exists g. auto.
Qed.

Lemma calls_insert_ok y y' i c :
  extends y y' → (∀ j d, calls y !! j = Some d → call_ok y d) → calls y' = <[i := c]> (calls y) → call_ok y' c →
  ∀ j d, calls y' !! j = Some d → call_ok y' d.
Proof.
  intros Hx Hok Hc Hnew j d. rewrite Hc. intros [(-> & <- & _)|[_ Hj]]%list_lookup_insert_Some; [done|].
  by apply (call_ok_extends y), (Hok j).
Qed.

Lemma cells_fresh_array s p l o :
  arrays s !! p = None → is_Some (arrays s !! o_arr o) →
  is_Some (arrays (set_array p l s) !! o_arr o) ∧ cells (set_array p l s) o = cells s o.
Proof.
  intros Hp [x Hx]. assert (Hne : p ≠ o_arr o) by (intros He; rewrite He in Hp; congruence).
  unfold cells. simpl. rewrite lookup_insert_ne by done. eauto.
Qed.

Lemma cstep_ok y y' : cstep y y' → csys_ok y → csys_ok y'.
Proof.
  intros Hstep [Hg Hc]. destruct Hstep as [y i a Hi|y i o a s' o' Hi Hap|y i o a s' err Hi Hm|y p l Hp].
  - split; [done|]. assert (Hx : extends y (set_call i (MRead (configOpts (shared y)) a) (shared y) y)) by by split.
    eapply calls_insert_ok; [exact Hx|done|done|]. split; [apply (Hc i _ Hi)|done].
  - destruct (Hc i _ Hi) as (Hne & Hs & Hf & He).
    pose proof (append_opts_elems o (m_opts a) (shared y)) as Hel. rewrite Hap in Hel.
    assert (Hfr : ∀ q, is_Some (arrays (shared y) !! o_arr q) → cells s' q = cells (shared y) q).
    { intros q Hq. pose proof (append_opts_full o (m_opts a) (shared y) q Hf Hne Hq) as Hcq. by rewrite Hap in Hcq. }
    assert (Hs' : s' = set_array (o_arr o') (cells s' o') (shared y) ∧ arrays (shared y) !! o_arr o' = None).
    { unfold append_opts in Hap. destruct (Nat.leb_spec (o_len o + length (m_opts a)) (length (cells (shared y) o))).
      { unfold full in Hf. destruct (m_opts a); [done|]. simpl in *. lia. }
      injection Hap as <- <-. simpl. split; [|apply not_elem_of_dom, is_fresh].
      unfold cells at 2. simpl. by rewrite lookup_insert_eq. }
    destruct Hs' as [Hs' Hfresh].
    set (y' := set_call i (MReady o' a) s' y).
    assert (Hx : extends y y').
    { split; [|done]. intros q Hq. simpl. rewrite Hs'. by apply cells_fresh_array. }
    split.
    { apply (settled_extends y y'); [done|]. simpl. rewrite Hs'. exact Hg. }
    eapply calls_insert_ok; [exact Hx|done|done|]. simpl. split.
    + rewrite Hs'. simpl. rewrite lookup_insert_eq. eauto.
    + exists (elems (shared y) o). split; [done|]. apply Hel. unfold full in Hf. lia.
  - assert (Hs' : arrays s' = arrays (shared y) ∧ configOpts s' = configOpts (shared y)).
    { unfold with_opts, in_ucfg in Hm. destruct (u_Merge _ _ _ _). by injection Hm as <- <-. }
    destruct Hs' as [Ha Hg'].
    assert (Hx : extends y (set_call i (MDone (elems (shared y) o) a err) s' y)).
    { split; [|done]. intros q Hq. unfold cells. simpl. by rewrite Ha. }
    split; [apply (settled_extends y); simpl; rewrite ?Hg'; done|]. eapply calls_insert_ok; [exact Hx|done|done|]. destruct (Hc i _ Hi) as (_ & g & Hin & He).
    by exists g.
  - set (y' := mkSys _ _ _).
    assert (Hx : extends y y').
    { split; [|intros g Hin; by right]. intros q Hq. simpl. by apply cells_fresh_array. }
    split.
    + unfold settled, full, elems, cells. simpl. rewrite lookup_insert_eq. simpl. rewrite length_fmap.
      conjs; [eauto|done|]. rewrite firstn_all2 by (rewrite length_fmap; lia). rewrite omap_id_Some. by left.
    + intros j d Hj. apply (call_ok_extends y y' d Hx). by apply (Hc j).
Qed.

(** The options start as a slice literal, which is full. *)
Definition csys_start (h : uheap) (args : list margs) : csys :=
  let l := initial_opts in
  mkSys (mkC {[1%positive := l]} (mkOslice 1 3) h) (MStart <$> args) [[PathSep "."; ResolveEnv; VarExp]].

(** C26: In every interleaving of concurrent MergeWithOpts calls and replacements of
    the global options by full slices, each merge is made with a value the global
    options have had, followed by the options of that call and of no other. *)
Theorem merges_see_their_options (h : uheap) (args : list margs) (y : csys) (i : nat) (seen : list uopt) (a : margs) err :
  Forall (λ x, m_opts x ≠ []) args → rtc cstep (csys_start h args) y → calls y !! i = Some (MDone seen a err) →
  ∃ g, g ∈ past y ∧ seen = g ++ m_opts a.
Proof.
  intros Hne Hrun Hi.
  assert (Hok : csys_ok (csys_start h args)).
  { split.
    - unfold settled, full, elems, cells. simpl. rewrite lookup_singleton_eq. simpl. conjs; [eauto|done|by left].
    - intros j c Hj. apply list_lookup_fmap_Some in Hj as (l & -> & Hl). simpl.
      rewrite Forall_forall in Hne. apply Hne. by eapply list_elem_of_lookup_2. }
  assert (Hy : csys_ok y) by (clear Hi; induction Hrun; [done|apply IHHrun; by eapply cstep_ok]).
  exact (proj2 Hy i _ Hi).
Qed.

(** With room left in the array of the global options two calls write the same
    cell: here both append their own option, then the first merge is made with the
    option of the second. *)
Theorem spare_capacity_mixes_options (h : uheap) (c : cptr) (from : any) (g a b : uopt) : ∃ y err,
  rtc cstep (mkSys (mkC {[1%positive := [Some g; None]]} (mkOslice 1 1) h)
    [MStart (mkArgs c from [a]); MStart (mkArgs c from [b])] [[g]]) y ∧
  calls y !! 0%nat = Some (MDone [g; b] (mkArgs c from [a]) err).
Proof.
  eexists _, _. split.
  - eapply rtc_l; [by apply (step_read _ 0 (mkArgs c from [a]))|]. simpl.
    eapply rtc_l; [by apply (step_read _ 1 (mkArgs c from [b]))|]. simpl.
    eapply rtc_l; [by eapply (step_append _ 0 _ (mkArgs c from [a]))|]. simpl.
    eapply rtc_l; [by eapply (step_append _ 1 _ (mkArgs c from [b]))|]. simpl.
    eapply rtc_l; [eapply (step_merge _ 0 _ (mkArgs c from [a])); [done|apply surjective_pairing]|]. apply rtc_refl.
  - reflexivity.
Qed.

(** *** The flag that overwrites a setting *)

(** What is used of [SetString]: after it succeeded the setting is read back,
    whatever other options the reader passes. *)
Class SetStringLaw := {
  set_then_get : ∀ c path v opts opts' h h',
    u_SetString c path (-1) v opts h = (h', None) → (u_String c path (-1) opts' h').2 = (v, None)
}.

Context `{!SetStringLaw}.

(** A flag that was registered shows its default until it is set, and after a
    successful [Set] the flag and the configuration hold the value it was given;
    a [Set] that fails leaves the flag as it was. *)
Theorem overwrite_flag_sets (c : cptr) (path def v : string) s s1 f :
  ConfigOverwriteFlag (Some c) path def s = (s1, Some f) →
  path ≠ "" ∧ overwrite_String f = def ∧
  (def ≠ "" → (C_String c path (-1) s1).2 = (def, None)) ∧
  match overwrite_Set f v s1 with
  | (s2, (f', None)) => overwrite_Get f' = v ∧ (C_String c path (-1) s2).2 = (v, None)
  | (s2, (f', Some _)) => f' = f
  end.
Proof.
  unfold ConfigOverwriteFlag. case_bool_decide as Hp; [done|]. intros Hf.
  assert (Hread : ∀ h arrs o x, (C_String c path (-1) (mkC arrs o h)).2 = x ↔
    (u_String c path (-1) (elems (mkC arrs o h) o) h).2 = x).
  { intros h arrs o x. unfold C_String, with_global, with_opts, in_ucfg, mbind, CM_bind. simpl.
    by destruct (u_String c path (-1) _ h). }
  unfold mbind, CM_bind in Hf.
  assert (Hf' : f = newOverwriteFlag c path def ∧ (def ≠ "" → (C_String c path (-1) s1).2 = (def, None))).
  { case_bool_decide as Hd; [by injection Hf as <- <-|].
    unfold SetString, with_global, with_opts, in_ucfg, mbind, CM_bind in Hf. simpl in Hf.
    destruct (u_SetString c path (-1) def _ (ucfg s)) as [h1 [e|]] eqn:E; [done|]. injection Hf as <- <-.
    split; [done|]. intros _. apply Hread. by eapply set_then_get. }
  destruct Hf' as [-> Hdef]. conjs; [done|done|done|].
  unfold overwrite_Set, meta_first, in_ucfg, mbind, CM_bind. simpl.
  destruct (u_SetString c path (-1) v _ (ucfg s1)) as [h2 [e|]] eqn:E; simpl; [done|].
  split; [done|]. apply Hread. by eapply set_then_get.
Qed.
End config.

(** ** A concrete library

    A configuration is a map of settings, the heap holds them by number, an option
    is its name. *)
#[local] Abbreviation settings_heap := (gmap positive (gmap string string)).

Definition heap_new (h : settings_heap) : settings_heap * positive :=
  let p := fresh (dom h) in (<[p := ∅]> h, p).

Definition heap_merge (c : positive) (from : positive + string) (h : settings_heap) : settings_heap * option string :=
  match from with
  | inl d => match h !! c, h !! d with
             | Some mc, Some md => (<[c := md ∪ mc]> h, None)
             | _, _ => (h, Some "no configuration")
             end
  | inr _ => (h, Some "not an object")
  end.

Definition heap_set (c : positive) (name v : string) (h : settings_heap) : settings_heap * option string :=
  (<[c := <[name := v]> (default ∅ (h !! c))]> h, None).

Definition heap_get (c : positive) (name : string) (h : settings_heap) : string * option string :=
  match h !! c ≫= lookup name with Some v => (v, None) | None => ("", Some "missing field") end.

Lemma heap_set_get c name v h : heap_get c name (heap_set c name v h).1 = (v, None).
Proof. unfold heap_get, heap_set. simpl. rewrite lookup_insert_eq. simpl. by rewrite lookup_insert_eq. Qed.

#[local] Instance settings_ucfg : UcfgOps := {|
  uheap := settings_heap; cptr := positive; uopt := string; uerr := string; any := positive + string; float := Z;
  PathSep s := "PathSep " +:+ s; ResolveEnv := "ResolveEnv"; VarExp := "VarExp"; MetaSource s := "Meta " +:+ s;
  of_config := inl; as_string a := match a with inr s => Some s | inl _ => None end;
  u_New := heap_new;
  u_NewFrom a _ h := let '(h, p) := heap_new h in (h, (p, None));
  yaml_NewConfig _ _ h := let '(h, p) := heap_new h in (h, (p, None));
  u_Merge c a _ h := heap_merge c a h;
  u_Unpack _ _ _ h := (h, None); u_Path _ _ _ := ""; u_PathOf _ f _ _ := f;
  u_Remove _ _ _ _ h := (h, (false, None));
  u_Has c n _ _ h := (h, (bool_decide (is_Some (h !! c ≫= lookup n)), None));
  u_HasField c n h := bool_decide (is_Some (h !! c ≫= lookup n)); u_CountField _ _ _ := (0, None);
  u_Bool _ _ _ _ h := (h, (false, Some "not a bool"));
  u_String c n _ _ h := (h, heap_get c n h);
  u_Int _ _ _ _ h := (h, (0, Some "not a number")); u_Float _ _ _ _ h := (h, (0, Some "not a number"));
  u_Child c _ _ _ h := (h, (c, Some "not an object"));
  u_SetBool c n _ v _ h := heap_set c n (if v then "true" else "false") h;
  u_SetInt _ _ _ _ _ h := (h, None); u_SetFloat _ _ _ _ _ h := (h, None);
  u_SetString c n _ v _ h := heap_set c n v h; u_SetChild _ _ _ _ _ h := (h, None);
  u_IsDict _ _ := true; u_IsArray _ _ := false; u_FlattenedKeys _ _ _ := []; u_GetFields _ _ := [];
  flag_value := positive; f_NewFlagKeyValue c _ _ h := (h, c); f_Config c := c; f_Set c s h := heap_set c s "true" h |}.

#[local] Instance settings_law : SetStringLaw.
Proof.
  constructor. intros c path v opts opts' h h' Hs. change (heap_set c path v h = (h', None)) in Hs.
  pose proof (heap_set_get c path v h) as Hg. rewrite Hs in Hg. exact Hg.
Qed.

(** Two merges into the first of three configurations that read the options one
    after the other and append in the opposite order. *)
Definition three_configs : settings_heap := {[1%positive := ∅; 2%positive := {["a" := "1"]}; 3%positive := {["b" := "2"]}]}.
Definition first_call : margs (H := settings_ucfg) := mkArgs (H := settings_ucfg) 1%positive (inl 2%positive) ["AppendValues"].
Definition second_call : margs (H := settings_ucfg) := mkArgs (H := settings_ucfg) 1%positive (inl 3%positive) ["ReplaceValues"].
Definition two_calls : list margs := [first_call; second_call].

(** Both calls end, and the first was made with its own option. *)
Lemma merges_see_their_options_witness : ∃ y seen err,
  rtc cstep (csys_start three_configs two_calls) y ∧
  calls y !! 0%nat = Some (MDone seen first_call err) ∧
  ∃ g, g ∈ past y ∧ seen = g ++ ["AppendValues"].
Proof.
  assert (Hrun : ∃ y seen err, rtc cstep (csys_start three_configs two_calls) y ∧
    calls y !! 0%nat = Some (MDone seen first_call err)).
  { eexists _, _, _. split.
    - eapply rtc_l; [eapply (step_read _ 0); reflexivity|].
      eapply rtc_l; [eapply (step_read _ 1); reflexivity|].
      eapply rtc_l; [eapply (step_append _ 1); [reflexivity|apply surjective_pairing]|].
      eapply rtc_l; [eapply (step_append _ 0); [reflexivity|apply surjective_pairing]|].
      eapply rtc_l; [eapply (step_merge _ 0); [reflexivity|apply surjective_pairing]|]. apply rtc_refl.
    - reflexivity. }
  destruct Hrun as (y & seen & err & Hrun & Hi). exists y, seen, err. split; [exact Hrun|]. split; [exact Hi|].
  apply (merges_see_their_options (H := settings_ucfg) three_configs two_calls y 0 seen first_call err).
  - repeat constructor; discriminate.
  - exact Hrun.
  - exact Hi.
Defined.

(** A flag for the setting "a" of the second configuration. *)
Lemma overwrite_flag_sets_witness : ∃ s1 f,
  ConfigOverwriteFlag (H := settings_ucfg) (Some 2%positive) "a" "x" (shared (csys_start three_configs [])) = (s1, Some f) ∧ overwrite_String f = "x".
Proof.
  eexists _, _. split; [reflexivity|].
  refine (proj1 (proj2 (overwrite_flag_sets (H := settings_ucfg) 2%positive "a" "x" "y"
    (shared (csys_start three_configs [])) _ _ _))).
  reflexivity.
Defined.
