(* ===== verification/FileHelpers.v ===== *)
(** * Package [file]: replacement of a file, file information
    (src/file/helper_common.go, helper_windows.go, helper_aix.go, helper_other.go, fileinfo.go)

    The state is the disk, a clock in nanoseconds, and for every system call to
    come the time it takes and whether it works.  A rename with retries reads the
    clock between its attempts, so how often it tries, and whether it tries at
    all, is decided by the schedule.  Keystore.v uses the replacement without
    options; here are the options and the builds for Windows and AIX. *)
From S2P Require Import Prelude GoStrings.

Open Scope string_scope.
Open Scope list_scope.
Open Scope Z_scope.

Inductive ferr :=
| NotExist
| IOFailure
| Erename (src dst : string) (after : Z) (e : ferr)
| Enoid (what : string).

Record fsys := mkFsys {
  files : gmap string string;
  clock : Z;
  sched : list (Z * bool)       (** exhausted: calls work at once *)
}.

Abbreviation FM := (SE fsys ferr).

Definition on_files (g : gmap string string → gmap string string) (w : fsys) : fsys :=
  mkFsys (g (files w)) (clock w) (sched w).

(** One call: time passes, and it works or fails. *)
Definition tick : FM bool := λ w,
  match sched w with
  | [] => (w, Ok true)
  | (t, ok) :: l => (mkFsys (files w) (clock w + Z.max 0 t) l, Ok ok)
  end.

Definition Now : FM Z := tick ≫= λ _, w ← get_store; mret (clock w).

(** [time.Sleep]: at least [d]. *)
Definition Sleep (d : Z) : FM unit :=
  tick ≫= λ _, modify (λ w, mkFsys (files w) (clock w + Z.max 0 d) (sched w)).

Definition os_Rename (src dst : string) : FM unit :=
  ok ← tick;
  if negb ok then fail IOFailure
  else
    w ← get_store;
    match files w !! src with
    | None => fail NotExist
    | Some c => modify (on_files (λ d, <[dst := c]> (delete src d)))
    end.

Definition os_Remove (p : string) : FM unit :=
  ok ← tick;
  if negb ok then fail IOFailure
  else
    w ← get_store;
    match files w !! p with None => fail NotExist | Some _ => modify (on_files (delete p)) end.

(** An ignored error. *)
Definition ignore (c : FM unit) : FM unit := attempt c ≫= λ _, mret tt.

(** ** helper_common.go *)
Record rotateOpts := mkOpts { renameRetryDuration : Z; renameRetryInterval : Z }.

Definition RotateOpt : Type := rotateOpts → rotateOpts.

Definition WithRenameRetries (duration interval : Z) : RotateOpt := λ _, mkOpts duration interval.

(** The loop: [err] is the error of the last attempt. *)
Fixpoint rename_loop (fuel : nat) (src dst : string) (o : rotateOpts) (start : Z) (err : option ferr) : FM unit :=
  match fuel with
  | O => lift OutOfFuel
  | S fuel =>
      now ← Now;
      if now - start <? renameRetryDuration o then
        r ← attempt (os_Rename src dst);
        match r with
        | inl _ => mret tt
        | inr e => Sleep (renameRetryInterval o) ≫= λ _, rename_loop fuel src dst o start (Some e)
        end
      else
        match err with
        | Some e => fail (Erename src dst (renameRetryDuration o) e)
        | None => mret tt
        end
  end.

Definition retries (o : rotateOpts) : bool :=
  negb ((renameRetryDuration o =? 0) || (renameRetryInterval o =? 0)).

Definition rename (fuel : nat) (src dst : string) (o : rotateOpts) : FM unit :=
  if negb (retries o) then os_Rename src dst
  else start ← Now; rename_loop fuel src dst o start None.

(** ** The builds *)
Inductive goos := Windows | Aix | Other.

#[global] Instance goos_eq_dec : EqDecision goos.
Proof. solve_decision. Defined.

Definition windowsRenameRetryInterval : Z := 50 * 1000000.
Definition windowsRenameRetryDuration : Z := 2 * 1000000000.

Definition apply_opts (o : rotateOpts) (opts : list RotateOpt) : rotateOpts := foldl (λ o f, f o) o opts.

(** helper_windows.go: the directory is closed after the sync, and the errors of
    both count. *)
Definition SyncParent_windows : FM unit :=
  opened ← tick;
  if negb opened then mret tt
  else
    synced ← tick;
    if negb synced then fail IOFailure
    else closed ← tick; if negb closed then fail IOFailure else mret tt.

(** helper_other.go, helper_aix.go: the directory is closed in a deferred call. *)
Definition SyncParent_unix : FM unit :=
  opened ← tick;
  if negb opened then mret tt
  else
    synced ← tick;
    tick ≫= λ _, if negb synced then fail IOFailure else mret tt.

Definition old_path (path : string) : string := path +:+ ".old".

Definition SafeFileRotate_windows (fuel : nat) (path tempfile : string) (opts : list RotateOpt) : FM unit :=
  let options := apply_opts (mkOpts windowsRenameRetryDuration windowsRenameRetryInterval) opts in
  let old := old_path path in
  ignore (os_Remove old) ≫= λ _,
  ignore (os_Rename path old) ≫= λ _,
  rename fuel tempfile path options ≫= λ _,
  ignore (os_Remove old) ≫= λ _,
  SyncParent_windows.

Definition SafeFileRotate_unix (fuel : nat) (path tempfile : string) (opts : list RotateOpt) : FM unit :=
  let options := apply_opts (mkOpts 0 0) opts in
  rename fuel tempfile path options ≫= λ _, SyncParent_unix.

Definition SafeFileRotate (os : goos) (fuel : nat) (path tempfile : string) (opts : list RotateOpt) : FM unit :=
  match os with
  | Windows => SafeFileRotate_windows fuel path tempfile opts
  | Aix | Other => SafeFileRotate_unix fuel path tempfile opts
  end.

(** The options the build starts with, and those a call ends up with. *)
Definition default_opts (os : goos) : rotateOpts :=
  match os with Windows => mkOpts windowsRenameRetryDuration windowsRenameRetryInterval | _ => mkOpts 0 0 end.
Definition final_opts (os : goos) (opts : list RotateOpt) : rotateOpts := apply_opts (default_opts os) opts.

(** ** fileinfo.go *)
Record fileInfo := mkInfo { info_size : Z; info_mode : Z; info_uid : option Z; info_gid : option Z }.

Definition UID (f : fileInfo) : Z * option ferr :=
  match info_uid f with None => (-1, Some (Enoid "uid")) | Some u => (u, None) end.
Definition GID (f : fileInfo) : Z * option ferr :=
  match info_gid f with None => (-1, Some (Enoid "gid")) | Some g => (g, None) end.

(** What [os.FileInfo] gives; [sys] is the owner and the group where [Sys()] is a
    [syscall.Stat_t]. *)
Record osInfo := mkOsInfo { oi_size : Z; oi_mode : Z; oi_sys : option (Z * Z) }.

(** fileinfo_unix.go *)
Definition wrap_unix (info : osInfo) : res ferr fileInfo :=
  match oi_sys info with
  | None => Err (Enoid "uid/gid")
  | Some (uid, gid) => Ok (mkInfo (oi_size info) (oi_mode info) (Some uid) (Some gid))
  end.

(** fileinfo_other.go *)
Definition wrap_other (info : osInfo) : res ferr fileInfo :=
  Ok (mkInfo (oi_size info) (oi_mode info) None None).

Definition stat (unix : bool) (name : string) (statFunc : string → res ferr osInfo) : res ferr fileInfo :=
  info ← statFunc name; if unix then wrap_unix info else wrap_other info.

(** ** Facts *)

(** Time only passes, and the calls to come are fewer. *)
Definition later (w w' : fsys) : Prop := clock w ≤ clock w' ∧ ∀ x, x ∈ sched w' → x ∈ sched w.

#[global] Instance later_preorder : PreOrder later.
Proof.
  split; [by intros w|]. intros w1 w2 w3 [H1 H2] [H3 H4]. split; [lia|auto].
Qed.

(** No call takes as long as [d]. *)
Definition prompt (d : Z) (w : fsys) : Prop := ∀ t ok, (t, ok) ∈ sched w → t < d.

Lemma prompt_later d w w' : later w w' → prompt d w → prompt d w'.
Proof. intros [_ Hs] Hp t ok Hin. by apply (Hp t ok), Hs. Qed.

(** The file [src] is now [dst]. *)
Definition moved (d : gmap string string) (src dst : string) (d' : gmap string string) : Prop :=
  ∃ c, d !! src = Some c ∧ d' = <[dst := c]> (delete src d).

Lemma tick_run w : ∃ w' ok, tick w = (w', Ok ok) ∧ files w' = files w ∧ later w w' ∧
  (∀ d, 0 < d → prompt d w → clock w' < clock w + d).
Proof.
  unfold tick. destruct (sched w) as [|[t ok] l] eqn:Hs.
  { exists w, true. conjs; [done..|]. intros d Hd _. lia. }
  eexists _, ok. conjs; [reflexivity|done| |].
  - split; simpl; [lia|]. rewrite Hs. intros x Hx. by right.
  - intros d Hd Hp. simpl. assert (t < d) by (apply (Hp t ok); rewrite Hs; by left). lia.
Qed.

Lemma Now_run w : ∃ w', Now w = (w', Ok (clock w')) ∧ files w' = files w ∧ later w w' ∧
  (∀ d, 0 < d → prompt d w → clock w' < clock w + d).
Proof.
  destruct (tick_run w) as (w' & ok & E & Hf & Hl & Hp). exists w'. conjs; [|done..].
  unfold Now. by rewrite (SE_bind_run _ _ _ _ _ E).
Qed.

Lemma Sleep_run d w : ∃ w', Sleep d w = (w', Ok tt) ∧ files w' = files w ∧ later w w' ∧ clock w + d ≤ clock w'.
Proof.
  destruct (tick_run w) as (w' & ok & E & Hf & [Hc Hs] & _). unfold Sleep. rewrite (SE_bind_run _ _ _ _ _ E).
  eexists. conjs; [reflexivity|done| |simpl; lia]. split; simpl; [lia|done].
Qed.

(** A call on the disk works or leaves the disk alone. *)
Lemma os_Rename_run src dst w : ∃ w' r, os_Rename src dst w = (w', r) ∧ later w w' ∧
  ((r = Ok tt ∧ moved (files w) src dst (files w')) ∨ (∃ e, r = Err e) ∧ files w' = files w).
Proof.
  destruct (tick_run w) as (w1 & ok & E & Hf & Hl & _). unfold os_Rename. rewrite (SE_bind_run _ _ _ _ _ E).
  destruct ok; simpl; [|exists w1; eexists; conjs; [done..|]; right; by eauto].
  rewrite SE_bind_get, Hf. destruct (files w !! src) as [c|] eqn:Hc.
  - eexists _, _. conjs; [reflexivity|done|]. left. split; [done|]. exists c. simpl. by rewrite Hf.
  - exists w1. eexists. conjs; [done..|]. right. by eauto.
Qed.

Lemma os_Remove_run p w : ∃ w' r, os_Remove p w = (w', r) ∧ later w w' ∧
  ((r = Ok tt ∧ files w' = delete p (files w)) ∨ (∃ e, r = Err e) ∧ files w' = files w).
Proof.
  destruct (tick_run w) as (w1 & ok & E & Hf & Hl & _). unfold os_Remove. rewrite (SE_bind_run _ _ _ _ _ E).
  destruct ok; simpl; [|exists w1; eexists; conjs; [done..|]; right; by eauto].
  rewrite SE_bind_get, Hf. destruct (files w !! p) as [c|].
  - eexists _, _. conjs; [reflexivity|done|]. left. simpl. by rewrite Hf.
  - exists w1. eexists. conjs; [done..|]. right. by eauto.
Qed.

Lemma ignore_run (c : FM unit) w w' r :
  c w = (w', r) → (r = Ok tt ∨ ∃ e, r = Err e) → ignore c w = (w', Ok tt).
Proof.
  intros E Hr. unfold ignore, mbind, SE_bind, attempt. rewrite E. by destruct Hr as [->|[e ->]].
Qed.

(** *** The rename with retries *)

(** The turns of the loop: the clock advances by the interval in each. *)
Definition turns (o : rotateOpts) : nat := (Z.to_nat (renameRetryDuration o / renameRetryInterval o) + 2)%nat.

Lemma rename_loop_run fuel src dst o start err w :
  0 < renameRetryInterval o → start ≤ clock w → (1 ≤ fuel)%nat →
  renameRetryDuration o - (clock w - start) ≤ (Z.of_nat fuel - 1) * renameRetryInterval o →
  ∃ w' r, rename_loop fuel src dst o start err w = (w', r) ∧ later w w' ∧
    ((r = Ok tt ∧ moved (files w) src dst (files w')) ∨
     ((∃ e, r = Err e) ∧ files w' = files w) ∨
     (r = Ok tt ∧ err = None ∧ files w' = files w ∧
      ¬ (0 < renameRetryDuration o ∧ prompt (renameRetryDuration o) w ∧ clock w = start))).
Proof.
  intros Hi. revert err w. induction fuel as [|fuel IH]; intros err w Hstart Hfuel Hd; [lia|].
  destruct (Now_run w) as (w1 & E1 & Hf1 & Hl1 & Hp1). simpl. rewrite (SE_bind_run _ _ _ _ _ E1).
  destruct (Z.ltb_spec (clock w1 - start) (renameRetryDuration o)) as [Hlt|Hge].
  - destruct (os_Rename_run src dst w1) as (w2 & r2 & E2 & Hl2 & Hr2).
    assert (Hl : later w w2) by (by transitivity w1).
    unfold mbind at 1, SE_bind at 1, attempt. rewrite E2.
    destruct Hr2 as [[-> Hm]|[[e ->] Hf2]].
    { exists w2, (Ok tt). rewrite Hf1 in Hm. by auto. }
    destruct (Sleep_run (renameRetryInterval o) w2) as (w3 & E3 & Hf3 & Hl3 & Hc3).
    rewrite (SE_bind_run _ _ _ _ _ E3). destruct Hl1 as [Hc1 Hs1], Hl2 as [Hc2 Hs2].
    assert (Hfuel' : (1 ≤ fuel)%nat) by (destruct fuel; [nia|lia]).
    destruct (IH (Some e) w3) as (w' & r & E & Hl' & Hr); [lia|done|nia|].
    exists w', r. conjs; [exact E|by transitivity w2; [|transitivity w3]|].
    rewrite Hf3, Hf2, Hf1 in Hr. destruct Hr as [?|[?|(? & ? & _)]]; [by left|by right; left|done].
  - destruct err as [e|].
    + exists w1. eexists. conjs; [reflexivity|done|]. right. left. by eauto.
    + exists w1, (Ok tt). conjs; [done..|]. right. right. conjs; [done..|].
      intros (Hd0 & Hp & Hc). specialize (Hp1 _ Hd0 Hp). lia.
Qed.

Lemma rename_run fuel src dst o w :
  (retries o = true → 0 < renameRetryInterval o ∧ (turns o ≤ fuel)%nat) →
  ∃ w' r, rename fuel src dst o w = (w', r) ∧ later w w' ∧
    ((r = Ok tt ∧ moved (files w) src dst (files w')) ∨
     ((∃ e, r = Err e) ∧ files w' = files w) ∨
     (r = Ok tt ∧ files w' = files w ∧
      ¬ (retries o = true → 0 < renameRetryDuration o ∧ prompt (renameRetryDuration o) w))).
Proof.
  intros Hretry. unfold rename. destruct (retries o) eqn:Hr; simpl.
  - destruct (Hretry eq_refl) as [Hi Hfuel]. unfold turns in Hfuel.
    destruct (Now_run w) as (w1 & E1 & Hf1 & Hl1 & _). rewrite (SE_bind_run _ _ _ _ _ E1).
    assert (Hdiv : renameRetryDuration o < (renameRetryDuration o / renameRetryInterval o + 1) * renameRetryInterval o).
    { pose proof (Z.mod_pos_bound (renameRetryDuration o) (renameRetryInterval o) Hi).
      pose proof (Z.div_mod (renameRetryDuration o) (renameRetryInterval o)). lia. }
    destruct (rename_loop_run fuel src dst o (clock w1) None w1 Hi) as (w' & r & E & Hl & Hres); [lia|lia|nia|].
    exists w', r. conjs; [exact E|by transitivity w1|]. rewrite Hf1 in Hres.
    destruct Hres as [?|[?|(-> & _ & Hf & Hn)]]; [by left|by right; left|]. right. right.
    conjs; [done..|]. intros Hc. destruct (Hc eq_refl) as [Hd Hp]. apply Hn. conjs; [done| |done].
    by apply (prompt_later _ w).
  - destruct (os_Rename_run src dst w) as (w' & r & E & Hl & Hres). exists w', r. conjs; [done..|].
    destruct Hres as [?|?]; [by left|by right; left].
Qed.

Lemma Sync_either os w : ∃ w' r, (if os is Windows then SyncParent_windows else SyncParent_unix) w = (w', r) ∧
  files w' = files w ∧ (r = Ok tt ∨ ∃ e, r = Err e).
Proof.
  destruct (tick_run w) as (w1 & ok1 & E1 & Hf1 & _), (tick_run w1) as (w2 & ok2 & E2 & Hf2 & _),
    (tick_run w2) as (w3 & ok3 & E3 & Hf3 & _).
  assert (H3 : files w3 = files w) by congruence. assert (H2 : files w2 = files w) by congruence.
  destruct os; unfold SyncParent_windows, SyncParent_unix; rewrite (SE_bind_run _ _ _ _ _ E1);
    (destruct ok1; simpl; [|exists w1; by eauto]); rewrite (SE_bind_run _ _ _ _ _ E2);
    [destruct ok2; simpl; [|exists w2; by eauto 6]|..]; rewrite (SE_bind_run _ _ _ _ _ E3);
    exists w3; (try destruct ok2); (try destruct ok3); simpl; by eauto 6.
Qed.

(** *** The replacement *)

(** What a replacement leaves: the new file is in place, or the call failed and
    both contents are still there; on Windows the previous one may have been moved
    aside. *)
Definition replaced (path tmp new : string) (d' : gmap string string) : Prop :=
  d' !! path = Some new ∧ d' !! tmp = None.
Definition kept (os : goos) (path tmp new : string) (d d' : gmap string string) : Prop :=
  d' !! tmp = Some new ∧
  (d' !! path = d !! path ∨ os = Windows ∧ d' !! path = None ∧ d' !! old_path path = d !! path).

Lemma old_path_ne path : old_path path ≠ path.
Proof.
  unfold old_path. intros He%(f_equal String.length). rewrite length_sapp in He. simpl in He. lia.
Qed.

(** [os.Remove(old)] and [os.Rename(path, old)], their errors ignored. *)
Lemma move_aside path tmp w :
  tmp ≠ path → tmp ≠ old_path path →
  ∃ w1, (ignore (os_Remove (old_path path)) ≫= λ _, ignore (os_Rename path (old_path path))) w = (w1, Ok tt) ∧
    later w w1 ∧ (∀ p, p ≠ path → p ≠ old_path path → files w1 !! p = files w !! p) ∧
    (files w1 !! path = files w !! path ∨ files w1 !! path = None ∧ files w1 !! old_path path = files w !! path).
Proof.
  intros Ht Ho. pose proof (old_path_ne path) as Hne.
  destruct (os_Remove_run (old_path path) w) as (w1 & r1 & E1 & Hl1 & Hr1).
  rewrite (SE_bind_run _ _ _ _ _ (ignore_run _ _ _ _ E1 ltac:(destruct Hr1 as [[? _]|[? _]]; auto))).
  destruct (os_Rename_run path (old_path path) w1) as (w2 & r2 & E2 & Hl2 & Hr2).
  rewrite (ignore_run _ _ _ _ E2 ltac:(destruct Hr2 as [[? _]|[? _]]; auto)).
  assert (H1 : ∀ p, p ≠ old_path path → files w1 !! p = files w !! p).
  { intros p Hp. destruct Hr1 as [[_ ->]|[_ ->]]; [by rewrite lookup_delete_ne|done]. }
  exists w2. conjs; [done|by transitivity w1| |].
  - intros p Hp Hq. rewrite <- H1 by done. destruct Hr2 as [[_ (c & _ & ->)]|[_ ->]]; [|done].
    by rewrite lookup_insert_ne, lookup_delete_ne.
  - destruct Hr2 as [[_ (c & Hc & ->)]|[_ ->]]; [right|left; by apply H1].
    rewrite lookup_insert_ne, lookup_delete_eq, lookup_insert_eq by done. by rewrite <- Hc, H1.
Qed.

(** The rename and what follows it, from any later state with the temporary file. *)
Lemma rename_then os fuel path tmp new o (cleanup : FM unit) w :
  tmp ≠ path → tmp ≠ old_path path → files w !! tmp = Some new →
  (retries o = true → 0 < renameRetryInterval o ∧ 0 < renameRetryDuration o ∧
     prompt (renameRetryDuration o) w ∧ (turns o ≤ fuel)%nat) →
  (∀ w, ∃ w' r, cleanup w = (w', r) ∧ (r = Ok tt ∨ ∃ e, r = Err e) ∧
     (∀ p, (os = Windows → p ≠ old_path path) → files w' !! p = files w !! p)) →
  ∃ w' r, (rename fuel tmp path o ≫= λ _, cleanup) w = (w', r) ∧
    (∀ p, p ≠ path → p ≠ tmp → (os = Windows → p ≠ old_path path) → files w' !! p = files w !! p) ∧
    ((r = Ok tt ∨ ∃ e, r = Err e) ∧ replaced path tmp new (files w') ∨ (∃ e, r = Err e) ∧ files w' = files w).
Proof.
  intros Ht Ho Hnew Hretry Hclean. pose proof (old_path_ne path) as Hne.
  destruct (rename_run fuel tmp path o w) as (w2 & r & E & Hl2 & Hr).
  { intros Hy. by destruct (Hretry Hy) as (? & _ & _ & ?). }
  destruct Hr as [[-> (c & Hc & Hf)]|[[[e ->] Hf]|(_ & _ & [])]].
  - rewrite (SE_bind_run _ _ _ _ _ E). destruct (Hclean w2) as (w3 & r3 & E3 & Hr3 & Hf3).
    assert (c = new) as -> by congruence. exists w3, r3. conjs; [done| |].
    + intros p Hp Hq Hw. rewrite Hf3, Hf by done. by rewrite lookup_insert_ne, lookup_delete_ne.
    + left. split; [done|]. split; rewrite Hf3, Hf by done; [by rewrite lookup_insert_eq|].
      by rewrite lookup_insert_ne, lookup_delete_eq.
  - exists w2. eexists. conjs; [unfold mbind, SE_bind; by rewrite E|by rewrite Hf|]. right. by eauto.
  - intros Hy. by destruct (Hretry Hy) as (_ & ? & ? & _).
Qed.

Lemma unix_cleanup os path w : os ≠ Windows → ∃ w' r, SyncParent_unix w = (w', r) ∧ (r = Ok tt ∨ ∃ e, r = Err e) ∧
  (∀ p, (os = Windows → p ≠ old_path path) → files w' !! p = files w !! p).
Proof.
  intros _. destruct (Sync_either Aix w) as (w' & r & E & Hf & Hr). exists w', r. by rewrite Hf.
Qed.

Lemma windows_cleanup path w :
  ∃ w' r, (ignore (os_Remove (old_path path)) ≫= λ _, SyncParent_windows) w = (w', r) ∧
    (r = Ok tt ∨ ∃ e, r = Err e) ∧
    (∀ p, (Windows = Windows → p ≠ old_path path) → files w' !! p = files w !! p).
Proof.
  destruct (os_Remove_run (old_path path) w) as (w1 & r1 & E1 & _ & Hr1).
  rewrite (SE_bind_run _ _ _ _ _ (ignore_run _ _ _ _ E1 ltac:(destruct Hr1 as [[? _]|[? _]]; auto))).
  destruct (Sync_either Windows w1) as (w2 & r2 & E2 & Hf2 & Hr2). exists w2, r2. conjs; [done..|].
  intros p Hp. rewrite Hf2. destruct Hr1 as [[_ ->]|[_ ->]]; [|done]. rewrite lookup_delete_ne; [done|].
  by apply not_eq_sym, Hp.
Qed.

(** C20: Whatever calls fail, replacing a file returns, and loses nothing: the new
    contents are in place, or the call reports an error and the temporary file and
    the previous contents are still there, on Windows perhaps under the name with
    .old; no other file is touched. With retries this needs a positive interval and
    that no single call takes as long as the time allowed for the retries. *)
Theorem SafeFileRotate_keeps_data (os : goos) (fuel : nat) (path tmp new : string) (opts : list RotateOpt) (w : fsys) :
  let o := final_opts os opts in
  files w !! tmp = Some new → tmp ≠ path → tmp ≠ old_path path →
  (retries o = true → 0 < renameRetryInterval o ∧ 0 < renameRetryDuration o ∧
     prompt (renameRetryDuration o) w ∧ (turns o ≤ fuel)%nat) →
  ∃ w' r, SafeFileRotate os fuel path tmp opts w = (w', r) ∧
    (∀ p, p ≠ path → p ≠ tmp → (os = Windows → p ≠ old_path path) → files w' !! p = files w !! p) ∧
    ((r = Ok tt ∨ ∃ e, r = Err e) ∧ replaced path tmp new (files w') ∨
     (∃ e, r = Err e) ∧ kept os path tmp new (files w) (files w')).
Proof.
  intros o Hnew Ht Ho Hretry. destruct (decide (os = Windows)) as [->|Hw].
  - destruct (move_aside path tmp w Ht Ho) as (w1 & E1 & Hl1 & Hoth & Hpath).
    destruct (rename_then Windows fuel path tmp new o (ignore (os_Remove (old_path path)) ≫= λ _, SyncParent_windows) w1 Ht Ho)
      as (w' & r & E & Hf & Hr); [by rewrite Hoth| |apply windows_cleanup|].
    { intros Hy. destruct (Hretry Hy) as (? & ? & ? & ?). conjs; [done..| |done]. by apply (prompt_later _ w). }
    exists w', r. conjs.
    + cbv zeta in E1 |- *. unfold SafeFileRotate, SafeFileRotate_windows. fold (final_opts Windows opts).
      revert E1 E. unfold mbind, SE_bind. intros E1 E.
      destruct (ignore (os_Remove (old_path path)) w) as [wa [[]|?|?|]]; try done. rewrite E1. exact E.
    + intros p Hp Hq Hx. rewrite Hf by done. apply Hoth; [done|by apply Hx].
    + destruct Hr as [?|[? Hsame]]; [by left|]. right. split; [done|]. unfold kept. rewrite Hsame.
      split; [by rewrite Hoth|]. destruct Hpath as [?|[? ?]]; [by left|by right].
  - destruct (rename_then os fuel path tmp new o SyncParent_unix w Ht Ho Hnew Hretry) as (w' & r & E & Hf & Hr).
    { intros w1. by apply unix_cleanup. }
    exists w', r. conjs; [destruct os; [done|exact E..]|exact Hf|].
    destruct Hr as [?|[? Hsame]]; [by left|]. right. unfold kept. rewrite Hsame. auto.
Qed.

(** A replacement on Windows whose first rename fails once. *)
Definition busy_disk : fsys :=
  mkFsys {["/a" := "old"; "/a.tmp" := "new"]} 0
    [(10, true); (10, true); (10, true); (10, true); (10, false)].

Lemma SafeFileRotate_keeps_data_witness :
  ∃ w' r, SafeFileRotate Windows 42 "/a" "/a.tmp" [] busy_disk = (w', r) ∧
    (∀ p, p ≠ "/a" → p ≠ "/a.tmp" → (Windows = Windows → p ≠ old_path "/a") → files w' !! p = files busy_disk !! p) ∧
    ((r = Ok tt ∨ ∃ e, r = Err e) ∧ replaced "/a" "/a.tmp" "new" (files w') ∨
     (∃ e, r = Err e) ∧ kept Windows "/a" "/a.tmp" "new" (files busy_disk) (files w')).
Proof.
  apply (SafeFileRotate_keeps_data Windows 42 "/a" "/a.tmp" "new" [] busy_disk).
  - reflexivity.
  - discriminate.
  - discriminate.
  - intros _. split; [reflexivity|]. split; [reflexivity|]. split; [|vm_compute; lia].
    intros t ok Hin. unfold busy_disk in Hin. simpl in Hin.
    rewrite !elem_of_cons in Hin. destruct Hin as [[= -> _]|[[= -> _]|[[= -> _]|[[= -> _]|[[= -> _]|Hin]]]]];
      [reflexivity..|by apply elem_of_nil in Hin].
Defined.

(** The retry puts the file in place and leaves nothing else. *)
Example busy_disk_replaced :
  let '(w', r) := SafeFileRotate Windows 42 "/a" "/a.tmp" [] busy_disk in
  r = Ok tt ∧ files w' = {["/a" := "new"]}.
Proof. split; [vm_compute; reflexivity|]. apply map_eq_iff. intros i. vm_compute. reflexivity. Qed.

(** A rename with retries that is delayed for the whole duration before its first
    attempt makes none and reports success; on Windows the previous file, moved
    aside, is then removed. *)
Theorem paused_replacement_loses_file :
  let w := mkFsys {["/a" := "old"; "/a.tmp" := "new"]} 0
    [(0, true); (0, true); (0, true); (windowsRenameRetryDuration, true)] in
  let '(w', r) := SafeFileRotate Windows 42 "/a" "/a.tmp" [] w in
  r = Ok tt ∧ files w' !! "/a" = None ∧ files w' !! "/a.old" = None ∧ files w' !! "/a.tmp" = Some "new".
Proof. vm_compute. auto. Qed.

(** When the rename fails on Windows the file that was to be replaced is gone from
    its place and is not moved back. *)
Theorem failed_replacement_leaves_no_file :
  let w := mkFsys {["/a" := "old"; "/a.tmp" := "new"]} 0
    [(0, true); (0, true); (0, true); (0, true); (windowsRenameRetryDuration, false)] in
  let '(w', r) := SafeFileRotate Windows 42 "/a" "/a.tmp" [] w in
  (∃ e, r = Err e) ∧ files w' !! "/a" = None ∧ files w' !! "/a.old" = Some "old".
Proof. vm_compute. eauto. Qed.

(** A negative duration reports success without an attempt. *)
Theorem negative_duration_never_renames (fuel : nat) (src dst : string) (d i : Z) (w : fsys) :
  d < 0 → i ≠ 0 → ∃ w', rename (S fuel) src dst (mkOpts d i) w = (w', Ok tt) ∧ files w' = files w.
Proof.
  intros Hd Hi. unfold rename, retries. simpl.
  destruct (Z.eqb_spec d 0) as [|_]; [lia|]. destruct (Z.eqb_spec i 0) as [|_]; [lia|]. simpl.
  destruct (Now_run w) as (w1 & E1 & Hf1 & _). rewrite (SE_bind_run _ _ _ _ _ E1).
  destruct (Now_run w1) as (w2 & E2 & Hf2 & [Hc _] & _). rewrite (SE_bind_run _ _ _ _ _ E2).
  destruct (Z.ltb_spec (clock w2 - clock w1) d); [lia|]. exists w2. by rewrite Hf2, Hf1.
Qed.
