(* ===== verification/MonitoringConfig.v ===== *)
(** * Settings of package [monitoring], removed settings, dialer builders
    (src/monitoring/monitoring.go, src/logp/cfgwarn/removed.go, src/transport/dialer)

    Small clients of other components: the settings monitoring reads from a
    configuration and the functions on the default registry, the search for
    settings that were removed, and the dialers for sockets and pipes. *)
From S2P Require Import Prelude GoStrings GoUtf8 GoBase64 GoNet Monitoring Snapshot Api TlsNames TlsTypes TlsVerify Transport.

From S2P Require Import Config.

Open Scope string_scope.
Open Scope list_scope.
Open Scope Z_scope.

(** ** Functions on the default registry *)
Module default_registry.
Definition VisitMode (fuel : nat) (s : Monitoring.store) (m : Monitoring.Mode) :=
  Snapshot.Visit fuel s m (Some Monitoring.Default).
Definition Visit (fuel : nat) (s : Monitoring.store) := Snapshot.Visit fuel s Monitoring.Full (Some Monitoring.Default).
Definition Get (name : string) := Monitoring.Get Monitoring.Default name.
Definition GetRegistry (name : string) := Monitoring.GetRegistry Monitoring.Default name.
Definition Remove (name : string) := Monitoring.Remove Monitoring.Default name.
Definition Clear := Monitoring.Clear Monitoring.Default.
End default_registry.

Section settings.
Context `{Ucfg}.

(** [cluster_uuid] is [Unpack] into a struct with this one field: its value, empty
    when it is not set. *)
Definition GetClusterUUID (cluster_uuid : C → res string string) (monitoringCfg : option C) : res string string :=
  match monitoringCfg with None => Ok "" | Some c => cluster_uuid c end.

Definition IsEnabled (monitoringCfg : option C) : bool :=
  match monitoringCfg with
  | None => false
  | Some c =>
      if bool_decide (GetFields c = ["cluster_uuid"]) then false else Enabled (Some c)
  end.

(** The loop returns at the first field with the name. *)
Fixpoint enabled_if_listed (c : C) (fields : list string) : bool :=
  match fields with
  | [] => false
  | field :: fields => if String.eqb field "enabled" then Enabled (Some c) else enabled_if_listed c fields
  end.

Definition IsBufferEnabled (monitoringCfg : option C) : bool :=
  match monitoringCfg with
  | None => false
  | Some c => enabled_if_listed c (GetFields c)
  end.

(** ** cfgwarn/removed.go *)
(** [HasField] and [PathOf] of ucfg. *)
Context (HasField : C → string → bool) (PathOf : C → string → string).

(** [current, _ = current.Child(p, -1)]: a failing [Child] gives a nil configuration,
    at which the loop stops. *)
Fixpoint descend (current : option C) (path : list string) : option C :=
  match path with
  | [] => current
  | p :: path =>
      match current with
      | None => None
      | Some c => match Child c p with Ok sub => descend (Some sub) path | _ => None end
      end
  end.

(** [segments[:L-1]] and [segments[L-1]]; [Split] never returns an empty list. *)
Definition checkRemovedSetting (cfg : C) (setting : string) : option string :=
  let segments := Split setting "." in
  match last segments with
  | None => None
  | Some name =>
      match descend (Some cfg) (removelast segments) with
      | None => None
      | Some current =>
          if HasField current name then Some ("setting '" +:+ PathOf current name +:+ "' has been removed") else None
      end
  end.

(** [errors.Join]: the errors in order, none is nil. *)
Definition checkRemovedSettings (cfg : C) (settings : list string) : list string :=
  omap (checkRemovedSetting cfg) settings.

(** ** Facts *)
Lemma enabled_if_listed_spec c fields :
  enabled_if_listed c fields = bool_decide ("enabled" ∈ fields) && Enabled (Some c).
Proof.
  induction fields as [|f fields IH]; [done|]. simpl. destruct (String.eqb_spec f "enabled") as [->|Hne].
  - by rewrite bool_decide_eq_true_2 by by left.
  - rewrite IH. f_equal. apply bool_decide_ext. rewrite elem_of_cons. naive_solver.
Qed.

(** The buffer is on only when the setting is written down, and then monitoring as a
    whole is on as well; a configuration with nothing but the cluster is off. *)
Theorem buffer_needs_monitoring (c : option C) :
  IsBufferEnabled c = true →
  IsEnabled c = true ∧ ∃ cfg, c = Some cfg ∧ "enabled" ∈ GetFields cfg ∧ enabled_field cfg ≠ Ok (Some false).
Proof.
  destruct c as [c|]; [|done]. simpl. rewrite enabled_if_listed_spec.
  intros [Hin%bool_decide_eq_true He]%andb_true_iff. split.
  - rewrite bool_decide_eq_false_2; [done|]. intros Heq. rewrite Heq in Hin.
    by apply list_elem_of_singleton in Hin.
  - exists c. conjs; [done..|]. intros Hf. unfold Enabled in He. by rewrite Hf in He.
Qed.

(** The section a path names. *)
Inductive section_at : C → list string → C → Prop :=
| at_end c : section_at c [] c
| at_child c p sub path d : Child c p = Ok sub → section_at sub path d → section_at c (p :: path) d.

Lemma descend_spec path : ∀ c d, descend (Some c) path = Some d ↔ section_at c path d.
Proof.
  induction path as [|p path IH]; intros c d; simpl.
  - split; [intros [= ->]; constructor|by inversion 1].
  - split.
    + destruct (Child c p) as [sub| | |] eqn:Hc; try done. intros Hd%IH. by econstructor.
    + inversion 1 as [|? ? sub ? ? Hc Hs]; subst. rewrite Hc. by apply IH.
Qed.

(** A setting is reported exactly when the section of its path exists and has the
    field; a part of the path that is missing or not a section hides it. *)
Theorem removed_setting_reported (cfg : C) (path : list string) (name setting : string) :
  Split setting "." = path ++ [name] →
  (is_Some (checkRemovedSetting cfg setting) ↔ ∃ d, section_at cfg path d ∧ HasField d name = true).
Proof.
  intros Hs. unfold checkRemovedSetting. rewrite Hs, last_snoc, removelast_last.
  destruct (descend (Some cfg) path) as [d|] eqn:Hd.
  - apply descend_spec in Hd as Hat. split.
    + destruct (HasField d name) eqn:Hf; [eauto|]. by intros [? ?].
    + intros (d' & Hat'%descend_spec & Hf). rewrite Hd in Hat'. injection Hat' as ->. rewrite Hf. eauto.
  - split; [by intros [? ?]|]. intros (d & Hat%descend_spec & _). congruence.
Qed.
End settings.

(** ** transport/dialer *)
Section dialers.
Context `{NetEnv}.

Inductive builder := DefaultDialerBuilder | UnixDialerBuilder (path : string) | NpipeDialerBuilder (path : string).

Definition builder_String (b : builder) : string :=
  match b with
  | DefaultDialerBuilder => "TCP/UDP"
  | UnixDialerBuilder p => "Unix: " +:+ p
  | NpipeDialerBuilder p => "Npipe: " +:+ p
  end.

Definition NewDefaultDialerBuilder : builder := DefaultDialerBuilder.
Definition NewNpipeDialerBuilder (path : string) : builder := NpipeDialerBuilder path.
Definition NewUnixDialerBuilder (path : string) : builder := UnixDialerBuilder path.

(** dialer_posix.go *)
Definition Make_posix (b : builder) (timeout : Z) : string + Dialer :=
  match b with
  | DefaultDialerBuilder => inr (NetDialer timeout)
  | UnixDialerBuilder p => inr (UnixDialer timeout (TrimSuffix p "/"))
  | NpipeDialerBuilder _ => inl "cannot the URI, named pipes are only supported on Windows"
  end.

(** dialer_windows.go: [DialPipe] is winio's. *)
Definition Make_windows (DialPipe : Z → string → NE Conn) (b : builder) (timeout : Z) : string + Dialer :=
  match b with
  | DefaultDialerBuilder => inr (NetDialer timeout)
  | UnixDialerBuilder _ => inl "cannot use the URI, unix sockets are not supported on Windows, use npipe instead"
  | NpipeDialerBuilder p => inr (λ _ _, DialPipe timeout (TrimSuffix (Api.TransformString p) "/"))
  end.

(** A dialer for a local endpoint goes to its path, whatever address is asked for,
    and exists on one of the systems only. *)
Theorem local_dialers (DialPipe : Z → string → NE Conn) (p : string) (timeout : Z) :
  (∃ dl, Make_posix (UnixDialerBuilder p) timeout = inr dl ∧
     ∀ n a n' a', dl n a = dl n' a') ∧
  (∃ e, Make_windows DialPipe (UnixDialerBuilder p) timeout = inl e) ∧
  (∃ dl, Make_windows DialPipe (NpipeDialerBuilder p) timeout = inr dl ∧ ∀ n a n' a', dl n a = dl n' a') ∧
  (∃ e, Make_posix (NpipeDialerBuilder p) timeout = inl e).
Proof. conjs; eexists; try split; try done. Qed.
End dialers.
