(* ===== verification/DevTools.v ===== *)
(** * dev-tools: calls of the go tool and of git
    (src/dev-tools/mage/gotool/go.go, gotool/modules.go, check.go, benchmark.go)

    The commands the targets build, and what they read from the output of
    commands.  Running a command is a parameter: [sh_Exec] and [sh_Output] of the
    third-party package mage.  The list of changed files is parsed with the
    dissect package of this repository (Dissect.v). *)
From S2P Require Import Prelude GoStrings GoUtf8 Paths Dissect DissectFacts.

Open Scope string_scope.
Open Scope list_scope.
Open Scope Z_scope.

(** ** gotool/go.go: arguments *)
Record Args := mkArgs {
  extra : gmap string string;
  env : gmap string string;
  flags : gmap string (list string);
  pos : list string
}.

(** A nil option is [None]. *)
Definition ArgOpt : Type := option (Args → Args).

Definition Extra (k v : string) (a : Args) : Args := mkArgs (<[k := v]> (extra a)) (env a) (flags a) (pos a).
Definition Val (k : string) (a : Args) : string := default "" (extra a !! k).
Definition Env (k v : string) (a : Args) : Args := mkArgs (extra a) (<[k := v]> (env a)) (flags a) (pos a).
Definition Flag (flag value : string) (a : Args) : Args :=
  mkArgs (extra a) (env a) (<[flag := default [] (flags a !! flag) ++ [value]]> (flags a)) (pos a).
Definition Add (p : string) (a : Args) : Args := mkArgs (extra a) (env a) (flags a) (pos a ++ [p]).

Definition posArg (value : string) : ArgOpt := Some (Add value).
Definition extraArg (k v : string) : ArgOpt := Some (Extra k v).
Definition extraArgIf (k v : string) : ArgOpt := if String.eqb v "" then None else extraArg k v.
Definition envArg (k v : string) : ArgOpt := Some (Env k v).
Definition envArgIf (k v : string) : ArgOpt := if String.eqb v "" then None else envArg k v.
Definition flagArg (flag value : string) : ArgOpt := Some (Flag flag value).
Definition flagArgIf (flag value : string) : ArgOpt := if String.eqb value "" then None else flagArg flag value.
Definition flagBoolIf (flag : string) (b : bool) : ArgOpt := if b then flagArg flag "" else None.

Definition apply_arg (a : Args) (opt : ArgOpt) : Args := match opt with Some f => f a | None => a end.
Definition combine (opts : list ArgOpt) : ArgOpt := Some (λ a, foldl apply_arg a opts).
Definition buildArgs (opts : list ArgOpt) : Args := apply_arg (mkArgs ∅ ∅ ∅ []) (combine opts).

(** The words of one flag. *)
Definition flag_words (k : string) (values : list string) : list string :=
  mjoin ((λ v, if String.eqb v "" then [k] else [k; v]) <$> values).

(** The flags come in the order of an iteration over the map. *)
Definition build `{MapOrder} (a : Args) : list string :=
  mjoin ((λ '(k, values), flag_words k values) <$> map_order (flags a)) ++ pos a.

(** A command: its environment, its program, its arguments. *)
Record command := mkCommand { c_env : gmap string string; c_prog : string; c_args : list string }.

Section gotool.
Context `{MapOrder} (GoCmd : string) (sh_Output : command → res string string).

Definition execGoWith (cmd : string) (args : Args) : command := mkCommand (env args) GoCmd (cmd :: build args).
Definition install_Package (pkg : string) : ArgOpt := posArg pkg.
Definition Vendored : ArgOpt := flagArg "-mod" "vendor".
Definition runGoInstall (opts : list ArgOpt) : command := execGoWith "install" (buildArgs opts).
Definition mod_run (method : string) (opts : list ArgOpt) : command := execGoWith "mod" (buildArgs (posArg method :: opts)).

(** The options of [go test]. *)
Definition WithCoverage (to : string) : ArgOpt := combine [flagArg "-cover" ""; flagArgIf "-test.coverprofile" to].
Definition Short (b : bool) : ArgOpt := flagBoolIf "-test.short" b.
Definition Use (bin : string) : ArgOpt := extraArgIf "use" bin.
Definition OS (os : string) : ArgOpt := envArgIf "GOOS" os.
Definition ARCH (arch : string) : ArgOpt := envArgIf "GOARCH" arch.
Definition Create : ArgOpt := flagArg "-c" "".
Definition Out (path : string) : ArgOpt := flagArg "-o" path.
Definition Package (path : string) : ArgOpt := posArg path.
Definition Verbose : ArgOpt := flagArg "-test.v" "".

(** A test binary that was built before is run with the flags for it. *)
Definition runGoTest (opts : list ArgOpt) : command :=
  let args := buildArgs opts in
  let bin := Val "use" args in
  if negb (String.eqb bin "") then
    let test_flags := filter (λ kv, HasPrefix kv.1 "-test." = true) (flags args) in
    mkCommand (env args) bin (build (mkArgs (extra args) (env args) test_flags (pos args)))
  else execGoWith "test" args.

Definition callGo (e : gmap string string) (cmd : string) (opts : list string) : res string string :=
  sh_Output (mkCommand e GoCmd (cmd :: opts)).

(** ** Lines of an output

    [res := lines[:0]] shares the array of [lines]: the loop reads position [i] and
    writes position [length res] of the same array. *)
Fixpoint compact (todo : nat) (i kept : nat) (arr : list string) : list string :=
  match todo with
  | O => take kept arr
  | S todo =>
      let line := TrimSpace (default "" (arr !! i)) in
      if bool_decide (0 < String.length line)%nat then compact todo (S i) (S kept) (<[kept := line]> arr)
      else compact todo (S i) kept arr
  end.

Definition getLines (out : res string string) : res string (list string) :=
  o ← out; let lines := Split o "010" in Ok (compact (length lines) 0 0 lines).

Definition GetModuleName : res string string :=
  lines ← getLines (callGo ∅ "list" ["-m"]);
  match lines with [l] => Ok l | _ => Err "unexpected number of lines" end.
Definition ListPackages (pkgs : list string) : res string (list string) := getLines (callGo ∅ "list" pkgs).
Definition ListProjectPackages : res string (list string) := ListPackages ["./..."].
Definition ListDeps (pkg : string) : res string (list string) :=
  getLines (callGo ∅ "list" ["-deps"; "-f"; "{{if not .Standard}}{{.ImportPath}}{{end}}"; pkg]).
Definition ListDepsForNotice : res string string := callGo ∅ "list" ["-json"; "-m"; "all"].

Fixpoint deps_locations (lines : list string) (deps : gmap string string) : res string (gmap string string) :=
  match lines with
  | [] => Ok deps
  | l :: lines =>
      match Split l ";" with
      | [path; dir] => deps_locations lines (<[path := dir]> deps)
      | _ => Err "invalid number of parts"
      end
  end.
Definition ListDepsLocation (pkg : string) : res string (gmap string string) :=
  lines ← getLines (callGo ∅ "list" ["-deps"; "-f"; "{{if not .Standard}}{{.ImportPath}};{{.Dir}}{{end}}"; pkg]);
  deps_locations lines ∅.

Definition test_files_template : string :=
  "{{ range .TestGoFiles }}{{ printf " +:+ String "034" "%s\n" +:+ String "034" " . }}{{ end }}" +:+
  "{{ range .XTestGoFiles }}{{ printf " +:+ String "034" "%s\n" +:+ String "034" " . }}{{ end }}".
Definition ListTestFiles (pkg : string) : res string (list string) :=
  getLines (callGo ∅ "list" ["-f"; test_files_template; pkg]).
Definition HasTests (pkg : string) : res string bool :=
  files ← ListTestFiles pkg; Ok (bool_decide (0 < length files)%nat).

Definition listModuleDir (pkg : string) (vendor : bool) : res string string :=
  lines ← getLines (callGo {["GOFLAGS" := ""]} "list"
    (["-m"; "-f"; "{{.Dir}}"] ++ (if vendor then ["-mod=vendor"] else []) ++ [pkg]));
  match lines with [l] => Ok l | _ => Err ("expected 1 line while looking for " +:+ pkg) end.
Definition ListModuleCacheDir (pkg : string) : res string string := listModuleDir pkg false.
Definition ListModuleVendorDir (pkg : string) : res string string := listModuleDir pkg true.
End gotool.

(** ** check.go *)

(** [bufio.Scanner] over lines: a carriage return before the end of a line is
    dropped, an empty last line is none, and a line of [MaxScanTokenSize] bytes ends
    the scan with an error. *)
Definition MaxScanTokenSize : Z := 64 * 1024.

Definition drop_cr (l : string) : string :=
  match rev (String.list_ascii_of_string l) with
  | a :: r => if bool_decide (a = "013"%char) then String.string_of_list_ascii (rev r) else l
  | [] => l
  end.

Definition scan_lines (out : string) : list string :=
  let ls := Split out "010" in
  match last ls with Some "" => removelast ls | _ => ls end.

Definition index_tokenizer : string :=
  ":%{src_mode} %{dst_mode} %{src_sha1} %{dst_sha1} %{status}" +:+ String "009" "%{paths}".

Inductive git_error := Ecommand (e : string) | Edissect (e : dissect_error) | Escan.

Definition changed_path (paths : string) : string :=
  match Split paths "009" with _ :: second :: _ => second | first :: _ => first | [] => "" end.

Fixpoint index_loop (fuel : nat) (d : Dissector) (lines : list string) : res git_error (list string) :=
  match lines with
  | [] => Ok []
  | l :: lines =>
      if MaxScanTokenSize <=? strlen l then Err Escan
      else
        match Dissect fuel d (drop_cr l) with
        | Ok m => modified ← index_loop fuel d lines; Ok (changed_path (default "" (m !! "paths")) :: modified)
        | Err e => Err (Edissect e)
        | Panic p => Panic p
        | OutOfFuel => OutOfFuel
        end
  end.

(** [refreshed] and [out] are the answers of the two calls of git. *)
Definition GitDiffIndex `{SliceSort} (fuel : nat) (refreshed : res string unit) (out : res string string)
    : res git_error (list string) :=
  match refreshed, out with
  | Ok _, Ok out =>
      match New index_tokenizer with
      | Ok d => index_loop fuel d (scan_lines out)
      | Err e => Err (Edissect e)
      | Panic p => Panic p
      | OutOfFuel => OutOfFuel
      end
  | Err e, _ => Err (Ecommand e)
  | _, Err e => Err (Ecommand e)
  | _, _ => OutOfFuel
  end.

Inductive check_error :=
  | Ediff_index (e : git_error)      (* failed to diff the git index *)
  | Egit_diff (e : string)           (* failed to run git diff *)
  | Enot_up_to_date (changes : list string).

(** A verbose run prints the difference first; [diff] is the error of that command. *)
Definition CheckNoChanges `{SliceSort} (fuel : nat) (refreshed : res string unit) (out : res string string)
    (verbose : bool) (diff : option string) : res check_error unit :=
  match GitDiffIndex fuel refreshed out with
  | Ok [] => Ok tt
  | Ok changes =>
      match diff with
      | Some e => if verbose then Err (Egit_diff e) else Err (Enot_up_to_date changes)
      | None => Err (Enot_up_to_date changes)
      end
  | Err e => Err (Ediff_index e)
  | Panic p => Panic p
  | OutOfFuel => OutOfFuel
  end.

(** ** benchmark.go *)
Inductive bench_error :=
  | Ecount (e : num_error) | Epackages (e : string) | Ebase | Ebench (exit_error : bool) (err : option string).

(** The command with its output copied to a file; [create] is the error of creating
    the file. *)
Definition runCommand (create : string → option string) (exec : command → option string) (c : command)
    (outputFile : string) : option string :=
  if String.eqb outputFile "" then exec c
  else
    match create outputFile with
    | Some e => Some ("failed to create " +:+ c_prog c +:+ " output file: " +:+ e)
    | None => exec c
    end.

(** The switch after the command, on the value [goTestErr] has by then; [as_exit] tells
    whether [errors.As] finds an exit error in the result. *)
Definition report_failure (goTestErr : option string) (as_exit : option string → bool) (err : option string)
    : res bench_error unit :=
  match goTestErr with
  | None => Ok tt
  | Some _ => Err (Ebench (as_exit err) err)
  end.

Definition bench_args (benchmarkCount : Z) (packages : list string) : list string :=
  Split ("test -count=" +:+ Itoa benchmarkCount +:+ " -bench=Bench -run=Bench") " " ++
    ((λ p, filepath_Join [p; "/..."]) <$> packages).

Section benchmark.
Context (create : string → option string) (exec : command → option string) (as_exit : option string → bool).

(** [goTestErr] is declared without a value and nothing is assigned to it before the
    switch.  [count] is BENCH_COUNT. *)
Definition Benchmark_Run (packages : res string (list string)) (count outputFile : string) : res bench_error unit :=
  match (if String.eqb count "" then (8, None) else Atoi count), packages with
  | (_, Some e), _ => Err (Ecount e)
  | (n, None), Ok pkgs =>
      report_failure None as_exit (runCommand create exec (mkCommand ∅ "go" (bench_args n pkgs)) outputFile)
  | _, Err e => Err (Epackages e)
  | _, Panic p => Panic p
  | _, OutOfFuel => OutOfFuel
  end.

Definition Benchmark_Diff (baseFile nextFile outputFile : string) : res bench_error unit :=
  if String.eqb baseFile "" then Err Ebase
  else
    report_failure None as_exit
      (runCommand create exec (mkCommand ∅ "benchstat" (baseFile :: (if String.eqb nextFile "" then [] else [nextFile])))
         outputFile).
End benchmark.

(** ** Facts *)

(** *** Lines *)
Lemma compact_spec todo : ∀ i kept arr,
  length arr = (i + todo)%nat → (kept ≤ i)%nat →
  compact todo i kept arr = take kept arr ++ filter (λ l, l ≠ "") (TrimSpace <$> drop i arr).
Proof.
  induction todo as [|todo IH]; intros i kept arr Hlen Hk; simpl.
  { rewrite drop_ge by lia. by rewrite app_nil_r. }
  destruct (lookup_lt_is_Some_2 arr i) as [x Hx]; [lia|]. rewrite Hx. simpl.
  rewrite (drop_S arr x i Hx). simpl. rewrite filter_cons.
  case_bool_decide as Hl.
  - rewrite decide_True by (intros He; rewrite He in Hl; simpl in Hl; lia). rewrite IH by (rewrite ?length_insert; lia).
    rewrite drop_insert_lt by lia. rewrite (take_S_r _ kept (TrimSpace x)) by (apply list_lookup_insert_eq; lia).
    rewrite take_insert_ge by lia. by rewrite <- app_assoc.
  - assert (TrimSpace x = "") as Hnil by (destruct (TrimSpace x); [done|simpl in Hl; lia]).
    rewrite decide_False by (intros Hne; by apply Hne). by rewrite IH by lia.
Qed.

(** The loop that reuses the array of the lines returns the lines without the
    spaces around them, in order, except for the empty ones. *)
Theorem getLines_in_place (out : string) :
  getLines (Ok out) = Ok (filter (λ l, l ≠ "") (TrimSpace <$> Split out "010")).
Proof. unfold getLines. cbn [mbind res_bind]. by rewrite compact_spec by lia. Qed.

(** *** Test binaries *)
Lemma flag_words_from k values w : w ∈ flag_words k values → w = k ∨ w ∈ values.
Proof.
  unfold flag_words. intros (ws & Hw & Hin)%list_elem_of_join. apply list_elem_of_fmap in Hin as (v & -> & Hv).
  destruct (String.eqb v ""); set_solver.
Qed.

(** A test binary is only given flags for it, their values and the arguments of the
    call, which come last and in order. *)
Theorem test_binary_flags `{MapOrder} (go : string) (opts : list ArgOpt) :
  let args := buildArgs opts in
  Val "use" args ≠ "" →
  ∃ fs, c_args (runGoTest go opts) = fs ++ pos args ∧
    ∀ w, w ∈ fs → ∃ k values, flags args !! k = Some values ∧ HasPrefix k "-test." = true ∧ (w = k ∨ w ∈ values).
Proof.
  intros args Huse. unfold runGoTest. fold args. destruct (String.eqb_spec (Val "use" args) ""); [done|]. simpl.
  eexists. split; [reflexivity|]. intros w (ws & Hw & Hin)%list_elem_of_join.
  apply list_elem_of_fmap in Hin as ([k values] & -> & Hkv). rewrite map_order_perm in Hkv.
  apply elem_of_map_to_list, map_lookup_filter_Some in Hkv as [Hlook Hpre]. simpl in Hpre.
  exists k, values. conjs; [done..|]. by apply flag_words_from.
Qed.

(** *** Changed files *)
Record change := mkChange {
  src_mode : string; dst_mode : string; src_sha1 : string; dst_sha1 : string; status : string;
  path : string; renamed : option string
}.

Definition change_paths (c : change) : string :=
  path c +:+ match renamed c with Some p => String "009" p | None => "" end.

(** A line of git diff-index. *)
Definition change_line (c : change) : string :=
  ":" +:+ compose [src_mode c; dst_mode c; src_sha1 c; dst_sha1 c; status c]
    [multiByte " " false; multiByte " " false; multiByte " " false; multiByte " " false; multiByte (String "009" "") false]
    (change_paths c).

Definition newest_path (c : change) : string := default (path c) (renamed c).

Record change_ok (c : change) : Prop := {
  ok_words : Forall (λ w, lacks " " w = true) [src_mode c; dst_mode c; src_sha1 c; dst_sha1 c];
  ok_status : lacks "009" (status c) = true;
  ok_path : lacks "009" (path c) = true;
  ok_renamed : ∀ p, renamed c = Some p → lacks "009" p = true;
  ok_line : lacks "010" (change_line c) = true ∧ lacks "013" (change_line c) = true;
  ok_length : strlen (change_line c) < MaxScanTokenSize
}.

Definition git_fields : list field :=
  imap (λ i k, normalField (mkBase i k 0 0 false "")) ["src_mode"; "dst_mode"; "src_sha1"; "dst_sha1"; "status"; "paths"].

Definition git_parser `{SliceSort} : parser :=
  let sorted := sort_slice (λ f g, Ordinal f <? Ordinal g) git_fields in
  mkParser [multiByte ":" false; multiByte " " false; multiByte " " false; multiByte " " false; multiByte " " false;
            multiByte (String "009" "") false]
    sorted (index_fields 0 sorted ∅) (filterFieldsWith sorted (λ f, negb (IsSaveable f))).

Lemma filter_none {A} (P : A → Prop) `{∀ x, Decision (P x)} (l : list A) : (∀ x, x ∈ l → ¬ P x) → filter P l = [].
Proof.
  intros Hn. destruct (filter P l) as [|x r] eqn:Hf; [done|]. exfalso.
  assert (Hin : x ∈ filter P l) by (rewrite Hf; by left). apply list_elem_of_filter in Hin as [? ?]. by apply (Hn x).
Qed.

Lemma git_fields_sorted `{SliceSort} f : f ∈ fields git_parser ↔ f ∈ git_fields.
Proof. unfold git_parser. simpl. by rewrite sort_slice_perm. Qed.

Lemma git_field_plain f : f ∈ git_fields →
  is_normal f ∧ IsGreedy f = false ∧ IsFixedLength f = false ∧ IsSaveable f = true ∧ isIndirectField f = false.
Proof. unfold git_fields. simpl. set_solver. Qed.

Lemma git_dissector `{SliceSort} : New index_tokenizer = Ok (mkDissector index_tokenizer git_parser None).
Proof.
  unfold New. assert (Hp : newParser index_tokenizer = Ok git_parser) by reflexivity.
  rewrite Hp. cbn [mbind res_bind]. unfold validate.
  assert (Hnil : filterFieldsWith (fields git_parser) isIndirectField = []); [|by rewrite Hnil].
  apply filter_none. intros f Hf%git_fields_sorted Hi. pose proof (git_field_plain f Hf) as (_ & _ & _ & _ & Hn). congruence.
Qed.

Lemma git_parser_plain `{SliceSort} : plain_parser git_parser.
Proof.
  split; [|split].
  - apply Forall_forall. intros f Hf%git_fields_sorted. by pose proof (git_field_plain f Hf) as (? & ? & ? & _).
  - unfold git_parser. cbn [fields]. rewrite sort_slice_perm. apply (bool_decide_unpack _). vm_compute. exact I.
  - unfold git_parser. cbn [referenceFields]. apply filter_none. intros f Hf Hs. rewrite sort_slice_perm in Hf.
    pose proof (git_field_plain f Hf) as (_ & _ & _ & Hn & _). by rewrite Hn in Hs.
Qed.

Lemma drop_cr_lacks l : lacks "013" l = true → drop_cr l = l.
Proof.
  intros Hl. unfold drop_cr. destruct (rev (String.list_ascii_of_string l)) as [|a r] eqn:Hr; [done|].
  case_bool_decide as Ha; [|done]. exfalso. subst a.
  assert (Hs : l = String.string_of_list_ascii (rev r ++ ["013"%char])).
  { rewrite <- (String.string_of_list_ascii_of_string l), <- (rev_involutive (String.list_ascii_of_string l)), Hr. done. }
  clear Hr. revert l Hl Hs. induction (rev r) as [|b q IH]; intros l Hl Hs; simpl in Hs; subst l; simpl in Hl.
  - done.
  - apply andb_true_iff in Hl as [_ Hl]. by eapply IH.
Qed.

Lemma git_line_unambiguous c : change_ok c →
  unambiguous [src_mode c; dst_mode c; src_sha1 c; dst_sha1 c; status c]
    [multiByte " " false; multiByte " " false; multiByte " " false; multiByte " " false; multiByte (String "009" "") false]
    (change_paths c).
Proof.
  intros [Hw Hs _ _ _ _]. repeat (apply Forall_cons in Hw as [? Hw]).
  cbn [unambiguous compose Delimiter]. repeat split; by apply index_nat_lacks.
Qed.

Lemma changed_path_newest c : change_ok c → changed_path (change_paths c) = newest_path c.
Proof.
  intros [_ _ Hp Hr _ _]. unfold changed_path, change_paths, newest_path. destruct (renamed c) as [q|]; simpl.
  - by rewrite Split_app_sep, Split_lacks by auto.
  - by rewrite sapp_nil_r, Split_lacks.
Qed.

Lemma git_line_dissects `{SliceSort} fuel c : change_ok c →
  ∃ m, Dissect fuel (mkDissector index_tokenizer git_parser None) (change_line c) = Ok m ∧
    m !! "paths" = Some (change_paths c).
Proof.
  intros Hc.
  destruct (Dissect_composed index_tokenizer (mkDissector index_tokenizer git_parser None) (multiByte ":" false)
    [multiByte " " false; multiByte " " false; multiByte " " false; multiByte " " false; multiByte (String "009" "") false]
    [src_mode c; dst_mode c; src_sha1 c; dst_sha1 c; status c] (change_paths c) fuel) as (m & Hm & Hin & _);
    [exact git_dissector|exact git_parser_plain|done|done|by apply git_line_unambiguous|done|].
  exists m. split; [exact Hm|].
  apply (Hin (normalField (mkBase 5 "paths" 0 0 false ""))).
  apply git_fields_sorted. unfold git_fields. simpl. set_solver.
Qed.

Lemma index_loop_changes `{SliceSort} fuel cs : Forall change_ok cs →
  index_loop fuel (mkDissector index_tokenizer git_parser None) (change_line <$> cs) = Ok (newest_path <$> cs).
Proof.
  induction 1 as [|c cs Hc _ IH]; [done|]. cbn [fmap list_fmap index_loop].
  rewrite (proj2 (Z.leb_gt _ _) (ok_length c Hc)), drop_cr_lacks by apply (ok_line c Hc).
  destruct (git_line_dissects fuel c Hc) as (m & -> & ->). rewrite IH. cbn [mbind res_bind]. simpl default.
  by rewrite changed_path_newest.
Qed.

Lemma scan_lines_Join ls : Forall (λ l, lacks "010" l = true ∧ l ≠ "") ls → scan_lines (Join ls (String "010" "")) = ls.
Proof.
  intros Hl. destruct ls as [|l ls]; [done|]. unfold scan_lines. rewrite Split_Join; [|done|].
  - destruct (last (l :: ls)) as [x|] eqn:Hx; [|done]. apply last_Some in Hx as [pre Hpre].
    assert (x ≠ "") by (rewrite Hpre, Forall_app, Forall_singleton in Hl; apply Hl). by destruct x.
  - eapply Forall_impl; [exact Hl|]. by intros ? [].
Qed.

(** The paths of the changed files are read from the index as git prints it, the new
    path where a file was renamed. *)
Theorem GitDiffIndex_lists `{SliceSort} (fuel : nat) (cs : list change) :
  Forall change_ok cs →
  GitDiffIndex fuel (Ok tt) (Ok (Join (change_line <$> cs) (String "010" ""))) = Ok (newest_path <$> cs).
Proof.
  intros Hcs. unfold GitDiffIndex. rewrite git_dissector, scan_lines_Join; [by apply index_loop_changes|].
  apply Forall_fmap. eapply Forall_impl; [exact Hcs|]. intros c Hc. split; [apply (ok_line c Hc)|done].
Qed.

(** *** Benchmarks *)
(** The targets end without an error whatever the command they ran returns, and even
    when its output file could not be created. *)
Theorem Benchmark_ignores_failure create exec as_exit (pkgs : list string) (base next out : string) :
  Benchmark_Run create exec as_exit (Ok pkgs) "" out = Ok tt ∧
  (base ≠ "" → Benchmark_Diff create exec as_exit base next out = Ok tt).
Proof. split; [done|]. intros Hb%String.eqb_neq. unfold Benchmark_Diff. by rewrite Hb. Qed.

Definition two_changes : list change :=
  [mkChange "100644" "100644" "a1b2" "0000" "M" "go.mod" None;
   mkChange "100644" "100644" "a1b2" "a1b2" "R100" "docs/old name.md" (Some "docs/new.md")].

Lemma GitDiffIndex_lists_witness :
  Forall change_ok two_changes ∧
  GitDiffIndex 0 (Ok tt) (Ok (Join (change_line <$> two_changes) (String "010" ""))) = Ok ["go.mod"; "docs/new.md"].
Proof.
  assert (Hok : Forall change_ok two_changes).
  { repeat constructor; vm_compute; try done; by intros p [= <-]. }
  split; [exact Hok|]. apply (GitDiffIndex_lists 0 two_changes Hok).
Defined.
