(* ===== verification/Console.v ===== *)
(** * testing, iobuf and upgrade/details
    (src/testing/console.go, src/testing/null.go, src/iobuf/iobuf.go,
    src/upgrade/details/details.go)

    The drivers the self-tests of clients report to.  A test is the sequence of the
    calls it makes on its driver, a test within it included; the drivers tell it
    nothing, so its calls do not depend on them.  Writes are recorded with their
    colour: the escape sequences are those of a third-party package. *)
From Stdlib Require Import SpecFloat.
From S2P Require Import Prelude GoStrings.

Open Scope string_scope.
Open Scope list_scope.
Open Scope Z_scope.

(** ** testing.go: the calls of [Driver] *)
Inductive call :=
  | Run (name : string) (body : list call)
  | Info (field value : string)
  | Warn (field reason : string)
  | Error (field : string) (err : option string)
  | Fatal (field : string) (err : option string)
  | Result (data : string).

(** ** console.go *)
Inductive color := FgGreen | FgYellow | FgRed.
Inductive write := Plain (s : string) | Colored (c : color) (s : string).

Record ConsoleDriver := mkDriver { level : nat; reported : bool; result : string }.

Definition NewConsoleDriver : ConsoleDriver := mkDriver 0 true "".

Fixpoint Repeat (s : string) (n : nat) : string := match n with O => "" | S n => s +:+ Repeat s n end.

Definition newline : string := String "010" "".

(** A call gives the driver after it and what it wrote. *)
Definition DM : Type := ConsoleDriver * list write.

Definition printf_ (d : ConsoleDriver) (s : string) : list write := repeat (Plain "  ") (level d) ++ [Plain s].

Definition indent (d : ConsoleDriver) (data : string) : string :=
  foldl (λ res line, res +:+ Repeat " " (level d + 2) +:+ line +:+ newline) newline (Split data "010").

(** The start of a report: the line of the test is ended if nothing was reported yet. *)
Definition begin_report (d : ConsoleDriver) : list write := if reported d then [] else [Plain newline].
Definition set_reported (d : ConsoleDriver) : ConsoleDriver := mkDriver (level d) true (result d).

Definition report (d : ConsoleDriver) (ws : list write) : DM := (set_reported d, begin_report d ++ ws).

Definition driver_Info (d : ConsoleDriver) (field value : string) : DM :=
  report d (printf_ d (field +:+ ": " +:+ value +:+ newline)).
Definition driver_Warn (d : ConsoleDriver) (field reason : string) : DM :=
  report d (printf_ d (field +:+ "... ") ++ [Colored FgYellow "WARN "; Plain (reason +:+ newline)]).
Definition driver_ok (d : ConsoleDriver) (field : string) : DM :=
  report d (printf_ d (field +:+ "... ") ++ [Colored FgGreen ("OK" +:+ newline)]).
Definition driver_error (d : ConsoleDriver) (field err : string) : DM :=
  report d (printf_ d (field +:+ "... ") ++ [Colored FgRed "ERROR "; Plain (err +:+ newline)]).
Definition driver_Error (d : ConsoleDriver) (field : string) (err : option string) : DM :=
  match err with None => driver_ok d field | Some e => driver_error d field e end.
Definition driver_Result (d : ConsoleDriver) (data : string) : DM := (mkDriver (level d) (reported d) data, []).

Section console.
(** Whether the killer ends the run, as the default one does. *)
Context (kills : bool).

(** The driver after the calls, what was written, and whether the run goes on. *)
Fixpoint exec_call (d : ConsoleDriver) (c : call) : DM * bool :=
  match c with
  | Run name body =>
      let fix exec_calls (sub : ConsoleDriver) (cs : list call) : DM * bool :=
        match cs with
        | [] => ((sub, []), true)
        | c :: cs =>
            let '((sub1, w1), go) := exec_call sub c in
            if go then let '((sub2, w2), go2) := exec_calls sub1 cs in ((sub2, w1 ++ w2), go2)
            else ((sub1, w1), false)
        end in
      let started := begin_report d ++ printf_ d (name +:+ "...") in
      let '((sub, w), go) := exec_calls (mkDriver (S (level d)) false "") body in
      if go then
        let done := if reported sub then [] else [Colored FgGreen ("OK" +:+ newline)] in
        let shown := if String.eqb (result sub) "" then []
                     else (driver_Info (set_reported sub) "result" (indent sub (result sub))).2 in
        ((set_reported d, started ++ w ++ done ++ shown), true)
      else ((d, started ++ w), false)
  | Info field value => (driver_Info d field value, true)
  | Warn field reason => (driver_Warn d field reason, true)
  | Error field err => (driver_Error d field err, true)
  | Fatal field err =>
      (driver_Error d field err, match err with None => true | Some _ => negb kills end)
  | Result data => (driver_Result d data, true)
  end.

Fixpoint exec_calls (d : ConsoleDriver) (cs : list call) : DM * bool :=
  match cs with
  | [] => ((d, []), true)
  | c :: cs =>
      let '((d1, w1), go) := exec_call d c in
      if go then let '((d2, w2), go2) := exec_calls d1 cs in ((d2, w1 ++ w2), go2)
      else ((d1, w1), false)
  end.
End console.

(** ** null.go *)
Fixpoint null_call (c : call) : list write :=
  match c with Run _ body => mjoin (null_call <$> body) | _ => [] end.

(** ** iobuf.go *)
(** The reads of a reader: chunks, then the end or an error. *)
Record reader := mkReader { chunks : list string; r_err : option string }.

(** The buffer of [io.Copy] grows by each chunk until the end; the bytes read so far
    are returned with an error. *)
Fixpoint copy_into (buf : string) (l : list string) : string :=
  match l with [] => buf | c :: l => copy_into (buf +:+ c) l end.
Definition ReadAll (r : reader) : string * option string := (copy_into "" (chunks r), r_err r).

(** ** upgrade/details/details.go *)
Definition MaxFloat64 : spec_float := S754_finite false (2 ^ 53 - 1)%positive 971.

Definition IsInf (f : spec_float) : bool := match f with S754_infinity _ => true | _ => false end.

Definition MarshalJSON (Marshal : spec_float → res string string) (dr : spec_float) : res string string :=
  if IsInf dr then Marshal MaxFloat64 else Marshal dr.

(** ** Facts *)

Section call_ind.
Variable P : call → Prop.
Hypothesis HRun : ∀ name body, Forall P body → P (Run name body).
Hypothesis HInfo : ∀ f v, P (Info f v).
Hypothesis HWarn : ∀ f r, P (Warn f r).
Hypothesis HError : ∀ f e, P (Error f e).
Hypothesis HFatal : ∀ f e, P (Fatal f e).
Hypothesis HResult : ∀ s, P (Result s).

Fixpoint call_ind' (c : call) : P c :=
  match c with
  | Run name body => HRun name body ((fix go l : Forall P l := match l with [] => Forall_nil_2 P | c :: l => Forall_cons_2 P c l (call_ind' c) (go l) end) body)
  | Info f v => HInfo f v
  | Warn f r => HWarn f r
  | Error f e => HError f e
  | Fatal f e => HFatal f e
  | Result s => HResult s
  end.
End call_ind.

Definition sconcat (l : list string) : string := foldr (λ a b, a +:+ b) "" l.

Lemma sconcat_app l l' : sconcat (l ++ l') = sconcat l +:+ sconcat l'.
Proof. induction l as [|a l IH]; simpl; [done|]. by rewrite IH, sapp_assoc. Qed.

(** *** The report a reader should see: lines with their depth *)
Definition line : Type := nat * string.

Definition data_block (l : nat) (data : string) : string :=
  newline +:+ sconcat ((λ s, Repeat " " (l + 2) +:+ s +:+ newline) <$> Split data "010").

(** The data a test showed last. *)
Definition last_result (cs : list call) : string :=
  foldl (λ acc c, match c with Result s => s | _ => acc end) "" cs.

Section layout.
Context (kills : bool).

Definition verdict (l : nat) (field : string) (err : option string) : line :=
  (l, field +:+ "... " +:+ match err with None => "OK" | Some e => "ERROR " +:+ e end).

Definition then_lines (f : call → list line * bool) : list call → list line * bool :=
  fix go cs :=
    match cs with
    | [] => ([], true)
    | c :: cs => let '(ls, b) := f c in if b then let '(ls', b') := go cs in (ls ++ ls', b') else (ls, false)
    end.

Fixpoint call_lines (l : nat) (c : call) : list line * bool :=
  match c with
  | Run name body =>
      let '(ls, go) := then_lines (call_lines (S l)) body in
      if go then
        ((l, name +:+ "..." +:+ match ls with [] => "OK" | _ => "" end) :: ls ++
           (if String.eqb (last_result body) "" then [] else [(S l, "result: " +:+ data_block (S l) (last_result body))]), true)
      else ((l, name +:+ "...") :: ls, false)
  | Info field value => ([(l, field +:+ ": " +:+ value)], true)
  | Warn field reason => ([(l, field +:+ "... WARN " +:+ reason)], true)
  | Error field err => ([verdict l field err], true)
  | Fatal field err => ([verdict l field err], match err with None => true | Some _ => negb kills end)
  | Result _ => ([], true)
  end.
End layout.

Definition show_line (x : line) : string := Repeat "  " x.1 +:+ x.2 +:+ newline.
Definition show_lines (ls : list line) : string := sconcat (show_line <$> ls).

Definition text_of (w : write) : string := match w with Plain s => s | Colored _ s => s end.
Definition visible (ws : list write) : string := sconcat (text_of <$> ws).

Lemma visible_app a b : visible (a ++ b) = visible a +:+ visible b.
Proof. unfold visible. by rewrite fmap_app, sconcat_app. Qed.
Lemma show_lines_app a b : show_lines (a ++ b) = show_lines a +:+ show_lines b.
Proof. unfold show_lines. by rewrite fmap_app, sconcat_app. Qed.

Lemma visible_printf d s : visible (printf_ d s) = Repeat "  " (level d) +:+ s.
Proof.
  unfold printf_. rewrite visible_app. f_equal; [|apply sapp_nil_r].
  induction (level d) as [|n IH]; [done|]. change (visible (repeat ?x (S n))) with ("  " +:+ visible (repeat x n)). by rewrite IH.
Qed.

Lemma foldl_concat (f : string → string) l : ∀ acc, foldl (λ res x, res +:+ f x) acc l = acc +:+ sconcat (f <$> l).
Proof. induction l as [|x l IH]; intros acc; simpl; [by rewrite sapp_nil_r|]. by rewrite IH, sapp_assoc. Qed.

Lemma indent_block d data : indent d data = data_block (level d) data.
Proof. apply (foldl_concat (λ x, Repeat " " (level d + 2) +:+ x +:+ newline)). Qed.

(** What a driver has written before a report of some lines. *)
Definition lead (d : ConsoleDriver) (ls : list line) : string :=
  if reported d then "" else match ls with [] => "" | _ => newline end.

Section exec.
Context (kills : bool).

(** The calls write the lines, and the driver knows whether any was written. *)
Definition writes_lines (d : ConsoleDriver) (r : DM * bool) (x : list line * bool) : Prop :=
  let '((d', w), go) := r in
  go = x.2 ∧ visible w = lead d x.1 +:+ show_lines x.1 ∧ (go = false → x.1 ≠ []) ∧
  (go = true → level d' = level d ∧ reported d' = reported d || match x.1 with [] => false | _ => true end).

Lemma report_line d ws (x : line) :
  visible ws = show_line x → writes_lines d (report d ws, true) ([x], true).
Proof.
  intros Hw. unfold writes_lines, report. conjs; [done| |done|intros _; by rewrite orb_true_r].
  rewrite visible_app, Hw. unfold begin_report, lead, show_lines, sconcat. simpl. rewrite sapp_nil_r. by destruct (reported d).
Qed.

Lemma Error_line d field err : writes_lines d (driver_Error d field err, true) ([verdict (level d) field err], true).
Proof.
  destruct err as [e|]; apply report_line; rewrite visible_app, visible_printf;
    unfold show_line, verdict, visible, sconcat; simpl; by rewrite ?sapp_nil_r, !sapp_assoc.
Qed.

Lemma exec_run d name body : exec_call kills d (Run name body) =
  let started := begin_report d ++ printf_ d (name +:+ "...") in
  let '((sub, w), go) := exec_calls kills (mkDriver (S (level d)) false "") body in
  if go then
    let done := if reported sub then [] else [Colored FgGreen ("OK" +:+ newline)] in
    let shown := if String.eqb (result sub) "" then []
                 else (driver_Info (set_reported sub) "result" (indent sub (result sub))).2 in
    ((set_reported d, started ++ w ++ done ++ shown), true)
  else ((d, started ++ w), false).
Proof. reflexivity. Qed.

Lemma exec_calls_lines l cs : 
  Forall (λ c, ∀ d, level d = l → writes_lines d (exec_call kills d c) (call_lines kills l c)) cs →
  ∀ d, level d = l → writes_lines d (exec_calls kills d cs) (then_lines (call_lines kills l) cs).
Proof.
  induction 1 as [|c cs Hc _ IH]; intros d Hl; simpl.
  { conjs; [done| |done|intros _; by rewrite orb_false_r]. unfold lead. by destruct (reported d). }
  specialize (Hc d Hl). destruct (exec_call kills d c) as [[d1 w1] go]. destruct (call_lines kills l c) as [ls b].
  unfold writes_lines in Hc. simpl in Hc. destruct Hc as (-> & Hw & Hne & Hd). destruct b.
  2: { unfold writes_lines. by conjs. }
  destruct (Hd eq_refl) as [Hl1 Hr1]. specialize (IH d1 (eq_trans Hl1 Hl)).
  destruct (exec_calls kills d1 cs) as [[d2 w2] go2]. destruct (then_lines (call_lines kills l) cs) as [ls' b'].
  unfold writes_lines in *. simpl in *. destruct IH as (-> & Hw2 & Hne2 & Hd2).
  conjs; [done| | |].
  - rewrite visible_app, Hw, Hw2, show_lines_app. unfold lead in *. rewrite Hr1.
    destruct (reported d), ls, ls'; simpl; rewrite ?sapp_nil_r, ?sapp_assoc; done.
  - intros Hb [-> ->]%app_eq_nil. by apply Hne2.
  - intros Hb. destruct (Hd2 Hb) as [-> ->]. split; [done|]. rewrite Hr1.
    by destruct (reported d), ls, ls'.
Qed.
Lemma exec_call_result d c d' w : exec_call kills d c = ((d', w), true) →
  result d' = match c with Result s => s | _ => result d end.
Proof.
  destruct c as [name body|f v|f r|f e|f e|s]; [rewrite exec_run|simpl..].
  - destruct (exec_calls _ _ body) as [[sub w'] []]; [|done]. by intros [= <- _].
  - by intros [= <- _].
  - by intros [= <- _].
  - destruct e; by intros [= <- _].
  - destruct e; by intros [= <- _].
  - by intros [= <- _].
Qed.

Lemma exec_calls_result cs : ∀ d d' w, exec_calls kills d cs = ((d', w), true) →
  result d' = foldl (λ acc c, match c with Result s => s | _ => acc end) (result d) cs.
Proof.
  induction cs as [|c cs IH]; intros d d' w; simpl; [by intros [= -> _]|].
  destruct (exec_call kills d c) as [[d1 w1] []] eqn:H1; [|done].
  destruct (exec_calls kills d1 cs) as [[d2 w2] go2] eqn:H2. intros [= <- _ ->].
  rewrite (IH _ _ _ H2). by rewrite (exec_call_result _ _ _ _ H1).
Qed.

Lemma exec_run_lines l name body :
  Forall (λ c, ∀ l d, level d = l → writes_lines d (exec_call kills d c) (call_lines kills l c)) body →
  ∀ d, level d = l → writes_lines d (exec_call kills d (Run name body)) (call_lines kills l (Run name body)).
Proof.
  intros Hb d Hl. rewrite exec_run. change (call_lines kills l (Run name body)) with
    (let '(ls, go) := then_lines (call_lines kills (S l)) body in
      if go then
        ((l, name +:+ "..." +:+ match ls with [] => "OK" | _ => "" end) :: ls ++
           (if String.eqb (last_result body) "" then [] else [(S l, "result: " +:+ data_block (S l) (last_result body))]), true)
      else ((l, name +:+ "...") :: ls, false)).
  assert (Hsub := exec_calls_lines (S l) body (Forall_impl _ _ _ Hb (λ c H, H (S l))) (mkDriver (S (level d)) false "")
    (f_equal S Hl)).
  pose proof (exec_calls_result body (mkDriver (S (level d)) false "")) as Hres.
  destruct (exec_calls kills _ body) as [[sub w] go]. destruct (then_lines _ body) as [ls b].
  unfold writes_lines in Hsub. simpl in Hsub. destruct Hsub as (-> & Hw & Hne & Hd). subst l.
  set (pre := if reported d then "" else newline).
  assert (Hstart : visible (begin_report d ++ printf_ d (name +:+ "...")) = pre +:+ Repeat "  " (level d) +:+ name +:+ "...").
  { rewrite visible_app, visible_printf. f_equal. unfold begin_report, pre. by destruct (reported d). }
  assert (Hlead : ∀ x r, lead d (x :: r) = pre) by done.
  destruct b.
  - destruct (Hd eq_refl) as [Hls Hrs]. specialize (Hres _ _ eq_refl). cbv zeta.
    change (result sub = last_result body) in Hres.
    unfold writes_lines. conjs; [done| |done|intros _; split; [done|by rewrite orb_true_r]].
    cbn [fst]. rewrite visible_app, Hstart, Hlead, visible_app, visible_app, Hw, Hres.
    change (show_lines (?x :: ?r)) with (show_line x +:+ show_lines r). rewrite show_lines_app.
    unfold show_line, lead. simpl in Hrs. rewrite Hrs. cbn [fst snd].
    destruct (String.eqb (last_result body) "").
    + destruct ls; simpl; rewrite ?sapp_nil_r, ?sapp_assoc; reflexivity.
    + unfold driver_Info, report. cbn [snd]. rewrite visible_app, visible_printf, indent_block.
      cbn [level set_reported]. rewrite Hls. cbn [level]. unfold begin_report. cbn [reported set_reported].
      change (visible []) with "". unfold show_lines, sconcat, show_line. cbn [fmap list_fmap foldr fst snd].
      destruct ls; simpl; rewrite ?sapp_nil_r, ?sapp_assoc; reflexivity.
  - unfold writes_lines. conjs; [done| |done|done]. cbn [fst]. rewrite visible_app, Hstart, Hlead, Hw.
    change (show_lines (?x :: ?r)) with (show_line x +:+ show_lines r). unfold show_line, lead. cbn [fst snd reported].
    specialize (Hne eq_refl). destruct ls; [done|]. by rewrite !sapp_assoc.
Qed.

Lemma exec_call_lines c : ∀ l d, level d = l → writes_lines d (exec_call kills d c) (call_lines kills l c).
Proof.
  induction c as [name body Hb|f v|f r|f e|f e|s] using call_ind'; intros l d Hl.
  - by apply exec_run_lines.
  - subst l. apply report_line. rewrite visible_printf. unfold show_line. simpl. by rewrite !sapp_assoc.
  - subst l. apply report_line. rewrite visible_app, visible_printf. unfold show_line, visible, sconcat. simpl.
    by rewrite ?sapp_nil_r, !sapp_assoc.
  - subst l. apply Error_line.
  - subst l. pose proof (Error_line d f e) as He. simpl. unfold writes_lines in *.
    destruct (driver_Error d f e) as [d' w]. simpl in *. destruct He as (_ & Hw & _ & Hd). conjs; [done|exact Hw|done|by intros _; apply Hd].
  - unfold writes_lines. simpl. conjs; [done| |done|intros _; by rewrite orb_false_r]. unfold lead. by destruct (reported d).
Qed.
End exec.

(** The report of any test, tests within tests included, is laid out as meant
    although it is written piece by piece: every result is on a line of its own,
    indented by its depth, below the line of its test; a test without a line of its
    own ends its line with OK; and where the killer ends the run, the report ends
    after the line of the fatal error. *)
Theorem console_layout (kills : bool) (cs : list call) :
  let '((_, ws), go) := exec_calls kills NewConsoleDriver cs in
  visible ws = show_lines (then_lines (call_lines kills 0) cs).1 ∧
  go = (then_lines (call_lines kills 0) cs).2.
Proof.
  assert (Hall : Forall (λ c, ∀ d, level d = 0%nat → writes_lines d (exec_call kills d c) (call_lines kills 0 c)) cs)
    by (apply Forall_forall; intros; by apply exec_call_lines).
  pose proof (exec_calls_lines kills 0 cs Hall NewConsoleDriver eq_refl) as H.
  destruct (exec_calls kills NewConsoleDriver cs) as [[d w] go]. destruct H as (-> & Hw & _). by split.
Qed.

(** The null driver writes nothing and never ends a test. *)
Theorem null_silent (c : call) : null_call c = [].
Proof.
  induction c as [name body Hb|?|?|?|?|?] using call_ind'; try done.
  change (mjoin (null_call <$> body) = []). induction Hb as [|c body Hc _ IH]; [done|].
  change (null_call c ++ mjoin (null_call <$> body) = []). by rewrite Hc, IH.
Qed.

Example console_sample :
  visible (exec_calls true NewConsoleDriver
    [Run "tcp" [Run "dns" []; Run "dial" [Warn "tls" "off"; Result "up"]; Fatal "send" (Some "reset"); Info "never" "seen"]]).1.2 =
  "tcp..." +:+ newline +:+ "  dns...OK" +:+ newline +:+ "  dial..." +:+ newline +:+ "    tls... WARN off" +:+ newline +:+
  "    result: " +:+ newline +:+ "    up" +:+ newline +:+ newline +:+ "  send... ERROR reset" +:+ newline.
Proof. vm_compute. reflexivity. Qed.

(** *** Reading *)
(** The text is that of all reads, also when the reader fails. *)
Theorem ReadAll_spec (r : reader) : ReadAll r = (sconcat (chunks r), r_err r).
Proof.
  unfold ReadAll. f_equal. assert (H : ∀ acc, copy_into acc (chunks r) = acc +:+ sconcat (chunks r)); [|apply H].
  induction (chunks r) as [|c l IH]; intros acc; simpl; [by rewrite sapp_nil_r|]. by rewrite IH, sapp_assoc.
Qed.

(** *** Download rates *)
(** [json.Marshal] refuses exactly the numbers JSON does not have. *)
Definition marshals_finite (Marshal : spec_float → res string string) : Prop :=
  ∀ f, (∃ s, Marshal f = Ok s) ↔ match f with S754_infinity _ | S754_nan => False | _ => True end.

(** Only a rate that is not a number cannot be encoded. *)
Theorem MarshalJSON_infinite Marshal (dr : spec_float) :
  marshals_finite Marshal → ((∃ s, MarshalJSON Marshal dr = Ok s) ↔ dr ≠ S754_nan).
Proof.
  intros HM. unfold MarshalJSON. destruct dr as [s|s| |s m e]; simpl; (etransitivity; [apply HM|]); split; naive_solver.
Qed.

(** Both infinities become the greatest finite number, so a rate of minus infinity
    reads as the greatest rate. *)
Theorem MarshalJSON_loses_sign Marshal :
  MarshalJSON Marshal (S754_infinity true) = MarshalJSON Marshal (S754_infinity false).
Proof. reflexivity. Qed.
